(* ===== verification/_CoqProject ===== *)
-Q . S2P
Prelude.v
Codec.v
EnumCodec.v
BTreeMap.v
Types.v
Context.v
ExecutorContext.v
Dispatch.v
Balance.v
Voting.v
Vm.v
ContractSdk.v
ContractVm.v
ContractModule.v
Administration.v
Poa.v
RaftModule.v
HotstuffModule.v
SystemModule.v
Executor.v
ExecutorProofs.v
Algorithms.v
TxPool.v
ConsensusSupport.v
BlockVerifier.v
Engine.v
ContractConfined.v
ContractNesting.v
ContractLedger.v
TokenContract.v
PoaEngine.v
Db.v
Statedb.v
ChainData.v
Chain.v
ChainProofs.v
ChainBuild.v
ChainCommit.v
Genesis.v
GenesisProofs.v
ChainSupport.v
ChainLeader.v
ChainSamples.v
PoaLeader.v
PeerManager.v
PeerManagerProofs.v
NetworkHandler.v
NetworkProtocol.v
NetworkSessions.v
RaftProtocol.v
RaftStorage.v
RaftVerifier.v
RaftStream.v
RaftState.v
RaftNode.v
RaftLoops.v
RaftVotes.v
RaftCommit.v
HotstuffProtocol.v
HotstuffAuthorities.v
HotstuffStorage.v
HotstuffVerifier.v
HotstuffStream.v
HotstuffState.v
HotstuffNode.v
HotstuffQuorum.v
HotstuffFrames.v
HotstuffRuns.v
HotstuffSafety.v
HotstuffFindings.v
CoordProtocol.v
CoordSupport.v
CoordVerifier.v
CoordSync.v
CoordStream.v
CoordWindow.v
CoordSamples.v
CoordServe.v
CoordChain.v
Api.v
