(* ===== verification/Prelude.v ===== *)
(** * A verification development for Finastate

    Finastate is a blockchain node in Rust.  This library translates its core
    logic into executable definitions, operation by operation and error by
    error, and proves what makes each part correct.  File and function names
    below are relative to [src/].

    ** The program and its parts

    A transaction ([core/primitives]) is a call of a module method with a
    witness.  The executor ([core/node/executor]) validates it, runs it against
    a context over the state database and commits or discards what it wrote.
    The modules ([core/module]) are the runtime: balances, chain parameters,
    the administrations of the consensus engines, and contracts, whose
    WebAssembly code runs on a machine ([core/node/vm]).  Transactions wait in the
    pool ([core/node/txpool]); a consensus engine
    ([core/node/consensus/raft], [hotstuff], [poa]) proposes, agrees on and
    commits blocks through the chain ([core/node/chain]); the coordinator
    ([core/node/coordinator]) synchronises blocks and transactions between
    peers, over the sessions that the network ([core/node/network]) opens on
    the connections that the peer manager ([core/node/peer-manager]) wants.

    ** What models what

    - [Prelude]: Rust's [Result], the state-and-error monad [M] (an error does
      not undo earlier writes), machine integers with their wrap-around (the
      release profile does not check overflow), sums, automation.
    - [Codec]: the boundary to the SCALE codec, with a concrete codec for
      examples.  [EnumCodec]: the codec that [utils/enum-codec] derives.
      [BTreeMap]: the ordered map of the standard library.
    - [Types]: the data of [core/primitives] and the error values of all parts.
    - [Context], [ExecutorContext]: the interface of a module to its storage
      ([core/node/executor/primitives]) with its laws, and the context of the
      executor ([ContextEssence], [Context] of [core/node/executor/src/lib.rs]),
      which satisfies them over any state database.
      [Context] also holds the class of calls that touch only a part of a
      context; [Samples], in [ExecutorContext], has concrete contexts.
    - [Dispatch]: what the macros of [executor-macro] expand to.
    - [Balance], [SystemModule], [Poa], [RaftModule], [HotstuffModule]: one
      module of [core/module] each, one definition per method.  [Voting] and
      [Administration] hold the proposals and votes that the last three and the
      contract module repeat, once, over the handles, events and decision of a
      poll (the class [PollLaws] states what a poll's storage promises).
    - [Vm]: the machine of contracts: the imports ([core/node/vm/src/import.rs])
      with their shares and memory, its errors, [validate] and [execute].  The
      engine and the check of the code are the class [WasmLib], for which the
      code of a contract is a tree of calls of imports; what a machine asks of
      its surroundings ([trait VMContext]) is the class [VMContext].
    - [ContractVm]: the instance of it for a contract
      ([core/module/contract/src/vm.rs]).  The contexts share their stack of
      buffers and their nested context through [Rc] and [RefCell]: those are a
      store of levels and cells ([World]), to which the contexts point.
      [ContractModule]: the methods of the module ([lib.rs]).
    - [ContractConfined], [ContractNesting], [ContractLedger]: the theorems on
      contracts, and in [ContractLedger.ContractSamples] an engine of a few
      concrete contracts, and what the module does not guard against.
    - [ContractSdk]: the library that contracts are written with
      ([core/node/vm/contract-sdk]) and what its macro expands to
      ([contract-sdk-macro]).  A computation of a contract is a program of
      imports over the memory of its instance ([ContractSdk.Code]); what it
      means is a computation on the context of the machine
      ([ContractSdk.Meaning]); both are instances of the class [SdkLib], so that
      a contract is written once.  A stored value is read at [Option], as the
      code does: a stored [null] is no value (a finding).  The allocator is the
      class [Toolchain].
      [TokenContract]: the sample token ([contract-samples/token]), written so,
      a ledger with allowances, and a concrete run on the contract module.
    - [Executor] and [ExecutorProofs]: the operations of the executor, and
      their theorems.  Cryptography is an argument, and so is the contract
      module: the theorems hold for any that is confined to its part of a
      context, as [ContractModule.contract_module] is.
    - [Algorithms]: the hashes, signatures and addresses that a chain names
      ([core/crypto]), over the libraries as the class [CryptoLib] with its laws;
      their encodings, the dynamic libraries, the instance of the executor's
      interface [Crypto] that they make, and the hashes that the tries load
      ([core/node/statedb/src/trie.rs]).
    - [TxPool]: the pool; its theorems are about every interleaving of the
      atomic accesses of concurrent calls and of the buffer task.
    - [ConsensusSupport]: the class of what an engine uses of the chain
      ([core/node/consensus/base/src/support.rs]), with a small concrete chain.
      [BlockVerifier]: the checks of a proposed block.
    - [Engine]: what the raft and hotstuff tasks share: instants, peers, the
      messages they are sent, panics and errors; with the classes [Frames]
      (a call leaves a view of the state alone) and [Keeps] (it keeps a
      property of the state), whose instances follow the structure of a call.
    - [Db] and [Statedb]: the key-value database ([core/node/db]) as the finite
      map it stores, whose writes are atomic and may fail, and the state
      database ([core/node/statedb]) over it; the trie is a library behind the
      class [TrieLib] with its laws [TrieLaws].  What a state promises, and the
      module [TrieSample], a concrete trie that satisfies the laws, are in
      [Statedb] too.
    - [ChainData] and [Chain]: [core/node/chain] — the backend's state and
      what is read of it; calls, validation, building and committing of blocks
      and executions, the queue of executions ([execute.rs]).  [Genesis]: the
      genesis block and the start of the backend; the parsers of toml, json and
      dates are the class [GenesisLib].  [ChainSupport]: the chain and the pool
      behind the consensus engines, the instance of [ConsensusSupport].
    - [ChainProofs], [ChainBuild],
      [ChainCommit], [GenesisProofs],
      [ChainLeader]: the theorems of the chain.  [ChainSamples]: a concrete
      chain of two blocks.
    - [PoaEngine]: the scheduler ([core/node/consensus/base/src/scheduler.rs])
      and the poa engine ([core/node/consensus/poa]) over [ConsensusSupport].
      [PoaLeader]: its turn on the chain and the pool.
    - [PeerManager]: [core/node/peer-manager] over a linked hash map (the class
      [LinkedHashMapLib]); [PeerManagerProofs]: its theorems.
    - [NetworkHandler]: the protocol on one connection
      ([core/node/network/src/protocol/handler.rs], [upgrade.rs]), whose sockets
      and clock are arguments.  [NetworkProtocol]: the behaviour over all peers
      ([protocol.rs]), with the peer manager inside it.  [NetworkSessions]: its
      theorems.
    - [CoordProtocol], [CoordSupport], [CoordVerifier], [CoordSync],
      [CoordStream]: the coordinator, file by file
      ([core/node/coordinator/src/protocol.rs], [support.rs], [verifier.rs],
      [sync.rs], [stream.rs]), over the class [CoordinatorSupport], of which
      [CoordSupport] makes the instance for the chain, the pool and the engine
      that the chain names ([core/node/consensus/src/lib.rs]).  The LRU caches
      are the class [LruLib].
    - [CoordWindow], [CoordServe], [CoordChain]: its theorems.
      [CoordSamples] has concrete nodes, and what the coordinator does not
      guard against.
    - [Api]: the interface for users ([core/node/api]): the texts of numbers,
      hashes and bytes, the data that is shown, the methods over the class
      [ApiSupport], and its instance over the chain and the pool.  The crate that
      writes hex is the class [HexLib].
    - [RaftProtocol], [RaftStorage], [RaftVerifier], [RaftStream], [RaftState],
      [RaftNode]: the raft engine, file by file: messages; the persistent
      storage, with a disk that may refuse any write; the verifier and the
      proofs of blocks; the handlers of [stream.rs]; the leader, candidate,
      follower, observer and replication tasks of [stream/state.rs]; and the
      task as a state machine whose events are the branches of the [select!]s,
      with [spawn] on the data of a disk, and concrete nodes.
    - [RaftVotes], [RaftCommit], [RaftLoops]: its theorems.
    - [HotstuffProtocol], [HotstuffAuthorities], [HotstuffStorage],
      [HotstuffVerifier], [HotstuffStream], [HotstuffState], [HotstuffNode]: the
      hotstuff engine in the same way.  The order in which a [HashMap] is
      iterated over is an argument (the class [HashOrder]), so that what is
      proved holds for all of them.
    - [HotstuffQuorum]: certificates and the collectors that
      make them.  [HotstuffFrames], [HotstuffRuns]: what a
      leader does over the life of its task.  [HotstuffSafety]:
      replicas, leadership and the storage.
      [HotstuffFindings]: what the engine does not check.

    ** What the theorems show

    - The balance module refines an abstract ledger; money is conserved by any
      sequence of transfers and by any executed batch; a transfer fails exactly
      in the two documented cases.
    - The authorities and the administration of a consensus change only when a
      quorum of the administration has voted, whatever sequence of calls is
      made; the outcome of every vote, rejections included; initial values are
      read back.
    - Contracts, whatever their code does: an execution writes balances and the
      data of contracts only; what has been created is read back, and the
      code is replaced by a vote that passes; calls of contracts nest no deeper
      than the limit of the configuration.  A contract that calls no other one
      moves money as the ledger does, and nobody but its caller and itself is
      charged.  The findings: nested calls make money and spend for another
      contract, and a trap of a contract ends the batch.
    - The machine runs the code of a contract, with its memory, shares, texts
      of errors and generated dispatch, as what it means on the context: so
      the token refines its ledger, and its supply changes by payments to
      oneself only, which make tokens (a finding).
    - A transaction commits as a whole or leaves no trace; a batch yields one
      receipt per transaction in order, whose result is the answer of the
      module; a call that is built is dispatched to its method; a witness that is
      built validates, and a transaction that validates is what the owner of the
      key has ordered on this chain, unless its signature is a forgery.
    - The database holds a chain: every block is the child of the one before,
      its transactions are there as they were committed, with the receipts of
      the meta ones, and the blocks up to the execution number have been
      executed.  The genesis block starts it from a specification, a
      restart finds it as it was left, a committed block makes it one longer or
      changes nothing, whatever write fails.  The queue of executions refines a
      machine that only executes the next block over the execution of its
      parent.  The state that a block leaves is what the next one reads, down
      to the trie.  A leader's turn on the pool and the chain, through the
      interface of the engines, extends the chain by the valid transactions.
    - The turn of a poa authority extends the chain by a block of valid
      transactions of its pool, meta and payload, which leave the pool, with a
      proof that every node with that authority accepts.
    - The coordinator: its window of blocks keeps its shape, and its task
      panics only where the engine does on the proof of the next block, whatever
      its peers send below a bound on the numbers that they claim; the groups it requests cover exactly
      what nobody downloads; a request is answered with consecutive blocks,
      after a bounded number of turns; a block of a peer is committed whole,
      after all checks, or leaves the chain as it is.  The composition of two
      nodes: a block that a leader prepares and commits is served as it was
      made, and a node in the state that the leader started from accepts it and
      is in the leader's state again.
    - The built-in algorithms fill the buffers of the executor and their
      signatures validate, unless the addresses of the chain are keys of another
      length (those of a dynamic library may not: a finding); the
      encodings of SM2 are read back.  A transaction goes through the interface
      from the method that builds it to the one that finds it, and the chain can
      be walked through it from any block to the first, each shown with every
      field of its header, its lists and its transactions.
    - The peer manager keeps its slots, and its messages say exactly which
      peers are active.  The events of a connection follow the protocol, and
      the network tells the coordinator of sessions that open and close in
      turns, in all interleavings of its inputs.
    - The pool never queues a transaction twice and its map is exact, for all
      interleavings in which a removal does not overtake a queued insertion,
      and a counterexample for the others; a bound on its size.
    - Raft: a node votes once per term over its whole life, with faults and
      restarts (under the conditions below); a granted vote is on disk before the reply; an acknowledged
      append makes the follower's log the leader's and implies that the
      referenced proposal is held; a leader commits what a majority has
      reached; an accepted proposal is the next block, with exact bounds on its
      execution gap in spite of the eight-bit truncation; a restart recovers
      what any writes have left of the storage, over whatever block was
      confirmed meanwhile; the loops of the task are always left for
      the loop of its state.
    - Hotstuff: the aggregated authorities are the sums of the weights; two
      certificates of distinct signers share more than the faulty weight; over
      the life of a task every certificate that a leader sends is accepted by
      the nodes with its authorities, in whatever order votes come and maps are
      iterated; over the life of a node, restarts and failed writes included, a
      replica votes only for proposals that it has verified before it kept them,
      and for certificates that verify, once they are on its disk; the leadership rotates over all authorities;
      a refresh moves the storage above the last block; the loop over the views
      settles.  The findings: certificates with repeated signatures or of view
      zero, votes for two nodes in one view, old certificates of timeouts, and
      a vote that comes before a proposal.

    ** Bounds and fuel

    [RaftNode.settle] follows at most two changes of loop per event, and
    [RaftLoops.settle_reaches_state] proves that this is enough;
    [HotstuffNode.settle] follows one change of view, and
    [HotstuffRuns.view_loop_settles] proves that more change nothing.
    [PeerManager.activate] has [activate_fuel] turns, and
    [PeerManagerProofs.activation_saturates] proves that more change nothing;
    the loop of [NetworkProtocol.poll] takes any number of turns, and
    [NetworkSessions.manager_loop_ends] proves that it ends; the loop over the
    downloaded blocks has one turn more than the window has blocks
    ([CoordServe.downloaded_loop_ends]), and that over requested blocks as many
    as are asked for ([CoordServe.request_served]).  The nesting of contracts
    has [ContractVm.nest_fuel] levels, and [ContractNesting.nesting_ends] proves
    that more change nothing.  No other definition takes fuel.  The theorems
    about certificates assume that the total weight of the authorities fits in
    [u32] ([HotstuffQuorum.electable]).  The theorems about states assume that a
    node that is written does not give another value to a key that is there
    ([Statedb.fresh]: keys are hashes), and those about blocks that numbers stay
    below 2^64.  The one-vote theorem assumes that terms stay three below 2^64
    ([RaftVotes.room]); [RaftNode.outsider_resets_terms] shows what happens
    otherwise.  It also assumes that a running node's disk does not fail in the
    middle of a refresh; every other write may fail.  The theorem on the window
    of the coordinator assumes that peers claim numbers below 2^64 - 1, that
    committed blocks are announced in order, and that the errors of the chain,
    the pool and the engine are not those of the coordinator's verifier
    ([CoordWindow.admissible]).  The theorems about the
    library of contracts assume that a share can be addressed and that there can
    be two of them ([ShareLimits]); those about the token that valid addresses
    have one length ([AddressLaws]) and that the cells of its storage are apart
    ([StorageLaws], which the context of a contract of the module satisfies when
    hashes do not collide).

    ** Not modelled

    The third-party libraries (SCALE, serde, signatures, hashes, the trie, the
    database, the network, the WebAssembly engine), logging, and glue (the
    server of the API, service, command line, the macros that declare a dynamic
    library of algorithms).  A signature of SM2 is a function of its key and
    message, though the library draws a number for it.  Channels are
    queues of the state; a send on a closed channel, which only happens at
    shutdown, is left out.  Of the network, the transport, the discovery and the
    swarm are libp2p and left out.  Of the virtual machine, the pre-compilation
    transforms WebAssembly with a library; for the theorems on the contract
    module a contract is any finite tree of calls of imports.  Of the macro, the
    parsing of attributes is not modelled; the samples other than the token are
    not either.  The pre-compilation bounds the stack and not the time: the code
    of a contract that loops for ever has no tree, and is left out.  The cache
    of compiled modules is an argument.  The agreement of several raft nodes is
    not stated: what the theorems show is what one node may rely on. *)

From Stdlib Require Import Strings.Byte.
From stdpp Require Import countable.
From stdpp Require Export base numbers option strings gmap sets list.

(** ** Bytes *)

#[export] Instance byte_eq_dec : EqDecision byte := Byte.byte_eq_dec.

#[export] Program Instance byte_countable : Countable byte :=
  inj_countable Byte.to_N Byte.of_N _.
Next Obligation. intros b. apply Byte.of_to_N. Qed.

(** [Vec<u8>] and [&[u8]]. *)
Abbreviation bytes := (list byte).

(** A Rust byte-string literal [b"..."]. *)
Definition b (s : string) : bytes := String.list_byte_of_string s.

(** ** Rust's [Result] *)

Inductive result (E A : Type) : Type :=
| Ok (a : A)
| Err (e : E).
Arguments Ok {E A} a.
Arguments Err {E A} e.

Definition is_ok {E A} (r : result E A) : bool :=
  match r with Ok _ => true | Err _ => false end.

Definition result_bind {E A B} (r : result E A) (k : A → result E B) : result E B :=
  match r with Ok a => k a | Err e => Err e end.

(** [r.map_err(f)]. *)
Definition map_err {E F A} (f : E → F) (r : result E A) : result F A :=
  match r with Ok a => Ok a | Err e => Err (f e) end.

(** [o.ok_or(e)]. *)
Definition ok_or {E A} (e : E) (o : option A) : result E A :=
  match o with Some a => Ok a | None => Err e end.

(** ** Fallible computations on a mutable state

    [M S E A] is a call that reads and writes the state [S] and returns
    [Result<A, E>].  As in the code an error does not undo the writes that
    precede it: the final state is returned on both branches. *)
Definition M (S E A : Type) : Type := S → result E A * S.

Section Monad.
Context {S E : Type}.

Definition ret {A} (a : A) : M S E A := λ s, (Ok a, s).
Definition throw {A} (e : E) : M S E A := λ s, (Err e, s).
Definition bind {A B} (m : M S E A) (k : A → M S E B) : M S E B :=
  λ s, match m s with
       | (Ok a, s') => k a s'
       | (Err e, s') => (Err e, s')
       end.
Definition lift {A} (r : result E A) : M S E A := λ s, (r, s).
Definition asks {A} (f : S → A) : M S E A := λ s, (Ok (f s), s).
Definition modify (f : S → S) : M S E unit := λ s, (Ok tt, f s).

(** [for x in l { f(x)?; }] *)
Fixpoint for_each {A} (f : A → M S E unit) (l : list A) : M S E unit :=
  match l with
  | [] => ret tt
  | x :: l => bind (f x) (λ _, for_each f l)
  end.
End Monad.

Declare Scope call_scope.
Delimit Scope call_scope with call.
Notation "'let!' x := m 'in' k" := (bind m (λ x, k))
  (at level 10, x pattern, m at level 200, k at level 200) : call_scope.
Notation "'do!' m 'in' k" := (bind m (λ _, k))
  (at level 10, m at level 200, k at level 200) : call_scope.
Notation "'let?' x := r 'in' k" := (result_bind r (λ x, k))
  (at level 10, x pattern, r at level 200, k at level 200) : call_scope.
Open Scope call_scope.

(** A computed outcome, with the state it leaves. *)
Lemma outcome_eq {A B} (x : A * B) a : x.1 = a → x = (a, x.2).
Proof. by destruct x; intros <-. Qed.

Section MonadLaws.
Context {S E : Type}.

Lemma bind_ret {A B} (a : A) (k : A → M S E B) s : bind (ret a) k s = k a s.
Proof. reflexivity. Qed.

Lemma bind_throw {A B} (e : E) (k : A → M S E B) s : bind (throw e) k s = (Err e, s).
Proof. reflexivity. Qed.

Lemma bind_lift_ok {A B} (a : A) (k : A → M S E B) s : bind (lift (Ok a)) k s = k a s.
Proof. reflexivity. Qed.

Lemma bind_asks {A B} (f : S → A) (k : A → M S E B) s : bind (asks f) k s = k (f s) s.
Proof. reflexivity. Qed.

Lemma bind_modify {A} (f : S → S) (k : unit → M S E A) s : bind (modify f) k s = k tt (f s).
Proof. reflexivity. Qed.

Lemma bind_ok {A B} (m : M S E A) (k : A → M S E B) a s s' :
  m s = (Ok a, s') → bind m k s = k a s'.
Proof. unfold bind. by intros ->. Qed.

Lemma bind_err {A B} (m : M S E A) (k : A → M S E B) e s s' :
  m s = (Err e, s') → bind m k s = (Err e, s').
Proof. unfold bind. by intros ->. Qed.

Lemma bind_assoc {A B C} (m : M S E A) (k : A → M S E B) (h : B → M S E C) s :
  bind (bind m k) h s = bind m (λ a, bind (k a) h) s.
Proof. unfold bind. by destruct (m s) as [[] ]. Qed.

Lemma bind_inv_ok {A B} (m : M S E A) (k : A → M S E B) r s s' :
  bind m k s = (Ok r, s') → ∃ a s1, m s = (Ok a, s1) ∧ k a s1 = (Ok r, s').
Proof. unfold bind. destruct (m s) as [[a|e] s1]; naive_solver. Qed.

(** A property of the state kept by every step of a loop is kept by the
    loop, whether it ends or stops at an error. *)
Lemma for_each_inv {A} (P : S → Prop) (f : A → M S E unit) l s :
  (∀ x s, x ∈ l → P s → P (f x s).2) → P s → P (for_each f l s).2.
Proof.
  revert s. induction l as [|x l IH]; intros s Hf Hs; [done|]. simpl. unfold bind.
  assert (P (f x s).2) as Hx by (apply Hf; [left|done]).
  destruct (f x s) as [[[]|e] s']; simpl in *; [|done].
  apply IH; [|done]. intros y s'' Hy. apply Hf. by right.
Qed.
End MonadLaws.

(** ** Machine integers: the release profile does not check overflow, so
    [+], [-] and [as] wrap around. *)

Definition is_u8 (z : Z) : Prop := (0 ≤ z < 2 ^ 8)%Z.
Definition is_u32 (z : Z) : Prop := (0 ≤ z < 2 ^ 32)%Z.
Definition is_u64 (z : Z) : Prop := (0 ≤ z < 2 ^ 64)%Z.
Definition is_i8 (z : Z) : Prop := (- 2 ^ 7 ≤ z < 2 ^ 7)%Z.

Definition u32 (z : Z) : Z := (z mod 2 ^ 32)%Z.
Definition u64 (z : Z) : Z := (z mod 2 ^ 64)%Z.
(** [z as i8]: the low eight bits, read as two's complement. *)
Definition i8 (z : Z) : Z := ((z + 2 ^ 7) mod 2 ^ 8 - 2 ^ 7)%Z.

#[export] Instance is_u8_dec z : Decision (is_u8 z) := _.
#[export] Instance is_u32_dec z : Decision (is_u32 z) := _.
#[export] Instance is_u64_dec z : Decision (is_u64 z) := _.
#[export] Instance is_i8_dec z : Decision (is_i8 z) := _.

Lemma u32_range z : is_u32 (u32 z).
Proof. unfold is_u32, u32. apply Z.mod_pos_bound. lia. Qed.
Lemma u64_range z : is_u64 (u64 z).
Proof. unfold is_u64, u64. apply Z.mod_pos_bound. lia. Qed.
Lemma i8_range z : is_i8 (i8 z).
Proof. unfold is_i8, i8. pose proof (Z.mod_pos_bound (z + 2 ^ 7) (2 ^ 8)). lia. Qed.
Lemma u32_id z : is_u32 z → u32 z = z.
Proof. apply Z.mod_small. Qed.
Lemma u64_id z : is_u64 z → u64 z = z.
Proof. apply Z.mod_small. Qed.
Lemma i8_id z : is_i8 z → i8 z = z.
Proof. unfold is_i8, i8. intros H. rewrite Z.mod_small; lia. Qed.

(** [a.overflowing_add(b)] and [a.overflowing_sub(b)] on [u64]. *)
Definition overflowing_add (x y : Z) : Z * bool := (u64 (x + y), bool_decide (2 ^ 64 ≤ x + y)%Z).
Definition overflowing_sub (x y : Z) : Z * bool := (u64 (x - y), bool_decide (x < y)%Z).

(** ** Integers as bytes, the most significant first: [to_be_bytes] of an
    integer of [n] bytes, and [from_be_bytes] *)
Definition byte_of (z : Z) : byte := default Byte.x00 (Byte.of_N (Z.to_N z)).
Definition byte_value (c : byte) : Z := Z.of_N (Byte.to_N c).
Fixpoint to_be_bytes (n : nat) (z : Z) : bytes :=
  match n with
  | O => []
  | S n => to_be_bytes n (z / 2 ^ 8) ++ [byte_of (z mod 2 ^ 8)]
  end.
Definition be_value (acc : Z) (bs : bytes) : Z := foldl (λ acc c, acc * 2 ^ 8 + byte_value c)%Z acc bs.
Definition from_be_bytes (bs : bytes) : Z := be_value 0 bs.

Lemma byte_value_range c : (0 ≤ byte_value c < 256)%Z.
Proof. unfold byte_value. pose proof (Byte.to_N_bounded c). lia. Qed.
Lemma byte_value_of z : (0 ≤ z < 256)%Z → byte_value (byte_of z) = z.
Proof.
  intros Hz. unfold byte_value, byte_of. destruct (Byte.of_N (Z.to_N z)) as [c|] eqn:E.
  - apply Byte.to_of_N in E. cbn. rewrite E. lia.
  - apply Byte.of_N_None_iff in E. lia.
Qed.
Lemma byte_of_value c : byte_of (byte_value c) = c.
Proof. unfold byte_of, byte_value. by rewrite N2Z.id, Byte.of_to_N. Qed.

Lemma length_to_be_bytes n z : length (to_be_bytes n z) = n.
Proof. revert z. induction n as [|n IH]; intros z; cbn; [done|]. rewrite length_app, IH. cbn. lia. Qed.

Lemma be_value_mono bs acc : (0 ≤ acc)%Z → (acc ≤ be_value acc bs)%Z.
Proof.
  unfold be_value. revert acc. induction bs as [|c bs IH]; intros acc Ha; cbn [foldl]; [lia|].
  pose proof (byte_value_range c). pose proof (IH (acc * 2 ^ 8 + byte_value c)%Z ltac:(lia)). lia.
Qed.
Lemma be_value_to n z acc : be_value acc (to_be_bytes n z) =
  (acc * 2 ^ (8 * Z.of_nat n) + z mod 2 ^ (8 * Z.of_nat n))%Z.
Proof.
  revert z. induction n as [|n IH]; intros z; cbn [to_be_bytes].
  - cbn [be_value foldl]. change (8 * Z.of_nat 0)%Z with 0%Z. rewrite Z.mod_1_r. lia.
  - unfold be_value in *. rewrite foldl_app, IH. cbn [foldl].
    rewrite byte_value_of by (apply Z.mod_pos_bound; lia).
    replace (8 * Z.of_nat (S n))%Z with (8 + 8 * Z.of_nat n)%Z by lia.
    rewrite Z.pow_add_r, (Z.rem_mul_r z (2 ^ 8)) by lia. lia.
Qed.
Lemma from_to_be_bytes n z : (0 ≤ z < 2 ^ (8 * Z.of_nat n))%Z → from_be_bytes (to_be_bytes n z) = z.
Proof. intros Hz. unfold from_be_bytes. rewrite be_value_to, Z.mod_small; lia. Qed.
Lemma to_from_be_bytes bs : to_be_bytes (length bs) (from_be_bytes bs) = bs.
Proof.
  induction bs as [|c bs IH] using rev_ind; [done|]. rewrite length_app, Nat.add_comm. cbn [length Nat.add to_be_bytes].
  unfold from_be_bytes, be_value in *. rewrite foldl_app. cbn [foldl].
  pose proof (byte_value_range c). rewrite Z.div_add_l, Z.div_small, Z.add_0_r, IH by lia.
  by rewrite Z.add_comm, Z_mod_plus_full, Z.mod_small, byte_of_value by lia.
Qed.
Lemma from_be_bytes_range bs : (0 ≤ from_be_bytes bs < 2 ^ (8 * Z.of_nat (length bs)))%Z.
Proof.
  induction bs as [|c bs IH] using rev_ind; [done|]. unfold from_be_bytes, be_value in *.
  rewrite foldl_app, length_app. cbn [foldl length]. pose proof (byte_value_range c).
  replace (8 * Z.of_nat (length bs + 1))%Z with (8 * Z.of_nat (length bs) + 8)%Z by lia.
  rewrite Z.pow_add_r by lia. lia.
Qed.

Create HintDb machine.
#[export] Hint Resolve u32_range u64_range i8_range : machine.

(** ** [HashMap]s collected from and folded over sequences *)

(** [iter.collect::<HashMap<_, _>>()]: a later binding replaces an earlier one. *)
Definition collect {K V} `{Countable K} (l : list (K * V)) : gmap K V :=
  foldl (λ m kv, <[kv.1 := kv.2]> m) ∅ l.

Lemma collect_snoc {K V} `{Countable K} (l : list (K * V)) k v :
  collect (l ++ [(k, v)]) = <[k := v]> (collect l).
Proof. unfold collect. by rewrite foldl_app. Qed.

Lemma collect_is_Some {K V} `{Countable K} (l : list (K * V)) k :
  is_Some (collect l !! k) ↔ k ∈ l.*1.
Proof.
  induction l as [|[k' v'] l IH] using rev_ind; [split; [intros [? ?]; set_solver|set_solver]|].
  rewrite collect_snoc, fmap_app, elem_of_app. simpl. rewrite list_elem_of_singleton.
  destruct (decide (k = k')) as [->|Hne].
  - rewrite lookup_insert_eq. split; [by right|by eexists].
  - rewrite lookup_insert_ne, IH by done. split; [by left|by intros [|]].
Qed.

Lemma collect_Some_elem {K V} `{Countable K} (l : list (K * V)) k v :
  collect l !! k = Some v → (k, v) ∈ l.
Proof.
  induction l as [|[k' v'] l IH] using rev_ind; [done|].
  rewrite collect_snoc, elem_of_app, list_elem_of_singleton.
  destruct (decide (k = k')) as [->|Hne].
  - rewrite lookup_insert_eq. intros [= ->]. by right.
  - rewrite lookup_insert_ne by done. left. by apply IH.
Qed.

Lemma collect_NoDup {K V} `{Countable K} (l : list (K * V)) k v :
  NoDup l.*1 → (k, v) ∈ l → collect l !! k = Some v.
Proof.
  induction l as [|[k' v'] l IH] using rev_ind; [set_solver|].
  rewrite collect_snoc, fmap_app, NoDup_app, elem_of_app, list_elem_of_singleton.
  intros (Hnd & Hd & _) [Hin|[= -> ->]]; [|apply lookup_insert_eq].
  rewrite lookup_insert_ne; [by apply IH|]. intros ->.
  apply (Hd k); [|set_solver]. apply list_elem_of_fmap. by exists (k, v).
Qed.

(** Sums of integers over lists. *)
Definition sumZ {A} (f : A → Z) (l : list A) : Z := foldr (λ x s, f x + s)%Z 0%Z l.

Lemma sumZ_cons {A} (f : A → Z) x l : sumZ f (x :: l) = (f x + sumZ f l)%Z.
Proof. done. Qed.
Lemma sumZ_app {A} (f : A → Z) l1 l2 : sumZ f (l1 ++ l2) = (sumZ f l1 + sumZ f l2)%Z.
Proof. induction l1; simpl; [done|]. rewrite IHl1. lia. Qed.
Lemma sumZ_ext {A} (f g : A → Z) l : (∀ x, x ∈ l → f x = g x) → sumZ f l = sumZ g l.
Proof.
  induction l as [|x l IH]; intros Hfg; [done|]. simpl.
  rewrite (Hfg x), IH by set_solver. done.
Qed.
Lemma sumZ_nonneg {A} (f : A → Z) l : (∀ x, x ∈ l → 0 ≤ f x)%Z → (0 ≤ sumZ f l)%Z.
Proof.
  induction l as [|x l IH]; intros Hf; [done|]. simpl.
  assert (0 ≤ f x)%Z by (apply Hf; set_solver).
  assert (0 ≤ sumZ f l)%Z by (apply IH; set_solver). lia.
Qed.
Lemma sumZ_le {A} (f g : A → Z) l : (∀ x, x ∈ l → f x ≤ g x)%Z → (sumZ f l ≤ sumZ g l)%Z.
Proof.
  induction l as [|x l IH]; intros Hfg; [done|]. simpl.
  assert (f x ≤ g x)%Z by (apply Hfg; set_solver).
  assert (sumZ f l ≤ sumZ g l)%Z by (apply IH; set_solver). lia.
Qed.
Lemma sumZ_zero {A} (f : A → Z) l : (∀ x, x ∈ l → f x = 0%Z) → sumZ f l = 0%Z.
Proof.
  intros Hf. rewrite (sumZ_ext f (λ _, 0%Z) l Hf). clear. by induction l.
Qed.
Lemma sumZ_add {A} (f g : A → Z) l : sumZ (λ x, f x + g x)%Z l = (sumZ f l + sumZ g l)%Z.
Proof. induction l; simpl; lia. Qed.
#[export] Instance sumZ_perm {A} (f : A → Z) : Proper ((≡ₚ) ==> (=)) (sumZ f).
Proof. intros l1 l2 Hl. induction Hl; simpl; lia. Qed.

Lemma sumZ_filter_le {A} (f : A → Z) (P : A → Prop) `{∀ x, Decision (P x)} l :
  (∀ x, x ∈ l → 0 ≤ f x)%Z → (sumZ f (filter P l) ≤ sumZ f l)%Z.
Proof.
  induction l as [|x l IH]; intros Hf; [done|]. rewrite filter_cons.
  assert (0 ≤ f x)%Z by (apply Hf; set_solver).
  assert (sumZ f (filter P l) ≤ sumZ f l)%Z by (apply IH; set_solver).
  case_decide; simpl; lia.
Qed.

(** Updating one point of a function moves the sum over a duplicate-free
    list by the difference at that point. *)
Lemma sumZ_update {A} `{EqDecision A} (f g : A → Z) x l :
  NoDup l → x ∈ l → (∀ y, y ≠ x → g y = f y) → (sumZ g l = sumZ f l + (g x - f x))%Z.
Proof.
  induction 1 as [|y l Hy Hnd IH]; intros Hx Hg; [set_solver|]. simpl.
  destruct (decide (y = x)) as [->|Hne].
  - rewrite (sumZ_ext g f l); [lia|]. intros z Hz. apply Hg. intros Heq. by subst.
  - rewrite (Hg y Hne), IH; [lia|set_solver|done].
Qed.

(** [iter.fold(0u32, |s, x| s + f(x))]. *)
Definition fold_u32 {A} (f : A → Z) (l : list A) : Z := foldl (λ s x, u32 (s + f x)) 0%Z l.

Lemma fold_u32_mod_aux {A} (f : A → Z) l s :
  foldl (λ s x, u32 (s + f x)) (u32 s) l = u32 (s + sumZ f l).
Proof.
  revert s. induction l as [|x l IH]; intros s; simpl; [by rewrite Z.add_0_r|].
  rewrite IH. unfold u32. by rewrite <-Z.add_assoc, Zplus_mod_idemp_l.
Qed.
Lemma fold_u32_mod {A} (f : A → Z) l : fold_u32 f l = u32 (sumZ f l).
Proof. apply (fold_u32_mod_aux f l 0). Qed.
Lemma fold_u32_exact {A} (f : A → Z) l : is_u32 (sumZ f l) → fold_u32 f l = sumZ f l.
Proof. intros H. rewrite fold_u32_mod. by apply u32_id. Qed.
Lemma fold_u32_range {A} (f : A → Z) l : is_u32 (fold_u32 f l).
Proof. rewrite fold_u32_mod. apply u32_range. Qed.

(** ** Automation *)

(** Split every boolean test and match of the goal and the context on its
    outcome, discarding the impossible ones. *)
Ltac step_match :=
  match goal with
  | H : context [match ?x with _ => _ end] |- _ => destruct x eqn:?; simplify_eq/=
  | |- context [match ?x with _ => _ end] => destruct x eqn:?; simplify_eq/=
  end.
Ltac split_matches := repeat (step_match; try done).

Create Rewrite HintDb call.
#[export] Hint Rewrite @bind_ret @bind_throw @bind_lift_ok : call.
Ltac run_call := repeat (autorewrite with call; cbn [fst snd]).
