(* ===== verification/Codec.v ===== *)
(** * Codec

    The boundary to the serialisation library.  [core/primitives/src/codec.rs]
    re-exports [Encode] and [Decode] of the SCALE codec, which is not part of
    the repository: a [Codec] is what its derive macros give for a type, and
    [Scale] lists the codecs the program uses with the laws it relies on.
    [FrameScale] is a concrete [Scale], used where a theorem is applied to a
    concrete input. *)
From Stdlib Require Import Strings.Byte.
From S2P Require Import Prelude.

(** [wf] are the values of the Rust type: a [u32] is an integer below 2^32. *)
Record Codec (A : Type) : Type := mkCodec {
  wf : A → Prop;
  encode : A → bytes;
  decode : bytes → option A;
  decode_encode : ∀ a, wf a → decode (encode a) = Some a;
  decode_wf : ∀ bs a, decode bs = Some a → wf a;
}.
Arguments wf {A} _ _.
Arguments encode {A} _ _.
Arguments decode {A} _ _.

(** Distinct values have distinct encodings. *)
Lemma encode_inj {A} (C : Codec A) x y : wf C x → wf C y → encode C x = encode C y → x = y.
Proof.
  intros Hx Hy Hxy. pose proof (decode_encode A C x Hx) as Hd.
  rewrite Hxy, decode_encode in Hd by done. congruence.
Qed.

(** The codec of a struct is the codec of the tuple of its fields. *)
Section Iso.
Context {A B : Type} (C : Codec A) (f : A → B) (g : B → A).
Context (fg : ∀ y, f (g y) = y) (gf : ∀ x, g (f x) = x).

Program Definition iso_codec : Codec B := {|
  wf y := wf C (g y);
  encode y := encode C (g y);
  decode bs := f <$> decode C bs;
|}.
Next Obligation. intros y Hy. simpl. rewrite decode_encode by done. simpl. by rewrite fg. Qed.
Next Obligation.
  intros bs y. simpl. destruct (decode C bs) eqn:E; intros [= <-]. rewrite gf.
  by eapply decode_wf.
Qed.
End Iso.

(** A type that is encoded as some of the values of another one: the codec of
    a fieldless enum is the codec of the indices of its variants. *)
Section Part.
Context {A B : Type} (C : Codec A) (f : A → option B) (g : B → A).
Context (fg : ∀ y, f (g y) = Some y) (gf : ∀ x y, f x = Some y → g y = x).

Program Definition part_codec : Codec B := {|
  wf y := wf C (g y);
  encode y := encode C (g y);
  decode bs := decode C bs ≫= f;
|}.
Next Obligation. intros y Hy. simpl. rewrite decode_encode by done. apply fg. Qed.
Next Obligation.
  intros bs y. simpl. destruct (decode C bs) as [x|] eqn:E; simpl; [|done].
  intros <-%gf. by eapply decode_wf.
Qed.
End Part.

(** The codecs of the types the program serialises. *)
Class Scale : Type := {
  sc_u8 : Codec Z; sc_u32 : Codec Z; sc_u64 : Codec Z; sc_i8 : Codec Z;
  sc_bool : Codec bool;
  sc_unit : Codec unit;
  sc_bytes : Codec bytes;
  sc_string : Codec string;
  sc_pair : ∀ {A B}, Codec A → Codec B → Codec (A * B);
  (** A value whose first part says how the rest is decoded. *)
  sc_then : ∀ {A B}, Codec A → (A → Codec B) → Codec (A * B);
  sc_sum : ∀ {A B}, Codec A → Codec B → Codec (A + B);
  sc_option : ∀ {A}, Codec A → Codec (option A);
  sc_list : ∀ {A}, Codec A → Codec (list A);
  sc_u8_wf : ∀ z, wf sc_u8 z ↔ is_u8 z;
  sc_u32_wf : ∀ z, wf sc_u32 z ↔ is_u32 z;
  sc_u64_wf : ∀ z, wf sc_u64 z ↔ is_u64 z;
  sc_i8_wf : ∀ z, wf sc_i8 z ↔ is_i8 z;
  sc_bool_wf : ∀ x, wf sc_bool x;
  sc_unit_wf : ∀ x, wf sc_unit x;
  sc_bytes_wf : ∀ x, wf sc_bytes x;
  sc_string_wf : ∀ x, wf sc_string x;
  sc_pair_wf : ∀ {A B} (C : Codec A) (D : Codec B) x,
    wf (sc_pair C D) x ↔ wf C x.1 ∧ wf D x.2;
  sc_then_wf : ∀ {A B} (C : Codec A) (D : A → Codec B) x,
    wf (sc_then C D) x ↔ wf C x.1 ∧ wf (D x.1) x.2;
  sc_sum_wf : ∀ {A B} (C : Codec A) (D : Codec B) x,
    wf (sc_sum C D) x ↔ match x with inl a => wf C a | inr y => wf D y end;
  sc_option_wf : ∀ {A} (C : Codec A) x,
    wf (sc_option C) x ↔ match x with Some a => wf C a | None => True end;
  sc_list_wf : ∀ {A} (C : Codec A) l, wf (sc_list C) l ↔ Forall (wf C) l;
}.

Create HintDb codec.
#[export] Hint Resolve sc_bool_wf sc_unit_wf sc_bytes_wf sc_string_wf : codec.

(** Decide [wf] of a structured value by the laws of [Scale]. *)
Ltac wf_simpl :=
  repeat match goal with
  | |- context [wf sc_u8] => setoid_rewrite sc_u8_wf
  | |- context [wf sc_u32] => setoid_rewrite sc_u32_wf
  | |- context [wf sc_u64] => setoid_rewrite sc_u64_wf
  | |- context [wf sc_i8] => setoid_rewrite sc_i8_wf
  | |- context [wf (sc_pair _ _)] => setoid_rewrite sc_pair_wf
  | |- context [wf (sc_then _ _)] => setoid_rewrite sc_then_wf
  | |- context [wf (sc_sum _ _)] => setoid_rewrite sc_sum_wf
  | |- context [wf (sc_option _)] => setoid_rewrite sc_option_wf
  | |- context [wf (sc_list _)] => setoid_rewrite sc_list_wf
  end; simpl.

(** ** A concrete codec *)
Module FrameScale.
(** A frame is a value preceded by its length in unary. *)
Definition frame (bs : bytes) : bytes := repeat x01 (length bs) ++ x00 :: bs.

Fixpoint unary (bs : bytes) : option (nat * bytes) :=
  match bs with
  | x01 :: bs => '(n, rest) ← unary bs; Some (S n, rest)
  | x00 :: bs => Some (0, bs)
  | _ => None
  end.
Definition unframe (bs : bytes) : option (bytes * bytes) :=
  '(n, rest) ← unary bs; Some (take n rest, drop n rest).

Lemma unary_repeat n rest : unary (repeat x01 n ++ x00 :: rest) = Some (n, rest).
Proof. induction n; simpl; [done|]. by rewrite IHn. Qed.
Lemma unframe_frame bs rest : unframe (frame bs ++ rest) = Some (bs, rest).
Proof.
  unfold unframe, frame. rewrite <-app_assoc. simpl. rewrite unary_repeat. simpl.
  by rewrite take_app_length, drop_app_length.
Qed.

Fixpoint pos_bits (p : positive) : bytes :=
  match p with xH => [] | xO p => x00 :: pos_bits p | xI p => x01 :: pos_bits p end.
Fixpoint bits_pos (bs : bytes) : option positive :=
  match bs with
  | [] => Some xH
  | x00 :: bs => xO <$> bits_pos bs
  | x01 :: bs => xI <$> bits_pos bs
  | _ => None
  end.
Lemma bits_pos_bits p : bits_pos (pos_bits p) = Some p.
Proof. induction p; simpl; [by rewrite IHp..|done]. Qed.

(** Integers of a range. *)
Program Definition range (P : Z → Prop) `{∀ z, Decision (P z)} : Codec Z := {|
  wf := P;
  encode z := pos_bits (countable.encode z);
  decode bs := p ← bits_pos bs; z ← countable.decode p;
               if decide (P z) then Some z else None;
|}.
Next Obligation.
  intros P ? z Hz. cbn beta. rewrite bits_pos_bits. cbn -[countable.encode countable.decode].
  rewrite countable.decode_encode. simpl. by case_decide.
Qed.
Next Obligation.
  intros P ? bs z. cbn beta. destruct (bits_pos bs) as [p|]; [|done].
  change (Some p ≫= ?k) with (k p). cbn beta. destruct (countable.decode p) as [y|]; [|done].
  change (Some y ≫= ?k) with (k y). cbn beta. case_decide; [|done]. by intros [= ->].
Qed.

Program Definition raw : Codec bytes :=
  {| wf _ := True; encode x := x; decode x := Some x |}.
Solve Obligations with done.

Program Definition str : Codec string := {|
  wf _ := True;
  encode := String.list_byte_of_string;
  decode x := Some (String.string_of_list_byte x) |}.
Next Obligation. intros s _. cbn beta. by rewrite String.string_of_list_byte_of_string. Qed.
Next Obligation. done. Qed.

Program Definition one : Codec unit :=
  {| wf _ := True; encode _ := []; decode _ := Some tt |}.
Next Obligation. by intros []. Qed.
Next Obligation. done. Qed.

Definition decode_boolean (bs : bytes) : option bool :=
  match bs with [x01] => Some true | [x00] => Some false | _ => None end.
Program Definition boolean : Codec bool := {|
  wf _ := True;
  encode x := if x : bool then [x01] else [x00];
  decode := decode_boolean |}.
Next Obligation. by intros []. Qed.
Next Obligation. done. Qed.

Section Composite.
Context {A B : Type} (C : Codec A) (D : Codec B).

Program Definition pair : Codec (A * B) := {|
  wf x := wf C x.1 ∧ wf D x.2;
  encode x := frame (encode C x.1) ++ encode D x.2;
  decode bs := '(x, rest) ← unframe bs; a ← decode C x; y ← decode D rest; Some (a, y);
|}.
Next Obligation.
  intros [a y] [Ha Hy]. simpl in *. rewrite unframe_frame. simpl.
  rewrite decode_encode by done. simpl. by rewrite decode_encode by done.
Qed.
Next Obligation.
  intros bs [a y] H. destruct (unframe bs) as [[x rest]|]; [|done]. simpl in *.
  destruct (decode C x) eqn:E; [|done]. simpl in *.
  destruct (decode D rest) eqn:E'; [|done]. simplify_eq/=.
  split; by eapply decode_wf.
Qed.

Program Definition dependent (F : A → Codec B) : Codec (A * B) := {|
  wf x := wf C x.1 ∧ wf (F x.1) x.2;
  encode x := frame (encode C x.1) ++ encode (F x.1) x.2;
  decode bs := '(x, rest) ← unframe bs; a ← decode C x; y ← decode (F a) rest; Some (a, y);
|}.
Next Obligation.
  intros F [a y] [Ha Hy]. simpl in *. rewrite unframe_frame. simpl.
  rewrite decode_encode by done. simpl. by rewrite decode_encode by done.
Qed.
Next Obligation.
  intros F bs [a y] H. destruct (unframe bs) as [[x rest]|]; [|done]. simpl in *.
  destruct (decode C x) eqn:E; [|done]. simpl in *.
  destruct (decode (F a0) rest) eqn:E'; [|done]. simplify_eq/=.
  split; by eapply decode_wf.
Qed.

Definition sum_wf (x : A + B) : Prop :=
  match x with inl a => wf C a | inr y => wf D y end.
Definition encode_sum (x : A + B) : bytes :=
  match x with inl a => x00 :: encode C a | inr y => x01 :: encode D y end.
Definition decode_sum (bs : bytes) : option (A + B) :=
  match bs with
  | x00 :: bs => inl <$> decode C bs
  | x01 :: bs => inr <$> decode D bs
  | _ => None
  end.
Program Definition sum : Codec (A + B) :=
  {| wf := sum_wf; encode := encode_sum; decode := decode_sum |}.
Next Obligation. intros [a|y] H; simpl; by rewrite decode_encode. Qed.
Next Obligation.
  intros bs x H. destruct bs as [|c bs]; [done|]. destruct c; simplify_eq/=;
    [destruct (decode C bs) eqn:E|destruct (decode D bs) eqn:E]; simplify_eq/=;
    by eapply decode_wf.
Qed.

Definition maybe_wf (x : option A) : Prop :=
  match x with Some a => wf C a | None => True end.
Definition encode_maybe (x : option A) : bytes :=
  match x with Some a => x01 :: encode C a | None => [x00] end.
Definition decode_maybe (bs : bytes) : option (option A) :=
  match bs with
  | x00 :: bs => Some None
  | x01 :: bs => Some <$> decode C bs
  | _ => None
  end.
Program Definition maybe : Codec (option A) :=
  {| wf := maybe_wf; encode := encode_maybe; decode := decode_maybe |}.
Next Obligation. intros [a|] H; simpl; [by rewrite decode_encode|done]. Qed.
Next Obligation.
  intros bs x H. destruct bs as [|c bs]; [done|]. destruct c; simplify_eq/=; [done|].
  destruct (decode C bs) eqn:E; simplify_eq/=. by eapply decode_wf.
Qed.

Definition encode_list (l : list A) : bytes :=
  foldr (λ a bs, x01 :: frame (encode C a) ++ bs) [x00] l.
Fixpoint decode_list (fuel : nat) (bs : bytes) : option (list A) :=
  match fuel, bs with
  | S fuel, x01 :: bs =>
      '(x, rest) ← unframe bs; a ← decode C x; l ← decode_list fuel rest; Some (a :: l)
  | S fuel, x00 :: bs => Some []
  | _, _ => None
  end.

(** The number of elements is below the length of the encoding, which is
    therefore enough fuel. *)
Lemma length_encode_list l : length l < length (encode_list l).
Proof. induction l; simpl; [lia|]. rewrite length_app. lia. Qed.
Lemma decode_encode_list fuel l :
  length l < fuel → Forall (wf C) l → decode_list fuel (encode_list l) = Some l.
Proof.
  revert fuel. induction l as [|a l IH]; intros [|fuel] Hf Hl; simpl in *; [lia|done|lia|].
  apply Forall_cons in Hl as [Ha Hl]. rewrite unframe_frame. simpl.
  rewrite decode_encode by done. simpl. rewrite IH; [done|lia|done].
Qed.
Lemma decode_list_wf fuel bs l : decode_list fuel bs = Some l → Forall (wf C) l.
Proof.
  revert bs l. induction fuel as [|fuel IH]; intros bs l H; [done|].
  destruct bs as [|c bs]; [done|]. destruct c; simplify_eq/=; [constructor|].
  destruct (unframe bs) as [[x rest]|]; [|done]. simpl in *.
  destruct (decode C x) eqn:E; [|done]. simpl in *.
  destruct (decode_list fuel rest) eqn:E'; simplify_eq/=.
  constructor; [by eapply decode_wf|by eapply IH].
Qed.

Program Definition many : Codec (list A) := {|
  wf l := Forall (wf C) l;
  encode := encode_list;
  decode bs := decode_list (length bs) bs |}.
Next Obligation. intros l Hl. apply decode_encode_list; [apply length_encode_list|done]. Qed.
Next Obligation. intros bs l. apply decode_list_wf. Qed.
End Composite.

Program Definition scale : Scale := {|
  sc_u8 := range is_u8; sc_u32 := range is_u32; sc_u64 := range is_u64; sc_i8 := range is_i8;
  sc_bool := boolean; sc_unit := one; sc_bytes := raw; sc_string := str;
  sc_pair A B C D := pair C D; sc_then A B C F := dependent C F; sc_sum A B C D := sum C D;
  sc_option A C := maybe C; sc_list A C := many C |}.
Solve Obligations with done.
End FrameScale.
