(* ===== verification/EnumCodec.v ===== *)
(** * EnumCodec

    [utils/enum-codec/src/lib.rs]: the attribute [enum_codec] derives the codec
    of an enum of messages.  A message is encoded as the name of its variant
    followed by the content of the variant, and a name that is not a variant
    is an error. *)
From S2P Require Import Prelude Codec.

(** A variant of the enum [T]: its name, and the codec, the constructor and
    the pattern of its content. *)
Record Variant (T : Type) := {
  variant_name : string;
  variant_content : Type;
  variant_codec : Codec variant_content;
  variant_make : variant_content → T;
  variant_match : T → option variant_content;
  variant_make_match : ∀ t c, variant_match t = Some c ↔ t = variant_make c;
}.
Arguments variant_name {T}. Arguments variant_content {T}. Arguments variant_codec {T}.
Arguments variant_make {T}. Arguments variant_match {T}. Arguments variant_make_match {T}.

Section Enum.
Context {SC : Scale} {T : Type}.

(** The codec of the content of a message: of the variant's type. *)
Program Definition content_codec (v : Variant T) : Codec T := {|
  wf t := ∃ c, variant_match v t = Some c ∧ wf (variant_codec v) c;
  encode t := match variant_match v t with
              | Some c => encode (variant_codec v) c
              | None => []
              end;
  decode bs := variant_make v <$> decode (variant_codec v) bs;
|}.
Next Obligation.
  intros v t (c & Hc & Hwf). simpl. rewrite Hc, decode_encode by done. simpl.
  f_equal. symmetry. by apply variant_make_match.
Qed.
Next Obligation.
  intros v bs t. simpl. destruct (decode (variant_codec v) bs) as [c|] eqn:E; intros [= <-].
  exists c. split; [by apply variant_make_match|]. by eapply decode_wf.
Qed.

(** ["Unknown variant name"] *)
Program Definition unknown_variant : Codec T :=
  {| wf _ := False; encode _ := []; decode _ := None |}.
Solve Obligations with done.

(** [match name.as_str()] *)
Fixpoint match_name (vs : list (Variant T)) (name : string) : Codec T :=
  match vs with
  | [] => unknown_variant
  | v :: vs => if decide (name = variant_name v) then content_codec v else match_name vs name
  end.

(** [match self]: the variant of the message. *)
Fixpoint name_of (vs : list (Variant T)) (t : T) : string :=
  match vs with
  | [] => ""
  | v :: vs => if decide (is_Some (variant_match v t)) then variant_name v else name_of vs t
  end.

(** The identifiers of an enum are distinct, and a value has one variant. *)
Class EnumVariants (vs : list (Variant T)) : Prop := {
  distinct_names : NoDup (variant_name <$> vs);
  one_variant : ∀ t v v', v ∈ vs → v' ∈ vs → is_Some (variant_match v t) →
    is_Some (variant_match v' t) → variant_name v = variant_name v';
}.

Lemma match_name_in vs v : NoDup (variant_name <$> vs) → v ∈ vs →
  match_name vs (variant_name v) = content_codec v.
Proof.
  induction vs as [|v' vs IH]; intros Hnd Hin; [by apply not_elem_of_nil in Hin|].
  rewrite fmap_cons in Hnd. apply NoDup_cons in Hnd as [Hn Hnd]. simpl.
  apply elem_of_cons in Hin as [->|Hin]; [by rewrite decide_True|].
  rewrite decide_False; [by apply IH|]. intros Heq. apply Hn. rewrite <-Heq.
  apply list_elem_of_fmap. by exists v.
Qed.

Lemma match_name_wf vs name t : wf (match_name vs name) t →
  ∃ v, v ∈ vs ∧ variant_name v = name ∧ is_Some (variant_match v t).
Proof.
  induction vs as [|v vs IH]; simpl; [done|]. case_decide as Hname; intros Hwf.
  - destruct Hwf as (c & Hc & _). exists v. repeat split; [by left|done|by eexists].
  - destruct (IH Hwf) as (v' & ? & ? & ?). exists v'. repeat split; [by right|done..].
Qed.

Lemma name_of_in vs v t : v ∈ vs → is_Some (variant_match v t) →
  ∃ v', v' ∈ vs ∧ is_Some (variant_match v' t) ∧ name_of vs t = variant_name v'.
Proof.
  induction vs as [|v' vs IH]; intros Hin Hs; [by apply not_elem_of_nil in Hin|]. simpl.
  case_decide; [exists v'; repeat split; [by left|done]|].
  apply elem_of_cons in Hin as [->|Hin]; [done|].
  destruct (IH Hin Hs) as (v'' & ? & ? & ?). exists v''. repeat split; [by right|done..].
Qed.

Lemma name_of_eq vs `{!EnumVariants vs} v t :
  v ∈ vs → is_Some (variant_match v t) → name_of vs t = variant_name v.
Proof.
  intros Hin Hs. destruct (name_of_in vs v t Hin Hs) as (v' & Hin' & Hs' & ->).
  by apply (one_variant t).
Qed.

Context (vs : list (Variant T)) `{!EnumVariants vs}.

Program Definition enum_codec : Codec T := {|
  wf t := wf (match_name vs (name_of vs t)) t;
  encode t := encode (sc_then sc_string (match_name vs)) (name_of vs t, t);
  decode bs := snd <$> decode (sc_then sc_string (match_name vs)) bs;
|}.
Next Obligation.
  intros t Hwf. cbn beta. rewrite decode_encode; [done|]. apply sc_then_wf.
  split; [apply sc_string_wf|done].
Qed.
Next Obligation.
  intros bs t. simpl.
  destruct (decode (sc_then sc_string (match_name vs)) bs) as [[name t']|] eqn:E;
    intros [= <-].
  apply decode_wf, sc_then_wf in E as [_ Hwf]. simpl in Hwf.
  pose proof (match_name_wf vs name t' Hwf) as (v & Hin & <- & Hs).
  by rewrite (name_of_eq vs v).
Qed.

(** A message is valid when the content of its variant is. *)
Lemma enum_codec_wf v t c : v ∈ vs → variant_match v t = Some c →
  wf enum_codec t ↔ wf (variant_codec v) c.
Proof.
  intros Hin Hc. simpl. rewrite (name_of_eq vs v), match_name_in;
    [|apply distinct_names|done|done|by eexists]. simpl. rewrite Hc.
  split; [by intros (? & [= <-] & ?)|by exists c].
Qed.

(** A message whose content is in range is encoded as the name of its
    variant and the content, and is decoded to itself. *)
Theorem enum_codec_roundtrip v t c : v ∈ vs → variant_match v t = Some c →
  wf (variant_codec v) c →
  encode enum_codec t = encode (sc_then sc_string (match_name vs)) (variant_name v, t) ∧
  encode (match_name vs (variant_name v)) t = encode (variant_codec v) c ∧
  decode enum_codec (encode enum_codec t) = Some t.
Proof.
  intros Hin Hc Hwf. assert (name_of vs t = variant_name v) as Hname
    by (apply name_of_eq; [done|done|by eexists]). split_and!.
  - simpl. by rewrite Hname.
  - rewrite match_name_in; [|apply distinct_names|done]. simpl. by rewrite Hc.
  - apply decode_encode. by apply (enum_codec_wf v t c).
Qed.
End Enum.

(** The obligation of a variant: its pattern inverts its constructor. *)
Ltac solve_variant :=
  intros; cbv beta;
  match goal with
  | |- context [match ?m with _ => _ end] => destruct m; split; intros; simplify_eq; done
  end.

(** The obligation of an enum: its variants have names of their own and do
    not overlap. *)
Ltac solve_enum :=
  split; [apply (bool_decide_unpack _); reflexivity|];
  let m := fresh in let v := fresh in let v' := fresh in
  let Hv := fresh in let Hv' := fresh in let Hs := fresh in let Hs' := fresh in
  intros m v v' Hv Hv' Hs Hs';
  repeat (apply elem_of_cons in Hv as [->|Hv]); [..|by apply not_elem_of_nil in Hv];
    destruct m; simpl in Hs; try (by destruct Hs);
    repeat (apply elem_of_cons in Hv' as [->|Hv']); try done;
    try (simpl in Hs'; by destruct Hs'); by apply not_elem_of_nil in Hv'.
