(* ===== verification/BTreeMap.v ===== *)
(** * BTreeMap

    [std::collections::BTreeMap] with [u64] keys: the bindings in the order of
    their keys, each key once. *)
From stdpp Require Import sorting.
From S2P Require Import Prelude.

Section BTreeMap.
Context {V : Type}.

Abbreviation BTreeMap := (list (Z * V)).

Fixpoint bt_insert (k : Z) (v : V) (m : BTreeMap) : BTreeMap :=
  match m with
  | [] => [(k, v)]
  | (k', v') :: m' =>
      if decide (k < k')%Z then (k, v) :: m
      else if decide (k = k') then (k, v) :: m'
      else (k', v') :: bt_insert k v m'
  end.

(** [extend] *)
Definition bt_extend (l : list (Z * V)) (m : BTreeMap) : BTreeMap :=
  foldl (λ m kv, bt_insert kv.1 kv.2 m) m l.

(** [into_iter().collect()] *)
Definition bt_collect (l : list (Z * V)) : BTreeMap := bt_extend l [].

(** The bindings whose keys satisfy [P], in order. *)
Definition bt_range (P : Z → bool) (m : BTreeMap) : BTreeMap := filter (λ kv, P kv.1) m.
(** Remove those bindings. *)
Definition bt_remove (P : Z → bool) (m : BTreeMap) : BTreeMap := filter (λ kv, ¬ P kv.1) m.

(** [get] *)
Fixpoint bt_get (k : Z) (m : BTreeMap) : option V :=
  match m with
  | [] => None
  | (k', v) :: m => if decide (k = k') then Some v else bt_get k m
  end.

(** The keys increase. *)
Definition bt_wf (m : BTreeMap) : Prop := StronglySorted Z.lt m.*1.

Lemma bt_wf_nil : bt_wf [].
Proof. constructor. Qed.

Lemma bt_wf_cons k v m : bt_wf ((k, v) :: m) ↔ bt_wf m ∧ ∀ k' v', (k', v') ∈ m → (k < k')%Z.
Proof.
  unfold bt_wf. simpl. split.
  - intros [Hs Hk]%StronglySorted_inv. split; [done|]. intros k' v' Hin.
    rewrite Forall_forall in Hk. apply Hk. apply list_elem_of_fmap. by exists (k', v').
  - intros [Hs Hk]. constructor; [done|]. apply Forall_forall.
    intros k' ([k'' v'] & -> & Hin)%list_elem_of_fmap. by apply (Hk _ v').
Qed.

Lemma bt_insert_elem k v m k' v' :
  (k', v') ∈ bt_insert k v m → (k' = k ∧ v' = v) ∨ (k', v') ∈ m.
Proof.
  induction m as [|[k1 v1] m IH]; simpl.
  - intros [[= -> ->]|[]%not_elem_of_nil]%elem_of_cons. by left.
  - case_decide; [|case_decide]; intros [[= -> ->]|Hin]%elem_of_cons.
    + by left.
    + by right.
    + by left.
    + right. by right.
    + right. by left.
    + destruct (IH Hin) as [|]; [by left|]. right. by right.
Qed.

Lemma bt_insert_wf k v m : bt_wf m → bt_wf (bt_insert k v m).
Proof.
  induction m as [|[k1 v1] m IH]; intros Hm; simpl.
  - apply bt_wf_cons. split; [done|]. by intros ?? ?%not_elem_of_nil.
  - pose proof Hm as [Hm' Hk]%bt_wf_cons. case_decide; [|case_decide].
    + apply bt_wf_cons. split; [done|]. intros k' v' [[= -> ->]|Hin]%elem_of_cons; [done|].
      specialize (Hk _ _ Hin). lia.
    + subst. by apply bt_wf_cons.
    + apply bt_wf_cons. split; [by apply IH|]. intros k' v' [[-> _]|Hin]%bt_insert_elem; [lia|].
      by eapply Hk.
Qed.

Lemma bt_extend_wf l m : bt_wf m → bt_wf (bt_extend l m).
Proof. revert m. induction l as [|[k v] l IH]; intros m Hm; [done|]. by apply IH, bt_insert_wf. Qed.

Lemma bt_filter_wf (P : Z * V → Prop) `{∀ x, Decision (P x)} m : bt_wf m → bt_wf (filter P m).
Proof.
  induction m as [|[k v] m IH]; intros Hm; [done|]. apply bt_wf_cons in Hm as [Hm Hk].
  rewrite filter_cons. case_decide; [|by apply IH]. apply bt_wf_cons. split; [by apply IH|].
  intros k' v' [_ Hin]%list_elem_of_filter. by eapply Hk.
Qed.

Lemma bt_get_elem k v m : bt_wf m → bt_get k m = Some v ↔ (k, v) ∈ m.
Proof.
  induction m as [|[k1 v1] m IH]; intros Hm; simpl.
  { split; [done|by intros ?%not_elem_of_nil]. }
  apply bt_wf_cons in Hm as [Hm Hk]. rewrite elem_of_cons. case_decide as Heq.
  - subst. split; [intros [= ->]; by left|]. intros [[= ->]|Hin]; [done|].
    specialize (Hk _ _ Hin). lia.
  - rewrite IH by done. split; [by right|]. intros [[= -> ->]|]; [done|done].
Qed.

Lemma bt_get_insert k v m k' :
  bt_get k' (bt_insert k v m) = if decide (k' = k) then Some v else bt_get k' m.
Proof.
  induction m as [|[k1 v1] m IH]; simpl; [done|]. repeat case_decide; subst; simpl;
    repeat case_decide; try done; lia.
Qed.

Lemma bt_get_filter P m k :
  bt_get k (bt_range P m) = if P k then bt_get k m else None.
Proof.
  unfold bt_range. induction m as [|[k1 v1] m IH]; simpl; [by destruct (P k)|].
  rewrite filter_cons. case_decide as H1; simpl in *; case_decide as H2; subst; rewrite ?IH.
  - by destruct (P k1).
  - done.
  - destruct (P k1); [by destruct H1|done].
  - done.
Qed.

Lemma bt_get_remove P m k :
  bt_get k (bt_remove P m) = if P k then None else bt_get k m.
Proof.
  unfold bt_remove. induction m as [|[k1 v1] m IH]; simpl; [by destruct (P k)|].
  rewrite filter_cons. case_decide as H1; simpl in *; case_decide as H2; subst; rewrite ?IH.
  - destruct (P k1); [by destruct H1|done].
  - done.
  - destruct (P k1); [done|]. by destruct H1.
  - done.
Qed.

(** The last binding has the greatest key. *)
Lemma bt_last_max m k v : bt_wf m → last m = Some (k, v) → ∀ k' v', (k', v') ∈ m → (k' ≤ k)%Z.
Proof.
  induction m as [|[k1 v1] m IH]; intros Hm Hl k' v' Hin; [by apply not_elem_of_nil in Hin|].
  apply bt_wf_cons in Hm as [Hm Hk]. destruct m as [|[k2 v2] m].
  - simpl in Hl. simplify_eq. apply list_elem_of_singleton in Hin. by simplify_eq.
  - rewrite last_cons_cons in Hl. apply elem_of_cons in Hin as [[= -> ->]|Hin].
    + assert (k1 < k)%Z; [|lia]. apply (Hk k v). by apply last_Some_elem_of.
    + by eapply IH.
Qed.

Lemma bt_collect_wf l : bt_wf (bt_collect l).
Proof. apply bt_extend_wf, bt_wf_nil. Qed.

Lemma bt_insert_last k v m : (∀ k' v', (k', v') ∈ m → (k' < k)%Z) → bt_insert k v m = m ++ [(k, v)].
Proof.
  induction m as [|[k1 v1] m IH]; intros Hk; [done|]. simpl.
  assert (k1 < k)%Z by (apply (Hk k1 v1); by left). rewrite !decide_False by lia.
  by rewrite IH by (intros k' v' Hin; apply (Hk k' v'); by right).
Qed.

Lemma bt_extend_sorted l m : bt_wf (m ++ l) → bt_extend l m = m ++ l.
Proof.
  revert m. induction l as [|[k v] l IH]; intros m Hm; [by rewrite app_nil_r|].
  unfold bt_extend. simpl. rewrite bt_insert_last.
  - change (foldl _ ?m l) with (bt_extend l m). rewrite IH; rewrite <-app_assoc; done.
  - clear IH. induction m as [|[k1 v1] m IH]; intros k' v' Hin; [by apply not_elem_of_nil in Hin|].
    apply bt_wf_cons in Hm as [Hm Hk]. apply elem_of_cons in Hin as [[= -> ->]|Hin].
    + apply (Hk k v). apply elem_of_app. right. by left.
    + by eapply IH.
Qed.

(** A map written as the list of its bindings is read back. *)
Lemma bt_collect_id m : bt_wf m → bt_collect m = m.
Proof. intros Hm. by apply (bt_extend_sorted m []). Qed.

Lemma bt_remove_none P m : bt_range P m = [] → bt_remove P m = m.
Proof.
  unfold bt_range, bt_remove. induction m as [|[k v] m IH]; [done|]. rewrite !filter_cons. simpl.
  case_decide as H1; [done|]. intros Hm. rewrite decide_True by (by destruct (P k)).
  by rewrite IH.
Qed.

Lemma bt_remove_id P m : (∀ k v, (k, v) ∈ m → P k = false) → bt_remove P m = m.
Proof.
  unfold bt_remove. induction m as [|[k v] m IH]; intros Hm; [done|]. rewrite filter_cons. simpl.
  rewrite decide_True; [|rewrite (Hm k v); [by intros []|by left]].
  rewrite IH; [done|]. intros k' v' Hin. apply (Hm k' v'). by right.
Qed.
End BTreeMap.

Abbreviation BTreeMap V := (list (Z * V)).
