(* ===== verification/Types.v ===== *)
(** * Types

    The data of [core/primitives]: addresses, hashes, transactions, blocks,
    receipts and the parameters the components exchange; and the error values
    of the components, whose union is [CommonError]. *)
From S2P Require Import Prelude Codec.

(** ** [core/primitives/src/types.rs] *)

Abbreviation Address := bytes.
Abbreviation PublicKey := bytes.
Abbreviation SecretKey := bytes.
Abbreviation Signature := bytes.
Abbreviation Hash := bytes.
Abbreviation Params := bytes.
(** The payload of an event: the JSON text of its name and data. *)
Abbreviation Event := bytes.
Abbreviation DBKey := bytes.
Abbreviation DBValue := bytes.
(** [u32] *)
Abbreviation Nonce := Z.
(** [u64] *)
Abbreviation BlockNumber := Z.
(** [i8] *)
Abbreviation ExecutionGap := Z.
(** [u64] *)
Abbreviation Balance := Z.

Record Witness := {
  w_public_key : PublicKey;
  w_signature : Signature;
  w_nonce : Nonce;
  w_until : BlockNumber;
}.

Record Call := {
  module : string;
  method : string;
  params : Params;
}.

Record Transaction := {
  witness : option Witness;
  call : Call;
}.

Record Header := {
  hdr_number : BlockNumber;
  hdr_timestamp : Z;
  parent_hash : Hash;
  meta_txs_root : Hash;
  meta_state_root : Hash;
  meta_receipts_root : Hash;
  payload_txs_root : Hash;
  payload_execution_gap : ExecutionGap;
  hdr_payload_execution_state_root : Hash;
  hdr_payload_execution_receipts_root : Hash;
}.

Record Body := {
  body_meta_txs : list Hash;
  body_payload_txs : list Hash;
}.

Record Proof := {
  pf_name : string;
  pf_data : bytes;
}.

Record FullTransaction := {
  tx : Transaction;
  tx_hash : Hash;
}.

(** [Result<Vec<u8>, String>] *)
Abbreviation OpaqueCallResult := (result string bytes).

Record Receipt := {
  rc_block_number : BlockNumber;
  rc_events : list Event;
  rc_result : OpaqueCallResult;
}.

Record FullReceipt := {
  receipt : Receipt;
  rc_tx_hash : Hash;
}.

Record CommitBlockParams (T : Type) := {
  cb_block_hash : Hash;
  cb_header : Header;
  cb_body : Body;
  cb_meta_txs : list FullTransaction;
  cb_meta_receipts : list FullReceipt;
  cb_payload_txs : list FullTransaction;
  cb_meta_transaction : T;
  cb_proof : Proof;
}.
Arguments cb_block_hash {T}. Arguments cb_header {T}. Arguments cb_body {T}.
Arguments cb_meta_txs {T}. Arguments cb_meta_receipts {T}. Arguments cb_payload_txs {T}.
Arguments cb_meta_transaction {T}. Arguments cb_proof {T}.

Record BuildBlockParams := {
  bb_number : BlockNumber;
  bb_timestamp : Z;
  bb_meta_txs : list FullTransaction;
  bb_payload_txs : list FullTransaction;
  bb_execution_number : BlockNumber;
}.

Record Execution := {
  payload_execution_state_root : Hash;
  payload_execution_receipts_root : Hash;
}.

Record CommitExecutionParams (T : Type) := {
  ce_block_hash : Hash;
  ce_number : BlockNumber;
  ce_execution : Execution;
  ce_payload_receipts : list FullReceipt;
  ce_payload_transaction : T;
}.
Arguments ce_block_hash {T}. Arguments ce_number {T}. Arguments ce_execution {T}.
Arguments ce_payload_receipts {T}. Arguments ce_payload_transaction {T}.

Record BuildExecutionParams := {
  be_number : BlockNumber;
  be_timestamp : Z;
  be_block_hash : Hash;
  be_meta_state_root : Hash;
  be_payload_state_root : Hash;
  be_payload_txs : list FullTransaction;
}.

Record Block := {
  bk_header : Header;
  bk_body : Body;
}.

#[export] Instance witness_eq_dec : EqDecision Witness.
Proof. solve_decision. Defined.
#[export] Instance call_eq_dec : EqDecision Call.
Proof. solve_decision. Defined.
#[export] Instance transaction_eq_dec : EqDecision Transaction.
Proof. solve_decision. Defined.
#[export] Instance full_transaction_eq_dec : EqDecision FullTransaction.
Proof. solve_decision. Defined.
#[export] Instance header_eq_dec : EqDecision Header.
Proof. solve_decision. Defined.
#[export] Instance proof_eq_dec : EqDecision Proof.
Proof. solve_decision. Defined.

(** [impl Default for Proof] *)
Definition default_proof : Proof := {| pf_name := ""; pf_data := [] |}.

(** [struct TransactionForHash]: the transaction without its signature. *)
Record TransactionForHash := {
  fh_witness : option (PublicKey * Nonce * BlockNumber);
  fh_call : Call;
}.

(** [impl TransactionForHash::new] *)
Definition transaction_for_hash (t : Transaction) : TransactionForHash := {|
  fh_witness := (λ w, (w_public_key w, w_nonce w, w_until w)) <$> witness t;
  fh_call := call t;
|}.

(** ** Errors *)

(** [core/node/executor/primitives/src/errors.rs] *)
Inductive ExecutorErrorKind :=
| InvalidTxs (msg : string)
| InvalidTxWitness (msg : string)
| InvalidTxModule (msg : string)
| InvalidTxMethod (msg : string)
| InvalidTxParams (msg : string)
| Application (msg : string).

(** [core/node/chain/src/errors.rs] *)
Inductive ValidateTxError :=
| VtDuplicatedTx (msg : string)
| VtInvalidTxUntil (msg : string)
| VtInvalidTxWitness (msg : string)
| VtInvalidTxModule (msg : string)
| VtInvalidTxMethod (msg : string)
| VtInvalidTxParams (msg : string)
| VtApplication (msg : string).

Inductive CommitBlockErrorKind :=
| CbDuplicated
| CbNotBest.

Inductive ChainErrorKind :=
| ChainSpec (msg : string)
| ChainData (msg : string)
| ChainCall (msg : string)
| ChainExecuteQueue (msg : string)
| ChainChannel
| ChainCommitBlockError (e : CommitBlockErrorKind)
| ChainValidateTxError (e : ValidateTxError).

(** [core/node/txpool/src/errors.rs] *)
Inductive InsertError :=
| ExceedCapacity (capacity : nat)
| DuplicatedTx (msg : string)
| InvalidTx (e : ValidateTxError).

Inductive TxPoolErrorKind :=
| TxPoolInsertError (e : InsertError)
| TxPoolChannel.

(** [core/node/consensus/base/src/errors.rs] *)
Inductive ConsensusErrorKind :=
| ConsensusTime
| ConsensusVerifyProofError (msg : string)
| ConsensusData (msg : string)
| ConsensusTxPool (msg : string)
| ConsensusChannel
| ConsensusConfig (msg : string).

(** [enum VerifyError] of the raft and hotstuff [verifier.rs] *)
Inductive VerifyError :=
| Duplicated
| NotBest
| InvalidExecutionGap
| ShouldWait
| InvalidHeader (msg : string)
| VDuplicatedTx (msg : string)
| VInvalidTx (e : ValidateTxError).

(** [core/node/consensus/hotstuff/src/errors.rs] *)
Inductive HotStuffErrorKind :=
| HsVerifyError (e : VerifyError)
| HsMessageError (msg : string)
| HsQCError (msg : string).

(** [enum VerifyError] of [core/node/coordinator/src/verifier.rs] *)
Inductive SyncVerifyError :=
| SvDuplicated
| SvNotBest
| SvBad
| SvInvalidExecutionGap
| SvShouldWait
| SvInvalidHeader (msg : string)
| SvDuplicatedTx (msg : string)
| SvInvalidTx (e : ValidateTxError)
| SvInvalidProof (msg : string).

(** [core/node/coordinator/src/errors.rs] *)
Inductive CoordinatorErrorKind :=
| CoordinatorData (msg : string)
| CoordinatorVerifyError (e : SyncVerifyError).

(** [core/node/api/src/errors.rs]; [ApiIO] holds the text of the error. *)
Inductive ApiErrorKind :=
| ApiIO (msg : string)
| InvalidParams (msg : string)
| CallError (msg : string).

(** [CommonError]: the boxed error values that the components build.
    [EOther] stands for the errors of the parts that are not modelled. *)
Inductive CommonError :=
| ECodec
| EExecutor (e : ExecutorErrorKind)
| EChain (e : ChainErrorKind)
| ETxPool (e : TxPoolErrorKind)
| EConsensus (e : ConsensusErrorKind)
| ERaftVerify (e : VerifyError)
| EHotStuff (e : HotStuffErrorKind)
| ECoordinator (e : CoordinatorErrorKind)
| EApi (e : ApiErrorKind)
| ECrypto (msg : string)
| EOther (msg : string).

Abbreviation CommonResult := (result CommonError).

(** [Catchable::or_else_catch]: [downcast] is [downcast_ref::<E>], [op]
    may replace an error of type [E] and every other error passes through. *)
Definition or_else_catch {A X} (downcast : CommonError → option X)
    (op : X → option (CommonResult A)) (r : CommonResult A) : CommonResult A :=
  match r with
  | Ok v => Ok v
  | Err e =>
      match downcast e with
      | Some de =>
          match op de with
          | Some oe => oe
          | None => Err e
          end
      | None => Err e
      end
  end.

Definition as_executor (e : CommonError) : option ExecutorErrorKind :=
  match e with EExecutor k => Some k | _ => None end.
Definition as_chain (e : CommonError) : option ChainErrorKind :=
  match e with EChain k => Some k | _ => None end.
Definition as_raft (e : CommonError) : option VerifyError :=
  match e with ERaftVerify k => Some k | _ => None end.
Definition as_hotstuff (e : CommonError) : option HotStuffErrorKind :=
  match e with EHotStuff k => Some k | _ => None end.

Definition as_txpool (e : CommonError) : option TxPoolErrorKind :=
  match e with ETxPool k => Some k | _ => None end.
Definition as_consensus (e : CommonError) : option ConsensusErrorKind :=
  match e with EConsensus k => Some k | _ => None end.
Definition as_coordinator (e : CommonError) : option CoordinatorErrorKind :=
  match e with ECoordinator k => Some k | _ => None end.

(** [codec::decode]: a decoding failure is a codec error. *)
Definition codec_decode {A} (C : Codec A) (bs : bytes) : CommonResult A :=
  ok_or ECodec (decode C bs).

(** ** Derived codecs of the structs that are hashed or stored *)
Section Codecs.
Context {SC : Scale}.

Definition codec_call : Codec Call :=
  iso_codec (sc_pair sc_string (sc_pair sc_string sc_bytes))
    (λ '(m, (f, p)), {| module := m; method := f; params := p |})
    (λ c, (module c, (method c, params c)))
    (λ c, match c with Build_Call _ _ _ => eq_refl end)
    (λ '(m, (f, p)), eq_refl).

(** Every call can be encoded. *)
Lemma codec_call_wf c : wf codec_call c.
Proof.
  unfold codec_call. cbn [wf iso_codec]. repeat (rewrite sc_pair_wf; cbn [fst snd]).
  auto with codec.
Qed.

Definition codec_witness : Codec Witness :=
  iso_codec (sc_pair sc_bytes (sc_pair sc_bytes (sc_pair sc_u32 sc_u64)))
    (λ '(k, (s, (n, u))), Build_Witness k s n u)
    (λ w, (w_public_key w, (w_signature w, (w_nonce w, w_until w))))
    (λ w, match w with Build_Witness _ _ _ _ => eq_refl end) (λ '(k, (s, (n, u))), eq_refl).

Definition codec_transaction : Codec Transaction :=
  iso_codec (sc_pair (sc_option codec_witness) codec_call)
    (λ '(w, c), Build_Transaction w c) (λ t, (witness t, call t))
    (λ t, match t with Build_Transaction _ _ => eq_refl end) (λ '(w, c), eq_refl).

Definition codec_transaction_for_hash : Codec TransactionForHash :=
  iso_codec (sc_pair (sc_option (sc_pair (sc_pair sc_bytes sc_u32) sc_u64)) codec_call)
    (λ '(w, c), {| fh_witness := w; fh_call := c |})
    (λ t, (fh_witness t, fh_call t))
    (λ t, match t with Build_TransactionForHash _ _ => eq_refl end)
    (λ '(w, c), eq_refl).

Definition codec_call_result : Codec OpaqueCallResult :=
  iso_codec (sc_sum sc_bytes sc_string)
    (λ x, match x with inl a => Ok a | inr e => Err e end)
    (λ r, match r with Ok a => inl a | Err e => inr e end)
    (λ r, match r with Ok _ => eq_refl | Err _ => eq_refl end)
    (λ x, match x with inl _ => eq_refl | inr _ => eq_refl end).

Definition codec_receipt : Codec Receipt :=
  iso_codec (sc_pair sc_u64 (sc_pair (sc_list sc_bytes) codec_call_result))
    (λ '(n, (es, r)), {| rc_block_number := n; rc_events := es; rc_result := r |})
    (λ r, (rc_block_number r, (rc_events r, rc_result r)))
    (λ r, match r with Build_Receipt _ _ _ => eq_refl end)
    (λ '(n, (es, r)), eq_refl).

Definition codec_header : Codec Header :=
  iso_codec (sc_pair sc_u64 (sc_pair sc_u64 (sc_pair sc_bytes (sc_pair sc_bytes (sc_pair sc_bytes
    (sc_pair sc_bytes (sc_pair sc_bytes (sc_pair sc_i8 (sc_pair sc_bytes sc_bytes)))))))))
    (λ '(n, (t, (p, (x1, (x2, (x3, (x4, (g, (s, r))))))))), Build_Header n t p x1 x2 x3 x4 g s r)
    (λ h, (hdr_number h, (hdr_timestamp h, (parent_hash h, (meta_txs_root h, (meta_state_root h,
       (meta_receipts_root h, (payload_txs_root h, (payload_execution_gap h,
       (hdr_payload_execution_state_root h, hdr_payload_execution_receipts_root h))))))))))
    (λ h, match h with Build_Header _ _ _ _ _ _ _ _ _ _ => eq_refl end)
    (λ '(n, (t, (p, (x1, (x2, (x3, (x4, (g, (s, r))))))))), eq_refl).

Definition codec_execution : Codec Execution :=
  iso_codec (sc_pair sc_bytes sc_bytes) (λ '(s, r), Build_Execution s r)
    (λ e, (payload_execution_state_root e, payload_execution_receipts_root e))
    (λ e, match e with Build_Execution _ _ => eq_refl end) (λ '(s, r), eq_refl).

Definition codec_block_proof : Codec Proof :=
  iso_codec (sc_pair sc_string sc_bytes) (λ '(n, d), Build_Proof n d)
    (λ p, (pf_name p, pf_data p))
    (λ p, match p with Build_Proof _ _ => eq_refl end) (λ '(n, d), eq_refl).

(** The encodings of these values can be read back. *)
Lemma codec_header_wf h : wf codec_header h ↔
  is_u64 (hdr_number h) ∧ is_u64 (hdr_timestamp h) ∧ is_i8 (payload_execution_gap h).
Proof.
  unfold codec_header. cbn [wf iso_codec]. repeat (rewrite sc_pair_wf; cbn [fst snd]).
  rewrite sc_i8_wf, !sc_u64_wf. pose proof sc_bytes_wf. naive_solver.
Qed.
Lemma codec_execution_wf e : wf codec_execution e.
Proof.
  unfold codec_execution. cbn [wf iso_codec]. rewrite sc_pair_wf. auto with codec.
Qed.
Lemma codec_receipt_wf r : wf codec_receipt r ↔ is_u64 (rc_block_number r).
Proof.
  unfold codec_receipt, codec_call_result. cbn [wf iso_codec]. repeat (rewrite sc_pair_wf; cbn [fst snd]).
  cbn [wf iso_codec]. rewrite sc_u64_wf, sc_list_wf, sc_sum_wf. split; [by intros [? _]|]. intros H. split_and!; [done| |].
  - apply Forall_forall. auto with codec.
  - destruct (rc_result r); auto with codec.
Qed.
Lemma codec_block_proof_wf p : wf codec_block_proof p.
Proof.
  unfold codec_block_proof. cbn [wf iso_codec]. rewrite sc_pair_wf. auto with codec.
Qed.
End Codecs.
