(* ===== verification/Context.v ===== *)
(** * Context

    [core/node/executor/primitives]: the error values of the modules, the
    interface [Context] through which a module reads and writes the chain
    state, the laws [ContextLaws] that an implementation owes to the modules
    (discharged by the executor in [Executor.v]), and the typed storage
    handles [StorageValue] and [StorageMap] built on it. *)
From S2P Require Import Prelude Codec Types.

(** ** Errors *)

Inductive ApplicationError :=
| InvalidAddress (address : string)
| Unsigned
| User (msg : string).

(** A system error aborts the block; an application error is the recorded
    result of the transaction. *)
Inductive ModuleError :=
| System (e : CommonError)
| App (e : ApplicationError).

Abbreviation ModuleResult := (result ModuleError).

(** [impl Display for ApplicationError] *)
Definition application_error_to_string (e : ApplicationError) : string :=
  match e with
  | InvalidAddress a => "Invalid address: " +:+ a
  | Unsigned => "Unsigned"
  | User msg => msg
  end.

(** [impl From<&str> for ModuleError] *)
Definition user_error (msg : string) : ModuleError := App (User msg).

(** [impl From<ErrorKind> for ModuleError] *)
Definition executor_error (e : ExecutorErrorKind) : ModuleError := System (EExecutor e).

(** [impl From<ModuleError> for CommonError] *)
Definition module_error_to_common (e : ModuleError) : CommonError :=
  match e with
  | System e => e
  | App e => EExecutor (Application (application_error_to_string e))
  end.

(** ** The context of a call *)

Record ContextEnv := {
  number : BlockNumber;
  timestamp : Z;
}.

Record CallEnv := {
  ce_tx_hash : option Hash;
}.

Abbreviation Updates := (list (DBKey * option DBValue)).

(** [trait Context]: a method is a call that may change the context [C]. *)
Class Context (C : Type) : Type := {
  env : C → ContextEnv;
  call_env : C → CallEnv;
  meta_get : DBKey → M C ModuleError (option DBValue);
  meta_set : DBKey → option DBValue → M C ModuleError unit;
  meta_drain_tx_buffer : M C ModuleError Updates;
  meta_apply : Updates → M C ModuleError unit;
  payload_get : DBKey → M C ModuleError (option DBValue);
  payload_set : DBKey → option DBValue → M C ModuleError unit;
  payload_drain_tx_buffer : M C ModuleError Updates;
  payload_apply : Updates → M C ModuleError unit;
  emit_event : Event → M C ModuleError unit;
  drain_tx_events : M C ModuleError (list Event);
}.

(** What an implementation promises to the modules: a read does not change
    the context, a write and an event are always accepted, a write is seen
    by the reads of its own key in its own state and by no other. *)
Class ContextLaws (C : Type) `{Context C} : Type := {
  read : bool → DBKey → C → ModuleResult (option DBValue);
  put : bool → DBKey → option DBValue → C → C;
  log : Event → C → C;
  pending : C → list Event;
  meta_get_eq k c : meta_get k c = (read true k c, c);
  payload_get_eq k c : payload_get k c = (read false k c, c);
  meta_set_eq k v c : meta_set k v c = (Ok tt, put true k v c);
  payload_set_eq k v c : payload_set k v c = (Ok tt, put false k v c);
  emit_event_eq e c : emit_event e c = (Ok tt, log e c);
  read_put_eq m k v c : read m k (put m k v c) = Ok v;
  read_put_ne m k m' k' v c : (m, k) ≠ (m', k') → read m k (put m' k' v c) = read m k c;
  read_log m k e c : read m k (log e c) = read m k c;
  pending_put m k v c : pending (put m k v c) = pending c;
  pending_log e c : pending (log e c) = pending c ++ [e];
  env_put m k v c : env (put m k v c) = env c;
  env_log e c : env (log e c) = env c;
}.

Create Rewrite HintDb context.
#[export] Hint Rewrite @meta_get_eq @payload_get_eq @meta_set_eq @payload_set_eq
  @emit_event_eq : call.
#[export] Hint Rewrite @read_put_eq @read_log @pending_put @pending_log @env_put @env_log : context.

(** [trait Util] *)
Class Util : Type := {
  util_hash : bytes → ModuleResult Hash;
  util_address : bytes → ModuleResult Address;
  validate_address : Address → ModuleResult unit;
}.

(** [serde_json::to_vec] of the data [D] of an event: serialising a derived
    struct of strings, integers and sequences does not fail. *)
Class Serialize (D : Type) : Type := {
  to_vec : string → D → option bytes;
  to_vec_total : ∀ name d, is_Some (to_vec name d);
}.

(** [Event::from_data] *)
Definition event_from_data {D} `{Serialize D} (name : string) (data : D) : CommonResult Event :=
  ok_or ECodec (to_vec name data).

(** The event that [event_from_data] builds. *)
Definition event {D} `{Serialize D} (name : string) (data : D) : Event :=
  default [] (to_vec name data).

Lemma event_from_data_ok {D} `{Serialize D} name (d : D) :
  event_from_data name d = Ok (event name d).
Proof. unfold event_from_data, event. by destruct (to_vec_total name d) as [e ->]. Qed.

(** [self.context.emit_event(Event::from_data(name, data)?)?] *)
Definition emit {C} `{Context C} {D} `{Serialize D} (name : string) (data : D) :
    M C ModuleError unit :=
  let! e := lift (map_err System (event_from_data name data)) in
  emit_event e.

(** ** Storage handles *)

Definition SEPARATOR : bytes := b "_".

Section Storage.
Context {C : Type} `{Context C}.

(** [fn context_get] *)
Definition context_get {V} (CV : Codec V) (meta_module : bool) (key : DBKey) :
    M C ModuleError (option V) :=
  let! value := (match meta_module with
                 | true => meta_get key
                 | false => payload_get key
                 end) in
  match value with
  | Some value =>
      let! value := lift (map_err System (codec_decode CV value)) in
      ret (Some value)
  | None => ret None
  end.

(** [fn context_set] *)
Definition context_set {V} (CV : Codec V) (meta_module : bool) (key : DBKey) (value : V) :
    M C ModuleError unit :=
  let value := Some (encode CV value) in
  match meta_module with
  | true => meta_set key value
  | false => payload_set key value
  end.

(** [fn context_delete] *)
Definition context_delete (meta_module : bool) (key : DBKey) : M C ModuleError unit :=
  match meta_module with
  | true => meta_set key None
  | false => payload_set key None
  end.
End Storage.

(** [struct StorageValue<T, M>] *)
Record StorageValue (T : Type) : Type := {
  sv_meta_module : bool;
  sv_key : DBKey;
  sv_codec : Codec T;
}.
Arguments sv_meta_module {T}. Arguments sv_key {T}. Arguments sv_codec {T}.

(** [StorageValue::new] in a module with the given [META_MODULE] and [STORAGE_KEY]. *)
Definition sv_new {T} (CT : Codec T) (META_MODULE : bool) (STORAGE_KEY storage_key : bytes) :
    StorageValue T :=
  {| sv_key := STORAGE_KEY ++ SEPARATOR ++ storage_key;
     sv_meta_module := META_MODULE; sv_codec := CT |}.

(** [struct StorageMap<K, V, M>] *)
Record StorageMap (K V : Type) : Type := {
  sm_meta_module : bool;
  sm_key : DBKey;
  sm_key_codec : Codec K;
  sm_codec : Codec V;
}.
Arguments sm_meta_module {K V}. Arguments sm_key {K V}.
Arguments sm_key_codec {K V}. Arguments sm_codec {K V}.

Definition sm_new {K V} (CK : Codec K) (CV : Codec V) (META_MODULE : bool)
    (STORAGE_KEY storage_key : bytes) : StorageMap K V :=
  {| sm_key := STORAGE_KEY ++ SEPARATOR ++ storage_key;
     sm_meta_module := META_MODULE; sm_key_codec := CK; sm_codec := CV |}.

(** The place of the entry with the encoded key [key]. *)
Definition raw_entry {K V} (m : StorageMap K V) (key : bytes) : StorageValue V :=
  {| sv_key := sm_key m ++ SEPARATOR ++ key;
     sv_meta_module := sm_meta_module m; sv_codec := sm_codec m |}.
Definition entry {K V} (m : StorageMap K V) (key : K) : StorageValue V :=
  raw_entry m (encode (sm_key_codec m) key).

Section Handles.
Context {C : Type} `{Context C}.

Definition sv_get {T} (v : StorageValue T) : M C ModuleError (option T) :=
  context_get (sv_codec v) (sv_meta_module v) (sv_key v).
Definition sv_set {T} (v : StorageValue T) (value : T) : M C ModuleError unit :=
  context_set (sv_codec v) (sv_meta_module v) (sv_key v) value.
Definition sv_delete {T} (v : StorageValue T) : M C ModuleError unit :=
  context_delete (sv_meta_module v) (sv_key v).

Definition raw_get {K V} (m : StorageMap K V) (key : bytes) : M C ModuleError (option V) :=
  sv_get (raw_entry m key).
Definition raw_set {K V} (m : StorageMap K V) (key : bytes) (value : V) : M C ModuleError unit :=
  sv_set (raw_entry m key) value.
Definition raw_delete {K V} (m : StorageMap K V) (key : bytes) : M C ModuleError unit :=
  sv_delete (raw_entry m key).

Definition sm_get {K V} (m : StorageMap K V) (key : K) : M C ModuleError (option V) :=
  raw_get m (encode (sm_key_codec m) key).
Definition sm_set {K V} (m : StorageMap K V) (key : K) (value : V) : M C ModuleError unit :=
  raw_set m (encode (sm_key_codec m) key) value.
Definition sm_delete {K V} (m : StorageMap K V) (key : K) : M C ModuleError unit :=
  raw_delete m (encode (sm_key_codec m) key).
End Handles.

(** ** Reading and writing through a handle *)
Section HandleLaws.
Context {C : Type} `{ContextLaws C}.

(** What [get] returns on a context. *)
Definition sv_read {T} (v : StorageValue T) (c : C) : ModuleResult (option T) :=
  let? value := read (sv_meta_module v) (sv_key v) c in
  match value with
  | Some value => map_err System (let? x := codec_decode (sv_codec v) value in Ok (Some x))
  | None => Ok None
  end.

(** The context after [set] ([Some]) or [delete] ([None]). *)
Definition sv_put {T} (v : StorageValue T) (value : option T) (c : C) : C :=
  put (sv_meta_module v) (sv_key v) (encode (sv_codec v) <$> value) c.

Lemma sv_get_eq {T} (v : StorageValue T) c : sv_get v c = (sv_read v c, c).
Proof.
  unfold sv_get, context_get, sv_read, bind. destruct (sv_meta_module v).
  all: rewrite ?meta_get_eq, ?payload_get_eq.
  all: destruct (read _ _ _) as [[x|]|e]; simpl; try done.
  all: unfold codec_decode, lift; by destruct (decode _ x).
Qed.
Lemma sv_set_eq {T} (v : StorageValue T) x c : sv_set v x c = (Ok tt, sv_put v (Some x) c).
Proof.
  unfold sv_set, context_set, sv_put.
  destruct (sv_meta_module v); by rewrite ?meta_set_eq, ?payload_set_eq.
Qed.
Lemma sv_delete_eq {T} (v : StorageValue T) c : sv_delete v c = (Ok tt, sv_put v None c).
Proof.
  unfold sv_delete, context_delete, sv_put.
  destruct (sv_meta_module v); by rewrite ?meta_set_eq, ?payload_set_eq.
Qed.

Lemma sm_get_eq {K V} (m : StorageMap K V) k c : sm_get m k c = (sv_read (entry m k) c, c).
Proof. apply sv_get_eq. Qed.
Lemma sm_set_eq {K V} (m : StorageMap K V) k x c :
  sm_set m k x c = (Ok tt, sv_put (entry m k) (Some x) c).
Proof. apply sv_set_eq. Qed.
Lemma sm_delete_eq {K V} (m : StorageMap K V) k c :
  sm_delete m k c = (Ok tt, sv_put (entry m k) None c).
Proof. apply sv_delete_eq. Qed.

(** Two handles name different places. *)
Definition apart {T U} (v : StorageValue T) (w : StorageValue U) : Prop :=
  (sv_meta_module v, sv_key v) ≠ (sv_meta_module w, sv_key w).
#[global] Instance apart_dec {T U} (v : StorageValue T) (w : StorageValue U) :
  Decision (apart v w) := _.
Lemma apart_sym {T U} (v : StorageValue T) (w : StorageValue U) : apart v w → apart w v.
Proof. unfold apart. auto. Qed.

Lemma sv_read_put_eq {T} (v : StorageValue T) x c :
  wf (sv_codec v) x → sv_read v (sv_put v (Some x) c) = Ok (Some x).
Proof.
  intros Hx. unfold sv_read, sv_put. rewrite read_put_eq. simpl.
  unfold codec_decode. by rewrite decode_encode.
Qed.
Lemma sv_read_put_None {T} (v : StorageValue T) c : sv_read v (sv_put v None c) = Ok None.
Proof. unfold sv_read, sv_put. by rewrite read_put_eq. Qed.
Lemma sv_read_put_ne {T U} (v : StorageValue T) (w : StorageValue U) x c :
  apart v w → sv_read v (sv_put w x c) = sv_read v c.
Proof. intros Hne. unfold sv_read, sv_put. by rewrite read_put_ne. Qed.
Lemma sv_read_log {T} (v : StorageValue T) e c : sv_read v (log e c) = sv_read v c.
Proof. unfold sv_read. by rewrite read_log. Qed.
Lemma env_sv_put {T} (v : StorageValue T) x c : env (sv_put v x c) = env c.
Proof. apply env_put. Qed.
Lemma pending_sv_put {T} (v : StorageValue T) x c : pending (sv_put v x c) = pending c.
Proof. apply pending_put. Qed.

(** A value that is read back is a value of the type. *)
Lemma sv_read_wf {T} (v : StorageValue T) c x : sv_read v c = Ok (Some x) → wf (sv_codec v) x.
Proof.
  unfold sv_read. destruct (read _ _ _) as [[bs|]|]; simpl; try done.
  unfold codec_decode. destruct (decode _ bs) eqn:E; simpl; [|done].
  intros [= <-]. by eapply decode_wf.
Qed.

Lemma emit_eq {D} `{Serialize D} name (d : D) c : emit name d c = (Ok tt, log (event name d) c).
Proof. unfold emit. rewrite event_from_data_ok. run_call. apply emit_event_eq. Qed.
End HandleLaws.

(** Entries of one map are apart when their keys are. *)
Lemma entry_apart {K V} (m : StorageMap K V) k1 k2 :
  wf (sm_key_codec m) k1 → wf (sm_key_codec m) k2 → k1 ≠ k2 → apart (entry m k1) (entry m k2).
Proof.
  intros H1 H2 Hne. unfold apart, entry, raw_entry. simpl. intros [= Heq].
  apply Hne, (encode_inj (sm_key_codec m)); [done..|].
  apply app_inv_head in Heq. by injection Heq.
Qed.

#[export] Hint Rewrite @sv_get_eq @sv_set_eq @sv_delete_eq @sm_get_eq @sm_set_eq
  @sm_delete_eq @emit_eq using (typeclasses eauto) : call.
#[export] Hint Rewrite @sv_read_put_None @sv_read_log @env_sv_put @pending_sv_put
  using (typeclasses eauto) : context.

(** ** The module interface *)

(** [trait Module]: what the executor calls. *)
Record ModuleOps (C : Type) : Type := {
  META_MODULE : bool;
  is_write_call : Call → ModuleResult bool;
  check_call : Call → ModuleResult unit;
  validate_call : option Address → Call → M C ModuleError unit;
  execute_call : option Address → Call → M C ModuleError bytes;
}.
Arguments META_MODULE {C}. Arguments is_write_call {C}. Arguments check_call {C}.
Arguments validate_call {C}. Arguments execute_call {C}.

(** ** What a call may touch

    A module sees the chain state through the interface [Context] only, so
    whatever it does is a sequence of writes and events.  [touches] is that
    relation, [Confined] states it of a call; the instances prove it of the
    combinators, and so of every call of the modules by resolution. *)
Section Touches.
Context {C : Type} `{CL : ContextLaws C}.

(** What a call may do to the context. *)
Inductive touches : C → C → Prop :=
| touches_refl c : touches c c
| touches_put c c' m k v : touches c c' → touches c (put m k v c')
| touches_log c c' e : touches c c' → touches c (log e c').

#[global] Instance touches_preorder : PreOrder touches.
Proof.
  split; [constructor|]. intros c1 c2 c3 H12 H23.
  induction H23; [done|apply touches_put; auto|apply touches_log; auto].
Qed.

Lemma touches_sv_put {T} (v : StorageValue T) x c : touches c (sv_put v x c).
Proof. apply touches_put, touches_refl. Qed.

Lemma touches_env c c' : touches c c' → env c' = env c.
Proof. induction 1; autorewrite with context; done. Qed.

(** The events of a context are never withdrawn by a call. *)
Lemma touches_pending c c' : touches c c' → ∃ es, pending c' = pending c ++ es.
Proof.
  induction 1 as [|c c' m k v _ [es IH]|c c' e _ [es IH]].
  - exists []. by rewrite app_nil_r.
  - exists es. by rewrite pending_put.
  - exists (es ++ [e]). by rewrite pending_log, IH, app_assoc.
Qed.

Class Confined {E A} (m : M C E A) : Prop := confined c : touches c (m c).2.

#[global] Instance confined_ret {E A} (a : A) : Confined (E := E) (ret a).
Proof. intros c. constructor. Qed.
#[global] Instance confined_throw {E A} (e : E) : Confined (A := A) (throw e).
Proof. intros c. constructor. Qed.
#[global] Instance confined_lift {E A} (r : result E A) : Confined (lift r).
Proof. intros c. constructor. Qed.
#[global] Instance confined_asks {E A} (f : C → A) : Confined (E := E) (asks f).
Proof. intros c. constructor. Qed.
#[global] Instance confined_bind {E A B} (m : M C E A) (k : A → M C E B) :
  Confined m → (∀ a, Confined (k a)) → Confined (bind m k).
Proof.
  intros Hm Hk c. specialize (Hm c). unfold bind. destruct (m c) as [[a|e] c']; [|done].
  etrans; [exact Hm|]. apply Hk.
Qed.
#[global] Instance confined_for_each {E A} (f : A → M C E unit) l :
  (∀ x, Confined (f x)) → Confined (for_each f l).
Proof. intros Hf. induction l as [|x l IH]; simpl; apply _. Qed.
#[global] Instance confined_sv_get {T} (v : StorageValue T) : Confined (sv_get v).
Proof. intros c. rewrite sv_get_eq. constructor. Qed.
#[global] Instance confined_sv_set {T} (v : StorageValue T) x : Confined (sv_set v x).
Proof. intros c. rewrite sv_set_eq. apply touches_sv_put. Qed.
#[global] Instance confined_sv_delete {T} (v : StorageValue T) : Confined (sv_delete v).
Proof. intros c. rewrite sv_delete_eq. apply touches_sv_put. Qed.
#[global] Instance confined_sm_get {K V} (m : StorageMap K V) k : Confined (sm_get m k).
Proof. apply confined_sv_get. Qed.
#[global] Instance confined_sm_set {K V} (m : StorageMap K V) k x : Confined (sm_set m k x).
Proof. apply confined_sv_set. Qed.
#[global] Instance confined_emit {D} `{Serialize D} name (d : D) : Confined (emit name d).
Proof. intros c. rewrite emit_eq. apply touches_log, touches_refl. Qed.

(** Branches. *)
#[global] Instance confined_if {E A} (x : bool) (m1 m2 : M C E A) :
  Confined m1 → Confined m2 → Confined (if x then m1 else m2).
Proof. by destruct x. Qed.
#[global] Instance confined_decide {E A} (P : Prop) {D : Decision P} (m1 m2 : M C E A) :
  Confined m1 → Confined m2 → Confined (if decide P then m1 else m2).
Proof. by destruct (decide P). Qed.
End Touches.

(** Prove [Confined] of a call by its definition. *)
Ltac solve_confined :=
  repeat (first [apply _ | progress intros | case_match | apply confined_bind
                | apply confined_for_each | progress cbn beta iota zeta]).
