(* ===== verification/ExecutorContext.v ===== *)
(** * ExecutorContext

    The first part of [core/node/executor/src/lib.rs]: the context in which the
    executor runs the modules.  It implements the interface [Context] and
    satisfies its laws.  The state database and the trie
    ([core/node/statedb]) appear as the interface [StateDBApi]. *)
From S2P Require Import Prelude Codec Types Context.

(** What the executor uses of [node_statedb]. *)
Class StateDBApi : Type := {
  StateDB : Type;
  StateDBStmt : Type;
  DBTransaction : Type;
  prepare_stmt : StateDB → Hash → CommonResult StateDBStmt;
  prepare_get : StateDBStmt → CommonResult (DBKey → CommonResult (option DBValue));
  prepare_update : StateDB → Hash → Updates → CommonResult (Hash * DBTransaction);
  calc_ordered_trie_root : list bytes → Hash;
}.

Section ExecutorContext.
Context {SC : Scale} {API : StateDBApi}.

(** [struct ContextEssence] *)
Record ContextEssence := {
  es_env : ContextEnv;
  es_meta_statedb : StateDB;
  es_meta_state_root : Hash;
  es_meta_stmt : StateDBStmt;
  es_payload_statedb : StateDB;
  es_payload_state_root : Hash;
  es_payload_stmt : StateDBStmt;
}.

(** [ContextEssence::new] *)
Definition context_essence_new (env : ContextEnv) (meta_statedb : StateDB)
    (meta_state_root : Hash) (payload_statedb : StateDB) (payload_state_root : Hash) :
    CommonResult ContextEssence :=
  let? meta_stmt := prepare_stmt meta_statedb meta_state_root in
  let? payload_stmt := prepare_stmt payload_statedb payload_state_root in
  Ok {| es_env := env;
        es_meta_statedb := meta_statedb; es_meta_state_root := meta_state_root;
        es_meta_stmt := meta_stmt;
        es_payload_statedb := payload_statedb; es_payload_state_root := payload_state_root;
        es_payload_stmt := payload_stmt |}.

(** [struct ContextState]: [tx_buffer] holds the writes of the running
    transaction, [buffer] those of the transactions already applied; a
    [None] is a deletion. *)
Record ContextState := {
  statedb_getter : DBKey → CommonResult (option DBValue);
  tx_buffer : gmap DBKey (option DBValue);
  buffer : gmap DBKey (option DBValue);
}.

Definition context_state_new (stmt : StateDBStmt) : CommonResult ContextState :=
  let? getter := prepare_get stmt in
  Ok {| statedb_getter := getter; tx_buffer := ∅; buffer := ∅ |}.

(** [struct ContextInner] *)
Record ExecContext := {
  cx_env : ContextEnv;
  cx_call_env : CallEnv;
  meta_statedb : StateDB;
  cx_meta_state_root : Hash;
  meta_state : ContextState;
  meta_txs : list FullTransaction;
  meta_receipts : list FullReceipt;
  payload_statedb : StateDB;
  payload_state_root : Hash;
  payload_state : ContextState;
  payload_txs : list FullTransaction;
  payload_receipts : list FullReceipt;
  events : list Event;
  payload_phase : bool;
}.

(** [Context::new] *)
Definition context_new (e : ContextEssence) : CommonResult ExecContext :=
  let? meta := context_state_new (es_meta_stmt e) in
  let? payload := context_state_new (es_payload_stmt e) in
  Ok {| cx_env := es_env e; cx_call_env := {| ce_tx_hash := None |};
        meta_statedb := es_meta_statedb e; cx_meta_state_root := es_meta_state_root e;
        meta_state := meta; meta_txs := []; meta_receipts := [];
        payload_statedb := es_payload_statedb e; payload_state_root := es_payload_state_root e;
        payload_state := payload; payload_txs := []; payload_receipts := [];
        events := []; payload_phase := false |}.

(** Field updates. *)
Definition with_call_env (x : CallEnv) (c : ExecContext) : ExecContext :=
  Build_ExecContext (cx_env c) x (meta_statedb c) (cx_meta_state_root c) (meta_state c)
    (meta_txs c) (meta_receipts c) (payload_statedb c) (payload_state_root c)
    (payload_state c) (payload_txs c) (payload_receipts c) (events c) (payload_phase c).
Definition with_meta_state (x : ContextState) (c : ExecContext) : ExecContext :=
  Build_ExecContext (cx_env c) (cx_call_env c) (meta_statedb c) (cx_meta_state_root c) x
    (meta_txs c) (meta_receipts c) (payload_statedb c) (payload_state_root c)
    (payload_state c) (payload_txs c) (payload_receipts c) (events c) (payload_phase c).
Definition with_payload_state (x : ContextState) (c : ExecContext) : ExecContext :=
  Build_ExecContext (cx_env c) (cx_call_env c) (meta_statedb c) (cx_meta_state_root c)
    (meta_state c) (meta_txs c) (meta_receipts c) (payload_statedb c) (payload_state_root c)
    x (payload_txs c) (payload_receipts c) (events c) (payload_phase c).
Definition with_events (x : list Event) (c : ExecContext) : ExecContext :=
  Build_ExecContext (cx_env c) (cx_call_env c) (meta_statedb c) (cx_meta_state_root c)
    (meta_state c) (meta_txs c) (meta_receipts c) (payload_statedb c) (payload_state_root c)
    (payload_state c) (payload_txs c) (payload_receipts c) x (payload_phase c).
Definition with_payload_phase (x : bool) (c : ExecContext) : ExecContext :=
  Build_ExecContext (cx_env c) (cx_call_env c) (meta_statedb c) (cx_meta_state_root c)
    (meta_state c) (meta_txs c) (meta_receipts c) (payload_statedb c) (payload_state_root c)
    (payload_state c) (payload_txs c) (payload_receipts c) (events c) x.
Definition append_meta (txs : list FullTransaction) (rs : list FullReceipt) (c : ExecContext) :
    ExecContext :=
  Build_ExecContext (cx_env c) (cx_call_env c) (meta_statedb c) (cx_meta_state_root c)
    (meta_state c) (meta_txs c ++ txs) (meta_receipts c ++ rs) (payload_statedb c)
    (payload_state_root c) (payload_state c) (payload_txs c) (payload_receipts c) (events c)
    (payload_phase c).
Definition append_payload (txs : list FullTransaction) (rs : list FullReceipt)
    (c : ExecContext) : ExecContext :=
  Build_ExecContext (cx_env c) (cx_call_env c) (meta_statedb c) (cx_meta_state_root c)
    (meta_state c) (meta_txs c) (meta_receipts c) (payload_statedb c) (payload_state_root c)
    (payload_state c) (payload_txs c ++ txs) (payload_receipts c ++ rs) (events c)
    (payload_phase c).

(** The state selected by the kind of the module. *)
Definition state_of (meta : bool) (c : ExecContext) : ContextState :=
  if meta then meta_state c else payload_state c.
Definition with_state (meta : bool) (s : ContextState) (c : ExecContext) : ExecContext :=
  if meta then with_meta_state s c else with_payload_state s c.

(** The body of [meta_get] and [payload_get]: the writes of the running
    transaction shadow those applied before, which shadow the database. *)
Definition state_get (s : ContextState) (key : DBKey) : ModuleResult (option DBValue) :=
  match tx_buffer s !! key with
  | Some value => Ok value
  | None =>
      match buffer s !! key with
      | Some value => Ok value
      | None => map_err System (statedb_getter s key)
      end
  end.

(** The bodies of [meta_set], [meta_drain_tx_buffer] and [meta_apply]. *)
Definition state_set (key : DBKey) (value : option DBValue) (s : ContextState) : ContextState :=
  {| statedb_getter := statedb_getter s; tx_buffer := <[key := value]> (tx_buffer s);
     buffer := buffer s |}.
Definition state_drain (s : ContextState) : ContextState :=
  {| statedb_getter := statedb_getter s; tx_buffer := ∅; buffer := buffer s |}.
Definition state_apply (items : Updates) (s : ContextState) : ContextState :=
  {| statedb_getter := statedb_getter s; tx_buffer := tx_buffer s;
     buffer := foldl (λ m kv, <[kv.1 := kv.2]> m) (buffer s) items |}.

(** [impl ContextT for Context] *)
#[global] Instance exec_context : Context ExecContext := {
  env := cx_env;
  call_env := cx_call_env;
  meta_get key c := (state_get (meta_state c) key, c);
  meta_set key value c := (Ok tt, with_meta_state (state_set key value (meta_state c)) c);
  meta_drain_tx_buffer c :=
    (Ok (map_to_list (tx_buffer (meta_state c))),
     with_meta_state (state_drain (meta_state c)) c);
  meta_apply items c := (Ok tt, with_meta_state (state_apply items (meta_state c)) c);
  payload_get key c := (state_get (payload_state c) key, c);
  payload_set key value c :=
    (Ok tt, with_payload_state (state_set key value (payload_state c)) c);
  payload_drain_tx_buffer c :=
    (Ok (map_to_list (tx_buffer (payload_state c))),
     with_payload_state (state_drain (payload_state c)) c);
  payload_apply items c :=
    (Ok tt, with_payload_state (state_apply items (payload_state c)) c);
  emit_event event c := (Ok tt, with_events (events c ++ [event]) c);
  drain_tx_events c := (Ok (events c), with_events [] c);
}.

(** The executor keeps the promises made to the modules. *)
#[global, program] Instance exec_context_laws : ContextLaws ExecContext := {
  read meta key c := state_get (state_of meta c) key;
  put meta key value c := with_state meta (state_set key value (state_of meta c)) c;
  log event c := with_events (events c ++ [event]) c;
  pending := events;
}.
Next Obligation. done. Qed.
Next Obligation. done. Qed.
Next Obligation. done. Qed.
Next Obligation. done. Qed.
Next Obligation. done. Qed.
Next Obligation.
  intros [] k v c; unfold state_get; simpl; by rewrite lookup_insert_eq.
Qed.
Next Obligation.
  intros [] k [] k' v c Hne; try done; unfold state_get; simpl.
  all: rewrite lookup_insert_ne by (intros Heq; apply Hne; by rewrite Heq); done.
Qed.
Next Obligation. by intros []. Qed.
Next Obligation. by intros []. Qed.
Next Obligation. done. Qed.
Next Obligation. by intros []. Qed.
Next Obligation. done. Qed.

(** Applying the drained buffer makes the pending writes permanent. *)
Lemma apply_drained (m1 m2 : gmap DBKey (option DBValue)) :
  foldl (λ m kv, <[kv.1 := kv.2]> m) m2 (map_to_list m1) = m1 ∪ m2.
Proof.
  rewrite <-(list_to_map_to_list m1) at 2.
  assert (NoDup (map_to_list m1).*1) as Hnd by apply NoDup_fst_map_to_list.
  revert m2 Hnd. induction (map_to_list m1) as [|[k v] l IH]; intros m2 Hnd; simpl.
  - by rewrite (left_id_L ∅ (∪)).
  - apply NoDup_cons in Hnd as [Hk Hnd]. rewrite IH by done.
    rewrite <-insert_union_r by (by apply not_elem_of_list_to_map_1).
    by rewrite insert_union_l.
Qed.

(** ** Results of an execution *)

(** [Context::get_meta_update] and [Context::get_payload_update] *)
Definition get_meta_update (c : ExecContext) : CommonResult (Hash * DBTransaction) :=
  prepare_update (meta_statedb c) (cx_meta_state_root c) (map_to_list (buffer (meta_state c))).
Definition get_payload_update (c : ExecContext) : CommonResult (Hash * DBTransaction) :=
  prepare_update (payload_statedb c) (payload_state_root c)
    (map_to_list (buffer (payload_state c))).

(** [Context::get_txs_root] *)
Definition get_txs_root (txs : list FullTransaction) : CommonResult Hash :=
  let input := (λ x, encode codec_transaction_for_hash (transaction_for_hash (tx x))) <$> txs in
  Ok (calc_ordered_trie_root input).

Definition get_receipts_root (receipts : list FullReceipt) : CommonResult Hash :=
  let input := (λ x, encode codec_receipt (receipt x)) <$> receipts in
  Ok (calc_ordered_trie_root input).

(** [Context::get_meta_txs], [get_payload_txs], [get_meta_receipts] and
    [get_payload_receipts] *)
Definition get_meta_txs (c : ExecContext) : CommonResult (Hash * list FullTransaction) :=
  let txs := meta_txs c in
  let? txs_root := get_txs_root txs in Ok (txs_root, txs).
Definition get_payload_txs (c : ExecContext) : CommonResult (Hash * list FullTransaction) :=
  let txs := payload_txs c in
  let? txs_root := get_txs_root txs in Ok (txs_root, txs).
Definition get_meta_receipts (c : ExecContext) : CommonResult (Hash * list FullReceipt) :=
  let receipts := meta_receipts c in
  let? receipts_root := get_receipts_root receipts in Ok (receipts_root, receipts).
Definition get_payload_receipts (c : ExecContext) : CommonResult (Hash * list FullReceipt) :=
  let receipts := payload_receipts c in
  let? receipts_root := get_receipts_root receipts in Ok (receipts_root, receipts).
End ExecutorContext.

(** ** Concrete contexts

    Concrete instances of the interfaces, on which theorems are applied to
    concrete inputs: the frame codec, a state database that is a finite map,
    addresses of one byte, and contexts over an empty database. *)
Module Samples.

#[export] Instance sample_scale : Scale := FrameScale.scale.

(** A state database that is a finite map and whose roots are constant. *)
#[export] Instance sample_api : StateDBApi := {|
  StateDB := gmap DBKey DBValue;
  StateDBStmt := gmap DBKey DBValue;
  DBTransaction := Updates;
  prepare_stmt db _ := Ok db;
  prepare_get stmt := Ok (λ key, Ok (stmt !! key));
  prepare_update _ root updates := Ok (root, updates);
  calc_ordered_trie_root input := concat input;
|}.

(** Addresses have one byte, the hash of some data is its first byte. *)
#[export] Instance sample_util : Util := {|
  util_hash data := Ok (take 1 data);
  util_address data := Ok (take 1 data);
  validate_address a :=
    if decide (length a = 1) then Ok tt else Err (App (InvalidAddress "length"));
|}.

(** An event is serialised to its name. *)
#[export, program] Instance sample_serialize D : Serialize D :=
  {| to_vec name _ := Some (b name) |}.
Next Obligation. intros D name d. by eexists. Qed.

Definition empty_state : ContextState :=
  {| statedb_getter := λ _, Ok None; tx_buffer := ∅; buffer := ∅ |}.

(** The context of block [n] over an empty database. *)
Definition empty_context (n : BlockNumber) : ExecContext :=
  Build_ExecContext {| number := n; timestamp := 0%Z |} {| ce_tx_hash := Some (b "t") |}
    (∅ : StateDB) [] empty_state [] [] (∅ : StateDB) [] empty_state [] [] [] false.

Definition alice : Address := b "A".
Definition bob : Address := b "B".
Definition carol : Address := b "C".

Lemma read_empty {T} (v : StorageValue T) n : sv_read v (empty_context n) = Ok None.
Proof. unfold sv_read. by destruct v as [[] ? ?]. Qed.

End Samples.
