(* ===== verification/Dispatch.v ===== *)
(** * Dispatch

    [core/node/executor/executor-macro/src/lib.rs]: what the attribute macros
    [#[module]] and [#[dispatcher]] generate.  A module is a table of its
    [#[call]] methods; the dispatcher is a table of modules. *)
From S2P Require Import Prelude Codec Types Context.

(** [struct ModuleMethod]: a [#[call]] method with its [validate_] companion. *)
Record ModuleMethod (C : Type) : Type := {
  method_ident : string;
  write : bool;
  MParams : Type;
  MReturn : Type;
  params_codec : Codec MParams;
  return_codec : Codec MReturn;
  validate_ident : option (option Address → MParams → M C ModuleError unit);
  method_body : option Address → MParams → M C ModuleError MReturn;
}.
Arguments method_ident {C}. Arguments write {C}. Arguments MParams {C}. Arguments MReturn {C}.
Arguments params_codec {C}. Arguments return_codec {C}.
Arguments validate_ident {C}. Arguments method_body {C}.

Section ModuleMacro.
Context {C : Type}.

(** [match call.method.as_str() { ... }] *)
Definition find_method (methods : list (ModuleMethod C)) (name : string) :
    option (ModuleMethod C) :=
  snd <$> list_find (λ m, method_ident m = name) methods.

Definition invalid_method {A} (call : Call) : ModuleResult A :=
  Err (executor_error (InvalidTxMethod (method call))).
Definition decode_params (m : ModuleMethod C) (call : Call) : ModuleResult (MParams m) :=
  ok_or (executor_error (InvalidTxParams "Codec error")) (decode (params_codec m) (params call)).

(** The methods of the generated [impl ModuleT]. *)
Definition gen_is_write_call (methods : list (ModuleMethod C)) (call : Call) :
    ModuleResult bool :=
  match find_method methods (method call) with
  | Some m => Ok (write m)
  | None => invalid_method call
  end.
Definition gen_check_call (methods : list (ModuleMethod C)) (call : Call) :
    ModuleResult unit :=
  match find_method methods (method call) with
  | Some m => let? _ := decode_params m call in Ok tt
  | None => invalid_method call
  end.
Definition gen_validate_call (methods : list (ModuleMethod C)) (sender : option Address)
    (call : Call) : M C ModuleError unit :=
  match find_method methods (method call) with
  | Some m =>
      let! params := lift (decode_params m call) in
      match validate_ident m with
      | Some validate => validate sender params
      | None => ret tt
      end
  | None => lift (invalid_method call)
  end.
Definition gen_execute_call (methods : list (ModuleMethod C)) (sender : option Address)
    (call : Call) : M C ModuleError bytes :=
  match find_method methods (method call) with
  | Some m =>
      let! params := lift (decode_params m call) in
      let! result := method_body m sender params in
      ret (encode (return_codec m) result)
  | None => lift (invalid_method call)
  end.

Definition module_ops (meta_module : bool) (methods : list (ModuleMethod C)) : ModuleOps C := {|
  META_MODULE := meta_module;
  is_write_call := gen_is_write_call methods;
  check_call := gen_check_call methods;
  validate_call := gen_validate_call methods;
  execute_call := gen_execute_call methods;
|}.
End ModuleMacro.

Section DispatcherMacro.
Context {C : Type}.

(** The enum of the modules, in its order. *)
Abbreviation Modules := (list (string * ModuleOps C)).

Definition find_module (modules : Modules) (name : string) : option (ModuleOps C) :=
  (λ x, x.2.2) <$> list_find (λ x, x.1 = name) modules.

Definition invalid_module {A} (name : string) : CommonResult A :=
  Err (EExecutor (InvalidTxModule name)).

(** [Dispatcher::is_meta], [is_write_call] and [check_call] *)
Definition is_meta (modules : Modules) (module : string) : CommonResult bool :=
  match find_module modules module with
  | Some m => Ok (META_MODULE m)
  | None => invalid_module module
  end.
Definition dispatch_is_write_call (modules : Modules) (module : string) (call : Call) :
    CommonResult bool :=
  match find_module modules module with
  | Some m => map_err module_error_to_common (is_write_call m call)
  | None => invalid_module module
  end.
Definition dispatch_check_call (modules : Modules) (module : string) (call : Call) :
    CommonResult unit :=
  match find_module modules module with
  | Some m => map_err module_error_to_common (check_call m call)
  | None => invalid_module module
  end.

(** A system error is the error of the dispatcher; an application error is
    its result, as text. *)
Definition split_result {A} (r : ModuleResult A) : CommonResult (result string A) :=
  match r with
  | Ok r => Ok (Ok r)
  | Err (System e) => Err e
  | Err (App e) => Ok (Err (application_error_to_string e))
  end.

(** [Dispatcher::validate_call] and [execute_call] *)
Definition dispatch_validate_call (modules : Modules) (module : string)
    (sender : option Address) (call : Call) : M C CommonError (result string unit) :=
  match find_module modules module with
  | Some m => λ c, let '(r, c) := validate_call m sender call c in (split_result r, c)
  | None => lift (invalid_module module)
  end.
Definition dispatch_execute_call (modules : Modules) (module : string)
    (sender : option Address) (call : Call) : M C CommonError OpaqueCallResult :=
  match find_module modules module with
  | Some m => λ c, let '(r, c) := execute_call m sender call c in (split_result r, c)
  | None => lift (invalid_module module)
  end.
End DispatcherMacro.
