(* ===== verification/Balance.v ===== *)
(** * Balance

    [core/module/balance/src/lib.rs]: the account balances, their transfer,
    and the ledger they refine. *)
From S2P Require Import Prelude Codec Types Context ExecutorContext Dispatch.

Module Balance.

Record InitParams := {
  endow : list (Address * Balance);
}.

Record TransferParams := {
  recipient : Address;
  value : Balance;
}.

(** The data of the event [Transferred]. *)
Record Transferred := {
  tr_sender : Address;
  tr_recipient : Address;
  tr_value : Balance;
}.

Definition META_MODULE : bool := false.
Definition STORAGE_KEY : bytes := b "balance".

Section Module.
Context {SC : Scale} {UT : Util} {SE : Serialize Transferred}.
Context {C : Type} `{CL : ContextLaws C}.

(** [Module::new] builds the map of the balances. *)
Definition balance : StorageMap Address Balance :=
  sm_new sc_bytes sc_u64 META_MODULE STORAGE_KEY (b "balance").

Definition init (_sender : option Address) (params : InitParams) : M C ModuleError unit :=
  let! e := asks env in
  if decide (number e ≠ 0%Z) then throw (user_error "Not genesis")
  else for_each (λ '(address, value), sm_set balance address value) (endow params).

Definition validate_init (_sender : option Address) (params : InitParams) :
    M C ModuleError unit :=
  for_each (λ '(address, _), lift (validate_address address)) (endow params).

Definition get_balance (sender : option Address) (_params : unit) : M C ModuleError Balance :=
  let! sender := lift (ok_or (App Unsigned) sender) in
  let! value := sm_get balance sender in
  ret (default 0%Z value).

Definition transfer (sender : option Address) (params : TransferParams) :
    M C ModuleError unit :=
  let! sender := lift (ok_or (App Unsigned) sender) in
  let recipient := recipient params in
  let value := value params in
  if decide (sender = recipient) then
    throw (user_error "Should not transfer to oneself")
  else
    let! sender_balance := sm_get balance sender in
    let sender_balance := default 0%Z sender_balance in
    if decide (sender_balance < value)%Z then throw (user_error "Insufficient balance")
    else
      let! recipient_balance := sm_get balance recipient in
      let recipient_balance := default 0%Z recipient_balance in
      let '(sender_balance, overflow) := overflowing_sub sender_balance value in
      if overflow : bool then throw (user_error "U64 overflow")
      else
        let '(recipient_balance, overflow) := overflowing_add recipient_balance value in
        if overflow : bool then throw (user_error "U64 overflow")
        else
          do! sm_set balance sender sender_balance in
          do! sm_set balance recipient recipient_balance in
          emit "Transferred"
            {| tr_sender := sender; tr_recipient := recipient; tr_value := value |}.

Definition validate_transfer (_sender : option Address) (params : TransferParams) :
    M C ModuleError unit :=
  lift (validate_address (recipient params)).

(** *** The derived codecs and the table of the calls *)
Definition codec_init : Codec InitParams :=
  iso_codec (sc_list (sc_pair sc_bytes sc_u64)) Build_InitParams endow
    (λ p, match p with Build_InitParams _ => eq_refl end) (λ x, eq_refl).
Definition codec_transfer : Codec TransferParams :=
  iso_codec (sc_pair sc_bytes sc_u64) (λ '(r, v), Build_TransferParams r v)
    (λ p, (recipient p, value p))
    (λ p, match p with Build_TransferParams _ _ => eq_refl end) (λ '(r, v), eq_refl).

Definition methods : list (ModuleMethod C) := [
  Build_ModuleMethod C "init" true _ _ codec_init sc_unit (Some validate_init) init;
  Build_ModuleMethod C "get_balance" false _ _ sc_unit sc_u64 None get_balance;
  Build_ModuleMethod C "transfer" true _ _ codec_transfer sc_unit (Some validate_transfer)
    transfer
].
Definition balance_module : ModuleOps C := module_ops META_MODULE methods.

(** ** The ledger

    The abstract state of the module is a total function from addresses to
    amounts, an absent entry being a zero balance. *)
Definition ledger : Type := Address → Z.

(** The context [c] holds the ledger [l]: every balance can be read. *)
Definition holds (c : C) (l : ledger) : Prop :=
  ∀ a, ∃ o, sv_read (entry balance a) c = Ok o ∧ l a = default 0%Z o.

Definition ledger_set (a : Address) (z : Z) (l : ledger) : ledger :=
  λ a', if decide (a' = a) then z else l a'.

(** What a transfer promises: the outcome, and the ledger after it. *)
Definition ledger_transfer (sender : option Address) (p : TransferParams) (l : ledger) :
    ModuleResult unit * ledger :=
  match sender with
  | None => (Err (App Unsigned), l)
  | Some s =>
      if decide (s = recipient p) then
        (Err (user_error "Should not transfer to oneself"), l)
      else if decide (l s < value p)%Z then (Err (user_error "Insufficient balance"), l)
      else if decide (2 ^ 64 ≤ l (recipient p) + value p)%Z then
        (Err (user_error "U64 overflow"), l)
      else (Ok tt, ledger_set (recipient p) (l (recipient p) + value p)
                     (ledger_set s (l s - value p) l))%Z
  end.

Lemma balance_apart a1 a2 : a1 ≠ a2 → apart (entry balance a1) (entry balance a2).
Proof. intros. apply entry_apart; auto; apply sc_bytes_wf. Qed.

Lemma holds_range c l a : holds c l → is_u64 (l a).
Proof.
  intros Hl. destruct (Hl a) as ([z|] & Hr & ->); [|done].
  apply sc_u64_wf. by apply sv_read_wf in Hr.
Qed.

Lemma holds_put c l a z :
  holds c l → is_u64 z → holds (sv_put (entry balance a) (Some z) c) (ledger_set a z l).
Proof.
  intros Hl Hz a'. unfold ledger_set. case_decide as Ha.
  - subst. exists (Some z). split; [|done]. apply sv_read_put_eq. by apply sc_u64_wf.
  - destruct (Hl a') as (o & Hr & Ho). exists o. split; [|done].
    rewrite sv_read_put_ne; [done|]. by apply balance_apart.
Qed.

Lemma holds_log c l e : holds c l → holds (log e c) l.
Proof. intros Hl a. destruct (Hl a) as (o & Hr & Ho). exists o. by rewrite sv_read_log. Qed.

Lemma read_balance c l a : holds c l → ∃ o, sm_get balance a c = (Ok o, c) ∧ l a = default 0%Z o.
Proof. intros Hl. destruct (Hl a) as (o & Hr & Ho). exists o. by rewrite sm_get_eq, Hr. Qed.

(** A transfer does to the stored balances exactly what the ledger says,
    on every branch, and writes nothing when it fails. *)
Lemma transfer_spec c l sender p :
  holds c l → is_u64 (value p) →
  let out := transfer sender p c in
  let spec := ledger_transfer sender p l in
  out.1 = spec.1 ∧ holds out.2 spec.2 ∧
  (is_ok out.1 = false → out.2 = c) ∧
  pending out.2 = pending c ++
    match sender, spec.1 with
    | Some s, Ok _ =>
        [event "Transferred"
           {| tr_sender := s; tr_recipient := recipient p; tr_value := value p |}]
    | _, _ => []
    end.
Proof.
  intros Hl Hv. cbv zeta. unfold transfer, ledger_transfer. destruct sender as [s|]; cbn [ok_or].
  2: { unfold lift, bind. simpl. by rewrite app_nil_r. }
  rewrite bind_lift_ok. case_decide as Hne; [simpl; by rewrite app_nil_r|].
  destruct (read_balance c l s Hl) as (os & Hs & Es).
  destruct (read_balance c l (recipient p) Hl) as (or & Hr & Er).
  pose proof (holds_range c l s Hl) as Hrs. pose proof (holds_range c l (recipient p) Hl) as Hrr.
  unfold is_u64 in *. rewrite (bind_ok _ _ _ _ _ Hs), <-Es. cbv zeta.
  case_decide; [simpl; by rewrite app_nil_r|].
  rewrite (bind_ok _ _ _ _ _ Hr), <-Er. unfold overflowing_sub, overflowing_add.
  rewrite bool_decide_eq_false_2, u64_id by (unfold is_u64; lia).
  case_decide as Hov; [rewrite bool_decide_eq_true_2 by done; simpl; by rewrite app_nil_r|].
  rewrite bool_decide_eq_false_2, u64_id by (unfold is_u64; lia).
  unfold bind. rewrite !sm_set_eq, emit_eq. cbn [fst snd is_ok].
  split; [done|]. split; [|split; [done|by autorewrite with context]].
  apply holds_log, holds_put; [apply holds_put; [done|]|]; unfold is_u64; lia.
Qed.

(** The total of the balances of the accounts [accounts]. *)
Definition supply (accounts : list Address) (l : ledger) : Z := sumZ l accounts.

Lemma supply_set accounts a z l :
  NoDup accounts → a ∈ accounts →
  supply accounts (ledger_set a z l) = (supply accounts l + (z - l a))%Z.
Proof.
  intros Hnd Ha. unfold supply. rewrite (sumZ_update l (ledger_set a z l) a); [|done..|].
  - unfold ledger_set. by rewrite decide_True.
  - intros y Hy. unfold ledger_set. by rewrite decide_False.
Qed.

Lemma ledger_transfer_supply accounts l sender p :
  NoDup accounts → recipient p ∈ accounts → (∀ s, sender = Some s → s ∈ accounts) →
  supply accounts (ledger_transfer sender p l).2 = supply accounts l.
Proof.
  intros Hnd Hr Hs. unfold ledger_transfer. destruct sender as [s|]; [|done].
  case_decide as Hne; [done|]. do 2 (case_decide; [done|]). simpl.
  rewrite !supply_set by (try done; by apply Hs).
  unfold ledger_set. rewrite decide_False by done. lia.
Qed.

(** A sequence of transfers, each with its outcome. *)
Fixpoint run (ts : list (option Address * TransferParams)) (c : C) :
    list (ModuleResult unit) * C :=
  match ts with
  | [] => ([], c)
  | (sender, p) :: ts =>
      let '(r, c) := transfer sender p c in
      let '(rs, c) := run ts c in (r :: rs, c)
  end.

Fixpoint ledger_run (ts : list (option Address * TransferParams)) (l : ledger) :
    list (ModuleResult unit) * ledger :=
  match ts with
  | [] => ([], l)
  | (sender, p) :: ts =>
      let '(r, l) := ledger_transfer sender p l in
      let '(rs, l) := ledger_run ts l in (r :: rs, l)
  end.

Definition wf_transfers (ts : list (option Address * TransferParams)) : Prop :=
  Forall (λ t, is_u64 (value t.2)) ts.

Lemma run_spec ts c l :
  holds c l → wf_transfers ts →
  (run ts c).1 = (ledger_run ts l).1 ∧ holds (run ts c).2 (ledger_run ts l).2.
Proof.
  revert c l. induction ts as [|[sender p] ts IH]; intros c l Hl Hts; [done|].
  apply Forall_cons in Hts as [Hp Hts]. simpl.
  destruct (transfer_spec c l sender p Hl Hp) as (Hr & Hl' & _).
  destruct (transfer sender p c) as [r c'], (ledger_transfer sender p l) as [r' l'].
  simpl in *. subst. destruct (IH c' l' Hl' Hts) as [Hrs Hend].
  destruct (run ts c') as [rs c''], (ledger_run ts l') as [rs' l'']. simpl in *.
  by subst.
Qed.

(** The parties of a transfer. *)
Definition among (accounts : list Address) (t : option Address * TransferParams) : Prop :=
  recipient t.2 ∈ accounts ∧ ∀ s, t.1 = Some s → s ∈ accounts.

Lemma ledger_run_supply accounts ts l :
  NoDup accounts → Forall (among accounts) ts →
  supply accounts (ledger_run ts l).2 = supply accounts l.
Proof.
  intros Hnd. revert l. induction ts as [|[sender p] ts IH]; intros l Hts; [done|].
  apply Forall_cons in Hts as [[Hr Hs] Hts]. simpl in *.
  pose proof (ledger_transfer_supply accounts l sender p Hnd Hr Hs) as Hsup.
  destruct (ledger_transfer sender p l) as [r l']. simpl in *.
  rewrite <-Hsup, <-(IH l' Hts). by destruct (ledger_run ts l').
Qed.

(** C1: the module refines the ledger.  From a context that holds a ledger,
    any sequence of calls to [transfer] gives the outcomes the ledger
    specification gives, errors included, and ends in a context that holds
    the ledger the specification ends with. *)
Theorem transfers_refine_ledger c l ts :
  holds c l → wf_transfers ts →
  (run ts c).1 = (ledger_run ts l).1 ∧ holds (run ts c).2 (ledger_run ts l).2.
Proof. apply run_spec. Qed.

(** No sequence of transfers, accepted or rejected, creates or destroys
    money: the total over any set of accounts closed under the transfers is
    the same after it, and every balance is still a [u64]. *)
Theorem transfers_conserve_supply c l ts accounts :
  holds c l → wf_transfers ts → NoDup accounts → Forall (among accounts) ts →
  ∃ l', holds (run ts c).2 l' ∧ supply accounts l' = supply accounts l ∧
        ∀ a, is_u64 (l' a).
Proof.
  intros Hl Hwf Hnd Hts. exists (ledger_run ts l).2.
  destruct (run_spec ts c l Hl Hwf) as [_ Hend].
  split; [done|]. split; [by apply ledger_run_supply|].
  intros a. by apply (holds_range (run ts c).2).
Qed.

(** A transfer that fails leaves the context exactly as it was, and the
    overflow check never fires while the money of all the accounts fits a
    [u64]: then a signed transfer to another account succeeds if and only
    if the sender owns the amount. *)
Theorem transfer_succeeds_iff c l s p accounts :
  holds c l → is_u64 (value p) → NoDup accounts →
  s ∈ accounts → recipient p ∈ accounts → (supply accounts l < 2 ^ 64)%Z → s ≠ recipient p →
  ((transfer (Some s) p c).1 = Ok tt ↔ (value p ≤ l s)%Z) ∧
  ((transfer (Some s) p c).1 ≠ Ok tt → (transfer (Some s) p c).2 = c).
Proof.
  intros Hl Hv Hnd Hs Hr Hsup Hne.
  destruct (transfer_spec c l (Some s) p Hl Hv) as (Hout & _ & Hsame & _).
  split; [|intros Herr; apply Hsame; by destruct (transfer (Some s) p c) as [[[]|]]].
  rewrite Hout. simpl. rewrite decide_False by done.
  case_decide; [split; [done|lia]|].
  rewrite decide_False; [simpl; split; [lia|done]|]. intros Hov.
  assert (l s + l (recipient p) ≤ supply accounts l)%Z; [|unfold is_u64 in *; lia].
  unfold supply. apply elem_of_Permutation in Hs as [rest Hrest]. rewrite Hrest in Hr |- *.
  simpl. apply elem_of_cons in Hr as [|Hr]; [congruence|].
  apply elem_of_Permutation in Hr as [rest' ->]. simpl.
  assert (0 ≤ sumZ l rest')%Z; [|lia]. apply sumZ_nonneg. intros a _.
  by apply (holds_range c).
Qed.

(** The ledger after the endowments of a genesis block. *)
Definition endowed (es : list (Address * Balance)) (l : ledger) : ledger :=
  foldl (λ l '(a, z), ledger_set a z l) l es.

Lemma for_each_endow es c l :
  holds c l → Forall (λ e, is_u64 e.2) es →
  ∃ c', for_each (λ '(a, z), sm_set balance a z) es c = (Ok tt, c') ∧ holds c' (endowed es l).
Proof.
  revert c l. induction es as [|[a z] es IH]; intros c l Hl Hes; [by exists c|].
  apply Forall_cons in Hes as [Hz Hes]. simpl. unfold bind. rewrite sm_set_eq.
  apply IH; [|done]. by apply holds_put.
Qed.

(** [init] works in the genesis block only, where it sets every endowed
    balance, the last one of an address that is endowed twice; in any other
    block it fails and changes nothing. *)
Theorem init_endows c l sender p :
  holds c l → Forall (λ e, is_u64 e.2) (endow p) →
  if decide (number (env c) = 0%Z) then
    ∃ c', init sender p c = (Ok tt, c') ∧ holds c' (endowed (endow p) l)
  else init sender p c = (Err (user_error "Not genesis"), c).
Proof.
  intros Hl Hp. unfold init, bind, asks. case_decide.
  - rewrite decide_False by naive_solver. by apply for_each_endow.
  - by rewrite decide_True.
Qed.
End Module.

(** ** The theorems at a concrete input *)
Section Sample.
Import Samples.

(** A block in which Alice owns 100. *)
Definition sample_context : ExecContext :=
  sv_put (entry balance alice) (Some 100%Z) (empty_context 0).
Definition sample_ledger : ledger := ledger_set alice 100%Z (λ _, 0%Z).

Lemma sample_holds : holds sample_context sample_ledger.
Proof.
  apply holds_put; [|done]. intros a. exists None. split; [apply read_empty|done].
Qed.

(** Bob has nothing to send, Alice sends him 30, an unsigned call fails. *)
Definition sample_transfers : list (option Address * TransferParams) :=
  [(Some bob, {| recipient := alice; value := 1%Z |});
   (Some alice, {| recipient := bob; value := 30%Z |});
   (None, {| recipient := bob; value := 1%Z |})].

Lemma sample_transfers_wf : wf_transfers sample_transfers.
Proof. unfold wf_transfers. apply (bool_decide_unpack _). by vm_compute. Qed.

Example sample_outcomes :
  (run sample_transfers sample_context).1 =
  [Err (user_error "Insufficient balance"); Ok tt; Err (App Unsigned)].
Proof. vm_compute. reflexivity. Qed.

Lemma transfers_refine_ledger_witness :
  (run sample_transfers sample_context).1 = (ledger_run sample_transfers sample_ledger).1 ∧
  (ledger_run sample_transfers sample_ledger).2 bob = 30%Z.
Proof.
  split; [|reflexivity].
  apply (transfers_refine_ledger sample_context sample_ledger sample_transfers
           sample_holds sample_transfers_wf).
Defined.

Lemma transfers_conserve_supply_witness :
  ∃ l', holds (run sample_transfers sample_context).2 l' ∧
    supply [alice; bob] l' = 100%Z ∧ ∀ a, is_u64 (l' a).
Proof.
  apply (transfers_conserve_supply sample_context sample_ledger sample_transfers [alice; bob]
           sample_holds sample_transfers_wf).
  - apply (bool_decide_unpack _). by vm_compute.
  - repeat (apply Forall_cons; split; [split; [set_solver|]; intros s [=]; subst; set_solver|]).
    constructor.
Defined.

Lemma transfer_succeeds_iff_witness :
  ((transfer (Some alice) {| recipient := bob; value := 30%Z |} sample_context).1 = Ok tt
     ↔ (30 ≤ 100)%Z) ∧
  ((transfer (Some alice) {| recipient := bob; value := 30%Z |} sample_context).1 ≠ Ok tt →
   (transfer (Some alice) {| recipient := bob; value := 30%Z |} sample_context).2
     = sample_context).
Proof.
  apply (transfer_succeeds_iff sample_context sample_ledger alice
           {| recipient := bob; value := 30%Z |} [alice; bob] sample_holds).
  - done.
  - apply (bool_decide_unpack _). by vm_compute.
  - set_solver.
  - set_solver.
  - reflexivity.
  - done.
Defined.

Lemma init_endows_witness :
  ∃ c', init None {| endow := [(bob, 5%Z); (bob, 7%Z)] |} sample_context = (Ok tt, c') ∧
        holds c' (endowed [(bob, 5%Z); (bob, 7%Z)] sample_ledger).
Proof.
  apply (init_endows sample_context sample_ledger None
           {| endow := [(bob, 5%Z); (bob, 7%Z)] |} sample_holds).
  apply (bool_decide_unpack _). by vm_compute.
Defined.
End Sample.
End Balance.
