(* ===== verification/Voting.v ===== *)
(** * Voting

    The weighted vote by which the members of an administration replace a
    stored value.  The modules poa, raft and hotstuff repeat the same code for
    their admin and their authorities, and the module contract for the admin
    and the code of a contract; this file holds that code, parametric in the
    value voted on, and the modules instantiate it. *)
From S2P Require Import Prelude Codec Types Context.

(** [struct Admin] *)
Record Admin := {
  threshold : Z;
  members : list (Address * Z);
}.

(** [struct UpdateAdminProposal], [UpdateAuthorityProposal], ...: [content] is
    the field [admin], [authority], [authorities] or [code]. *)
Record Proposal (P : Type) : Type := {
  proposal_id : Z;
  content : P;
  vote : list Address;
}.
Arguments proposal_id {P}. Arguments content {P}. Arguments vote {P}.
Arguments Build_Proposal {P}.

#[export] Instance admin_eq_dec : EqDecision Admin.
Proof. solve_decision. Defined.
#[export] Instance proposal_eq_dec {P} `{EqDecision P} : EqDecision (Proposal P).
Proof. solve_decision. Defined.

Section Codecs.
Context {SC : Scale}.

Definition codec_admin : Codec Admin :=
  iso_codec (sc_pair sc_u32 (sc_list (sc_pair sc_bytes sc_u32)))
    (λ '(t, m), {| threshold := t; members := m |}) (λ a, (threshold a, members a))
    (λ a, match a with Build_Admin _ _ => eq_refl end) (λ '(t, m), eq_refl).

Definition codec_proposal {P} (CP : Codec P) : Codec (Proposal P) :=
  iso_codec (sc_pair sc_u32 (sc_pair CP (sc_list sc_bytes)))
    (λ '(i, (p, v)), Build_Proposal i p v) (λ p, (proposal_id p, (content p, vote p)))
    (λ p, match p with Build_Proposal _ _ _ => eq_refl end) (λ '(i, (p, v)), eq_refl).

Lemma codec_proposal_wf {P} (CP : Codec P) p :
  wf (codec_proposal CP) p ↔ is_u32 (proposal_id p) ∧ wf CP (content p).
Proof.
  simpl. rewrite !sc_pair_wf, sc_u32_wf. simpl. rewrite sc_list_wf.
  split; [by intros (? & ? & ?)|]. intros [? ?]. split_and!; try done.
  apply Forall_forall. intros. apply sc_bytes_wf.
Qed.

Lemma codec_admin_wf a :
  wf codec_admin a ↔ is_u32 (threshold a) ∧ Forall (λ m, is_u32 m.2) (members a).
Proof.
  simpl. rewrite sc_pair_wf, sc_u32_wf, sc_list_wf. simpl.
  apply and_iff_compat_l, Forall_iff. intros [x w]. rewrite sc_pair_wf, sc_u32_wf.
  split; [by intros []|]. intros; split; [apply sc_bytes_wf|done].
Qed.
End Codecs.

(** ** [fn aggregate_admin] *)

(** One step of its loop: the weight of a member that is already listed is
    added to its entry, a member of weight zero is dropped. *)
Definition add_weight (new_members : list (Address * Z)) (m : Address * Z) :
    list (Address * Z) :=
  let '(address, weight) := m in
  if decide (0 < weight)%Z then
    match list_find (λ x, x.1 = address) new_members with
    | Some (position, find) => <[position := (find.1, u32 (find.2 + weight))]> new_members
    | None => new_members ++ [(address, weight)]
    end
  else new_members.

Definition aggregate_admin (admin : Admin) : Admin :=
  {| threshold := threshold admin; members := foldl add_weight [] (members admin) |}.

(** ** The vote *)

(** What an instance of the vote is made of. *)
Record Poll (C P : Type) : Type := {
  (** The administration that votes, and the error when it is missing. *)
  admin_sv : StorageValue Admin;
  admin_not_found : string;
  (** The pending proposal and the number of the next one. *)
  proposal_sv : StorageValue (Proposal P);
  proposal_id_sv : StorageValue Z;
  (** What passing the proposal does, and the events of the three stages. *)
  enact : Proposal P → M C ModuleError unit;
  emit_created : Proposal P → M C ModuleError unit;
  emit_voted : Proposal P → M C ModuleError unit;
  emit_passed : Proposal P → M C ModuleError unit;
}.
Arguments admin_sv {C P}. Arguments admin_not_found {C P}. Arguments proposal_sv {C P}.
Arguments proposal_id_sv {C P}. Arguments enact {C P}. Arguments emit_created {C P}.
Arguments emit_voted {C P}. Arguments emit_passed {C P}.

Section Voting.
Context {C : Type} `{CL : ContextLaws C} {P : Type}.
Variable V : Poll C P.

(** [fn verify_sender] *)
Definition verify_sender (sender : Address) : M C ModuleError (Z * gmap Address Z) :=
  let! admin := sv_get (admin_sv V) in
  let! admin := lift (ok_or (user_error (admin_not_found V)) admin) in
  let members := collect (members admin) in
  if decide (is_Some (members !! sender)) then ret (threshold admin, members)
  else throw (user_error "Not admin").

(** Register the vote of [sender], once. *)
Definition add_vote (sender : Address) (proposal : Proposal P) : Proposal P :=
  if decide (sender ∈ vote proposal) then proposal
  else Build_Proposal (proposal_id proposal) (content proposal) (vote proposal ++ [sender]).

(** The weight of the votes, summed in [u32]. *)
Definition tally (old_members : gmap Address Z) (proposal : Proposal P) : Z :=
  fold_u32 (λ v, default 0%Z (old_members !! v)) (vote proposal).

(** [fn update_admin_vote_and_pass] and its siblings *)
Definition vote_and_pass (sender : Address) (proposal : Proposal P) (old_threshold : Z)
    (old_members : gmap Address Z) : M C ModuleError unit :=
  let proposal := add_vote sender proposal in
  do! emit_voted V proposal in
  let sum := tally old_members proposal in
  let pass := bool_decide (old_threshold ≤ sum)%Z in
  do! (if pass then do! enact V proposal in emit_passed V proposal else ret tt) in
  do! (if pass then sv_delete (proposal_sv V) else sv_set (proposal_sv V) proposal) in
  sv_set (proposal_id_sv V) (u32 (proposal_id proposal + 1)).

(** [fn update_admin], [update_authority], ...: create a proposal and vote for it. *)
Definition propose (sender : option Address) (new_content : P) : M C ModuleError unit :=
  let! sender := lift (ok_or (App Unsigned) sender) in
  let! (old_threshold, old_members) := verify_sender sender in
  let! id := sv_get (proposal_id_sv V) in
  let id := default 1%Z id in
  let proposal := Build_Proposal id new_content [] in
  do! emit_created V proposal in
  vote_and_pass sender proposal old_threshold old_members.

(** [fn update_admin_vote], [update_authority_vote], ...: vote for the pending proposal. *)
Definition vote_for (sender : option Address) (id : Z) : M C ModuleError unit :=
  let! sender := lift (ok_or (App Unsigned) sender) in
  let! proposal := sv_get (proposal_sv V) in
  let! proposal := lift (ok_or (user_error "Proposal not found") proposal) in
  if decide (proposal_id proposal ≠ id) then throw (user_error "Proposal id not match")
  else
    let! (old_threshold, old_members) := verify_sender sender in
    vote_and_pass sender proposal old_threshold old_members.
End Voting.

(** ** Aggregation is the sum of the weights *)

(** The total weight a member list gives to an address. *)
Definition weight_of (ms : list (Address * Z)) (a : Address) : Z :=
  sumZ (λ m, if decide (m.1 = a) then m.2 else 0%Z) ms.

Lemma weight_of_snoc ms x w a :
  weight_of (ms ++ [(x, w)]) a = (weight_of ms a + if decide (x = a) then w else 0)%Z.
Proof. unfold weight_of. rewrite sumZ_app. simpl. lia. Qed.

Lemma weight_of_nonneg ms a : Forall (λ m, is_u32 m.2) ms → (0 ≤ weight_of ms a)%Z.
Proof.
  rewrite Forall_forall. intros Hms. apply sumZ_nonneg. intros m Hm.
  case_decide; [|lia]. by apply Hms.
Qed.

(** [ns] lists each address of positive weight in [ms] once, with its weight. *)
Definition aggregates (ns ms : list (Address * Z)) : Prop :=
  NoDup ns.*1 ∧ ∀ a w, (a, w) ∈ ns ↔ w = weight_of ms a ∧ (0 < w)%Z.

Lemma aggregates_weight ns ms a :
  aggregates ns ms → a ∈ ns.*1 ↔ (0 < weight_of ms a)%Z.
Proof.
  intros [_ Hns]. rewrite list_elem_of_fmap. split.
  - intros ([a' w] & -> & Hin). apply Hns in Hin as [-> ?]. done.
  - intros Hw. exists (a, weight_of ms a). split; [done|]. by apply Hns.
Qed.

Lemma fst_insert (l : list (Address * Z)) i a w w' :
  l !! i = Some (a, w) → (<[i := (a, w')]> l).*1 = l.*1.
Proof.
  intros Hi. rewrite list_fmap_insert. apply list_insert_id.
  by rewrite list_lookup_fmap, Hi.
Qed.

Lemma NoDup_fst_inj (l : list (Address * Z)) i j a w w' :
  NoDup l.*1 → l !! i = Some (a, w) → l !! j = Some (a, w') → i = j.
Proof.
  intros Hnd Hi Hj. apply (NoDup_lookup l.*1 i j a Hnd); by rewrite list_lookup_fmap, ?Hi, ?Hj.
Qed.

Lemma elem_of_insert_weight (l : list (Address * Z)) i a w w' x y :
  NoDup l.*1 → l !! i = Some (a, w) →
  (x, y) ∈ <[i := (a, w')]> l ↔ (if decide (x = a) then y = w' else (x, y) ∈ l).
Proof.
  intros Hnd Hi. pose proof (lookup_lt_Some _ _ _ Hi) as Hlt.
  rewrite list_elem_of_lookup. split.
  - intros [j Hj]. destruct (decide (i = j)) as [->|Hij].
    + rewrite list_lookup_insert_eq in Hj by done. simplify_eq. by rewrite decide_True.
    + rewrite list_lookup_insert_ne in Hj by done.
      case_decide; [|apply list_elem_of_lookup; by exists j]. subst. destruct Hij. by eapply NoDup_fst_inj.
  - case_decide as Hx.
    + intros ->. subst. exists i. by apply list_lookup_insert_eq.
    + intros [j Hj]%list_elem_of_lookup. exists j.
      rewrite list_lookup_insert_ne; [done|]. intros ->. congruence.
Qed.

Lemma add_weight_aggregates ns ms a w :
  Forall (λ m, is_u32 m.2) ms → is_u32 w → (weight_of (ms ++ [(a, w)]) a < 2 ^ 32)%Z →
  aggregates ns ms → aggregates (add_weight ns (a, w)) (ms ++ [(a, w)]).
Proof.
  intros Hms Hw Hlt Hag. pose proof (weight_of_nonneg ms a Hms) as Hpos.
  unfold add_weight. case_decide as Hw0.
  2: { assert (w = 0%Z) as -> by (unfold is_u32 in *; lia). destruct Hag as [Hnd Hns].
       split; [done|]. intros x y. rewrite Hns, weight_of_snoc. case_decide; by rewrite Z.add_0_r. }
  rewrite weight_of_snoc, decide_True in Hlt by done. destruct Hag as [Hnd Hns].
  destruct (list_find _ ns) as [[i [a' w']]|] eqn:Hf.
  - apply list_find_Some in Hf as (Hi & Ha & _). simpl in *. subst a'.
    assert (w' = weight_of ms a) as -> by (eapply proj1, Hns, list_elem_of_lookup; by exists i).
    rewrite u32_id by (unfold is_u32; lia). split; [by rewrite (fst_insert _ _ _ _ _ Hi)|].
    intros x y. rewrite (elem_of_insert_weight _ _ _ _ _ _ _ Hnd Hi), weight_of_snoc.
    destruct (decide (x = a)) as [->|Hx].
    + rewrite decide_True by done. split; [intros ->; lia|lia].
    + rewrite decide_False, Z.add_0_r by done. apply Hns.
  - rewrite list_find_None, Forall_forall in Hf.
    assert (weight_of ms a = 0%Z) as Hzero.
    { destruct (decide (0 < weight_of ms a)%Z) as [Hp|]; [|lia].
      destruct (Hf (a, weight_of ms a)); [by apply Hns|done]. }
    split.
    + rewrite fmap_app, NoDup_app. split_and!; [done| |apply NoDup_singleton].
      intros x Hx Hx'. apply list_elem_of_singleton in Hx' as ->.
      pose proof (proj1 (aggregates_weight ns ms a (conj Hnd Hns)) Hx). lia.
    + intros x y. rewrite elem_of_app, list_elem_of_singleton, Hns, weight_of_snoc.
      case_decide as Hx; [subst; rewrite Hzero|rewrite Z.add_0_r].
      * split; [intros [|[= ->]]; lia|]. intros [-> _]. right. f_equal; lia.
      * split; [intros [|[= -> ->]]; done|by left].
Qed.

Lemma aggregate_admin_spec a :
  Forall (λ m, is_u32 m.2) (members a) → (∀ x, weight_of (members a) x < 2 ^ 32)%Z →
  aggregates (members (aggregate_admin a)) (members a).
Proof.
  simpl. generalize (members a). intros ms. induction ms as [|[x w] ms IH] using rev_ind.
  { intros _ _. split; [constructor|]. intros x w. unfold weight_of. simpl.
    split; [by intros ?%not_elem_of_nil|lia]. }
  intros Hms Hlt. apply Forall_app in Hms as [Hms Hw]. apply Forall_cons in Hw as [Hw _].
  simpl in Hw. rewrite foldl_app. apply add_weight_aggregates; [exact Hms|exact Hw|apply Hlt|].
  apply IH; [exact Hms|].
  intros y. specialize (Hlt y). rewrite weight_of_snoc in Hlt. unfold is_u32 in Hw. simpl in Hw.
  case_decide; lia.
Qed.

Lemma aggregate_admin_wf {SC : Scale} a : wf codec_admin a → wf codec_admin (aggregate_admin a).
Proof.
  rewrite !codec_admin_wf. intros [Ht Hm]. split; [done|]. simpl.
  assert (∀ ns, Forall (λ m, is_u32 m.2) ns →
                Forall (λ m, is_u32 m.2) (foldl add_weight ns (members a))) as Hfold; [|by apply Hfold].
  induction Hm as [|[x w] ms Hw Hms IH]; intros ns Hns; [done|]. simpl. apply IH.
  case_decide; [|done]. destruct (list_find _ ns) as [[i m]|].
  - apply Forall_insert; [done|]. apply u32_range.
  - apply Forall_app. split; [done|]. by apply Forall_singleton.
Qed.

(** The voting weights of the aggregated administration, as the map of
    [verify_sender], are the sums of the weights of the proposed one. *)
Lemma aggregates_collect ns ms x :
  aggregates ns ms →
  collect ns !! x = if decide (0 < weight_of ms x)%Z then Some (weight_of ms x) else None.
Proof.
  intros Hag. pose proof Hag as [Hnd Hns]. case_decide as Hp.
  - apply collect_NoDup; [done|]. by apply Hns.
  - destruct (collect ns !! x) eqn:E; [|done]. destruct Hp.
    by apply collect_Some_elem, Hns in E as [-> ?].
Qed.

(** ** What a vote does *)

(** What an instance owes to the theorems: its effects always succeed, its
    places are different, and the values that can be stored are those of
    the Rust types. *)
Class PollLaws {C} `{ContextLaws C} {P} (V : Poll C P) : Type := {
  enacted : Proposal P → C → C;
  created : Proposal P → Event;
  voted : Proposal P → Event;
  passed : Proposal P → Event;
  enact_eq p c : enact V p c = (Ok tt, enacted p c);
  created_eq p c : emit_created V p c = (Ok tt, log (created p) c);
  voted_eq p c : emit_voted V p c = (Ok tt, log (voted p) c);
  passed_eq p c : emit_passed V p c = (Ok tt, log (passed p) c);
  id_apart : apart (proposal_sv V) (proposal_id_sv V);
  id_wf z : wf (sv_codec (proposal_id_sv V)) z ↔ is_u32 z;
  admin_wf a : wf (sv_codec (admin_sv V)) a → Forall (λ m, is_u32 m.2) (members a);
  content_wf : P → Prop;
  proposal_wf p : wf (sv_codec (proposal_sv V)) p ↔ is_u32 (proposal_id p) ∧ content_wf (content p);
}.

Section VotingLaws.
Context {C : Type} `{CL : ContextLaws C} {P : Type} (V : Poll C P) {laws : PollLaws V}.

(** The check of the sender, as a function of the context. *)
Definition electorate (sender : Address) (c : C) : ModuleResult (Z * gmap Address Z) :=
  let? admin := sv_read (admin_sv V) c in
  let? admin := ok_or (user_error (admin_not_found V)) admin in
  let members := collect (members admin) in
  if decide (is_Some (members !! sender)) then Ok (threshold admin, members)
  else Err (user_error "Not admin").

Lemma verify_sender_eq sender c : verify_sender V sender c = (electorate sender c, c).
Proof.
  unfold verify_sender, electorate, bind. rewrite sv_get_eq.
  destruct (sv_read (admin_sv V) c) as [[a|]|e]; simpl; [|done|done]. by case_decide.
Qed.

(** The proposal [p] has the votes to pass. *)
Definition carried (thr : Z) (mem : gmap Address Z) (p : Proposal P) : Prop :=
  (thr ≤ tally mem p)%Z.
#[global] Instance carried_dec thr mem p : Decision (carried thr mem p) :=
  decide (thr ≤ tally mem p)%Z.

(** The context after [sender] has voted for [p]. *)
Definition after_vote (sender : Address) (p : Proposal P) (thr : Z) (mem : gmap Address Z)
    (c : C) : C :=
  let p := add_vote sender p in
  let c := log (voted p) c in
  sv_put (proposal_id_sv V) (Some (u32 (proposal_id p + 1)))
    (if decide (carried thr mem p)
     then sv_put (proposal_sv V) None (log (passed p) (enacted p c))
     else sv_put (proposal_sv V) (Some p) c).

Lemma vote_and_pass_eq sender p thr mem c :
  vote_and_pass V sender p thr mem c = (Ok tt, after_vote sender p thr mem c).
Proof.
  unfold vote_and_pass, after_vote, bind. cbv zeta.
  rewrite voted_eq. destruct (decide (carried _ _ _)) as [Hc|Hc]; unfold carried in Hc.
  - rewrite bool_decide_eq_true_2, enact_eq, passed_eq, sv_delete_eq by done. apply sv_set_eq.
  - rewrite bool_decide_eq_false_2 by done. cbn. rewrite sv_set_eq. apply sv_set_eq.
Qed.

(** The number the next proposal gets, and the proposal that is open. *)
Definition next_id (c : C) : ModuleResult Z :=
  let? id := sv_read (proposal_id_sv V) c in Ok (default 1%Z id).
Definition open (c : C) : ModuleResult (option (Proposal P)) := sv_read (proposal_sv V) c.

Lemma next_id_u32 c id : next_id c = Ok id → is_u32 id.
Proof.
  unfold next_id. destruct (sv_read _ c) as [[z|]|] eqn:Hr; intros [= <-]; [|done].
  by apply id_wf, (sv_read_wf _ c).
Qed.

(** The outcome of a proposal: who may vote, and the ballot that is cast. *)
Definition proposing (sender : option Address) (x : P) (c : C) :
    ModuleResult (Address * Proposal P * (Z * gmap Address Z)) :=
  let? s := ok_or (App Unsigned) sender in
  let? e := electorate s c in
  let? id := next_id c in
  Ok (s, Build_Proposal id x [], e).

(** The outcome of a vote for the proposal number [i]. *)
Definition voting (sender : option Address) (i : Z) (c : C) :
    ModuleResult (Address * Proposal P * (Z * gmap Address Z)) :=
  let? s := ok_or (App Unsigned) sender in
  let? p := open c in
  let? p := ok_or (user_error "Proposal not found") p in
  if decide (proposal_id p ≠ i) then Err (user_error "Proposal id not match")
  else let? e := electorate s c in Ok (s, p, e).

Lemma propose_eq sender x c :
  propose V sender x c =
  match proposing sender x c with
  | Ok (s, p, (thr, mem)) => (Ok tt, after_vote s p thr mem (log (created p) c))
  | Err e => (Err e, c)
  end.
Proof.
  unfold propose, proposing. destruct sender as [s|]; [|done]. cbn [ok_or].
  rewrite bind_lift_ok. unfold bind at 1. rewrite verify_sender_eq.
  cbn [result_bind]. destruct (electorate s c) as [[thr mem]|e]; [|done]. simpl.
  unfold bind at 1. rewrite sv_get_eq. unfold next_id.
  destruct (sv_read _ c) as [o|e]; [|done]. simpl.
  unfold bind. by rewrite created_eq, vote_and_pass_eq.
Qed.

Lemma vote_for_eq sender i c :
  vote_for V sender i c =
  match voting sender i c with
  | Ok (s, p, (thr, mem)) => (Ok tt, after_vote s p thr mem c)
  | Err e => (Err e, c)
  end.
Proof.
  unfold vote_for, voting. destruct sender as [s|]; [|done]. cbn [ok_or].
  rewrite bind_lift_ok. unfold bind at 1. rewrite sv_get_eq. fold (open c).
  cbn [result_bind]. destruct (open c) as [[p|]|e]; simpl; [|done|done]. rewrite bind_lift_ok.
  case_decide; [done|]. unfold bind. rewrite verify_sender_eq.
  destruct (electorate s c) as [[thr mem]|e]; [|done]. apply vote_and_pass_eq.
Qed.

Lemma add_vote_id s (p : Proposal P) : proposal_id (add_vote s p) = proposal_id p.
Proof. unfold add_vote. by case_decide. Qed.
Lemma add_vote_content s (p : Proposal P) : content (add_vote s p) = content p.
Proof. unfold add_vote. by case_decide. Qed.

(** What a vote leaves open: nothing when it carries the proposal. *)
Lemma open_after_vote s p thr mem c :
  wf (sv_codec (proposal_sv V)) p →
  open (after_vote s p thr mem c) =
  Ok (if decide (carried thr mem (add_vote s p)) then None else Some (add_vote s p)).
Proof.
  intros Hp. unfold open, after_vote. rewrite sv_read_put_ne by apply id_apart.
  case_decide; [apply sv_read_put_None|]. apply sv_read_put_eq.
  apply proposal_wf in Hp. apply proposal_wf. by rewrite add_vote_id, add_vote_content.
Qed.

Lemma next_id_after_vote s p thr mem c :
  next_id (after_vote s p thr mem c) = Ok (u32 (proposal_id p + 1)).
Proof.
  unfold next_id, after_vote. rewrite add_vote_id, sv_read_put_eq; [done|].
  apply id_wf, u32_range.
Qed.

(** A part [obs] of the context that the bookkeeping of the vote does not
    touch changes only when the vote carries the proposal. *)
Definition unseen {O} (obs : C → O) : Prop :=
  (∀ x c, obs (sv_put (proposal_sv V) x c) = obs c) ∧
  (∀ x c, obs (sv_put (proposal_id_sv V) x c) = obs c) ∧
  (∀ e c, obs (log e c) = obs c).

Lemma obs_after_vote {O} (obs : C → O) s p thr mem c :
  unseen obs →
  obs (after_vote s p thr mem c) =
    if decide (carried thr mem (add_vote s p))
    then obs (enacted (add_vote s p) (log (voted (add_vote s p)) c)) else obs c.
Proof.
  intros (Hp & Hi & Hl). unfold after_vote. rewrite Hi. case_decide; by rewrite Hp, ?Hl.
Qed.
End VotingLaws.

(** ** Ballots: what the members have signed *)

Record ballot (P : Type) := Ballot { bl_signer : Address; bl_id : Z; bl_content : P }.
Arguments Ballot {P}. Arguments bl_signer {P}. Arguments bl_id {P}. Arguments bl_content {P}.

Section Ballots.
Context {C : Type} `{CL : ContextLaws C} {P : Type} (V : Poll C P) {laws : PollLaws V}.

(** The ballot a call casts, none when it fails. *)
Definition ballot_of
    (o : ModuleResult (Address * Proposal P * (Z * gmap Address Z))) : list (ballot P) :=
  match o with
  | Ok (s, p, _) => [Ballot s (proposal_id p) (content p)]
  | Err _ => []
  end.

(** The votes of [p] are those of different members that have signed it. *)
Definition signed (tr : list (ballot P)) (p : Proposal P) : Prop :=
  NoDup (vote p) ∧ ∀ v, v ∈ vote p → Ballot v (proposal_id p) (content p) ∈ tr.

(** The proposal that is open is readable and signed. *)
Definition ballots_ok (tr : list (ballot P)) (c : C) : Prop :=
  ∃ o, open V c = Ok o ∧ ∀ p, o = Some p → signed tr p.

Lemma signed_app tr tr' p : signed tr p → signed (tr ++ tr') p.
Proof. intros [? Hin]. split; [done|]. intros v Hv. apply elem_of_app. left. by apply Hin. Qed.

Lemma signed_add_vote tr s p :
  signed tr p → signed (tr ++ [Ballot s (proposal_id p) (content p)]) (add_vote s p).
Proof.
  intros Hp. unfold add_vote. case_decide as Hs; [by apply signed_app|].
  destruct Hp as [Hnd Hin]. split; simpl.
  - apply NoDup_app. split_and!; [done| |apply NoDup_singleton].
    by intros v Hv ->%list_elem_of_singleton.
  - intros v [Hv| ->%list_elem_of_singleton]%elem_of_app; apply elem_of_app; [left|right].
    + by apply Hin.
    + by left.
Qed.

Lemma ballots_after_vote tr s p thr mem c :
  wf (sv_codec (proposal_sv V)) p → signed tr p →
  ballots_ok (tr ++ [Ballot s (proposal_id p) (content p)]) (after_vote V s p thr mem c).
Proof.
  intros Hwf Hp. eexists. split; [by apply open_after_vote|].
  intros q. case_decide; [done|]. intros [= <-]. by apply signed_add_vote.
Qed.

Lemma ballots_same tr c c' : open V c' = open V c → ballots_ok tr c → ballots_ok tr c'.
Proof. intros Ho (o & Hop & Hs). exists o. by rewrite Ho. Qed.

(** What a call that reaches [after_vote] starts from. *)
Lemma proposing_inv sender x c s p thr mem :
  content_wf (V := V) x → proposing V sender x c = Ok (s, p, (thr, mem)) →
  sender = Some s ∧ content p = x ∧ vote p = [] ∧ wf (sv_codec (proposal_sv V)) p ∧
  electorate V s c = Ok (thr, mem).
Proof.
  intros Hx. unfold proposing. destruct sender as [s'|]; [|done]. simpl.
  destruct (electorate V s' c) as [[]|] eqn:He; [|done]. simpl.
  destruct (next_id V c) eqn:Hid; [|done]. intros [= <- <- <- <-]. split_and!; try done.
  apply proposal_wf. split; [by eapply next_id_u32|done].
Qed.

Lemma voting_inv sender i c s p thr mem :
  voting V sender i c = Ok (s, p, (thr, mem)) →
  sender = Some s ∧ open V c = Ok (Some p) ∧ proposal_id p = i ∧
  wf (sv_codec (proposal_sv V)) p ∧ electorate V s c = Ok (thr, mem).
Proof.
  unfold voting. destruct sender as [s'|]; [|done]. simpl.
  destruct (open V c) as [[q|]|] eqn:Ho; simpl; [|done|done]. case_decide as Hi; [done|].
  destruct (electorate V s' c) as [[]|] eqn:He; [|done].
  intros [= <- <- <- <-]. split_and!; try done. by eapply (sv_read_wf _ c).
Qed.

Lemma ballots_propose tr sender x c :
  ballots_ok tr c → content_wf (V := V) x →
  ballots_ok (tr ++ ballot_of (proposing V sender x c)) (propose V sender x c).2.
Proof.
  intros Hok Hx. rewrite (propose_eq V).
  destruct (proposing V sender x c) as [[[s p] [thr mem]]|e] eqn:Hp; simpl.
  - apply proposing_inv in Hp as (_ & _ & Hv & Hwf & _); [|done].
    apply ballots_after_vote; [done|].
    split; rewrite Hv; [constructor|]. by intros v ?%not_elem_of_nil.
  - by rewrite app_nil_r.
Qed.

Lemma ballots_vote tr sender i c :
  ballots_ok tr c → ballots_ok (tr ++ ballot_of (voting V sender i c)) (vote_for V sender i c).2.
Proof.
  intros Hok. rewrite (vote_for_eq V).
  destruct (voting V sender i c) as [[[s p] [thr mem]]|e] eqn:Hp; simpl.
  - apply voting_inv in Hp as (_ & Ho & _ & Hwf & _). apply ballots_after_vote; [done|].
    destruct Hok as (o & Ho' & Hs). apply Hs. congruence.
  - by rewrite app_nil_r.
Qed.

(** A quorum of the administration of [c] has signed [x]: different
    members, whose weights reach the threshold. *)
Definition quorum (tr : list (ballot P)) (x : P) (c : C) : Prop :=
  ∃ s thr mem id voters,
    electorate V s c = Ok (thr, mem) ∧ s ∈ voters ∧ NoDup voters ∧
    (∀ v, v ∈ voters → Ballot v id x ∈ tr) ∧
    (thr ≤ sumZ (λ v, default 0%Z (mem !! v)) voters)%Z.

Lemma electorate_weights s c thr mem v :
  electorate V s c = Ok (thr, mem) → (0 ≤ default 0 (mem !! v))%Z.
Proof.
  unfold electorate. destruct (sv_read (admin_sv V) c) as [[a|]|] eqn:Ha; simpl; try done.
  case_decide; [|done]. intros [= <- <-].
  destruct (collect (members a) !! v) as [w|] eqn:Hv; simpl; [|done].
  apply collect_Some_elem in Hv. apply sv_read_wf, admin_wf in Ha.
  rewrite Forall_forall in Ha. by apply (Ha _ Hv).
Qed.

(** The [u32] tally never exceeds the sum of the weights. *)
Lemma tally_le s c thr mem (p : Proposal P) :
  electorate V s c = Ok (thr, mem) →
  (tally mem p ≤ sumZ (λ v, default 0%Z (mem !! v)) (vote p))%Z.
Proof.
  intros He. unfold tally. rewrite fold_u32_mod. apply Z.mod_le; [|done].
  apply sumZ_nonneg. intros v _. by eapply electorate_weights.
Qed.

Lemma carried_quorum tr s p thr mem c c0 :
  electorate V s c = Ok (thr, mem) → electorate V s c0 = electorate V s c →
  signed tr p → carried thr mem (add_vote s p) →
  quorum (tr ++ [Ballot s (proposal_id p) (content p)]) (content p) c0.
Proof.
  intros He Hc0 Hs Hcar. apply (signed_add_vote tr s) in Hs as [Hnd Hin].
  exists s, thr, mem, (proposal_id p), (vote (add_vote s p)). split_and!; try done.
  - by rewrite Hc0.
  - unfold add_vote. case_decide; [done|]. simpl. set_solver.
  - intros v Hv. specialize (Hin v Hv). by rewrite add_vote_id, add_vote_content in Hin.
  - etrans; [exact Hcar|]. by eapply tally_le.
Qed.

(** An observation of the context changes only with a quorum for the new
    content, and then as the proposal says. *)
Lemma propose_changes {O} (obs : C → O) tr sender x c :
  unseen V obs → content_wf (V := V) x →
  obs (propose V sender x c).2 = obs c ∨
  quorum (tr ++ ballot_of (proposing V sender x c)) x c ∧
  ∃ p c0, content p = x ∧ obs c0 = obs c ∧ obs (propose V sender x c).2 = obs (enacted p c0).
Proof.
  intros Hobs Hx. rewrite (propose_eq V).
  destruct (proposing V sender x c) as [[[s p] [thr mem]]|e] eqn:Hp; simpl; [|by left].
  apply proposing_inv in Hp as (_ & <- & Hv & Hwf & He); [|done].
  rewrite obs_after_vote by done. case_decide as Hcar; [right|left; by apply Hobs].
  split.
  - apply (carried_quorum tr s p thr mem c); [done..| |done].
    split; rewrite Hv; [constructor|]. by intros v ?%not_elem_of_nil.
  - eexists _, _. split; [apply add_vote_content|]. split; [|done].
    by rewrite !(proj2 (proj2 Hobs)).
Qed.

Lemma vote_changes {O} (obs : C → O) tr sender i c :
  unseen V obs → ballots_ok tr c →
  obs (vote_for V sender i c).2 = obs c ∨
  ∃ x, content_wf (V := V) x ∧ quorum (tr ++ ballot_of (voting V sender i c)) x c ∧
  ∃ p c0, content p = x ∧ obs c0 = obs c ∧ obs (vote_for V sender i c).2 = obs (enacted p c0).
Proof.
  intros Hobs (o & Hop & Hsig). rewrite (vote_for_eq V).
  destruct (voting V sender i c) as [[[s p] [thr mem]]|e] eqn:Hp; simpl; [|by left].
  apply voting_inv in Hp as (_ & Ho & _ & Hwf & He).
  rewrite obs_after_vote by done. case_decide as Hcar; [right|by left].
  exists (content p). split_and!; [by apply proposal_wf in Hwf as []| |].
  - apply (carried_quorum tr s p thr mem c); [done..| |done]. apply Hsig. congruence.
  - eexists _, _. split; [apply add_vote_content|]. split; [|done]. by apply Hobs.
Qed.
End Ballots.
