(* ===== verification/Vm.v ===== *)
(** * Vm

    [core/node/vm/src/lib.rs], [import.rs] and [errors.rs], with the errors of
    [contract-sdk-primitives]: how a contract is run, and the functions that it
    may call.  The WebAssembly engine is a library: a contract's function is
    the tree of its calls of imports ([Prog]), each with the memory at that
    moment and a continuation for the result and the memory after it. *)
From Stdlib Require Import Strings.Byte.
From S2P Require Import Prelude Types Context.

Module Vm.

(** ** Errors *)

(** [enum ContractError] *)
Inductive ContractError :=
| CUnsigned | CSerialize | CDeserialize | InvalidMethod | InvalidParams | CInvalidAddress | BadUTF8
| ShareIllegalAccess | ShareValueLenExceeded | ShareSizeExceeded | NotPayable | ContractAddressNotFound
| NestedContractNotFound | NestDepthExceeded
| CTransfer (msg : string)
| CPanic (msg : string)
| CUser (msg : string).

(** [impl Display for ContractError] *)
Definition contract_error_text (e : ContractError) : string :=
  match e with
  | CUnsigned => "Unsigned" | CSerialize => "Serialize" | CDeserialize => "Deserialize"
  | InvalidMethod => "InvalidMethod" | InvalidParams => "InvalidParams" | CInvalidAddress => "InvalidAddress"
  | BadUTF8 => "BadUTF8" | ShareIllegalAccess => "ShareIllegalAccess"
  | ShareSizeExceeded => "ShareSizeExceeded" | ShareValueLenExceeded => "ShareValueLenExceeded"
  | NotPayable => "NotPayable" | ContractAddressNotFound => "ContractAddressNotFound"
  | NestedContractNotFound => "NestedContractNotFound" | NestDepthExceeded => "NestDepthExceeded"
  | CTransfer msg => "Transfer: " +:+ msg
  | CPanic msg => "Panic: " +:+ msg
  | CUser msg => msg
  end.

(** The errors without a message, by their names. *)
Definition plain_errors : list ContractError :=
  [CUnsigned; CSerialize; CDeserialize; InvalidMethod; InvalidParams; CInvalidAddress; BadUTF8;
   ShareIllegalAccess; ShareSizeExceeded; ShareValueLenExceeded; NotPayable; ContractAddressNotFound;
   NestedContractNotFound; NestDepthExceeded].

(** [impl From<&str> for ContractError] *)
Definition contract_error_from (v : string) : ContractError :=
  match list_find (λ e, contract_error_text e = v) plain_errors with
  | Some (_, e) => e
  | None =>
      match String.index 0 ": " v with
      | Some p =>
          let prefix := String.substring 0 p v in
          let suffix := String.substring (p + 1) (String.length v - (p + 1)) v in
          if decide (prefix = "Panic") then CPanic suffix
          else if decide (prefix = "Transfer") then CTransfer suffix
          else CUser v
      | None => CUser v
      end
  end.

Inductive PreCompileError :=
| PcValidationError (msg : string)
| PcSerialize | PcDeserialize | InternalMemoryDeclared | StackHeightMetering | Imports.
Inductive CompileError := CeValidationError (msg : string).
Inductive ResolveError :=
| Signature (msg : string)
| ExportNotFound (name : string)
| ExportWrongType (name : string).
Inductive InvokeError := FailedWithNoError | Breakpoint.
Inductive RuntimeError := REInvokeError (e : InvokeError).

(** [enum ApplicationError] of the machine *)
Inductive VMApplicationError :=
| APreCompileError (e : PreCompileError)
| ACompileError (e : CompileError)
| ALinkError (msg : string)
| AResolveError (e : ResolveError)
| ARuntimeError (e : RuntimeError)
| AContractError (e : ContractError).

Inductive VMError :=
| VSystem (e : CommonError)
| VApplication (e : VMApplicationError).

(** [impl From<ContractError> for VMError] *)
Definition contract_error (e : ContractError) : VMError := VApplication (AContractError e).

(** [ErrorKind::Wasm]; the kinds of a common error that no code takes apart
    are [EOther]. *)
Definition wasm_error (msg : string) : VMError := VSystem (EOther ("Wasm error: " +:+ msg)).

(** The errors of the engine as the conversions tell them apart; [text] is
    what the engine displays. *)
Inductive WasmerInvokeError :=
| WFailedWithNoError | WBreakpoint
| WOtherInvoke (text : string).
Inductive WasmerRuntimeError :=
| WInvokeError (e : WasmerInvokeError)
| WUser (e : VMError)
| WUserOther (text : string)
| WOtherRuntime (text : string).
Inductive WasmerCompileError :=
| WInternalError (text : string)
| WValidationError (msg : string).
Inductive WasmerResolveError :=
| WSignature (text : string)
| WExportNotFound (name : string)
| WExportWrongType (name : string).
Inductive WasmerCallError :=
| WRuntime (e : WasmerRuntimeError)
| WResolve (e : WasmerResolveError).
Inductive WasmerError :=
| WCompileError (e : WasmerCompileError)
| WLinkError (text : string)
| WRuntimeError (e : WasmerRuntimeError)
| WResolveError (e : WasmerResolveError)
| WCallError (e : WasmerCallError)
| WCreationError (text : string).

(** [impl From<..> for VMError] *)
Definition from_compile_error (e : WasmerCompileError) : VMError :=
  match e with
  | WInternalError text => wasm_error text
  | WValidationError msg => VApplication (ACompileError (CeValidationError msg))
  end.
Definition from_runtime_error (e : WasmerRuntimeError) : VMError :=
  match e with
  | WInvokeError WFailedWithNoError => VApplication (ARuntimeError (REInvokeError FailedWithNoError))
  | WInvokeError WBreakpoint => VApplication (ARuntimeError (REInvokeError Breakpoint))
  | WInvokeError (WOtherInvoke text) => wasm_error text
  | WUser err => err
  | WUserOther text => wasm_error text
  | WOtherRuntime text => wasm_error text
  end.
Definition from_resolve_error (e : WasmerResolveError) : VMError :=
  VApplication (AResolveError match e with
    | WSignature text => Signature text
    | WExportNotFound name => ExportNotFound name
    | WExportWrongType name => ExportWrongType name
    end).
Definition from_call_error (e : WasmerCallError) : VMError :=
  match e with
  | WRuntime e => from_runtime_error e
  | WResolve e => from_resolve_error e
  end.
Definition from_wasmer_error (e : WasmerError) : VMError :=
  match e with
  | WCompileError e => from_compile_error e
  | WLinkError text => VApplication (ALinkError text)
  | WRuntimeError e => from_runtime_error e
  | WResolveError e => from_resolve_error e
  | WCallError e => from_call_error e
  | WCreationError text => wasm_error text
  end.

(** The derived [Display]s. *)
Definition pre_compile_text (e : PreCompileError) : string :=
  match e with
  | PcValidationError msg => "ValidationError: " +:+ msg
  | PcSerialize => "Serialize" | PcDeserialize => "Deserialize"
  | InternalMemoryDeclared => "InternalMemoryDeclared"
  | StackHeightMetering => "StackHeightMetering" | Imports => "Imports"
  end.
Definition resolve_text (e : ResolveError) : string :=
  match e with
  | Signature msg => "Signature: " +:+ msg
  | ExportNotFound name => "ExportNotFound: " +:+ name
  | ExportWrongType name => "ExportWrongType: " +:+ name
  end.
Definition invoke_text (e : InvokeError) : string :=
  match e with FailedWithNoError => "FailedWithNoError" | Breakpoint => "Breakpoint" end.
Definition vm_error_text (e : VMApplicationError) : string :=
  match e with
  | APreCompileError e => "PreCompileError: " +:+ pre_compile_text e
  | ACompileError (CeValidationError msg) => "CompileError: " +:+ "ValidationError: " +:+ msg
  | ALinkError msg => "LinkError: " +:+ msg
  | AResolveError e => "ResolveError: " +:+ resolve_text e
  | ARuntimeError (REInvokeError e) => "RuntimeError: " +:+ "InvokeError: " +:+ invoke_text e
  | AContractError e => "ContractError: " +:+ contract_error_text e
  end.

(** ** Configuration *)

Record VMConfig := {
  max_stack_height : Z;
  initial_memory_pages : Z;
  max_memory_pages : Z;
  max_share_value_len : Z;
  max_share_size : Z;
  max_nest_depth : Z;
}.

(** [impl Default for VMConfig] *)
Definition default_config : VMConfig := {|
  max_stack_height := 16 * 1024;
  initial_memory_pages := 2 ^ 10;
  max_memory_pages := 2 ^ 11;
  max_share_value_len := 2 ^ 20 * 100;
  max_share_size := 1024;
  max_nest_depth := 8;
|}.

Inductive Mode := ModeInit | ModeCall.

Record VMContractEnv := {
  contract_address : option Address;
  sender_address : option Address;
}.

(** ** The imports *)
Inductive Import :=
| IShareRead (share_id ptr : Z)
| IShareLen (share_id : Z)
| IShareWrite (data_len data_ptr share_id : Z)
| IMethodRead (share_id : Z)
| IParamsRead (share_id : Z)
| IPayValueRead
| IResultWrite (len ptr : Z)
| IErrorReturn (len ptr : Z)
| IAbort (msg_ptr filename_ptr line col : Z)
| IEnvBlockNumber
| IEnvBlockTimestamp
| IEnvTxHashRead (share_id : Z)
| IEnvContractAddressRead (share_id : Z)
| IEnvSenderAddressRead (share_id : Z)
| IStorageRead (key_len key_ptr share_id : Z)
| IStorageWrite (key_len key_ptr value_exist value_len value_ptr : Z)
| IEventWrite (len ptr : Z)
| IUtilHash (data_len data_ptr share_id : Z)
| IUtilAddress (data_len data_ptr share_id : Z)
| IUtilValidateAddress (data_len data_ptr : Z)
| IUtilValidateAddressEa (data_len data_ptr error_share_id : Z)
| IBalanceRead (address_len address_ptr : Z)
| IBalanceTransfer (recipient_address_len recipient_address_ptr value : Z)
| IBalanceTransferEa (recipient_address_len recipient_address_ptr value error_share_id : Z)
| IPay
| IContractExecute (contract_address_len contract_address_ptr method_len method_ptr params_len params_ptr pay_value share_id : Z)
| IContractExecuteEa (contract_address_len contract_address_ptr method_len method_ptr params_len params_ptr pay_value share_id error_share_id : Z).

(** What an instance does, from its making to the return of the function: it
    returns, it fails with an error of the engine, or it calls an import with
    its memory and goes on with the result and the memory. *)
Inductive Prog :=
| PReturn
| PTrap (e : WasmerError)
| PCall (f : Import) (memory : bytes) (k : Z → bytes → Prog).

(** The engine: [compile.rs] up to the cache of modules, whatever is in it; the
    memory of an instance, or why there is none; an instance with a call of an
    exported function.  A panic of an import is caught by the engine: it is an
    error of its user that is not a [VMError], with a text. *)
Class WasmLib : Type := {
  WasmModule : Type;
  module_cache : Hash → option WasmModule;
  pre_compile_and_compile : VMConfig → bytes → result VMError WasmModule;
  memory_new : VMConfig → result string unit;
  instance_call : WasmModule → string → Prog;
  panic_text : string;
}.

(** What a caught panic becomes. *)
Definition panic_error {WL : WasmLib} : VMError := from_runtime_error (WUserOther panic_text).

(** ** The context of a contract *)

(** [trait VMContext] *)
Class VMContext (X : Type) : Type := {
  vm_env : X → ContextEnv;
  vm_call_env : X → CallEnv;
  vm_contract_env : X → VMContractEnv;
  vm_payload_get : bytes → M X VMError (option DBValue);
  vm_payload_set : bytes → option DBValue → M X VMError unit;
  vm_payload_drain_buffer : M X VMError Updates;
  vm_payload_apply : Updates → M X VMError unit;
  vm_emit_event : Event → M X VMError unit;
  vm_drain_events : M X VMError (list Event);
  vm_apply_events : list Event → M X VMError unit;
  vm_hash : bytes → result VMError Hash;
  vm_address : bytes → result VMError Address;
  vm_validate_address : Address → result VMError unit;
  module_balance_get : Address → M X VMError Balance;
  module_balance_transfer : Address → Address → Balance → M X VMError unit;
  module_payload_drain_buffer : M X VMError Updates;
  module_payload_apply : Updates → M X VMError unit;
  module_drain_events : M X VMError (list Event);
  module_apply_events : list Event → M X VMError unit;
  nested_vm_contract_execute : Address → string → bytes → Balance → M X VMError bytes;
  nested_vm_payload_drain_buffer : M X VMError Updates;
  nested_vm_payload_apply : Updates → M X VMError unit;
  nested_vm_drain_events : M X VMError (list Event);
  nested_vm_apply_events : list Event → M X VMError unit;
}.

(** [trait VMCodeProvider] *)
Record VMCodeProvider (X : Type) : Type := {
  provide_code_hash : Hash;
  provide_code : M X VMError bytes;
}.
Arguments provide_code_hash {X}. Arguments provide_code {X}.

(** [std::str::from_utf8]: the byte ranges of well-formed UTF-8 *)
Definition in_range (lo hi : Z) (x : byte) : bool :=
  bool_decide (lo ≤ Z.of_N (Byte.to_N x) ≤ hi)%Z.
Abbreviation cont := (in_range 128 191).
Fixpoint utf8_valid (l : bytes) : bool :=
  match l with
  | [] => true
  | x :: l1 =>
      if in_range 0 127 x then utf8_valid l1
      else
        match l1 with
        | y :: l2 =>
            if in_range 194 223 x then cont y && utf8_valid l2
            else
              match l2 with
              | z :: l3 =>
                  if in_range 224 224 x then in_range 160 191 y && cont z && utf8_valid l3
                  else if in_range 225 236 x || in_range 238 239 x then cont y && cont z && utf8_valid l3
                  else if in_range 237 237 x then in_range 128 159 y && cont z && utf8_valid l3
                  else
                    match l3 with
                    | t :: l4 =>
                        if in_range 240 240 x then in_range 144 191 y && cont z && cont t && utf8_valid l4
                        else if in_range 241 243 x then cont y && cont z && cont t && utf8_valid l4
                        else if in_range 244 244 x then in_range 128 143 y && cont z && cont t && utf8_valid l4
                        else false
                    | [] => false
                    end
              | [] => false
              end
        | [] => false
        end
  end.
Definition from_utf8 (l : bytes) : option string :=
  if utf8_valid l then Some (String.string_of_list_byte l) else None.

Section Machine.
Context {WL : WasmLib} {X : Type} {VC : VMContext X}.

(** [struct State], with the context that it points to; the memory is that of
    the instance at the moment of a call. *)
Record State := {
  config : VMConfig;
  memory : bytes;
  shares : gmap Z bytes;
  context : X;
  method : string;
  params : bytes;
  pay_value : Balance;
  result_ : option bytes;
}.

Definition with_memory (x : bytes) (s : State) : State :=
  {| config := config s; memory := x; shares := shares s; context := context s; method := method s;
     params := params s; pay_value := pay_value s; result_ := result_ s |}.
Definition with_shares (x : gmap Z bytes) (s : State) : State :=
  {| config := config s; memory := memory s; shares := x; context := context s; method := method s;
     params := params s; pay_value := pay_value s; result_ := result_ s |}.
Definition with_context (x : X) (s : State) : State :=
  {| config := config s; memory := memory s; shares := shares s; context := x; method := method s;
     params := params s; pay_value := pay_value s; result_ := result_ s |}.
Definition with_result (x : bytes) (s : State) : State :=
  {| config := config s; memory := memory s; shares := shares s; context := context s; method := method s;
     params := params s; pay_value := pay_value s; result_ := Some x |}.

(** An import returns an error, or panics. *)
Inductive HostError :=
| HErr (e : VMError)
| HPanic.
Definition H (A : Type) : Type := M State HostError A.
Definition fail {A} (e : ContractError) : H A := throw (HErr (contract_error e)).
Definition on_context {A} (m : M X VMError A) : H A := λ s,
  let '(r, x) := m (context s) in (map_err HErr r, with_context x s).
Definition of_result {A} (r : result VMError A) : H A := lift (map_err HErr r).

(** *** [impl State] *)
Definition memory_to_vec (len ptr : Z) : H bytes := λ s,
  if decide (ptr + len ≤ Z.of_nat (length (memory s)))%Z
  then (Ok (take (Z.to_nat len) (drop (Z.to_nat ptr) (memory s))), s)
  else (Err HPanic, s).
Definition vec_to_memory (ptr : Z) (data : bytes) : H unit := λ s,
  if decide (ptr + Z.of_nat (length data) ≤ Z.of_nat (length (memory s)))%Z
  then (Ok tt, with_memory (take (Z.to_nat ptr) (memory s) ++ data ++
                            drop (Z.to_nat ptr + length data) (memory s)) s)
  else (Err HPanic, s).
Definition share_to_vec (share_id : Z) : H bytes :=
  let! data := asks (λ s, shares s !! share_id) in
  match data with
  | Some data => ret data
  | None => fail ShareIllegalAccess
  end.
Definition share_to_len (s : State) (share_id : Z) : Z :=
  match shares s !! share_id with
  | Some value => Z.of_nat (length value)
  | None => (2 ^ 64 - 1)%Z
  end.
Definition vec_to_share (share_id : Z) (data : bytes) : H unit :=
  let! config := asks config in
  if decide (Z.of_nat (length data) > max_share_value_len config)%Z then fail ShareValueLenExceeded
  else
    do! modify (λ s, with_shares (<[share_id := data]> (shares s)) s) in
    let! n := asks (λ s, Z.of_nat (size (shares s))) in
    if decide (n > max_share_size config)%Z then fail ShareSizeExceeded else ret tt.

(** The result of an import that another one calls; a panic goes through. *)
Definition catch {A} (m : H A) : H (result VMError A) := λ s,
  match m s with
  | (Ok a, s) => (Ok (Ok a), s)
  | (Err (HErr e), s) => (Ok (Err e), s)
  | (Err HPanic, s) => (Err HPanic, s)
  end.
Definition make_error_aware {A} (r : result VMError A) (error_share_id : Z) : H Z :=
  match r with
  | Ok _ => ret 0%Z
  | Err (VSystem e) => throw (HErr (VSystem e))
  | Err (VApplication e) =>
      do! vec_to_share error_share_id (b (vm_error_text e)) in
      ret 1%Z
  end.

(** *** The functions *)

(** The ones without a result yield zero. *)
Definition done (m : H unit) : H Z := do! m in ret 0%Z.
(** An optional value is put into a share. *)
Definition option_to_share (data : option bytes) (share_id : Z) : H Z :=
  match data with
  | Some data => do! vec_to_share share_id data in ret 1%Z
  | None => ret 0%Z
  end.

Definition share_read (share_id ptr : Z) : H unit :=
  let! value := share_to_vec share_id in vec_to_memory ptr value.
Definition share_write (data_len data_ptr share_id : Z) : H unit :=
  let! data := memory_to_vec data_len data_ptr in vec_to_share share_id data.
Definition result_write (len ptr : Z) : H unit :=
  let! result := memory_to_vec len ptr in modify (with_result result).
Definition error_return (len ptr : Z) : H unit :=
  let! msg := memory_to_vec len ptr in
  match from_utf8 msg with
  | None => fail BadUTF8
  | Some msg => fail (contract_error_from msg)
  end.
Definition abort : H unit := fail (CPanic "AssemblyScript panic").

Definition storage_read (key_len key_ptr share_id : Z) : H Z :=
  let! key := memory_to_vec key_len key_ptr in
  let! value := on_context (vm_payload_get key) in
  option_to_share value share_id.
Definition storage_write (key_len key_ptr value_exist value_len value_ptr : Z) : H unit :=
  let! key := memory_to_vec key_len key_ptr in
  let! value := if decide (value_exist = 1%Z)
                then let! value := memory_to_vec value_len value_ptr in ret (Some value)
                else ret None in
  on_context (vm_payload_set key value).
Definition event_write (len ptr : Z) : H unit :=
  let! event := memory_to_vec len ptr in on_context (vm_emit_event event).

Definition util_hash (data_len data_ptr share_id : Z) : H unit :=
  let! data := memory_to_vec data_len data_ptr in
  let! data := of_result (vm_hash data) in
  vec_to_share share_id data.
Definition util_address (data_len data_ptr share_id : Z) : H unit :=
  let! data := memory_to_vec data_len data_ptr in
  let! data := of_result (vm_address data) in
  vec_to_share share_id data.
Definition util_validate_address (data_len data_ptr : Z) : H unit :=
  let! address := memory_to_vec data_len data_ptr in
  of_result (vm_validate_address address).
Definition util_validate_address_ea (data_len data_ptr error_share_id : Z) : H Z :=
  let! result := catch (util_validate_address data_len data_ptr) in
  make_error_aware result error_share_id.

Definition balance_read (address_len address_ptr : Z) : H Z :=
  let! address := memory_to_vec address_len address_ptr in
  on_context (module_balance_get address).

(** What a module has written goes to the contract's context. *)
Definition apply_module : H unit :=
  let! items := on_context module_payload_drain_buffer in
  do! on_context (module_payload_apply items) in
  let! items := on_context module_drain_events in
  on_context (module_apply_events items).

Definition balance_transfer (recipient_address_len recipient_address_ptr value : Z) : H unit :=
  let! env := asks (λ s, vm_contract_env (context s)) in
  match contract_address env with
  | None => fail ContractAddressNotFound
  | Some sender_address =>
      let! recipient_address := memory_to_vec recipient_address_len recipient_address_ptr in
      do! on_context (module_balance_transfer sender_address recipient_address value) in
      apply_module
  end.
Definition balance_transfer_ea (recipient_address_len recipient_address_ptr value error_share_id : Z) : H Z :=
  let! result := catch (balance_transfer recipient_address_len recipient_address_ptr value) in
  do! (if is_ok result then ret tt
       else do! on_context module_payload_drain_buffer in
            do! on_context module_drain_events in
            ret tt) in
  make_error_aware result error_share_id.

Definition pay : H unit :=
  let! env := asks (λ s, vm_contract_env (context s)) in
  match sender_address env with
  | None => fail CUnsigned
  | Some sender_address =>
      match contract_address env with
      | None => fail ContractAddressNotFound
      | Some contract_address =>
          let! pay_value := asks pay_value in
          do! (if decide (pay_value > 0)%Z
               then on_context (module_balance_transfer sender_address contract_address pay_value)
               else ret tt) in
          apply_module
      end
  end.

Definition contract_execute (contract_address_len contract_address_ptr method_len method_ptr params_len
    params_ptr pay_value share_id : Z) : H unit :=
  let! contract_address := memory_to_vec contract_address_len contract_address_ptr in
  let! method := memory_to_vec method_len method_ptr in
  match from_utf8 method with
  | None => fail InvalidMethod
  | Some method =>
      let! params := memory_to_vec params_len params_ptr in
      let! result := on_context (nested_vm_contract_execute contract_address method params pay_value) in
      do! vec_to_share share_id result in
      let! items := on_context nested_vm_payload_drain_buffer in
      do! on_context (nested_vm_payload_apply items) in
      let! items := on_context nested_vm_drain_events in
      on_context (nested_vm_apply_events items)
  end.
Definition contract_execute_ea (contract_address_len contract_address_ptr method_len method_ptr params_len
    params_ptr pay_value share_id error_share_id : Z) : H Z :=
  let! result := catch (contract_execute contract_address_len contract_address_ptr method_len method_ptr
                          params_len params_ptr pay_value share_id) in
  do! (if is_ok result then ret tt
       else do! on_context nested_vm_payload_drain_buffer in
            do! on_context nested_vm_drain_events in
            ret tt) in
  make_error_aware result error_share_id.

(** [import]: the table of the functions *)
Definition import (f : Import) : H Z :=
  match f with
  | IShareRead share_id ptr => done (share_read share_id ptr)
  | IShareLen share_id => asks (λ s, share_to_len s share_id)
  | IShareWrite data_len data_ptr share_id => done (share_write data_len data_ptr share_id)
  | IMethodRead share_id => let! m := asks method in done (vec_to_share share_id (b m))
  | IParamsRead share_id => let! p := asks params in done (vec_to_share share_id p)
  | IPayValueRead => asks pay_value
  | IResultWrite len ptr => done (result_write len ptr)
  | IErrorReturn len ptr => done (error_return len ptr)
  | IAbort _ _ _ _ => done abort
  | IEnvBlockNumber => asks (λ s, number (vm_env (context s)))
  | IEnvBlockTimestamp => asks (λ s, timestamp (vm_env (context s)))
  | IEnvTxHashRead share_id =>
      let! data := asks (λ s, ce_tx_hash (vm_call_env (context s))) in option_to_share data share_id
  | IEnvContractAddressRead share_id =>
      let! data := asks (λ s, contract_address (vm_contract_env (context s))) in option_to_share data share_id
  | IEnvSenderAddressRead share_id =>
      let! data := asks (λ s, sender_address (vm_contract_env (context s))) in option_to_share data share_id
  | IStorageRead key_len key_ptr share_id => storage_read key_len key_ptr share_id
  | IStorageWrite key_len key_ptr value_exist value_len value_ptr =>
      done (storage_write key_len key_ptr value_exist value_len value_ptr)
  | IEventWrite len ptr => done (event_write len ptr)
  | IUtilHash data_len data_ptr share_id => done (util_hash data_len data_ptr share_id)
  | IUtilAddress data_len data_ptr share_id => done (util_address data_len data_ptr share_id)
  | IUtilValidateAddress data_len data_ptr => done (util_validate_address data_len data_ptr)
  | IUtilValidateAddressEa data_len data_ptr error_share_id =>
      util_validate_address_ea data_len data_ptr error_share_id
  | IBalanceRead address_len address_ptr => balance_read address_len address_ptr
  | IBalanceTransfer len ptr value => done (balance_transfer len ptr value)
  | IBalanceTransferEa len ptr value error_share_id => balance_transfer_ea len ptr value error_share_id
  | IPay => done pay
  | IContractExecute alen aptr mlen mptr plen pptr pay_value share_id =>
      done (contract_execute alen aptr mlen mptr plen pptr pay_value share_id)
  | IContractExecuteEa alen aptr mlen mptr plen pptr pay_value share_id error_share_id =>
      contract_execute_ea alen aptr mlen mptr plen pptr pay_value share_id error_share_id
  end.

(** *** [impl VM] *)

(** [compile] *)
Definition compile (config : VMConfig) (code : VMCodeProvider X) : M X VMError WasmModule :=
  match module_cache (provide_code_hash code) with
  | Some module => ret module
  | None =>
      let! code := provide_code code in
      lift (pre_compile_and_compile config code)
  end.

(** [instance.call]: an error of an import ends the call. *)
Fixpoint call (p : Prog) (s : State) : result VMError unit * State :=
  match p with
  | PReturn => (Ok tt, s)
  | PTrap e => (Err (from_wasmer_error e), s)
  | PCall f mem k =>
      match import f (with_memory mem s) with
      | (Ok v, s) => call (k v (memory s)) s
      | (Err (HErr e), s) => (Err e, s)
      | (Err HPanic, s) => (Err panic_error, s)
      end
  end.

Definition run (config : VMConfig) (code : VMCodeProvider X) (func method : string) (params : bytes)
    (pay_value : Balance) : M X VMError bytes :=
  let! module := compile config code in
  do! lift (map_err wasm_error (memory_new config)) in λ x,
  let state := {| config := config; memory := []; shares := ∅; context := x; method := method;
                  params := params; pay_value := pay_value; result_ := None |} in
  let '(r, state) := call (instance_call module func) state in
  (match r with
   | Ok _ => Ok (default (b "null") (result_ state))
   | Err e => Err e
   end, context state).

Definition validate (config : VMConfig) (code : VMCodeProvider X) (mode : Mode) (method : string)
    (params : bytes) (pay_value : Balance) : M X VMError unit :=
  let func := match mode with ModeInit => "validate_init" | ModeCall => "validate_call" end in
  do! run config code func method params pay_value in ret tt.

Definition execute (config : VMConfig) (code : VMCodeProvider X) (mode : Mode) (method : string)
    (params : bytes) (pay_value : Balance) : M X VMError bytes :=
  let func := match mode with ModeInit => "execute_init" | ModeCall => "execute_call" end in
  run config code func method params pay_value.
End Machine.
Arguments State : clear implicits.
Arguments H : clear implicits.
End Vm.
