(* ===== verification/ContractSdk.v ===== *)
(** * ContractSdk

    [core/node/vm/contract-sdk] and what the macro of [contract-sdk-macro]
    expands to: how the code of a contract, written in Rust, talks to the
    imports of the machine.  A computation of a contract is a program of
    imports in the style of continuations, over the memory of its instance. *)
From S2P Require Import Prelude Types Context Vm.
Import Vm.

Module ContractSdk.

(** The Rust that is compiled to WebAssembly: where the allocator puts the
    values whose addresses a contract passes (the memory is that before, and
    that with the values in it; the [i]-th value is at the [i]-th address), the
    memory of a new instance, and what a panic of the code is to the engine.
    An exhausted memory is left out. *)
Class Toolchain : Type := {
  place : bytes → list bytes → bytes * (nat → Z);
  initial_memory : bytes;
  panic_trap : WasmerError;
}.

(** The memory holds the value at the address. *)
Definition slice (mem : bytes) (p : Z) (n : nat) : bytes := take n (drop (Z.to_nat p) mem).
Definition held (mem : bytes) (p : Z) (x : bytes) : Prop :=
  (0 ≤ p)%Z ∧ (p + Z.of_nat (length x) ≤ Z.of_nat (length mem))%Z ∧ slice mem p (length x) = x.

Class ToolchainLaws `{Toolchain} : Prop :=
  place_held mem values i x : values !! i = Some x → held (place mem values).1 ((place mem values).2 i) x.

(** [serde_json] on a type: [to_vec] of its values, and [from_slice] at
    [Option<T>], which reads [null] as [None] whatever [T] is. *)
Class Json (T : Type) : Type := {
  to_vec : T → option bytes;
  from_slice_option : bytes → option (option T);
}.

(** ** The library as a contract sees it

    [struct Context] (the three environments have the fields of those of the
    machine) and [struct ContractEvent]. *)
Record SdkContext := {
  sdk_env : ContextEnv;
  sdk_call_env : CallEnv;
  contract_env : VMContractEnv;
}.
Record ContractEvent (T : Type) := { name : string; data : T }.

(** The functions of the library in a type of computations: there are two, the
    programs that the code of a contract is, and what they mean. *)
Class SdkLib (F : Type → Type) : Type := {
  lib_ret :: MRet F;
  lib_bind :: MBind F;
  fails : ∀ {A}, ContractError → F A;
  panics : ∀ {A}, F A;
  context_new : F SdkContext;
  emit_event : ∀ {T} {J : Json (ContractEvent T)}, string → T → F unit;
  balance_get : Address → F Balance;
  balance_transfer : Address → Balance → F unit;
  balance_transfer_ea : Address → Balance → F unit;
  contract_execute : Address → string → bytes → Balance → F bytes;
  contract_execute_ea : Address → string → bytes → Balance → F bytes;
  hash : bytes → F Hash;
  address : bytes → F Address;
  validate_address : Address → F unit;
  validate_address_ea : Address → F unit;
  pay_value : F Balance;
  import_pay : F unit;
  storage_get : ∀ {V} {J : Json V}, bytes → F (option V);
  storage_set : ∀ {V} {J : Json V}, bytes → V → F unit;
  storage_delete : bytes → F unit;
}.

(** [?] on a value that is there already, and [expect]. *)
Section Library.
Context {F : Type → Type} {L : SdkLib F}.
Definition of_result {A} (r : result ContractError A) : F A :=
  match r with Ok a => mret a | Err e => fails e end.
Definition expect {A} (x : option A) : F A := match x with Some a => mret a | None => panics end.

(** *** Storage *)
Definition SEPARATOR : bytes := b "_".
Record StorageValue (T : Type) := value_new { value_key : bytes }.
Record StorageMap (T : Type) := map_new { map_key : bytes }.
#[global] Arguments value_key {T}. #[global] Arguments map_key {T}.
Definition value_get {T} {J : Json T} (v : StorageValue T) : F (option T) := storage_get (value_key v).
Definition value_set {T} {J : Json T} (v : StorageValue T) (value : T) : F unit := storage_set (value_key v) value.
Definition value_delete {T} (v : StorageValue T) : F unit := storage_delete (value_key v).
Definition entry_key {T} (m : StorageMap T) (key : bytes) : bytes := map_key m ++ SEPARATOR ++ key.
Definition map_get {T} {J : Json T} (m : StorageMap T) (key : bytes) : F (option T) := storage_get (entry_key m key).
Definition map_set {T} {J : Json T} (m : StorageMap T) (key : bytes) (value : T) : F unit :=
  storage_set (entry_key m key) value.
Definition map_delete {T} (m : StorageMap T) (key : bytes) : F unit := storage_delete (entry_key m key).
End Library.

(** ** What [#[contract]] expands to *)

(** [struct ModuleMethod], and the [impl] with the attribute; the computations
    are those of the SDK, or what they mean. *)
Record ModuleMethod (F : Type → Type) (Self : Type) : Type := {
  method_ident : string;
  payable : bool;
  Params : Type;
  Output : Type;
  params_from_slice : bytes → option Params;
  output_to_vec : Output → option bytes;
  validate_ident : option (Self → Params → F unit);
  method_body : Self → Params → F Output;
}.
#[global] Arguments method_ident {F Self}. #[global] Arguments payable {F Self}.
#[global] Arguments Params {F Self}. #[global] Arguments Output {F Self}.
#[global] Arguments params_from_slice {F Self}. #[global] Arguments output_to_vec {F Self}.
#[global] Arguments validate_ident {F Self}. #[global] Arguments method_body {F Self}.

Record Contract (F : Type → Type) (Self : Type) : Type := {
  new : F Self;
  init_methods : list (ModuleMethod F Self);
  call_methods : list (ModuleMethod F Self);
}.
#[global] Arguments new {F Self}. #[global] Arguments init_methods {F Self}. #[global] Arguments call_methods {F Self}.

(** The [match] over the names. *)
Definition find_method {F Self} (methods : list (ModuleMethod F Self)) (method : string) : option (ModuleMethod F Self) :=
  snd <$> list_find (λ m, method_ident m = method) methods.

Section Methods.
Context {F : Type → Type} {L : SdkLib F} {Self : Type}.

(** [validate_init] and [validate_call] *)
Definition validate_method (methods : list (ModuleMethod F Self)) (self : Self) (method : string) (params : bytes)
    (pay_value : Balance) : F unit :=
  match find_method methods method with
  | None => fails InvalidMethod
  | Some m =>
      if decide (pay_value > 0 ∧ payable m = false)%Z then fails NotPayable
      else
        params ← of_result (ok_or InvalidParams (params_from_slice m params));
        match validate_ident m with
        | Some validate => validate self params
        | None => mret tt
        end
  end.

(** [execute_init] and [execute_call] *)
Definition execute_method (methods : list (ModuleMethod F Self)) (self : Self) (method : string) (params : bytes)
    (pay_value : Balance) : F bytes :=
  match find_method methods method with
  | None => fails InvalidMethod
  | Some m =>
      _ ← (if decide (pay_value > 0)%Z then
             if payable m then import_pay else fails NotPayable
           else mret tt);
      params ← of_result (ok_or InvalidParams (params_from_slice m params));
      result ← method_body m self params;
      of_result (ok_or CSerialize (output_to_vec m result))
  end.
End Methods.

(** ** The code of the library *)
Module Code.
Section Code.
Context {TC : Toolchain}.

(** [ContractResult<A>], and what goes on with it and the memory. *)
Definition Sdk (A : Type) : Type := bytes → (result ContractError A → bytes → Prog) → Prog.
#[global] Instance sdk_ret : MRet Sdk := λ A a mem k, k (Ok a) mem.
#[global] Instance sdk_bind : MBind Sdk := λ A B f m mem k,
  m mem (λ r mem, match r with Ok a => f a mem k | Err e => k (Err e) mem end).
Definition fails {A} (e : ContractError) : Sdk A := λ mem k, k (Err e) mem.
Definition of_result {A} (r : result ContractError A) : Sdk A := λ mem k, k r mem.
Definition panics {A} : Sdk A := λ _ _, PTrap panic_trap.

Definition len (x : bytes) : Z := Z.of_nat (length x).

(** A call of an import, with the addresses of values. *)
Definition env (values : list bytes) (f : (nat → Z) → Import) : Sdk Z := λ mem k,
  let '(mem, ptr) := place mem values in
  PCall (f ptr) mem (λ v mem, k (Ok v) mem).

(** [vec![0u8; len as usize]], where [usize] has 32 bits, filled by the import. *)
Definition share_read (share_id len : Z) : Sdk bytes := λ mem k,
  let data := replicate (Z.to_nat (u32 len)) Byte.x00 in
  let '(mem, ptr) := place mem [data] in
  PCall (IShareRead share_id (ptr 0)) mem (λ _ mem, k (Ok (slice mem (ptr 0) (length data))) mem).

(** *** Shares *)
Definition share_to_vec (share_id : Z) : Sdk (option bytes) :=
  len ← env [] (λ _, IShareLen share_id);
  if decide (len = 2 ^ 64 - 1)%Z then mret None
  else
    data ← share_read share_id len;
    mret (Some data).

(** The identifiers of the shares. *)
Definition null : Z := 0.
Definition second : Z := 1.

Definition get_data (share_id : Z) : Sdk bytes :=
  data ← share_to_vec share_id;
  of_result (ok_or ShareIllegalAccess data).
Definition vec_from_func (f : Z → Sdk Z) : Sdk bytes :=
  _ ← f null;
  get_data null.
Definition option_vec_from_func (f : Z → Sdk Z) : Sdk (option bytes) :=
  exist ← f null;
  if decide (exist = 1)%Z then
    value ← get_data null;
    mret (Some value)
  else mret None.
Definition null_from_func (f : Sdk Z) : Sdk unit :=
  _ ← f;
  mret tt.
Definition from_error_aware {A} (error error_share_id : Z) (get_data : Sdk A) : Sdk A :=
  if decide (error = 1)%Z then
    error ← share_to_vec error_share_id;
    error ← of_result (ok_or ShareIllegalAccess error);
    match from_utf8 error with
    | None => fails BadUTF8
    | Some error => fails (contract_error_from error)
    end
  else get_data.
Definition vec_from_func_ea (f : Z → Z → Sdk Z) : Sdk bytes :=
  error ← f null second;
  from_error_aware error second (get_data null).
Definition null_from_func_ea (f : Z → Sdk Z) : Sdk unit :=
  error ← f null;
  from_error_aware error null (mret tt).

(** *** [impl Context] *)
Definition context_new : Sdk SdkContext :=
  number ← env [] (λ _, IEnvBlockNumber);
  timestamp ← env [] (λ _, IEnvBlockTimestamp);
  tx_hash ← option_vec_from_func (λ share_id, env [] (λ _, IEnvTxHashRead share_id));
  contract_address ← option_vec_from_func (λ share_id, env [] (λ _, IEnvContractAddressRead share_id));
  sender_address ← option_vec_from_func (λ share_id, env [] (λ _, IEnvSenderAddressRead share_id));
  mret {| sdk_env := {| number := number; timestamp := timestamp |};
          sdk_call_env := {| ce_tx_hash := tx_hash |};
          contract_env := {| contract_address := contract_address; sender_address := sender_address |} |}.

Definition emit_event {T} {J : Json (ContractEvent T)} (name : string) (data : T) : Sdk unit :=
  event ← of_result (ok_or CSerialize (to_vec {| name := name; data := data |}));
  _ ← env [event] (λ ptr, IEventWrite (len event) (ptr 0));
  mret tt.
Definition balance_get (address : Address) : Sdk Balance :=
  env [address] (λ ptr, IBalanceRead (len address) (ptr 0)).
Definition balance_transfer (recipient_address : Address) (value : Balance) : Sdk unit :=
  null_from_func (env [recipient_address] (λ ptr, IBalanceTransfer (len recipient_address) (ptr 0) value)).
Definition balance_transfer_ea (recipient_address : Address) (value : Balance) : Sdk unit :=
  null_from_func_ea (λ error_share_id,
    env [recipient_address] (λ ptr, IBalanceTransferEa (len recipient_address) (ptr 0) value error_share_id)).
Definition contract_execute (contract_address : Address) (method : string) (params : bytes)
    (pay_value : Balance) : Sdk bytes :=
  let method := b method in
  vec_from_func (λ share_id,
    env [contract_address; method; params] (λ ptr,
      IContractExecute (len contract_address) (ptr 0) (len method) (ptr 1) (len params) (ptr 2) pay_value share_id)).
Definition contract_execute_ea (contract_address : Address) (method : string) (params : bytes)
    (pay_value : Balance) : Sdk bytes :=
  let method := b method in
  vec_from_func_ea (λ data_share_id error_share_id,
    env [contract_address; method; params] (λ ptr,
      IContractExecuteEa (len contract_address) (ptr 0) (len method) (ptr 1) (len params) (ptr 2) pay_value
        data_share_id error_share_id)).

(** *** [impl Util] and [impl Pay] *)
Definition hash (data : bytes) : Sdk Hash :=
  vec_from_func (λ share_id, env [data] (λ ptr, IUtilHash (len data) (ptr 0) share_id)).
Definition address (data : bytes) : Sdk Address :=
  vec_from_func (λ share_id, env [data] (λ ptr, IUtilAddress (len data) (ptr 0) share_id)).
Definition validate_address (address : Address) : Sdk unit :=
  null_from_func (env [address] (λ ptr, IUtilValidateAddress (len address) (ptr 0))).
Definition validate_address_ea (address : Address) : Sdk unit :=
  null_from_func_ea (λ share_id, env [address] (λ ptr, IUtilValidateAddressEa (len address) (ptr 0) share_id)).
Definition pay_value : Sdk Balance := env [] (λ _, IPayValueRead).

(** *** Storage *)
Definition storage_get {V} {J : Json V} (key : bytes) : Sdk (option V) :=
  value ← option_vec_from_func (λ share_id, env [key] (λ ptr, IStorageRead (len key) (ptr 0) share_id));
  match value with
  | Some value => of_result (ok_or CDeserialize (from_slice_option value))
  | None => mret None
  end.
Definition storage_set {V} {J : Json V} (key : bytes) (value : V) : Sdk unit :=
  value ← of_result (ok_or CSerialize (to_vec value));
  null_from_func (env [key; value] (λ ptr, IStorageWrite (len key) (ptr 0) 1 (len value) (ptr 1))).
Definition storage_delete (key : bytes) : Sdk unit :=
  null_from_func (env [key] (λ ptr, IStorageWrite (len key) (ptr 0) 0 0 0)).

#[global] Instance sdk_code : SdkLib Sdk := {|
  lib_ret := sdk_ret; lib_bind := sdk_bind;
  ContractSdk.fails _ := fails; ContractSdk.panics _ := panics;
  ContractSdk.context_new := context_new; ContractSdk.emit_event _ _ := emit_event;
  ContractSdk.balance_get := balance_get; ContractSdk.balance_transfer := balance_transfer;
  ContractSdk.balance_transfer_ea := balance_transfer_ea; ContractSdk.contract_execute := contract_execute;
  ContractSdk.contract_execute_ea := contract_execute_ea; ContractSdk.hash := hash; ContractSdk.address := address;
  ContractSdk.validate_address := validate_address; ContractSdk.validate_address_ea := validate_address_ea;
  ContractSdk.pay_value := pay_value; import_pay := null_from_func (env [] (λ _, IPay));
  ContractSdk.storage_get _ _ := storage_get;
  ContractSdk.storage_set _ _ := storage_set; ContractSdk.storage_delete := storage_delete;
|}.
End Code.

(** *** The generated functions *)
Section Generated.
Context {TC : Toolchain} {Self : Type}.

Definition get_method : Sdk string :=
  _ ← env [] (λ _, IMethodRead null);
  len ← env [] (λ _, IShareLen null);
  method ← share_read null len;
  of_result (ok_or InvalidMethod (from_utf8 method)).
Definition get_params : Sdk bytes :=
  _ ← env [] (λ _, IParamsRead null);
  len ← env [] (λ _, IShareLen null);
  params ← share_read null len;
  mret (if decide (length params = 0) then b "null" else params).
Definition get_pay_value : Sdk Balance := env [] (λ _, IPayValueRead).

Definition inner_validate (c : Contract Sdk Self) (methods : list (ModuleMethod Sdk Self)) : Sdk unit :=
  method ← get_method;
  params ← get_params;
  pay_value ← get_pay_value;
  contract ← new c;
  validate_method methods contract method params pay_value.
Definition inner_execute (c : Contract Sdk Self) (methods : list (ModuleMethod Sdk Self)) : Sdk unit :=
  method ← get_method;
  params ← get_params;
  pay_value ← get_pay_value;
  contract ← new c;
  result ← execute_method methods contract method params pay_value;
  _ ← env [result] (λ ptr, IResultWrite (len result) (ptr 0));
  mret tt.

(** An exported function: [set_result] of what the inner one returns. *)
Definition set_result (result : Prelude.result ContractError unit) (mem : bytes) : Prog :=
  match result with
  | Ok _ => PReturn
  | Err e =>
      let error := b (contract_error_text e) in
      env [error] (λ ptr, IErrorReturn (len error) (ptr 0)) mem (λ _ _, PReturn)
  end.
Definition exported (inner : Sdk unit) : Prog := inner initial_memory set_result.

(** The exports of the module. *)
Definition exports (c : Contract Sdk Self) (func : string) : Prog :=
  if decide (func = "validate_init") then exported (inner_validate c (init_methods c))
  else if decide (func = "validate_call") then exported (inner_validate c (call_methods c))
  else if decide (func = "execute_init") then exported (inner_execute c (init_methods c))
  else if decide (func = "execute_call") then exported (inner_execute c (call_methods c))
  else PTrap (WCallError (WResolve (WExportNotFound func))).
End Generated.
End Code.

(** ** What the library means

    On the context of the machine, without memory, addresses or shares: a
    computation is ended by the machine, or returns an error to the contract. *)
Module Meaning.
Inductive Stop :=
| Ended (e : VMError)
| Returned (e : ContractError).
Definition Act (X A : Type) : Type := M X Stop A.
#[global] Instance act_ret {X} : MRet (Act X) := λ A, ret.
#[global] Instance act_bind {X} : MBind (Act X) := λ A B f m, bind m f.

Section Meaning.
Context {X : Type} {VC : VMContext X}.
Variable config : VMConfig.

Definition host {A} (m : M X VMError A) : Act X A := λ x, let '(r, x) := m x in (map_err Ended r, x).

(** What is passed to the contract has a bounded length. *)
Definition shared (data : bytes) : M X VMError bytes :=
  if decide (Z.of_nat (length data) > max_share_value_len config)%Z
  then throw (contract_error ShareValueLenExceeded) else ret data.
Definition shared_option (data : option bytes) : M X VMError (option bytes) :=
  match data with
  | Some data => let! data := shared data in ret (Some data)
  | None => ret None
  end.

(** An error of the application is caught, cleaned up after, and returned to
    the contract as its text says; one of the system ends the execution. *)
Definition tried {A} (m : M X VMError A) : M X VMError (result VMError A) := λ x,
  let '(r, x) := m x in (Ok r, x).
Definition recovered {A} (m : M X VMError A) (clean : M X VMError unit) : M X VMError (A + bytes) :=
  let! r := tried m in
  do! (if is_ok r then ret tt else clean) in
  match r with
  | Ok a => ret (inl a)
  | Err (VSystem e) => throw (VSystem e)
  | Err (VApplication e) => let! text := shared (b (vm_error_text e)) in ret (inr text)
  end.
Definition error_aware {A} (m : M X VMError A) (clean : M X VMError unit) : Act X A :=
  r ← host (recovered m clean);
  match r with
  | inl a => mret a
  | inr text =>
      match from_utf8 text with
      | None => throw (Returned BadUTF8)
      | Some text => throw (Returned (contract_error_from text))
      end
  end.

Definition new_context : M X VMError SdkContext :=
  let! env := asks vm_env in
  let! tx_hash := asks (λ x, ce_tx_hash (vm_call_env x)) in
  let! tx_hash := shared_option tx_hash in
  let! contract_address := asks (λ x, contract_address (vm_contract_env x)) in
  let! contract_address := shared_option contract_address in
  let! sender_address := asks (λ x, sender_address (vm_contract_env x)) in
  let! sender_address := shared_option sender_address in
  ret {| sdk_env := env; sdk_call_env := {| ce_tx_hash := tx_hash |};
         contract_env := {| contract_address := contract_address; sender_address := sender_address |} |}.

(** A transfer by the contract, with what the balance module has written. *)
Definition apply_module : M X VMError unit :=
  let! items := module_payload_drain_buffer in
  do! module_payload_apply items in
  let! items := module_drain_events in
  module_apply_events items.
Definition transfer (recipient : Address) (value : Balance) : M X VMError unit :=
  let! env := asks vm_contract_env in
  match contract_address env with
  | None => throw (contract_error ContractAddressNotFound)
  | Some sender =>
      do! module_balance_transfer sender recipient value in
      apply_module
  end.
Definition drop_module : M X VMError unit :=
  do! module_payload_drain_buffer in
  do! module_drain_events in
  ret tt.

(** A call of another contract, with what it has written. *)
Definition nested (address : Address) (method : string) (params : bytes) (value : Balance) : M X VMError bytes :=
  match from_utf8 (b method) with
  | None => throw (contract_error InvalidMethod)
  | Some method =>
      let! result := nested_vm_contract_execute address method params value in
      let! result := shared result in
      let! items := nested_vm_payload_drain_buffer in
      do! nested_vm_payload_apply items in
      let! items := nested_vm_drain_events in
      do! nested_vm_apply_events items in
      ret result
  end.
Definition drop_nested : M X VMError unit :=
  do! nested_vm_payload_drain_buffer in
  do! nested_vm_drain_events in
  ret tt.

(** The value that the caller pays. *)
Variable pay_value : Balance.
Definition payment : M X VMError unit :=
  let! env := asks vm_contract_env in
  match sender_address env with
  | None => throw (contract_error CUnsigned)
  | Some sender =>
      match contract_address env with
      | None => throw (contract_error ContractAddressNotFound)
      | Some contract =>
          do! (if decide (pay_value > 0)%Z then module_balance_transfer sender contract pay_value else ret tt) in
          apply_module
      end
  end.

Definition serialized {V} {J : Json V} (v : V) : Act X bytes :=
  lift (map_err Returned (ok_or CSerialize (to_vec v))).
Definition emit {T} {J : Json (ContractEvent T)} (name : string) (data : T) : Act X unit :=
  event ← serialized {| name := name; data := data |};
  host (vm_emit_event event).
Definition stored {V} {J : Json V} (key : bytes) : Act X (option V) :=
  value ← host (let! value := vm_payload_get key in shared_option value);
  match value with
  | Some value => lift (map_err Returned (ok_or CDeserialize (from_slice_option value)))
  | None => mret None
  end.
Definition store {V} {J : Json V} (key : bytes) (value : V) : Act X unit :=
  value ← serialized value;
  host (vm_payload_set key (Some value)).

#[global] Instance sdk_meaning {TC : Toolchain} : SdkLib (Act X) := {|
  lib_ret := act_ret; lib_bind := act_bind;
  fails _ e := throw (Returned e);
  panics _ := throw (Ended (from_wasmer_error panic_trap));
  context_new := host new_context;
  emit_event _ _ := emit;
  balance_get address := host (module_balance_get address);
  balance_transfer recipient value := host (transfer recipient value);
  balance_transfer_ea recipient value := error_aware (transfer recipient value) drop_module;
  contract_execute address method params value := host (nested address method params value);
  contract_execute_ea address method params value := error_aware (nested address method params value) drop_nested;
  hash data := host (let! h := lift (vm_hash data) in shared h);
  address data := host (let! a := lift (vm_address data) in shared a);
  validate_address address := host (lift (vm_validate_address address));
  validate_address_ea address := error_aware (lift (vm_validate_address address)) (ret tt);
  ContractSdk.pay_value := mret pay_value;
  import_pay := host payment;
  storage_get _ _ := stored;
  storage_set _ _ := store;
  storage_delete key := host (vm_payload_set key None);
|}.

(** *** A run of a contract *)
Section Run.
Context {TC : Toolchain} {Self : Type}.
Variables (method : string) (params : bytes).

Definition given_method : Act X string :=
  text ← host (shared (b method));
  lift (map_err Returned (ok_or InvalidMethod (from_utf8 text))).
Definition given_params : Act X bytes :=
  params ← host (shared params);
  mret (if decide (length params = 0) then b "null" else params).

(** An error that is returned goes through its text. *)
Definition reported {A} (m : Act X A) : M X VMError A := λ x,
  let '(r, x) := m x in
  (map_err (λ e, match e with
    | Ended e => e
    | Returned e =>
        match from_utf8 (b (contract_error_text e)) with
        | None => contract_error BadUTF8
        | Some msg => contract_error (contract_error_from msg)
        end
    end) r, x).

Definition validated (c : Contract (Act X) Self) (methods : list (ModuleMethod (Act X) Self)) : M X VMError unit :=
  reported (
    method ← given_method;
    params ← given_params;
    self ← new c;
    validate_method methods self method params pay_value).
Definition executed (c : Contract (Act X) Self) (methods : list (ModuleMethod (Act X) Self)) : M X VMError bytes :=
  reported (
    method ← given_method;
    params ← given_params;
    self ← new c;
    execute_method methods self method params pay_value).
End Run.
End Meaning.
End Meaning.
End ContractSdk.

(** ** The code of the library does what it means *)
Import ContractSdk.

(** A share can be addressed, and there can be those of the library. *)
Class ShareLimits (cfg : VMConfig) : Prop := {
  share_lengths : (max_share_value_len cfg < 2 ^ 32)%Z;
  share_count : (2 ≤ max_share_size cfg)%Z;
}.

Section Simulation.
Context {TC : Toolchain} {TL : ToolchainLaws} {WL : WasmLib} {X : Type} {VC : VMContext X}.
Variables (cfg : VMConfig) (meth : string) (prms : bytes) (pv : Balance) (res : option bytes).
Context {SL : ShareLimits cfg}.

(** A machine that runs a contract of the library: the call and the result so
    far, and no shares but the two of the library. *)
Record ready (s : State X) : Prop := {
  ready_config : config s = cfg;
  ready_method : method s = meth;
  ready_params : params s = prms;
  ready_pay : Vm.pay_value s = pv;
  ready_result : result_ s = res;
  ready_shares id x : shares s !! id = Some x →
    (id = Code.null ∨ id = Code.second) ∧ (Z.of_nat (length x) ≤ max_share_value_len cfg)%Z;
}.

(** Conditions on the shares. *)
Abbreviation Cond := (gmap Z bytes → Prop).

(** A computation of an import does what [h] does to the context, in a machine
    with the given memory. *)
Definition hsim {A B} (mem : bytes) (P : Cond) (m : H X A) (Q : B → A → Cond) (h : M X VMError B) : Prop :=
  ∀ s, ready s → memory s = mem → P (shares s) →
  ∃ s', (m s).2 = s' ∧ ready s' ∧ memory s' = mem ∧ context s' = (h (context s)).2 ∧
  match (h (context s)).1, (m s).1 with
  | Ok b, Ok a => Q b a (shares s')
  | Err e, Err (HErr e') => e' = e
  | _, _ => False
  end.

(** A program does what [h] means: it goes on with a result that [Q] relates
    to that of [h], or with the error that [h] returns, or it is ended. *)
Definition sim {A B} (P : Cond) (m : Code.Sdk A) (Q : B → A → Cond) (h : Meaning.Act X B) : Prop :=
  ∀ mem k s, ready s → P (shares s) →
  ∃ s', ready s' ∧ context s' = (h (context s)).2 ∧
  match (h (context s)).1 with
  | Ok b => ∃ a mem', Q b a (shares s') ∧ call (m mem k) s = call (k (Ok a) mem') s'
  | Err (Meaning.Returned e) => ∃ mem', call (m mem k) s = call (k (Err e) mem') s'
  | Err (Meaning.Ended e) => call (m mem k) s = (Err e, s')
  end.

(** *** Rules *)
Lemma sim_ret {A B} (P : Cond) (Q : B → A → Cond) a b :
  (∀ sh, P sh → Q b a sh) → sim P (mret a) Q (mret b).
Proof. intros HQ mem k s Hs HP. exists s. split_and!; [done..|]. exists a, mem. split; [by apply HQ|done]. Qed.

Lemma sim_bind {A B A' B'} P (m : Code.Sdk A) (Q : B → A → Cond) h (f : A → Code.Sdk A') (Q' : B' → A' → Cond) g :
  sim P m Q h → (∀ b a, sim (Q b a) (f a) Q' (g b)) → sim P (m ≫= f) Q' (h ≫= g).
Proof.
  intros Hm Hf mem k s Hs HP.
  destruct (Hm mem (λ r mem, match r with Ok a => f a mem k | Err e => k (Err e) mem end) s Hs HP) as (s1 & Hs1 & Hc1 & Hr).
  unfold mbind, Meaning.act_bind, bind. destruct (h (context s)) as [[b|[e|e]] x]; cbn in *; subst x.
  - destruct Hr as (a & mem' & HQ & Hcall). destruct (Hf b a mem' k s1 Hs1 HQ) as (s2 & Hs2 & Hc2 & Hr2).
    exists s2. split_and!; [done..|]. unfold Code.sdk_bind. by rewrite Hcall.
  - by exists s1.
  - destruct Hr as (mem' & Hcall). exists s1. split_and!; [done..|]. by exists mem'.
Qed.

Lemma sim_weaken {A B} (P P' : Cond) (m : Code.Sdk A) (Q Q' : B → A → Cond) h :
  sim P m Q h → (∀ sh, P' sh → P sh) → (∀ b a sh, Q b a sh → Q' b a sh) → sim P' m Q' h.
Proof.
  intros Hm HP HQ mem k s Hs Hsh. destruct (Hm mem k s Hs (HP _ Hsh)) as (s' & Hs' & Hc & Hr).
  exists s'. split_and!; [done..|]. destruct (h (context s)) as [[b|[e|e]] x]; [|done..].
  destruct Hr as (a & mem' & Ha & Hcall). exists a, mem'. eauto.
Qed.

Lemma sim_fails {A B} P (Q : B → A → Cond) e : sim P (Code.fails e) Q (throw (Meaning.Returned e)).
Proof. intros mem k s Hs HP. exists s. split_and!; [done..|]. by exists mem. Qed.
Lemma sim_panics {A B} P (Q : B → A → Cond) :
  sim P Code.panics Q (throw (Meaning.Ended (from_wasmer_error panic_trap))).
Proof. intros mem k s Hs HP. by exists s. Qed.

(** A call of an import. *)
Lemma sim_env {B} P values f (Q : B → Z → Cond) h :
  (∀ mem ptr, (∀ i x, values !! i = Some x → held mem (ptr i) x) → hsim mem P (import (f ptr)) Q h) →
  sim P (Code.env values f) Q (Meaning.host h).
Proof.
  intros Hf mem k s Hs HP. unfold Code.env. pose proof (place_held mem values) as Hheld.
  destruct (place mem values) as [mem' ptr]. cbn in Hheld. cbn [call].
  assert (ready (with_memory mem' s)) as Hs0 by (destruct Hs; by split).
  destruct (Hf mem' ptr Hheld (with_memory mem' s) Hs0 eq_refl HP) as (s' & Hs' & Hr' & Hm & Hc & Hr).
  unfold Meaning.host. cbn in Hc, Hr. destruct (import (f ptr) (with_memory mem' s)) as [r s1]. cbn in Hs', Hr. subst s1.
  exists s'. destruct (h (context s)) as [[b|e] x]; cbn in *.
  - destruct r as [a|]; [|done]. split_and!; [done..|]. exists a, (memory s'). by split.
  - destruct r as [|[e'|]]; [done| |done]. subst e'. by split_and!.
Qed.

(** *** Computations of imports *)
Section Imports.
Variables (mem : bytes) (P : Cond).

Lemma hsim_ret {A B} (Q : B → A → Cond) a b : (∀ sh, P sh → Q b a sh) → hsim mem P (ret a) Q (ret b).
Proof. intros HQ s Hs Hm HP. exists s. cbn. split_and!; [done..|by apply HQ]. Qed.
Lemma hsim_throw {A B} (Q : B → A → Cond) e : hsim mem P (throw (HErr e)) Q (throw e).
Proof. intros s Hs Hm HP. by exists s. Qed.
Lemma hsim_result {A} (r : Prelude.result VMError A) :
  hsim mem P (Vm.of_result r) (λ b a sh, a = b ∧ P sh) (lift r).
Proof. intros s Hs Hm HP. exists s. unfold Vm.of_result, lift. by destruct r. Qed.
Lemma hsim_bind {A B A' B'} (m : H X A) (Q : B → A → Cond) h (f : A → H X A') (Q' : B' → A' → Cond) g :
  hsim mem P m Q h → (∀ b a, hsim mem (Q b a) (f a) Q' (g b)) → hsim mem P (bind m f) Q' (bind h g).
Proof.
  intros Hm Hf s Hs Hmem HP. destruct (Hm s Hs Hmem HP) as (s1 & E & Hs1 & Hm1 & Hc1 & Hr). unfold bind.
  destruct (h (context s)) as [[b|e] x], (m s) as [[a|[e'|]] s2]; cbn in *; subst x s2; try done.
  - destruct (Hf b a s1 Hs1 Hm1 Hr) as (s3 & E & ? & ? & ? & Hr3). by exists s3.
  - exists s1. by split_and!.
Qed.
(** A step of the import that touches no context. *)
Lemma hsim_step {A A' B'} (m : H X A) (a : A) (P' : Cond) (f : A → H X A') (Q' : B' → A' → Cond) g :
  hsim mem P m (λ _ a' sh, a' = a ∧ P' sh) (ret tt) → hsim mem P' (f a) Q' g → hsim mem P (bind m f) Q' g.
Proof.
  intros Hm Hf s Hs Hmem HP. destruct (Hm s Hs Hmem HP) as (s1 & E & Hs1 & Hm1 & Hc1 & Hr). unfold bind.
  destruct (m s) as [[a'|[e'|]] s2]; cbn in *; try done. subst s2. destruct Hr as [-> HP'].
  rewrite <-Hc1. exact (Hf s1 Hs1 Hm1 HP').
Qed.
Lemma hsim_asks {A} (f : State X → A) (g : X → A) : (∀ s, ready s → f s = g (context s)) →
  hsim mem P (asks f) (λ b a sh, a = b ∧ P sh) (asks g).
Proof. intros Hf s Hs Hm HP. exists s. cbn. by rewrite Hf. Qed.
Lemma hsim_own {A} (f : State X → A) a : (∀ s, ready s → f s = a) →
  hsim mem P (asks f) (λ _ a' sh, a' = a ∧ P sh) (ret tt).
Proof. intros Hf s Hs Hm HP. exists s. cbn. by rewrite Hf. Qed.
Lemma hsim_context {A} (m : M X VMError A) : hsim mem P (on_context m) (λ b a sh, a = b ∧ P sh) m.
Proof.
  intros s Hs Hm HP. unfold on_context. destruct (m (context s)) as [r x]. exists (with_context x s).
  assert (ready (with_context x s)) by (destruct Hs; by split). by destruct r.
Qed.
Lemma hsim_memory p x : held mem p x →
  hsim mem P (memory_to_vec (Code.len x) p) (λ _ a sh, a = x ∧ P sh) (ret tt).
Proof.
  intros (Hp & Hl & Hx) s Hs Hm HP. exists s. unfold memory_to_vec, Code.len. rewrite Hm, decide_True by done.
  rewrite Nat2Z.id. by split_and!.
Qed.
Lemma hsim_catch {A B} (m : H X A) (Q : B → A → Cond) h :
  hsim mem P m Q h →
  hsim mem P (catch m) (λ rb ra sh, match rb, ra with
    | Ok b, Ok a => Q b a sh | Err e, Err e' => e' = e | _, _ => False end) (Meaning.tried h).
Proof.
  intros Hm s Hs Hmem HP. destruct (Hm s Hs Hmem HP) as (s1 & E & Hs1 & Hm1 & Hc1 & Hr).
  unfold catch, Meaning.tried. destruct (h (context s)) as [[b|e] x], (m s) as [[a|[e'|]] s2]; cbn in *; try done.
  all: subst s2; exists s1; by split_and!.
Qed.

(** The share of an identifier. *)
Lemma share_room s id : ready s → id = Code.null ∨ id = Code.second →
  ∀ x, (Z.of_nat (size (<[id := x]> (shares s))) ≤ max_share_size cfg)%Z.
Proof.
  intros Hs Hid x. etrans; [|exact share_count]. apply (Nat2Z.inj_le _ 2).
  assert (size ({[Code.null; Code.second]} : gset Z) = 2) as <- by reflexivity.
  rewrite <-size_dom. apply subseteq_size. intros i. rewrite dom_insert, elem_of_union, elem_of_singleton, elem_of_dom.
  intros [->|[y Hy]]; [set_solver|]. apply (ready_shares _ Hs) in Hy as [Hy _]. set_solver.
Qed.
Lemma hsim_put id data : id = Code.null ∨ id = Code.second →
  hsim mem P (vec_to_share id data) (λ b _ sh, b = data ∧ sh !! id = Some data) (Meaning.shared cfg data).
Proof.
  intros Hid s Hs Hm HP. unfold vec_to_share, Meaning.shared. rewrite bind_asks, (ready_config _ Hs).
  case_decide as Hlen; [by exists s|]. unfold bind, modify, asks. cbn.
  rewrite decide_False by (pose proof (share_room s id Hs Hid data); lia).
  exists (with_shares (<[id := data]> (shares s)) s). cbn. rewrite lookup_insert_eq. split_and!; try done.
  destruct Hs as [? ? ? ? ? Hsh]. split; try done. cbn. intros i x [[<- <-]|[_ Hx]]%lookup_insert_Some; [|by eapply Hsh].
  split; [done|lia].
Qed.
End Imports.

Lemma hsim_put_option mem P id data : id = Code.null ∨ id = Code.second →
  hsim mem P (option_to_share data id) (λ b v sh, match b with Some d => v = 1%Z ∧ sh !! id = Some d | None => v = 0%Z end)
    (Meaning.shared_option cfg data).
Proof.
  intros Hid. destruct data as [data|]; [|by apply hsim_ret].
  eapply hsim_bind; [by apply hsim_put|]. intros d a. apply hsim_ret. by intros sh [-> ?].
Qed.

(** *** The imports *)

Definition value_is {A} (b a : A) : Cond := λ _, a = b.

Lemma hsim_done {B} mem P m (Q : B → unit → Cond) (Q' : B → Z → Cond) h :
  hsim mem P m Q h → (∀ b sh, Q b tt sh → Q' b 0%Z sh) → hsim mem P (done m) Q' h.
Proof.
  intros Hm HQ s Hs Hmem HP. destruct (Hm s Hs Hmem HP) as (s1 & E & Hs1 & Hm1 & Hc1 & Hr).
  unfold done, bind. destruct (h (context s)) as [[b|e] x], (m s) as [[[]|[e'|]] s2]; cbn in *; try done.
  all: subst s2; exists s1; split_and!; try done. by apply HQ.
Qed.

(** *** Reading a share *)
Lemma slice_written mem p x y : held mem p x → length y = length x →
  slice (take (Z.to_nat p) mem ++ y ++ drop (Z.to_nat p + length y) mem) p (length x) = y.
Proof.
  intros (Hp & Hl & _) Hy. unfold slice. rewrite drop_app_length' by (rewrite length_take; lia).
  by rewrite take_app_length' by done.
Qed.

(** The share is where the contract reads it. *)
Lemma share_read_call id d mem k s : ready s → shares s !! id = Some d →
  ∃ mem' s', ready s' ∧ context s' = context s ∧ call (Code.share_read id (Code.len d) mem k) s = call (k (Ok d) mem') s'.
Proof.
  intros Hs Hd. unfold Code.share_read. set (zeros := replicate _ _).
  assert (length zeros = length d) as Hlen.
  { unfold zeros. rewrite length_replicate. unfold Code.len. rewrite u32_id; [lia|].
    apply (ready_shares _ Hs) in Hd as [_ Hd]. unfold is_u32. pose proof share_lengths. lia. }
  pose proof (place_held mem [zeros] 0 zeros eq_refl) as Hheld.
  destruct (place mem [zeros]) as [mem1 ptr]. cbn in Hheld. cbn [call import].
  unfold done, share_read, share_to_vec. unfold bind at 1 2 3. cbn [asks shares with_memory]. rewrite Hd. cbn [ret].
  unfold vec_to_memory. rewrite decide_True by (destruct Hheld as (_ & Hl & _); cbn; lia). cbn [ret].
  eexists _, _. split_and!; last (do 3 f_equal; by apply slice_written).
  - destruct Hs. by split.
  - done.
Qed.

Lemma sim_get_data id d : sim (λ sh, sh !! id = Some d) (Code.get_data id) value_is (mret d).
Proof.
  intros mem k s Hs Hd. unfold Code.get_data, Code.share_to_vec, mbind, Code.sdk_bind, Code.env.
  pose proof (ready_shares _ Hs _ _ Hd) as [_ Hlen].
  destruct (place mem []) as [mem1 ptr]. cbn [call import asks]. unfold share_to_len. cbn [shares with_memory]. rewrite Hd.
  rewrite decide_False by (pose proof share_lengths; lia).
  assert (ready (with_memory mem1 s)) as Hs1 by (destruct Hs; by split).
  eapply (share_read_call id d) in Hs1 as (mem' & s' & Hs' & Hc & Hcall); [|exact Hd].
  exists s'. split_and!; [done..|]. eexists d, mem'. split; [done|]. cbn. etrans; [exact Hcall|done].
Qed.

(** *** Results through shares *)
Definition share_has (id : Z) (d : bytes) (_ : Z) : Cond := λ sh, sh !! id = Some d.
Definition share_may_have (id : Z) (d : option bytes) (v : Z) : Cond := λ sh,
  match d with Some d => v = 1%Z ∧ sh !! id = Some d | None => v = 0%Z end.
(** An import that recovers from errors: the result, or the text of an error. *)
Definition share_or_error {A} (error_id : Z) (R : A → Cond) (r : A + bytes) (v : Z) : Cond := λ sh,
  match r with inl a => v = 0%Z ∧ R a sh | inr text => v = 1%Z ∧ sh !! error_id = Some text end.
Definition always : Cond := λ _, True.
Definition anything {A B} (_ : B) (_ : A) : Cond := always.

Lemma sim_ext {A B} P (m : Code.Sdk A) (Q : B → A → Cond) h h' : (∀ x, h x = h' x) → sim P m Q h → sim P m Q h'.
Proof. intros Hh Hm mem k s Hs HP. rewrite <-!Hh. by apply Hm. Qed.
(** What the shares tell of the result. *)
Lemma sim_pre {A B} (φ : Prop) (P P' : Cond) (m : Code.Sdk A) (Q : B → A → Cond) h :
  (∀ sh, P sh → φ ∧ P' sh) → (φ → sim P' m Q h) → sim P m Q h.
Proof. intros HP Hm mem k s Hs Hsh. apply HP in Hsh as [Hφ Hsh]. by apply Hm. Qed.
(** A program that ends with what [h] has given. *)
Lemma sim_then {A A' B} P (m : Code.Sdk A) (Q : B → A → Cond) h (f : A → Code.Sdk A') (Q' : B → A' → Cond) :
  sim P m Q h → (∀ b a, sim (Q b a) (f a) Q' (mret b)) → sim P (m ≫= f) Q' h.
Proof.
  intros Hm Hf. apply (sim_ext _ _ _ (h ≫= mret)); [|by eapply sim_bind].
  intros x. unfold mbind, Meaning.act_bind, bind, mret, Meaning.act_ret, ret. by destruct (h x) as [[]?].
Qed.
Lemma sim_vec f h : sim always (f Code.null) (share_has Code.null) h → sim always (Code.vec_from_func f) value_is h.
Proof. intros Hf. eapply sim_then; [exact Hf|]. intros d v. apply sim_get_data. Qed.
Lemma sim_option_vec f h : sim always (f Code.null) (share_may_have Code.null) h →
  sim always (Code.option_vec_from_func f) value_is h.
Proof.
  intros Hf. eapply sim_then; [exact Hf|]. intros [d|] v.
  - eapply (sim_pre (v = 1%Z) _ (λ sh, sh !! Code.null = Some d)); [by intros sh|]. intros ->. rewrite decide_True by done.
    change (mret (Some d) : Meaning.Act X (option bytes)) with (mret d ≫= λ d, mret (Some d) : Meaning.Act X (option bytes)).
    eapply sim_bind; [apply sim_get_data|]. intros d1 d2. apply sim_ret. by intros sh ->.
  - eapply (sim_pre (v = 0%Z) _ always); [by intros sh|]. intros ->. by apply sim_ret.
Qed.
Lemma sim_null f (Q : unit → Z → Cond) h : sim always f Q h → sim always (Code.null_from_func f) value_is h.
Proof. intros Hf. eapply sim_then; [exact Hf|]. intros [] v. by apply sim_ret. Qed.

Lemma sim_error_aware {A} id f (R : A → Cond) (get : Code.Sdk A) m clean :
  sim always f (share_or_error id R) (Meaning.host (Meaning.recovered cfg m clean)) →
  (∀ a, sim (R a) get value_is (mret a)) →
  sim always (error ← f; Code.from_error_aware error id get) value_is (Meaning.error_aware cfg m clean).
Proof.
  intros Hf Hget. eapply sim_bind; [exact Hf|]. intros [a|text] v; unfold Code.from_error_aware.
  - eapply (sim_pre (v = 0%Z) _ (R a)); [by intros sh|]. intros ->. apply Hget.
  - eapply (sim_pre (v = 1%Z) _ (λ sh, sh !! id = Some text)); [by intros sh|]. intros ->. rewrite decide_True by done.
    apply (sim_ext _ _ _ (mret text ≫= λ text, match from_utf8 text with
      | None => throw (Meaning.Returned BadUTF8) | Some text => throw (Meaning.Returned (contract_error_from text)) end));
      [done|].
    change (sim (λ sh, sh !! id = Some text) (Code.get_data id ≫= λ text, (match from_utf8 text with
      | None => Code.fails BadUTF8 | Some text => Code.fails (contract_error_from text) end : Code.Sdk A))
      (value_is (A := A)) (mret text ≫= λ text, (match from_utf8 text with
      | None => throw (Meaning.Returned BadUTF8) | Some text => throw (Meaning.Returned (contract_error_from text)) end
      : Meaning.Act X A))).
    eapply sim_bind; [apply sim_get_data|]. intros t1 t2.
    eapply (sim_pre (t2 = t1) _ always); [by intros sh|]. intros ->. by destruct (from_utf8 t1); apply sim_fails.
Qed.

(** *** The functions of the library *)

(** A program does what [h] means, with the result of [h]. *)
Class Implements {A} (m : Code.Sdk A) (h : Meaning.Act X A) : Prop := implements : sim always m value_is h.

(** The steps of an import: its arguments are read from the memory, its calls
    of the context are those of the meaning, its results go to shares. *)
Ltac args := repeat (eapply hsim_step; [apply hsim_memory; solve [eauto]|]).
Ltac host_step := eapply hsim_bind; [first [apply hsim_context|apply hsim_result]|]; intros ? ?.
Ltac held_args :=
  let mem := fresh "mem" in let ptr := fresh "ptr" in let H := fresh "Hheld" in
  intros mem ptr H;
  try pose proof (H 0 _ eq_refl); try pose proof (H 1 _ eq_refl); try pose proof (H 2 _ eq_refl); clear H; cbn [import].

Lemma hsim_pre {A B} mem (φ : Prop) (P P' : Cond) (m : H X A) (Q : B → A → Cond) h :
  (∀ sh, P sh → φ ∧ P' sh) → (φ → hsim mem P' m Q h) → hsim mem P m Q h.
Proof. intros HP Hm s Hs Hmem Hsh. apply HP in Hsh as [Hφ Hsh]. by apply Hm. Qed.
Lemma hsim_weaken {A B} mem (P : Cond) (m : H X A) (Q Q' : B → A → Cond) h :
  hsim mem P m Q h → (∀ b a sh, Q b a sh → Q' b a sh) → hsim mem P m Q' h.
Proof.
  intros Hm HQ s Hs Hmem Hsh. destruct (Hm s Hs Hmem Hsh) as (s' & E & ? & ? & ? & Hr). exists s'. split_and!; [done..|].
  destruct (h (context s)) as [[] ?], (m s) as [[|[]] ?]; try done. by apply HQ.
Qed.
(** Where the value of the context is used, it is that of the meaning. *)
Lemma hsim_bind_same {A A' B'} mem P (m : H X A) h (f : A → H X A') (Q' : B' → A' → Cond) (g : A → M X VMError B') :
  hsim mem P m (λ b a sh, a = b ∧ P sh) h → (∀ a, hsim mem P (f a) Q' (g a)) → hsim mem P (bind m f) Q' (bind h g).
Proof.
  intros Hm Hf. eapply hsim_bind; [exact Hm|]. intros b a. eapply (hsim_pre _ (a = b) _ P); [by intros sh|].
  intros ->. apply Hf.
Qed.
(** The result of the context is the result of the import. *)
Lemma hsim_last {A} mem P (m : H X A) h : hsim mem P m (λ b a sh, a = b ∧ P sh) h → hsim mem P m value_is h.
Proof. intros Hm. eapply hsim_weaken; [exact Hm|]. by intros b a sh []. Qed.

#[export] Instance implements_bind {A B} (m : Code.Sdk A) h (f : A → Code.Sdk B) g :
  Implements m h → (∀ a, Implements (f a) (g a)) → Implements (m ≫= f) (h ≫= g).
Proof.
  intros Hm Hf. eapply sim_bind; [exact Hm|]. intros b a. eapply (sim_pre (a = b) _ always); [by intros sh ->|].
  intros ->. apply Hf.
Qed.
#[export] Instance implements_ret {A} (a : A) : Implements (mret a) (mret a).
Proof. by apply sim_ret. Qed.

#[local] Instance meaning : SdkLib (Meaning.Act X) := Meaning.sdk_meaning cfg pv.

Lemma balance_get_does a : Implements (balance_get a) (balance_get a).
Proof. apply sim_env. held_args. args. apply hsim_last, hsim_context. Qed.

(** *** Transfers *)
Lemma apply_module_does mem P : hsim mem P apply_module (λ _ _ sh, P sh) Meaning.apply_module.
Proof.
  do 3 (eapply hsim_bind_same; [apply hsim_context|intros ?]).
  eapply hsim_weaken; [apply hsim_context|]. by intros ? ? ? [].
Qed.
Lemma transfer_does mem P ptr recipient value : held mem ptr recipient →
  hsim mem P (Vm.balance_transfer (Code.len recipient) ptr value) (λ _ _ sh, P sh) (Meaning.transfer recipient value).
Proof.
  intros Hheld. eapply hsim_bind_same; [by apply hsim_asks|intros e].
  destruct (contract_address e); [|apply hsim_throw]. args.
  eapply hsim_bind_same; [apply hsim_context|intros ?]. apply apply_module_does.
Qed.
Lemma on_context_two {A B} mem P (m : M X VMError A) (n : M X VMError B) :
  hsim mem P (do! on_context m in do! on_context n in ret tt) (λ _ _ sh, P sh) (do! m in do! n in ret tt).
Proof. do 2 (eapply hsim_bind_same; [apply hsim_context|intros ?]). by apply hsim_ret. Qed.

Lemma hsim_returning {A B C} mem P (m : H X A) (h : M X VMError C) (r : B) (Q : B → A → Cond) :
  hsim mem P m (λ _ a sh, Q r a sh) h → hsim mem P m Q (do! h in ret r).
Proof.
  intros Hm s Hs Hmem HP. destruct (Hm s Hs Hmem HP) as (s' & E & ? & ? & ? & Hr). exists s'. unfold bind.
  destruct (h (context s)) as [[] ?]; cbn in *; by split_and!.
Qed.

(** *** Recovering from errors *)
Lemma recovered_does {A B} mem P (m : H X A) (R : B → A → Cond) h clean clean' id :
  id = Code.null ∨ id = Code.second → hsim mem P m R h →
  (∀ P', hsim mem P' clean' (λ _ _ sh, P' sh) clean) →
  hsim mem P (let! r := catch m in do! (if is_ok r then ret tt else clean') in make_error_aware r id)
    (share_or_error id (λ b sh, ∃ a, R b a sh)) (Meaning.recovered cfg h clean).
Proof.
  intros Hid Hm Hclean. eapply hsim_bind; [by apply hsim_catch|]. intros [b|e] [a|e']; cbn [is_ok].
  - eapply (hsim_bind _ _ _ (λ _ _ sh, R b a sh)); [by apply hsim_ret|]. intros _ _. apply hsim_ret.
    intros sh HR. split; [done|by exists a].
  - by intros s Hs Hmem Hsh.
  - by intros s Hs Hmem Hsh.
  - eapply (hsim_pre _ (e' = e) _ always); [by intros sh|]. intros ->.
    eapply (hsim_bind _ _ _ (λ _ _, always)); [apply Hclean|]. intros ? ?. destruct e as [e|e]; [apply hsim_throw|]. unfold make_error_aware.
    eapply hsim_bind; [by apply hsim_put|]. intros d ?. apply hsim_ret. intros sh [-> Hsh]. by split.
Qed.

#[export] Instance balance_transfer_does recipient value :
  Implements (balance_transfer recipient value) (balance_transfer recipient value).
Proof.
  apply (sim_null _ anything), sim_env. held_args. eapply hsim_done; [by apply transfer_does|done].
Qed.
#[export] Instance balance_transfer_ea_does recipient value :
  Implements (balance_transfer_ea recipient value) (balance_transfer_ea recipient value).
Proof.
  eapply sim_error_aware.
  - apply sim_env. held_args. eapply recovered_does; [by left|by apply transfer_does|]. intros P'. apply on_context_two.
  - intros a. destruct a; by apply sim_ret.
Qed.

(** *** Calls of other contracts *)
Lemma nested_does mem P p0 p1 p2 address method params value : held mem p0 address → held mem p1 (b method) →
  held mem p2 params →
  hsim mem P (Vm.contract_execute (Code.len address) p0 (Code.len (b method)) p1 (Code.len params) p2 value Code.null)
    (λ d _ sh, sh !! Code.null = Some d) (Meaning.nested cfg address method params value).
Proof.
  intros H0 H1 H2. unfold Vm.contract_execute, Meaning.nested. args. destruct (from_utf8 (b method)) as [m|]; [|apply hsim_throw].
  args. eapply hsim_bind_same; [apply hsim_context|intros result].
  eapply hsim_bind; [apply hsim_put; by left|]. intros d ?.
  eapply (hsim_pre _ (d = result) _ (λ sh, sh !! Code.null = Some result)); [by intros sh|]. intros ->.
  do 3 (eapply hsim_bind_same; [apply hsim_context|intros ?]).
  eapply hsim_returning, hsim_weaken; [apply hsim_context|]. by intros ? ? ? [].
Qed.
#[export] Instance contract_execute_does address method params value :
  Implements (contract_execute address method params value) (contract_execute address method params value).
Proof.
  apply sim_vec, sim_env. held_args. eapply hsim_done; [by apply nested_does|done].
Qed.
#[export] Instance contract_execute_ea_does address method params value :
  Implements (contract_execute_ea address method params value) (contract_execute_ea address method params value).
Proof.
  eapply sim_error_aware.
  - apply sim_env. held_args. eapply recovered_does; [by right|by apply nested_does|]. intros P'. apply on_context_two.
  - intros d. eapply sim_weaken; [apply sim_get_data| |done]. by intros sh [a Hsh].
Qed.

(** *** The environment, the utilities and the storage *)
#[export] Instance implements_fails {A} e : Implements (fails e : Code.Sdk A) (fails e).
Proof. apply sim_fails. Qed.
#[export] Instance implements_panics {A} : Implements (panics : Code.Sdk A) panics.
Proof. apply sim_panics. Qed.
#[export] Instance implements_result {A} (r : Prelude.result ContractError A) : Implements (of_result r) (of_result r).
Proof. destruct r; [apply sim_ret; done|apply sim_fails]. Qed.
#[export] Instance implements_expect {A} (x : option A) : Implements (expect x) (expect x).
Proof. destruct x; [by apply sim_ret|apply sim_panics]. Qed.
Lemma implements_given {A} (r : Prelude.result ContractError A) :
  Implements (Code.of_result r) (lift (map_err Meaning.Returned r)).
Proof. destruct r; [by apply sim_ret|apply sim_fails]. Qed.
Lemma implements_ext {A} (m : Code.Sdk A) h h' : (∀ x, h x = h' x) → Implements m h → Implements m h'.
Proof. apply sim_ext. Qed.

(** A reading of the environment. *)
Lemma sim_asks {A} (f : (nat → Z) → Import) (g : X → A) (Q : A → Z → Cond) (g' : State X → Z) :
  (∀ ptr, import (f ptr) = asks g') → (∀ s, ready s → Q (g (context s)) (g' s) (shares s)) →
  sim always (Code.env [] f) Q (Meaning.host (asks g)).
Proof.
  intros Hf HQ. apply sim_env. intros mem ptr _ s Hs Hmem _. rewrite Hf. exists s. cbn. split_and!; try done. by apply HQ.
Qed.
Lemma sim_optional (f : Z → Import) (g : X → option bytes) (g' : State X → option bytes) :
  (∀ id, import (f id) = bind (asks g') (λ data, option_to_share data id)) → (∀ s, g' s = g (context s)) →
  Implements (Code.option_vec_from_func (λ id, Code.env [] (λ _, f id)))
    (Meaning.host (let! data := asks g in Meaning.shared_option cfg data)).
Proof.
  intros Hf Hg. apply sim_option_vec, sim_env. intros mem ptr _. rewrite Hf.
  eapply hsim_bind_same; [by apply hsim_asks|]. intros data. apply hsim_put_option. by left.
Qed.
Lemma host_bind {A B} (m : M X VMError A) (f : A → M X VMError B) x :
  Meaning.host (bind m f) x = (Meaning.host m ≫= λ a, Meaning.host (f a)) x.
Proof. unfold Meaning.host, mbind, Meaning.act_bind, bind. by destruct (m x) as [[] ?]. Qed.

#[export] Instance context_new_does : Implements context_new context_new.
Proof.
  apply (implements_ext _ (
    number ← Meaning.host (asks (λ x, number (vm_env x)));
    timestamp ← Meaning.host (asks (λ x, timestamp (vm_env x)));
    tx_hash ← Meaning.host (let! h := asks (λ x, ce_tx_hash (vm_call_env x)) in Meaning.shared_option cfg h);
    contract ← Meaning.host (let! a := asks (λ x, contract_address (vm_contract_env x)) in Meaning.shared_option cfg a);
    sender ← Meaning.host (let! a := asks (λ x, sender_address (vm_contract_env x)) in Meaning.shared_option cfg a);
    mret {| sdk_env := {| number := number; timestamp := timestamp |}; sdk_call_env := {| ce_tx_hash := tx_hash |};
            contract_env := {| contract_address := contract; sender_address := sender |} |})).
  - intros x. cbn. unfold Meaning.new_context, Meaning.host, mbind, Meaning.act_bind, bind, asks, map_err.
    destruct (vm_env x). destruct (Meaning.shared_option cfg (ce_tx_hash (vm_call_env x)) x) as [[] x1]; [|done]. cbn.
    destruct (Meaning.shared_option cfg (contract_address (vm_contract_env x1)) x1) as [[] x2]; [|done]. cbn.
    by destruct (Meaning.shared_option cfg (sender_address (vm_contract_env x2)) x2) as [[] x3].
  - apply implements_bind; [by eapply sim_asks|intros n]. apply implements_bind; [by eapply sim_asks|intros t].
    do 3 (apply implements_bind; [by eapply sim_optional|intros ?]). apply implements_ret.
Qed.
#[export] Instance pay_value_does : Implements pay_value pay_value.
Proof.
  apply (implements_ext _ (Meaning.host (asks (λ _, pv)))); [done|].
  eapply sim_asks; [done|]. intros s Hs. apply (ready_pay _ Hs).
Qed.
#[export] Instance import_pay_does : Implements import_pay import_pay.
Proof.
  apply (sim_null _ anything), sim_env. intros mem ptr _. eapply (hsim_done _ _ _ (λ _ _, always)); [|done]. unfold pay, Meaning.payment.
  eapply hsim_bind_same; [by apply hsim_asks|intros e]. destruct (sender_address e); [|apply hsim_throw].
  destruct (contract_address e); [|apply hsim_throw].
  eapply hsim_step; [apply (hsim_own _ _ _ pv); intros; by apply ready_pay|].
  eapply (hsim_bind _ _ _ (λ _ _, always)); [|intros; apply apply_module_does]. case_decide; [|by apply hsim_ret].
  eapply hsim_weaken; [apply hsim_context|]. by intros ? ? ? [].
Qed.

Lemma hash_like_does (f : Z → Z → Z → H X unit) (f' : Z → Z → Z → Import) (g : bytes → Prelude.result VMError bytes) data :
  (∀ n p id, import (f' n p id) = done (f n p id)) →
  (∀ n p id, f n p id = (let! x := memory_to_vec n p in let! x := Vm.of_result (g x) in vec_to_share id x)) →
  Implements (Code.vec_from_func (λ id, Code.env [data] (λ ptr, f' (Code.len data) (ptr 0) id)))
    (Meaning.host (let! h := lift (g data) in Meaning.shared cfg h)).
Proof.
  intros Hi Hf. apply sim_vec, sim_env. intros mem ptr Hheld. pose proof (Hheld 0 _ eq_refl). rewrite Hi.
  eapply (hsim_done _ _ _ (λ d _ sh, sh !! Code.null = Some d)); [|done]. rewrite Hf. args.
  eapply hsim_bind_same; [apply hsim_result|intros h]. eapply hsim_weaken; [apply hsim_put; by left|]. by intros ? ? ? [-> ?].
Qed.
#[export] Instance hash_does data : Implements (hash data) (hash data).
Proof. by apply (hash_like_does util_hash). Qed.
#[export] Instance address_does data : Implements (address data) (address data).
Proof. by apply (hash_like_does util_address). Qed.

Lemma validate_does mem P ptr a : held mem ptr a →
  hsim mem P (util_validate_address (Code.len a) ptr) (λ _ _ sh, P sh) (lift (vm_validate_address a)).
Proof. intros Hheld. unfold util_validate_address. args. eapply hsim_weaken; [apply hsim_result|]. by intros ? ? ? []. Qed.
#[export] Instance validate_address_does a : Implements (validate_address a) (validate_address a).
Proof. apply (sim_null _ anything), sim_env. held_args. eapply hsim_done; [by apply validate_does|done]. Qed.
#[export] Instance validate_address_ea_does a : Implements (validate_address_ea a) (validate_address_ea a).
Proof.
  eapply (sim_error_aware _ _ (λ _ sh, ∃ u : unit, always sh)); [|intros []; by apply sim_ret].
  apply sim_env. held_args. intros s Hs Hmem Hsh.
  destruct (recovered_does mem always _ _ _ (ret tt) (ret tt) Code.null (or_introl eq_refl)
    (validate_does mem always _ a ltac:(eassumption)) ltac:(intros; by apply hsim_ret) s Hs Hmem Hsh) as (s' & Hrest).
  exists s'. revert Hrest. unfold util_validate_address_ea, bind. destruct (catch _ s) as [[r|]s1]; [|done]. by destruct (is_ok r).
Qed.

#[export] Instance emit_event_does {T} {J : Json (ContractEvent T)} n (d : T) : Implements (emit_event n d) (emit_event n d).
Proof.
  apply implements_bind; [apply implements_given|intros event]. eapply (sim_then _ _ anything); [|intros [] ?; by apply sim_ret].
  apply sim_env. held_args. eapply hsim_done; [|done]. unfold event_write. args.
  eapply hsim_weaken; [apply hsim_context|]. by instantiate (1 := anything).
Qed.
#[export] Instance storage_get_does {V} {J : Json V} key : Implements (storage_get key) (storage_get key).
Proof.
  apply implements_bind.
  - apply sim_option_vec, sim_env. held_args. unfold storage_read. args.
    eapply hsim_bind_same; [apply hsim_context|intros v]. apply hsim_put_option. by left.
  - intros [v|]; [apply implements_given|apply implements_ret].
Qed.
Lemma storage_write_does mem P kp key (value : option bytes) n vp :
  held mem kp key → (∀ v, value = Some v → n = Code.len v ∧ held mem vp v) →
  hsim mem P (storage_write (Code.len key) kp (match value with Some _ => 1 | None => 0 end)%Z n vp) (λ _ _, always) (vm_payload_set key value).
Proof.
  intros Hk Hv. unfold storage_write. args.
  eapply hsim_step; [|eapply hsim_weaken; [apply (hsim_context mem P)|done]].
  destruct value as [v|]; cbn; [|by apply hsim_ret].
  destruct (Hv v eq_refl) as [-> Hheld]. eapply hsim_step; [by apply hsim_memory|]. by apply hsim_ret.
Qed.
#[export] Instance storage_set_does {V} {J : Json V} key (v : V) : Implements (storage_set key v) (storage_set key v).
Proof.
  apply implements_bind; [apply implements_given|intros x]. apply (sim_null _ anything), sim_env. held_args.
  eapply hsim_done; [apply (storage_write_does _ _ _ _ (Some x)); [done|by intros ? [= <-]]|done].
Qed.
#[export] Instance storage_delete_does key : Implements (storage_delete key) (storage_delete key).
Proof.
  apply (sim_null _ anything), sim_env. held_args.
  eapply hsim_done; [by apply (storage_write_does _ _ _ _ None)|done].
Qed.

(** ** The contracts *)
Section Contracts.
Context {Self : Type}.

(** The methods of a contract do what those of its meaning mean. *)
Inductive method_does : ModuleMethod Code.Sdk Self → ModuleMethod (Meaning.Act X) Self → Prop :=
| method_means ident payable P O from_slice to_vec validate validate' body body' :
    match validate, validate' with
    | Some f, Some f' => ∀ self p, Implements (f self p) (f' self p)
    | None, None => True
    | _, _ => False
    end →
    (∀ self p, Implements (body self p) (body' self p)) →
    method_does (Build_ModuleMethod _ Self ident payable P O from_slice to_vec validate body)
      (Build_ModuleMethod _ Self ident payable P O from_slice to_vec validate' body').
Record contract_does (c : Contract Code.Sdk Self) (c' : Contract (Meaning.Act X) Self) : Prop := {
  new_does : Implements (new c) (new c');
  init_does : Forall2 method_does (init_methods c) (init_methods c');
  call_does : Forall2 method_does (call_methods c) (call_methods c');
}.

Lemma find_method_does ms ms' n : Forall2 method_does ms ms' →
  match find_method ms n, find_method ms' n with
  | Some m, Some m' => method_does m m'
  | None, None => True
  | _, _ => False
  end.
Proof.
  unfold find_method. induction 1 as [|m m' ms ms' Hm _ IH]; [done|]. cbn [list_find].
  assert (method_ident m = method_ident m') as -> by by destruct Hm. case_decide; [done|].
  destruct (list_find _ ms) as [[]|], (list_find _ ms') as [[]|]; done.
Qed.
#[export] Instance execute_method_does ms ms' self n p v : Forall2 method_does ms ms' →
  Implements (execute_method ms self n p v) (execute_method ms' self n p v).
Proof.
  intros Hms%(find_method_does _ _ n). unfold execute_method.
  destruct (find_method ms n), (find_method ms' n); try done; [|apply _].
  destruct Hms. cbn. repeat (case_decide || case_match); apply _.
Qed.
#[export] Instance validate_method_does ms ms' self n p v : Forall2 method_does ms ms' →
  Implements (validate_method ms self n p v) (validate_method ms' self n p v).
Proof.
  intros Hms%(find_method_does _ _ n). unfold validate_method.
  destruct (find_method ms n), (find_method ms' n); try done; [|apply _].
  destruct Hms as [ident pay Ps Out fs tv val val' body body' Hv Hb]. cbn. case_decide; [apply _|]. apply implements_bind; [apply _|intros x].
  destruct val, val'; try done; apply _.
Qed.

(** The call that a contract reads. *)
Lemma sim_read_back d : sim (λ sh, sh !! Code.null = Some d)
  (len ← Code.env [] (λ _, IShareLen Code.null); Code.share_read Code.null len) value_is (mret d).
Proof.
  intros mem k s Hs Hd. unfold mbind, Code.sdk_bind, Code.env.
  destruct (place mem []) as [mem1 ptr]. cbn [call import asks]. unfold share_to_len. cbn [shares with_memory]. rewrite Hd.
  assert (ready (with_memory mem1 s)) as Hs1 by (destruct Hs; by split).
  eapply (share_read_call Code.null d) in Hs1 as (mem' & s' & Hs' & Hc & Hcall); [|exact Hd].
  exists s'. split_and!; [done..|]. by eexists d, mem'.
Qed.
Lemma given_does (f : Import) d : (∀ mem P, hsim mem P (import f) (share_has Code.null) (Meaning.shared cfg d)) →
  Implements (_ ← Code.env [] (λ _, f); len ← Code.env [] (λ _, IShareLen Code.null); Code.share_read Code.null len)
    (Meaning.host (Meaning.shared cfg d)).
Proof. intros Hf. eapply sim_then; [by apply sim_env|]. intros d' v. apply sim_read_back. Qed.
Lemma put_own (g : State X → bytes) d mem P : (∀ s, ready s → g s = d) →
  hsim mem P (let! x := asks g in done (vec_to_share Code.null x)) (share_has Code.null) (Meaning.shared cfg d).
Proof.
  intros Hg. eapply hsim_step; [by apply (hsim_own _ _ _ d)|].
  eapply (hsim_done _ _ _ (λ x _ sh, sh !! Code.null = Some x)); [|done].
  eapply hsim_weaken; [apply hsim_put; by left|]. by intros ? ? ? [-> ?].
Qed.
#[export] Instance get_method_does : Implements Code.get_method (Meaning.given_method cfg meth).
Proof.
  change (Implements ((_ ← Code.env [] (λ _, IMethodRead Code.null); len ← Code.env [] (λ _, IShareLen Code.null);
    Code.share_read Code.null len) ≫= λ m, Code.of_result (ok_or InvalidMethod (from_utf8 m))) (Meaning.given_method cfg meth)).
  apply implements_bind; [|intros; apply implements_given]. apply given_does. intros mem P.
  apply (put_own (λ s, b (method s))). intros s Hs. by rewrite (ready_method _ Hs).
Qed.
#[export] Instance get_params_does : Implements Code.get_params (Meaning.given_params cfg prms).
Proof.
  change (Implements ((_ ← Code.env [] (λ _, IParamsRead Code.null); len ← Code.env [] (λ _, IShareLen Code.null);
    Code.share_read Code.null len) ≫= λ p, mret (if decide (length p = 0) then b "null" else p)) (Meaning.given_params cfg prms)).
  apply implements_bind; [|intros; apply implements_ret]. apply given_does. intros mem P.
  apply (put_own params). intros s Hs. apply (ready_params _ Hs).
Qed.
End Contracts.
End Simulation.

(** ** A contract runs as it means *)
Section Running.
Context {TC : Toolchain} {TL : ToolchainLaws} {WL : WasmLib} {X : Type} {VC : VMContext X} {Self : Type}.
Variables (cfg : VMConfig) (pv : Balance).
Context {SL : ShareLimits cfg}.
Variables (c : Contract Code.Sdk Self) (c' : Contract (Meaning.Act X) Self).

(** The methods of the mode. *)
Definition mode_methods {F} (mode : Mode) (c : Contract F Self) : list (ModuleMethod F Self) :=
  match mode with ModeInit => init_methods c | ModeCall => call_methods c end.

Lemma start_ready meth prms (x : X) : ready cfg meth prms pv None (Build_State cfg [] ∅ x meth prms pv None).
Proof. by split. Qed.

(** Setting the result, or returning the error. *)
Lemma result_call meth prms res (s : State X) result mem : ready cfg meth prms pv res s →
  ∃ s', call ((_ ← Code.env [result] (λ ptr, IResultWrite (Code.len result) (ptr 0)); mret tt) mem Code.set_result) s =
    (Ok tt, s') ∧ context s' = context s ∧ result_ s' = Some result.
Proof.
  intros Hs. unfold mbind, Code.sdk_bind, Code.env. pose proof (place_held mem [result] 0 result eq_refl) as (Hp & Hl & Hx).
  destruct (place mem [result]) as [mem1 ptr]. cbn [call import fst snd] in *.
  unfold done, result_write, memory_to_vec, bind, Code.len, modify. rewrite decide_True by done. cbn [ret].
  rewrite Nat2Z.id. cbn in Hx. eexists. split_and!; [done..|]. cbn. by f_equal.
Qed.
Lemma error_call (s : State X) e mem : ∃ s', context s' = context s ∧ call (Code.set_result (Err e) mem) s =
  (Err match from_utf8 (b (contract_error_text e)) with
       | None => contract_error BadUTF8 | Some msg => contract_error (contract_error_from msg) end, s').
Proof.
  unfold Code.set_result, Code.env. set (text := b (contract_error_text e)).
  pose proof (place_held mem [text] 0 text eq_refl) as (Hp & Hl & Hx).
  destruct (place mem [text]) as [mem1 ptr]. cbn [call import fst snd] in *.
  unfold done, error_return, memory_to_vec, bind, Code.len. rewrite decide_True by done.
  rewrite Nat2Z.id. cbn [memory with_memory]. unfold slice in Hx. rewrite Hx. destruct (from_utf8 text); by eexists (with_memory mem1 s).
Qed.

(** A call whose continuation sets a result, or returns the error. *)
Lemma exported_does {A} meth prms (m : Code.Sdk A) (h : Meaning.Act X A) (k : Prelude.result ContractError A → bytes → Prog)
    (out : A → option bytes) x :
  Implements cfg meth prms pv None m h →
  (∀ a mem s, ready cfg meth prms pv None s → ∃ s', call (k (Ok a) mem) s = (Ok tt, s') ∧
    context s' = context s ∧ result_ s' = out a) →
  (∀ e mem, k (Err e) mem = Code.set_result (Err e) mem) →
  (let '(r, s') := call (m initial_memory k) (Build_State cfg [] ∅ x meth prms pv None) in
   (match r with Ok _ => Ok (default (b "null") (result_ s')) | Err e => Err e end, context s')) =
  (let! a := Meaning.reported h in ret (default (b "null") (out a))) x.
Proof.
  intros Hm Hk Herr. set (s0 := Build_State _ _ _ _ _ _ _ _).
  destruct (Hm initial_memory k s0 (start_ready meth prms x) I) as (s1 & Hs1 & Hc & Hr).
  unfold bind, Meaning.reported. cbn [context s0] in *. destruct (h x) as [[a|[e|e]] x1]; cbn [fst snd map_err] in Hc, Hr |- *.
  - destruct Hr as (a' & mem & -> & ->). destruct (Hk a mem s1 Hs1) as (s2 & -> & Hc2 & Hr2). by rewrite Hc2, Hc, Hr2.
  - by rewrite Hr, Hc.
  - destruct Hr as (mem & ->). rewrite Herr. destruct (error_call s1 e mem) as (s2 & Hc2 & ->). by rewrite Hc2, Hc.
Qed.

(** The module that a provider's code compiles to is the contract. *)
Definition compiles_to (code : VMCodeProvider X) : Prop :=
  ∀ x m x', compile cfg code x = (Ok m, x') → ∀ func, instance_call m func = Code.exports c func.
(** The run of a machine, up to the call of the instance. *)
Definition prepared (code : VMCodeProvider X) : M X VMError unit :=
  do! compile cfg code in lift (map_err wasm_error (memory_new cfg)).

(** The exports of the two modes. *)
Definition set_output (r : Prelude.result ContractError bytes) (mem : bytes) : Prog :=
  match r with
  | Ok result => (_ ← Code.env [result] (λ ptr, IResultWrite (Code.len result) (ptr 0)); mret tt) mem Code.set_result
  | Err e => Code.set_result (Err e) mem
  end.
Lemma exports_execute mode :
  Code.exports c (match mode with ModeInit => "execute_init" | ModeCall => "execute_call" end) =
  (method ← Code.get_method; params ← Code.get_params; value ← Code.get_pay_value; self ← new c;
   execute_method (mode_methods mode c) self method params value) initial_memory set_output.
Proof. by destruct mode. Qed.
Lemma exports_validate mode :
  Code.exports c (match mode with ModeInit => "validate_init" | ModeCall => "validate_call" end) =
  (method ← Code.get_method; params ← Code.get_params; value ← Code.get_pay_value; self ← new c;
   validate_method (mode_methods mode c) self method params value) initial_memory Code.set_result.
Proof. by destruct mode. Qed.

(** The call with its arguments, in a machine that is ready. *)
Lemma call_reads {A} meth prms (f : Self → string → bytes → Balance → Code.Sdk A) g :
  Implements cfg meth prms pv None (new c) (new c') →
  (∀ self n p v, Implements cfg meth prms pv None (f self n p v) (g self n p v)) →
  Implements cfg meth prms pv None
    (method ← Code.get_method; params ← Code.get_params; value ← Code.get_pay_value; self ← new c; f self method params value)
    (method ← Meaning.given_method cfg meth; params ← Meaning.given_params cfg prms; self ← new c'; g self method params pv).
Proof.
  intros Hnew Hf. apply implements_bind; [by apply get_method_does|intros n].
  apply implements_bind; [by apply get_params_does|intros p].
  apply (implements_ext _ _ _ _ _ _ ((mret pv : Meaning.Act X Balance) ≫= λ v, self ← new c'; g self n p v)); [done|].
  apply implements_bind; [exact (pay_value_does cfg meth prms pv None)|intros v].
  apply implements_bind; [exact Hnew|intros self; apply Hf].
Qed.

#[local] Instance running_meaning : SdkLib (Meaning.Act X) := Meaning.sdk_meaning cfg pv.
Hypothesis the_contract : ∀ meth prms, contract_does cfg meth prms pv None c c'.

Lemma executing_does mode meth prms : Implements cfg meth prms pv None
  (method ← Code.get_method; params ← Code.get_params; value ← Code.get_pay_value; self ← new c;
   execute_method (mode_methods mode c) self method params value)
  (method ← Meaning.given_method cfg meth; params ← Meaning.given_params cfg prms; self ← new c';
   execute_method (mode_methods mode c') self method params pv).
Proof.
  destruct (the_contract meth prms) as [Hnew Hi Hc]. apply (call_reads _ _ (execute_method _) (execute_method _)); [done|].
  intros. apply execute_method_does; by destruct mode.
Qed.
Lemma validating_does mode meth prms : Implements cfg meth prms pv None
  (method ← Code.get_method; params ← Code.get_params; value ← Code.get_pay_value; self ← new c;
   validate_method (mode_methods mode c) self method params value)
  (method ← Meaning.given_method cfg meth; params ← Meaning.given_params cfg prms; self ← new c';
   validate_method (mode_methods mode c') self method params pv).
Proof.
  destruct (the_contract meth prms) as [Hnew Hi Hc]. apply (call_reads _ _ (validate_method _) (validate_method _)); [done|].
  intros. apply validate_method_does; by destruct mode.
Qed.

Ltac compiled Hcode :=
  let E := fresh in
  unfold Vm.execute, Vm.validate, run, prepared, bind;
  match goal with |- context [compile cfg ?code ?x] => destruct (compile cfg code x) as [[?|?] x1] eqn:E; [|done] end;
  specialize (Hcode _ _ _ E); unfold lift; destruct (map_err wasm_error (memory_new cfg)) as [[]|?]; [|done].
Lemma execute_means code mode meth prms x : compiles_to code →
  Vm.execute cfg code mode meth prms pv x =
  (do! prepared code in Meaning.executed cfg pv meth prms c' (mode_methods mode c')) x.
Proof.
  intros Hcode. compiled Hcode. rewrite Hcode, exports_execute.
  rewrite (exported_does meth prms _ _ _ Some x1 (executing_does mode meth prms)); [|intros; by eapply result_call|done].
  unfold bind, ret, Meaning.executed. by destruct (Meaning.reported _ x1) as [[] ?].
Qed.
Lemma validate_means code mode meth prms x : compiles_to code →
  Vm.validate cfg code mode meth prms pv x =
  (do! prepared code in Meaning.validated cfg pv meth prms c' (mode_methods mode c')) x.
Proof.
  intros Hcode. compiled Hcode. rewrite Hcode, exports_validate.
  pose proof (exported_does meth prms _ _ Code.set_result (λ _, None) x1 (validating_does mode meth prms)
    ltac:(intros ? ? s ?; exists s; split_and!; [done..|by eapply ready_result]) ltac:(done)) as Hrun. revert Hrun.
  destruct (call _ _) as [r s']. unfold bind, ret, Meaning.validated.
  destruct (Meaning.reported _ x1) as [[[]|] ?]; intros [= -> ->]; done.
Qed.

(** C3: a contract that is written with the library, and compiled by its
    macro, runs as it means: its execution by the machine, with the arguments,
    results and errors that go through memory, shares and texts, is the
    dispatch of the call to its method on the context, and leaves the same
    context, for every call, result and error.  The bodies of its methods are
    made of the functions of the library, each of which does on the machine what
    it means on the context, reads of the storage included, where a stored
    [null] is no value ([contract_does], which holds for every such body by
    composition).  The machine lets a share be addressed in 32 bits and has
    room for two of them, and what is placed in memory is held there. *)
Theorem contract_runs code mode meth prms x : compiles_to code →
  Vm.execute cfg code mode meth prms pv x =
    (do! prepared code in Meaning.executed cfg pv meth prms c' (mode_methods mode c')) x ∧
  Vm.validate cfg code mode meth prms pv x =
    (do! prepared code in Meaning.validated cfg pv meth prms c' (mode_methods mode c')) x.
Proof. intros Hcode. split; [by apply execute_means|by apply validate_means]. Qed.
End Running.

(** An error that an error-aware function recovers from reaches the contract
    as a user error with its text, whichever it is. *)
Lemma recovered_errors_are_texts : Forall (λ e,
  contract_error_from (vm_error_text (AContractError e)) = CUser ("ContractError: " +:+ contract_error_text e))
  plain_errors.
Proof. repeat (apply Forall_cons; split; [vm_compute; reflexivity|]). constructor. Qed.
