(* ===== verification/ContractVm.v ===== *)
(** * ContractVm

    [core/module/contract/src/vm.rs]: the context in which a contract runs.
    Its writes and events go to buffers that the contexts of nested contracts
    and of the modules they call share by reference: the buffers, and the
    cells that hold nested contexts, are a store, and a context is made of
    places in it. *)
From S2P Require Import Prelude Codec Types Context Dispatch Balance Vm.
Import Vm.

Module ContractVm.

Definition CONTRACT_DATA_STORAGE_KEY : bytes := b "contract_data".
(** [Module::META_MODULE] and [Module::STORAGE_KEY] of [lib.rs] *)
Definition META_MODULE : bool := false.
Definition STORAGE_KEY : bytes := b "contract".

(** ** Errors *)

(** [fn vm_to_module_error] and [fn module_to_vm_error] of [lib.rs] *)
Definition vm_to_module_error (e : VMError) : ModuleError :=
  match e with
  | VSystem e => System e
  | VApplication e => App (User (vm_error_text e))
  end.
Definition module_to_vm_error (e : ModuleError) : VMError :=
  match e with
  | System e => VSystem e
  | App (InvalidAddress _) => contract_error CInvalidAddress
  | App Unsigned => contract_error CUnsigned
  | App (User msg) => contract_error (CUser msg)
  end.

(** ** The store *)

(** A buffer of each of the three stacks: they are always pushed together. *)
Record Level := {
  meta_buffer : gmap DBKey (option DBValue);
  payload_buffer : gmap DBKey (option DBValue);
  level_events : list Event;
}.
Definition empty_level : Level := {| meta_buffer := ∅; payload_buffer := ∅; level_events := [] |}.

(** The buffers of a [StackedExecutorContext], which is never empty: the last
    one, and those below it in order. *)
Record Stack := {
  older : list nat;
  top : nat;
}.
Definition stack_len (s : Stack) : nat := S (length (older s)).
(** [self.payload_buffer_stack.get(len - 2)] *)
Definition second_last (s : Stack) : option nat := last (older s).

(** [struct DefaultVMContext]; the last field is the [RefCell] of the nested
    context. *)
Record DefaultVMContext := {
  contract_env : VMContractEnv;
  base_context : Stack;
  module_context : Stack;
  nested_vm_context : nat;
}.

Section World.
Context {C : Type} `{CX : Context C}.

Record World := {
  executor_context : C;
  levels : gmap nat Level;
  next_level : nat;
  cells : gmap nat DefaultVMContext;
  next_cell : nat;
}.

Definition with_executor (x : C) (w : World) : World :=
  {| executor_context := x; levels := levels w; next_level := next_level w; cells := cells w;
     next_cell := next_cell w |}.
Definition with_levels (x : gmap nat Level) (w : World) : World :=
  {| executor_context := executor_context w; levels := x; next_level := next_level w; cells := cells w;
     next_cell := next_cell w |}.
Definition with_cells (x : gmap nat DefaultVMContext) (w : World) : World :=
  {| executor_context := executor_context w; levels := levels w; next_level := next_level w; cells := x;
     next_cell := next_cell w |}.

(** [Rc::new(RefCell::new(..))] of a level, and of an empty cell *)
Definition alloc_level : M World VMError nat := λ w,
  (Ok (next_level w),
   {| executor_context := executor_context w; levels := <[next_level w := empty_level]> (levels w);
      next_level := S (next_level w); cells := cells w; next_cell := next_cell w |}).
Definition alloc_cell : M World VMError nat := λ w,
  (Ok (next_cell w),
   {| executor_context := executor_context w; levels := levels w; next_level := next_level w;
      cells := cells w; next_cell := S (next_cell w) |}).

Definition get_level (i : nat) (w : World) : Level := default empty_level (levels w !! i).
Definition set_level (i : nat) (l : Level) (w : World) : World := with_levels (<[i := l]> (levels w)) w.

(** A call of the executor's context. *)
Definition on_executor {E A} (m : M C E A) : M World E A := λ w,
  let '(r, c) := m (executor_context w) in (r, with_executor c w).

(** ** [StackedExecutorContext] *)

(** [StackedExecutorContext::new] and [derive] *)
Definition stacked_new : M World VMError Stack :=
  let! i := alloc_level in ret {| older := []; top := i |}.
Definition derive (s : Stack) : M World VMError Stack :=
  let! i := alloc_level in ret {| older := older s ++ [top s]; top := i |}.

(** The binding of a key in the last buffer that has one. *)
Definition find_level (buffer : Level → gmap DBKey (option DBValue)) (key : DBKey) (s : Stack) (w : World) :
    option (option DBValue) :=
  head (omap (λ i, buffer (get_level i w) !! key) (top s :: reverse (older s))).

Definition with_meta (x : gmap DBKey (option DBValue)) (l : Level) : Level :=
  {| meta_buffer := x; payload_buffer := payload_buffer l; level_events := level_events l |}.
Definition with_payload (x : gmap DBKey (option DBValue)) (l : Level) : Level :=
  {| meta_buffer := meta_buffer l; payload_buffer := x; level_events := level_events l |}.
Definition with_level_events (x : list Event) (l : Level) : Level :=
  {| meta_buffer := meta_buffer l; payload_buffer := payload_buffer l; level_events := x |}.

(** [extend] *)
Definition extend (items : Updates) (m : gmap DBKey (option DBValue)) : gmap DBKey (option DBValue) :=
  foldl (λ m kv, <[kv.1 := kv.2]> m) m items.

Definition update_level (i : nat) (f : Level → Level) (w : World) : World := set_level i (f (get_level i w)) w.

(** [impl Context for StackedExecutorContext]; [apply_events], which the
    interface of the modules does not have, is below. *)
Definition stacked_context (s : Stack) : Context World := {|
  env w := env (executor_context w);
  call_env w := call_env (executor_context w);
  meta_get key w :=
    match find_level meta_buffer key s w with
    | Some value => (Ok value, w)
    | None => on_executor (meta_get key) w
    end;
  meta_set key value w :=
    (Ok tt, update_level (top s) (λ l, with_meta (<[key := value]> (meta_buffer l)) l) w);
  meta_drain_tx_buffer w :=
    (Ok (map_to_list (meta_buffer (get_level (top s) w))), update_level (top s) (with_meta ∅) w);
  meta_apply items w :=
    match second_last s with
    | Some i => (Ok tt, update_level i (λ l, with_meta (extend items (meta_buffer l)) l) w)
    | None => for_each (λ '(k, v), on_executor (meta_set k v)) items w
    end;
  payload_get key w :=
    match find_level payload_buffer key s w with
    | Some value => (Ok value, w)
    | None => on_executor (payload_get key) w
    end;
  payload_set key value w :=
    (Ok tt, update_level (top s) (λ l, with_payload (<[key := value]> (payload_buffer l)) l) w);
  payload_drain_tx_buffer w :=
    (Ok (map_to_list (payload_buffer (get_level (top s) w))), update_level (top s) (with_payload ∅) w);
  payload_apply items w :=
    match second_last s with
    | Some i => (Ok tt, update_level i (λ l, with_payload (extend items (payload_buffer l)) l) w)
    | None => for_each (λ '(k, v), on_executor (payload_set k v)) items w
    end;
  emit_event event w := (Ok tt, update_level (top s) (λ l, with_level_events (level_events l ++ [event]) l) w);
  drain_tx_events w :=
    (Ok (level_events (get_level (top s) w)), update_level (top s) (with_level_events []) w);
|}.
Definition stacked_apply_events (s : Stack) (items : list Event) : M World ModuleError unit := λ w,
  match second_last s with
  | Some i => (Ok tt, update_level i (λ l, with_level_events (level_events l ++ items) l) w)
  | None => for_each (λ item, on_executor (emit_event item)) items w
  end.

(** ** [DefaultVMContext] *)
Context {SC : Scale} {UT : Util} {SE : Serialize Balance.Transferred} {WL : WasmLib}.
Variable config : VMConfig.

(** [.map_err(module_to_vm_error)] *)
Definition in_vm {A} (m : M World ModuleError A) : M World VMError A := λ w,
  let '(r, w) := m w in (map_err module_to_vm_error r, w).
(** [.map_err(vm_to_module_error)] *)
Definition in_module {A} (m : M World VMError A) : M World ModuleError A := λ w,
  let '(r, w) := m w in (map_err vm_to_module_error r, w).

Definition new_with_base_context (contract_env : VMContractEnv) (base_context : Stack) :
    M World VMError DefaultVMContext :=
  let! module_context := derive base_context in
  let! nested_vm_context := alloc_cell in
  ret {| contract_env := contract_env; base_context := base_context; module_context := module_context;
         nested_vm_context := nested_vm_context |}.
(** [DefaultVMContext::new] *)
Definition vm_context_new (contract_env : VMContractEnv) : M World VMError DefaultVMContext :=
  let! base_context := stacked_new in
  new_with_base_context contract_env base_context.

(** The maps of the contract module. *)
Definition version : StorageMap Address Z := sm_new sc_bytes sc_u32 META_MODULE STORAGE_KEY (b "version").
Definition code : StorageMap (Address * Z) bytes :=
  sm_new (sc_pair sc_bytes sc_u32) sc_bytes META_MODULE STORAGE_KEY (b "code").
Definition code_hash : StorageMap (Address * Z) Hash :=
  sm_new (sc_pair sc_bytes sc_u32) sc_bytes META_MODULE STORAGE_KEY (b "code_hash").

(** [inner_get_version], [inner_get_code_hash] and [inner_get_code], which
    [lib.rs] has as well: they read the executor's context. *)
Definition inner_get_version (contract_address : Address) (v : option Z) : M C ModuleError (option Z) :=
  match v with
  | Some v => ret (Some v)
  | None => sm_get version contract_address
  end.
Definition inner_get_code_hash (contract_address : Address) (v : option Z) : M C ModuleError (option Hash) :=
  let! v := inner_get_version contract_address v in
  match v with
  | Some v => raw_get code_hash (encode (sc_pair sc_bytes sc_u32) (contract_address, v))
  | None => ret None
  end.
Definition inner_get_code (contract_address : Address) (v : option Z) : M C ModuleError (option bytes) :=
  let! v := inner_get_version contract_address v in
  match v with
  | Some v => raw_get code (encode (sc_pair sc_bytes sc_u32) (contract_address, v))
  | None => ret None
  end.

(** The provider of the code of a contract that is called. *)
Definition code_provider (not_found : VMError) (contract_address : Address) (code_hash : Hash) :
    VMCodeProvider World := {|
  provide_code_hash := code_hash;
  provide_code :=
    let! code := in_vm (on_executor (inner_get_code contract_address None)) in
    lift (ok_or not_found code);
|}.

Section Context.
Variable self : DefaultVMContext.

Definition vm_to_module_key (key : bytes) : M World VMError DBKey :=
  match contract_address (contract_env self) with
  | None => throw (contract_error ContractAddressNotFound)
  | Some contract_address =>
      let! key := in_vm (lift (Context.util_hash (contract_address ++ SEPARATOR ++ key))) in
      ret (STORAGE_KEY ++ SEPARATOR ++ CONTRACT_DATA_STORAGE_KEY ++ SEPARATOR ++ key)
  end.

Definition base : Context World := stacked_context (base_context self).
Definition modules : Context World := stacked_context (module_context self).

(** The nested context: made for the first contract that is called, and kept. *)
Definition get_nested (address : Address) : M World VMError DefaultVMContext :=
  let! nested := asks (λ w, cells w !! nested_vm_context self) in
  match nested with
  | Some nested => ret nested
  | None =>
      let next_nest_depth := u32 (u32 (Z.of_nat (stack_len (base_context self))) + 1) in
      if decide (next_nest_depth > max_nest_depth config)%Z then throw (contract_error NestDepthExceeded)
      else
        let! base_context := derive (base_context self) in
        let contract_env := {| contract_address := Some address;
                               sender_address := contract_address (contract_env self) |} in
        let! vm_context := new_with_base_context contract_env base_context in
        do! modify (λ w, with_cells (<[nested_vm_context self := vm_context]> (cells w)) w) in
        ret vm_context
  end.

(** [.borrow().as_ref().expect("qed")]: without a nested context this is a
    panic of the import. *)
Definition the_nested : M World VMError DefaultVMContext :=
  let! nested := asks (λ w, cells w !! nested_vm_context self) in
  lift (ok_or panic_error nested).
End Context.

(** [impl VMContext for DefaultVMContext], and for its clonable pointer; the
    fuel bounds the nesting of the contexts. *)
Fixpoint vm_context (fuel : nat) (self : DefaultVMContext) : VMContext World := {|
  vm_env w := env (executor_context w);
  vm_call_env w := call_env (executor_context w);
  vm_contract_env _ := contract_env self;
  vm_payload_get key :=
    let! key := vm_to_module_key self key in in_vm (payload_get (Context := base self) key);
  vm_payload_set key value :=
    let! key := vm_to_module_key self key in in_vm (payload_set (Context := base self) key value);
  vm_payload_drain_buffer := in_vm (payload_drain_tx_buffer (Context := base self));
  vm_payload_apply items := in_vm (payload_apply (Context := base self) items);
  vm_emit_event event := in_vm (emit_event (Context := base self) event);
  vm_drain_events := in_vm (drain_tx_events (Context := base self));
  vm_apply_events items := in_vm (stacked_apply_events (base_context self) items);
  vm_hash data := map_err module_to_vm_error (Context.util_hash data);
  vm_address data := map_err module_to_vm_error (Context.util_address data);
  vm_validate_address address := map_err module_to_vm_error (Context.validate_address address);
  module_balance_get address := in_vm (Balance.get_balance (H := modules self) (Some address) tt);
  module_balance_transfer sender recipient value :=
    let params := {| Balance.recipient := recipient; Balance.value := value |} in
    do! in_vm (Balance.validate_transfer (Some sender) params) in
    in_vm (Balance.transfer (H := modules self) (Some sender) params);
  module_payload_drain_buffer := in_vm (payload_drain_tx_buffer (Context := modules self));
  module_payload_apply items := in_vm (payload_apply (Context := base self) items);
  module_drain_events := in_vm (drain_tx_events (Context := modules self));
  module_apply_events items := in_vm (stacked_apply_events (module_context self) items);
  nested_vm_contract_execute address method params pay_value :=
    let! nested := get_nested self address in
    let! code_hash := in_vm (on_executor (inner_get_code_hash address None)) in
    let! code_hash := lift (ok_or (contract_error NestedContractNotFound) code_hash) in
    match fuel with
    | O => throw (contract_error NestDepthExceeded)
    | S fuel =>
        Vm.execute (VC := vm_context fuel nested) config
          (code_provider (contract_error NestedContractNotFound) address code_hash)
          ModeCall method params pay_value
    end;
  nested_vm_payload_drain_buffer :=
    let! nested := the_nested self in in_vm (payload_drain_tx_buffer (Context := base nested));
  nested_vm_payload_apply items :=
    let! nested := the_nested self in in_vm (payload_apply (Context := base nested) items);
  nested_vm_drain_events :=
    let! nested := the_nested self in in_vm (drain_tx_events (Context := base nested));
  nested_vm_apply_events items :=
    let! nested := the_nested self in in_vm (stacked_apply_events (base_context nested) items);
|}.

(** Every nested context is one level deeper, up to the greatest depth. *)
Definition nest_fuel : nat := Z.to_nat (max_nest_depth config).
End World.
Arguments World : clear implicits.
End ContractVm.
