(* ===== verification/ContractModule.v ===== *)
(** * ContractModule

    [core/module/contract/src/lib.rs]: the module that keeps the contracts,
    with the administration of each, and runs them. *)
From S2P Require Import Prelude Codec Types Context Voting Dispatch Balance Vm ContractVm.

Module ContractModule.
Import ContractVm.

Record InitParams := {
  ip_max_stack_height : option Z;
  ip_initial_memory_pages : option Z;
  ip_max_memory_pages : option Z;
  ip_max_share_value_len : option Z;
  ip_max_share_size : option Z;
  ip_max_nest_depth : option Z;
}.

Record CreateParams := {
  cp_code : bytes;
  cp_init_method : string;
  cp_init_params : bytes;
  cp_init_pay_value : Balance;
}.
Record ExecuteParams := {
  ep_contract_address : Address;
  ep_method : string;
  ep_params : bytes;
  ep_pay_value : Balance;
}.
Record GetVersionParams := { gv_contract_address : Address }.
Record GetAdminParams := { ga_contract_address : Address }.
Record GetCodeParams := { gc_contract_address : Address; gc_version : option Z }.
Record GetCodeHashParams := { gh_contract_address : Address; gh_version : option Z }.
Record UpdateAdminParams := { ua_contract_address : Address; ua_admin : Admin }.
Record UpdateAdminVoteParams := { uav_contract_address : Address; uav_proposal_id : Z }.
Record UpdateCodeParams := { uc_contract_address : Address; uc_code : bytes }.
Record UpdateCodeVoteParams := { ucv_contract_address : Address; ucv_proposal_id : Z }.

Definition UpdateAdminProposal : Type := Proposal Admin.
Definition UpdateCodeProposal : Type := Proposal bytes.
(** [struct UpdateCodeProposalForEvent]: the hash of the code for the code *)
Definition UpdateCodeProposalForEvent : Type := Proposal Hash.
Definition for_event (proposal : UpdateCodeProposal) (code_hash : Hash) : UpdateCodeProposalForEvent :=
  {| proposal_id := proposal_id proposal; content := code_hash; vote := vote proposal |}.

(** The data of the events: [UpdateAdminProposalCreated], ... *)
Record ContractProposal (P : Type) := {
  cpr_contract_address : Address;
  cpr_proposal : Proposal P;
}.
Arguments Build_ContractProposal {P}. Arguments cpr_contract_address {P}. Arguments cpr_proposal {P}.

Section Module.
Context {SC : Scale} {UT : Util} {WL : Vm.WasmLib}.
Context {SB : Serialize Balance.Transferred}.
Context {SA : Serialize (ContractProposal Admin)} {SQ : Serialize (ContractProposal Hash)}.
Context {C : Type} `{CX : Context C}.

(** *** [Module::new]; the maps [version], [code] and [code_hash] are those of
    [ContractVm]. *)
Definition max_stack_height : StorageValue (option Z) :=
  sv_new (sc_option sc_u32) META_MODULE STORAGE_KEY (b "max_stack_height").
Definition initial_memory_pages : StorageValue (option Z) :=
  sv_new (sc_option sc_u32) META_MODULE STORAGE_KEY (b "initial_memory_pages").
Definition max_memory_pages : StorageValue (option Z) :=
  sv_new (sc_option sc_u32) META_MODULE STORAGE_KEY (b "max_memory_pages").
Definition max_share_value_len : StorageValue (option Z) :=
  sv_new (sc_option sc_u64) META_MODULE STORAGE_KEY (b "max_share_value_len").
Definition max_share_size : StorageValue (option Z) :=
  sv_new (sc_option sc_u64) META_MODULE STORAGE_KEY (b "max_share_size").
Definition max_nest_depth : StorageValue (option Z) :=
  sv_new (sc_option sc_u32) META_MODULE STORAGE_KEY (b "max_nest_depth").

Definition admin : StorageMap Address Admin := sm_new sc_bytes codec_admin META_MODULE STORAGE_KEY (b "admin").
Definition update_admin_proposal_id : StorageMap Address Z :=
  sm_new sc_bytes sc_u32 META_MODULE STORAGE_KEY (b "update_admin_proposal_id").
Definition update_admin_proposal : StorageMap Address UpdateAdminProposal :=
  sm_new sc_bytes (codec_proposal codec_admin) META_MODULE STORAGE_KEY (b "update_admin_proposal").
Definition update_code_proposal_id : StorageMap Address Z :=
  sm_new sc_bytes sc_u32 META_MODULE STORAGE_KEY (b "update_code_proposal_id").
Definition update_code_proposal : StorageMap Address UpdateCodeProposal :=
  sm_new sc_bytes (codec_proposal sc_bytes) META_MODULE STORAGE_KEY (b "update_code_proposal").

(** *** The virtual machine *)

(** A value of the configuration, or its default. *)
Definition config_value (v : StorageValue (option Z)) (default_value : Z) : M C ModuleError Z :=
  let! value := sv_get v in
  let! value := lift (ok_or (user_error "Unexpected none") value) in
  ret (default default_value value).
Definition inner_get_vm_config : M C ModuleError Vm.VMConfig :=
  let default_vm_config := Vm.default_config in
  let! stack_height := config_value max_stack_height (Vm.max_stack_height default_vm_config) in
  let! initial_pages := config_value initial_memory_pages (Vm.initial_memory_pages default_vm_config) in
  let! memory_pages := config_value max_memory_pages (Vm.max_memory_pages default_vm_config) in
  let! share_value_len := config_value max_share_value_len (Vm.max_share_value_len default_vm_config) in
  let! share_size := config_value max_share_size (Vm.max_share_size default_vm_config) in
  let! nest_depth := config_value max_nest_depth (Vm.max_nest_depth default_vm_config) in
  ret {| Vm.max_stack_height := stack_height; Vm.initial_memory_pages := initial_pages;
         Vm.max_memory_pages := memory_pages; Vm.max_share_value_len := share_value_len;
         Vm.max_share_size := share_size; Vm.max_nest_depth := nest_depth |}.

(** A run in a store of its own around the context of the module. *)
Definition in_world {A} (m : M (World C) ModuleError A) : M C ModuleError A := λ c,
  let '(r, w) := m {| executor_context := c; levels := ∅; next_level := 0; cells := ∅; next_cell := 0 |} in
  (r, executor_context w).

Definition inner_vm_validate (sender_address contract_address : option Address)
    (code : Vm.VMCodeProvider (World C)) (mode : Vm.Mode) (method : string) (params : bytes)
    (pay_value : Balance) : M C ModuleError unit :=
  let contract_env := {| Vm.contract_address := contract_address; Vm.sender_address := sender_address |} in
  let! vm_config := inner_get_vm_config in
  in_world
    (let! context := in_module (vm_context_new contract_env) in
     in_module (Vm.validate (VC := vm_context vm_config (nest_fuel vm_config) context)
                  vm_config code mode method params pay_value)).

(** After a success the writes and the events go to the module's context: the
    calls of [vm_context], with the conversions of their errors. *)
Definition settle (context : DefaultVMContext) (result : ModuleResult bytes) : M (World C) ModuleError bytes :=
  match result with
  | Ok result =>
      let! items := in_module (in_vm (payload_drain_tx_buffer (Context := base context))) in
      do! in_module (in_vm (payload_apply (Context := base context) items)) in
      let! items := in_module (in_vm (drain_tx_events (Context := base context))) in
      do! in_module (in_vm (stacked_apply_events (base_context context) items)) in
      ret result
  | Err e =>
      do! in_module (in_vm (payload_drain_tx_buffer (Context := base context))) in
      do! in_module (in_vm (drain_tx_events (Context := base context))) in
      throw e
  end.

Definition inner_vm_execute (sender_address contract_address : option Address)
    (code : Vm.VMCodeProvider (World C)) (mode : Vm.Mode) (method : string) (params : bytes)
    (pay_value : Balance) : M C ModuleError bytes :=
  let contract_env := {| Vm.contract_address := contract_address; Vm.sender_address := sender_address |} in
  let! vm_config := inner_get_vm_config in
  in_world
    (let! context := in_module (vm_context_new contract_env) in
     let! result := λ w,
       let '(r, w) := in_module (Vm.execute (VC := vm_context vm_config (nest_fuel vm_config) context)
                                   vm_config code mode method params pay_value) w in (Ok r, w) in
     settle context result).

(** The code that is given. *)
Definition given_code (code : bytes) (code_hash : Hash) : Vm.VMCodeProvider (World C) :=
  {| Vm.provide_code_hash := code_hash; Vm.provide_code := ret code |}.

(** *** The calls *)
Definition init (_sender : option Address) (params : InitParams) : M C ModuleError unit :=
  let! e := asks env in
  if decide (number e ≠ 0%Z) then throw (user_error "Not genesis")
  else
    do! sv_set max_stack_height (ip_max_stack_height params) in
    do! sv_set initial_memory_pages (ip_initial_memory_pages params) in
    do! sv_set max_memory_pages (ip_max_memory_pages params) in
    do! sv_set max_share_value_len (ip_max_share_value_len params) in
    do! sv_set max_share_size (ip_max_share_size params) in
    sv_set max_nest_depth (ip_max_nest_depth params).

Definition get_version (_sender : option Address) (params : GetVersionParams) : M C ModuleError (option Z) :=
  sm_get version (gv_contract_address params).
Definition get_admin (_sender : option Address) (params : GetAdminParams) : M C ModuleError (option Admin) :=
  sm_get admin (ga_contract_address params).
Definition get_code (_sender : option Address) (params : GetCodeParams) : M C ModuleError (option bytes) :=
  inner_get_code (gc_contract_address params) (gc_version params).
Definition get_code_hash (_sender : option Address) (params : GetCodeHashParams) : M C ModuleError (option Hash) :=
  let! v := match gh_version params with
            | Some v => ret (Some v)
            | None => sm_get version (gh_contract_address params)
            end in
  match v with
  | Some v => sm_get code_hash (gh_contract_address params, v)
  | None => ret None
  end.

Definition validate_create (sender : option Address) (params : CreateParams) : M C ModuleError unit :=
  let! code_hash := lift (util_hash (cp_code params)) in
  inner_vm_validate sender None (given_code (cp_code params) code_hash) Vm.ModeInit
    (cp_init_method params) (cp_init_params params) (cp_init_pay_value params).

Definition create (sender : option Address) (params : CreateParams) : M C ModuleError Address :=
  let! sender := lift (ok_or (App Unsigned) sender) in
  let! e := asks call_env in
  let! tx_hash := lift (ok_or (user_error "Tx hash not found") (ce_tx_hash e)) in
  let! h := lift (util_hash tx_hash) in
  let! contract_address := lift (util_address h) in
  let! hash := lift (util_hash (cp_code params)) in
  do! sm_set version contract_address 1%Z in
  do! sm_set admin contract_address {| threshold := 1; members := [(sender, 1%Z)] |} in
  do! sm_set code (contract_address, 1%Z) (cp_code params) in
  do! sm_set code_hash (contract_address, 1%Z) hash in
  do! inner_vm_execute (Some sender) (Some contract_address) (given_code (cp_code params) hash) Vm.ModeInit
        (cp_init_method params) (cp_init_params params) (cp_init_pay_value params) in
  ret contract_address.

(** *** The votes on the administration and on the code of a contract *)
Definition admin_poll (contract_address : Address) : Poll C Admin := {|
  admin_sv := entry admin contract_address;
  admin_not_found := "Contract admin not found";
  proposal_sv := entry update_admin_proposal contract_address;
  proposal_id_sv := entry update_admin_proposal_id contract_address;
  enact p := sm_set admin contract_address (content p);
  emit_created p := emit "UpdateAdminProposalCreated" (Build_ContractProposal contract_address p);
  emit_voted p := emit "UpdateAdminProposalVoted" (Build_ContractProposal contract_address p);
  emit_passed p := emit "UpdateAdminProposalPassed" (Build_ContractProposal contract_address p);
|}.

(** An event of a proposal of code, with the hash of the code. *)
Definition emit_code (name : string) (contract_address : Address) (p : UpdateCodeProposal) : M C ModuleError unit :=
  let! code_hash := lift (util_hash (content p)) in
  emit name (Build_ContractProposal contract_address (for_event p code_hash)).

Definition enact_code (contract_address : Address) (p : UpdateCodeProposal) : M C ModuleError unit :=
  let! hash := lift (util_hash (content p)) in
  let! v := sm_get version contract_address in
  let! v := lift (ok_or (user_error "Contract version not found") v) in
  let new_version := u32 (v + 1) in
  do! sm_set version contract_address new_version in
  do! sm_set code (contract_address, new_version) (content p) in
  sm_set code_hash (contract_address, new_version) hash.

Definition code_poll (contract_address : Address) : Poll C bytes := {|
  admin_sv := entry admin contract_address;
  admin_not_found := "Contract admin not found";
  proposal_sv := entry update_code_proposal contract_address;
  proposal_id_sv := entry update_code_proposal_id contract_address;
  enact := enact_code contract_address;
  emit_created := emit_code "UpdateCodeProposalCreated" contract_address;
  emit_voted := emit_code "UpdateCodeProposalVoted" contract_address;
  emit_passed := emit_code "UpdateCodeProposalPassed" contract_address;
|}.

Definition verify_sender (sender contract_address : Address) : M C ModuleError (Z * gmap Address Z) :=
  Voting.verify_sender (admin_poll contract_address) sender.

Definition update_admin_vote_and_pass (sender contract_address : Address) :
    UpdateAdminProposal → Z → gmap Address Z → M C ModuleError unit :=
  vote_and_pass (admin_poll contract_address) sender.
Definition update_code_vote_and_pass (sender contract_address : Address) :
    UpdateCodeProposal → Z → gmap Address Z → M C ModuleError unit :=
  vote_and_pass (code_poll contract_address) sender.

Definition validate_update_admin (_sender : option Address) (params : UpdateAdminParams) : M C ModuleError unit :=
  for_each (λ '(address, _), lift (validate_address address)) (members (ua_admin params)).
Definition update_admin (sender : option Address) (params : UpdateAdminParams) : M C ModuleError unit :=
  propose (admin_poll (ua_contract_address params)) sender (aggregate_admin (ua_admin params)).
Definition update_admin_vote (sender : option Address) (params : UpdateAdminVoteParams) : M C ModuleError unit :=
  vote_for (admin_poll (uav_contract_address params)) sender (uav_proposal_id params).
Definition update_code (sender : option Address) (params : UpdateCodeParams) : M C ModuleError unit :=
  propose (code_poll (uc_contract_address params)) sender (uc_code params).
Definition update_code_vote (sender : option Address) (params : UpdateCodeVoteParams) : M C ModuleError unit :=
  vote_for (code_poll (ucv_contract_address params)) sender (ucv_proposal_id params).

(** *** The execution of a contract *)
Definition contract_not_found : Vm.VMError := Vm.contract_error (Vm.CUser "Contract not found").

Definition validate_execute (sender : option Address) (params : ExecuteParams) : M C ModuleError unit :=
  let address := ep_contract_address params in
  let! code_hash := inner_get_code_hash address None in
  let! code_hash := lift (ok_or (user_error "Contract not found") code_hash) in
  inner_vm_validate sender (Some address) (code_provider contract_not_found address code_hash) Vm.ModeCall
    (ep_method params) (ep_params params) (ep_pay_value params).

Definition execute (sender : option Address) (params : ExecuteParams) : M C ModuleError bytes :=
  let! sender := lift (ok_or (App Unsigned) sender) in
  let address := ep_contract_address params in
  let! code_hash := inner_get_code_hash address None in
  let! code_hash := lift (ok_or (user_error "Contract not found") code_hash) in
  inner_vm_execute (Some sender) (Some address) (code_provider contract_not_found address code_hash) Vm.ModeCall
    (ep_method params) (ep_params params) (ep_pay_value params).

(** *** The derived codecs and the table of the calls *)
Definition codec_init : Codec InitParams :=
  iso_codec (sc_pair (sc_option sc_u32) (sc_pair (sc_option sc_u32) (sc_pair (sc_option sc_u32)
      (sc_pair (sc_option sc_u64) (sc_pair (sc_option sc_u64) (sc_option sc_u32))))))
    (λ '(x0, (x1, (x2, (x3, (x4, x5))))), Build_InitParams x0 x1 x2 x3 x4 x5)
    (λ p, (ip_max_stack_height p, (ip_initial_memory_pages p, (ip_max_memory_pages p,
            (ip_max_share_value_len p, (ip_max_share_size p, ip_max_nest_depth p))))))
    (λ p, match p with Build_InitParams _ _ _ _ _ _ => eq_refl end)
    (λ '(x0, (x1, (x2, (x3, (x4, x5))))), eq_refl).
(** A codec of the first part for addresses. *)
Definition codec_address_only {P} (mk : Address → P) (get : P → Address)
    (H1 : ∀ p, mk (get p) = p) (H2 : ∀ a, get (mk a) = a) : Codec P := iso_codec sc_bytes mk get H1 H2.
Definition codec_get_version : Codec GetVersionParams :=
  codec_address_only Build_GetVersionParams gv_contract_address
    (λ p, match p with Build_GetVersionParams _ => eq_refl end) (λ a, eq_refl).
Definition codec_get_admin : Codec GetAdminParams :=
  codec_address_only Build_GetAdminParams ga_contract_address
    (λ p, match p with Build_GetAdminParams _ => eq_refl end) (λ a, eq_refl).
Definition codec_get_code : Codec GetCodeParams :=
  iso_codec (sc_pair sc_bytes (sc_option sc_u32)) (λ '(a, v), Build_GetCodeParams a v)
    (λ p, (gc_contract_address p, gc_version p))
    (λ p, match p with Build_GetCodeParams _ _ => eq_refl end) (λ '(a, v), eq_refl).
Definition codec_get_code_hash : Codec GetCodeHashParams :=
  iso_codec (sc_pair sc_bytes (sc_option sc_u32)) (λ '(a, v), Build_GetCodeHashParams a v)
    (λ p, (gh_contract_address p, gh_version p))
    (λ p, match p with Build_GetCodeHashParams _ _ => eq_refl end) (λ '(a, v), eq_refl).
Definition codec_create : Codec CreateParams :=
  iso_codec (sc_pair sc_bytes (sc_pair sc_string (sc_pair sc_bytes sc_u64)))
    (λ '(c, (m, (p, v))), Build_CreateParams c m p v)
    (λ p, (cp_code p, (cp_init_method p, (cp_init_params p, cp_init_pay_value p))))
    (λ p, match p with Build_CreateParams _ _ _ _ => eq_refl end) (λ '(c, (m, (p, v))), eq_refl).
Definition codec_update_admin : Codec UpdateAdminParams :=
  iso_codec (sc_pair sc_bytes codec_admin) (λ '(a, x), Build_UpdateAdminParams a x)
    (λ p, (ua_contract_address p, ua_admin p))
    (λ p, match p with Build_UpdateAdminParams _ _ => eq_refl end) (λ '(a, x), eq_refl).
Definition codec_update_admin_vote : Codec UpdateAdminVoteParams :=
  iso_codec (sc_pair sc_bytes sc_u32) (λ '(a, x), Build_UpdateAdminVoteParams a x)
    (λ p, (uav_contract_address p, uav_proposal_id p))
    (λ p, match p with Build_UpdateAdminVoteParams _ _ => eq_refl end) (λ '(a, x), eq_refl).
Definition codec_update_code : Codec UpdateCodeParams :=
  iso_codec (sc_pair sc_bytes sc_bytes) (λ '(a, x), Build_UpdateCodeParams a x)
    (λ p, (uc_contract_address p, uc_code p))
    (λ p, match p with Build_UpdateCodeParams _ _ => eq_refl end) (λ '(a, x), eq_refl).
Definition codec_update_code_vote : Codec UpdateCodeVoteParams :=
  iso_codec (sc_pair sc_bytes sc_u32) (λ '(a, x), Build_UpdateCodeVoteParams a x)
    (λ p, (ucv_contract_address p, ucv_proposal_id p))
    (λ p, match p with Build_UpdateCodeVoteParams _ _ => eq_refl end) (λ '(a, x), eq_refl).
Definition codec_execute : Codec ExecuteParams :=
  iso_codec (sc_pair sc_bytes (sc_pair sc_string (sc_pair sc_bytes sc_u64)))
    (λ '(c, (m, (p, v))), Build_ExecuteParams c m p v)
    (λ p, (ep_contract_address p, (ep_method p, (ep_params p, ep_pay_value p))))
    (λ p, match p with Build_ExecuteParams _ _ _ _ => eq_refl end) (λ '(c, (m, (p, v))), eq_refl).

Definition methods : list (ModuleMethod C) := [
  Build_ModuleMethod C "init" true _ _ codec_init sc_unit None init;
  Build_ModuleMethod C "get_version" false _ _ codec_get_version (sc_option sc_u32) None get_version;
  Build_ModuleMethod C "get_admin" false _ _ codec_get_admin (sc_option codec_admin) None get_admin;
  Build_ModuleMethod C "get_code" false _ _ codec_get_code (sc_option sc_bytes) None get_code;
  Build_ModuleMethod C "get_code_hash" false _ _ codec_get_code_hash (sc_option sc_bytes) None get_code_hash;
  Build_ModuleMethod C "create" true _ _ codec_create sc_bytes (Some validate_create) create;
  Build_ModuleMethod C "update_admin" true _ _ codec_update_admin sc_unit (Some validate_update_admin) update_admin;
  Build_ModuleMethod C "update_admin_vote" true _ _ codec_update_admin_vote sc_unit None update_admin_vote;
  Build_ModuleMethod C "update_code" true _ _ codec_update_code sc_unit None update_code;
  Build_ModuleMethod C "update_code_vote" true _ _ codec_update_code_vote sc_unit None update_code_vote;
  Build_ModuleMethod C "execute" true _ _ codec_execute sc_bytes (Some validate_execute) execute
].
Definition contract_module : ModuleOps C := module_ops META_MODULE methods.
End Module.
End ContractModule.
