(* ===== verification/Administration.v ===== *)
(** * Administration

    An administration that votes on its own replacement and on the value it
    manages: the common shape of the modules poa (the value is the
    authority), raft and hotstuff (the authorities).  The modules instantiate
    [Administration]; the section [Sound] states once what they promise:
    nothing changes without a quorum of signed ballots. *)
From S2P Require Import Prelude Codec Types Context Voting.

(** Read a handle back through writes to closed places. *)
Ltac read_back :=
  repeat first
    [ rewrite sv_read_put_eq by done
    | rewrite sv_read_put_ne by (apply (bool_decide_unpack _); vm_compute; reflexivity) ].

(** The data of the events of a proposal: [UpdateAdminProposalCreated],
    [UpdateAdminProposalVoted], ... *)
Record ProposalData (P : Type) := { proposal : Proposal P }.
Arguments Build_ProposalData {P}. Arguments proposal {P}.

(** The storage handles of a module with an administration, and the names of
    its events. *)
Record Administration (Q : Type) : Type := {
  admin : StorageValue Admin;
  target : StorageValue Q;
  update_admin_proposal_id : StorageValue Z;
  update_admin_proposal : StorageValue (Proposal Admin);
  update_target_proposal_id : StorageValue Z;
  update_target_proposal : StorageValue (Proposal Q);
  target_created : string;
  target_voted : string;
  target_passed : string;
}.
Arguments admin {Q}. Arguments target {Q}.
Arguments update_admin_proposal_id {Q}. Arguments update_admin_proposal {Q}.
Arguments update_target_proposal_id {Q}. Arguments update_target_proposal {Q}.
Arguments target_created {Q}. Arguments target_voted {Q}. Arguments target_passed {Q}.

Section Polls.
Context {Q : Type} {SA : Serialize (ProposalData Admin)} {SQ : Serialize (ProposalData Q)}.
Context {C : Type} `{Context C}.
Variable AD : Administration Q.

Definition admin_poll : Poll C Admin := {|
  admin_sv := admin AD;
  admin_not_found := "Admin not found";
  proposal_sv := update_admin_proposal AD;
  proposal_id_sv := update_admin_proposal_id AD;
  enact p := sv_set (admin AD) (content p);
  emit_created p := emit "UpdateAdminProposalCreated" {| proposal := p |};
  emit_voted p := emit "UpdateAdminProposalVoted" {| proposal := p |};
  emit_passed p := emit "UpdateAdminProposalPassed" {| proposal := p |};
|}.

Definition target_poll : Poll C Q := {|
  admin_sv := admin AD;
  admin_not_found := "Admin not found";
  proposal_sv := update_target_proposal AD;
  proposal_id_sv := update_target_proposal_id AD;
  enact p := sv_set (target AD) (content p);
  emit_created p := emit (target_created AD) {| proposal := p |};
  emit_voted p := emit (target_voted AD) {| proposal := p |};
  emit_passed p := emit (target_passed AD) {| proposal := p |};
|}.
End Polls.

(** The handles name six different places and store the Rust types. *)
Definition place {T} (v : StorageValue T) : bool * DBKey := (sv_meta_module v, sv_key v).
Definition places {Q} (AD : Administration Q) : list (bool * DBKey) :=
  [place (admin AD); place (target AD); place (update_admin_proposal_id AD);
   place (update_admin_proposal AD); place (update_target_proposal_id AD);
   place (update_target_proposal AD)].

Record AdministrationLaws `{SC : Scale} {Q} (CQ : Codec Q) (AD : Administration Q) : Prop := {
  places_NoDup : NoDup (places AD);
  admin_codec : sv_codec (admin AD) = codec_admin;
  target_codec : sv_codec (target AD) = CQ;
  admin_id_codec : sv_codec (update_admin_proposal_id AD) = sc_u32;
  admin_proposal_codec : sv_codec (update_admin_proposal AD) = codec_proposal codec_admin;
  target_id_codec : sv_codec (update_target_proposal_id AD) = sc_u32;
  target_proposal_codec : sv_codec (update_target_proposal AD) = codec_proposal CQ;
}.

(** The calls that change the state after genesis. *)
Inductive AdminCall (Q : Type) : Type :=
| UpdateAdmin (sender : option Address) (a : Admin)
| UpdateAdminVote (sender : option Address) (id : Z)
| UpdateTarget (sender : option Address) (q : Q)
| UpdateTargetVote (sender : option Address) (id : Z).
Arguments UpdateAdmin {Q}. Arguments UpdateAdminVote {Q}.
Arguments UpdateTarget {Q}. Arguments UpdateTargetVote {Q}.

Section Sound.
Context {SC : Scale} {Q : Type} {CQ : Codec Q}.
Context {SA : Serialize (ProposalData Admin)} {SQ : Serialize (ProposalData Q)}.
Context {C : Type} `{CL : ContextLaws C}.
Context (AD : Administration Q) (laws : AdministrationLaws CQ AD).

Abbreviation AP := (admin_poll (C := C) AD).
Abbreviation TP := (target_poll (C := C) AD).

Lemma places_apart :
  apart (update_admin_proposal AD) (update_admin_proposal_id AD) ∧
  apart (update_target_proposal AD) (update_target_proposal_id AD) ∧
  apart (update_admin_proposal AD) (update_target_proposal AD) ∧
  apart (update_admin_proposal AD) (update_target_proposal_id AD) ∧
  apart (update_target_proposal AD) (update_admin_proposal_id AD) ∧
  apart (admin AD) (update_admin_proposal AD) ∧ apart (admin AD) (update_admin_proposal_id AD) ∧
  apart (admin AD) (update_target_proposal AD) ∧ apart (admin AD) (update_target_proposal_id AD) ∧
  apart (target AD) (update_admin_proposal AD) ∧ apart (target AD) (update_admin_proposal_id AD) ∧
  apart (target AD) (update_target_proposal AD) ∧
  apart (target AD) (update_target_proposal_id AD) ∧
  apart (admin AD) (target AD).
Proof.
  pose proof (places_NoDup _ _ laws) as Hnd. unfold places in Hnd.
  repeat (apply NoDup_cons in Hnd as [? Hnd]).
  unfold apart. fold (place (admin AD)) (place (target AD)).
  unfold place in *. split_and!; intros Heq; rewrite Heq in *; set_solver.
Qed.

Lemma codec_admin_members a : wf (sv_codec (admin AD)) a → Forall (λ m, is_u32 m.2) (members a).
Proof. rewrite (admin_codec _ _ laws), codec_admin_wf. by intros []. Qed.

#[local] Instance admin_poll_laws : PollLaws AP.
Proof.
  refine {| enacted p := sv_put (admin AD) (Some (content p));
            created p := event "UpdateAdminProposalCreated" {| proposal := p |};
            voted p := event "UpdateAdminProposalVoted" {| proposal := p |};
            passed p := event "UpdateAdminProposalPassed" {| proposal := p |};
            content_wf := wf codec_admin |}.
  - intros. apply sv_set_eq.
  - intros. apply emit_eq.
  - intros. apply emit_eq.
  - intros. apply emit_eq.
  - apply places_apart.
  - intros z. simpl. rewrite (admin_id_codec _ _ laws). apply sc_u32_wf.
  - apply codec_admin_members.
  - intros p. cbn [proposal_sv admin_poll]. rewrite (admin_proposal_codec _ _ laws).
    apply (codec_proposal_wf codec_admin).
Defined.

#[local] Instance target_poll_laws : PollLaws TP.
Proof.
  refine {| enacted p := sv_put (target AD) (Some (content p));
            created p := event (target_created AD) {| proposal := p |};
            voted p := event (target_voted AD) {| proposal := p |};
            passed p := event (target_passed AD) {| proposal := p |};
            content_wf := wf CQ |}.
  - intros. apply sv_set_eq.
  - intros. apply emit_eq.
  - intros. apply emit_eq.
  - intros. apply emit_eq.
  - apply places_apart.
  - intros z. simpl. rewrite (target_id_codec _ _ laws). apply sc_u32_wf.
  - apply codec_admin_members.
  - intros p. cbn [proposal_sv target_poll]. rewrite (target_proposal_codec _ _ laws).
    apply (codec_proposal_wf CQ).
Defined.

(** A read that is apart from the places of a vote does not see it. *)
Lemma unseen_read {T P} (V : Poll C P) (v : StorageValue T) :
  apart v (proposal_sv V) → apart v (proposal_id_sv V) → unseen V (sv_read v).
Proof.
  intros Hp Hi. split; [|split].
  - intros. by apply sv_read_put_ne.
  - intros. by apply sv_read_put_ne.
  - intros. apply sv_read_log.
Qed.

(** *** Running the calls *)

Definition run_admin_call (k : AdminCall Q) : M C ModuleError unit :=
  match k with
  | UpdateAdmin sender a => propose AP sender (aggregate_admin a)
  | UpdateAdminVote sender i => vote_for AP sender i
  | UpdateTarget sender q => propose TP sender q
  | UpdateTargetVote sender i => vote_for TP sender i
  end.

(** The ballots a call casts in the context [c]. *)
Definition admin_ballots (k : AdminCall Q) (c : C) : list (ballot Admin) :=
  match k with
  | UpdateAdmin sender a => ballot_of (proposing AP sender (aggregate_admin a) c)
  | UpdateAdminVote sender i => ballot_of (voting AP sender i c)
  | _ => []
  end.
Definition target_ballots (k : AdminCall Q) (c : C) : list (ballot Q) :=
  match k with
  | UpdateTarget sender q => ballot_of (proposing TP sender q c)
  | UpdateTargetVote sender i => ballot_of (voting TP sender i c)
  | _ => []
  end.

(** A call that is rejected changes nothing and casts no ballot. *)
Lemma run_admin_call_err k c e :
  (run_admin_call k c).1 = Err e →
  (run_admin_call k c).2 = c ∧ admin_ballots k c = [] ∧ target_ballots k c = [].
Proof.
  destruct k as [s a|s i|s q|s i]; simpl;
    first [rewrite (propose_eq AP); destruct (proposing AP _ _ _) as [[[] []]|]
          |rewrite (vote_for_eq AP); destruct (voting AP _ _ _) as [[[] []]|]
          |rewrite (propose_eq TP); destruct (proposing TP _ _ _) as [[[] []]|]
          |rewrite (vote_for_eq TP); destruct (voting TP _ _ _) as [[[] []]|]]; done.
Qed.

(** The context and the ballots of the calls that have been made. *)
Record history := History {
  h_admin : list (ballot Admin);
  h_target : list (ballot Q);
  h_context : C;
}.

Definition record (h : history) (k : AdminCall Q) : history :=
  let c := h_context h in
  History (h_admin h ++ admin_ballots k c) (h_target h ++ target_ballots k c)
    (run_admin_call k c).2.
Definition replay (c : C) (ks : list (AdminCall Q)) : history :=
  foldl record (History [] [] c) ks.

(** The parameters of a call have been decoded from the transaction. *)
Definition wf_call (k : AdminCall Q) : Prop :=
  match k with
  | UpdateAdmin _ a => wf codec_admin a
  | UpdateTarget _ q => wf CQ q
  | _ => True
  end.

Definition idle (c : C) : Prop := open AP c = Ok None ∧ open TP c = Ok None.

Definition history_ok (h : history) : Prop :=
  ballots_ok AP (h_admin h) (h_context h) ∧ ballots_ok TP (h_target h) (h_context h).

(** A vote of one poll does not see the reads of the other one. *)
Lemma propose_unseen {P T} (V : Poll C P) {LV : PollLaws V} (v : StorageValue T) sender x c :
  unseen V (sv_read v) → content_wf (V := V) x →
  (∀ p c, sv_read v (enacted (V := V) p c) = sv_read v c) →
  sv_read v (propose V sender x c).2 = sv_read v c.
Proof.
  intros Hu Hx He. destruct (propose_changes V (sv_read v) [] sender x c Hu Hx)
    as [|(_ & p & c0 & _ & Hc & ->)]; [done|]. by rewrite He.
Qed.

Lemma vote_unseen {P T} (V : Poll C P) {LV : PollLaws V} (v : StorageValue T) sender i c :
  unseen V (sv_read v) → (∀ p c, sv_read v (enacted (V := V) p c) = sv_read v c) →
  sv_read v (vote_for V sender i c).2 = sv_read v c.
Proof.
  intros Hu He. rewrite (vote_for_eq V).
  destruct (voting V sender i c) as [[[s p] [thr mem]]|e]; [|done]. simpl.
  rewrite obs_after_vote by done. case_decide; [|done]. rewrite He. apply Hu.
Qed.

Lemma wf_call_admin sender a : wf_call (UpdateAdmin sender a) → content_wf (V := AP) (aggregate_admin a).
Proof. apply aggregate_admin_wf. Qed.

Lemma record_ok h k : wf_call k → history_ok h → history_ok (record h k).
Proof.
  pose proof places_apart as (A1 & A2 & A3 & A4 & A5 & A6 & A7 & A8 & A9 & A10 & A11 & A12 & A13 & A14).
  intros Hk [Ha Ht]. unfold history_ok, record. cbn [h_admin h_target h_context].
  destruct k as [s a|s i|s q|s i]; cbn [admin_ballots target_ballots run_admin_call];
    rewrite app_nil_r; split.
  - apply (ballots_propose AP); [done|]. by eapply (wf_call_admin s).
  - eapply ballots_same; [|exact Ht]. apply (propose_unseen AP); [|by apply (wf_call_admin s)|].
    + apply unseen_read; [by apply apart_sym|done].
    + intros. apply sv_read_put_ne. by apply apart_sym.
  - by apply (ballots_vote AP).
  - eapply ballots_same; [|exact Ht]. apply (vote_unseen AP).
    + apply unseen_read; [by apply apart_sym|done].
    + intros. apply sv_read_put_ne. by apply apart_sym.
  - eapply ballots_same; [|exact Ha]. apply (propose_unseen TP); [|done|].
    + by apply unseen_read.
    + intros. apply sv_read_put_ne. by apply apart_sym.
  - by apply (ballots_propose TP).
  - eapply ballots_same; [|exact Ha]. apply (vote_unseen TP).
    + by apply unseen_read.
    + intros. apply sv_read_put_ne. by apply apart_sym.
  - by apply (ballots_vote TP).
Qed.

Lemma idle_ok c : idle c → history_ok (History [] [] c).
Proof. intros [Ha Ht]. split; (exists None; split; [done|by intros]). Qed.

Lemma replay_ok c ks : idle c → Forall wf_call ks → history_ok (replay c ks).
Proof.
  intros Hc. induction ks as [|k ks IH] using rev_ind; intros Hks; [by apply idle_ok|].
  apply Forall_app in Hks as [Hks [Hk _]%Forall_cons]. unfold replay. rewrite foldl_app.
  apply record_ok; [done|]. by apply IH.
Qed.

(** A poll whose effect is to store the content of the proposal in [v]
    changes [v] with a quorum only. *)
Definition changed_by_quorum {P} (V : Poll C P) (v : StorageValue P) tr (c c' : C) : Prop :=
  sv_read v c' = sv_read v c ∨ ∃ x, sv_read v c' = Ok (Some x) ∧ quorum V tr x c.

Lemma propose_stores {P} (V : Poll C P) {LV : PollLaws V} (v : StorageValue P) tr sender x c :
  unseen V (sv_read v) → content_wf (V := V) x → wf (sv_codec v) x →
  (∀ p c, enacted (V := V) p c = sv_put v (Some (content p)) c) →
  changed_by_quorum V v (tr ++ ballot_of (proposing V sender x c)) c (propose V sender x c).2.
Proof.
  intros Hu Hx Hwf He.
  destruct (propose_changes V (sv_read v) tr sender x c Hu Hx)
    as [|(Hq & p & c0 & <- & _ & Heq)]; [by left|].
  right. exists (content p). split; [|done]. rewrite Heq, He. by apply sv_read_put_eq.
Qed.

Lemma vote_stores {P} (V : Poll C P) {LV : PollLaws V} (v : StorageValue P) tr sender i c :
  unseen V (sv_read v) → ballots_ok V tr c → (∀ x, content_wf (V := V) x → wf (sv_codec v) x) →
  (∀ p c, enacted (V := V) p c = sv_put v (Some (content p)) c) →
  changed_by_quorum V v (tr ++ ballot_of (voting V sender i c)) c (vote_for V sender i c).2.
Proof.
  intros Hu Hok Hwf He.
  destruct (vote_changes V (sv_read v) tr sender i c Hu Hok)
    as [|(x & Hx & Hq & p & c0 & <- & _ & Heq)]; [by left|].
  right. exists (content p). split; [|done]. rewrite Heq, He. by apply sv_read_put_eq, Hwf.
Qed.

(** What a vote that is accepted does: with enough weight the content is
    stored and nothing stays open, otherwise the vote is added. *)
Definition vote_outcome {P} (V : Poll C P) (v : StorageValue P) (c c' : C) (s : Address)
    (p : Proposal P) (thr : Z) (mem : gmap Address Z) : Prop :=
  let p' := add_vote s p in
  if decide (thr ≤ sumZ (λ a, default 0 (mem !! a)) (vote p'))%Z
  then sv_read v c' = Ok (Some (content p)) ∧ open V c' = Ok None
  else sv_read v c' = sv_read v c ∧ open V c' = Ok (Some p').

Lemma vote_for_outcome {P} (V : Poll C P) {LV : PollLaws V} (v : StorageValue P)
    sender i c s p thr mem :
  unseen V (sv_read v) → (∀ x, content_wf (V := V) x → wf (sv_codec v) x) →
  (∀ p c, enacted (V := V) p c = sv_put v (Some (content p)) c) →
  voting V sender i c = Ok (s, p, (thr, mem)) →
  is_u32 (sumZ (λ a, default 0%Z (mem !! a)) (vote (add_vote s p))) →
  (vote_for V sender i c).1 = Ok tt ∧
  next_id V (vote_for V sender i c).2 = Ok (u32 (i + 1)) ∧
  vote_outcome V v c (vote_for V sender i c).2 s p thr mem.
Proof.
  intros Hu Hwf He Hv Hsum. rewrite (vote_for_eq V), Hv. simpl.
  apply (voting_inv V) in Hv as (_ & _ & <- & Hp & _).
  split; [done|]. split; [by apply next_id_after_vote|]. unfold vote_outcome.
  rewrite open_after_vote, obs_after_vote by done.
  assert (tally mem (add_vote s p) = sumZ (λ a, default 0%Z (mem !! a)) (vote (add_vote s p)))
    as Ht by by apply fold_u32_exact.
  rewrite <-Ht. destruct (decide (carried thr mem (add_vote s p))) as [Hc|Hc];
    [rewrite decide_True by done|by rewrite decide_False].
  split; [|done]. rewrite He, add_vote_content.
  apply sv_read_put_eq, Hwf. by apply proposal_wf in Hp as [].
Qed.

Lemma admin_vote_outcome sender i c s p thr mem :
  voting AP sender i c = Ok (s, p, (thr, mem)) →
  is_u32 (sumZ (λ a, default 0%Z (mem !! a)) (vote (add_vote s p))) →
  (vote_for AP sender i c).1 = Ok tt ∧
  next_id AP (vote_for AP sender i c).2 = Ok (u32 (i + 1)) ∧
  vote_outcome AP (admin AD) c (vote_for AP sender i c).2 s p thr mem.
Proof.
  intros Hv. apply (vote_for_outcome AP); try done.
  - apply unseen_read; apply places_apart.
  - intros x. by rewrite (admin_codec _ _ laws).
Qed.

Lemma target_vote_outcome sender i c s p thr mem :
  voting TP sender i c = Ok (s, p, (thr, mem)) →
  is_u32 (sumZ (λ a, default 0%Z (mem !! a)) (vote (add_vote s p))) →
  (vote_for TP sender i c).1 = Ok tt ∧
  next_id TP (vote_for TP sender i c).2 = Ok (u32 (i + 1)) ∧
  vote_outcome TP (target AD) c (vote_for TP sender i c).2 s p thr mem.
Proof.
  intros Hv. apply (vote_for_outcome TP); try done.
  - apply unseen_read; apply places_apart.
  - intros x. by rewrite (target_codec _ _ laws).
Qed.

Lemma record_changes h k :
  wf_call k → history_ok h →
  let h' := record h k in
  changed_by_quorum AP (admin AD) (h_admin h') (h_context h) (h_context h') ∧
  changed_by_quorum TP (target AD) (h_target h') (h_context h) (h_context h').
Proof.
  pose proof places_apart as (A1 & A2 & A3 & A4 & A5 & A6 & A7 & A8 & A9 & A10 & A11 & A12 & A13 & A14).
  intros Hk [Ha Ht]. unfold record. cbn [h_admin h_target h_context].
  destruct k as [s a|s i|s q|s i]; cbn [admin_ballots target_ballots run_admin_call];
    rewrite ?app_nil_r; split.
  - apply (propose_stores AP); [by apply unseen_read|by apply (wf_call_admin s)| |done].
    rewrite (admin_codec _ _ laws). by apply aggregate_admin_wf.
  - left. apply (propose_unseen AP); [by apply unseen_read|by apply (wf_call_admin s)|].
    intros. apply sv_read_put_ne. by apply apart_sym.
  - apply (vote_stores AP); [by apply unseen_read|done| |done].
    intros x. by rewrite (admin_codec _ _ laws).
  - left. apply (vote_unseen AP); [by apply unseen_read|].
    intros. apply sv_read_put_ne. by apply apart_sym.
  - left. apply (propose_unseen TP); [by apply unseen_read|done|].
    intros. by apply sv_read_put_ne.
  - apply (propose_stores TP); [by apply unseen_read|done| |done]. by rewrite (target_codec _ _ laws).
  - left. apply (vote_unseen TP); [by apply unseen_read|].
    intros. by apply sv_read_put_ne.
  - apply (vote_stores TP); [by apply unseen_read|done| |done].
    intros x. by rewrite (target_codec _ _ laws).
Qed.
End Sound.
