(* ===== verification/Poa.v ===== *)
(** * Poa

    [core/module/poa/src/lib.rs]: the module of the proof-of-authority
    consensus keeps its block interval, its authority and the administration
    that may replace both. *)
From S2P Require Import Prelude Codec Types Context ExecutorContext Voting Administration Dispatch.

Module Poa.

Record InitParams := {
  init_block_interval : option Z;
  init_admin : Admin;
  init_authority : Address;
}.

Record Meta := {
  meta_block_interval : option Z;
}.

Definition UpdateAdminProposal : Type := Proposal Admin.
Definition UpdateAuthorityProposal : Type := Proposal Address.

Record UpdateAdminParams := { p_admin : Admin }.
Record UpdateAdminVoteParams := { p_admin_proposal_id : Z }.
Record UpdateAuthorityParams := { p_authority : Address }.
Record UpdateAuthorityVoteParams := { p_authority_proposal_id : Z }.

Definition META_MODULE : bool := true.
Definition STORAGE_KEY : bytes := b "poa".

Section Module.
Context {SC : Scale} {UT : Util}.
Context {SA : Serialize (ProposalData Admin)} {SQ : Serialize (ProposalData Address)}.
Context {C : Type} `{CL : ContextLaws C}.

(** *** [Module::new] *)
Definition block_interval : StorageValue (option Z) :=
  sv_new (sc_option sc_u64) META_MODULE STORAGE_KEY (b "block_interval").

(** The administration over the authority. *)
Definition storage : Administration Address := {|
  admin := sv_new codec_admin META_MODULE STORAGE_KEY (b "admin");
  target := sv_new sc_bytes META_MODULE STORAGE_KEY (b "authority");
  update_admin_proposal_id :=
    sv_new sc_u32 META_MODULE STORAGE_KEY (b "update_admin_proposal_id");
  update_admin_proposal :=
    sv_new (codec_proposal codec_admin) META_MODULE STORAGE_KEY (b "update_admin_proposal");
  update_target_proposal_id :=
    sv_new sc_u32 META_MODULE STORAGE_KEY (b "update_authority_proposal_id");
  update_target_proposal :=
    sv_new (codec_proposal sc_bytes) META_MODULE STORAGE_KEY (b "update_authority_proposal");
  target_created := "UpdateAuthorityProposalCreated";
  target_voted := "UpdateAuthorityProposalVoted";
  target_passed := "UpdateAuthorityProposalPassed";
|}.
Definition admin : StorageValue Admin := Administration.admin storage.
Definition authority : StorageValue Address := target storage.

(** *** The calls *)
Definition init (_sender : option Address) (params : InitParams) : M C ModuleError unit :=
  let! e := asks env in
  if decide (number e ≠ 0%Z) then throw (user_error "Not genesis")
  else
    do! sv_set block_interval (init_block_interval params) in
    do! sv_set admin (init_admin params) in
    do! sv_set authority (init_authority params) in
    ret tt.

Definition validate_init (_sender : option Address) (params : InitParams) :
    M C ModuleError unit :=
  do! for_each (λ '(address, _), lift (validate_address address))
        (members (init_admin params)) in
  do! lift (validate_address (init_authority params)) in
  ret tt.

Definition get_meta (_sender : option Address) (_params : unit) : M C ModuleError Meta :=
  let! block_interval := sv_get block_interval in
  let! block_interval := lift (ok_or (user_error "Unexpected none") block_interval) in
  ret {| meta_block_interval := block_interval |}.

Definition get_authority (_sender : option Address) (_params : unit) :
    M C ModuleError Address :=
  let! authority := sv_get authority in
  lift (ok_or (user_error "Unexpected none") authority).

Definition get_admin (_sender : option Address) (_params : unit) : M C ModuleError Admin :=
  let! admin := sv_get admin in
  lift (ok_or (user_error "Unexpected none") admin).

Definition verify_sender (sender : Address) : M C ModuleError (Z * gmap Address Z) :=
  Voting.verify_sender (admin_poll storage) sender.

Definition update_admin_vote_and_pass :
    Address → UpdateAdminProposal → Z → gmap Address Z → M C ModuleError unit :=
  vote_and_pass (admin_poll storage).

Definition update_authority_vote_and_pass :
    Address → UpdateAuthorityProposal → Z → gmap Address Z → M C ModuleError unit :=
  vote_and_pass (target_poll storage).

Definition update_admin (sender : option Address) (params : UpdateAdminParams) :
    M C ModuleError unit :=
  propose (admin_poll storage) sender (aggregate_admin (p_admin params)).

Definition update_admin_vote (sender : option Address) (params : UpdateAdminVoteParams) :
    M C ModuleError unit :=
  vote_for (admin_poll storage) sender (p_admin_proposal_id params).

Definition update_authority (sender : option Address) (params : UpdateAuthorityParams) :
    M C ModuleError unit :=
  propose (target_poll storage) sender (p_authority params).

Definition update_authority_vote (sender : option Address)
    (params : UpdateAuthorityVoteParams) : M C ModuleError unit :=
  vote_for (target_poll storage) sender (p_authority_proposal_id params).

(** *** The derived codecs and the table of the calls *)
Definition codec_init : Codec InitParams :=
  iso_codec (sc_pair (sc_option sc_u64) (sc_pair codec_admin sc_bytes))
    (λ '(i, (a, q)), Build_InitParams i a q)
    (λ p, (init_block_interval p, (init_admin p, init_authority p)))
    (λ p, match p with Build_InitParams _ _ _ => eq_refl end) (λ '(i, (a, q)), eq_refl).
Definition codec_meta : Codec Meta :=
  iso_codec (sc_option sc_u64) Build_Meta meta_block_interval
    (λ p, match p with Build_Meta _ => eq_refl end) (λ x, eq_refl).
Definition codec_update_admin : Codec UpdateAdminParams :=
  iso_codec codec_admin Build_UpdateAdminParams p_admin
    (λ p, match p with Build_UpdateAdminParams _ => eq_refl end) (λ x, eq_refl).
Definition codec_update_admin_vote : Codec UpdateAdminVoteParams :=
  iso_codec sc_u32 Build_UpdateAdminVoteParams p_admin_proposal_id
    (λ p, match p with Build_UpdateAdminVoteParams _ => eq_refl end) (λ x, eq_refl).
Definition codec_update_authority : Codec UpdateAuthorityParams :=
  iso_codec sc_bytes Build_UpdateAuthorityParams p_authority
    (λ p, match p with Build_UpdateAuthorityParams _ => eq_refl end) (λ x, eq_refl).
Definition codec_update_authority_vote : Codec UpdateAuthorityVoteParams :=
  iso_codec sc_u32 Build_UpdateAuthorityVoteParams p_authority_proposal_id
    (λ p, match p with Build_UpdateAuthorityVoteParams _ => eq_refl end) (λ x, eq_refl).

Definition methods : list (ModuleMethod C) := [
  Build_ModuleMethod C "init" true _ _ codec_init sc_unit (Some validate_init) init;
  Build_ModuleMethod C "get_meta" false _ _ sc_unit codec_meta None get_meta;
  Build_ModuleMethod C "get_authority" false _ _ sc_unit sc_bytes None get_authority;
  Build_ModuleMethod C "get_admin" false _ _ sc_unit codec_admin None get_admin;
  Build_ModuleMethod C "update_admin" true _ _ codec_update_admin sc_unit None update_admin;
  Build_ModuleMethod C "update_admin_vote" true _ _ codec_update_admin_vote sc_unit None
    update_admin_vote;
  Build_ModuleMethod C "update_authority" true _ _ codec_update_authority sc_unit None
    update_authority;
  Build_ModuleMethod C "update_authority_vote" true _ _ codec_update_authority_vote sc_unit
    None update_authority_vote
].
Definition poa_module : ModuleOps C := module_ops META_MODULE methods.

(** ** What the administration promises *)

Lemma storage_laws : AdministrationLaws sc_bytes storage.
Proof. constructor; [|done..]. apply (bool_decide_unpack _). by vm_compute. Qed.

(** The calls of the module that change its state after genesis. *)
Definition poa_call (k : AdminCall Address) : M C ModuleError unit :=
  match k with
  | UpdateAdmin sender a => update_admin sender {| p_admin := a |}
  | UpdateAdminVote sender i => update_admin_vote sender {| p_admin_proposal_id := i |}
  | UpdateTarget sender q => update_authority sender {| p_authority := q |}
  | UpdateTargetVote sender i => update_authority_vote sender {| p_authority_proposal_id := i |}
  end.

(** C31: the authority and the administration change by a quorum only.  After
    any sequence of calls from a context without open proposals, a further
    call either leaves the administration (the authority) as it was, or it
    stores a value for which different members of the administration in
    force, whose weights add up to its threshold, have each signed a
    successful call that proposes or votes for exactly that value. *)
Theorem poa_changes_need_quorum c ks k :
  idle storage c → Forall (wf_call (CQ := sc_bytes)) ks → wf_call (CQ := sc_bytes) k →
  let h := replay storage c ks in
  let h' := record storage h k in
  h_context h' = (poa_call k (h_context h)).2 ∧
  changed_by_quorum (admin_poll storage) admin (h_admin h') (h_context h) (h_context h') ∧
  changed_by_quorum (target_poll storage) authority (h_target h') (h_context h) (h_context h').
Proof.
  intros Hc Hks Hk. cbv zeta. split; [by destruct k|].
  apply (record_changes storage storage_laws); [done|].
  by apply (replay_ok storage storage_laws).
Qed.

(** The outcome of a vote on the authority by a member of the
    administration: when the weights of the votes with the new one reach the
    threshold the proposed authority is in force and the proposal is closed,
    otherwise the vote is added, once, and the authority stays; the next
    proposal gets the next number. *)
Theorem authority_vote_outcome c s i p a :
  sv_read (update_target_proposal storage) c = Ok (Some p) → proposal_id p = i →
  sv_read admin c = Ok (Some a) → s ∈ (members a).*1 →
  let w := λ v, default 0%Z (collect (members a) !! v) in
  let p' := add_vote s p in
  is_u32 (sumZ w (vote p')) →
  let out := update_authority_vote (Some s) {| p_authority_proposal_id := i |} c in
  out.1 = Ok tt ∧ next_id (target_poll storage) out.2 = Ok (u32 (i + 1)) ∧
  if decide (threshold a ≤ sumZ w (vote p'))%Z
  then sv_read authority out.2 = Ok (Some (content p)) ∧
       sv_read (update_target_proposal storage) out.2 = Ok None
  else sv_read authority out.2 = sv_read authority c ∧
       sv_read (update_target_proposal storage) out.2 = Ok (Some p').
Proof.
  intros Hp Hi Ha Hs w p' Hsum.
  apply (target_vote_outcome storage storage_laws (Some s) i); [|done].
  unfold voting, open. simpl in *. rewrite Hp. simpl. rewrite decide_False by naive_solver.
  unfold electorate. simpl. unfold admin in Ha. simpl in Ha. rewrite Ha. simpl.
  rewrite decide_True; [done|]. by apply collect_is_Some.
Qed.

(** Why a vote is rejected, in the order of the checks. *)
Definition vote_rejection (sender : option Address) (i : Z) (o : option UpdateAuthorityProposal)
    (oa : option Admin) : option ModuleError :=
  match sender, o with
  | None, _ => Some (App Unsigned)
  | Some _, None => Some (user_error "Proposal not found")
  | Some s, Some p =>
      if decide (proposal_id p ≠ i) then Some (user_error "Proposal id not match")
      else
        match oa with
        | None => Some (user_error "Admin not found")
        | Some a => if decide (s ∈ (members a).*1) then None else Some (user_error "Not admin")
        end
  end.

(** The rejections of a vote on the authority, in the order in which
    they are checked; a rejected vote leaves the context as it was, no
    event included, and every other vote is accepted. *)
Theorem authority_vote_rejected c sender i o oa :
  sv_read (update_target_proposal storage) c = Ok o → sv_read admin c = Ok oa →
  let out := update_authority_vote sender {| p_authority_proposal_id := i |} c in
  match vote_rejection sender i o oa with
  | Some e => out = (Err e, c)
  | None => out.1 = Ok tt
  end.
Proof.
  intros Ho Ha. cbv zeta. pose proof (target_poll_laws storage storage_laws) as laws.
  unfold update_authority_vote. rewrite (vote_for_eq (target_poll storage)).
  unfold voting, vote_rejection, open, electorate. simpl.
  destruct sender as [s|]; simpl; [|done]. cbn [sv_read] in *.
  unfold storage, admin in *. simpl in *. rewrite Ho. destruct o as [p|]; simpl; [|done].
  case_decide; [done|]. rewrite Ha. destruct oa as [a|]; simpl; [|done].
  pose proof (collect_is_Some (members a) s) as Hs.
  destruct (decide (s ∈ (members a).*1)); destruct (decide (is_Some _)); naive_solver.
Qed.

(** [init] works in the genesis block only; there it stores the three
    values, which the three getters return, and leaves no proposal open
    that was not. *)
Theorem init_then_get c sender p :
  number (env c) = 0%Z → wf codec_init p →
  let out := init sender p c in
  let c' := out.2 in
  out.1 = Ok tt ∧
  (get_meta sender tt c').1 = Ok {| meta_block_interval := init_block_interval p |} ∧
  (get_admin sender tt c').1 = Ok (init_admin p) ∧
  (get_authority sender tt c').1 = Ok (init_authority p) ∧
  (idle storage c → idle storage c').
Proof.
  intros Hn Hwf. cbv zeta. unfold init, bind, asks. rewrite decide_False by naive_solver.
  rewrite !sv_set_eq. unfold ret. split; [done|].
  assert (wf (sv_codec block_interval) (init_block_interval p) ∧
          wf (sv_codec admin) (init_admin p) ∧ wf (sv_codec authority) (init_authority p))
    as (Hb & Ha & Hq).
  { destruct p as [i a q]. unfold codec_init in Hwf. cbn [wf iso_codec] in Hwf.
    rewrite !sc_pair_wf in Hwf. exact Hwf. }
  assert (apart block_interval admin ∧ apart block_interval authority ∧ apart admin authority)
    as (A1 & A2 & A3) by (split_and!; apply (bool_decide_unpack _); by vm_compute).
  cbn [fst snd].
  unfold get_meta, get_admin, get_authority, bind, lift, idle, open. rewrite !sv_get_eq. split_and!.
  - by rewrite (sv_read_put_ne _ authority), (sv_read_put_ne _ admin), sv_read_put_eq by done.
  - by rewrite (sv_read_put_ne _ authority), sv_read_put_eq by done.
  - by rewrite sv_read_put_eq by done.
  - cbn [snd]. intros [H1 H2].
    rewrite !sv_read_put_ne by (apply (bool_decide_unpack _); by vm_compute). done.
Qed.
End Module.

(** ** The theorems at a concrete input *)
Section Sample.
Import Samples.

Definition sample_admin : Admin := {| threshold := 2%Z; members := [(alice, 1%Z); (bob, 1%Z)] |}.
Definition sample_params : InitParams :=
  {| init_block_interval := Some 1000%Z; init_admin := sample_admin; init_authority := alice |}.
Definition sample_context : ExecContext := (init None sample_params (empty_context 0)).2.

(** Alice proposes Carol as the authority, Bob votes for the proposal. *)
Definition sample_calls : list (AdminCall Address) := [UpdateTarget (Some alice) carol].
Definition sample_call : AdminCall Address := UpdateTargetVote (Some bob) 1.

Example sample_authority :
  let c := h_context (replay storage sample_context (sample_calls ++ [sample_call])) in
  (get_authority None tt (h_context (replay storage sample_context sample_calls))).1 = Ok alice ∧
  (get_authority None tt c).1 = Ok carol.
Proof. vm_compute. done. Qed.

Lemma poa_changes_need_quorum_witness :
  let h := replay storage sample_context sample_calls in
  let h' := record storage h sample_call in
  h_context h' = (poa_call sample_call (h_context h)).2 ∧
  changed_by_quorum (admin_poll storage) admin (h_admin h') (h_context h) (h_context h') ∧
  changed_by_quorum (target_poll storage) authority (h_target h') (h_context h) (h_context h').
Proof.
  apply (poa_changes_need_quorum sample_context sample_calls sample_call).
  - split; vm_compute; reflexivity.
  - by repeat constructor.
  - exact I.
Defined.

Definition voted_context : ExecContext := h_context (replay storage sample_context sample_calls).

Lemma authority_vote_outcome_witness :
  (update_authority_vote (Some bob) {| p_authority_proposal_id := 1 |} voted_context).1 = Ok tt.
Proof.
  apply (authority_vote_outcome voted_context bob 1 (Build_Proposal 1%Z carol [alice])
           sample_admin); try (vm_compute; reflexivity).
  - vm_compute. right. left.
  - apply (bool_decide_unpack _). by vm_compute.
Defined.

Lemma authority_vote_rejected_witness :
  update_authority_vote (Some carol) {| p_authority_proposal_id := 1 |} voted_context =
  (Err (user_error "Not admin"), voted_context).
Proof.
  apply (authority_vote_rejected voted_context (Some carol) 1
           (Some (Build_Proposal 1%Z carol [alice])) (Some sample_admin));
    vm_compute; reflexivity.
Defined.

Lemma init_then_get_witness :
  (get_authority None tt (init None sample_params (empty_context 0)).2).1 = Ok alice.
Proof.
  apply (init_then_get (empty_context 0) None sample_params); [reflexivity|].
  repeat split; simpl; try done; repeat constructor; done.
Defined.
End Sample.
End Poa.
