(* ===== verification/HotstuffModule.v ===== *)
(** * HotstuffModule

    [core/module/hotstuff/src/lib.rs]: the module of the hotstuff consensus keeps
    its timing parameters, its authorities and the administration that may
    replace both. *)
From S2P Require Import Prelude Codec Types Context ExecutorContext Voting Administration Dispatch.

Module HotstuffModule.

(** [struct Authorities] *)
Record Authorities := { authority_members : list (Address * Z) }.

#[export] Instance authorities_eq_dec : EqDecision Authorities.
Proof. solve_decision. Defined.

Record InitParams := {
  init_block_interval : option Z;
  init_view_timeout : Z;
  init_admin : Admin;
  init_authorities : Authorities;
}.

Record Meta := {
  meta_block_interval : option Z;
  meta_view_timeout : Z;
}.

Definition UpdateAdminProposal : Type := Proposal Admin.
Definition UpdateAuthoritiesProposal : Type := Proposal Authorities.

Record UpdateAdminParams := { p_admin : Admin }.
Record UpdateAdminVoteParams := { p_admin_proposal_id : Z }.
Record UpdateAuthoritiesParams := { p_authorities : Authorities }.
Record UpdateAuthoritiesVoteParams := { p_authorities_proposal_id : Z }.

Definition META_MODULE : bool := true.
Definition STORAGE_KEY : bytes := b "hotstuff".

Section Module.
Context {SC : Scale} {UT : Util}.
Context {SA : Serialize (ProposalData Admin)} {SQ : Serialize (ProposalData Authorities)}.
Context {C : Type} `{CL : ContextLaws C}.

Definition codec_authorities : Codec Authorities :=
  iso_codec (sc_list (sc_pair sc_bytes sc_u32)) Build_Authorities authority_members
    (λ p, match p with Build_Authorities _ => eq_refl end) (λ x, eq_refl).

(** *** [Module::new] *)
Definition block_interval : StorageValue (option Z) :=
  sv_new (sc_option sc_u64) META_MODULE STORAGE_KEY (b "block_interval").

Definition view_timeout : StorageValue Z :=
  sv_new sc_u64 META_MODULE STORAGE_KEY (b "view_timeout").

(** The administration over the authorities. *)
Definition storage : Administration Authorities := {|
  admin := sv_new codec_admin META_MODULE STORAGE_KEY (b "admin");
  target := sv_new codec_authorities META_MODULE STORAGE_KEY (b "authorities");
  update_admin_proposal_id :=
    sv_new sc_u32 META_MODULE STORAGE_KEY (b "update_admin_proposal_id");
  update_admin_proposal :=
    sv_new (codec_proposal codec_admin) META_MODULE STORAGE_KEY (b "update_admin_proposal");
  update_target_proposal_id :=
    sv_new sc_u32 META_MODULE STORAGE_KEY (b "update_authorities_proposal_id");
  update_target_proposal :=
    sv_new (codec_proposal codec_authorities) META_MODULE STORAGE_KEY (b "update_authorities_proposal");
  target_created := "UpdateAuthoritiesProposalCreated";
  target_voted := "UpdateAuthoritiesProposalVoted";
  target_passed := "UpdateAuthoritiesProposalPassed";
|}.
Definition admin : StorageValue Admin := Administration.admin storage.
Definition authorities : StorageValue Authorities := target storage.

(** *** The calls *)
Definition init (_sender : option Address) (params : InitParams) : M C ModuleError unit :=
  let! e := asks env in
  if decide (number e ≠ 0%Z) then throw (user_error "Not genesis")
  else
    do! sv_set block_interval (init_block_interval params) in
    do! sv_set view_timeout (init_view_timeout params) in
    do! sv_set admin (init_admin params) in
    do! sv_set authorities (init_authorities params) in
    ret tt.

Definition validate_init (_sender : option Address) (params : InitParams) :
    M C ModuleError unit :=
  do! for_each (λ '(address, _), lift (validate_address address))
        (members (init_admin params)) in
  do! for_each (λ '(address, _), lift (validate_address address))
        (authority_members (init_authorities params)) in
  ret tt.

Definition get_meta (_sender : option Address) (_params : unit) : M C ModuleError Meta :=
  let! block_interval := sv_get block_interval in
  let! block_interval := lift (ok_or (user_error "Unexpected none") block_interval) in
  let! view_timeout := sv_get view_timeout in
  let! view_timeout := lift (ok_or (user_error "Unexpected none") view_timeout) in
  ret {| meta_block_interval := block_interval;
         meta_view_timeout := view_timeout |}.

Definition get_authorities (_sender : option Address) (_params : unit) :
    M C ModuleError Authorities :=
  let! authorities := sv_get authorities in
  lift (ok_or (user_error "Unexpected none") authorities).

Definition get_admin (_sender : option Address) (_params : unit) : M C ModuleError Admin :=
  let! admin := sv_get admin in
  lift (ok_or (user_error "Unexpected none") admin).

Definition verify_sender (sender : Address) : M C ModuleError (Z * gmap Address Z) :=
  Voting.verify_sender (admin_poll storage) sender.

Definition update_admin_vote_and_pass :
    Address → UpdateAdminProposal → Z → gmap Address Z → M C ModuleError unit :=
  vote_and_pass (admin_poll storage).

Definition update_authorities_vote_and_pass :
    Address → UpdateAuthoritiesProposal → Z → gmap Address Z → M C ModuleError unit :=
  vote_and_pass (target_poll storage).

Definition update_admin (sender : option Address) (params : UpdateAdminParams) :
    M C ModuleError unit :=
  propose (admin_poll storage) sender (aggregate_admin (p_admin params)).

Definition update_admin_vote (sender : option Address) (params : UpdateAdminVoteParams) :
    M C ModuleError unit :=
  vote_for (admin_poll storage) sender (p_admin_proposal_id params).

Definition update_authorities (sender : option Address) (params : UpdateAuthoritiesParams) :
    M C ModuleError unit :=
  propose (target_poll storage) sender (p_authorities params).

Definition update_authorities_vote (sender : option Address)
    (params : UpdateAuthoritiesVoteParams) : M C ModuleError unit :=
  vote_for (target_poll storage) sender (p_authorities_proposal_id params).

(** *** The derived codecs and the table of the calls *)
Definition codec_init : Codec InitParams :=
  iso_codec
    (sc_pair (sc_option sc_u64) (sc_pair sc_u64 (sc_pair codec_admin codec_authorities)))
    (λ '(i, (x0, (a, q))), Build_InitParams i x0 a q)
    (λ p, (init_block_interval p, (init_view_timeout p, (init_admin p, init_authorities p))))
    (λ p, match p with Build_InitParams _ _ _ _ => eq_refl end)
    (λ '(i, (x0, (a, q))), eq_refl).
Definition codec_meta : Codec Meta :=
  iso_codec (sc_pair (sc_option sc_u64) sc_u64)
    (λ '(i, x0), Build_Meta i x0)
    (λ p, (meta_block_interval p, meta_view_timeout p))
    (λ p, match p with Build_Meta _ _ => eq_refl end)
    (λ '(i, x0), eq_refl).
Definition codec_update_admin : Codec UpdateAdminParams :=
  iso_codec codec_admin Build_UpdateAdminParams p_admin
    (λ p, match p with Build_UpdateAdminParams _ => eq_refl end) (λ x, eq_refl).
Definition codec_update_admin_vote : Codec UpdateAdminVoteParams :=
  iso_codec sc_u32 Build_UpdateAdminVoteParams p_admin_proposal_id
    (λ p, match p with Build_UpdateAdminVoteParams _ => eq_refl end) (λ x, eq_refl).
Definition codec_update_authorities : Codec UpdateAuthoritiesParams :=
  iso_codec codec_authorities Build_UpdateAuthoritiesParams p_authorities
    (λ p, match p with Build_UpdateAuthoritiesParams _ => eq_refl end) (λ x, eq_refl).
Definition codec_update_authorities_vote : Codec UpdateAuthoritiesVoteParams :=
  iso_codec sc_u32 Build_UpdateAuthoritiesVoteParams p_authorities_proposal_id
    (λ p, match p with Build_UpdateAuthoritiesVoteParams _ => eq_refl end) (λ x, eq_refl).

Definition methods : list (ModuleMethod C) := [
  Build_ModuleMethod C "init" true _ _ codec_init sc_unit (Some validate_init) init;
  Build_ModuleMethod C "get_meta" false _ _ sc_unit codec_meta None get_meta;
  Build_ModuleMethod C "get_authorities" false _ _ sc_unit codec_authorities None get_authorities;
  Build_ModuleMethod C "get_admin" false _ _ sc_unit codec_admin None get_admin;
  Build_ModuleMethod C "update_admin" true _ _ codec_update_admin sc_unit None update_admin;
  Build_ModuleMethod C "update_admin_vote" true _ _ codec_update_admin_vote sc_unit None
    update_admin_vote;
  Build_ModuleMethod C "update_authorities" true _ _ codec_update_authorities sc_unit None
    update_authorities;
  Build_ModuleMethod C "update_authorities_vote" true _ _ codec_update_authorities_vote sc_unit
    None update_authorities_vote
].
Definition hotstuff_module : ModuleOps C := module_ops META_MODULE methods.

(** ** What the administration promises *)

Lemma hotstuff_storage_laws : AdministrationLaws codec_authorities storage.
Proof. constructor; [|done..]. apply (bool_decide_unpack _). by vm_compute. Qed.

(** The calls of the module that change its state after genesis. *)
Definition hotstuff_call (k : AdminCall Authorities) : M C ModuleError unit :=
  match k with
  | UpdateAdmin sender a => update_admin sender {| p_admin := a |}
  | UpdateAdminVote sender i => update_admin_vote sender {| p_admin_proposal_id := i |}
  | UpdateTarget sender q => update_authorities sender {| p_authorities := q |}
  | UpdateTargetVote sender i => update_authorities_vote sender {| p_authorities_proposal_id := i |}
  end.

(** The authorities and the administration change by a quorum only.  After
    any sequence of calls from a context without open proposals, a further
    call either leaves the administration (the authorities) as it was, or it
    stores a value for which different members of the administration in
    force, whose weights add up to its threshold, have each signed a
    successful call that proposes or votes for exactly that value. *)
Theorem hotstuff_changes_need_quorum c ks k :
  idle storage c → Forall (wf_call (CQ := codec_authorities)) ks → wf_call (CQ := codec_authorities) k →
  let h := replay storage c ks in
  let h' := record storage h k in
  h_context h' = (hotstuff_call k (h_context h)).2 ∧
  changed_by_quorum (admin_poll storage) admin (h_admin h') (h_context h) (h_context h') ∧
  changed_by_quorum (target_poll storage) authorities (h_target h') (h_context h) (h_context h').
Proof.
  intros Hc Hks Hk. cbv zeta. split; [by destruct k|].
  apply (record_changes storage hotstuff_storage_laws); [done|].
  by apply (replay_ok storage hotstuff_storage_laws).
Qed.

(** [init] works in the genesis block only; there it stores its
    parameters, which the three getters return, and leaves no proposal open
    that was not. *)
Theorem hotstuff_init_then_get c sender p :
  number (env c) = 0%Z → wf codec_init p →
  let out := init sender p c in
  let c' := out.2 in
  out.1 = Ok tt ∧
  (get_meta sender tt c').1 = 
    Ok {| meta_block_interval := init_block_interval p;
          meta_view_timeout := init_view_timeout p |} ∧
  (get_admin sender tt c').1 = Ok (init_admin p) ∧
  (get_authorities sender tt c').1 = Ok (init_authorities p) ∧
  (idle storage c → idle storage c').
Proof.
  intros Hn Hwf. cbv zeta. unfold init, bind, asks. rewrite decide_False by naive_solver.
  rewrite !sv_set_eq. unfold ret. split; [done|].
  assert (wf (sv_codec block_interval) (init_block_interval p) ∧
          wf (sv_codec view_timeout) (init_view_timeout p) ∧
          wf (sv_codec admin) (init_admin p) ∧
          wf (sv_codec authorities) (init_authorities p))
    as (Hb & H0 & Ha & Hq).
  { destruct p as [i x0 a q]. unfold codec_init in Hwf. cbn [wf iso_codec] in Hwf.
    rewrite !sc_pair_wf in Hwf. exact Hwf. }
  cbn [fst snd].
  unfold get_meta, get_admin, get_authorities, bind, lift, idle, open. rewrite !sv_get_eq.
  split_and!.
  - repeat first [rewrite sv_get_eq | progress read_back | progress cbn [ok_or]]. done.
  - by read_back.
  - by read_back.
  - cbn [snd]. intros [H1' H2'].
    rewrite !sv_read_put_ne by (apply (bool_decide_unpack _); by vm_compute). done.
Qed.
End Module.

(** ** The theorems at a concrete input *)
Section Sample.
Import Samples.

Definition sample_admin : Admin := {| threshold := 2%Z; members := [(alice, 1%Z); (bob, 1%Z)] |}.
Definition sample_params : InitParams :=
  {| init_block_interval := Some 1000%Z; init_view_timeout := 100%Z;
   init_admin := sample_admin; init_authorities := {| authority_members := [(alice, 1%Z)] |} |}.
Definition sample_context : ExecContext := (init None sample_params (empty_context 0)).2.

(** Alice proposes new authorities, Bob votes for the proposal. *)
Definition sample_calls : list (AdminCall Authorities) := [UpdateTarget (Some alice) {| authority_members := [(bob, 1%Z); (carol, 2%Z)] |}].
Definition sample_call : AdminCall Authorities := UpdateTargetVote (Some bob) 1.

Example hotstuff_sample_authorities :
  let c := h_context (replay storage sample_context (sample_calls ++ [sample_call])) in
  (get_authorities None tt (h_context (replay storage sample_context sample_calls))).1 = 
    Ok {| authority_members := [(alice, 1%Z)] |} ∧
  (get_authorities None tt c).1 = Ok {| authority_members := [(bob, 1%Z); (carol, 2%Z)] |}.
Proof. vm_compute. done. Qed.

Lemma hotstuff_changes_need_quorum_witness :
  let h := replay storage sample_context sample_calls in
  let h' := record storage h sample_call in
  h_context h' = (hotstuff_call sample_call (h_context h)).2 ∧
  changed_by_quorum (admin_poll storage) admin (h_admin h') (h_context h) (h_context h') ∧
  changed_by_quorum (target_poll storage) authorities (h_target h') (h_context h) (h_context h').
Proof.
  apply (hotstuff_changes_need_quorum sample_context sample_calls sample_call).
  - split; vm_compute; reflexivity.
  - by repeat constructor.
  - exact I.
Defined.

Lemma hotstuff_init_then_get_witness :
  (get_authorities None tt (init None sample_params (empty_context 0)).2).1 =
  Ok {| authority_members := [(alice, 1%Z)] |}.
Proof.
  apply (hotstuff_init_then_get (empty_context 0) None sample_params); [reflexivity|].
  repeat split; simpl; try done; repeat constructor; done.
Defined.
End Sample.
End HotstuffModule.
