(* ===== verification/SystemModule.v ===== *)
(** * SystemModule

    [core/module/system/src/lib.rs]: the parameters of the chain. *)
From S2P Require Import Prelude Codec Types Context ExecutorContext Administration Dispatch.

Module SystemModule.

(** [core/node/consensus/primitives/src/lib.rs] *)
Definition CONSENSUS_POA : string := "poa".
Definition CONSENSUS_RAFT : string := "raft".
Definition CONSENSUS_HOTSTUFF : string := "hotstuff".
Definition CONSENSUS_LIST : list string := [CONSENSUS_POA; CONSENSUS_RAFT; CONSENSUS_HOTSTUFF].

Record Meta := {
  meta_chain_id : string;
  meta_timestamp : Z;
  meta_max_until_gap : BlockNumber;
  meta_max_execution_gap : ExecutionGap;
  meta_consensus : string;
}.
Definition InitParams : Type := Meta.

Definition META_MODULE : bool := true.
Definition STORAGE_KEY : bytes := b "system".

Section Module.
Context {SC : Scale} {C : Type} `{CL : ContextLaws C}.

(** *** [Module::new] *)
Definition chain_id : StorageValue string :=
  sv_new sc_string META_MODULE STORAGE_KEY (b "chain_id").
Definition timestamp : StorageValue Z :=
  sv_new sc_u64 META_MODULE STORAGE_KEY (b "timestamp").
Definition max_until_gap : StorageValue BlockNumber :=
  sv_new sc_u64 META_MODULE STORAGE_KEY (b "max_until_gap").
Definition max_execution_gap : StorageValue ExecutionGap :=
  sv_new sc_i8 META_MODULE STORAGE_KEY (b "max_execution_gap").
Definition consensus : StorageValue string :=
  sv_new sc_string META_MODULE STORAGE_KEY (b "consensus").

Definition init (_sender : option Address) (params : InitParams) : M C ModuleError unit :=
  let! e := asks env in
  if decide (number e ≠ 0%Z) then throw (user_error "Not genesis")
  else
    do! sv_set chain_id (meta_chain_id params) in
    do! sv_set timestamp (meta_timestamp params) in
    do! sv_set max_until_gap (meta_max_until_gap params) in
    do! sv_set max_execution_gap (meta_max_execution_gap params) in
    do! sv_set consensus (meta_consensus params) in
    ret tt.

Definition validate_init (_sender : option Address) (params : InitParams) :
    M C ModuleError unit :=
  if negb (existsb (λ x, bool_decide (x = meta_consensus params)) CONSENSUS_LIST)
  then throw (user_error "Unknown consensus")
  else ret tt.

Definition get_meta (_sender : option Address) (_params : unit) : M C ModuleError Meta :=
  let! chain_id := sv_get chain_id in
  let! chain_id := lift (ok_or (user_error "Unexpected none") chain_id) in
  let! timestamp := sv_get timestamp in
  let! timestamp := lift (ok_or (user_error "Unexpected none") timestamp) in
  let! max_until_gap := sv_get max_until_gap in
  let! max_until_gap := lift (ok_or (user_error "Unexpected none") max_until_gap) in
  let! max_execution_gap := sv_get max_execution_gap in
  let! max_execution_gap := lift (ok_or (user_error "Unexpected none") max_execution_gap) in
  let! consensus := sv_get consensus in
  let! consensus := lift (ok_or (user_error "Unexpected none") consensus) in
  ret {| meta_chain_id := chain_id; meta_timestamp := timestamp;
         meta_max_until_gap := max_until_gap; meta_max_execution_gap := max_execution_gap;
         meta_consensus := consensus |}.

Definition codec_meta : Codec Meta :=
  iso_codec (sc_pair sc_string (sc_pair sc_u64 (sc_pair sc_u64 (sc_pair sc_i8 sc_string))))
    (λ '(i, (t, (u, (e, x)))), Build_Meta i t u e x)
    (λ m, (meta_chain_id m, (meta_timestamp m, (meta_max_until_gap m,
            (meta_max_execution_gap m, meta_consensus m)))))
    (λ m, match m with Build_Meta _ _ _ _ _ => eq_refl end)
    (λ '(i, (t, (u, (e, x)))), eq_refl).

Definition methods : list (ModuleMethod C) := [
  Build_ModuleMethod C "init" true _ _ codec_meta sc_unit (Some validate_init) init;
  Build_ModuleMethod C "get_meta" false _ _ sc_unit codec_meta None get_meta
].
Definition system_module : ModuleOps C := module_ops META_MODULE methods.

Lemma consensus_list_spec x :
  existsb (λ y, bool_decide (y = x)) CONSENSUS_LIST = true ↔ x ∈ CONSENSUS_LIST.
Proof.
  rewrite existsb_exists. setoid_rewrite bool_decide_eq_true.
  setoid_rewrite <-list_elem_of_In. split; [by intros (y & Hy & ->)|]. intros Hx. by exists x.
Qed.

(** The parameters of the chain are those of the genesis block: [init]
    passes its validation exactly when it names one of the three consensus
    algorithms, stores what [get_meta] returns in the genesis block, and in
    any other block fails and changes nothing. *)
Theorem system_init_then_get c sender p :
  wf codec_meta p →
  ((validate_init sender p c).1 = Ok tt ↔
     meta_consensus p = "poa" ∨ meta_consensus p = "raft" ∨ meta_consensus p = "hotstuff") ∧
  if decide (number (env c) = 0%Z)
  then (init sender p c).1 = Ok tt ∧ (get_meta sender tt (init sender p c).2).1 = Ok p
  else init sender p c = (Err (user_error "Not genesis"), c).
Proof.
  intros Hwf. split.
  - unfold validate_init. pose proof (consensus_list_spec (meta_consensus p)) as Hs.
    assert (meta_consensus p ∈ CONSENSUS_LIST ↔ meta_consensus p = "poa" ∨
      meta_consensus p = "raft" ∨ meta_consensus p = "hotstuff") as Hl
      by (unfold CONSENSUS_LIST, CONSENSUS_POA, CONSENSUS_RAFT, CONSENSUS_HOTSTUFF;
          rewrite !elem_of_cons, elem_of_nil; tauto).
    rewrite <-Hl, <-Hs. by destruct (existsb _ _).
  - unfold init, bind, asks. case_decide as Hn.
    2: by rewrite decide_True.
    rewrite decide_False by naive_solver. rewrite !sv_set_eq. split; [done|].
    assert (wf (sv_codec chain_id) (meta_chain_id p) ∧ wf (sv_codec timestamp) (meta_timestamp p) ∧
            wf (sv_codec max_until_gap) (meta_max_until_gap p) ∧
            wf (sv_codec max_execution_gap) (meta_max_execution_gap p) ∧
            wf (sv_codec consensus) (meta_consensus p)) as (H1 & H2 & H3 & H4 & H5).
    { destruct p. unfold codec_meta in Hwf. cbn [wf iso_codec] in Hwf.
      rewrite !sc_pair_wf in Hwf. exact Hwf. }
    unfold get_meta, bind, lift. cbn [snd fst ret].
    repeat first [rewrite sv_get_eq | progress read_back | progress cbn [ok_or]].
    by destruct p.
Qed.
End Module.

Section Sample.
Import Samples.
Definition sample_meta : Meta := Build_Meta "chain-test" 1 20 8 "poa".

Lemma system_init_then_get_witness :
  (get_meta None tt (init None sample_meta (empty_context 0)).2).1 = Ok sample_meta.
Proof.
  assert (wf codec_meta sample_meta) as Hwf by by repeat split.
  destruct (system_init_then_get (empty_context 0) None sample_meta Hwf) as [_ H].
  exact (proj2 H).
Defined.
End Sample.
End SystemModule.
