(* ===== verification/Executor.v ===== *)
(** * Executor

    The second part of [core/node/executor/src/lib.rs]: transactions are
    built, validated and executed in batches through the dispatcher.  The
    cryptographic algorithms ([core/crypto]) appear as the interface
    [Crypto]. *)
From S2P Require Import Prelude Codec Types Context ExecutorContext Dispatch Balance SystemModule Poa RaftModule HotstuffModule.

(** What the executor uses of the algorithms behind [HashImpl], [DsaImpl] and
    [AddressImpl]. *)
Class Crypto : Type := {
  hash_length : nat;
  hash_hash : bytes → bytes;
  address_length : nat;
  address_address : bytes → bytes;
  address_display : Address → string;
  KeyPair : Type;
  key_pair_from_secret_key : bytes → CommonResult KeyPair;
  kp_public_key : KeyPair → bytes;
  kp_sign : KeyPair → bytes → bytes;
  Verifier : Type;
  verifier_from_public_key : bytes → CommonResult Verifier;
  verify : Verifier → bytes → bytes → CommonResult unit;
}.

(** [impl UtilT for Util] *)
#[export] Instance executor_util `{Crypto} : Util := {
  util_hash data := Ok (hash_hash data);
  util_address data := Ok (address_address data);
  validate_address address :=
    if decide (length address ≠ address_length)
    then Err (App (InvalidAddress (address_display address)))
    else Ok tt;
}.

Section Executor.
Context {SC : Scale} {API : StateDBApi} {CR : Crypto}.
(** The table that [#[dispatcher]] builds. *)
Variable Dispatcher : list (string * ModuleOps ExecContext).
(** [struct Executor]: its mutable field. *)
Variable genesis_hash : Hash.

Definition build_call {P} (CP : Codec P) (module method : string) (params : P) : Call :=
  {| module := module; method := method; params := encode CP params |}.

(** What a witness signs: [(&nonce, &until, &call, genesis_hash)]. *)
Definition codec_message : Codec (Nonce * (BlockNumber * (Call * Hash))) :=
  sc_pair sc_u32 (sc_pair sc_u64 (sc_pair codec_call sc_bytes)).
Definition message (nonce : Nonce) (until : BlockNumber) (call : Call) : bytes :=
  encode codec_message (nonce, (until, (call, genesis_hash))).

Definition build_tx (witness : option (SecretKey * Nonce * BlockNumber)) (call : Call) :
    CommonResult Transaction :=
  let? _ := dispatch_check_call Dispatcher (module call) call in
  let? witness :=
    (match witness with
     | Some (secret_key, nonce, until) =>
         let message := message nonce until call in
         let? key_pair := key_pair_from_secret_key secret_key in
         Ok (Some {| w_public_key := kp_public_key key_pair;
                     w_signature := kp_sign key_pair message;
                     w_nonce := nonce; w_until := until |})
     | None => Ok None
     end) in
  Ok {| witness := witness; call := call |}.

(** The sender of a transaction is the address of its public key. *)
Definition sender_of (tx : Transaction) : option Address :=
  (λ w, address_address (w_public_key w)) <$> witness tx.

Definition validate_witness (tx : Transaction) (witness_required : bool) : CommonResult unit :=
  match witness tx with
  | Some w =>
      let message := message (w_nonce w) (w_until w) (call tx) in
      let? verifier := verifier_from_public_key (w_public_key w) in
      map_err (λ _, EExecutor (InvalidTxWitness "Invalid signature"))
        (verify verifier message (w_signature w))
  | None =>
      if witness_required
      then Err (EExecutor (InvalidTxWitness "Missing witness"))
      else Ok tt
  end.

Definition validate_tx (tx : Transaction) (witness_required : bool) :
    M ExecContext CommonError unit :=
  do! lift (validate_witness tx witness_required) in
  let call := call tx in
  let sender := sender_of tx in
  let! result := dispatch_validate_call Dispatcher (module call) sender call in
  do! lift (match result with
            | Ok _ => Ok tt
            | Err e => Err (EExecutor (Application e))
            end) in
  let! write := lift (dispatch_is_write_call Dispatcher (module call) call) in
  if negb write : bool
  then throw (EExecutor (InvalidTxMethod (method call +:+ ": not write")))
  else ret tt.

Definition is_meta_call (call : Call) : CommonResult bool := is_meta Dispatcher (module call).

Definition execute_call (sender : option Address) (call : Call) :
    M ExecContext CommonError OpaqueCallResult :=
  let! result := dispatch_validate_call Dispatcher (module call) sender call in
  match result with
  | Ok _ => dispatch_execute_call Dispatcher (module call) sender call
  | Err e => ret (Err e)
  end.

(** [?] on a call of the context in a function of the executor. *)
Definition in_common {A} (m : M ExecContext ModuleError A) : M ExecContext CommonError A :=
  λ c, let '(r, c) := m c in (map_err module_error_to_common r, c).

(** The part of the loop of [execute_txs] that executes one transaction. *)
Definition execute_tx (t : FullTransaction) : M ExecContext CommonError FullReceipt :=
  let call := call (tx t) in
  let sender := sender_of (tx t) in
  do! modify (with_call_env {| ce_tx_hash := Some (tx_hash t) |}) in
  let! result := dispatch_execute_call Dispatcher (module call) sender call in
  let! events :=
    (match result with
     | Ok _ =>
         let! items := in_common meta_drain_tx_buffer in
         do! in_common (meta_apply items) in
         let! items := in_common payload_drain_tx_buffer in
         do! in_common (payload_apply items) in
         in_common drain_tx_events
     | Err _ =>
         do! in_common meta_drain_tx_buffer in
         do! in_common payload_drain_tx_buffer in
         do! in_common drain_tx_events in
         ret []
     end) in
  let! e := asks env in
  ret {| receipt := {| rc_block_number := number e; rc_events := events; rc_result := result |};
         rc_tx_hash := tx_hash t |}.

(** The loop: [txs_is_meta] is the kind of the transactions so far. *)
Fixpoint execute_loop (txs_is_meta : option bool) (txs : list FullTransaction) :
    M ExecContext CommonError (option bool * list FullReceipt) :=
  match txs with
  | [] => ret (txs_is_meta, [])
  | t :: txs =>
      let! is_meta := lift (is_meta Dispatcher (module (call (tx t)))) in
      let! kind := lift
        (match txs_is_meta with
         | None => Ok is_meta
         | Some k =>
             if decide (k ≠ is_meta)
             then Err (EExecutor (InvalidTxs "Mixed meta and payload in one txs batch"))
             else Ok k
         end) in
      let! receipt := execute_tx t in
      let! (kind, receipts) := execute_loop (Some kind) txs in
      ret (kind, receipt :: receipts)
  end.

Definition execute_txs (txs : list FullTransaction) : M ExecContext CommonError unit :=
  let! (txs_is_meta, receipts) := execute_loop None txs in
  do! modify (λ c, if decide (txs_is_meta = Some false) then with_payload_phase true c else c) in
  let! phase := asks payload_phase in
  if andb phase (bool_decide (txs_is_meta = Some true))
  then throw (EExecutor (InvalidTxs "Meta after payload not allowed"))
  else
    modify (match txs_is_meta with
            | Some true => append_meta txs receipts
            | Some false => append_payload txs receipts
            | None => id
            end).

(** [Executor::hash_slice], [hash], [hash_transaction] and [default_hash] *)
Definition hash_slice (data : bytes) : Hash := hash_hash data.
Definition hash {D} (CD : Codec D) (data : D) : CommonResult Hash :=
  Ok (hash_slice (encode CD data)).
Definition hash_transaction (tx : Transaction) : CommonResult Hash :=
  hash codec_transaction_for_hash (transaction_for_hash tx).
Definition default_hash : Hash := repeat Byte.x00 hash_length.
End Executor.

(** ** What a transaction does to the context *)
Section Transactions.
Context {SC : Scale} {API : StateDBApi} {CR : Crypto}.
Variable Dispatcher : list (string * ModuleOps ExecContext).

(** The pending writes of both states and the pending events replaced. *)
Definition with_tx_buffer (m : gmap DBKey (option DBValue)) (s : ContextState) : ContextState :=
  {| statedb_getter := statedb_getter s; tx_buffer := m; buffer := buffer s |}.
Definition overlay (m p : gmap DBKey (option DBValue)) (es : list Event) (c : ExecContext) :
    ExecContext :=
  with_events es (with_payload_state (with_tx_buffer p (payload_state c))
    (with_meta_state (with_tx_buffer m (meta_state c)) c)).

(** Nothing is pending. *)
Definition clean (c : ExecContext) : Prop := overlay ∅ ∅ [] c = c.

(** The pending writes become part of the applied ones, or are dropped. *)
Definition settle (s : ContextState) : ContextState :=
  {| statedb_getter := statedb_getter s; tx_buffer := ∅; buffer := tx_buffer s ∪ buffer s |}.
Definition commit (c : ExecContext) : ExecContext :=
  with_events [] (with_payload_state (settle (payload_state c))
    (with_meta_state (settle (meta_state c)) c)).
Definition discard (c : ExecContext) : ExecContext := overlay ∅ ∅ [] c.

Lemma touches_overlay c c' : touches c c' → ∃ m p es, c' = overlay m p es c.
Proof.
  induction 1 as [c|c c' meta k v _ (m & p & es & ->)|c c' e _ (m & p & es & ->)].
  - exists (tx_buffer (meta_state c)), (tx_buffer (payload_state c)), (events c).
    by destruct c as [? ? ? ? [] ? ? ? ? [] ? ? ? ?].
  - destruct meta; [by exists (<[k := v]> m), p, es|by exists m, (<[k := v]> p), es].
  - by exists m, p, (es ++ [e]).
Qed.

Lemma discard_touches c c' : clean c → touches c c' → discard c' = c.
Proof. intros Hc (m & p & es & ->)%touches_overlay. exact Hc. Qed.

Lemma clean_commit c : clean (commit c).
Proof. done. Qed.
Lemma clean_discard c : clean (discard c).
Proof. done. Qed.
Lemma clean_call_env e c : clean c → clean (with_call_env e c).
Proof. unfold clean. intros Hc. by rewrite <-Hc. Qed.

(** Applying the pending writes does not change what is read. *)
Lemma settle_get s k : state_get (settle s) k = state_get s k.
Proof.
  unfold state_get. simpl. rewrite lookup_empty, lookup_union.
  destruct (tx_buffer s !! k) as [v|]; simpl; [by destruct (buffer s !! k)|].
  by destruct (buffer s !! k).
Qed.
Lemma read_commit m k c : read m k (commit c) = read m k c.
Proof. destruct m; apply settle_get. Qed.

Lemma execute_tx_eq t c :
  let c0 := with_call_env {| ce_tx_hash := Some (tx_hash t) |} c in
  let call := call (tx t) in
  execute_tx Dispatcher t c =
  match dispatch_execute_call Dispatcher (module call) (sender_of (tx t)) call c0 with
  | (Err e, c1) => (Err e, c1)
  | (Ok r, c1) =>
      let c2 := match r with Ok _ => commit c1 | Err _ => discard c1 end in
      (Ok {| receipt := {| rc_block_number := number (cx_env c2);
                           rc_events := match r with Ok _ => events c1 | Err _ => [] end;
                           rc_result := r |};
             rc_tx_hash := tx_hash t |}, c2)
  end.
Proof.
  cbv zeta. unfold execute_tx, bind at 1, modify. cbv beta iota.
  unfold bind at 1. destruct (dispatch_execute_call _ _ _ _ _) as [[r|e] c1]; [|done].
  destruct r as [bs|e]; [|done].
  unfold bind, in_common, asks, ret. simpl. unfold commit, settle, state_apply. simpl.
  by rewrite !apply_drained.
Qed.

(** The modules use the context through its interface. *)
Definition confined_modules : Prop :=
  ∀ name sender call, Confined (dispatch_execute_call Dispatcher name sender call).
Definition confined_validators : Prop :=
  ∀ name sender call, Confined (dispatch_validate_call Dispatcher name sender call).

(** Validating a transaction writes to the buffers of the context at most, as
    the code of a contract may. *)
Lemma validate_tx_touches genesis t required c :
  confined_validators → touches c (validate_tx Dispatcher genesis t required c).2.
Proof.
  intros HD. assert (Confined (validate_tx Dispatcher genesis t required)) as H; [|apply H].
  unfold validate_tx. apply confined_bind; [apply _|]. intros _.
  apply confined_bind; [apply HD|]. intros r. solve_confined.
Qed.

Lemma execute_tx_spec t c r c' :
  confined_modules → clean c → execute_tx Dispatcher t c = (Ok r, c') →
  clean c' ∧ rc_tx_hash r = tx_hash t ∧ rc_block_number (receipt r) = number (env c) ∧
  match rc_result (receipt r) with
  | Ok _ => True
  | Err _ => rc_events (receipt r) = [] ∧
             c' = with_call_env {| ce_tx_hash := Some (tx_hash t) |} c
  end.
Proof.
  intros Hm Hc. rewrite execute_tx_eq.
  set (c0 := with_call_env _ c). assert (clean c0) as Hc0 by by apply clean_call_env.
  pose proof (Hm (module (call (tx t))) (sender_of (tx t)) (call (tx t)) c0) as Ht.
  destruct (dispatch_execute_call _ _ _ _ _) as [[res|e] c1]; [|done]. simpl in Ht.
  intros [= <- <-]. simpl.
  assert (cx_env c1 = cx_env c) as Henv by (by apply touches_env in Ht).
  destruct res as [bs|e]; simpl.
  - by rewrite Henv.
  - rewrite Henv. split_and!; try done. by apply discard_touches.
Qed.
End Transactions.

(** ** The calls of the modules are confined *)
Section ConfinedModules.
Context {C : Type} `{CL : ContextLaws C}.

Lemma confined_gen_execute_call (methods : list (ModuleMethod C)) sender call :
  (∀ m sender p, m ∈ methods → Confined (method_body m sender p)) →
  Confined (gen_execute_call methods sender call).
Proof.
  intros Hm. unfold gen_execute_call, find_method.
  destruct (list_find _ methods) as [[i m]|] eqn:Hf; simpl; [|apply _].
  apply list_find_Some in Hf as (Hi & _ & _). apply list_elem_of_lookup_2 in Hi.
  apply confined_bind; [apply _|]. intros p. apply confined_bind; [by apply Hm|]. apply _.
Qed.

Lemma confined_dispatch (modules : list (string * ModuleOps C)) name sender call :
  (∀ n m, (n, m) ∈ modules → ∀ sender call, Confined (Context.execute_call m sender call)) →
  Confined (dispatch_execute_call modules name sender call).
Proof.
  intros Hm. unfold dispatch_execute_call, find_module.
  destruct (list_find _ modules) as [[i [n m]]|] eqn:Hf; simpl; [|apply _].
  apply list_find_Some in Hf as (Hi & _ & _). apply list_elem_of_lookup_2 in Hi.
  intros c. specialize (Hm n m Hi sender call c). by destruct (Context.execute_call m sender call c).
Qed.
Lemma confined_gen_validate_call (methods : list (ModuleMethod C)) sender call :
  (∀ m f sender p, m ∈ methods → validate_ident m = Some f → Confined (f sender p)) →
  Confined (gen_validate_call methods sender call).
Proof.
  intros Hm. unfold gen_validate_call, find_method.
  destruct (list_find _ methods) as [[i m]|] eqn:Hf; simpl; [|apply _].
  apply list_find_Some in Hf as (Hi & _ & _). apply list_elem_of_lookup_2 in Hi.
  apply confined_bind; [apply _|]. intros p.
  destruct (validate_ident m) as [f|] eqn:Hv; [by apply (Hm m f)|apply _].
Qed.
Lemma confined_dispatch_validate (modules : list (string * ModuleOps C)) name sender call :
  (∀ n m, (n, m) ∈ modules → ∀ sender call, Confined (validate_call m sender call)) →
  Confined (dispatch_validate_call modules name sender call).
Proof.
  intros Hm. unfold dispatch_validate_call, find_module.
  destruct (list_find _ modules) as [[i [n m]]|] eqn:Hf; simpl; [|apply _].
  apply list_find_Some in Hf as (Hi & _ & _). apply list_elem_of_lookup_2 in Hi.
  intros c. specialize (Hm n m Hi sender call c). by destruct (validate_call m sender call c).
Qed.

Lemma confined_vote_and_pass {P} (V : Voting.Poll C P) s p t m :
  (∀ p, Confined (Voting.enact V p)) → (∀ p, Confined (Voting.emit_voted V p)) →
  (∀ p, Confined (Voting.emit_passed V p)) →
  Confined (Voting.vote_and_pass V s p t m).
Proof. intros. unfold Voting.vote_and_pass. solve_confined. Qed.
Lemma confined_propose {P} (V : Voting.Poll C P) sender x :
  (∀ p, Confined (Voting.emit_created V p)) →
  (∀ s p t m, Confined (Voting.vote_and_pass V s p t m)) → Confined (Voting.propose V sender x).
Proof. intros. unfold Voting.propose, Voting.verify_sender. solve_confined. Qed.
Lemma confined_vote_for {P} (V : Voting.Poll C P) sender i :
  (∀ s p t m, Confined (Voting.vote_and_pass V s p t m)) → Confined (Voting.vote_for V sender i).
Proof. intros. unfold Voting.vote_for, Voting.verify_sender. solve_confined. Qed.
End ConfinedModules.

(** The calls of a module, one by one. *)
Ltac confined_methods :=
  intros sender call; apply confined_gen_execute_call; intros m s p Hm;
  repeat (apply elem_of_cons in Hm as [->|Hm]); [..|by apply not_elem_of_nil in Hm];
  simpl in p |- *.
Ltac confined_method f := unfold f; solve_confined.
(** The validations, one by one; most do nothing else than to check addresses. *)
Ltac confined_validators :=
  intros sender call; apply confined_gen_validate_call; intros m f s p Hm Hf;
  repeat (apply elem_of_cons in Hm as [->|Hm]; [try discriminate Hf; injection Hf as <-|]);
  try by apply not_elem_of_nil in Hm.
Ltac confined_poll :=
  first [apply confined_propose|apply confined_vote_for]; intros;
  try (apply confined_vote_and_pass; intros); simpl; apply _.

(** [enum Dispatcher]; the module contract, which runs the virtual machine, is
    an argument ([ContractModule.contract_module]). *)
Section TheDispatcher.
Context {SC : Scale} {CR : Crypto} {API : StateDBApi}.
Context {S1 : Serialize Balance.Transferred}.
Context {S2 : Serialize (Administration.ProposalData Voting.Admin)}.
Context {S3 : Serialize (Administration.ProposalData Address)}.
Context {S4 : Serialize (Administration.ProposalData RaftModule.Authorities)}.
Context {S5 : Serialize (Administration.ProposalData HotstuffModule.Authorities)}.
Variable contract : ModuleOps ExecContext.

Definition Dispatcher : list (string * ModuleOps ExecContext) := [
  ("system", SystemModule.system_module);
  ("balance", Balance.balance_module);
  ("poa", Poa.poa_module);
  ("raft", RaftModule.raft_module);
  ("hotstuff", HotstuffModule.hotstuff_module);
  ("contract", contract)
].

Lemma confined_system sender call : Confined (Context.execute_call SystemModule.system_module sender call).
Proof.
  revert sender call. confined_methods.
  - confined_method @SystemModule.init.
  - confined_method @SystemModule.get_meta.
Qed.
Lemma confined_balance sender call : Confined (Context.execute_call Balance.balance_module sender call).
Proof.
  revert sender call. confined_methods.
  - confined_method @Balance.init.
  - confined_method @Balance.get_balance.
  - confined_method @Balance.transfer.
Qed.
Lemma confined_poa sender call : Confined (Context.execute_call Poa.poa_module sender call).
Proof.
  revert sender call. confined_methods.
  1: confined_method @Poa.init.
  1: confined_method @Poa.get_meta.
  1: confined_method @Poa.get_authority.
  1: confined_method @Poa.get_admin.
  all: confined_poll.
Qed.
Lemma confined_raft sender call : Confined (Context.execute_call RaftModule.raft_module sender call).
Proof.
  revert sender call. confined_methods.
  1: confined_method @RaftModule.init.
  1: confined_method @RaftModule.get_meta.
  1: confined_method @RaftModule.get_authorities.
  1: confined_method @RaftModule.get_admin.
  all: confined_poll.
Qed.
Lemma confined_hotstuff sender call :
  Confined (Context.execute_call HotstuffModule.hotstuff_module sender call).
Proof.
  revert sender call. confined_methods.
  1: confined_method @HotstuffModule.init.
  1: confined_method @HotstuffModule.get_meta.
  1: confined_method @HotstuffModule.get_authorities.
  1: confined_method @HotstuffModule.get_admin.
  all: confined_poll.
Qed.

Lemma confined_dispatcher :
  (∀ sender call, Confined (Context.execute_call contract sender call)) →
  confined_modules Dispatcher.
Proof.
  intros Hc name sender call. apply confined_dispatch. intros n m Hm.
  unfold Dispatcher in Hm.
  repeat (apply elem_of_cons in Hm as [[= -> ->]|Hm]); [..|by apply not_elem_of_nil in Hm].
  - apply confined_system.
  - apply confined_balance.
  - apply confined_poa.
  - apply confined_raft.
  - apply confined_hotstuff.
  - apply Hc.
Qed.

Lemma confined_validators_dispatcher :
  (∀ sender call, Confined (validate_call contract sender call)) →
  confined_validators Dispatcher.
Proof.
  intros Hc name sender call. apply confined_dispatch_validate. intros n m Hm. unfold Dispatcher in Hm.
  repeat (apply elem_of_cons in Hm as [[= -> ->]|Hm]); [..|by apply not_elem_of_nil in Hm];
    clear sender call; [..|exact Hc]; confined_validators.
  - confined_method @SystemModule.validate_init.
  - confined_method @Balance.validate_init.
  - confined_method @Balance.validate_transfer.
  - confined_method @Poa.validate_init.
  - confined_method @RaftModule.validate_init.
  - confined_method @HotstuffModule.validate_init.
Qed.
End TheDispatcher.
