(* ===== verification/ExecutorProofs.v ===== *)
(** * ExecutorProofs

    What the executor promises: a transaction is applied as a whole or not at
    all, a batch is executed in order with one receipt for each transaction,
    calls reach the method they name, signatures cover the whole transaction,
    and a batch of transfers conserves the money. *)
From S2P Require Import Prelude Codec Types Context ExecutorContext Dispatch Balance SystemModule Poa RaftModule HotstuffModule Voting Administration Executor.

Section Batches.
Context {SC : Scale} {API : StateDBApi} {CR : Crypto}.
Variable D : list (string * ModuleOps ExecContext).

(** The parts of the context that a transaction does not touch. *)
Definition stable (c c' : ExecContext) : Prop :=
  cx_env c' = cx_env c ∧ payload_phase c' = payload_phase c ∧
  meta_txs c' = meta_txs c ∧ meta_receipts c' = meta_receipts c ∧
  payload_txs c' = payload_txs c ∧ payload_receipts c' = payload_receipts c.

#[global] Instance stable_preorder : PreOrder stable.
Proof. unfold stable. split; [done|]. intros c1 c2 c3. intuition congruence. Qed.

Lemma touches_stable c c' : touches c c' → stable c c'.
Proof. intros (m & p & es & ->)%touches_overlay. done. Qed.

Lemma execute_tx_stable t c :
  Confined (dispatch_execute_call D (module (call (tx t))) (sender_of (tx t)) (call (tx t))) →
  stable c (execute_tx D t c).2.
Proof.
  intros Hconf. rewrite execute_tx_eq. set (c0 := with_call_env _ c).
  pose proof (touches_stable _ _ (Hconf c0)) as Ht. destruct (dispatch_execute_call _ _ _ _ _) as [[[r|e]|e] c1]; exact Ht.
Qed.

Hypothesis confined : confined_modules D.

(** The kind of the module a transaction calls. *)
Definition tx_is_meta (t : FullTransaction) : CommonResult bool :=
  is_meta D (module (call (tx t))).

(** The receipt of a transaction of the block with the given environment. *)
Definition receipt_of (e : ContextEnv) (t : FullTransaction) (r : FullReceipt) : Prop :=
  rc_tx_hash r = tx_hash t ∧ rc_block_number (receipt r) = number e ∧
  (is_ok (rc_result (receipt r)) = false → rc_events (receipt r) = []).

Lemma execute_loop_ok kind txs c k rs c' :
  clean c → execute_loop D kind txs c = (Ok (k, rs), c') →
  clean c' ∧ stable c c' ∧ Forall2 (receipt_of (cx_env c)) txs rs ∧
  (txs = [] ∧ k = kind ∨
   ∃ b, k = Some b ∧ (kind = None ∨ kind = Some b) ∧ Forall (λ t, tx_is_meta t = Ok b) txs).
Proof.
  revert kind c k rs c'. induction txs as [|t txs IH]; intros kind c k rs c' Hc Hrun; simpl in Hrun.
  { injection Hrun as <- <- <-. split_and!; [done|done|constructor|by left]. }
  unfold bind, lift in Hrun. fold (tx_is_meta t) in Hrun.
  destruct (tx_is_meta t) as [b|] eqn:Hb; [|done].
  destruct (match kind with None => _ | Some _ => _ end) as [kd|] eqn:Hk; [|done].
  assert (kd = b ∧ (kind = None ∨ kind = Some b)) as [-> Hkind].
  { destruct kind as [k0|]; [case_decide as Hne; [done|]|];
      injection Hk as Hk; subst; split; auto. }
  pose proof (execute_tx_stable t c (confined _ _ _)) as Hst.
  destruct (execute_tx D t c) as [[r|] c1] eqn:Ht; [|done]. simpl in Hst.
  pose proof (execute_tx_spec D t c r c1 confined Hc Ht) as (Hc1 & Hr1 & Hr2 & Hr3).
  destruct (execute_loop D (Some b) txs c1) as [[[k1 rs1]|] c2] eqn:Hl; [|done].
  injection Hrun as <- <- <-.
  destruct (IH _ _ _ _ _ Hc1 Hl) as (Hc2 & Hst2 & Hrs & Hkinds).
  split; [done|]. split; [by etrans|]. split.
  - constructor.
    + split_and!; [done|done|]. intros Herr. destruct (rc_result (receipt r)); [done|by apply Hr3].
    + by rewrite (proj1 Hst) in Hrs.
  - right. exists b. destruct Hkinds as [[-> ->]|(b' & -> & [|[= ->]] & Hall)]; try done.
    + split_and!; [done|done|by repeat constructor].
    + split_and!; [done|done|by constructor].
Qed.

(** C21: a transaction is applied as a whole or not at all, as the module that
    it names answers its call, in a context where its hash is that of the
    running transaction.  When the module accepts the call, the receipt holds
    the bytes that it returns and exactly the events it emitted, and every
    later read of the state returns what the module left; when the module
    rejects it, the receipt holds the text of that error and no event, and the
    context is the one before the transaction but for the hash of the running
    transaction.  In both cases the receipt is that of the transaction in the
    block that is executed, and nothing is pending afterwards.  A system error
    of the module, and it alone, is an error of the execution, as is an unknown
    module.  Nothing is pending before, and the modules are any that use the
    context by its operations alone, as those of the node do
    ([confined_modules]). *)
Theorem tx_commits_or_rolls_back t c r c' :
  clean c → execute_tx D t c = (r, c') →
  let c0 := with_call_env {| ce_tx_hash := Some (tx_hash t) |} c in
  match find_module D (module (call (tx t))) with
  | None => r = Err (EExecutor (InvalidTxModule (module (call (tx t))))) ∧ c' = c0
  | Some m =>
      let '(answer, c1) := Context.execute_call m (sender_of (tx t)) (call (tx t)) c0 in
      match answer with
      | Err (System e) => r = Err e
      | _ => clean c' ∧ ∃ x, r = Ok x ∧ rc_tx_hash x = tx_hash t ∧
          rc_block_number (receipt x) = number (cx_env c) ∧
          match answer with
          | Ok bs => rc_result (receipt x) = Ok bs ∧ rc_events (receipt x) = events c1 ∧
                     ∀ meta key, read meta key c' = read meta key c1
          | Err (App e) => rc_result (receipt x) = Err (application_error_to_string e) ∧
                           rc_events (receipt x) = [] ∧ c' = c0
          | Err (System _) => False
          end
      end
  end.
Proof.
  intros Hc Hrun c0. pose proof (λ x, execute_tx_spec D t c x c' confined Hc) as Hspec.
  rewrite execute_tx_eq in Hrun, Hspec. fold c0 in Hrun, Hspec.
  unfold dispatch_execute_call in Hrun, Hspec. destruct (find_module D _) as [m|]; [|by injection Hrun as <- <-].
  destruct (Context.execute_call m _ _ c0) as [[bs|[e|e]] c1]; cbn in Hrun, Hspec |- *.
  2: by injection Hrun.
  all: injection Hrun as <- <-; destruct (Hspec _ eq_refl) as (Hc' & Hh & Hn & Hr); split; [done|].
  all: eexists; split; [done|]; split; [done|]; split; [done|]; cbn in *.
  - split_and!; [done|done|]. intros. apply read_commit.
  - by destruct Hr as [_ ->].
Qed.

(** An accepted batch is executed in order.  All its transactions are
    of one kind, each gets one receipt, and the transactions and receipts
    are appended to the lists of that kind and of no other; a batch of meta
    transactions is accepted before the first payload transaction only. *)
Theorem batch_appends txs c c' :
  clean c → execute_txs D txs c = (Ok tt, c') →
  clean c' ∧
  ∃ rs, Forall2 (receipt_of (cx_env c)) txs rs ∧
    ((txs = [] ∧ stable c c') ∨
     (Forall (λ t, tx_is_meta t = Ok true) txs ∧ payload_phase c = false ∧
      stable (append_meta txs rs c) c') ∨
     (Forall (λ t, tx_is_meta t = Ok false) txs ∧
      stable (append_payload txs rs (with_payload_phase true c)) c')).
Proof.
  intros Hc. unfold execute_txs, bind at 1.
  destruct (execute_loop D None txs c) as [[[k rs]|] c1] eqn:Hl; [|done].
  destruct (execute_loop_ok _ _ _ _ _ _ Hc Hl) as (Hc1 & Hst & Hrs & Hk).
  unfold bind, modify, asks, throw. destruct Hst as (E1 & E2 & E3 & E4 & E5 & E6).
  destruct Hk as [[-> ->]|(b & -> & _ & Hall)]; [|destruct b]; simpl.
  - rewrite andb_false_r. intros [= <-]. split; [done|]. exists rs. split; [done|]. by left.
  - rewrite andb_true_r. destruct (payload_phase c1) eqn:Hp; [done|]. intros [= <-].
    split; [by unfold clean; rewrite <-Hc1|]. exists rs. split; [done|]. right; left.
    split; [done|]. split; [congruence|]. unfold stable. simpl. rewrite E3, E4. split_and!; congruence.
  - intros [= <-]. split; [by unfold clean; rewrite <-Hc1|]. exists rs.
    split; [done|]. right; right. split; [done|]. unfold stable. simpl. rewrite E5, E6. split_and!; congruence.
Qed.

(** A batch of meta transactions that comes after a payload batch is
    rejected, but only after it has been executed: its receipts are dropped
    (no list of transactions or receipts changes) while its writes stay
    applied, in the context the loop has reached. *)
Theorem meta_after_payload txs c rs c1 :
  clean c → payload_phase c = true → execute_loop D None txs c = (Ok (Some true, rs), c1) →
  execute_txs D txs c = (Err (EExecutor (InvalidTxs "Meta after payload not allowed")), c1) ∧
  stable c c1.
Proof.
  intros Hc Hp Hl. destruct (execute_loop_ok _ _ _ _ _ _ Hc Hl) as (_ & Hst & _).
  split; [|done]. destruct Hst as (E1 & E2 & _). unfold execute_txs, bind. rewrite Hl.
  unfold modify, asks. simpl. by rewrite E2, Hp.
Qed.
End Batches.

(** ** Calls and signatures *)
Section Calls.
Context {SC : Scale} {API : StateDBApi} {CR : Crypto}.

(** What a call that names a method of a module executes. *)
Definition run_method (m : ModuleMethod ExecContext) (sender : option Address)
    (p : MParams m) : M ExecContext CommonError OpaqueCallResult := λ c,
  let '(r, c') := method_body m sender p c in
  (split_result (match r with Ok x => Ok (encode (return_codec m) x) | Err e => Err e end), c').

Lemma built_call_execute (D : list (string * ModuleOps ExecContext)) meta methods
    name method (m : ModuleMethod ExecContext) p sender c :
  find_module D name = Some (module_ops meta methods) →
  find_method methods method = Some m → wf (params_codec m) p →
  dispatch_execute_call D name sender (build_call (params_codec m) name method p) c =
    run_method m sender p c.
Proof.
  intros Hm Hf Hp. unfold dispatch_execute_call, run_method.
  rewrite Hm. simpl. unfold gen_execute_call. simpl.
  rewrite Hf. unfold decode_params. simpl. rewrite decode_encode by done.
  unfold bind, lift. simpl. by destruct (method_body m sender p c) as [[]].
Qed.

(** A call that is built for a method of a module reaches that method
    with the parameters it was built from, and its result comes back
    encoded, application errors as text. *)
Theorem built_call_is_dispatched (D : list (string * ModuleOps ExecContext)) meta methods
    name method (m : ModuleMethod ExecContext) p sender c :
  find_module D name = Some (module_ops meta methods) →
  find_method methods method = Some m → wf (params_codec m) p →
  let call := build_call (params_codec m) name method p in
  dispatch_is_write_call D name call = Ok (write m) ∧
  dispatch_check_call D name call = Ok tt ∧
  dispatch_execute_call D name sender call c = run_method m sender p c.
Proof.
  intros Hm Hf Hp. cbv zeta. split_and!; [| |by eapply built_call_execute].
  - unfold dispatch_is_write_call. rewrite Hm. simpl. unfold gen_is_write_call. simpl.
    by rewrite Hf.
  - unfold dispatch_check_call. rewrite Hm. simpl. unfold gen_check_call. simpl.
    rewrite Hf. unfold decode_params. simpl. by rewrite decode_encode.
Qed.

(** Signing and verifying agree. *)
Definition sign_verifies : Prop := ∀ secret_key key_pair msg,
  key_pair_from_secret_key secret_key = Ok key_pair →
  ∃ v, verifier_from_public_key (kp_public_key key_pair) = Ok v ∧
       verify v msg (kp_sign key_pair msg) = Ok tt.

(** What is signed determines the nonce, the block until which it is valid,
    the call and the genesis block. *)
Lemma message_inj genesis nonce until call genesis' nonce' until' call' :
  is_u32 nonce → is_u32 nonce' → is_u64 until → is_u64 until' →
  message genesis' nonce' until' call' = message genesis nonce until call →
  genesis' = genesis ∧ nonce' = nonce ∧ until' = until ∧ call' = call.
Proof.
  intros Hn Hn' Hu Hu' Heq. unfold message in Heq.
  apply (encode_inj codec_message) in Heq; [by simplify_eq| |];
    unfold codec_message;
    repeat (rewrite sc_pair_wf; cbn [fst snd]); rewrite sc_u32_wf, sc_u64_wf;
    split_and!; auto using codec_call_wf with codec.
Qed.

(** A transaction that is built with a key carries a witness that
    validates on the chain with the same genesis block, and what is signed
    determines the nonce, the block until which it is valid, the call and
    the genesis block, so the signature is not valid for another one. *)
Theorem built_tx_witness (D : list (string * ModuleOps ExecContext)) genesis sk nonce until call t
    required :
  sign_verifies → build_tx D genesis (Some (sk, nonce, until)) call = Ok t →
  validate_witness genesis t required = Ok tt ∧
  (∀ genesis' nonce' until' call',
     is_u32 nonce → is_u32 nonce' → is_u64 until → is_u64 until' →
     message genesis' nonce' until' call' = message genesis nonce until call →
     genesis' = genesis ∧ nonce' = nonce ∧ until' = until ∧ call' = call).
Proof.
  intros Hs Hb. split.
  - unfold build_tx in Hb. destruct (dispatch_check_call D (module call) call); [|done]. simpl in Hb.
    destruct (key_pair_from_secret_key sk) as [kp|] eqn:Hk; [|done]. simpl in Hb.
    injection Hb as <-. unfold validate_witness. simpl.
    destruct (Hs sk kp (message genesis nonce until call) Hk) as (v & -> & Hv). simpl.
    by rewrite Hv.
  - intros *. apply message_inj.
Qed.

(** The signature of a transaction is present where it is required, and holds
    for everything the transaction says. *)
Definition witnessed (genesis : Hash) (t : Transaction) (required : bool) : Prop :=
  match witness t with
  | Some w => ∃ v, verifier_from_public_key (w_public_key w) = Ok v ∧
      is_ok (verify v (message genesis (w_nonce w) (w_until w) (call t)) (w_signature w)) = true
  | None => required = false
  end.

Record accepted (D : list (string * ModuleOps ExecContext)) (genesis : Hash) (t : Transaction)
    (required : bool) (c c' : ExecContext) : Prop := {
  accepted_witness : witnessed genesis t required;
  accepted_params : dispatch_validate_call D (module (call t)) (sender_of t) (call t) c =
    (Ok (Ok tt), c');
  accepted_write : dispatch_is_write_call D (module (call t)) (call t) = Ok true;
}.

Lemma witnessed_spec genesis t required :
  validate_witness genesis t required = Ok tt ↔ witnessed genesis t required.
Proof.
  unfold validate_witness, witnessed. destruct (witness t) as [w|]; [|by destruct required].
  destruct (verifier_from_public_key _) as [v|e]; simpl; [|naive_solver].
  destruct (verify _ _ _) as [u|] eqn:Hv; simpl; [|split; [done|]; intros (?&[= <-]&H); by rewrite Hv in H].
  destruct u. split; [|done]. intros _. exists v. by rewrite Hv.
Qed.

Lemma validate_tx_accepted (D : list (string * ModuleOps ExecContext)) genesis t required c c' :
  validate_tx D genesis t required c = (Ok tt, c') ↔ accepted D genesis t required c c'.
Proof.
  split.
  - unfold validate_tx, bind, lift.
    destruct (validate_witness genesis t required) as [[]|] eqn:Hw; [|done].
    destruct (dispatch_validate_call _ _ _ _ _) as [[[[]|]|] c1] eqn:Hv; [|done..].
    destruct (dispatch_is_write_call _ _ _) as [[]|] eqn:Hd; [|done..]. intros [= <-].
    split; [by apply witnessed_spec|done|done].
  - intros [Hw%witnessed_spec Hv Hd]. unfold validate_tx, bind, lift.
    by rewrite Hw, Hv, Hd.
Qed.

(** What the owner of a key may have meant to send: on the chain with a genesis
    block, a call, with a nonce, valid until a block. *)
Record Order := {
  o_genesis : Hash;
  o_nonce : Nonce;
  o_until : BlockNumber;
  o_call : Call;
}.
Definition order_ok (o : Order) : Prop := is_u32 (o_nonce o) ∧ is_u64 (o_until o).
Definition order_message (o : Order) : bytes := message (o_genesis o) (o_nonce o) (o_until o) (o_call o).

(** The signature is not a forgery: what it verifies for is something that the
    owner of the key has signed. *)
Definition genuine (k : PublicKey) (sg : Signature) (orders : list Order) : Prop :=
  ∀ v m, verifier_from_public_key k = Ok v → is_ok (verify v m sg) = true →
    ∃ o, o ∈ orders ∧ m = order_message o.

(** C40: a transaction that the validation accepts is an order of its sender.
    It calls a write method, the module that it names accepts the call of that
    sender, whose address is that of the witness' key; and where the signature
    is not a forgery, the owner of the key has ordered exactly this call, with
    this nonce and until this block, on the chain with this genesis block: no
    part of it can be changed, and it cannot be sent on another chain.
    Without a witness, which is refused where one is required, there is no
    sender. *)
Theorem accepted_tx_is_ordered (D : list (string * ModuleOps ExecContext)) genesis t required c c' :
  validate_tx D genesis t required c = (Ok tt, c') →
  dispatch_is_write_call D (module (call t)) (call t) = Ok true ∧
  match witness t with
  | None => required = false ∧ dispatch_validate_call D (module (call t)) None (call t) c = (Ok (Ok tt), c')
  | Some w =>
      dispatch_validate_call D (module (call t)) (Some (address_address (w_public_key w))) (call t) c =
        (Ok (Ok tt), c') ∧
      ∀ orders, genuine (w_public_key w) (w_signature w) orders → Forall order_ok orders →
        is_u32 (w_nonce w) → is_u64 (w_until w) →
        Build_Order genesis (w_nonce w) (w_until w) (call t) ∈ orders
  end.
Proof.
  intros [Hw Hv Hd]%validate_tx_accepted. split; [done|]. unfold witnessed, sender_of in *.
  destruct (witness t) as [w|]; [|done]. split; [done|]. destruct Hw as (v & Hk & Hver).
  intros orders Hg Hok Hn Hu. destruct (Hg v _ Hk Hver) as (o & Ho & Hm).
  rewrite Forall_forall in Hok. destruct (Hok o Ho) as [Hn' Hu'].
  apply message_inj in Hm as (-> & -> & -> & ->); [|done..]. by destruct o.
Qed.
End Calls.

(** ** A batch of transfers through the executor *)
Section Transfers.
Context {SC : Scale} {CR : Crypto} {API : StateDBApi}.
Context {S1 : Serialize Balance.Transferred} {S2 : Serialize (ProposalData Admin)}
  {S3 : Serialize (ProposalData Address)} {S4 : Serialize (ProposalData RaftModule.Authorities)}
  {S5 : Serialize (ProposalData HotstuffModule.Authorities)}.
Variable contract : ModuleOps ExecContext.
Abbreviation D := (Dispatcher contract).

(** The transaction [t] calls [transfer] with the parameters [p]. *)
Definition transfers (t : FullTransaction) (p : Balance.TransferParams) : Prop :=
  call (tx t) = build_call Balance.codec_transfer "balance" "transfer" p ∧
  is_u64 (Balance.value p).

Definition as_transfer (t : FullTransaction) (p : Balance.TransferParams) :
    option Address * Balance.TransferParams := (sender_of (tx t), p).

(** The recorded result of a transfer. *)
Definition outcome (r : ModuleResult unit) : OpaqueCallResult :=
  match r with
  | Ok x => Ok (encode sc_unit x)
  | Err (App e) => Err (application_error_to_string e)
  | Err (System _) => Err ""
  end.

Lemma codec_transfer_wf p : is_u64 (Balance.value p) → wf Balance.codec_transfer p.
Proof.
  intros Hv. unfold Balance.codec_transfer. cbn [wf iso_codec].
  rewrite sc_pair_wf, sc_u64_wf. auto with codec.
Qed.

Lemma holds_read (c c' : ExecContext) l :
  (∀ m k, read m k c' = read m k c) → Balance.holds c l → Balance.holds c' l.
Proof.
  intros Hr Hl a. destruct (Hl a) as (o & Ho & Hla). exists o. split; [|done].
  unfold sv_read in *. by rewrite Hr.
Qed.

Lemma execute_transfer t p c l :
  clean c → Balance.holds c l → transfers t p →
  ∃ r c', execute_tx D t c = (Ok r, c') ∧ clean c' ∧ stable c c' ∧
    rc_result (receipt r) = outcome (Balance.ledger_transfer (sender_of (tx t)) p l).1 ∧
    Balance.holds c' (Balance.ledger_transfer (sender_of (tx t)) p l).2.
Proof.
  intros Hc Hl [Hcall Hv].
  assert (stable c (execute_tx D t c).2) as Hst.
  { apply execute_tx_stable. rewrite Hcall. intros c1.
    change (module (build_call _ _ _ _)) with "balance"%string. unfold dispatch_execute_call.
    change (find_module D "balance") with (Some Balance.balance_module).
    set (k := build_call _ _ _ _). pose proof (confined_balance (sender_of (tx t)) k c1) as Hb.
    cbv beta iota. by destruct (Context.execute_call Balance.balance_module (sender_of (tx t)) k c1). }
  revert Hst. rewrite execute_tx_eq. set (c0 := with_call_env _ c).
  assert (clean c0) as Hc0 by by apply clean_call_env.
  assert (Balance.holds c0 l) as Hl0 by by apply (holds_read c).
  pose proof (built_call_execute D Balance.META_MODULE Balance.methods "balance" "transfer"
    (Build_ModuleMethod ExecContext "transfer" true _ _ Balance.codec_transfer sc_unit
       (Some Balance.validate_transfer) Balance.transfer) p (sender_of (tx t)) c0
    eq_refl eq_refl (codec_transfer_wf p Hv)) as Hex. cbn [params_codec MParams] in Hex.
  rewrite Hcall. change (module (build_call _ _ _ _)) with "balance"%string. rewrite Hex.
  unfold run_method. cbn [method_body return_codec MReturn].
  destruct (Balance.transfer_spec c0 l (sender_of (tx t)) p Hl0 Hv) as (Hout & Hend & Hsame & _).
  assert (∀ e, (Balance.ledger_transfer (sender_of (tx t)) p l).1 ≠ Err (System e)) as Hsys.
  { intros e. unfold Balance.ledger_transfer. destruct (sender_of (tx t)); [|done].
    by repeat case_decide. }
  destruct (Balance.transfer (sender_of (tx t)) p c0) as [r c1]. simpl in *.
  destruct (Balance.ledger_transfer (sender_of (tx t)) p l) as [r' l']. simpl in *. subst r'.
  destruct r as [x|[e|e]]; simpl; [|by destruct (Hsys e)|].
  - intros Hst. eexists _, _. split; [done|]. split_and!; [done|done|done|].
    apply (holds_read c1); [|done]. intros. apply read_commit.
  - intros Hst. eexists _, _. split; [done|]. rewrite (Hsame eq_refl) in *.
    split_and!; [done|done|done|]. by rewrite Hc0.
Qed.

Lemma execute_loop_transfers txs ps kind c l :
  clean c → Balance.holds c l → Forall2 transfers txs ps → kind = None ∨ kind = Some false →
  let ts := zip_with as_transfer txs ps in
  ∃ k rs c', execute_loop D kind txs c = (Ok (k, rs), c') ∧ k = (match txs with [] => kind | _ => Some false end) ∧
    clean c' ∧ stable c c' ∧ (rc_result ∘ receipt) <$> rs = outcome <$> (Balance.ledger_run ts l).1 ∧
    Balance.holds c' (Balance.ledger_run ts l).2.
Proof.
  intros Hc Hl Hts. revert kind c l Hc Hl.
  induction Hts as [|t p txs ps Ht Hts IH]; intros kind c l Hc Hl Hk; simpl.
  { by exists kind, [], c. }
  destruct (execute_transfer t p c l Hc Hl Ht) as (r & c1 & Hrun & Hc1 & Hst1 & Hr & Hl1).
  destruct (Balance.ledger_transfer (sender_of (tx t)) p l) as [o l1] eqn:Hlt. simpl in Hr, Hl1.
  assert (∀ k rs c2, execute_loop D (Some false) txs c1 = (Ok (k, rs), c2) →
    (let! is_meta := lift (is_meta D (module (call (tx t)))) in
     let! kd := lift (match kind with
                      | None => Ok is_meta
                      | Some k0 =>
                          if decide (k0 ≠ is_meta)
                          then Err (EExecutor (InvalidTxs "Mixed meta and payload in one txs batch"))
                          else Ok k0
                      end) in
     let! receipt := execute_tx D t in
     let! (kd, receipts) := execute_loop D (Some kd) txs in
     ret (kd, receipt :: receipts)) c = (Ok (k, r :: rs), c2)) as Hstep.
  { intros k rs c2 Hloop. destruct Ht as [Hcall _]. unfold bind, lift. rewrite Hcall.
    change (is_meta D (module (build_call _ _ _ _))) with (Ok (E := CommonError) false).
    destruct Hk as [-> | ->]; cbv beta iota; [|rewrite decide_False by auto];
      cbv beta iota; rewrite Hrun; cbv beta iota; by rewrite Hloop. }
  destruct (IH (Some false) c1 l1 Hc1 Hl1 (or_intror eq_refl)) 
    as (k & rs & c2 & Hloop & Hk2 & Hc2 & Hst2 & Hrs & Hl2).
  exists k, (r :: rs), c2. rewrite (Hstep _ _ _ Hloop). destruct (Balance.ledger_run (zip_with as_transfer txs ps) l1) as [os l2].
  simpl in *. split_and!; try done; [by destruct txs|etrans; [exact Hst1|exact Hst2]|by f_equal].
Qed.

(** Executing a batch of transfers.  The batch is always accepted, the
    receipts hold the outcomes that the ledger specification gives, in the
    order of the transactions, and the state afterwards holds the ledger the
    specification ends with, whose total over any accounts closed under the
    transfers is the one before. *)
Theorem transfer_batch_conserves_supply txs ps c l accounts :
  clean c → Balance.holds c l → Forall2 transfers txs ps →
  let ts := zip_with as_transfer txs ps in
  NoDup accounts → Forall (Balance.among accounts) ts →
  ∃ rs c',
    execute_txs D txs c = (Ok tt, c') ∧ payload_receipts c' = payload_receipts c ++ rs ∧
    (rc_result ∘ receipt) <$> rs = outcome <$> (Balance.ledger_run ts l).1 ∧
    Balance.holds c' (Balance.ledger_run ts l).2 ∧
    Balance.supply accounts (Balance.ledger_run ts l).2 = Balance.supply accounts l.
Proof.
  intros Hc Hl Hts ts Hnd Hamong. unfold execute_txs, bind at 1.
  destruct (execute_loop_transfers txs ps None c l Hc Hl Hts (or_introl eq_refl))
    as (k & rs & c1 & Hrun & Hk & Hc1 & Hst & Hrs & Hl1).
  rewrite Hrun. destruct Hst as (_ & _ & _ & _ & _ & Hpr).
  assert (Balance.supply accounts (Balance.ledger_run ts l).2 = Balance.supply accounts l) as Hsup
    by by apply Balance.ledger_run_supply.
  exists rs. unfold bind, modify, asks. rewrite Hk. destruct Hts as [|t p txs ps Ht Hts]; simpl.
  - rewrite andb_false_r. eexists. split; [done|]. apply fmap_nil_inv in Hrs as ->.
    split_and!; [by rewrite Hpr, app_nil_r|done..].
  - eexists. split; [done|]. split_and!; [simpl; by rewrite Hpr|done| |done].
    by apply (holds_read c1).
Qed.
End Transfers.

(** ** The theorems at a concrete input *)
Section Sample.
Import Samples.

(** Keys and addresses of one byte; a signature is the key and the message. *)
#[local] Instance sample_crypto : Crypto := {|
  hash_length := 1; hash_hash := take 1;
  address_length := 1; address_address := take 1; address_display _ := "address";
  KeyPair := bytes; key_pair_from_secret_key k := Ok k;
  kp_public_key k := k; kp_sign k msg := k ++ msg;
  Verifier := bytes; verifier_from_public_key k := Ok k;
  verify k msg sig := if decide (sig = k ++ msg) then Ok tt else Err (ECrypto "signature");
|}.

Definition sample_dispatcher := Dispatcher (module_ops false []).

Lemma sample_confined : confined_modules sample_dispatcher.
Proof. apply confined_dispatcher. intros sender call c. constructor. Qed.

Definition transfer_call (r : Address) (v : Z) : Call :=
  build_call Balance.codec_transfer "balance" "transfer"
    {| Balance.recipient := r; Balance.value := v |}.
Definition signed_by (k : bytes) (c : Call) : FullTransaction :=
  {| tx := {| witness := Some {| w_public_key := k; w_signature := []; w_nonce := 0;
                                 w_until := 10 |}; call := c |};
     tx_hash := b "h" |}.

(** Alice owns 100 and sends 30 to Bob, who tries to send 40 back. *)
Definition sample_context : ExecContext := commit Balance.sample_context.
Definition sample_txs : list FullTransaction :=
  [signed_by alice (transfer_call bob 30); signed_by bob (transfer_call alice 40)].

Lemma sample_clean : clean sample_context.
Proof. done. Qed.
Lemma sample_ledger_held : Balance.holds sample_context Balance.sample_ledger.
Proof.
  apply (holds_read Balance.sample_context); [|apply Balance.sample_holds].
  intros. apply read_commit.
Qed.

Example sample_results :
  (rc_result ∘ receipt) <$> payload_receipts (execute_txs sample_dispatcher sample_txs sample_context).2
  = [Ok (encode sc_unit tt); Err "Insufficient balance"].
Proof. vm_compute. done. Qed.

Lemma tx_commits_or_rolls_back_witness :
  let t := signed_by bob (transfer_call alice 40) in
  ∃ x e, execute_tx sample_dispatcher t sample_context =
    (Ok x, with_call_env {| ce_tx_hash := Some (b "h") |} sample_context) ∧
  rc_result (receipt x) = Err (application_error_to_string e) ∧
  application_error_to_string e = "Insufficient balance"%string ∧ rc_events (receipt x) = [].
Proof.
  cbv zeta. set (t := signed_by bob (transfer_call alice 40)).
  assert (match (execute_tx sample_dispatcher t sample_context).1 with
          | Ok r => rc_result (receipt r) = Err "Insufficient balance"
          | Err _ => False
          end) as Hres by (vm_compute; reflexivity).
  destruct (execute_tx sample_dispatcher t sample_context) as [r c'] eqn:Hrun. cbn [fst] in Hres.
  pose proof (tx_commits_or_rolls_back sample_dispatcher sample_confined t sample_context r c'
    sample_clean Hrun) as H. cbv zeta in H.
  destruct (find_module sample_dispatcher _) as [m|]; [|destruct H as [-> _]; done].
  destruct (Context.execute_call m _ _ _) as [[bs|[e|e]] c1].
  - destruct H as (_ & x & -> & _ & _ & Hx & _). rewrite Hx in Hres. discriminate Hres.
  - rewrite H in Hres. destruct Hres.
  - destruct H as (_ & x & -> & _ & _ & Hx & Hev & ->). exists x, e.
    rewrite Hx in Hres. injection Hres as He. split; [reflexivity|]. split; [exact Hx|]. split; [exact He|exact Hev].
Defined.

Lemma batch_appends_witness :
  let c' := (execute_txs sample_dispatcher sample_txs sample_context).2 in
  clean c' ∧ ∃ rs, Forall2 (receipt_of (cx_env sample_context)) sample_txs rs.
Proof.
  cbv zeta. assert ((execute_txs sample_dispatcher sample_txs sample_context).1 = Ok tt) as Hok
    by (vm_compute; reflexivity). apply outcome_eq in Hok.
  destruct (batch_appends sample_dispatcher sample_confined sample_txs sample_context _
    sample_clean Hok) as (Hc & rs & Hrs & _).
  split; [exact Hc|]. exists rs. exact Hrs.
Defined.

(** A second genesis call after a payload batch: the balances are payload,
    the parameters of the chain are meta. *)
Definition late_context : ExecContext := with_payload_phase true sample_context.
Definition late_txs : list FullTransaction :=
  [signed_by alice (build_call SystemModule.codec_meta "system" "init" SystemModule.sample_meta)].

Lemma meta_after_payload_witness :
  (execute_txs sample_dispatcher late_txs late_context).1 =
    Err (EExecutor (InvalidTxs "Meta after payload not allowed")) ∧
  (SystemModule.get_meta None tt (execute_txs sample_dispatcher late_txs late_context).2).1 =
    Ok SystemModule.sample_meta.
Proof.
  assert (match (execute_loop sample_dispatcher None late_txs late_context).1 with
          | Ok (k, _) => k = Some true
          | Err _ => False
          end) as Hk by (vm_compute; reflexivity).
  destruct (execute_loop sample_dispatcher None late_txs late_context) as [[[k rs]|e] c1] eqn:Hl;
    [|done]. simpl in Hk. subst k.
  destruct (meta_after_payload sample_dispatcher sample_confined late_txs late_context rs c1)
    as [-> _]; [done|done|exact Hl|]. split; [reflexivity|].
  replace c1 with (execute_loop sample_dispatcher None late_txs late_context).2 by by rewrite Hl.
  vm_compute. reflexivity.
Defined.

Lemma built_call_is_dispatched_witness :
  dispatch_is_write_call sample_dispatcher "balance" (transfer_call bob 30) = Ok true.
Proof.
  apply (built_call_is_dispatched sample_dispatcher Balance.META_MODULE
    (Balance.methods (UT := executor_util))
    "balance" "transfer"
    (Build_ModuleMethod ExecContext "transfer" true _ _ Balance.codec_transfer sc_unit
       (Some (Balance.validate_transfer (UT := executor_util))) Balance.transfer)
    {| Balance.recipient := bob; Balance.value := 30%Z |} (Some alice) sample_context);
    [reflexivity|reflexivity|]. by apply codec_transfer_wf.
Defined.

Lemma built_tx_witness_witness :
  match build_tx sample_dispatcher (b "G") (Some (alice, 1%Z, 20%Z)) (transfer_call bob 30) with
  | Ok t => validate_witness (b "G") t true = Ok tt
  | Err _ => False
  end.
Proof.
  assert (sign_verifies) as Hs.
  { intros sk kp msg [= <-]. exists sk. split; [done|]. simpl. by rewrite decide_True. }
  destruct (build_tx sample_dispatcher (b "G") (Some (alice, 1%Z, 20%Z)) (transfer_call bob 30))
    as [t|e] eqn:Hb; [|by vm_compute in Hb].
  apply (built_tx_witness sample_dispatcher (b "G") alice 1 20 (transfer_call bob 30) t true Hs Hb).
Defined.

Lemma sample_verifies v k m m' : verifier_from_public_key k = Ok v →
  is_ok (verify v m (k ++ m')) = true → m = m'.
Proof. cbn. intros [= <-]. case_decide as H; [|done]. intros _. symmetry. by eapply app_inv_head. Qed.

(** Alice has ordered one transfer on the chain G; the transaction is hers. *)
Lemma accepted_tx_is_ordered_witness :
  match build_tx sample_dispatcher (b "G") (Some (alice, 1%Z, 20%Z)) (transfer_call bob 30) with
  | Ok t => ∃ w, witness t = Some w ∧
      dispatch_is_write_call sample_dispatcher (module (call t)) (call t) = Ok true ∧
      Build_Order (b "G") (w_nonce w) (w_until w) (call t) ∈ [Build_Order (b "G") 1 20 (transfer_call bob 30)]
  | Err _ => False
  end.
Proof.
  assert (match build_tx sample_dispatcher (b "G") (Some (alice, 1%Z, 20%Z)) (transfer_call bob 30) with
          | Ok t => (validate_tx sample_dispatcher (b "G") t true sample_context).1 = Ok tt ∧
              witness t = Some {| w_public_key := alice; w_nonce := 1; w_until := 20;
                w_signature := alice ++ message (b "G") 1 20 (transfer_call bob 30) |}
          | Err _ => False
          end) as Hv by (split; vm_compute; reflexivity).
  destruct (build_tx sample_dispatcher (b "G") (Some (alice, 1%Z, 20%Z)) (transfer_call bob 30))
    as [t|e]; [|destruct Hv]. destruct Hv as [Hv Hw]. apply outcome_eq in Hv.
  apply accepted_tx_is_ordered in Hv as [Hwrite H]. rewrite Hw in H. destruct H as [_ H].
  eexists. split; [exact Hw|]. split; [exact Hwrite|]. apply H.
  - intros v m Hk Hver. eexists. split; [by left|]. exact (sample_verifies v alice m _ Hk Hver).
  - constructor; [|constructor]. split; done.
  - done.
  - done.
Defined.

Lemma transfer_batch_conserves_supply_witness :
  ∃ rs c', execute_txs sample_dispatcher sample_txs sample_context = (Ok tt, c') ∧
    payload_receipts c' = rs ∧
    (rc_result ∘ receipt) <$> rs = [Ok (encode sc_unit tt); Err "Insufficient balance"].
Proof.
  destruct (transfer_batch_conserves_supply (module_ops false []) sample_txs
    [{| Balance.recipient := bob; Balance.value := 30%Z |};
     {| Balance.recipient := alice; Balance.value := 40%Z |}]
    sample_context Balance.sample_ledger [alice; bob]) as (rs & c' & Hrun & Hrs & Hres & _).
  - apply sample_clean.
  - apply sample_ledger_held.
  - repeat constructor; done.
  - apply (bool_decide_unpack _). by vm_compute.
  - repeat (apply Forall_cons; split; [split; [set_solver|]; intros s [=]; subst; set_solver|]).
    constructor.
  - exists rs, c'. split; [exact Hrun|]. split; [exact Hrs|]. rewrite Hres. vm_compute. reflexivity.
Defined.
End Sample.
