(* ===== verification/Algorithms.v ===== *)
(** * Algorithms

    [core/crypto]: the algorithms that a chain names for hashes, signatures and
    addresses, each either one of a library that the node is linked with or one
    of a dynamic library that is loaded; and the instance of [Crypto] that the
    executor makes of them.  A buffer that is filled is given by its contents
    before and after; [None] is a panic. *)
From stdpp Require Import pretty.
From S2P Require Import Prelude Codec Types Context ExecutorContext Dispatch Balance Executor ExecutorProofs.

(** ** The libraries *)

(** The numbers of [yogcrypt]: four limbs of 64 bits, the least significant
    first. *)
Record U64x4 := { value : list Z }.
Abbreviation SecKey := U64x4.
Record PubKey := { pk_x : U64x4; pk_y : U64x4 }.
Record Sm2Signature := { sig_r : U64x4; sig_s : U64x4 }.

(** The symbols of a dynamic library: its name, when it is UTF-8, the length
    that it claims, and a function that fills a buffer of a given size. *)
Record DigestDylib := {
  dl_name : option string;
  dl_length : Z;
  dl_call : nat → bytes → bytes;
  dl_call_length : ∀ n data, length (dl_call n data) = n;
}.
(** Those of a signature algorithm; [None] is an error code that is not zero. *)
Record DsaDylib := {
  dsa_name : option string;
  dsa_lengths : Z * Z * Z;
  DylibKeyPair : Type;
  DylibVerifier : Type;
  dsa_generate : bytes → option DylibKeyPair;
  dsa_from_secret : bytes → option DylibKeyPair;
  dsa_secret_key : DylibKeyPair → nat → bytes;
  dsa_public_key : DylibKeyPair → nat → bytes;
  dsa_sign : DylibKeyPair → bytes → nat → bytes;
  dsa_from_public : bytes → option DylibVerifier;
  dsa_verify : DylibVerifier → bytes → bytes → bool;
}.

Class CryptoLib : Type := {
  (** [rust-crypto]: the digest of a length, without a key *)
  blake2b : nat → bytes → bytes;
  (** [yogcrypt] *)
  sm3_enc : bytes → list Z;
  get_sec_key : bytes → SecKey;
  get_pub_key : SecKey → PubKey;
  sm2_gen_sign : bytes → SecKey → PubKey → Sm2Signature;
  sm2_ver_sign : bytes → PubKey → Sm2Signature → bool;
  (** the secret keys that can sign *)
  sm2_valid : SecKey → Prop;
  (** [ring] *)
  Ed25519KeyPair : Type;
  from_seed_unchecked : bytes → option Ed25519KeyPair;
  ed25519_public_key : Ed25519KeyPair → bytes;
  ed25519_sign : Ed25519KeyPair → bytes → bytes;
  ed25519_verify : bytes → bytes → bytes → bool;
  (** [libloading]: [None] when the library or one of its symbols is missing *)
  open_hash : string → option DigestDylib;
  open_address : string → option DigestDylib;
  open_dsa : string → option DsaDylib;
  path_debug : string → string;
  (** [hex] *)
  address_hex : Address → string;
}.

Definition is_u64x4 (u : U64x4) : Prop := length (value u) = 4 ∧ Forall is_u64 (value u).

(** What the libraries document. *)
Class CryptoLibLaws `{CryptoLib} : Prop := {
  blake2b_length : ∀ n data, length (blake2b n data) = n;
  sm3_words : ∀ data, length (sm3_enc data) = 8;
  sm2_public_key : ∀ sk, is_u64x4 (pk_x (get_pub_key sk)) ∧ is_u64x4 (pk_y (get_pub_key sk));
  sm2_signature : ∀ msg sk pk, is_u64x4 (sig_r (sm2_gen_sign msg sk pk)) ∧ is_u64x4 (sig_s (sm2_gen_sign msg sk pk));
  sm2_verifies : ∀ sk msg, sm2_valid sk →
    sm2_ver_sign msg (get_pub_key sk) (sm2_gen_sign msg sk (get_pub_key sk)) = true;
  ed25519_seed : ∀ seed kp, from_seed_unchecked seed = Some kp → length seed = 32;
  ed25519_public_key_length : ∀ kp, length (ed25519_public_key kp) = 32;
  ed25519_signature_length : ∀ kp msg, length (ed25519_sign kp msg) = 64;
  ed25519_verifies : ∀ kp msg, ed25519_verify (ed25519_public_key kp) msg (ed25519_sign kp msg) = true;
}.

(** ** Errors ([errors.rs]) *)
Inductive CryptoErrorKind :=
| InvalidSecretKey
| InvalidPublicKey
| VerificationFailed
| CustomLibLoadFailed (path : string)
| InvalidHashLength (n : Z)
| InvalidDsaLength (n : Z * Z * Z)
| InvalidAddressLength (n : Z)
| InvalidName (name : string).

Section Algorithms.
Context {CL : CryptoLib}.

Definition crypto_text (e : CryptoErrorKind) : string :=
  match e with
  | InvalidSecretKey => "Invalid secret key"
  | InvalidPublicKey => "Invalid public key"
  | VerificationFailed => "Verification failed"
  | CustomLibLoadFailed path => "Custom lib load failed: " +:+ path_debug path
  | InvalidHashLength n => "Invalid hash length: " +:+ pretty n
  | InvalidDsaLength (s, p, g) =>
      "Invalid dsa length: (" +:+ pretty s +:+ ", " +:+ pretty p +:+ ", " +:+ pretty g +:+ ")"
  | InvalidAddressLength n => "Invalid address length: " +:+ pretty n
  | InvalidName name => "Invalid name: " +:+ name
  end.
Definition crypto_error (e : CryptoErrorKind) : CommonError := ECrypto (crypto_text e).

(** ** Lengths ([lib.rs]) *)
Inductive HashLength := HashLength20 | HashLength32 | HashLength64.
Definition hash_usize (v : HashLength) : nat :=
  match v with HashLength20 => 20 | HashLength32 => 32 | HashLength64 => 64 end.
Definition hash_length_try_from (i : Z) : CommonResult HashLength :=
  match i with
  | 20%Z => Ok HashLength20
  | 32%Z => Ok HashLength32
  | 64%Z => Ok HashLength64
  | other => Err (crypto_error (InvalidHashLength other))
  end.

Inductive DsaLength := DsaLength32_32_64 | DsaLength32_65_64.
Definition dsa_usize (v : DsaLength) : nat * nat * nat :=
  match v with DsaLength32_32_64 => (32, 32, 64) | DsaLength32_65_64 => (32, 65, 64) end.
Definition dsa_length_try_from (i : Z * Z * Z) : CommonResult DsaLength :=
  match i with
  | (32, 32, 64)%Z => Ok DsaLength32_32_64
  | (32, 65, 64)%Z => Ok DsaLength32_65_64
  | other => Err (crypto_error (InvalidDsaLength other))
  end.

Inductive AddressLength := AddressLength20 | AddressLength32.
Definition address_usize (v : AddressLength) : nat :=
  match v with AddressLength20 => 20 | AddressLength32 => 32 end.
Definition address_length_try_from (i : Z) : CommonResult AddressLength :=
  match i with
  | 20%Z => Ok AddressLength20
  | 32%Z => Ok AddressLength32
  | other => Err (crypto_error (InvalidAddressLength other))
  end.

(** [out.copy_from_slice(src)] *)
Definition copy_from_slice (out src : bytes) : option bytes :=
  if decide (length out = length src) then Some src else None.

(** ** Hashes ([hash.rs], [hash/]) *)

(** [struct CustomLib] of a hash and of an address. *)
Record CustomLib (L : Type) := { cl_name : string; cl_length : L; cl_lib : DigestDylib }.
Arguments cl_name {L}. Arguments cl_length {L}. Arguments cl_lib {L}.

Definition custom_new {L} (open : string → option DigestDylib) (length_try_from : Z → CommonResult L)
    (path : string) : CommonResult (CustomLib L) :=
  let? lib := ok_or (crypto_error (CustomLibLoadFailed path)) (open path) in
  let? name := ok_or (crypto_error (InvalidName (path_debug path))) (dl_name lib) in
  let? length := length_try_from (dl_length lib) in
  Ok (Build_CustomLib L name length lib).
(** The call into the library fills the buffer whatever its size. *)
Definition custom_fill {L} (c : CustomLib L) (out data : bytes) : option bytes :=
  Some (dl_call (cl_lib c) (length out) data).

Inductive HashImpl :=
| Blake2b160 | Blake2b256 | Blake2b512 | SM3
| CustomHash (custom : CustomLib HashLength).

Definition hash_name (h : HashImpl) : string :=
  match h with
  | Blake2b160 => "blake2b_160" | Blake2b256 => "blake2b_256" | Blake2b512 => "blake2b_512"
  | SM3 => "sm3" | CustomHash custom => cl_name custom
  end.
Definition hash_len (h : HashImpl) : HashLength :=
  match h with
  | Blake2b160 => HashLength20 | Blake2b256 => HashLength32 | Blake2b512 => HashLength64
  | SM3 => HashLength32 | CustomHash custom => cl_length custom
  end.

(** [assert_eq!(out.len(), len)] and the call of the library *)
Definition blake2b_into (len : nat) (out data : bytes) : option bytes :=
  if decide (length out = len) then Some (blake2b len data) else None.
(** Eight words are written into the first 32 bytes. *)
Definition sm3_into (out data : bytes) : option bytes :=
  if decide (32 ≤ length out) then Some (concat (to_be_bytes 4 <$> take 8 (sm3_enc data)) ++ drop 32 out)
  else None.

Definition hash_into (h : HashImpl) (out data : bytes) : option bytes :=
  match h with
  | Blake2b160 => blake2b_into (hash_usize HashLength20) out data
  | Blake2b256 => blake2b_into (hash_usize HashLength32) out data
  | Blake2b512 => blake2b_into (hash_usize HashLength64) out data
  | SM3 => sm3_into out data
  | CustomHash custom => custom_fill custom out data
  end.

Definition hash_from_str (s : string) : CommonResult HashImpl :=
  if decide (s = "blake2b_160") then Ok Blake2b160
  else if decide (s = "blake2b_256") then Ok Blake2b256
  else if decide (s = "blake2b_512") then Ok Blake2b512
  else if decide (s = "sm3") then Ok SM3
  else let? custom := custom_new open_hash hash_length_try_from s in Ok (CustomHash custom).

(** ** Addresses ([address.rs], [address/]) *)
Inductive AddressImpl :=
| AddressBlake2b160 | Original160 | Original256
| CustomAddress (custom : CustomLib AddressLength).

Definition address_name (a : AddressImpl) : string :=
  match a with
  | AddressBlake2b160 => "blake2b160" | Original160 => "original_160" | Original256 => "original_256"
  | CustomAddress custom => cl_name custom
  end.
Definition address_len (a : AddressImpl) : AddressLength :=
  match a with
  | AddressBlake2b160 => AddressLength20 | Original160 => AddressLength20
  | Original256 => AddressLength32 | CustomAddress custom => cl_length custom
  end.
(** The assertion on the length, and the copy of the data. *)
Definition original_into (len : nat) (out data : bytes) : option bytes :=
  if decide (length out = len) then copy_from_slice out data else None.
Definition address_into (a : AddressImpl) (out data : bytes) : option bytes :=
  match a with
  | AddressBlake2b160 => blake2b_into (address_usize AddressLength20) out data
  | Original160 => original_into (address_usize AddressLength20) out data
  | Original256 => original_into (address_usize AddressLength32) out data
  | CustomAddress custom => custom_fill custom out data
  end.
Definition address_from_str (s : string) : CommonResult AddressImpl :=
  if decide (s = "blake2b_160") then Ok AddressBlake2b160
  else if decide (s = "original_160") then Ok Original160
  else if decide (s = "original_256") then Ok Original256
  else let? custom := custom_new open_address address_length_try_from s in Ok (CustomAddress custom).

(** ** The encodings of SM2 ([dsa/sm2.rs]) *)

(** [&slice[from..to]] *)
Definition slice (from to : nat) (s : bytes) : bytes := take (to - from) (drop from s).

Definition slice_to_u64x4 (s : bytes) : U64x4 := {|
  value := [from_be_bytes (slice 24 32 s); from_be_bytes (slice 16 24 s);
            from_be_bytes (slice 8 16 s); from_be_bytes (slice 0 8 s)];
|}.
(** [value.iter().rev().map(|x| x.to_be_bytes().to_vec()).flatten()] *)
Definition u64x4_bytes (u : U64x4) : bytes := concat (to_be_bytes 8 <$> reverse (value u)).

Definition slice_to_secret_key (s : bytes) : CommonResult SecKey :=
  if decide (length s ≠ 32) then Err (crypto_error InvalidSecretKey) else Ok (slice_to_u64x4 s).
Definition slice_to_public_key (s : bytes) : CommonResult PubKey :=
  if decide (length s ≠ 65 ∨ head s ≠ Some (byte_of 4)) then Err (crypto_error InvalidPublicKey)
  else Ok {| pk_x := slice_to_u64x4 (slice 1 33 s); pk_y := slice_to_u64x4 (slice 33 65 s) |}.
Definition slice_to_signature (s : bytes) : CommonResult Sm2Signature :=
  if decide (length s ≠ 64) then Err (crypto_error VerificationFailed)
  else Ok {| sig_r := slice_to_u64x4 (slice 0 32 s); sig_s := slice_to_u64x4 (slice 32 64 s) |}.

Definition secret_key_to_vec (k : SecKey) : bytes := u64x4_bytes k.
Definition public_key_to_vec (k : PubKey) : bytes := byte_of 4 :: u64x4_bytes (pk_x k) ++ u64x4_bytes (pk_y k).
Definition signature_to_vec (s : Sm2Signature) : bytes := u64x4_bytes (sig_r s) ++ u64x4_bytes (sig_s s).

(** ** Signatures ([dsa.rs], [dsa/]) *)

(** [struct CustomLib] of a signature algorithm: the lengths are not looked at. *)
Record CustomDsa := { cd_name : string; cd_lengths : Z * Z * Z; cd_lib : DsaDylib }.
Definition custom_dsa_new (path : string) : CommonResult CustomDsa :=
  let? lib := ok_or (crypto_error (CustomLibLoadFailed path)) (open_dsa path) in
  let? name := ok_or (crypto_error (InvalidName (path_debug path))) (dsa_name lib) in
  Ok (Build_CustomDsa name (dsa_lengths lib) lib).

Inductive DsaImpl :=
| Ed25519 | SM2
| CustomDsaImpl (custom : CustomDsa).
(** A key of ed25519 is kept with its seed. *)
Inductive KeyPairImpl :=
| KeyPairEd25519 (kp : Ed25519KeyPair) (seed : bytes)
| KeyPairSM2 (sk : SecKey) (pk : PubKey)
| KeyPairCustom (custom : CustomDsa) (inner : DylibKeyPair (cd_lib custom)).
Inductive VerifierImpl :=
| VerifierEd25519 (public_key : bytes)
| VerifierSM2 (pk : PubKey)
| VerifierCustom (custom : CustomDsa) (inner : DylibVerifier (cd_lib custom)).

Definition dsa_impl_name (d : DsaImpl) : string :=
  match d with Ed25519 => "ed25519" | SM2 => "sm2" | CustomDsaImpl custom => cd_name custom end.
(** [None] is the panic of [expect] on the lengths of a library. *)
Definition dsa_length (d : DsaImpl) : option DsaLength :=
  match d with
  | Ed25519 => Some DsaLength32_32_64
  | SM2 => Some DsaLength32_65_64
  | CustomDsaImpl custom =>
      match dsa_length_try_from (cd_lengths custom) with Ok l => Some l | Err _ => None end
  end.

Definition seed_key_pair (seed : bytes) : option (CommonResult KeyPairImpl) :=
  match from_seed_unchecked seed with
  | None => Some (Err (crypto_error InvalidSecretKey))
  | Some kp => if decide (length seed = 32) then Some (Ok (KeyPairEd25519 kp seed)) else None
  end.
Definition custom_key_pair (custom : CustomDsa) (inner : option (DylibKeyPair (cd_lib custom))) :
    CommonResult KeyPairImpl :=
  let? inner := ok_or (crypto_error InvalidSecretKey) inner in Ok (KeyPairCustom custom inner).

(** What is drawn at random is an argument. *)
Definition generate_key_pair (d : DsaImpl) (random : bytes) : option (CommonResult KeyPairImpl) :=
  match d with
  | Ed25519 => seed_key_pair random
  | SM2 => let secret_key := get_sec_key random in
      Some (Ok (KeyPairSM2 secret_key (get_pub_key secret_key)))
  | CustomDsaImpl custom => Some (custom_key_pair custom (dsa_generate (cd_lib custom) random))
  end.
Definition dsa_key_pair_from_secret_key (d : DsaImpl) (secret_key : bytes) : option (CommonResult KeyPairImpl) :=
  match d with
  | Ed25519 => seed_key_pair secret_key
  | SM2 => Some (
      let? secret_key := slice_to_secret_key secret_key in
      Ok (KeyPairSM2 secret_key (get_pub_key secret_key)))
  | CustomDsaImpl custom => Some (custom_key_pair custom (dsa_from_secret (cd_lib custom) secret_key))
  end.
Definition dsa_verifier_from_public_key (d : DsaImpl) (public_key : bytes) : CommonResult VerifierImpl :=
  match d with
  | Ed25519 => if decide (length public_key = 32) then Ok (VerifierEd25519 public_key)
               else Err (crypto_error InvalidPublicKey)
  | SM2 => let? public_key := slice_to_public_key public_key in Ok (VerifierSM2 public_key)
  | CustomDsaImpl custom =>
      let? inner := ok_or (crypto_error InvalidPublicKey) (dsa_from_public (cd_lib custom) public_key) in
      Ok (VerifierCustom custom inner)
  end.
Definition dsa_from_str (s : string) : CommonResult DsaImpl :=
  if decide (s = "ed25519") then Ok Ed25519
  else if decide (s = "sm2") then Ok SM2
  else let? custom := custom_dsa_new s in Ok (CustomDsaImpl custom).

(** [assert_eq!(out.len(), len)] and the call of the library *)
Definition custom_into (len : Z) (out : bytes) (call : nat → bytes) : option bytes :=
  if decide (Z.of_nat (length out) = len) then Some (call (length out)) else None.
Definition key_pair_public_key (kp : KeyPairImpl) (out : bytes) : option bytes :=
  match kp with
  | KeyPairEd25519 kp _ => copy_from_slice out (ed25519_public_key kp)
  | KeyPairSM2 _ pk => copy_from_slice out (public_key_to_vec pk)
  | KeyPairCustom custom inner => custom_into (cd_lengths custom).1.2 out (dsa_public_key (cd_lib custom) inner)
  end.
Definition key_pair_secret_key (kp : KeyPairImpl) (out : bytes) : option bytes :=
  match kp with
  | KeyPairEd25519 _ seed => copy_from_slice out seed
  | KeyPairSM2 sk _ => copy_from_slice out (secret_key_to_vec sk)
  | KeyPairCustom custom inner => custom_into (cd_lengths custom).1.1 out (dsa_secret_key (cd_lib custom) inner)
  end.
Definition key_pair_sign (kp : KeyPairImpl) (message out : bytes) : option bytes :=
  match kp with
  | KeyPairEd25519 kp _ => copy_from_slice out (ed25519_sign kp message)
  | KeyPairSM2 sk pk => copy_from_slice out (signature_to_vec (sm2_gen_sign message sk pk))
  | KeyPairCustom custom inner => custom_into (cd_lengths custom).2 out (dsa_sign (cd_lib custom) inner message)
  end.

Definition verifier_verify (v : VerifierImpl) (message signature : bytes) : CommonResult unit :=
  match v with
  | VerifierEd25519 public_key =>
      if ed25519_verify public_key message signature then Ok tt else Err (crypto_error VerificationFailed)
  | VerifierSM2 pk =>
      let? signature := slice_to_signature signature in
      if sm2_ver_sign message pk signature then Ok tt else Err (crypto_error VerificationFailed)
  | VerifierCustom custom inner =>
      if dsa_verify (cd_lib custom) inner message signature then Ok tt else Err (crypto_error VerificationFailed)
  end.

(** ** What the executor makes of them ([core/node/executor/src/lib.rs]): it
    allocates a buffer of the length that the algorithm claims and has it filled *)
Definition zeros (n : nat) : bytes := repeat Byte.x00 n.

Definition digest (h : HashImpl) (data : bytes) : option bytes :=
  hash_into h (zeros (hash_usize (hash_len h))) data.
Definition address_of (a : AddressImpl) (data : bytes) : option bytes :=
  address_into a (zeros (address_usize (address_len a))) data.
Definition public_key_of (d : DsaImpl) (kp : KeyPairImpl) : option bytes :=
  length ← dsa_length d;
  let '(_, pub_len, _) := dsa_usize length in key_pair_public_key kp (zeros pub_len).
Definition signature_of (d : DsaImpl) (kp : KeyPairImpl) (message : bytes) : option bytes :=
  length ← dsa_length d;
  let '(_, _, sig_len) := dsa_usize length in key_pair_sign kp message (zeros sig_len).

(** The instance of the interface of the executor.  It knows no panics: where
    one of the above panics, this gives an empty value. *)
Definition basic (h : HashImpl) (d : DsaImpl) (a : AddressImpl) : Crypto := {|
  hash_length := hash_usize (hash_len h);
  hash_hash data := default [] (digest h data);
  address_length := address_usize (address_len a);
  address_address data := default [] (address_of a data);
  address_display := address_hex;
  KeyPair := KeyPairImpl;
  key_pair_from_secret_key sk := default (Err (EOther "panic")) (dsa_key_pair_from_secret_key d sk);
  kp_public_key kp := default [] (public_key_of d kp);
  kp_sign kp message := default [] (signature_of d kp message);
  Verifier := VerifierImpl;
  verifier_from_public_key := dsa_verifier_from_public_key d;
  verify := verifier_verify;
|}.
End Algorithms.
Arguments cl_name {L}. Arguments cl_length {L}. Arguments cl_lib {L}.

(** ** The encodings of SM2 are read back *)
Section Encodings.

Lemma slice_at xs y zs n m : length xs = n → length y = m - n → slice n m (xs ++ y ++ zs) = y.
Proof. intros <- Hy. unfold slice. by rewrite drop_app_length, <-Hy, take_app_length. Qed.
Lemma slice_last xs y n m : length xs = n → length y = m - n → slice n m (xs ++ y) = y.
Proof. intros Hx Hy. rewrite <-(app_nil_r y) at 1. by apply slice_at. Qed.
Lemma slice_first y zs m : length y = m → slice 0 m (y ++ zs) = y.
Proof. intros Hy. apply (slice_at [] y zs 0 m); [done|by rewrite Nat.sub_0_r]. Qed.
Lemma length_slice n m s : n ≤ m → m ≤ length s → length (slice n m s) = m - n.
Proof. intros. unfold slice. rewrite length_take, length_drop. lia. Qed.
Lemma slice_join n m k s : n ≤ m → m ≤ k → slice n m s ++ slice m k s = slice n k s.
Proof.
  intros Hn Hm. unfold slice. replace (k - n) with ((m - n) + (k - m)) by lia.
  rewrite <-take_take_drop, drop_drop. do 3 f_equal. lia.
Qed.
Lemma slice_all s n : length s = n → slice 0 n s = s.
Proof. intros <-. unfold slice. rewrite drop_0, Nat.sub_0_r. apply firstn_all. Qed.

Lemma be_bytes_back n m s : n ≤ m → m ≤ length s →
  to_be_bytes (m - n) (from_be_bytes (slice n m s)) = slice n m s.
Proof. intros Hn Hm. rewrite <-(length_slice n m s Hn Hm). apply to_from_be_bytes. Qed.

Lemma u64x4_slice s : length s = 32 → u64x4_bytes (slice_to_u64x4 s) = s.
Proof.
  intros Hs. unfold u64x4_bytes, slice_to_u64x4. cbn [value reverse rev_append fmap list_fmap concat].
  rewrite (be_bytes_back 0 8), (be_bytes_back 8 16), (be_bytes_back 16 24), (be_bytes_back 24 32) by lia.
  rewrite app_nil_r, !slice_join by lia. by apply slice_all.
Qed.
Lemma u64x4_range s : length s = 32 → is_u64x4 (slice_to_u64x4 s).
Proof.
  intros Hs. assert (∀ n m, m - n = 8 → m ≤ 32 → is_u64 (from_be_bytes (slice n m s))) as H.
  { intros n m Hn Hm. pose proof (from_be_bytes_range (slice n m s)) as Hr.
    rewrite length_slice, Hn in Hr by lia. exact Hr. }
  split; [done|]. repeat (constructor; [by apply H; lia|]). constructor.
Qed.
Lemma u64x4_bytes_length u : is_u64x4 u → length (u64x4_bytes u) = 32.
Proof.
  intros [Hl _]. by destruct u as [[|a [|b0 [|c [|d [|]]]]]].
Qed.
Lemma slices_of_four x1 x2 x3 x4 : length x1 = 8 → length x2 = 8 → length x3 = 8 → length x4 = 8 →
  let s := x1 ++ x2 ++ x3 ++ x4 in
  slice 0 8 s = x1 ∧ slice 8 16 s = x2 ∧ slice 16 24 s = x3 ∧ slice 24 32 s = x4.
Proof.
  intros H1 H2 H3 H4 s. unfold s. split_and!.
  - by apply slice_first.
  - by apply slice_at.
  - rewrite app_assoc. apply slice_at; [rewrite length_app; lia|done].
  - rewrite !app_assoc. apply slice_last; [rewrite !length_app; lia|done].
Qed.
Lemma slice_u64x4 u : is_u64x4 u → slice_to_u64x4 (u64x4_bytes u) = u.
Proof.
  intros [Hl Hu]. destruct u as [[|a [|b0 [|c [|d [|]]]]]]; try done. cbn [value] in Hu.
  repeat (apply Forall_cons in Hu as [? Hu]). unfold u64x4_bytes, slice_to_u64x4.
  change (reverse _) with [d; c; b0; a]. cbn [value fmap list_fmap concat]. rewrite app_nil_r.
  destruct (slices_of_four (to_be_bytes 8 d) (to_be_bytes 8 c) (to_be_bytes 8 b0) (to_be_bytes 8 a))
    as (-> & -> & -> & ->); [apply length_to_be_bytes..|].
  by rewrite !from_to_be_bytes.
Qed.

Context {CL : CryptoLib}.

Definition sm2_key_ok (k : PubKey) : Prop := is_u64x4 (pk_x k) ∧ is_u64x4 (pk_y k).
Definition sm2_signature_ok (s : Sm2Signature) : Prop := is_u64x4 (sig_r s) ∧ is_u64x4 (sig_s s).

Lemma public_key_length k : sm2_key_ok k → length (public_key_to_vec k) = 65.
Proof. intros [Hx Hy]. unfold public_key_to_vec. cbn [length]. by rewrite length_app, !u64x4_bytes_length. Qed.
Lemma signature_length s : sm2_signature_ok s → length (signature_to_vec s) = 64.
Proof. intros [Hx Hy]. unfold signature_to_vec. by rewrite length_app, !u64x4_bytes_length. Qed.

Lemma public_key_back k : sm2_key_ok k → slice_to_public_key (public_key_to_vec k) = Ok k.
Proof.
  intros Hk. pose proof (public_key_length k Hk) as Hl. destruct Hk as [Hx Hy], k as [x y]. cbn [pk_x pk_y] in *.
  unfold slice_to_public_key. rewrite decide_False by (intros [H|H]; [by rewrite Hl in H|done]).
  unfold public_key_to_vec. cbn [pk_x pk_y].
  pose proof (slice_at [byte_of 4] (u64x4_bytes x) (u64x4_bytes y) 1 33 eq_refl (u64x4_bytes_length x Hx)) as E1.
  pose proof (slice_last (byte_of 4 :: u64x4_bytes x) (u64x4_bytes y) 33 65
    (f_equal S (u64x4_bytes_length x Hx)) (u64x4_bytes_length y Hy)) as E2.
  cbn [app] in E1, E2. by rewrite E1, E2, !slice_u64x4.
Qed.
Lemma signature_back s : sm2_signature_ok s → slice_to_signature (signature_to_vec s) = Ok s.
Proof.
  intros Hs. pose proof (signature_length s Hs) as Hl. destruct Hs as [Hr Hs], s as [r s]. cbn [sig_r sig_s] in *.
  unfold slice_to_signature. rewrite decide_False by (intros H; by rewrite Hl in H).
  unfold signature_to_vec. cbn [sig_r sig_s].
  rewrite (slice_first (u64x4_bytes r) _ 32), (slice_last (u64x4_bytes r) _ 32 64) by by apply u64x4_bytes_length.
  by rewrite !slice_u64x4.
Qed.

(** A key or signature that is accepted is that of exactly one text of bytes. *)
Theorem sm2_bytes_back :
  (∀ s k, slice_to_secret_key s = Ok k ↔ is_u64x4 k ∧ s = secret_key_to_vec k) ∧
  (∀ s k, slice_to_public_key s = Ok k ↔ sm2_key_ok k ∧ s = public_key_to_vec k) ∧
  (∀ s k, slice_to_signature s = Ok k ↔ sm2_signature_ok k ∧ s = signature_to_vec k).
Proof.
  split_and!; intros s k; (split; [|intros [Hk ->]]).
  - unfold slice_to_secret_key. case_decide as Hl; intros [= <-].
    split; [by apply u64x4_range|]. symmetry. by apply u64x4_slice.
  - unfold slice_to_secret_key, secret_key_to_vec.
    rewrite decide_False by (intros H; by rewrite u64x4_bytes_length in H). by rewrite slice_u64x4.
  - unfold slice_to_public_key. case_decide as Hl; intros [= <-]. apply Decidable.not_or in Hl as [Hl Hh].
    apply dec_stable in Hl, Hh. split; [split; apply u64x4_range; by rewrite length_slice by lia|].
    unfold public_key_to_vec. cbn [pk_x pk_y]. rewrite !u64x4_slice by by rewrite length_slice by lia.
    rewrite slice_join by lia. destruct s as [|c s]; [done|]. injection Hh as ->. f_equal.
    unfold slice. cbn [drop]. rewrite drop_0. symmetry. apply firstn_all2. cbn in Hl. lia.
  - by apply public_key_back.
  - unfold slice_to_signature. case_decide as Hl; intros [= <-].
    split; [split; apply u64x4_range; by rewrite length_slice by lia|].
    unfold signature_to_vec. cbn [sig_r sig_s]. rewrite !u64x4_slice by by rewrite length_slice by lia.
    rewrite slice_join by lia. symmetry. by apply slice_all.
  - by apply signature_back.
Qed.
End Encodings.

(** ** The algorithms of the node *)
Section Sound.
Context {CL : CryptoLib} {CLL : CryptoLibLaws}.

Definition hash_built_in (h : HashImpl) : Prop := match h with CustomHash _ => False | _ => True end.
Definition dsa_built_in (d : DsaImpl) : Prop := match d with CustomDsaImpl _ => False | _ => True end.
Definition address_built_in (a : AddressImpl) : Prop := match a with CustomAddress _ => False | _ => True end.
(** A number of SM2 that is not a secret key may still be taken for one. *)
Definition can_sign (kp : KeyPairImpl) : Prop := match kp with KeyPairSM2 sk _ => sm2_valid sk | _ => True end.

Lemma length_zeros n : length (zeros n) = n.
Proof. apply repeat_length. Qed.
Lemma copy_zeros n src : length src = n → copy_from_slice (zeros n) src = Some src.
Proof. intros H. unfold copy_from_slice. by rewrite length_zeros, decide_True by done. Qed.

(** A hash never panics and has the length that is claimed, that of a dynamic
    library included. *)
Lemma digest_fills h data : ∃ x, digest h data = Some x ∧ length x = hash_usize (hash_len h).
Proof.
  assert (∀ n, blake2b_into n (zeros n) data = Some (blake2b n data)) as Hb
    by (intros n; unfold blake2b_into; by rewrite length_zeros, decide_True).
  destruct h as [| | | |c]; unfold digest; cbn [hash_into hash_len hash_usize]; rewrite ?Hb;
    try (eexists; split; [done|apply blake2b_length]).
  - unfold sm3_into. rewrite length_zeros, decide_True by done. eexists. split; [done|].
    pose proof (sm3_words data) as Hw. change (drop 32 (zeros 32)) with ([] : bytes). rewrite app_nil_r.
    rewrite firstn_all2 by lia.
    assert (∀ l, length (concat (to_be_bytes 4 <$> l)) = 4 * length l) as Hc; [|by rewrite Hc, Hw].
    intros l. induction l as [|z l IH]; [done|]. cbn [fmap list_fmap concat length].
    rewrite length_app, length_to_be_bytes. lia.
  - eexists. split; [done|]. rewrite dl_call_length. apply length_zeros.
Qed.

(** An address never panics if it is a digest; the others copy the key, and
    panic exactly if it has another length. *)
Lemma address_fills a data : address_built_in a →
  match address_of a data with
  | Some x => length x = address_usize (address_len a) ∧
      (a = AddressBlake2b160 ∨ length data = address_usize (address_len a))
  | None => a ≠ AddressBlake2b160 ∧ length data ≠ address_usize (address_len a)
  end.
Proof.
  intros Ha. destruct a as [| | |c]; [| | |done]; unfold address_of; cbn [address_into address_len address_usize].
  - unfold blake2b_into. rewrite length_zeros, decide_True by done. split; [apply blake2b_length|by left].
  - unfold original_into, copy_from_slice. rewrite length_zeros, decide_True by done.
    case_decide; [|done]. split; [done|by right].
  - unfold original_into, copy_from_slice. rewrite length_zeros, decide_True by done.
    case_decide; [|done]. split; [done|by right].
Qed.

(** What a key pair of an algorithm is. *)
Definition pair_of (d : DsaImpl) (sk : bytes) (kp : KeyPairImpl) : Prop :=
  match d, kp with
  | Ed25519, KeyPairEd25519 k seed => seed = sk ∧ length sk = 32
  | SM2, KeyPairSM2 k pk => slice_to_secret_key sk = Ok k ∧ pk = get_pub_key k
  | _, _ => False
  end.
Lemma pair_of_secret d sk : dsa_built_in d → ∃ r, dsa_key_pair_from_secret_key d sk = Some r ∧
  ∀ kp, r = Ok kp → pair_of d sk kp.
Proof.
  destruct d as [| |c]; [| |done]; intros _; cbn [dsa_key_pair_from_secret_key].
  - unfold seed_key_pair. destruct (from_seed_unchecked sk) as [k|] eqn:E; [|by eexists].
    pose proof (ed25519_seed _ _ E) as Hl. rewrite decide_True by done. eexists. split; [done|].
    by intros kp [= <-].
  - eexists. split; [done|]. intros kp. destruct (slice_to_secret_key sk) as [k|] eqn:E; [|done]. by intros [= <-].
Qed.

Definition public_length (d : DsaImpl) : nat := match d with SM2 => 65 | _ => 32 end.

Lemma pair_signs d sk kp msg : pair_of d sk kp → can_sign kp → ∃ pk sg v,
  key_pair_secret_key kp (zeros 32) = Some sk ∧
  public_key_of d kp = Some pk ∧ length pk = public_length d ∧ signature_of d kp msg = Some sg ∧ length sg = 64 ∧
  dsa_verifier_from_public_key d pk = Ok v ∧ verifier_verify v msg sg = Ok tt.
Proof.
  destruct d as [| |c], kp as [k seed|k pk|]; try done.
  - intros [-> Hl] _. cbn [key_pair_secret_key]. rewrite (copy_zeros _ _ Hl).
    unfold public_key_of, signature_of. cbn [dsa_length mbind option_bind dsa_usize key_pair_public_key key_pair_sign].
    rewrite (copy_zeros _ _ (ed25519_public_key_length k)), (copy_zeros _ _ (ed25519_signature_length k msg)).
    eexists _, _, (VerifierEd25519 (ed25519_public_key k)). split; [done|]. split; [done|].
    split; [apply ed25519_public_key_length|]. split; [done|]. split; [apply ed25519_signature_length|].
    cbn [dsa_verifier_from_public_key verifier_verify]. rewrite decide_True by apply ed25519_public_key_length.
    by rewrite ed25519_verifies.
  - intros [[Hk Hs]%(proj1 sm2_bytes_back) ->] Hv. cbn [can_sign] in Hv.
    pose proof (sm2_public_key k) as Hp. pose proof (sm2_signature msg k (get_pub_key k)) as Hg.
    cbn [key_pair_secret_key]. rewrite (copy_zeros 32) by by apply u64x4_bytes_length. rewrite <-Hs.
    unfold public_key_of, signature_of. cbn [dsa_length mbind option_bind dsa_usize key_pair_public_key key_pair_sign].
    rewrite (copy_zeros 65) by by apply public_key_length. rewrite (copy_zeros 64) by by apply signature_length.
    eexists _, _, (VerifierSM2 (get_pub_key k)). split; [done|]. split; [done|].
    split; [by apply public_key_length|]. split; [done|]. split; [by apply signature_length|].
    cbn [dsa_verifier_from_public_key verifier_verify].
    rewrite public_key_back, signature_back by done. cbn [result_bind]. by rewrite sm2_verifies.
Qed.

(** *** The executor over the algorithms *)
Context {SC : Scale} {API : StateDBApi}.
Variables (h : HashImpl) (d : DsaImpl) (a : AddressImpl).
Hypothesis Hd : dsa_built_in d.
Hypothesis Ha : address_built_in a.
#[local] Instance chosen : Crypto := basic h d a.

(** The addresses that are the key itself fit the algorithms with such keys. *)
Definition fits : Prop :=
  match a, d with
  | Original160, _ | Original256, SM2 => False
  | _, _ => True
  end.

Lemma fits_address (pk : bytes) : length pk = public_length d → 
  fits ↔ a = AddressBlake2b160 ∨ length pk = address_usize (address_len a).
Proof. intros ->. unfold fits. destruct a, d; cbn; naive_solver. Qed.

(** How the executor builds and checks a witness with them. *)
Lemma chosen_build D genesis sk nonce until call :
  build_tx D genesis (Some (sk, nonce, until)) call =
  let? _ := dispatch_check_call D (module call) call in
  let? kp := default (Err (EOther "panic")) (dsa_key_pair_from_secret_key d sk) in
  Ok (Build_Transaction (Some {|
    w_public_key := default [] (public_key_of d kp);
    w_signature := default [] (signature_of d kp (message genesis nonce until call));
    w_nonce := nonce; w_until := until |}) call).
Proof.
  unfold build_tx. destruct (dispatch_check_call _ _ _); [|done]. cbn [result_bind].
  cbn [key_pair_from_secret_key chosen basic]. by destruct (default _ _).
Qed.
Lemma chosen_witness genesis w call required :
  validate_witness genesis (Build_Transaction (Some w) call) required =
  let? v := dsa_verifier_from_public_key d (w_public_key w) in
  map_err (λ _, EExecutor (InvalidTxWitness "Invalid signature"))
    (verifier_verify v (message genesis (w_nonce w) (w_until w) call) (w_signature w)).
Proof. done. Qed.

(** C24: the built-in algorithms of the node keep what the executor asks of
    them: Ed25519 or SM2 for signatures, Blake2b or the key itself for
    addresses, whatever the hash, over libraries that return texts of the lengths they
    document and verify what they sign.  A transaction that is built with a
    secret key that the library can sign with (every key of Ed25519; of SM2 those that
    the library takes as valid, since the node checks their encoding alone)
    carries the public key and the signature of the lengths of the algorithm,
    nothing panics on the way, and its witness validates, whatever it says.
    Its sender is the address of the key, unless the addresses of the chain are
    keys of another length: then the call for the address panics, on every
    transaction that is signed.  Algorithms of a dynamic library are left out:
    theirs are other lengths and panics ([unchecked_lengths]). *)
Theorem signed_tx_validates (D : list (string * ModuleOps ExecContext)) genesis sk nonce until call t required :
  build_tx D genesis (Some (sk, nonce, until)) call = Ok t →
  (∀ kp, dsa_key_pair_from_secret_key d sk = Some (Ok kp) → can_sign kp) →
  validate_witness genesis t required = Ok tt ∧
  ∃ w kp, witness t = Some w ∧ dsa_key_pair_from_secret_key d sk = Some (Ok kp) ∧
    key_pair_secret_key kp (zeros 32) = Some sk ∧
    public_key_of d kp = Some (w_public_key w) ∧ length (w_public_key w) = public_length d ∧
    length (w_signature w) = 64 ∧
    (fits ∧ (∃ x, address_of a (w_public_key w) = Some x ∧ sender_of t = Some x ∧ length x = address_length) ∨
     ¬ fits ∧ address_of a (w_public_key w) = None).
Proof.
  intros Hb Hs. rewrite chosen_build in Hb. destruct (dispatch_check_call _ _ _); [|done]. cbn [result_bind] in Hb.
  destruct (pair_of_secret d sk Hd) as (r & Hr & Hp). rewrite Hr in Hb. cbn [default] in Hb. unfold id in Hb.
  destruct r as [kp|]; [|done]. cbn [result_bind] in Hb.
  destruct (pair_signs d sk kp (message genesis nonce until call) (Hp kp eq_refl) (Hs kp Hr))
    as (pk & sg & v & Hsk & Hpk & Hlpk & Hsg & Hlsg & Hv & Hver).
  rewrite Hpk, Hsg in Hb. cbn [default] in Hb. unfold id in Hb. injection Hb as <-. split.
  - rewrite chosen_witness. cbn [w_public_key w_signature w_nonce w_until]. rewrite Hv. cbn [result_bind]. by rewrite Hver.
  - eexists _, kp. split; [done|]. cbn [w_public_key w_signature]. do 5 (split; [done|]).
    pose proof (address_fills a pk Ha) as Hf. rewrite (fits_address pk Hlpk).
    destruct (address_of a pk) as [x|] eqn:Ex; [left|right].
    + split; [apply Hf|]. exists x. split; [done|]. split; [|apply Hf]. unfold sender_of. cbn. by rewrite Ex.
    + split; [|done]. destruct Hf as [Hf1 Hf2]. by intros [Hx|Hx]; [apply Hf1|apply Hf2].
Qed.
End Sound.

(** ** The hashes of the tries ([core/node/statedb/src/trie.rs])

    A trie finds its hash in one of three statics, by the length of its roots;
    a static is set once, by the first state database of that length. *)
Record Hashers := {
  HASH_IMPL_20 : option HashImpl;
  HASH_IMPL_32 : option HashImpl;
  HASH_IMPL_64 : option HashImpl;
}.
#[export] Instance hash_length_eq_dec : EqDecision HashLength.
Proof. solve_decision. Defined.
Definition static (l : HashLength) (s : Hashers) : option HashImpl :=
  match l with HashLength20 => HASH_IMPL_20 s | HashLength32 => HASH_IMPL_32 s | HashLength64 => HASH_IMPL_64 s end.
Definition set_static (l : HashLength) (h : HashImpl) (s : Hashers) : Hashers :=
  match l with
  | HashLength20 => Build_Hashers (Some h) (HASH_IMPL_32 s) (HASH_IMPL_64 s)
  | HashLength32 => Build_Hashers (HASH_IMPL_20 s) (Some h) (HASH_IMPL_64 s)
  | HashLength64 => Build_Hashers (HASH_IMPL_20 s) (HASH_IMPL_32 s) (Some h)
  end.

(** [core/node/statedb/src/errors.rs] *)
Definition LoadHasherConflict (loaded name : string) : CommonError :=
  EOther ("Load hasher conflict: " +:+ loaded +:+ ", " +:+ name).
Definition LoadHasherFail : CommonError := EOther "Load hasher fail".

(** The name of the loaded hash is read from the static of 32 bytes in all three
    cases. *)
Definition load_hasher (hash_impl : HashImpl) : M Hashers CommonError unit := λ s,
  let length := hash_len hash_impl in
  let name := hash_name hash_impl in
  match static length s with
  | None => (Ok tt, set_static length hash_impl s)
  | Some loaded =>
      if decide (hash_name loaded = name) then (Ok tt, s)
      else match HASH_IMPL_32 s with
           | Some loaded => (Err (LoadHasherConflict (hash_name loaded) name), s)
           | None => (Err LoadHasherFail, s)
           end
  end.
(** [Hasher::hash] of [TrieHasher20], [TrieHasher32] and [TrieHasher64]; [None]
    is a panic. *)
Definition trie_hash {CL : CryptoLib} (l : HashLength) (x : bytes) (s : Hashers) : option bytes :=
  hasher ← static l s; hash_into hasher (zeros (hash_usize l)) x.

Section Hashers.
Context {CL : CryptoLib} {CLL : CryptoLibLaws}.

Definition hashers_ok (s : Hashers) : Prop := ∀ l h, static l s = Some h → hash_len h = l.

Lemma static_set l l' h s : static l' (set_static l h s) = if decide (l' = l) then Some h else static l' s.
Proof. by destruct l, l'. Qed.

(** A database that has been made has a hash of its name, whose digests have the
    length of its roots; what was loaded before stays. *)
Lemma load_hasher_spec h s r s' : hashers_ok s → load_hasher h s = (r, s') →
  hashers_ok s' ∧ (∀ l x, static l s = Some x → static l s' = Some x) ∧
  match r with
  | Ok _ => ∃ loaded, static (hash_len h) s' = Some loaded ∧ hash_name loaded = hash_name h ∧
      ∀ data, ∃ x, trie_hash (hash_len h) data s' = Some x ∧ length x = hash_usize (hash_len h)
  | Err _ => s' = s ∧ ∃ loaded, static (hash_len h) s = Some loaded ∧ hash_name loaded ≠ hash_name h
  end.
Proof.
  intros Hok.
  assert (∀ t x, hashers_ok t → static (hash_len h) t = Some x → ∀ data, ∃ y,
    trie_hash (hash_len h) data t = Some y ∧ length y = hash_usize (hash_len h)) as Hh.
  { intros t x Ht Hx data. unfold trie_hash. rewrite Hx. cbn [mbind option_bind].
    rewrite <-(Ht _ _ Hx). apply digest_fills. }
  unfold load_hasher. destruct (static (hash_len h) s) as [loaded|] eqn:E.
  - case_decide; [intros [= <- <-]; split_and!; [done|done|by exists loaded; eauto]|].
    by destruct (HASH_IMPL_32 s); intros [= <- <-]; split_and!; try done; eexists.
  - intros [= <- <-]. assert (hashers_ok (set_static (hash_len h) h s)) as Hs.
    { intros l x. rewrite static_set. case_decide as Hl; [by intros [= <-]|apply Hok]. }
    split; [done|]. split.
    + intros l x Hx. rewrite static_set, decide_False; [done|]. intros ->. by rewrite E in Hx.
    + assert (static (hash_len h) (set_static (hash_len h) h s) = Some h) as Hset
        by (rewrite static_set; by rewrite decide_True).
      exists h. split; [done|]. split; [done|]. by eapply Hh.
Qed.
End Hashers.

(** ** What is not checked *)
Section Findings.
Context {CL : CryptoLib}.

(** The algorithms that the node is linked with are found by their names,
    addresses that are digests excepted: their name is taken for a library. *)
Lemma names_are_parsed h d a : hash_built_in h → dsa_built_in d → address_built_in a →
  hash_from_str (hash_name h) = Ok h ∧ dsa_from_str (dsa_impl_name d) = Ok d ∧
  (a ≠ AddressBlake2b160 → address_from_str (address_name a) = Ok a).
Proof.
  intros Hh Hd Ha. split; [destruct h; [done..|by destruct Hh]|]. split; [destruct d; [done..|by destruct Hd]|].
  intros Hne. destruct a; [by destruct Hne|done..|by destruct Ha].
Qed.
Lemma address_name_is_a_path : open_address "blake2b160" = None →
  address_from_str (address_name AddressBlake2b160) = Err (crypto_error (CustomLibLoadFailed "blake2b160")).
Proof. intros Ho. unfold address_from_str, custom_new. cbn. by rewrite Ho. Qed.

(** The lengths of a library of signatures are not looked at when it is loaded;
    the first call for a public key or a signature panics. *)
Lemma unchecked_lengths path lib name e : path ≠ "ed25519" → path ≠ "sm2" →
  open_dsa path = Some lib → dsa_name lib = Some name → dsa_length_try_from (dsa_lengths lib) = Err e →
  ∃ d, dsa_from_str path = Ok d ∧ dsa_length d = None ∧
    ∀ kp message, public_key_of d kp = None ∧ signature_of d kp message = None.
Proof.
  intros Hp1 Hp2 Ho Hn He. exists (CustomDsaImpl (Build_CustomDsa name (dsa_lengths lib) lib)).
  assert (dsa_length (CustomDsaImpl (Build_CustomDsa name (dsa_lengths lib) lib)) = None) as Hl
    by (unfold dsa_length; cbn [cd_lengths]; by rewrite He).
  split_and!; [|exact Hl|].
  - unfold dsa_from_str, custom_dsa_new. rewrite !decide_False by done. rewrite Ho. cbn [ok_or result_bind]. by rewrite Hn.
  - intros kp message. unfold public_key_of, signature_of. by rewrite Hl.
Qed.
(** Two hashes of 20 bytes are a conflict, but it is not reported as one. *)
Lemma conflict_is_lost h h' s : hash_len h = HashLength20 → HASH_IMPL_20 s = Some h' → hash_name h' ≠ hash_name h →
  HASH_IMPL_32 s = None → load_hasher h s = (Err LoadHasherFail, s).
Proof. intros Hl H20 Hne H32. unfold load_hasher. rewrite Hl. cbn [static]. by rewrite H20, decide_False, H32. Qed.
(** Hashes are compared by their names: a library with the name of a loaded one
    is taken for it. *)
Lemma hash_by_name (custom : CustomLib HashLength) h s : static (cl_length custom) s = Some h → hash_name h = cl_name custom →
  load_hasher (CustomHash custom) s = (Ok tt, s).
Proof. intros Hs Hn. unfold load_hasher. cbn [hash_len hash_name]. by rewrite Hs, decide_True. Qed.

(** The lengths of a library of hashes are looked at. *)
Lemma checked_length path lib name e : hash_length_try_from (dl_length lib) = Err e →
  open_hash path = Some lib → dl_name lib = Some name →
  custom_new open_hash hash_length_try_from path = Err e.
Proof. intros He Ho Hn. unfold custom_new. rewrite Ho. cbn. rewrite Hn. cbn. by rewrite He. Qed.
End Findings.

(** ** Concrete libraries *)
Module AlgorithmSamples.
Import Samples.

(** Digests are prefixes; a signature is the key and a prefix of the message. *)
Definition sized (n : nat) (x : bytes) : bytes := resize n Byte.x00 x.
Definition number_of (x : bytes) : U64x4 := slice_to_u64x4 (sized 32 x).
Definition sample_public (k : SecKey) : PubKey :=
  if decide (length (value k) = 4 ∧ Forall is_u64 (value k)) then Build_PubKey k k
  else Build_PubKey (number_of []) (number_of []).

#[local] Instance u64x4_eq_dec : EqDecision U64x4.
Proof. solve_decision. Defined.
#[local] Instance sample_lib : CryptoLib := {|
  blake2b := sized;
  sm3_enc _ := repeat 0%Z 8;
  get_sec_key := number_of;
  get_pub_key := sample_public;
  sm2_gen_sign msg sk pk := Build_Sm2Signature (pk_x (sample_public sk)) (number_of msg);
  sm2_ver_sign msg pk s := bool_decide (sig_r s = pk_x pk ∧ sig_s s = number_of msg);
  sm2_valid _ := True;
  Ed25519KeyPair := bytes;
  from_seed_unchecked seed := if decide (length seed = 32) then Some seed else None;
  ed25519_public_key := sized 32;
  ed25519_sign kp msg := sized 32 kp ++ sized 32 msg;
  ed25519_verify pk msg s := bool_decide (s = pk ++ sized 32 msg);
  open_hash _ := None; open_address _ := None; open_dsa _ := None;
  path_debug p := p; address_hex _ := "address";
|}.

Lemma number_of_ok x : is_u64x4 (number_of x).
Proof. apply u64x4_range, length_resize. Qed.
Lemma sample_public_ok k : is_u64x4 (pk_x (sample_public k)) ∧ is_u64x4 (pk_y (sample_public k)).
Proof. unfold sample_public. case_decide; split; try apply number_of_ok; done. Qed.
#[local] Instance sample_laws : CryptoLibLaws.
Proof.
  split.
  - intros n data. apply length_resize.
  - done.
  - apply sample_public_ok.
  - intros msg sk pk. split; [apply sample_public_ok|apply number_of_ok].
  - intros sk msg _. by apply bool_decide_eq_true.
  - intros seed kp. cbn. by case_decide.
  - intros kp. apply length_resize.
  - intros kp msg. cbn. unfold sized. by rewrite length_app, !length_resize.
  - intros kp msg. by apply bool_decide_eq_true.
Qed.

(** A key of SM2 with addresses that are digests, and one of ed25519 where the
    addresses are keys of 160 bits. *)
Definition secret : bytes := repeat Byte.x07 32.
Definition built (d : DsaImpl) (a : AddressImpl) : CommonResult Transaction :=
  let CR := basic SM3 d a in
  build_tx (Dispatcher (module_ops false [])) (b "G") (Some (secret, 1%Z, 20%Z))
    (build_call Balance.codec_transfer "balance" "transfer"
       {| Balance.recipient := sized 20 (b "bob"); Balance.value := 30 |}).

Lemma signed_tx_validates_witness :
  (∃ t w x, built SM2 AddressBlake2b160 = Ok t ∧ witness t = Some w ∧
     validate_witness (CR := basic SM3 SM2 AddressBlake2b160) (b "G") t true = Ok tt ∧
     address_of AddressBlake2b160 (w_public_key w) = Some x ∧ length x = 20) ∧
  (∃ t w, built Ed25519 Original160 = Ok t ∧ witness t = Some w ∧ address_of Original160 (w_public_key w) = None).
Proof.
  split.
  - destruct (built SM2 AddressBlake2b160) as [t|] eqn:Hb; [|by vm_compute in Hb].
    destruct (signed_tx_validates SM3 SM2 AddressBlake2b160 I I _ (b "G") secret 1 20 _ t true Hb ltac:(by intros [| |]))
      as (Hv & w & kp & Hw & _ & _ & _ & _ & _ & [[_ (x & Hx & _ & Hl)]|[Hf _]]); [|by destruct Hf].
    exists t, w, x. split; [reflexivity|]. split; [exact Hw|]. split; [exact Hv|]. split; [exact Hx|exact Hl].
  - destruct (built Ed25519 Original160) as [t|] eqn:Hb; [|by vm_compute in Hb].
    destruct (signed_tx_validates SM3 Ed25519 Original160 I I _ (b "G") secret 1 20 _ t true Hb ltac:(by intros [| |]))
      as (_ & w & kp & Hw & _ & _ & _ & Hl & _ & [[Hfit _]|[_ Hn]]).
    + destruct Hfit.
    + exists t, w. split; [reflexivity|]. split; [exact Hw|exact Hn].
Defined.
End AlgorithmSamples.
