(* ===== verification/TxPool.v ===== *)
(** * TxPool

    [core/node/txpool/src/lib.rs]: the transaction pool.  An insertion is a
    sequence of atomic accesses to a shared map and two channels; a task moves
    the transactions from the channel to the queue; a removal accesses the
    queue and then the map.  The file gives the operations as the code writes
    them and a step relation that interleaves their atomic accesses. *)
From S2P Require Import Prelude Codec Types.

(** [trait TxPoolSupport]: what the pool uses of the chain.  [tx_valid] is the
    answer of the chain at the time it is asked. *)
Class TxPoolSupport : Type := {
  support_hash_transaction : Transaction → CommonResult Hash;
  hash_display : Hash → string;
}.

Inductive TxPoolOutMessage :=
| TxInserted (tx_hash : Hash).

(** [struct TxPool] with the state of its channels: the transactions sent to
    the buffer and not yet received, the messages sent, and whether the
    receivers are alive. *)
Record TxPool := {
  map : gmap Hash FullTransaction;
  queue : list FullTransaction;
  buffer_tx : list FullTransaction;
  buffer_open : bool;
  message_tx : list TxPoolOutMessage;
  message_open : bool;
}.

Definition with_map (x : gmap Hash FullTransaction) (p : TxPool) : TxPool :=
  {| map := x; queue := queue p; buffer_tx := buffer_tx p; buffer_open := buffer_open p;
     message_tx := message_tx p; message_open := message_open p |}.
Definition with_queue (x : list FullTransaction) (p : TxPool) : TxPool :=
  {| map := map p; queue := x; buffer_tx := buffer_tx p; buffer_open := buffer_open p;
     message_tx := message_tx p; message_open := message_open p |}.
Definition with_buffer_tx (x : list FullTransaction) (p : TxPool) : TxPool :=
  {| map := map p; queue := queue p; buffer_tx := x; buffer_open := buffer_open p;
     message_tx := message_tx p; message_open := message_open p |}.
Definition with_message_tx (x : list TxPoolOutMessage) (p : TxPool) : TxPool :=
  {| map := map p; queue := queue p; buffer_tx := buffer_tx p; buffer_open := buffer_open p;
     message_tx := x; message_open := message_open p |}.

(** [TxPool::new] *)
Definition txpool_new : TxPool :=
  {| map := ∅; queue := []; buffer_tx := []; buffer_open := true;
     message_tx := []; message_open := true |}.

Section TxPool.
Context {TS : TxPoolSupport}.
(** [config.pool_capacity] *)
Variable pool_capacity : nat.

Definition insert_error (e : InsertError) : CommonError := ETxPool (TxPoolInsertError e).

Definition check_capacity : M TxPool CommonError unit :=
  let! n := asks (size ∘ map) in
  if decide (pool_capacity ≤ n) then throw (insert_error (ExceedCapacity pool_capacity))
  else ret tt.

Definition contain (tx_hash : Hash) (p : TxPool) : bool :=
  bool_decide (is_Some (map p !! tx_hash)).

Definition check_pool_exist (tx_hash : Hash) : M TxPool CommonError unit :=
  let! c := asks (contain tx_hash) in
  if c : bool then throw (insert_error (DuplicatedTx (hash_display tx_hash))) else ret tt.

(** The answer of the chain, its validation errors as errors of the pool. *)
Definition validate_transaction (answer : CommonResult unit) : CommonResult unit :=
  or_else_catch as_chain
    (λ e, match e with
          | ChainValidateTxError e => Some (Err (insert_error (InvalidTx e)))
          | _ => None
          end) answer.

(** [self.map.insert(..)] with the error when the hash was bound *)
Definition map_insert (tx_hash : Hash) (pool_tx : FullTransaction) : M TxPool CommonError unit :=
  let! old := asks (λ p, map p !! tx_hash) in
  do! modify (λ p, with_map (<[tx_hash := pool_tx]> (map p)) p) in
  match old with
  | Some _ => throw (insert_error (DuplicatedTx (hash_display tx_hash)))
  | None => ret tt
  end.

(** [self.buffer_tx.unbounded_send(..)]: when the receiver is gone the hash
    is unbound again. *)
Definition send_buffer (pool_tx : FullTransaction) : M TxPool CommonError unit :=
  let! open := asks buffer_open in
  if open : bool then modify (λ p, with_buffer_tx (buffer_tx p ++ [pool_tx]) p)
  else
    do! modify (λ p, with_map (delete (tx_hash pool_tx) (map p)) p) in
    throw (ETxPool TxPoolChannel).

Definition on_tx_inserted (tx_hash : Hash) : M TxPool CommonError unit :=
  let! open := asks message_open in
  if open : bool then modify (λ p, with_message_tx (message_tx p ++ [TxInserted tx_hash]) p)
  else throw (ETxPool TxPoolChannel).

(** [TxPool::insert]; [valid] is the chain that is asked. *)
Definition insert (valid : Hash → Transaction → bool → CommonResult unit) (tx : Transaction) :
    M TxPool CommonError unit :=
  do! check_capacity in
  let! tx_hash := lift (support_hash_transaction tx) in
  do! check_pool_exist tx_hash in
  do! lift (validate_transaction (valid tx_hash tx true)) in
  let pool_tx := {| tx := tx; tx_hash := tx_hash |} in
  do! map_insert tx_hash pool_tx in
  do! send_buffer pool_tx in
  on_tx_inserted tx_hash.

(** The two accesses of [TxPool::remove]. *)
Definition remove_queue (tx_hash_set : gset Hash) (p : TxPool) : TxPool :=
  with_queue (filter (λ x, tx_hash x ∉ tx_hash_set) (queue p)) p.
Definition remove_map (tx_hash_set : gset Hash) (p : TxPool) : TxPool :=
  with_map (filter (λ kv, kv.1 ∉ tx_hash_set) (map p)) p.
Definition remove (tx_hash_set : gset Hash) : M TxPool CommonError unit :=
  do! modify (remove_queue tx_hash_set) in modify (remove_map tx_hash_set).

(** One turn of the loop of [BufferStream::start]. *)
Definition buffer_stream_turn (p : TxPool) : TxPool :=
  match buffer_tx p with
  | [] => p
  | t :: rest => with_queue (queue p ++ [t]) (with_buffer_tx rest p)
  end.

(** ** Interleavings *)

(** The accesses of an insertion that are still to come. *)
Inductive Phase :=
| CheckCapacity
| CheckPoolExist (tx_hash : Hash)
| Validate (tx_hash : Hash)
| MapInsert (tx_hash : Hash)
| SendBuffer (tx_hash : Hash)
| OnTxInserted (tx_hash : Hash).

(** One access, and what follows it: [None] when the insertion is done.
    [answer] is what the chain answers when it is asked. *)
Definition access (answer : CommonResult unit) (t : Transaction) (ph : Phase) :
    M TxPool CommonError (option Phase) :=
  match ph with
  | CheckCapacity =>
      do! check_capacity in
      let! h := lift (support_hash_transaction t) in ret (Some (CheckPoolExist h))
  | CheckPoolExist h => do! check_pool_exist h in ret (Some (Validate h))
  | Validate h => do! lift (validate_transaction answer) in ret (Some (MapInsert h))
  | MapInsert h => do! map_insert h {| tx := t; tx_hash := h |} in ret (Some (SendBuffer h))
  | SendBuffer h => do! send_buffer {| tx := t; tx_hash := h |} in ret (Some (OnTxInserted h))
  | OnTxInserted h => do! on_tx_inserted h in ret None
  end.

(** An insertion that is not interrupted. *)
Fixpoint accesses (answer : CommonResult unit) (t : Transaction) (n : nat) (ph : Phase) :
    M TxPool CommonError unit :=
  match n with
  | 0 => ret tt
  | S n =>
      let! next := access answer t ph in
      match next with
      | Some ph => accesses answer t n ph
      | None => ret tt
      end
  end.

(** The pool with the insertions and removals that are under way. *)
Record System := {
  pool : TxPool;
  inserting : list (Transaction * Phase);
  removing : list (gset Hash);
}.

Inductive step : System → System → Prop :=
| step_insert_start t p ins rs :
    step {| pool := p; inserting := ins; removing := rs |}
         {| pool := p; inserting := (t, CheckCapacity) :: ins; removing := rs |}
| step_insert_next answer t ph ph' p p' ins1 ins2 rs :
    access answer t ph p = (Ok (Some ph'), p') →
    step {| pool := p; inserting := ins1 ++ (t, ph) :: ins2; removing := rs |}
         {| pool := p'; inserting := ins1 ++ (t, ph') :: ins2; removing := rs |}
| step_insert_end answer t ph r p p' ins1 ins2 rs :
    access answer t ph p = (r, p') → (∀ ph', r ≠ Ok (Some ph')) →
    step {| pool := p; inserting := ins1 ++ (t, ph) :: ins2; removing := rs |}
         {| pool := p'; inserting := ins1 ++ ins2; removing := rs |}
| step_buffer p ins rs :
    step {| pool := p; inserting := ins; removing := rs |}
         {| pool := buffer_stream_turn p; inserting := ins; removing := rs |}
| step_remove_queue s p ins rs :
    step {| pool := p; inserting := ins; removing := rs |}
         {| pool := remove_queue s p; inserting := ins; removing := s :: rs |}
| step_remove_map s p ins rs1 rs2 :
    step {| pool := p; inserting := ins; removing := rs1 ++ s :: rs2 |}
         {| pool := remove_map s p; inserting := ins; removing := rs1 ++ rs2 |}.

(** The initial system, and what can be reached from it. *)
Definition system_new : System := {| pool := txpool_new; inserting := []; removing := [] |}.

Inductive reachable : System → Prop :=
| reachable_new : reachable system_new
| reachable_step s s' : reachable s → step s s' → reachable s'.

(** *** The sequential operations *)

(** An insertion is its accesses one after the other. *)
Lemma insert_accesses valid t p :
  insert valid t p =
  (let! h := lift (support_hash_transaction t) in
   accesses (valid h t true) t 6 CheckCapacity) p ∨
  (∃ e, support_hash_transaction t = Err e).
Proof.
  destruct (support_hash_transaction t) as [h|e] eqn:Hh; [left|right; by exists e].
  unfold insert, accesses, access. rewrite bind_lift_ok, Hh.
  unfold bind, lift, ret.
  destruct (check_capacity p) as [[[]|] p1]; [|done].
  destruct (check_pool_exist h p1) as [[[]|] p2]; [|done].
  destruct (validate_transaction _) as [[]|]; [|done].
  destruct (map_insert h _ p2) as [[[]|] p3]; [|done].
  destruct (send_buffer _ p3) as [[[]|] p4]; [|done].
  by destruct (on_tx_inserted h p4) as [[[]|] p5].
Qed.

(** Why an insertion is rejected, in the order of the checks. *)
Definition insert_rejection (valid : Hash → Transaction → bool → CommonResult unit)
    (t : Transaction) (p : TxPool) : option CommonError :=
  if decide (pool_capacity ≤ size (map p)) then Some (insert_error (ExceedCapacity pool_capacity))
  else
    match support_hash_transaction t with
    | Err e => Some e
    | Ok h =>
        if decide (is_Some (map p !! h)) then Some (insert_error (DuplicatedTx (hash_display h)))
        else
          match valid h t true with
          | Ok _ => None
          | Err (EChain (ChainValidateTxError e)) => Some (insert_error (InvalidTx e))
          | Err e => Some e
          end
    end.

(** The pool after an accepted insertion. *)
Definition inserted (x : FullTransaction) (p : TxPool) : TxPool :=
  with_message_tx (message_tx p ++ [TxInserted (tx_hash x)])
    (with_buffer_tx (buffer_tx p ++ [x]) (with_map (<[tx_hash x := x]> (map p)) p)).

Lemma insert_eq valid t p :
  buffer_open p = true → message_open p = true →
  insert valid t p =
  match insert_rejection valid t p with
  | Some e => (Err e, p)
  | None =>
      match support_hash_transaction t with
      | Ok h => (Ok tt, inserted {| tx := t; tx_hash := h |} p)
      | Err e => (Err e, p)
      end
  end.
Proof.
  intros Hb Hm. unfold insert, insert_rejection, check_capacity, bind, asks. simpl.
  case_decide; [done|]. unfold lift, ret. simpl.
  destruct (support_hash_transaction t) as [h|e]; [|done].
  unfold check_pool_exist, contain, bind, asks. case_decide as Hd.
  { by rewrite bool_decide_eq_true_2. }
  rewrite bool_decide_eq_false_2 by done. unfold validate_transaction, or_else_catch.
  destruct (valid h t true) as [[]|e]; simpl.
  - apply eq_None_not_Some in Hd. unfold map_insert, bind, asks, modify. rewrite Hd.
    unfold ret, send_buffer, bind, asks. simpl. rewrite Hb.
    unfold on_tx_inserted, bind, asks, modify. simpl. by rewrite Hm.
  - destruct e; try done. by destruct e.
Qed.

(** *** The invariant of the interleavings *)

Definition phase_hash (ph : Phase) : option Hash :=
  match ph with
  | CheckCapacity => None
  | CheckPoolExist h | Validate h | MapInsert h | SendBuffer h | OnTxInserted h => Some h
  end.

(** A transaction that is bound and not yet sent. *)
Definition sending_tx (i : Transaction * Phase) : option FullTransaction :=
  match i with
  | (t, SendBuffer h) => Some {| tx := t; tx_hash := h |}
  | _ => None
  end.
Definition sending (ins : list (Transaction * Phase)) : list FullTransaction :=
  omap sending_tx ins.

Lemma sending_app ins1 ins2 : sending (ins1 ++ ins2) = sending ins1 ++ sending ins2.
Proof. apply omap_app. Qed.

(** The transactions on their way to the queue or in it. *)
Definition live (s : System) : list FullTransaction :=
  queue (pool s) ++ buffer_tx (pool s) ++ sending (inserting s).

(** Removals concern no transaction that is being inserted. *)
Definition removals_apart (s : System) : Prop :=
  ∀ hs, hs ∈ removing s →
    Forall (λ x, tx_hash x ∉ hs) (buffer_tx (pool s)) ∧
    Forall (λ i, ∀ h, support_hash_transaction i.1 = Ok h → h ∉ hs) (inserting s).

Inductive careful : System → Prop :=
| careful_new : careful system_new
| careful_step s s' : careful s → step s s' → removals_apart s' → careful s'.

(** The live transactions have different hashes, the map binds exactly them
    and what a removal under way will unbind, and no removal under way
    concerns them. *)
Record coherent (L : list FullTransaction) (m : gmap Hash FullTransaction)
    (rs : list (gset Hash)) : Prop := {
  live_NoDup : NoDup (tx_hash <$> L);
  live_bound : ∀ x, x ∈ L → is_Some (m !! tx_hash x);
  bound_live : ∀ h, is_Some (m !! h) → h ∈ tx_hash <$> L ∨ ∃ hs, hs ∈ rs ∧ h ∈ hs;
  live_kept : ∀ hs x, hs ∈ rs → x ∈ L → tx_hash x ∉ hs;
}.

#[global] Instance coherent_perm : Proper ((≡ₚ) ==> (=) ==> (=) ==> iff) coherent.
Proof.
  assert (∀ L L' m rs, L ≡ₚ L' → coherent L m rs → coherent L' m rs) as Hp.
  { intros L L' m rs HL [H1 H2 H3 H4]. split.
    - by rewrite <-HL.
    - intros x. rewrite <-HL. apply H2.
    - intros h. rewrite <-HL. apply H3.
    - intros hs x Hhs. rewrite <-HL. by apply H4. }
  intros L L' HL m ? <- rs ? <-. split; apply Hp; [done|by symmetry].
Qed.

Lemma coherent_add L m rs x :
  coherent L m rs → m !! tx_hash x = None → (∀ hs, hs ∈ rs → tx_hash x ∉ hs) →
  coherent (x :: L) (<[tx_hash x := x]> m) rs.
Proof.
  intros [H1 H2 H3 H4] Hm Hrs. split; simpl.
  - constructor; [|done]. intros (y & Hy & Hin)%list_elem_of_fmap.
    destruct (H2 y Hin) as [z Hz]. congruence.
  - intros y [->|Hy]%elem_of_cons; [rewrite lookup_insert_eq; by eexists|].
    apply lookup_insert_is_Some. destruct (decide (tx_hash x = tx_hash y)); [by left|right].
    split; [done|]. by apply H2.
  - intros h Hh. apply lookup_insert_is_Some in Hh as [<-|[_ Hh]].
    + left. left.
    + destruct (H3 h Hh); [left; by right|by right].
  - intros hs y Hhs [->|Hy]%elem_of_cons; [by apply Hrs|by apply H4].
Qed.

Lemma coherent_rebind L m rs h x :
  coherent L m rs → is_Some (m !! h) → coherent L (<[h := x]> m) rs.
Proof.
  intros [H1 H2 H3 H4] Hh. split; try done.
  - intros y Hy. apply lookup_insert_is_Some.
    destruct (decide (h = tx_hash y)); [by left|right]. split; [done|by apply H2].
  - intros h' Hh'. apply H3. apply lookup_insert_is_Some in Hh' as [<-|[_ ?]]; done.
Qed.

Lemma coherent_drop L m rs x :
  coherent (x :: L) m rs → coherent L (delete (tx_hash x) m) rs.
Proof.
  intros [H1 H2 H3 H4]. apply NoDup_cons in H1 as [Hx H1]. split; try done.
  - intros y Hy. rewrite lookup_delete_ne; [apply H2; by right|].
    intros Heq. apply Hx. rewrite Heq. apply list_elem_of_fmap. by exists y.
  - intros h Hh. apply lookup_delete_is_Some in Hh as [Hne Hh].
    destruct (H3 h Hh) as [Hin|]; [left|by right]. simpl in Hin.
    apply elem_of_cons in Hin as [->|]; done.
  - intros hs y Hhs Hy. apply H4; [done|by right].
Qed.

Lemma coherent_remove_queue Q T m rs s :
  coherent (Q ++ T) m rs → (∀ x, x ∈ T → tx_hash x ∉ s) →
  coherent (filter (λ x, tx_hash x ∉ s) Q ++ T) m (s :: rs).
Proof.
  intros [H1 H2 H3 H4] HT.
  assert (∀ x, x ∈ filter (λ x, tx_hash x ∉ s) Q ++ T → x ∈ Q ++ T ∧ tx_hash x ∉ s) as Hin.
  { intros x [[Hs Hx]%list_elem_of_filter|Hx]%elem_of_app; (split; [|by auto]); apply elem_of_app; auto. }
  split.
  - eapply sublist_NoDup; [exact H1|]. rewrite !fmap_app. apply sublist_app; [|done].
    apply fmap_sublist, sublist_filter.
  - intros x Hx. by apply H2, Hin.
  - intros h Hh. destruct (decide (h ∈ s)) as [Hs|Hs]; [right; exists s; split; [left|done]|].
    destruct (H3 h Hh) as [Hl|(hs & Hhs & Hin')].
    + left. apply list_elem_of_fmap in Hl as (x & -> & [Hx|Hx]%elem_of_app).
      all: apply list_elem_of_fmap; exists x; (split; [done|]); apply elem_of_app.
      * left. by apply list_elem_of_filter.
      * by right.
    + right. exists hs. split; [by right|done].
  - intros hs x [->|Hhs]%elem_of_cons Hx; [by apply Hin|]. apply H4; [done|]. by apply Hin.
Qed.

Lemma coherent_remove_map L m rs1 s rs2 :
  coherent L m (rs1 ++ s :: rs2) →
  coherent L (filter (λ kv, kv.1 ∉ s) m) (rs1 ++ rs2).
Proof.
  intros [H1 H2 H3 H4]. split.
  - done.
  - intros x Hx. destruct (H2 x Hx) as [y Hy]. exists y.
    apply map_lookup_filter_Some. split; [done|]. simpl. apply H4; [set_solver|done].
  - intros h [y Hy]. apply map_lookup_filter_Some in Hy as [Hy Hs]. simpl in Hs.
    destruct (H3 h) as [|(hs & Hhs & Hin)]; [by eexists|by left|]. right. exists hs.
    split; [|done]. apply elem_of_app in Hhs as [Hhs|[->|Hhs]%elem_of_cons]; [|done|];
      apply elem_of_app; auto.
  - intros hs x Hhs Hx. apply H4; [|done]. apply elem_of_app in Hhs as [Hhs|Hhs];
      apply elem_of_app; [by left|right; by right].
Qed.

(** A phase knows the hash of its transaction. *)
Definition phase_ok (i : Transaction * Phase) : Prop :=
  ∀ h, phase_hash i.2 = Some h → support_hash_transaction i.1 = Ok h.

Definition consistent (s : System) : Prop :=
  coherent (live s) (map (pool s)) (removing s) ∧ Forall phase_ok (inserting s).

Lemma consistent_new : consistent system_new.
Proof.
  split; [|constructor]. split; simpl.
  - constructor.
  - by intros x ?%not_elem_of_nil.
  - intros h Hh. rewrite lookup_empty in Hh. by destruct Hh.
  - by intros hs x ?%not_elem_of_nil.
Qed.

(** One access keeps the transactions coherent: [i1] is the insertion
    before it and [i2] what is left of it, if anything. *)
Lemma access_coherent answer t ph p r p' B rs :
  access answer t ph p = (r, p') → phase_ok (t, ph) →
  (∀ hs h, hs ∈ rs → support_hash_transaction t = Ok h → h ∉ hs) →
  coherent (option_list (sending_tx (t, ph)) ++ queue p ++ buffer_tx p ++ B) (map p) rs →
  let left := match r with Ok (Some ph') => Some (t, ph') | _ => None end in
  coherent (option_list (left ≫= sending_tx) ++ queue p' ++ buffer_tx p' ++ B) (map p') rs ∧
  match left with Some i => phase_ok i | None => True end.
Proof.
  intros Hacc Hph Hrs Hco. destruct ph as [|h|h|h|h|h]; simpl in Hacc.
  - unfold check_capacity, bind, asks, lift, ret, throw in Hacc. case_decide; simplify_eq/=; [done|].
    destruct (support_hash_transaction t) as [h|] eqn:Hh; simplify_eq/=; [|done].
    split; [done|]. intros h' [= <-]. done.
  - unfold check_pool_exist, bind, asks, ret, throw in Hacc.
    destruct (contain h p); simplify_eq/=; [done|]. split; [done|]. exact Hph.
  - unfold bind, lift, ret in Hacc.
    destruct (validate_transaction answer); simplify_eq/=; [|done]. split; [done|]. exact Hph.
  - unfold map_insert, bind, asks, modify, ret, throw in Hacc.
    pose proof (Hph h eq_refl) as Hh.
    destruct (map p !! h) as [old|] eqn:Hm; simplify_eq/=.
    + split; [|done]. apply coherent_rebind; [done|by eexists].
    + split; [|exact Hph]. apply (coherent_add _ _ _ {| tx := t; tx_hash := h |}); [done|done|].
      intros hs Hhs. by eapply Hrs.
  - unfold send_buffer, bind, asks, modify, ret, throw in Hacc. simpl in Hco.
    destruct (buffer_open p); simplify_eq/=.
    + split; [|exact Hph]. eapply coherent_perm; [|done|done|exact Hco].
      rewrite <-!app_assoc. simpl. rewrite <-!Permutation_middle. done.
    + split; [|done]. by apply (coherent_drop _ _ _ {| tx := t; tx_hash := h |}).
  - unfold on_tx_inserted, bind, asks, modify, ret, throw in Hacc.
    by destruct (message_open p); simplify_eq/=.
Qed.

Lemma live_perm p ins1 i ins2 rs :
  live {| pool := p; inserting := ins1 ++ i :: ins2; removing := rs |} ≡ₚ
  option_list (sending_tx i) ++ queue p ++ buffer_tx p ++ sending (ins1 ++ ins2).
Proof.
  unfold live. simpl. rewrite !sending_app. simpl. unfold sending at 2. simpl.
  destruct (sending_tx i) as [x|]; simpl; [|done].
  fold (sending ins2). by rewrite !Permutation_middle.
Qed.

Lemma live_unchanged p ins rs t ph :
  sending_tx (t, ph) = None →
  live {| pool := p; inserting := (t, ph) :: ins; removing := rs |} =
  live {| pool := p; inserting := ins; removing := rs |}.
Proof. intros Hn. unfold live, sending. simpl. by destruct ph. Qed.

Lemma removals_apart_at p ins1 t ph ins2 rs :
  removals_apart {| pool := p; inserting := ins1 ++ (t, ph) :: ins2; removing := rs |} →
  ∀ hs h, hs ∈ rs → support_hash_transaction t = Ok h → h ∉ hs.
Proof.
  intros Hap hs h Hhs. destruct (Hap hs Hhs) as [_ Hi]. cbn in Hi.
  apply Forall_app in Hi as [_ Hi]. apply Forall_cons in Hi as [Ht _]. apply Ht.
Qed.

Lemma step_consistent s s' :
  step s s' → removals_apart s → removals_apart s' → consistent s → consistent s'.
Proof.
  intros Hstep Hap Hap' [Hco Hph].
  destruct Hstep as [t p ins rs|answer t ph ph' p p' ins1 ins2 rs Hacc
    |answer t ph r p p' ins1 ins2 rs Hacc Hr|p ins rs|hs p ins rs|hs p ins rs1 rs2];
    cbn [pool inserting removing] in *.
  - split; [by rewrite live_unchanged|]. by constructor.
  - apply Forall_app in Hph as [Hi1 [Hi Hi2]%Forall_cons]. rewrite live_perm in Hco.
    destruct (access_coherent _ _ _ _ _ _ _ _ Hacc Hi (removals_apart_at _ _ _ _ _ _ Hap) Hco)
      as [Hco' Hi'].
    split; [by rewrite live_perm|]. apply Forall_app. split; [done|]. by constructor.
  - apply Forall_app in Hph as [Hi1 [Hi Hi2]%Forall_cons]. rewrite live_perm in Hco.
    destruct (access_coherent _ _ _ _ _ _ _ _ Hacc Hi (removals_apart_at _ _ _ _ _ _ Hap) Hco)
      as [Hco' _].
    split; [|by apply Forall_app].
    replace (match r with Ok (Some ph') => Some (t, ph') | _ => None end) with
      (@None (Transaction * Phase)) in Hco'; [exact Hco'|].
    destruct r as [[ph'|]|]; [by destruct (Hr ph')|done|done].
  - split; [|done]. unfold live in *. cbn [pool inserting removing] in *.
    unfold buffer_stream_turn. destruct (buffer_tx p) as [|x rest] eqn:Hb; cbn; rewrite ?Hb; [done|].
    by rewrite <-app_assoc.
  - split; [|done]. unfold live in *. cbn [pool inserting removing remove_queue with_queue queue buffer_tx map] in *.
    apply coherent_remove_queue; [done|]. intros x Hx.
    destruct (Hap' hs) as [Hb Hi]; [left|]. apply elem_of_app in Hx as [Hx|Hx].
    + rewrite Forall_forall in Hb. by apply Hb.
    + apply list_elem_of_omap in Hx as ([t ph] & Hin & Hx). rewrite Forall_forall in Hi, Hph.
      destruct ph; try done. simpl in Hx. injection Hx as <-. simpl.
      apply (Hi _ Hin). by apply (Hph _ Hin).
  - split; [|done]. apply (coherent_remove_map _ _ _ _ _ Hco).
Qed.

Lemma careful_inv s : careful s → removals_apart s ∧ consistent s.
Proof.
  induction 1 as [|s s' _ [Hap Hco] Hstep Hap'].
  - split; [by intros hs ?%not_elem_of_nil|apply consistent_new].
  - split; [done|]. by eapply step_consistent.
Qed.

(** *** The capacity *)

(** The insertions that have passed the capacity check and may still bind. *)
Definition admitted (ph : Phase) : bool :=
  match ph with CheckPoolExist _ | Validate _ | MapInsert _ => true | _ => false end.
Definition admissions (ins : list (Transaction * Phase)) : nat :=
  length (filter (λ i, admitted i.2) ins).

(** Runs with at most [n] insertions under way at any time. *)
Inductive crowded (n : nat) : System → Prop :=
| crowded_new : crowded n system_new
| crowded_step s s' : crowded n s → step s s' → length (inserting s') ≤ n → crowded n s'.

Lemma admissions_le ins : admissions ins ≤ length ins.
Proof. apply length_filter. Qed.
Lemma admissions_mid ins1 i ins2 :
  admissions (ins1 ++ i :: ins2) =
  (if admitted i.2 then 1 else 0) + admissions (ins1 ++ ins2).
Proof.
  unfold admissions. rewrite !filter_app, filter_cons, !length_app.
  destruct (admitted i.2); simpl; lia.
Qed.

(** What one access does to the size of the map. *)
Lemma access_size answer t ph p r p' :
  access answer t ph p = (r, p') →
  let adm := match r with Ok (Some ph') => if admitted ph' then 1 else 0 | _ => 0 end in
  match ph with
  | CheckCapacity => map p' = map p ∧ (adm = 1 → size (map p) < pool_capacity)
  | _ => size (map p') + adm ≤ size (map p) + (if admitted ph then 1 else 0)
  end.
Proof.
  intros Hacc. destruct ph as [|h|h|h|h|h]; simpl in Hacc |- *.
  - unfold check_capacity, bind, asks, lift, ret, throw in Hacc. case_decide; simplify_eq/=; [done|].
    destruct (support_hash_transaction t) as [h|]; simplify_eq/=; (split; [done|lia]).
  - unfold check_pool_exist, bind, asks, ret, throw in Hacc.
    destruct (contain h p); simplify_eq/=; lia.
  - unfold bind, lift, ret in Hacc.
    destruct (validate_transaction answer); simplify_eq/=; lia.
  - unfold map_insert, bind, asks, modify, ret, throw in Hacc.
    destruct (map p !! h) as [old|] eqn:Hm; simplify_eq/=; rewrite map_size_insert, Hm;
      unfold id; lia.
  - unfold send_buffer, bind, asks, modify, ret, throw in Hacc.
    destruct (buffer_open p); simplify_eq/=; [lia|].
    rewrite map_size_delete. destruct (map p !! h); simpl; lia.
  - unfold on_tx_inserted, bind, asks, modify, ret, throw in Hacc.
    destruct (message_open p); simplify_eq/=; lia.
Qed.

Lemma remove_map_size s p : size (map (remove_map s p)) ≤ size (map p).
Proof. apply map_size_filter. Qed.

Lemma crowded_size n s :
  crowded n s → size (map (pool s)) + admissions (inserting s) ≤ pool_capacity + n - 1.
Proof.
  induction 1 as [|s s' _ IH Hstep Hn]; [simpl; rewrite map_size_empty; unfold admissions; simpl; lia|].
  destruct Hstep as [t p ins rs|answer t ph ph' p p' ins1 ins2 rs Hacc
    |answer t ph r p p' ins1 ins2 rs Hacc Hr|p ins rs|hs p ins rs|hs p ins rs1 rs2];
    cbn [pool inserting removing] in *.
  - exact IH.
  - apply access_size in Hacc. rewrite !admissions_mid in *. cbn [snd] in *.
    pose proof (admissions_le (ins1 ++ ins2)) as Hle. rewrite !length_app in *. simpl in *.
    destruct ph; try lia. destruct Hacc as [-> Hs]. destruct (admitted ph'); simpl in *; lia.
  - apply access_size in Hacc. rewrite !admissions_mid in *. cbn [snd] in *.
    destruct ph; try lia. destruct Hacc as [-> _]. simpl in *. lia.
  - unfold buffer_stream_turn. destruct (buffer_tx p); exact IH.
  - exact IH.
  - pose proof (remove_map_size hs p). lia.
Qed.

(** *** Properties *)

(** The outcome of an insertion that is not interrupted.  It is rejected
    when the pool is full, when the hash fails, when the pool holds the hash
    and when the chain rejects the transaction, in this order, and then the
    pool is as before; otherwise the hash is bound, the transaction is sent
    to the queue and the insertion is announced. *)
Theorem insert_outcome valid t p :
  buffer_open p = true → message_open p = true →
  insert valid t p =
  match insert_rejection valid t p with
  | Some e => (Err e, p)
  | None =>
      match support_hash_transaction t with
      | Ok h => (Ok tt, inserted {| tx := t; tx_hash := h |} p)
      | Err e => (Err e, p)
      end
  end.
Proof. apply insert_eq. Qed.

(** C32: no transaction is queued twice and the map is exact, whatever the
    interleaving of insertions, removals and the task of the queue, provided
    that a removal under way concerns no transaction that is being inserted:
    the queue, the channel and the insertions that have bound their hash
    hold different hashes, all bound in the map, and once nothing is under
    way the map binds exactly the hashes of the queue. *)
Theorem careful_pool_exact s :
  careful s →
  NoDup (tx_hash <$> live s) ∧
  (∀ x, x ∈ live s → is_Some (map (pool s) !! tx_hash x)) ∧
  (inserting s = [] → removing s = [] → buffer_tx (pool s) = [] →
   ∀ h, is_Some (map (pool s) !! h) ↔ h ∈ tx_hash <$> queue (pool s)).
Proof.
  intros [_ [[H1 H2 H3 H4] _]]%careful_inv. split_and!; [done|done|].
  intros Hi Hr Hb h. unfold live in *. rewrite Hi, Hr, Hb, !app_nil_r in *. split.
  - intros Hh. destruct (H3 h Hh) as [|(hs & []%not_elem_of_nil & _)]. done.
  - intros (x & -> & Hx)%list_elem_of_fmap. by apply H2.
Qed.

(** With at most [n] insertions under way at any time the pool holds at
    most [pool_capacity + n - 1] transactions, removals notwithstanding; in
    particular never more than the capacity when insertions do not overlap. *)
Theorem capacity_bound n s : crowded n s → size (map (pool s)) ≤ pool_capacity + n - 1.
Proof. intros Hs%crowded_size. lia. Qed.

(** A step of a system without removals that runs one insertion. *)
Lemma reachable_access answer t ph ph' p p' :
  reachable {| pool := p; inserting := [(t, ph)]; removing := [] |} →
  access answer t ph p = (Ok (Some ph'), p') →
  reachable {| pool := p'; inserting := [(t, ph')]; removing := [] |}.
Proof.
  intros Hr Ha. eapply reachable_step; [exact Hr|]. by apply (step_insert_next answer t ph ph' p p' [] []).
Qed.

Lemma reachable_inserted t h p :
  support_hash_transaction t = Ok h → size (map p) < pool_capacity → map p !! h = None →
  buffer_open p = true → message_open p = true →
  reachable {| pool := p; inserting := []; removing := [] |} →
  reachable {| pool := inserted {| tx := t; tx_hash := h |} p; inserting := []; removing := [] |}.
Proof.
  intros Hh Hs Hm Hb Hmo Hr. eapply reachable_step in Hr; [|apply (step_insert_start t)].
  eapply (reachable_access (Ok tt)) in Hr.
  2: { simpl. unfold check_capacity, bind, asks, lift, ret. simpl. rewrite decide_False by lia.
       by rewrite Hh. }
  eapply (reachable_access (Ok tt)) in Hr.
  2: { simpl. unfold check_pool_exist, contain, bind, asks, ret. by rewrite Hm. }
  eapply (reachable_access (Ok tt)) in Hr; [|reflexivity].
  eapply (reachable_access (Ok tt)) in Hr.
  2: { simpl. unfold map_insert, bind, asks, modify, ret. by rewrite Hm. }
  eapply (reachable_access (Ok tt)) in Hr.
  2: { simpl. unfold send_buffer, bind, asks, modify, ret. simpl. by rewrite Hb. }
  eapply reachable_step; [exact Hr|].
  apply (step_insert_end (Ok tt) t (OnTxInserted h) (Ok None) _ _ [] []); [|done].
  simpl. unfold on_tx_inserted, bind, asks, modify, ret. simpl. by rewrite Hmo.
Qed.

Lemma reachable_buffer p :
  reachable {| pool := p; inserting := []; removing := [] |} →
  reachable {| pool := buffer_stream_turn p; inserting := []; removing := [] |}.
Proof. intros Hr. eapply reachable_step; [exact Hr|]. apply step_buffer. Qed.

(** Without that provision the pool queues a transaction twice: when a
    removal runs while a transaction is in the channel, it stays on its way
    to the queue while its hash is unbound, and it can be inserted again. *)
Theorem removal_race_duplicates t h :
  0 < pool_capacity → support_hash_transaction t = Ok h →
  ∃ s, reachable s ∧ inserting s = [] ∧ removing s = [] ∧ buffer_tx (pool s) = [] ∧
    queue (pool s) = [ {| tx := t; tx_hash := h |}; {| tx := t; tx_hash := h |} ].
Proof.
  intros Hcap Hh. set (x := {| tx := t; tx_hash := h |}).
  assert (reachable {| pool := inserted x txpool_new; inserting := []; removing := [] |}) as Hr.
  { apply reachable_inserted; try done. apply reachable_new. }
  eapply reachable_step in Hr; [|apply (step_remove_queue {[h]})].
  eapply reachable_step in Hr; [|apply (step_remove_map {[h]} _ _ [] [])].
  apply reachable_buffer in Hr. apply (reachable_inserted t h) in Hr; [|done|..].
  - apply reachable_buffer in Hr. eexists. split; [exact Hr|]. done.
  - simpl. rewrite map_filter_insert_False by (simpl; set_solver).
    rewrite delete_empty, map_filter_empty, map_size_empty. done.
  - simpl. apply map_lookup_filter_None. right. intros y _. simpl. set_solver.
  - done.
  - done.
Qed.
End TxPool.

(** ** The theorems at a concrete input *)
Section Sample.
(** The hash of a transaction is the name of its module. *)
#[local] Instance sample_support : TxPoolSupport := {|
  support_hash_transaction t := Ok (b (module (call t)));
  hash_display _ := "hash";
|}.
Definition sample_tx (m : string) : Transaction :=
  {| witness := None; call := {| module := m; method := "f"; params := [] |} |}.

Lemma insert_outcome_witness :
  insert 1 (λ _ _ _, Ok tt) (sample_tx "a") txpool_new =
  (Ok tt, inserted {| tx := sample_tx "a"; tx_hash := b "a" |} txpool_new).
Proof.
  etrans; [apply (insert_outcome 1 (λ _ _ _, Ok tt) (sample_tx "a") txpool_new); reflexivity|].
  vm_compute. reflexivity.
Defined.

(** An insertion that has bound its hash and not yet sent the transaction. *)
Definition binding_system : System :=
  {| pool := with_map {[ b "a" := {| tx := sample_tx "a"; tx_hash := b "a" |} ]} txpool_new;
     inserting := [(sample_tx "a", SendBuffer (b "a"))]; removing := [] |}.

Lemma careful_next t ph ph' p p' :
  careful 1 {| pool := p; inserting := [(t, ph)]; removing := [] |} →
  access 1 (Ok tt) t ph p = (Ok (Some ph'), p') →
  careful 1 {| pool := p'; inserting := [(t, ph')]; removing := [] |}.
Proof.
  intros Hc Ha. eapply careful_step; [exact Hc|by apply (step_insert_next 1 (Ok tt) t ph ph' p p' [] [])|].
  by intros hs ?%not_elem_of_nil.
Qed.

Lemma binding_careful : careful 1 binding_system.
Proof.
  apply (careful_next _ (MapInsert (b "a")) _ txpool_new); [|vm_compute; reflexivity].
  apply (careful_next _ (Validate (b "a")) _ txpool_new); [|vm_compute; reflexivity].
  apply (careful_next _ (CheckPoolExist (b "a")) _ txpool_new); [|vm_compute; reflexivity].
  apply (careful_next _ CheckCapacity _ txpool_new); [|vm_compute; reflexivity].
  eapply careful_step; [apply careful_new|apply step_insert_start|].
  by intros hs ?%not_elem_of_nil.
Qed.

Lemma careful_pool_exact_witness :
  NoDup (tx_hash <$> live binding_system) ∧ tx_hash <$> live binding_system = [b "a"].
Proof.
  split; [|reflexivity]. apply (careful_pool_exact 1 binding_system). exact binding_careful.
Defined.

Lemma capacity_bound_witness :
  size (map (pool {| pool := txpool_new; inserting := [(sample_tx "a", CheckCapacity)];
                     removing := [] |})) ≤ 1 + 1 - 1.
Proof.
  apply (capacity_bound 1 1). eapply crowded_step; [apply crowded_new|apply step_insert_start|].
  simpl. lia.
Defined.

Lemma removal_race_duplicates_witness :
  ∃ s, reachable 1 s ∧
    queue (pool s) = [ {| tx := sample_tx "a"; tx_hash := b "a" |};
                       {| tx := sample_tx "a"; tx_hash := b "a" |} ].
Proof.
  destruct (removal_race_duplicates 1 (sample_tx "a") (b "a")) as (s & Hs & _ & _ & _ & Hq).
  - lia.
  - reflexivity.
  - exists s. split; [exact Hs|exact Hq].
Defined.
End Sample.
