(* ===== verification/ConsensusSupport.v ===== *)
(** * ConsensusSupport

    [trait ConsensusSupport] of [core/node/consensus/base/src/support.rs]: what
    the consensus engines use of the chain and of the transaction pool.  The
    state behind it is the type [World]; the data of the consensus engine, which
    the chain stores on disk, is kept by the engines' own storage. *)
From S2P Require Import Prelude Codec Types SystemModule.

(** [struct CurrentState] of [core/node/chain/src/backend.rs], the part the
    engines read. *)
Record CurrentState := {
  system_meta : SystemModule.Meta;
  confirmed_number : BlockNumber;
  confirmed_block_hash : Hash;
  executed_number : BlockNumber;
  genesis_hash : Hash;
}.

(** [enum ErrorKind] of the consensus base, as a common error. *)
Definition consensus_error (e : ConsensusErrorKind) : CommonError := EConsensus e.

Class ConsensusSupport : Type := {
  World : Type;
  MetaTransaction : Type;
  get_current_state : World → CurrentState;
  get_header : World → Hash → CommonResult (option Header);
  get_proof : World → Hash → CommonResult (option Proof);
  support_validate_transaction : World → Hash → Transaction → bool → CommonResult unit;
  hash_transaction : Transaction → CommonResult Hash;
  execute_call_with_block_number : ∀ {P R}, Codec P → Codec R → World → BlockNumber →
    option Address → string → string → P → CommonResult (result string R);
  (** The argument is the timestamp of the [ScheduleInfo]. *)
  prepare_block : Z → M World CommonError BuildBlockParams;
  build_block : World → BuildBlockParams → CommonResult (CommitBlockParams MetaTransaction);
  commit_block : CommitBlockParams MetaTransaction → M World CommonError unit;
  txpool_remove_transactions : gset Hash → M World CommonError unit;
  (** [get_basic()?.dsa] and [get_basic()?.address] *)
  support_address : PublicKey → Address;
  support_sign : SecretKey → bytes → CommonResult (PublicKey * Signature);
  support_verify : PublicKey → bytes → Signature → CommonResult bool;
  (** The text of an error message. *)
  debug_hash : Hash → string;
  display_error : CommonError → string;
}.

Abbreviation ChainCommitBlockParams := (CommitBlockParams MetaTransaction).

(** ** A concrete chain

    A small concrete chain behind [ConsensusSupport], where the theorems about
    the consensus engines are applied to concrete inputs: blocks are committed
    as they come, a block's hash is made of its number and timestamp, every
    transaction is valid, and a call answers with a stored value. *)
#[local] Existing Instance FrameScale.scale.

Record SampleWorld := {
  sw_state : CurrentState;
  sw_headers : list (Hash * Header);
  sw_proofs : list (Hash * Proof);
  sw_answers : list (string * bytes);
  sw_pool : list FullTransaction;
}.

Definition find_key {K V} `{EqDecision K} (k : K) (l : list (K * V)) : option V :=
  snd <$> head (filter (λ kv, kv.1 = k) l).

Definition sample_meta : SystemModule.Meta :=
  SystemModule.Build_Meta "sample" 0 20 8 SystemModule.CONSENSUS_RAFT.

Definition sample_hash (number timestamp : Z) : Hash :=
  encode (sc_pair sc_u64 sc_u64) (number, timestamp).

Definition sample_header (number timestamp : Z) (gap : ExecutionGap) (parent : Hash) : Header :=
  Build_Header number timestamp parent [] [] [] [] gap [] [].

Definition sample_build (w : SampleWorld) (p : BuildBlockParams) : CommitBlockParams unit := {|
  cb_block_hash := sample_hash (bb_number p) (bb_timestamp p);
  cb_header := sample_header (bb_number p) (bb_timestamp p)
                 (i8 (bb_number p - bb_execution_number p))
                 (confirmed_block_hash (sw_state w));
  cb_body := Build_Body (tx_hash <$> bb_meta_txs p) (tx_hash <$> bb_payload_txs p);
  cb_meta_txs := bb_meta_txs p;
  cb_meta_receipts := [];
  cb_payload_txs := bb_payload_txs p;
  cb_meta_transaction := tt;
  cb_proof := default_proof;
|}.

Definition sample_commit (p : CommitBlockParams unit) : M SampleWorld CommonError unit := λ w,
  if decide (hdr_number (cb_header p) = confirmed_number (sw_state w) + 1)%Z then
    (Ok tt, {|
      sw_state := Build_CurrentState (system_meta (sw_state w)) (hdr_number (cb_header p))
                    (cb_block_hash p) (hdr_number (cb_header p)) (genesis_hash (sw_state w));
      sw_headers := (cb_block_hash p, cb_header p) :: sw_headers w;
      sw_proofs := (cb_block_hash p, cb_proof p) :: sw_proofs w;
      sw_answers := sw_answers w;
      sw_pool := sw_pool w;
    |})
  else (Err (EChain (ChainCommitBlockError CbNotBest)), w).

Definition sample_remove (hs : gset Hash) : M SampleWorld CommonError unit :=
  modify (λ w, Build_SampleWorld (sw_state w) (sw_headers w) (sw_proofs w) (sw_answers w)
                 (filter (λ t, tx_hash t ∉ hs) (sw_pool w))).

Definition sample_support : ConsensusSupport := {|
  World := SampleWorld;
  MetaTransaction := unit;
  get_current_state := sw_state;
  get_header w h := Ok (find_key h (sw_headers w));
  get_proof w h := Ok (find_key h (sw_proofs w));
  support_validate_transaction w _ _ _ := Ok tt;
  hash_transaction t := Ok (params (call t));
  execute_call_with_block_number P R _ CR w _ _ _ method _ :=
    Ok match find_key method (sw_answers w) with
       | Some bs => match decode CR bs with Some r => Ok r | None => Err "decode" end
       | None => Err "no such method"
       end;
  prepare_block ts := asks (λ w,
    Build_BuildBlockParams (confirmed_number (sw_state w) + 1) ts [] (sw_pool w)
      (executed_number (sw_state w)));
  build_block w p := Ok (sample_build w p);
  commit_block := sample_commit;
  txpool_remove_transactions := sample_remove;
  support_address k := k;
  support_sign sk _ := Ok (sk, []);
  support_verify _ _ _ := Ok true;
  debug_hash _ := "";
  display_error _ := "";
|}.

(** The chain after its genesis block. *)
Definition sample_genesis (answers : list (string * bytes)) : SampleWorld := {|
  sw_state := Build_CurrentState sample_meta 0 (sample_hash 0 0) 0 (sample_hash 0 0);
  sw_headers := [(sample_hash 0 0, sample_header 0 0 0 [])];
  sw_proofs := [];
  sw_answers := answers;
  sw_pool := [];
|}.
