(* ===== verification/BlockVerifier.v ===== *)
(** * BlockVerifier

    [verifier.rs] of [core/node/consensus/raft/src] and of
    [core/node/consensus/hotstuff/src]: what a validator requires of a
    proposed block before it accepts it. *)
From S2P Require Import Prelude Codec Types SystemModule ConsensusSupport.

Section Verifier.
Context {CS : ConsensusSupport}.
(** The engine's error of a refused proposal. *)
Variable verify_error : VerifyError → CommonError.

Definition verify_not_repeat (w : World) (block_hash : Hash) : CommonResult unit :=
  let? header := get_header w block_hash in
  match header with
  | Some _ => Err (verify_error Duplicated)
  | None => Ok tt
  end.

Definition verify_best (w : World) (number : BlockNumber) :
    CommonResult (BlockNumber * Hash * Header) :=
  let? confirmed :=
    let current_state := get_current_state w in
    let confirmed_number := confirmed_number current_state in
    let block_hash := confirmed_block_hash current_state in
    let? header := get_header w block_hash in
    let? header := ok_or (consensus_error (ConsensusData
                     ("Missing header: block_hash: " +:+ debug_hash block_hash))) header in
    Ok (confirmed_number, block_hash, header) in
  if decide (number ≠ u64 (confirmed.1.1 + 1)) then Err (verify_error NotBest)
  else Ok confirmed.

Definition verify_execution (w : World) (number execution_number : BlockNumber)
    (confirmed_header : Header) : CommonResult unit :=
  let current_state := get_current_state w in
  let payload_execution_gap := i8 (u64 (number - execution_number)) in
  if decide (payload_execution_gap < 1)%Z then Err (verify_error InvalidExecutionGap)
  else if decide (payload_execution_gap
                  > SystemModule.meta_max_execution_gap (system_meta current_state))%Z
  then Err (verify_error InvalidExecutionGap)
  else
    let confirmed_execution_number :=
      u64 (hdr_number confirmed_header - u64 (Types.payload_execution_gap confirmed_header)) in
    if decide (execution_number < confirmed_execution_number)%Z
    then Err (verify_error InvalidExecutionGap)
    else if decide (execution_number > executed_number current_state)%Z
    then Err (verify_error ShouldWait)
    else Ok tt.

(** Returns the set with the hash inserted. *)
Definition verify_transaction (w : World) (tx_hash : Hash) (tx : Transaction) (set : gset Hash) :
    CommonResult (gset Hash) :=
  if decide (tx_hash ∈ set) then
    Err (verify_error (VDuplicatedTx ("Duplicated tx: " +:+ debug_hash tx_hash)))
  else
    let? _ := or_else_catch as_chain
                (λ e, match e with
                      | ChainValidateTxError e => Some (Err (verify_error (VInvalidTx e)))
                      | _ => None
                      end)
                (support_validate_transaction w tx_hash tx true) in
    Ok ({[tx_hash]} ∪ set).

Fixpoint get_verified_txs (w : World) (txs : list Transaction) (set : gset Hash) :
    CommonResult (list FullTransaction) :=
  match txs with
  | [] => Ok []
  | tx :: txs =>
      let? tx_hash := hash_transaction tx in
      let? set := verify_transaction w tx_hash tx set in
      let? result := get_verified_txs w txs set in
      Ok (Build_FullTransaction tx tx_hash :: result)
  end.

Definition verify_body (w : World) (meta_txs payload_txs : list Transaction) :
    CommonResult (list FullTransaction * list FullTransaction) :=
  let? meta_txs := get_verified_txs w meta_txs ∅ in
  let? payload_txs := get_verified_txs w payload_txs ∅ in
  Ok (meta_txs, payload_txs).

Definition verify_header (w : World) (block_hash : Hash) (number : BlockNumber) (timestamp : Z)
    (execution_number : BlockNumber) (meta_txs payload_txs : list FullTransaction) :
    CommonResult ChainCommitBlockParams :=
  let? commit_block_params :=
    build_block w (Build_BuildBlockParams number timestamp meta_txs payload_txs
                     execution_number) in
  if decide (cb_block_hash commit_block_params ≠ block_hash) then
    Err (verify_error (InvalidHeader ("Invalid block_hash: " +:+ debug_hash block_hash
           +:+ ", expected: " +:+ debug_hash (cb_block_hash commit_block_params))))
  else Ok commit_block_params.

(** ** What the checks establish *)

Lemma verify_not_repeat_ok w h : verify_not_repeat w h = Ok tt → get_header w h = Ok None.
Proof. unfold verify_not_repeat. destruct (get_header w h) as [[]|]; naive_solver. Qed.

Lemma verify_best_ok w number n h header : verify_best w number = Ok (n, h, header) →
  n = confirmed_number (get_current_state w) ∧
  h = confirmed_block_hash (get_current_state w) ∧
  get_header w h = Ok (Some header) ∧ number = u64 (n + 1).
Proof.
  unfold verify_best. destruct (get_header _ _) as [[header'|]|] eqn:E; simpl; try done.
  case_decide as Hn; [done|]. intros [= <- <- <-]. done.
Qed.

Lemma verify_header_ok w h number timestamp execution_number meta payload cbp :
  verify_header w h number timestamp execution_number meta payload = Ok cbp →
  cb_block_hash cbp = h ∧
  build_block w (Build_BuildBlockParams number timestamp meta payload execution_number) = Ok cbp.
Proof.
  unfold verify_header. destruct (build_block _ _) as [cbp'|] eqn:E; simpl; [|done].
  case_decide as Hh; [done|]. intros [= <-]. done.
Qed.

(** Every transaction of the list is valid, and no hash is repeated. *)
Definition valid_txs (w : World) (txs : list Transaction) (full : list FullTransaction) : Prop :=
  (tx <$> full) = txs ∧ NoDup (tx_hash <$> full) ∧
  Forall (λ f, hash_transaction (tx f) = Ok (tx_hash f) ∧
               support_validate_transaction w (tx_hash f) (tx f) true = Ok tt) full.

Lemma verify_transaction_ok w h t set set' : verify_transaction w h t set = Ok set' →
  (h ∉ set) ∧ set' = ({[h]} ∪ set) ∧ support_validate_transaction w h t true = Ok tt.
Proof.
  unfold verify_transaction. case_decide; [done|].
  destruct (support_validate_transaction w h t true) as [[]|e]; simpl; [by intros [= <-]|].
  by destruct e as [| |[]| | | | | | | |].
Qed.

Lemma get_verified_txs_ok w txs set full : get_verified_txs w txs set = Ok full →
  valid_txs w txs full ∧ ∀ f, f ∈ full → tx_hash f ∉ set.
Proof.
  revert set full. induction txs as [|t txs IH]; intros set full; simpl.
  { intros [= <-]. split; [split_and!; constructor|]. by intros f ?%not_elem_of_nil. }
  destruct (hash_transaction t) as [h|] eqn:Eh; simpl; [|done].
  destruct (verify_transaction w h t set) as [set'|] eqn:Et; simpl; [|done].
  apply verify_transaction_ok in Et as (Hn & -> & Hv).
  destruct (get_verified_txs w txs _) as [l|] eqn:El; simpl; intros [= <-].
  apply IH in El as [(Hl & Hnd & Hall) Hset]. split.
  - split_and!; [rewrite fmap_cons; by f_equal| |by constructor].
    rewrite fmap_cons. constructor; [|done].
    intros (f & Hf & Hin)%list_elem_of_fmap. apply (Hset f Hin). rewrite <-Hf.
    apply elem_of_union_l. by apply elem_of_singleton.
  - intros f [->|Hin]%elem_of_cons; [done|]. specialize (Hset f Hin).
    by apply not_elem_of_union in Hset as [_ Hset].
Qed.

(** The truncation of the gap to eight bits is harmless next to the other
    checks: between the execution number of the confirmed block and the
    executed number the gap of the next block has less than eight bits. *)
Lemma verify_execution_ok w number execution_number header :
  let state := get_current_state w in
  verify_execution w number execution_number header = Ok tt →
  hdr_number header = confirmed_number state →
  number = (confirmed_number state + 1)%Z → is_u64 number → is_u64 execution_number →
  (0 ≤ Types.payload_execution_gap header < 2 ^ 7)%Z →
  (Types.payload_execution_gap header ≤ hdr_number header)%Z →
  (executed_number state ≤ confirmed_number state)%Z →
  (1 ≤ number - execution_number ≤ SystemModule.meta_max_execution_gap (system_meta state))%Z ∧
  (hdr_number header - Types.payload_execution_gap header ≤ execution_number)%Z ∧
  (execution_number ≤ executed_number state)%Z.
Proof.
  intros state. unfold verify_execution. fold state. unfold is_u64.
  intros Hv Hh Hn Hu Hue Hgap Hle Hex. revert Hv. do 4 (case_decide; [done|]). intros _.
  rewrite (u64_id (Types.payload_execution_gap header)), u64_id in * by (unfold is_u64; lia).
  assert (number - execution_number ≤ 2 ^ 7)%Z as H27 by lia.
  assert (number - execution_number ≠ 2 ^ 7)%Z.
  { intros Heq. rewrite Heq in *. change (i8 (2 ^ 7)) with (- 2 ^ 7)%Z in *. lia. }
  rewrite i8_id in * by (unfold is_i8; lia). lia.
Qed.
End Verifier.
