(* ===== verification/Engine.v ===== *)
(** * Engine

    What the tasks of the consensus engines share: instants, peers, the
    messages that reach a task ([core/node/consensus/base/src/lib.rs]), and the
    two ways a handler stops, an error that its loop logs and a panic that
    ends the task. *)
From S2P Require Import Prelude Codec Types ConsensusSupport.

(** [tokio::time::Instant], in milliseconds. *)
Abbreviation Instant := Z.
Abbreviation PeerId := bytes.

Record PeerInfo := {
  local_nonce : Z;
  remote_nonce : Z;
  pi_address : option Address;
}.

(** [enum ConsensusInMessage] of [core/node/consensus/base] *)
Inductive ConsensusInMessage :=
| NetworkProtocolOpen (peer_id : PeerId) (local_nonce remote_nonce : Z)
| NetworkProtocolClose (peer_id : PeerId)
| NetworkMessage (peer_id : PeerId) (message : bytes)
| BlockCommitted (number : BlockNumber) (block_hash : Hash)
| InGenerate
| GetConsensusState
| SyncLatencyUpdated (latency : BlockNumber).

(** What stops a handler. *)
Inductive Failure :=
| Fail (e : CommonError)
| Panic.

(** [u64::checked_add(1).unwrap_or(0)] *)
Definition next_id (request_id : Z) : Z :=
  if decide (request_id + 1 < 2 ^ 64)%Z then (request_id + 1)%Z else 0%Z.

(** ** Calls of a task with the state [S] *)
Section Calls.
Context {S : Type}.

Definition panic {A} : M S Failure A := throw Panic.
Definition try {A} (r : CommonResult A) : M S Failure A := lift (map_err Fail r).

(** The result of a call as a value; a panic is not caught. *)
Definition attempt {A} (m : M S Failure A) : M S Failure (CommonResult A) := λ s,
  match m s with
  | (Ok a, s') => (Ok (Ok a), s')
  | (Err (Fail e), s') => (Ok (Err e), s')
  | (Err Panic, s') => (Err Panic, s')
  end.

(** [.unwrap_or_else(|e| warn!(..))] *)
Definition or_warn (m : M S Failure unit) : M S Failure unit := do! attempt m in ret tt.

(** The outcome of a call that may panic, as [None]. *)
Definition try_panic {A} (r : option (CommonResult A)) : M S Failure A :=
  match r with
  | Some r => try r
  | None => panic
  end.

(** [thread_rng().gen_range(low, high)] over the numbers that will be drawn:
    an empty range panics. *)
Definition draw (low high : Z) (draws : list Z) : option (Z * list Z) :=
  if decide (low < high)%Z then
    match draws with
    | x :: rest => Some ((low + x mod (high - low))%Z, rest)
    | [] => Some (low, [])
    end
  else None.
End Calls.

(** The order in which a [HashMap] is iterated over is not specified: it is
    an argument of what depends on it. *)
Class HashOrder : Type := {
  hash_iter : ∀ {V}, gmap bytes V → list (bytes * V);
  hash_iter_perm : ∀ {V} (m : gmap bytes V), hash_iter m ≡ₚ map_to_list m;
}.

(** An order, for concrete inputs. *)
Definition key_order : HashOrder := {|
  hash_iter V m := map_to_list m;
  hash_iter_perm V m := reflexivity _;
|}.

Lemma elem_of_hash_iter `{HashOrder} {V} (m : gmap bytes V) k v :
  (k, v) ∈ hash_iter m ↔ m !! k = Some v.
Proof. by rewrite hash_iter_perm, elem_of_map_to_list. Qed.

Lemma hash_iter_keys `{HashOrder} {V} (m : gmap bytes V) : NoDup (hash_iter m).*1.
Proof. rewrite hash_iter_perm. apply NoDup_fst_map_to_list. Qed.

(** ** Blocks *)
Section Blocks.
Context {CS : ConsensusSupport}.

(** The transactions of a proposal with their hashes. *)
Fixpoint convert_txs (txs : list Transaction) : CommonResult (list FullTransaction) :=
  match txs with
  | [] => Ok []
  | t :: txs =>
      let? h := hash_transaction t in
      let? rest := convert_txs txs in
      Ok (Build_FullTransaction t h :: rest)
  end.

Definition with_proof (pf : Proof) (cbp : ChainCommitBlockParams) : ChainCommitBlockParams :=
  {| cb_block_hash := cb_block_hash cbp; cb_header := cb_header cbp; cb_body := cb_body cbp;
     cb_meta_txs := cb_meta_txs cbp; cb_meta_receipts := cb_meta_receipts cbp;
     cb_payload_txs := cb_payload_txs cbp; cb_meta_transaction := cb_meta_transaction cbp;
     cb_proof := pf |}.
End Blocks.

(** ** What a call leaves alone

    Calls that leave a part of the state as it is: [Frames V m] says that the
    call [m] does not change the view [V] of the state, whether it succeeds,
    fails or panics.  The instances follow the structure of a call, so that a
    handler's frame is found by unfolding it. *)
Section Frames.
Context {S E X : Type}.

Class Frames (V : S → X) {A} (m : M S E A) : Prop :=
  frames : ∀ s, V (m s).2 = V s.

Variable V : S → X.

#[global] Instance frames_ret {A} (a : A) : Frames V (ret a).
Proof. by intros s. Qed.
#[global] Instance frames_throw {A} (e : E) : Frames V (throw (A := A) e).
Proof. by intros s. Qed.
#[global] Instance frames_lift {A} (r : result E A) : Frames V (lift r).
Proof. by intros s. Qed.
#[global] Instance frames_asks {A} (f : S → A) : Frames V (asks f).
Proof. by intros s. Qed.
#[global] Instance frames_bind {A B} (m : M S E A) (k : A → M S E B) :
  Frames V m → (∀ a, Frames V (k a)) → Frames V (bind m k).
Proof.
  intros Hm Hk s. unfold bind. specialize (Hm s). destruct (m s) as [[a|e] s']; simpl in *; [|done].
  by rewrite (Hk a s').
Qed.
#[global] Instance frames_for_each {A} (f : A → M S E unit) l :
  (∀ x, Frames V (f x)) → Frames V (for_each f l).
Proof.
  intros Hf. induction l as [|x l IH]; [apply frames_ret|].
  apply frames_bind; [apply Hf|intros _; exact IH].
Qed.
Lemma frames_modify f : (∀ s, V (f s) = V s) → Frames V (modify f).
Proof. intros Hf s. apply Hf. Qed.

(** A view that is a function of another one. *)
Lemma frames_weaken {Y} (V' : S → Y) (f : X → Y) {A} (m : M S E A) :
  (∀ s, V' s = f (V s)) → Frames V m → ∀ s, V' (m s).2 = V' s.
Proof. intros Hf Hm s. by rewrite !Hf, (Hm s). Qed.
End Frames.

Section Calls.
Context {S X : Type} (V : S → X).

#[global] Instance frames_panic {A} : Frames V (panic (A := A)).
Proof. by intros s. Qed.
#[global] Instance frames_try {A} (r : CommonResult A) : Frames V (try r).
Proof. by intros s. Qed.
#[global] Instance frames_try_panic {A} (r : option (CommonResult A)) : Frames V (try_panic r).
Proof. destruct r; simpl; apply _. Qed.
#[global] Instance frames_attempt {A} (m : M S Failure A) : Frames V m → Frames V (attempt m).
Proof. intros Hm s. specialize (Hm s). unfold attempt. by destruct (m s) as [[a|[]] s']. Qed.
#[global] Instance frames_or_warn (m : M S Failure unit) : Frames V m → Frames V (or_warn m).
Proof. intros Hm. unfold or_warn. apply _. Qed.
End Calls.

(** Calls that keep a property of the state, whatever their outcome. *)
Section Keeps.
Context {S E : Type}.

Class Keeps (P : S → Prop) {A} (m : M S E A) : Prop :=
  keeps : ∀ s, P s → P (m s).2.

Variable P : S → Prop.

#[global] Instance keeps_ret {A} (a : A) : Keeps P (ret a).
Proof. by intros s. Qed.
#[global] Instance keeps_throw {A} (e : E) : Keeps P (throw (A := A) e).
Proof. by intros s. Qed.
#[global] Instance keeps_lift {A} (r : result E A) : Keeps P (lift r).
Proof. by intros s. Qed.
#[global] Instance keeps_asks {A} (f : S → A) : Keeps P (asks f).
Proof. by intros s. Qed.
#[global] Instance keeps_bind {A B} (m : M S E A) (k : A → M S E B) :
  Keeps P m → (∀ a, Keeps P (k a)) → Keeps P (bind m k).
Proof.
  intros Hm Hk s Hs. unfold bind. specialize (Hm s Hs). destruct (m s) as [[a|e] s']; simpl in *.
  - by apply Hk.
  - done.
Qed.
#[global] Instance keeps_for_each {A} (f : A → M S E unit) l :
  (∀ x, Keeps P (f x)) → Keeps P (for_each f l).
Proof.
  intros Hf. induction l as [|x l IH]; [apply keeps_ret|].
  apply keeps_bind; [apply Hf|intros _; exact IH].
Qed.
Lemma keeps_modify f : (∀ s, P s → P (f s)) → Keeps P (modify f).
Proof. intros Hf s. apply Hf. Qed.

(** What is read of the state is known afterwards. *)
Lemma keeps_read {A B} (f : S → A) (k : A → M S E B) :
  (∀ s, P s → P (k (f s) s).2) → Keeps P (bind (asks f) k).
Proof. intros Hk s. apply Hk. Qed.

Lemma keeps_state {A B} (m : M S E A) (k : A → M S E B) s :
  P s → Keeps P m → (∀ a s', m s = (Ok a, s') → P s' → P (k a s').2) → P (bind m k s).2.
Proof.
  intros Hs Hm Hk. unfold bind. specialize (Hm s Hs). destruct (m s) as [[a|e] s'] eqn:E'; [|done].
  by apply Hk.
Qed.
End Keeps.

(** Follow the structure of a call; a modification keeps the view by
    computation, on each outcome of its conditions. *)
Ltac solve_modify := apply frames_modify; intros; try reflexivity;
  repeat case_decide; repeat case_match; reflexivity.
Ltac solve_frames :=
  intros;
  repeat first
    [ progress cbv beta zeta
    | match goal with
      | |- Frames _ (bind _ _) => apply frames_bind; intros
      | |- Frames _ (for_each _ _) => apply frames_for_each; intros
      | |- Frames _ (match ?x with _ => _ end) => destruct x
      end
    | apply _
    | solve_modify ].
