(* ===== verification/ContractConfined.v ===== *)
(** * ContractConfined

    What the code of a contract can reach, whatever it is: the invariants of
    the calls of a contract, by induction on its calls and on the nesting, and
    the keys that an execution writes; with it, the registration of a contract
    and the vote on its code. *)
From S2P Require Import Prelude Codec Types Context Voting Dispatch Balance Executor Engine Vm ContractVm ContractModule.
Import Vm ContractVm.

(** ** Calls that keep a property and whose result has another one *)
Section Yields.
Context {S E : Type}.

Class Yields (P : S → Prop) {A} (Q : A → Prop) (m : M S E A) : Prop :=
  yields : ∀ s, P s → P (m s).2 ∧ ∀ a, (m s).1 = Ok a → Q a.

Lemma yields_bind (P : S → Prop) {A B} (Q : A → Prop) (m : M S E A) (k : A → M S E B) :
  Yields P Q m → (∀ a, Q a → Keeps P (k a)) → Keeps P (bind m k).
Proof.
  intros Hm Hk s Hs. destruct (Hm s Hs) as [Hs' Hq]. unfold bind.
  destruct (m s) as [[a|e] s']; simpl in *; [|done]. apply Hk; [by apply Hq|done].
Qed.
Lemma yields_keeps (P : S → Prop) {A} (Q : A → Prop) (m : M S E A) : Yields P Q m → Keeps P m.
Proof. intros Hm s Hs. by apply Hm. Qed.
Lemma keeps_if (P : S → Prop) {A} (x : bool) (m n : M S E A) :
  Keeps P m → Keeps P n → Keeps P (if x then m else n).
Proof. by destruct x. Qed.
End Yields.

(** ** Programs *)

(** All the calls of a program are among [F]. *)
Inductive calls_only (F : Import → Prop) : Prog → Prop :=
| only_return : calls_only F PReturn
| only_trap e : calls_only F (PTrap e)
| only_call f mem k : F f → (∀ v mem, calls_only F (k v mem)) → calls_only F (PCall f mem k).

Lemma calls_anything p : calls_only (λ _, True) p.
Proof. induction p; by constructor. Qed.

(** A property of the context of a machine, and one of the machine that adds
    nothing but what no import changes. *)
Class MachineInv {X} (P : X → Prop) (Q : State X → Prop) : Prop := {
  machine_context s : Q s → P (context s);
  machine_with_context s x : Q s → P x → Q (with_context x s);
  machine_memory s x : Q s → Q (with_memory x s);
  machine_shares s x : Q s → Q (with_shares x s);
  machine_result s x : Q s → Q (with_result x s);
}.

(** The context of a machine has the property. *)
Definition within {X} (P : X → Prop) (s : State X) : Prop := P (context s).
#[export] Instance within_inv {X} (P : X → Prop) : MachineInv P (within P).
Proof. by split. Qed.

Section Programs.
Context {WL : WasmLib} {X : Type} (VC : VMContext X).
Variables (P : X → Prop) (Q : State X → Prop).
Context {HQ : MachineInv P Q}.

Lemma call_keeps (F : Import → Prop) p s :
  (∀ f, F f → Keeps Q (import f)) → calls_only F p → Q s → Q (call p s).2.
Proof.
  intros Hf Hp. revert s. induction Hp as [| |f mem k Hfk _ IH]; intros s Hs; simpl; [done..|].
  pose proof (Hf f Hfk (with_memory mem s) (machine_memory _ _ Hs)) as Hi.
  destruct (import f (with_memory mem s)) as [[v|[e|]] s']; simpl in *; [|done..].
  by apply IH.
Qed.

Lemma run_keeps (F : Import → Prop) config code func method params pay_value x :
  (∀ x, P x → Q (Build_State config [] ∅ x method params pay_value None)) →
  (∀ f, F f → Keeps Q (import f)) → Keeps P (provide_code code) →
  (∀ m, (compile config code x).1 = Ok m → calls_only F (instance_call m func)) →
  P x → P (run config code func method params pay_value x).2.
Proof.
  intros Hnew Hf Hc Hm Hx. unfold run, bind.
  assert (P (compile config code x).2) as Hx'.
  { unfold compile. destruct (module_cache _); [done|]. apply keeps_bind; [done| |done].
    intros. apply keeps_lift. }
  destruct (compile config code x) as [[m|e] x'] eqn:Hcc; [|done]. simpl in Hx'.
  unfold lift. destruct (map_err _ (memory_new _)) as [[]|e]; [|done].
  match goal with |- context [call ?p ?s] => set (s0 := s); pose proof (call_keeps F p s0 Hf) as Hk end.
  assert (Q (call (instance_call m func) s0).2) as Hs.
  { apply Hk; [by apply Hm|by apply Hnew]. }
  apply machine_context in Hs. by destruct (call (instance_call m func) s0) as [[] ?].
Qed.
End Programs.

(** ** Invariants of a context *)

(** A property that every call of a context keeps, where the writes that are
    taken from a buffer are those that may be applied. *)
Class VmInvariant {X} (VC : VMContext X) (P : X → Prop) (OK : Updates → Prop) : Prop := {
  inv_payload_get key : Keeps P (vm_payload_get key);
  inv_payload_set key value : Keeps P (vm_payload_set key value);
  inv_emit_event event : Keeps P (vm_emit_event event);
  inv_balance_get address : Keeps P (module_balance_get address);
  inv_balance_transfer sender recipient value : Keeps P (module_balance_transfer sender recipient value);
  inv_module_drain : Yields P OK module_payload_drain_buffer;
  inv_module_apply items : OK items → Keeps P (module_payload_apply items);
  inv_module_events : Keeps P module_drain_events;
  inv_module_apply_events items : Keeps P (module_apply_events items);
  inv_nested_execute address method params pay_value :
    Keeps P (nested_vm_contract_execute address method params pay_value);
  inv_nested_drain : Yields P OK nested_vm_payload_drain_buffer;
  inv_nested_apply items : OK items → Keeps P (nested_vm_payload_apply items);
  inv_nested_events : Keeps P nested_vm_drain_events;
  inv_nested_apply_events items : Keeps P (nested_vm_apply_events items);
}.

Section Imports.
Context {WL : WasmLib} {X : Type} (VC : VMContext X) (P : X → Prop) (Q : State X → Prop).
Context {HQ : MachineInv P Q}.

Lemma keeps_context {A} (m : M X VMError A) : Keeps P m → Keeps Q (on_context m).
Proof.
  intros Hm s Hs. unfold on_context. specialize (Hm _ (machine_context _ Hs)).
  destruct (m (context s)). by apply machine_with_context.
Qed.
Lemma yields_context {A} (R : A → Prop) (m : M X VMError A) : Yields P R m → Yields Q R (on_context m).
Proof.
  intros Hm s Hs. unfold on_context. destruct (Hm _ (machine_context _ Hs)) as [H1 H2].
  destruct (m (context s)) as [[a|e] x]; simpl in *; (split; [by apply machine_with_context|]); [|done].
  intros ? [= <-]. by apply H2.
Qed.
Lemma keeps_catch {A} (m : H X A) : Keeps Q m → Keeps Q (catch m).
Proof. intros Hm s Hs. specialize (Hm s Hs). unfold catch. by destruct (m s) as [[a|[]] s']. Qed.
Lemma keeps_memory_to_vec len ptr : Keeps Q (memory_to_vec len ptr).
Proof. intros s Hs. unfold memory_to_vec. by case_decide. Qed.
Lemma keeps_vec_to_memory ptr data : Keeps Q (vec_to_memory ptr data).
Proof. intros s Hs. unfold vec_to_memory. case_decide; [by apply machine_memory|done]. Qed.
Lemma keeps_decide {A} (Φ : Prop) `{Decision Φ} (m n : H X A) :
  Keeps Q m → Keeps Q n → Keeps Q (if decide Φ then m else n).
Proof. by case_decide. Qed.
Lemma keeps_shares f : Keeps (E := HostError) Q (modify (λ s : State X, with_shares (f s) s)).
Proof. intros s Hs. by apply machine_shares. Qed.
Lemma keeps_result x : Keeps (E := HostError) Q (modify (with_result (X := X) x)).
Proof. intros s Hs. by apply machine_result. Qed.
End Imports.

(** Follow the structure of an import. *)
Ltac step_import :=
  first
    [ done
    | progress intros
    | eapply keeps_memory_to_vec; apply _ | eapply keeps_vec_to_memory; apply _
    | eapply keeps_shares; apply _ | eapply keeps_result; apply _
    | apply keeps_ret | apply keeps_throw | apply keeps_lift | apply keeps_asks
    | match goal with
      | HI : VmInvariant _ _ _ |- Keeps _ (bind (on_context module_payload_drain_buffer) _) =>
          eapply yields_bind; [eapply yields_context; [apply _|apply inv_module_drain]|]
      | HI : VmInvariant _ _ _ |- Keeps _ (bind (on_context nested_vm_payload_drain_buffer) _) =>
          eapply yields_bind; [eapply yields_context; [apply _|apply inv_nested_drain]|]
      end
    | apply keeps_bind | apply keeps_decide | apply keeps_if | apply keeps_catch
    | eapply keeps_context; [apply _|]; first [apply inv_payload_get|apply inv_payload_set|apply inv_emit_event
        |apply inv_balance_get|apply inv_balance_transfer|by apply inv_module_apply|apply inv_module_events
        |apply inv_module_apply_events|apply inv_nested_execute|by apply inv_nested_apply|apply inv_nested_events
        |apply inv_nested_apply_events
        |eapply yields_keeps, inv_module_drain|eapply yields_keeps, inv_nested_drain]
    | match goal with |- Keeps _ (match ?x with _ => _ end) => destruct x end ].
Ltac solve_import := repeat step_import.

Section Pieces.
Context {WL : WasmLib} {X : Type} (P : X → Prop) (Q : State X → Prop).
Context {HQ : MachineInv P Q}.

Lemma vec_to_share_keeps share_id data : Keeps Q (vec_to_share (X := X) share_id data).
Proof. unfold vec_to_share, fail. solve_import. Qed.
Lemma share_to_vec_keeps share_id : Keeps Q (share_to_vec (X := X) share_id).
Proof. unfold share_to_vec, fail. solve_import. Qed.
Lemma option_to_share_keeps data share_id : Keeps Q (option_to_share (X := X) data share_id).
Proof. unfold option_to_share. solve_import. Qed.
Lemma make_error_aware_keeps {A} (r : result VMError A) id : Keeps Q (make_error_aware (X := X) r id).
Proof. unfold make_error_aware. solve_import. Qed.
End Pieces.

(** The pieces of the imports. *)
Ltac unfold_import := unfold done, share_read, share_write, result_write, error_return, abort, storage_read,
  storage_write, event_write, util_hash, util_address, util_validate_address_ea, util_validate_address,
  balance_read, balance_transfer_ea, balance_transfer, pay, contract_execute_ea, contract_execute, fail, of_result.
Ltac step_piece := first [eapply vec_to_share_keeps; apply _|eapply share_to_vec_keeps; apply _
  |eapply option_to_share_keeps; apply _|eapply make_error_aware_keeps; apply _].

Section Invariants.
Context {WL : WasmLib} {X : Type} (VC : VMContext X) (P : X → Prop) (OK : Updates → Prop).
Context {HI : VmInvariant VC P OK}.

Lemma apply_module_keeps : Keeps (within P) apply_module.
Proof. unfold apply_module. solve_import. Qed.

(** Every import keeps an invariant of the context. *)
Lemma import_keeps f : Keeps (within P) (import f).
Proof.
  destruct f; simpl; unfold_import; repeat first [step_piece|apply apply_module_keeps|step_import].
Qed.

Lemma machine_keeps config code func method params pay_value :
  Keeps P (provide_code code) → Keeps P (run config code func method params pay_value).
Proof.
  intros Hc x. apply (run_keeps _ P (within P) (λ _, True)); [done|intros; apply import_keeps|done|].
  intros. apply calls_anything.
Qed.
End Invariants.

(** The calls of [ContractVm.vm_context]. *)
Ltac vm_simpl := cbn [vm_context vm_payload_get vm_payload_set vm_emit_event module_balance_get
  module_balance_transfer module_payload_drain_buffer module_payload_apply module_drain_events module_apply_events
  nested_vm_contract_execute nested_vm_payload_drain_buffer nested_vm_payload_apply nested_vm_drain_events
  nested_vm_apply_events].

(** ** The keys that contracts write *)

(** The data of a contract, and the balances. *)
Definition data_key (h : bytes) : DBKey :=
  STORAGE_KEY ++ SEPARATOR ++ CONTRACT_DATA_STORAGE_KEY ++ SEPARATOR ++ h.
Inductive contract_key {SC : Scale} : DBKey → Prop :=
| key_of_data h : contract_key (data_key h)
| key_of_balance a : contract_key (sv_key (entry Balance.balance a)).

Definition contract_items {SC : Scale} (items : Updates) : Prop := Forall (λ kv, contract_key kv.1) items.

Section Confinement.
Context {SC : Scale} {UT : Util} {SE : Serialize Balance.Transferred} {WL : WasmLib}.
Context {C : Type} `{CL : ContextLaws C}.

(** A call that only writes such keys, in the payload state. *)
Inductive writes_contract : C → C → Prop :=
| wc_refl c : writes_contract c c
| wc_put c c' k v : writes_contract c c' → contract_key k → writes_contract c (put false k v c')
| wc_log c c' e : writes_contract c c' → writes_contract c (log e c').

Lemma writes_touches c c' : writes_contract c c' → touches c c'.
Proof. induction 1; [apply touches_refl|by apply touches_put|by apply touches_log]. Qed.
Lemma writes_read c c' m k :
  writes_contract c c' → (m = false → ¬ contract_key k) → read m k c' = read m k c.
Proof.
  intros Hw Hk. induction Hw as [|c c' k' v _ IH Hk'|c c' e _ IH]; [done| |by rewrite read_log].
  rewrite read_put_ne, IH; [done|]. intros [= -> ->]. by apply Hk.
Qed.

Variable c0 : C.

Definition sealed_level (l : Level) : Prop :=
  meta_buffer l = ∅ ∧ map_Forall (λ k _, contract_key k) (payload_buffer l).

(** The store: nothing but such keys has been written or is in a buffer. *)
Record sealed (w : World C) : Prop := {
  sealed_executor : writes_contract c0 (executor_context w);
  sealed_levels : map_Forall (λ _ l, sealed_level l) (levels w);
}.

Lemma empty_sealed : sealed_level empty_level.
Proof. split; [done|]. apply map_Forall_empty. Qed.
Lemma get_sealed i w : sealed w → sealed_level (get_level i w).
Proof.
  intros [_ Hl]. unfold get_level. destruct (levels w !! i) eqn:E; simpl; [by apply (Hl i)|apply empty_sealed].
Qed.
Lemma set_sealed i l w : sealed w → sealed_level l → sealed (set_level i l w).
Proof. intros [He Hl] Hs. split; [done|]. simpl. by apply map_Forall_insert_2. Qed.
Lemma update_sealed i f w :
  sealed w → (∀ l, sealed_level l → sealed_level (f l)) → sealed (update_level i f w).
Proof. intros Hw Hf. apply set_sealed; [done|]. by apply Hf, get_sealed. Qed.
Lemma payload_sealed m l :
  map_Forall (λ k _, contract_key k) m → sealed_level l → sealed_level (with_payload m l).
Proof. by intros Hm []. Qed.
Lemma extend_sealed items m :
  contract_items items → map_Forall (λ k (_ : option DBValue), contract_key k) m →
  map_Forall (λ k _, contract_key k) (extend items m).
Proof.
  intros Hi. revert m. induction Hi as [|[k v] items Hk _ IH]; intros m Hm; [done|].
  apply IH. by apply map_Forall_insert_2.
Qed.

(** A call of the executor's context. *)
Lemma keeps_on_executor {E A} (m : M C E A) :
  (∀ c, writes_contract c0 c → writes_contract c0 (m c).2) → Keeps sealed (on_executor m).
Proof.
  intros Hm w [He Hl]. unfold on_executor. specialize (Hm _ He).
  by destruct (m (executor_context w)).
Qed.
Lemma keeps_in_vm {A} (m : M (World C) ModuleError A) : Keeps sealed m → Keeps sealed (in_vm m).
Proof. intros Hm w Hw. unfold in_vm. specialize (Hm w Hw). by destruct (m w). Qed.
Lemma keeps_in_module {A} (m : M (World C) VMError A) : Keeps sealed m → Keeps sealed (in_module m).
Proof. intros Hm w Hw. unfold in_module. specialize (Hm w Hw). by destruct (m w). Qed.
Lemma yields_in_vm {A} (Q : A → Prop) (m : M (World C) ModuleError A) : Yields sealed Q m → Yields sealed Q (in_vm m).
Proof.
  intros Hm w Hw. unfold in_vm. destruct (Hm w Hw) as [H1 H2].
  destruct (m w) as [[a|e] w']; simpl in *; (split; [done|]); [|done]. intros ? [= <-]. by apply H2.
Qed.

Lemma yields_in_module {A} (Q : A → Prop) (m : M (World C) VMError A) :
  Yields sealed Q m → Yields sealed Q (in_module m).
Proof.
  intros Hm w Hw. unfold in_module. destruct (Hm w Hw) as [H1 H2].
  destruct (m w) as [[a|e] w']; simpl in *; (split; [done|]); [|done]. intros ? [= <-]. by apply H2.
Qed.

(** *** The calls of a stacked context *)
Section Stacked.
Variable s : Stack.

Lemma keeps_payload_get k : Keeps sealed (payload_get (Context := stacked_context s) k).
Proof.
  intros w Hw. simpl. destruct (find_level _ k s w); [done|]. apply keeps_on_executor; [|done].
  intros c. by rewrite payload_get_eq.
Qed.
Lemma keeps_payload_set k v : contract_key k → Keeps sealed (payload_set (Context := stacked_context s) k v).
Proof.
  intros Hk w Hw. simpl. apply update_sealed; [done|]. intros l Hl. apply payload_sealed; [|done].
  apply map_Forall_insert_2; [done|apply Hl].
Qed.
Lemma keeps_emit_event e : Keeps sealed (emit_event (Context := stacked_context s) e).
Proof. intros w Hw. simpl. apply update_sealed; [done|]. by intros l []. Qed.
Lemma keeps_drain_events : Keeps sealed (drain_tx_events (Context := stacked_context s)).
Proof. intros w Hw. simpl. apply update_sealed; [done|]. by intros l []. Qed.
Lemma yields_drain : Yields sealed contract_items (payload_drain_tx_buffer (Context := stacked_context s)).
Proof.
  intros w Hw. simpl. split.
  - apply update_sealed; [done|]. intros l Hl. apply payload_sealed; [apply map_Forall_empty|done].
  - intros ? [= <-]. unfold contract_items. rewrite Forall_forall. intros [k v] Hk%elem_of_map_to_list.
    by apply (proj2 (get_sealed (top s) w Hw) k v).
Qed.
Lemma keeps_apply items : contract_items items → Keeps sealed (payload_apply (Context := stacked_context s) items).
Proof.
  intros Hi w Hw. simpl. destruct (second_last s) as [i|].
  - simpl. apply update_sealed; [done|]. intros l Hl. apply payload_sealed; [|done].
    apply extend_sealed; [done|apply Hl].
  - apply for_each_inv; [|done]. intros [k v] w' Hin Hw'. apply (proj1 (Forall_forall _ _) Hi) in Hin.
    apply keeps_on_executor; [|done]. intros c Hc. rewrite payload_set_eq. apply wc_put; [done|].
    done.
Qed.
Lemma keeps_apply_events items : Keeps sealed (stacked_apply_events s items).
Proof.
  intros w Hw. unfold stacked_apply_events. destruct (second_last s) as [i|].
  - simpl. apply update_sealed; [done|]. by intros l [].
  - apply for_each_inv; [|done]. intros e w' _ Hw'.
    apply keeps_on_executor; [|done]. intros c Hc. rewrite emit_event_eq. by apply wc_log.
Qed.
End Stacked.

(** *** The calls of the context of a contract *)
Lemma keeps_reading {A} (m : M C ModuleError A) : (∀ c, (m c).2 = c) → Keeps sealed (in_vm (on_executor m)).
Proof. intros Hm. apply keeps_in_vm, keeps_on_executor. intros c. by rewrite Hm. Qed.
Lemma code_hash_reads address v c : (inner_get_code_hash address v c).2 = c.
Proof.
  unfold inner_get_code_hash, inner_get_version, bind, raw_get. destruct v as [v|]; simpl; [by rewrite sv_get_eq|].
  rewrite sm_get_eq. destruct (sv_read _ c) as [[v|]|e]; simpl; [by rewrite sv_get_eq|done..].
Qed.
Lemma code_reads address v c : (inner_get_code address v c).2 = c.
Proof.
  unfold inner_get_code, inner_get_version, bind, raw_get. destruct v as [v|]; simpl; [by rewrite sv_get_eq|].
  rewrite sm_get_eq. destruct (sv_read _ c) as [[v|]|e]; simpl; [by rewrite sv_get_eq|done..].
Qed.
Lemma provider_keeps not_found address h : Keeps sealed (provide_code (code_provider not_found address h)).
Proof. simpl. apply keeps_bind; [apply keeps_reading, code_reads|]. intros. apply keeps_lift. Qed.

Lemma keeps_key {A} self key (k : DBKey → M (World C) VMError A) :
  (∀ key, contract_key key → Keeps sealed (k key)) → Keeps sealed (bind (vm_to_module_key self key) k).
Proof.
  intros Hk. apply (yields_bind _ contract_key); [|done]. intros w Hw. unfold vm_to_module_key.
  destruct (contract_address _); [|done]. unfold in_vm, lift, bind.
  destruct (Context.util_hash _) as [h|]; simpl; (split; [done|]); [|done]. intros ? [= <-]. apply (key_of_data h).
Qed.

Lemma alloc_level_sealed : Keeps sealed (alloc_level (C := C)).
Proof. intros w [He Hl]. split; [done|]. simpl. apply map_Forall_insert_2; [apply empty_sealed|done]. Qed.
Lemma alloc_cell_sealed : Keeps sealed (alloc_cell (C := C)).
Proof. by intros w []. Qed.
Lemma derive_sealed s : Keeps sealed (derive (C := C) s).
Proof. apply keeps_bind; [apply alloc_level_sealed|]. intros. apply keeps_ret. Qed.
Lemma with_base_sealed env s : Keeps sealed (new_with_base_context (C := C) env s).
Proof.
  apply keeps_bind; [apply derive_sealed|]. intros. apply keeps_bind; [apply alloc_cell_sealed|]. intros. apply keeps_ret.
Qed.
Lemma context_new_sealed env : Keeps sealed (vm_context_new (C := C) env).
Proof.
  apply keeps_bind; [|intros; apply with_base_sealed].
  apply keeps_bind; [apply alloc_level_sealed|]. intros. apply keeps_ret.
Qed.
Lemma get_nested_sealed config self address : Keeps sealed (get_nested (C := C) config self address).
Proof.
  apply keeps_bind; [apply keeps_asks|]. intros [n|]; [apply keeps_ret|]. cbv zeta.
  case_decide; [apply keeps_throw|]. apply keeps_bind; [apply derive_sealed|]. intros.
  apply keeps_bind; [apply with_base_sealed|]. intros. apply keeps_bind; [|intros; apply keeps_ret].
  apply keeps_modify. by intros w [].
Qed.
Lemma keeps_nested {A} self (k : DefaultVMContext → M (World C) VMError A) :
  (∀ n, Keeps sealed (k n)) → Keeps sealed (bind (the_nested self) k).
Proof.
  intros Hk. apply keeps_bind; [|done]. apply keeps_bind; [apply keeps_asks|]. intros. apply keeps_lift.
Qed.

Lemma yields_nested self :
  Yields sealed contract_items
    (let! n := the_nested self in in_vm (payload_drain_tx_buffer (Context := base n)) : M (World C) VMError Updates).
Proof.
  intros w Hw. unfold the_nested, bind, asks, lift. destruct (cells w !! _) as [n|]; [|done].
  apply (yields_in_vm _ _ (yields_drain (base_context n)) w Hw).
Qed.

Lemma keeps_stored {T} (CT : Codec T) s key :
  Keeps sealed (context_get (H := stacked_context s) CT false key).
Proof.
  apply keeps_bind; [apply keeps_payload_get|]. intros [x|]; [|apply keeps_ret].
  apply keeps_bind; [apply keeps_lift|]. intros. apply keeps_ret.
Qed.
Lemma module_transfer_sealed s sender params :
  Keeps sealed (Balance.transfer (H := stacked_context s) sender params).
Proof.
  unfold Balance.transfer. apply keeps_bind; [apply keeps_lift|]. intros sender'. case_decide; [apply keeps_throw|].
  apply keeps_bind; [apply keeps_stored|]. intros. case_decide; [apply keeps_throw|].
  apply keeps_bind; [apply keeps_stored|]. intros. unfold overflowing_sub, overflowing_add.
  case_match; [apply keeps_throw|]. case_match; [apply keeps_throw|].
  apply keeps_bind; [apply keeps_payload_set, key_of_balance|]. intros.
  apply keeps_bind; [apply keeps_payload_set, key_of_balance|]. intros.
  apply keeps_bind; [apply keeps_lift|]. intros. apply keeps_emit_event.
Qed.

(** Whatever the code of the contracts, and however they are nested. *)
Lemma vm_context_sealed config fuel self :
  VmInvariant (vm_context (C := C) config fuel self) sealed contract_items.
Proof.
  revert self. induction fuel as [|fuel IH]; intros self; split; intros; vm_simpl;
    repeat first
      [ apply keeps_key; intros | apply keeps_nested; intros
      | apply keeps_in_vm, keeps_payload_get | by apply keeps_in_vm, keeps_payload_set
      | apply keeps_in_vm, keeps_emit_event | apply keeps_in_vm, keeps_drain_events
      | apply yields_in_vm, yields_drain | by apply keeps_in_vm, keeps_apply
      | apply keeps_in_vm, keeps_apply_events
      | apply keeps_in_vm, module_transfer_sealed ].
  all: try (apply keeps_bind; [apply keeps_in_vm, keeps_lift|]; intros; apply keeps_in_vm, module_transfer_sealed).
  all: try (apply keeps_in_vm, keeps_bind; [apply keeps_lift|]; intros; apply keeps_bind; [apply keeps_stored|];
    intros; apply keeps_ret).
  all: try (apply keeps_bind; [apply get_nested_sealed|]; intros; apply keeps_bind;
    [apply keeps_reading, code_hash_reads|]; intros; apply keeps_bind; [apply keeps_lift|]; intros).
  - apply keeps_throw.
  - apply yields_nested.
  - apply (machine_keeps _ _ contract_items); apply provider_keeps.
  - apply yields_nested.
Qed.
End Confinement.

(** ** The calls of the module *)
Section Module.
Context {SC : Scale} {UT : Util} {WL : WasmLib} {SE : Serialize Balance.Transferred}.
Context {SA : Serialize (ContractModule.ContractProposal Admin)}.
Context {SQ : Serialize (ContractModule.ContractProposal Hash)}.
Context {C : Type} `{CL : ContextLaws C}.

Lemma sv_get_frames {T} (v : StorageValue T) : Frames id (sv_get (C := C) v).
Proof. intros c. by rewrite sv_get_eq. Qed.
Lemma vm_config_reads c : (ContractModule.inner_get_vm_config c).2 = c.
Proof.
  assert (Frames id (ContractModule.inner_get_vm_config (C := C))) as Hf; [|apply (Hf c)].
  repeat (apply frames_bind; [repeat (apply frames_bind; [first [apply sv_get_frames|apply _]|intros]); apply _|intros]).
  apply _.
Qed.

Lemma in_world_writes {A} (m : M (World C) ModuleError A) c :
  Keeps (sealed c) m → writes_contract c (ContractModule.in_world m c).2.
Proof.
  intros Hm. unfold ContractModule.in_world.
  match goal with |- context [m ?w] => specialize (Hm w) end. destruct (m _) as [r w]. simpl in *.
  apply sealed_executor, Hm. split; [apply wc_refl|apply map_Forall_empty].
Qed.

Lemma settle_keeps c0 context r : Keeps (sealed c0) (ContractModule.settle (C := C) context r).
Proof.
  unfold ContractModule.settle. destruct r as [r|e].
  - eapply yields_bind; [apply yields_in_module, yields_in_vm, yields_drain|]. intros items Hi.
    apply keeps_bind; [by apply keeps_in_module, keeps_in_vm, keeps_apply|]. intros.
    apply keeps_bind; [apply keeps_in_module, keeps_in_vm, keeps_drain_events|]. intros.
    apply keeps_bind; [apply keeps_in_module, keeps_in_vm, keeps_apply_events|]. intros. apply keeps_ret.
  - apply keeps_bind; [eapply keeps_in_module, keeps_in_vm, yields_keeps, yields_drain|]. intros.
    apply keeps_bind; [apply keeps_in_module, keeps_in_vm, keeps_drain_events|]. intros. apply keeps_throw.
Qed.

Lemma keeps_caught {E F A} (P : World C → Prop) (m : M (World C) E A) :
  Keeps P m → Keeps (E := F) P (λ w, let '(r, w) := m w in (Ok r, w)).
Proof. intros Hm w Hw. specialize (Hm w Hw). by destruct (m w). Qed.

(** A run of a machine only writes the data of contracts and balances. *)
Lemma run_writes sender address code mode method params pay_value c :
  (∀ c0, Keeps (sealed c0) (provide_code code)) →
  writes_contract c (ContractModule.inner_vm_execute sender address code mode method params pay_value c).2 ∧
  writes_contract c (ContractModule.inner_vm_validate sender address code mode method params pay_value c).2.
Proof.
  intros Hc. unfold ContractModule.inner_vm_execute, ContractModule.inner_vm_validate, bind at 1 4.
  pose proof (vm_config_reads c) as Hr.
  destruct (ContractModule.inner_get_vm_config c) as [[config|e] c']; simpl in Hr; subst c'; simpl; [|split; apply wc_refl].
  pose proof (λ self, machine_keeps _ _ _ (HI := vm_context_sealed c config (nest_fuel config) self)) as Hm.
  split; apply in_world_writes; (apply keeps_bind; [apply keeps_in_module, context_new_sealed|]); intros self.
  - apply keeps_bind; [|intros; apply settle_keeps]. apply keeps_caught, keeps_in_module, Hm, Hc.
  - apply keeps_in_module, keeps_bind; [apply Hm, Hc|]. intros. apply keeps_ret.
Qed.

Lemma given_keeps c0 code h : Keeps (sealed c0) (provide_code (ContractModule.given_code (C := C) code h)).
Proof. apply keeps_ret. Qed.

Lemma execute_writes sender params c :
  writes_contract c (ContractModule.execute sender params c).2 ∧
  writes_contract c (ContractModule.validate_execute sender params c).2.
Proof.
  set (address := ContractModule.ep_contract_address params).
  pose proof (code_hash_reads address None c) as Hr. split.
  - unfold ContractModule.execute. destruct sender as [s|]; [|apply wc_refl]. cbn [ok_or].
    rewrite bind_lift_ok. unfold bind at 1. fold address.
    destruct (inner_get_code_hash address None c) as [[[h|]|e] c']; simpl in *; subst c'; try apply wc_refl.
    rewrite bind_lift_ok. apply run_writes. intros. apply provider_keeps.
  - unfold ContractModule.validate_execute, bind at 1. fold address.
    destruct (inner_get_code_hash address None c) as [[[h|]|e] c']; simpl in *; subst c'; try apply wc_refl.
    rewrite bind_lift_ok. apply run_writes. intros. apply provider_keeps.
Qed.
End Module.

Section Confined.
Context {SC : Scale} {UT : Util} {WL : WasmLib} {SE : Serialize Balance.Transferred}.
Context {SA : Serialize (ContractModule.ContractProposal Admin)}.
Context {SQ : Serialize (ContractModule.ContractProposal Hash)}.
Context {C : Type} `{CL : ContextLaws C}.

#[local] Instance confined_execute_run sender address code mode method params pay_value :
  (∀ c0, Keeps (sealed c0) (provide_code code)) →
  Confined (ContractModule.inner_vm_execute (C := C) sender address code mode method params pay_value).
Proof. intros Hc c. by apply writes_touches, run_writes. Qed.

Lemma confined_contract sender call :
  Confined (Context.execute_call (ContractModule.contract_module (C := C)) sender call).
Proof.
  revert sender call. confined_methods.
  1: confined_method @ContractModule.init.
  1: confined_method @ContractModule.get_version.
  1: confined_method @ContractModule.get_admin.
  1: { intros c. unfold ContractModule.get_code. rewrite code_reads. apply touches_refl. }
  1: confined_method @ContractModule.get_code_hash.
  1: confined_method @ContractModule.create.
  5: { intros c. apply writes_touches, execute_writes. }
  all: confined_poll; unfold ContractModule.enact_code, ContractModule.emit_code; solve_confined.
Qed.

Lemma confined_contract_validate sender call :
  Confined (Context.validate_call (ContractModule.contract_module (C := C)) sender call).
Proof.
  revert sender call. confined_validators.
  - unfold ContractModule.validate_create. apply confined_bind; [apply _|]. intros h c.
    apply writes_touches, run_writes. intros. apply given_keeps.
  - confined_method @ContractModule.validate_update_admin.
  - intros c. apply writes_touches, execute_writes.
Qed.

(** The records of the module about its contracts, and its configuration. *)
Definition same_registration (c c' : C) : Prop :=
  (∀ a, sv_read (entry version a) c' = sv_read (entry version a) c ∧
    sv_read (entry ContractModule.admin a) c' = sv_read (entry ContractModule.admin a) c ∧
    sv_read (entry ContractModule.update_admin_proposal a) c' =
      sv_read (entry ContractModule.update_admin_proposal a) c ∧
    sv_read (entry ContractModule.update_code_proposal a) c' =
      sv_read (entry ContractModule.update_code_proposal a) c) ∧
  (∀ a v, sv_read (entry code (a, v)) c' = sv_read (entry code (a, v)) c ∧
    sv_read (entry code_hash (a, v)) c' = sv_read (entry code_hash (a, v)) c) ∧
  Forall (λ v, sv_read v c' = sv_read v c)
    [ContractModule.max_stack_height; ContractModule.initial_memory_pages; ContractModule.max_memory_pages;
     ContractModule.max_share_value_len; ContractModule.max_share_size; ContractModule.max_nest_depth].

Lemma outside_read {T} (v : StorageValue T) c c' :
  writes_contract c c' → (sv_meta_module v = false → ¬ contract_key (sv_key v)) → sv_read v c' = sv_read v c.
Proof. intros Hw Hk. unfold sv_read. by rewrite (writes_read c c'). Qed.

Ltac own_key := intros _ Hk; inversion Hk as [? Heq|? Heq]; discriminate Heq.
Lemma writes_registration c c' : writes_contract c c' → same_registration c c'.
Proof.
  intros Hw. split; [|split].
  - intros a. split_and!; apply outside_read; try done; own_key.
  - intros a v. split; apply outside_read; try done; own_key.
  - repeat (apply Forall_cons; split; [apply outside_read; [done|own_key]|]). constructor.
Qed.

(** C2: whatever the code of a contract does, and whatever contracts it calls,
    its execution and its validation leave the meta state alone and write
    nothing but the data of contracts and balances in the payload state: the
    version, the code, the administration and the proposals of every contract
    and the configuration of the machine are as they were. *)
Theorem execution_confined (validating : bool) sender params c :
  let c' := if validating then (ContractModule.validate_execute sender params c).2
            else (ContractModule.execute sender params c).2 in
  (∀ k, read true k c' = read true k c) ∧
  (∀ k, ¬ contract_key k → read false k c' = read false k c) ∧
  same_registration c c'.
Proof.
  intros c'. assert (writes_contract c c') as Hw by (subst c'; destruct validating; apply execute_writes).
  split_and!; [| |by apply writes_registration]; intros; by apply (writes_read c).
Qed.

(** ** The registration of a contract *)
Lemma key_wf (a : Address) : wf (sm_key_codec version) a.
Proof. apply sc_bytes_wf. Qed.
Lemma pair_key_wf (a : Address) v : is_u32 v → wf (sc_pair sc_bytes sc_u32) (a, v).
Proof. intros Hv. rewrite sc_pair_wf. split; [apply sc_bytes_wf|by apply sc_u32_wf]. Qed.

(** The keys of a code and of its hash, as those of a proposal and of its
    number, have different lengths. *)
Ltac by_length l := unfold apart; intros [= Heq%(f_equal length)]; revert Heq; generalize l; intros ?; cbn; lia.
Lemma code_apart x : apart (entry code x) (entry code_hash x).
Proof.
  by_length (encode (sc_pair sc_bytes sc_u32) x).
Qed.

Lemma create_inv s params c a c' :
  ContractModule.create (Some s) params c = (Ok a, c') →
  ∃ h c1, Context.util_hash (ContractModule.cp_code params) = Ok h ∧ writes_contract c1 c' ∧
    c1 = sv_put (entry code_hash (a, 1%Z)) (Some h) (sv_put (entry code (a, 1%Z)) (Some (ContractModule.cp_code params))
      (sv_put (entry ContractModule.admin a) (Some {| threshold := 1; members := [(s, 1%Z)] |})
        (sv_put (entry version a) (Some 1%Z) c))).
Proof.
  unfold ContractModule.create. cbn [ok_or]. rewrite bind_lift_ok, bind_asks.
  destruct (ce_tx_hash (call_env c)) as [t|]; [|done]. cbn [ok_or]. rewrite bind_lift_ok. unfold bind at 1, lift at 1.
  destruct (Context.util_hash t) as [ht|]; [|done]. unfold bind at 1, lift at 1. destruct (Context.util_address ht) as [a'|]; [|done].
  unfold bind at 1, lift at 1. destruct (Context.util_hash (ContractModule.cp_code params)) as [h|]; [|done].
  rewrite (bind_ok _ _ _ _ _ (sm_set_eq _ _ _ _)), (bind_ok _ _ _ _ _ (sm_set_eq _ _ _ _)),
    (bind_ok _ _ _ _ _ (sm_set_eq _ _ _ _)), (bind_ok _ _ _ _ _ (sm_set_eq _ _ _ _)).
  set (c1 := sv_put _ _ _). unfold bind.
  match goal with |- context [ContractModule.inner_vm_execute ?x1 ?x2 ?x3 ?x4 ?x5 ?x6 ?x7 c1] =>
    destruct (run_writes x1 x2 x3 x4 x5 x6 x7 c1) as [Hw _]; [intros; apply given_keeps|];
    destruct (ContractModule.inner_vm_execute x1 x2 x3 x4 x5 x6 x7 c1) as [[r|e] c2] end; [|done].
  intros [= <- <-]. exists h, c1. by split_and!.
Qed.

(** C8: a contract that is created can be read: whatever its code does when it
    is initialised, its version is one, its code and hash are those that were
    given, and its administration is the sender alone, with threshold one. *)
Theorem create_registers s params c a c' :
  ContractModule.create (Some s) params c = (Ok a, c') →
  ContractModule.get_version None (ContractModule.Build_GetVersionParams a) c' = (Ok (Some 1%Z), c') ∧
  ContractModule.get_code None (ContractModule.Build_GetCodeParams a None) c' =
    (Ok (Some (ContractModule.cp_code params)), c') ∧
  ContractModule.get_admin None (ContractModule.Build_GetAdminParams a) c' =
    (Ok (Some {| threshold := 1; members := [(s, 1%Z)] |}), c') ∧
  ∃ h, Context.util_hash (ContractModule.cp_code params) = Ok h ∧
    ContractModule.get_code_hash None (ContractModule.Build_GetCodeHashParams a None) c' = (Ok (Some h), c').
Proof.
  intros (h & c1 & Hh & Hw & Hc1)%create_inv.
  assert (is_u32 1) as H1 by done. pose proof (pair_key_wf a 1 H1) as Hp.
  destruct (writes_registration c1 c' Hw) as (Hreg & Hcode & _). destruct (Hreg a) as (Ev & Ea & _ & _).
  destruct (Hcode a 1%Z) as [Ec Eh]. subst c1.
  assert (wf codec_admin {| threshold := 1; members := [(s, 1%Z)] |}) as Had by (apply codec_admin_wf; by repeat constructor).
  rewrite !sv_read_put_ne, sv_read_put_eq in Ev by first [by apply sc_u32_wf|intros Heq; discriminate Heq].
  rewrite !sv_read_put_ne, sv_read_put_eq in Ea by first [exact Had|intros Heq; discriminate Heq].
  rewrite sv_read_put_ne, sv_read_put_eq in Ec by first [by apply sc_bytes_wf|apply code_apart].
  rewrite sv_read_put_eq in Eh by by apply sc_bytes_wf.
  unfold ContractModule.get_version, ContractModule.get_code, ContractModule.get_admin, ContractModule.get_code_hash,
    inner_get_code, inner_get_version.
  cbn [ContractModule.gv_contract_address ContractModule.gc_contract_address ContractModule.gc_version
    ContractModule.ga_contract_address ContractModule.gh_contract_address ContractModule.gh_version].
  unfold bind. rewrite !sm_get_eq, Ev, Ea. split; [done|]. split; [|split; [done|]].
  - unfold raw_get. rewrite sv_get_eq. change (raw_entry code _) with (entry code (a, 1%Z)). by rewrite Ec.
  - exists h. split; [done|]. cbn. by rewrite sm_get_eq, Eh.
Qed.

(** ** The vote on the code of a contract *)

(** What passing a proposal of code does. *)
Definition code_enacted (a : Address) (v : Z) (code' : bytes) (h : Hash) (c : C) : C :=
  sv_put (entry code_hash (a, v)) (Some h) (sv_put (entry code (a, v)) (Some code') (sv_put (entry version a) (Some v) c)).
Lemma enact_code_eq a p c h v :
  Context.util_hash (content p) = Ok h → sv_read (entry version a) c = Ok (Some v) →
  ContractModule.enact_code a p c = (Ok tt, code_enacted a (u32 (v + 1)) (content p) h c).
Proof.
  intros Hh Hv. unfold ContractModule.enact_code. rewrite Hh, bind_lift_ok. unfold bind at 1.
  rewrite sm_get_eq, Hv. cbn [ok_or]. rewrite bind_lift_ok. unfold bind. by rewrite !sm_set_eq.
Qed.
Lemma emit_code_eq name a p c h :
  Context.util_hash (content p) = Ok h →
  ∃ e, ContractModule.emit_code (C := C) name a p c = (Ok tt, log e c).
Proof.
  intros Hh. unfold ContractModule.emit_code. rewrite Hh, bind_lift_ok, emit_eq. by eexists.
Qed.

(** Who votes, on what, with which weights: [update_code_vote] up to the vote. *)
Lemma vote_for_run {P} (V : Poll C P) s i c p thr mem :
  voting V (Some s) i c = Ok (s, p, (thr, mem)) → vote_for V (Some s) i c = vote_and_pass V s p thr mem c.
Proof.
  unfold voting, vote_for, open. cbn [ok_or result_bind]. rewrite bind_lift_ok. unfold bind at 1. rewrite sv_get_eq.
  destruct (sv_read (proposal_sv V) c) as [[q|]|e]; cbn [result_bind ok_or]; try done. rewrite bind_lift_ok.
  case_decide; [done|]. unfold electorate, Voting.verify_sender, bind. rewrite sv_get_eq.
  destruct (sv_read (admin_sv V) c) as [[adm|]|e]; cbn [result_bind ok_or]; try done. unfold lift.
  by case_decide; intros [= -> -> ->].
Qed.

Lemma voting_proposal {P} (V : Poll C P) s i c p thr mem :
  voting V (Some s) i c = Ok (s, p, (thr, mem)) → sv_read (proposal_sv V) c = Ok (Some p).
Proof.
  unfold voting, open. cbn [ok_or result_bind].
  destruct (sv_read (proposal_sv V) c) as [[q|]|e]; cbn [result_bind ok_or]; try done.
  case_decide; [done|]. destruct (electorate V s c) as [x|]; cbn; [|done]. by intros [= -> _].
Qed.

Lemma proposal_apart a :
  apart (entry ContractModule.update_code_proposal a) (entry ContractModule.update_code_proposal_id a).
Proof. by_length (encode sc_bytes a). Qed.
Ltac read_puts := rewrite ?sv_read_log; repeat
  (rewrite sv_read_put_ne by first [apply code_apart|intros Heq; discriminate Heq]; rewrite ?sv_read_log).

(** C9: the code of a contract is replaced by a vote that reaches the threshold
    of its administration, and then it is the code of the proposal, as the next
    version, and the proposal is gone.  A vote that does not reach it is added to
    the proposal, and the version and the codes of the contract stay. *)
Theorem code_vote_outcome c s a i p thr mem h v :
  voting (ContractModule.code_poll a) (Some s) i c = Ok (s, p, (thr, mem)) →
  Context.util_hash (content p) = Ok h → sv_read (entry version a) c = Ok (Some v) →
  let p' := add_vote s p in
  ∃ c', ContractModule.update_code_vote (Some s) (ContractModule.Build_UpdateCodeVoteParams a i) c = (Ok tt, c') ∧
  if decide (thr ≤ tally mem p')%Z then
    sv_read (entry version a) c' = Ok (Some (u32 (v + 1))) ∧
    sv_read (entry code (a, u32 (v + 1))) c' = Ok (Some (content p)) ∧
    sv_read (entry code_hash (a, u32 (v + 1))) c' = Ok (Some h) ∧
    sv_read (entry ContractModule.update_code_proposal a) c' = Ok None
  else
    sv_read (entry version a) c' = Ok (Some v) ∧
    sv_read (entry ContractModule.update_code_proposal a) c' = Ok (Some p') ∧
    ∀ w, sv_read (entry code (a, w)) c' = sv_read (entry code (a, w)) c.
Proof.
  intros Hvote Hh Hv p'. unfold ContractModule.update_code_vote. cbn [ContractModule.ucv_contract_address
    ContractModule.ucv_proposal_id]. rewrite (vote_for_run _ _ _ _ _ _ _ Hvote).
  apply voting_proposal in Hvote as Hopen. apply sv_read_wf, codec_proposal_wf in Hopen as [Hid _].
  unfold vote_and_pass. cbv zeta. fold p'. cbn [emit_voted ContractModule.code_poll].
  assert (Context.util_hash (content p') = Ok h) as Hh' by by (unfold p'; rewrite add_vote_content).
  assert (proposal_id p' = proposal_id p) as Hid' by apply add_vote_id.
  destruct (emit_code_eq "UpdateCodeProposalVoted" a p' c h Hh') as [e1 He1].
  rewrite (bind_ok _ _ _ _ _ He1).
  assert (sv_read (entry version a) (log e1 c) = Ok (Some v)) as Hv1 by by rewrite sv_read_log.
  case_decide as Hpass.
  - rewrite bool_decide_eq_true_2 by done. cbn [enact emit_passed proposal_sv proposal_id_sv ContractModule.code_poll].
    pose proof (enact_code_eq a p' _ h v Hh' Hv1) as Hen.
    destruct (emit_code_eq "UpdateCodeProposalPassed" a p' (code_enacted a (u32 (v + 1)) (content p') h (log e1 c)) h Hh')
      as [e2 He2].
    rewrite (bind_ok _ _ tt _ (log e2 (code_enacted a (u32 (v + 1)) (content p') h (log e1 c))))
      by (by rewrite (bind_ok _ _ _ _ _ Hen)).
    rewrite (bind_ok _ _ _ _ _ (sv_delete_eq _ _)), sv_set_eq. eexists. split; [done|].
    unfold code_enacted. unfold p' at 2 4. rewrite add_vote_content. split_and!.
    + read_puts. apply sv_read_put_eq. by apply sc_u32_wf, u32_range.
    + read_puts. apply sv_read_put_eq. by apply sc_bytes_wf.
    + read_puts. apply sv_read_put_eq. by apply sc_bytes_wf.
    + rewrite sv_read_put_ne by apply proposal_apart. apply sv_read_put_None.
  - rewrite bool_decide_eq_false_2 by done. cbn [proposal_sv proposal_id_sv ContractModule.code_poll].
    rewrite (bind_ok _ _ tt _ (log e1 c)) by done. rewrite (bind_ok _ _ _ _ _ (sv_set_eq _ _ _)), sv_set_eq.
    eexists. split; [done|]. split; [by read_puts|]. split; [|intros w; by read_puts].
    rewrite sv_read_put_ne by apply proposal_apart. apply sv_read_put_eq, codec_proposal_wf.
    rewrite Hid'. split; [exact Hid|apply sc_bytes_wf].
Qed.
End Confined.
