(* ===== verification/ContractNesting.v ===== *)
(** * ContractNesting

    How deep contracts nest: no context is deeper than the configuration
    allows, and the fuel of [ContractVm.vm_context] does not matter. *)
From S2P Require Import Prelude Codec Types Context Voting Dispatch Balance Executor Engine Vm ContractVm ContractModule ContractConfined.
Import Vm ContractVm.

Section Nesting.
Context {SC : Scale} {UT : Util} {SE : Serialize Balance.Transferred} {WL : WasmLib}.
Context {C : Type} `{CL : ContextLaws C}.
Variable config : VMConfig.
Hypothesis depth_range : (0 ≤ Vm.max_nest_depth config < 2 ^ 32 - 1)%Z.

Definition depth (self : DefaultVMContext) : nat := stack_len (base_context self).

(** The cells of the nested contexts: [D] is the depth of the context that
    owns a cell, and what is in the cell is one level deeper, within bounds. *)
Record nesting (D : gmap nat nat) (w : World C) : Prop := {
  nest_cells i n : cells w !! i = Some n → ∃ d,
    D !! i = Some d ∧ depth n = S d ∧ (Z.of_nat (S d) ≤ Vm.max_nest_depth config)%Z ∧
    D !! nested_vm_context n = Some (S d);
  nest_fresh i : is_Some (D !! i) → i < next_cell w;
}.
Definition known (D : gmap nat nat) (self : DefaultVMContext) : Prop :=
  D !! nested_vm_context self = Some (depth self) ∧ (Z.of_nat (depth self) ≤ Z.max 1 (Vm.max_nest_depth config))%Z.
(** The contexts [K] are known. *)
Definition nested_well (K : list DefaultVMContext) (w : World C) : Prop :=
  ∃ D, nesting D w ∧ Forall (known D) K.

Lemma nested_well_sub K K' w : K' ⊆ K → nested_well K w → nested_well K' w.
Proof.
  intros Hs (D & Hn & Hk). exists D. split; [done|]. rewrite Forall_forall in Hk |- *. intros n Hn'. by apply Hk, Hs.
Qed.

(** The calls that only use the buffers leave the cells alone. *)
Definition cells_of (w : World C) : gmap nat DefaultVMContext * nat := (cells w, next_cell w).
Lemma cells_keep K {E A} (m : M (World C) E A) : Frames cells_of m → Keeps (nested_well K) m.
Proof.
  intros Hm w (D & [Hc Hf] & Hk). exists D. specialize (Hm w). injection Hm as H1 H2.
  split; [split|done]; by rewrite ?H1, ?H2.
Qed.

#[local] Instance on_executor_cells {E A} (m : M C E A) : Frames cells_of (on_executor m).
Proof. intros w. unfold on_executor. by destruct (m (executor_context w)). Qed.
#[local] Instance in_vm_cells {A} (m : M (World C) ModuleError A) : Frames cells_of m → Frames cells_of (in_vm m).
Proof. intros Hm w. unfold in_vm. specialize (Hm w). by destruct (m w). Qed.

#[local] Instance payload_get_cells s k : Frames cells_of (payload_get (Context := stacked_context (C := C) s) k).
Proof. intros w. simpl. destruct (find_level _ k s w); [done|]. apply on_executor_cells. Qed.
#[local] Instance payload_set_cells s k v : Frames cells_of (payload_set (Context := stacked_context (C := C) s) k v).
Proof. by intros w. Qed.
#[local] Instance emit_cells s e : Frames cells_of (emit_event (Context := stacked_context (C := C) s) e).
Proof. by intros w. Qed.
#[local] Instance drain_cells s : Frames cells_of (payload_drain_tx_buffer (Context := stacked_context (C := C) s)).
Proof. by intros w. Qed.
#[local] Instance drain_events_cells s : Frames cells_of (drain_tx_events (Context := stacked_context (C := C) s)).
Proof. by intros w. Qed.
#[local] Instance apply_cells s items :
  Frames cells_of (payload_apply (Context := stacked_context (C := C) s) items).
Proof.
  intros w. simpl. destruct (second_last s); [done|]. apply frames_for_each. intros [k v]. apply _.
Qed.
#[local] Instance apply_events_cells s items : Frames cells_of (stacked_apply_events (C := C) s items).
Proof. intros w. unfold stacked_apply_events. destruct (second_last s); [done|]. apply frames_for_each, _. Qed.
#[local] Instance key_cells self key : Frames cells_of (vm_to_module_key (C := C) self key).
Proof. unfold vm_to_module_key. destruct (contract_address _); apply _. Qed.
#[local] Instance the_nested_cells self : Frames cells_of (the_nested (C := C) self).
Proof. unfold the_nested. apply _. Qed.

#[local] Instance stored_cells {T} (CT : Codec T) s key :
  Frames cells_of (context_get (H := stacked_context (C := C) s) CT false key).
Proof. unfold context_get. apply frames_bind; [apply _|]. intros [x|]; apply _. Qed.
#[local] Instance transfer_cells s sender params :
  Frames cells_of (Balance.transfer (H := stacked_context (C := C) s) sender params).
Proof.
  unfold Balance.transfer, sm_get, raw_get, sv_get, sm_set, raw_set, sv_set, context_set, overflowing_sub,
    overflowing_add, emit. cbn [sv_meta_module raw_entry sm_meta_module Balance.balance sm_new Balance.META_MODULE].
  repeat first [apply _|apply frames_bind; [|intros]|case_decide|case_match].
Qed.

(** A new context, and the empty cell for its nested one. *)
Lemma new_context_spec env s w :
  ∃ n w', new_with_base_context (C := C) env s w = (Ok n, w') ∧ base_context n = s ∧
    nested_vm_context n = next_cell w ∧ cells w' = cells w ∧ next_cell w' = S (next_cell w) ∧
    executor_context w' = executor_context w.
Proof. by eexists _, _. Qed.
Lemma derive_spec s w :
  ∃ s' w', derive (C := C) s w = (Ok s', w') ∧ stack_len s' = S (stack_len s) ∧
    cells w' = cells w ∧ next_cell w' = next_cell w.
Proof. eexists _, _. split; [done|]. split; [|done]. unfold stack_len. cbn. rewrite length_app. cbn. lia. Qed.

Lemma grow_nesting D w w' i d :
  nesting D w → cells w' = cells w → next_cell w' = S (next_cell w) → i = next_cell w →
  nesting (<[i := d]> D) w'.
Proof.
  intros [Hc Hf] Hcells Hnext ->. split.
  - intros j n. rewrite Hcells. intros (dj & Hj & Hn & Hle & Hcell)%Hc.
    assert (∀ x, is_Some (D !! x) → next_cell w ≠ x) as Hne by (intros x Hx%Hf; lia).
    exists dj. rewrite !lookup_insert_ne; [done|apply Hne; by rewrite Hcell|apply Hne; by rewrite Hj].
  - intros j. rewrite Hnext. destruct (decide (next_cell w = j)) as [<-|Hne]; [lia|].
    rewrite lookup_insert_ne by done. intros Hj%Hf. lia.
Qed.
Lemma grow_known D w self d :
  nesting D w → known D self → known (<[next_cell w := d]> D) self.
Proof.
  intros [_ Hf] [Hd Hle]. split; [|done]. rewrite lookup_insert_ne; [done|].
  specialize (Hf (nested_vm_context self)). rewrite Hd in Hf. specialize (Hf ltac:(done)). lia.
Qed.

Lemma insert_cell D self n w :
  nesting D w → known D self → depth n = S (depth self) →
  (Z.of_nat (depth n) ≤ Vm.max_nest_depth config)%Z → D !! nested_vm_context n = Some (depth n) →
  nesting D (with_cells (<[nested_vm_context self := n]> (cells w)) w).
Proof.
  intros [Hc Hf] [Hd _] Hn Hle Hcell. split; [|done]. intros i m. cbn [with_cells cells].
  destruct (decide (nested_vm_context self = i)) as [<-|Hne].
  - rewrite lookup_insert_eq. intros [= <-]. exists (depth self). by rewrite <-Hn.
  - rewrite lookup_insert_ne by done. apply Hc.
Qed.

(** The nested context is one level deeper, and within the bounds. *)
Lemma get_nested_spec K self address w :
  self ∈ K → nested_well K w →
  let out := get_nested config self address w in
  nested_well K out.2 ∧
  ∀ n, out.1 = Ok n → nested_well (n :: K) out.2 ∧ depth n = S (depth self) ∧
    (Z.of_nat (depth n) ≤ Vm.max_nest_depth config)%Z.
Proof.
  intros Hself (D & Hnest & Hk) out.
  pose proof (proj1 (Forall_forall _ _) Hk _ Hself) as [Hd Hmax].
  assert (nested_well K w) as HK by (by exists D). subst out. unfold get_nested. rewrite bind_asks.
  destruct (cells w !! nested_vm_context self) as [n|] eqn:Hc.
  - split; [done|]. intros ? [= <-].
    apply (nest_cells _ _ Hnest) in Hc as (d & Hd' & Hn & Hle & Hcell).
    assert (d = depth self) as -> by congruence. rewrite Hn. split; [|done].
    exists D. split; [done|]. constructor; [|done]. split; rewrite Hn; [done|lia].
  - cbv zeta. fold (depth self). case_decide as Hover; [by split|].
    rewrite (u32_id (Z.of_nat (depth self))), u32_id in Hover by (unfold is_u32; lia).
    destruct (derive_spec (base_context self) w) as (s' & w1 & E1 & Hs' & Hc1 & Hn1).
    rewrite (bind_ok _ _ _ _ _ E1).
    match goal with |- context [bind (new_with_base_context ?env s') ?k] =>
      destruct (new_context_spec env s' w1) as (n & w2 & E2 & Hb & Hcell & Hc2 & Hn2 & _) end.
    rewrite (bind_ok _ _ _ _ _ E2). cbn [bind modify ret fst snd].
    assert (depth n = S (depth self)) as Hdn by (unfold depth; by rewrite Hb, Hs').
    assert (nesting (<[next_cell w := depth n]> D) (with_cells (<[nested_vm_context self := n]> (cells w2)) w2)) as Hg.
    { apply (insert_cell _ self); [|by apply (grow_known D w)|done|lia|by rewrite Hcell, Hn1, lookup_insert_eq].
      apply (grow_nesting D w w2); congruence. }
    assert (∀ n', n' ∈ K → known (<[next_cell w := depth n]> D) n') as Hg'.
    { intros n' Hn'. apply (grow_known D w); [done|]. by apply (proj1 (Forall_forall _ _) Hk). }
    split; [exists (<[next_cell w := depth n]> D); split; [done|by apply Forall_forall]|].
    intros ? [= <-]. split; [|split; [done|lia]].
    exists (<[next_cell w := depth n]> D). split; [done|]. constructor; [|by apply Forall_forall].
    split; [by rewrite Hcell, Hn1, lookup_insert_eq|lia].
Qed.

Lemma yields_cells K {A} (m : M (World C) VMError A) : Frames cells_of m → Yields (nested_well K) (λ _, True) m.
Proof. intros Hm w Hw. split; [|done]. by apply cells_keep. Qed.

Lemma provider_nests K not_found address h :
  Keeps (nested_well K) (provide_code (code_provider (C := C) not_found address h)).
Proof. apply cells_keep. simpl. apply frames_bind; [apply _|]. intros. apply _. Qed.

Lemma keeps_get_nested {A} K self address (k : DefaultVMContext → M (World C) VMError A) :
  self ∈ K →
  (∀ n, depth n = S (depth self) ∧ (Z.of_nat (depth n) ≤ Vm.max_nest_depth config)%Z →
    Keeps (nested_well (n :: K)) (k n)) →
  Keeps (nested_well K) (bind (get_nested config self address) k).
Proof.
  intros Hself Hk w Hw. destruct (get_nested_spec K self address w Hself Hw) as [H1 H2]. unfold bind.
  destruct (get_nested config self address w) as [[n|e] w1]; [|done]. cbn [fst snd] in *.
  destruct (H2 n eq_refl) as [HK Hn]. apply (nested_well_sub (n :: K)); [set_solver|by apply (Hk n)].
Qed.

(** Whatever contracts do, the contexts nest well. *)
Lemma vm_context_nests fuel self K : self ∈ K →
  VmInvariant (vm_context (C := C) config fuel self) (nested_well K) (λ _, True).
Proof.
  revert self K. induction fuel as [|fuel IH]; intros self K Hself; split; intros; vm_simpl.
  all: try (first [apply cells_keep|apply yields_cells];
    repeat first [apply _|apply in_vm_cells|apply frames_bind; [|intros]|progress unfold Balance.get_balance]; done).
  all: apply keeps_get_nested; [done|intros n _]; apply keeps_bind; [apply cells_keep, _|intros];
    apply keeps_bind; [apply keeps_lift|intros].
  - apply keeps_throw.
  - assert (n ∈ n :: K) as Hn by left. apply IH in Hn.
    apply (machine_keeps (vm_context config fuel n) _ (λ _, True)), provider_nests.
Qed.

(** *** The fuel *)

Lemma bind_congr {S E A B} (m1 m2 : M S E A) (k1 k2 : A → M S E B) s :
  m1 s = m2 s → (∀ a s', m2 s = (Ok a, s') → k1 a s' = k2 a s') → bind m1 k1 s = bind m2 k2 s.
Proof. unfold bind. intros ->. destruct (m2 s) as [[a|e] s']; [by intros Hk; apply Hk|done]. Qed.

(** Two contexts on which every import agrees run a program alike. *)
Lemma call_agrees (V1 V2 : VMContext (World C)) (P : World C → Prop) p s :
  (∀ f, Keeps (within P) (import (VC := V1) f)) →
  (∀ f s, within P s → import (VC := V1) f s = import (VC := V2) f s) →
  within P s → call (VC := V1) p s = call (VC := V2) p s.
Proof.
  intros Hkeep Hsame. revert s. induction p as [| |f mem k IH]; intros s Hs; cbn; [done..|].
  rewrite <-Hsame by exact Hs. pose proof (Hkeep f (with_memory mem s) Hs) as Hi.
  destruct (import f (with_memory mem s)) as [[v|[e|]] s']; [|done..]. by apply IH.
Qed.
Lemma machine_agrees (V1 V2 : VMContext (World C)) (P : World C → Prop) code mode method params pay_value w :
  (∀ f, Keeps (within P) (import (VC := V1) f)) →
  (∀ f s, within P s → import (VC := V1) f s = import (VC := V2) f s) →
  Keeps P (provide_code code) → P w →
  Vm.execute (VC := V1) config code mode method params pay_value w =
  Vm.execute (VC := V2) config code mode method params pay_value w.
Proof.
  intros Hkeep Hsame Hc Hw. unfold Vm.execute, Vm.run, bind.
  assert (P (compile config code w).2) as Hw'.
  { unfold compile. destruct (module_cache _); [done|]. by apply keeps_bind; [|intros; apply keeps_lift|]. }
  destruct (compile config code w) as [[m|e] w']; [|done]. unfold lift.
  destruct (map_err _ (memory_new _)) as [[]|e]; [|done]. by rewrite (call_agrees V1 V2 P).
Qed.

(** The imports other than calls of contracts do not nest. *)
Definition nests (f : Import) : bool :=
  match f with IContractExecute _ _ _ _ _ _ _ _ | IContractExecuteEa _ _ _ _ _ _ _ _ _ => true | _ => false end.
Lemma import_flat n n' self f :
  nests f = false →
  import (VC := vm_context (C := C) config n self) f = import (VC := vm_context config n' self) f.
Proof. destruct n, n'; destruct f; try discriminate; reflexivity. Qed.

Section Agreement.
Variables (n n' : nat) (self : DefaultVMContext) (P : World C → Prop).
Let V1 := vm_context (C := C) config n self.
Let V2 := vm_context (C := C) config n' self.
Hypothesis nested_agrees : ∀ address method params pay_value w, P w →
  nested_vm_contract_execute (VMContext := V1) address method params pay_value w =
  nested_vm_contract_execute (VMContext := V2) address method params pay_value w.

Lemma contract_execute_agrees alen aptr mlen mptr plen pptr pay_value share_id s : within P s →
  contract_execute (VC := V1) alen aptr mlen mptr plen pptr pay_value share_id s =
  contract_execute (VC := V2) alen aptr mlen mptr plen pptr pay_value share_id s.
Proof.
  intros Hs. unfold contract_execute.
  assert (∀ len ptr (k1 k2 : bytes → H (World C) unit) s, within P s →
    (∀ l s, within P s → k1 l s = k2 l s) →
    bind (memory_to_vec len ptr) k1 s = bind (memory_to_vec len ptr) k2 s) as Hread.
  { intros len ptr k1 k2 s0 Hs0 Hk. unfold bind. pose proof (keeps_memory_to_vec (within P) len ptr s0 Hs0) as H1.
    destruct (memory_to_vec len ptr s0) as [[l|] s1]; [by apply Hk|done]. }
  apply Hread; [done|]. clear s Hs. intros address s Hs. apply Hread; [done|]. clear s Hs. intros m s Hs.
  destruct (from_utf8 m); [|done]. apply Hread; [done|]. clear s Hs. intros params s Hs.
  apply bind_congr; [unfold on_context; by rewrite nested_agrees|]. intros. by destruct n, n'.
Qed.
Lemma import_agrees f s : within P s → import (VC := V1) f s = import (VC := V2) f s.
Proof.
  intros Hs. destruct (nests f) eqn:Hf; [|by subst V1 V2; rewrite (import_flat n n' self f Hf)].
  destruct f; try discriminate Hf; cbn [import]; unfold done, contract_execute_ea, catch, bind.
  - by rewrite contract_execute_agrees.
  - rewrite contract_execute_agrees by done.
    destruct (contract_execute _ _ _ _ _ _ _ _ s) as [[r|[e|]] s']; by destruct n, n'.
Qed.
End Agreement.

Lemma nested_fuel n : ∀ n' self K, self ∈ K →
  nest_fuel config ≤ n + depth self → nest_fuel config ≤ n' + depth self →
  ∀ address method params pay_value w, nested_well K w →
  nested_vm_contract_execute (VMContext := vm_context (C := C) config n self) address method params pay_value w =
  nested_vm_contract_execute (VMContext := vm_context config n' self) address method params pay_value w.
Proof.
  induction n as [|n IH]; intros n' self K Hself Hn Hn' address method params pay_value w Hw.
  all: destruct (get_nested_spec K self address w Hself Hw) as [_ H2]; destruct n' as [|n']; vm_simpl;
    (apply bind_congr; [done|]); intros m w1 Hm; rewrite Hm in H2; cbn [fst snd] in H2;
    destruct (H2 m eq_refl) as (HK & Hd & Hle); unfold nest_fuel in *; try lia.
  pose proof (cells_keep _ _ (in_vm_cells _ (on_executor_cells (inner_get_code_hash address None))) w1 HK) as HK2.
  apply bind_congr; [done|]. intros h w2 Hh. rewrite Hh in HK2. apply bind_congr; [done|].
  intros h' ? [= _ <-]. clear Hm.
  assert (m ∈ m :: K) as Hm by left. pose proof (vm_context_nests n m _ Hm) as HI.
  apply (machine_agrees _ _ (nested_well (m :: K))); [| |apply provider_nests|done].
  - intros f. apply (import_keeps _ _ (λ _, True)).
  - intros f s. apply import_agrees. intros. apply (IH n' m (m :: K)); [done|lia|lia|done].
Qed.

(** The first context of a run. *)
Lemma context_new_spec env c0 :
  ∃ self w, vm_context_new (C := C) env
    {| executor_context := c0; levels := ∅; next_level := 0; cells := ∅; next_cell := 0 |} = (Ok self, w) ∧
    depth self = 1 ∧ nested_well [self] w.
Proof.
  eexists _, _. split; [done|]. split; [done|]. exists {[0 := 1]}. split.
  - split; cbn; [done|]. intros i Hi. destruct (decide (i = 0)) as [->|Hne]; [lia|].
    rewrite lookup_singleton_ne in Hi by done. by destruct Hi.
  - apply Forall_singleton. split; [done|]. change (1 ≤ Z.max 1 (Vm.max_nest_depth config))%Z. lia.
Qed.

(** A run of a contract with any fuel, in a store of its own. *)
Definition run_contract (fuel : nat) env not_found address h mode method params pay_value (c : C) :
    result VMError bytes * World C :=
  (let! self := vm_context_new env in
   Vm.execute (VC := vm_context config fuel self) config (code_provider not_found address h) mode method params
     pay_value) {| executor_context := c; levels := ∅; next_level := 0; cells := ∅; next_cell := 0 |}.

(** C6: the nesting of contracts ends.  The fuel of a run, which is the
    greatest depth of the configuration, is enough: with any more of it a run
    is the same, result and store.  No context that a run makes is deeper than
    the greatest depth. *)
Theorem nesting_ends extra env not_found address h mode method params pay_value c :
  run_contract (nest_fuel config + extra) env not_found address h mode method params pay_value c =
  run_contract (nest_fuel config) env not_found address h mode method params pay_value c ∧
  ∀ i n, cells (run_contract (nest_fuel config) env not_found address h mode method params pay_value c).2 !! i =
    Some n → (Z.of_nat (depth n) ≤ Vm.max_nest_depth config)%Z.
Proof.
  destruct (context_new_spec env c) as (self & w & Hnew & Hd & Hw). unfold run_contract.
  rewrite !(bind_ok _ _ _ _ _ Hnew). assert (self ∈ [self]) as Hself by left. split.
  - pose proof (vm_context_nests (nest_fuel config + extra) self _ Hself) as HI.
    apply (machine_agrees _ _ (nested_well [self])); [| |apply provider_nests|done].
    + intros f. apply (import_keeps _ _ (λ _, True)).
    + intros f s. apply import_agrees. intros. apply (nested_fuel _ _ self [self]); [done|lia|lia|done].
  - pose proof (vm_context_nests (nest_fuel config) self _ Hself) as HI. intros i n Hi.
    pose proof (machine_keeps _ _ _ (HI := HI) config (code_provider not_found address h)
      (match mode with ModeInit => "execute_init" | ModeCall => "execute_call" end) method params pay_value
      (provider_nests _ _ _ _) w Hw) as (D & Hn & _).
    destruct (nest_cells _ _ Hn i n Hi) as (d & _ & Hdn & Hle & _). by rewrite Hdn.
Qed.
End Nesting.
