(* ===== verification/ContractLedger.v ===== *)
(** * ContractLedger

    The money that contracts move: a stack of buffers is a context of the
    modules, so that a transfer by a contract is one of the ledger; and what
    calls between contracts do to it. *)
From S2P Require Import Prelude Codec Types Context ExecutorContext Voting Dispatch Balance Executor Engine Vm ContractVm ContractModule ContractConfined ContractNesting.
Import Vm ContractVm.

(** ** A stack of buffers is a context *)
Section StackLaws.
Context {C : Type} `{CL : ContextLaws C}.

Lemma get_update_eq i f (w : World C) : get_level i (update_level i f w) = f (get_level i w).
Proof. unfold update_level, set_level, get_level. cbn. by rewrite lookup_insert_eq. Qed.
Lemma get_update_ne i j f (w : World C) : i ≠ j → get_level i (update_level j f w) = get_level i w.
Proof. intros Hne. unfold update_level, set_level, get_level. cbn. by rewrite lookup_insert_ne. Qed.

(** The buffer of a level for the meta or the payload state. *)
Definition buffer_of (m : bool) : Level → gmap DBKey (option DBValue) :=
  if m then meta_buffer else payload_buffer.
Definition with_buffer (m : bool) (k : DBKey) (v : option DBValue) (l : Level) : Level :=
  if m then with_meta (<[k := v]> (meta_buffer l)) l else with_payload (<[k := v]> (payload_buffer l)) l.

Lemma find_level_top buffer k s (w : World C) :
  find_level buffer k s w =
  match buffer (get_level (top s) w) !! k with
  | Some v => Some v
  | None => head (omap (λ i, buffer (get_level i w) !! k) (reverse (older s)))
  end.
Proof. unfold find_level. cbn. by destruct (buffer (get_level (top s) w) !! k). Qed.
Lemma omap_ext {A B} (f g : A → option B) (l : list A) : (∀ x, f x = g x) → omap f l = omap g l.
Proof. intros Hfg. induction l as [|x l IH]; [done|]. cbn. by rewrite Hfg, IH. Qed.
Lemma find_level_same buffer k s (w : World C) f :
  (∀ l, buffer (f l) !! k = buffer l !! k) →
  find_level buffer k s (update_level (top s) f w) = find_level buffer k s w.
Proof.
  intros Hf. unfold find_level. f_equal. apply omap_ext. intros i.
  destruct (decide (i = top s)) as [->|Hne]; [by rewrite get_update_eq|by rewrite get_update_ne].
Qed.

(** What a stack reads: its buffers, and the executor's context below them. *)
Definition stack_read (s : Stack) (m : bool) (k : DBKey) (w : World C) : ModuleResult (option DBValue) :=
  match find_level (buffer_of m) k s w with
  | Some v => Ok v
  | None => read m k (executor_context w)
  end.

#[export] Program Instance stacked_laws (s : Stack) : ContextLaws (World C) (H := stacked_context s) := {|
  read := stack_read s;
  put m k v w := update_level (top s) (with_buffer m k v) w;
  log e w := update_level (top s) (λ l, with_level_events (level_events l ++ [e]) l) w;
  pending w := level_events (get_level (top s) w);
|}.
Next Obligation.
  intros s k w. unfold stack_read. cbn. destruct (find_level _ k s w); [done|]. unfold on_executor. rewrite meta_get_eq. by destruct w.
Qed.
Next Obligation.
  intros s k w. unfold stack_read. cbn. destruct (find_level _ k s w); [done|]. unfold on_executor. rewrite payload_get_eq. by destruct w.
Qed.
Next Obligation. done. Qed.
Next Obligation. done. Qed.
Next Obligation. done. Qed.
Next Obligation.
  intros s m k v w. unfold stack_read. rewrite find_level_top, get_update_eq. by destruct m; cbn; rewrite lookup_insert_eq.
Qed.
Next Obligation.
  intros s m k m' k' v w Hne. unfold stack_read. rewrite find_level_same; [done|].
  intros l. destruct m, m'; cbn; try done; rewrite lookup_insert_ne; congruence.
Qed.
Next Obligation. intros s m k e w. unfold stack_read. rewrite find_level_same; [done|]. by destruct m. Qed.
Next Obligation. intros s m k v w. cbn. rewrite get_update_eq. by destruct m. Qed.
Next Obligation. intros s e w. cbn. by rewrite get_update_eq. Qed.
Next Obligation. done. Qed.
Next Obligation. done. Qed.
End StackLaws.

(** ** Transfers of a contract that calls no other *)
Section Flat.
Context {SC : Scale} {UT : Util} {WL : WasmLib} {SE : Serialize Balance.Transferred}.
Context {C : Type} `{CL : ContextLaws C}.
Variable config : VMConfig.
Variables (caller address : option Address) (pay_value : Balance).
Hypothesis pay_range : is_u64 pay_value.
Variable l0 : Balance.ledger.

(** The context of a call, as [vm_context_new] makes it. *)
Variable self : DefaultVMContext.
Hypothesis self_env : contract_env self = Build_VMContractEnv address caller.
Variables b0 b1 : nat.
Hypothesis self_base : base_context self = {| older := []; top := b0 |}.
Hypothesis self_module : module_context self = {| older := [b0]; top := b1 |}.
Hypothesis levels_differ : b0 ≠ b1.
Let VC (fuel : nat) : VMContext (World C) := vm_context config fuel self.
Let SM : Stack := {| older := [b0]; top := b1 |}.
Let HM : Context (World C) := stacked_context SM.

(** What a contract may be charged with: a transfer of its own money, and
    the payment of its caller. *)
Definition charge (t : option Address * Balance.TransferParams) : Prop :=
  is_u64 (Balance.value t.2) ∧
  (is_Some t.1 ∧ t.1 = address ∨
   is_Some t.1 ∧ t.1 = caller ∧ Some (Balance.recipient t.2) = address ∧ Balance.value t.2 = pay_value).

(** No balance is in the buffer of the contract. *)
Definition no_balance (w : World C) : Prop :=
  ∀ a, payload_buffer (get_level b0 w) !! sv_key (entry Balance.balance a) = None.

(** Between two imports the buffer of the modules is empty, and the context
    of the executor holds the ledger after the transfers so far. *)
Record settled (ts : list (option Address * Balance.TransferParams)) (w : World C) : Prop := {
  settled_holds : Balance.holds (executor_context w) (Balance.ledger_run ts l0).2;
  settled_module : payload_buffer (get_level b1 w) = ∅;
  settled_base : no_balance w;
}.
Definition accounted (w : World C) : Prop := ∃ ts, Forall charge ts ∧ settled ts w.

(** What the modules see of a balance. *)
Let LM : ContextLaws (World C) (H := HM) := stacked_laws SM.
Abbreviation balance_key a := (sv_key (entry Balance.balance a)).
Lemma module_read a (w : World C) : no_balance w →
  read (ContextLaws := LM) false (balance_key a) w =
  match payload_buffer (get_level b1 w) !! balance_key a with
  | Some v => Ok v
  | None => read false (balance_key a) (executor_context w)
  end.
Proof.
  intros Hw. subst LM HM SM. cbn [read stacked_laws]. unfold stack_read. rewrite find_level_top. cbn [top older buffer_of].
  destruct (payload_buffer (get_level b1 w) !! _); [done|]. change (reverse [b0]) with [b0].
  unfold omap. cbn [list_omap]. by rewrite Hw.
Qed.
Lemma holds_same (w : World C) c l :
  (∀ a, read (ContextLaws := LM) false (balance_key a) w = read false (balance_key a) c) →
  Balance.holds (CL := LM) w l ↔ Balance.holds c l.
Proof.
  intros Hr. unfold Balance.holds, sv_read. cbn [sv_meta_module entry raw_entry sm_meta_module Balance.balance sm_new].
  split; intros Hl a; destruct (Hl a) as (o & Ho & Hla); exists o; (split; [|done]); [by rewrite <-Hr|by rewrite Hr].
Qed.

Lemma holds_ext c c' l :
  (∀ a, read false (balance_key a) c' = read false (balance_key a) c) → Balance.holds c l → Balance.holds c' l.
Proof.
  intros Hr Hl a. destruct (Hl a) as (o & Ho & Hla). exists o. split; [|done]. revert Ho. unfold sv_read.
  cbn [sv_meta_module entry raw_entry sm_meta_module Balance.balance sm_new]. by rewrite Hr.
Qed.

(** The writes of the modules, as they reach the executor. *)
Lemma apply_to_executor items (w : World C) :
  ∃ c, for_each (λ '(k, v), on_executor (payload_set k v)) items w = (Ok tt, with_executor c w) ∧
    (NoDup items.*1 → ∀ k, read false k c =
      match (list_to_map items : gmap DBKey (option DBValue)) !! k with
      | Some v => Ok v
      | None => read false k (executor_context w)
      end).
Proof.
  revert w. induction items as [|[k v] items IH]; intros w.
  { exists (executor_context w). by destruct w. }
  destruct (IH (with_executor (put false k v (executor_context w)) w)) as (c & Hc & Hr). exists c. split.
  - cbn [for_each]. unfold bind, on_executor at 1. rewrite payload_set_eq. exact Hc.
  - cbn. intros [Hk Hnd]%NoDup_cons k'. rewrite (Hr Hnd). cbn. destruct (decide (k = k')) as [<-|Hne].
    + rewrite lookup_insert_eq, not_elem_of_list_to_map_1 by done. apply read_put_eq.
    + rewrite lookup_insert_ne by done. destruct (list_to_map items !! k'); [done|]. apply read_put_ne. congruence.
Qed.

(** A call of the balance module in the buffer of the modules leaves the
    buffer of the contract and the executor alone. *)
Definition below (w : World C) : C * Level := (executor_context w, get_level b0 w).
#[local] Instance get_below k : Frames below (payload_get (Context := HM) k).
Proof.
  intros w. cbn. destruct (find_level _ k SM w); [done|]. unfold on_executor. by rewrite payload_get_eq.
Qed.
#[local] Instance set_below k v : Frames below (payload_set (Context := HM) k v).
Proof. intros w. unfold below. cbn. by rewrite get_update_ne. Qed.
#[local] Instance emit_below e : Frames below (emit_event (Context := HM) e).
Proof. intros w. unfold below. cbn. by rewrite get_update_ne. Qed.
#[local] Instance stored_below {T} (CT : Codec T) key : Frames below (context_get (H := HM) CT false key).
Proof. unfold context_get. apply frames_bind; [apply _|]. intros [x|]; apply _. Qed.
#[local] Instance transfer_below sender params : Frames below (Balance.transfer (H := HM) sender params).
Proof.
  unfold Balance.transfer, sm_get, raw_get, sv_get, sm_set, raw_set, sv_set, context_set, overflowing_sub,
    overflowing_add, emit. cbn [sv_meta_module raw_entry sm_meta_module Balance.balance sm_new Balance.META_MODULE].
  repeat first [apply _|apply frames_bind; [|intros]|case_decide|case_match].
Qed.

Lemma ledger_run_snoc ts t l :
  (Balance.ledger_run (ts ++ [t]) l).2 = (Balance.ledger_transfer t.1 t.2 (Balance.ledger_run ts l).2).2.
Proof.
  revert l. induction ts as [|[s p] ts IH]; intros l; cbn.
  - destruct t as [s p]. cbn. by destruct (Balance.ledger_transfer s p l).
  - destruct (Balance.ledger_transfer s p l) as [r l1]. specialize (IH l1).
    destruct (Balance.ledger_run (ts ++ [t]) l1), (Balance.ledger_run ts l1). exact IH.
Qed.

(** A transfer in the buffer of the modules is one of the ledger. *)
Lemma transfer_step ts w sender p :
  settled ts w → is_u64 (Balance.value p) →
  let out := Balance.transfer (H := HM) sender p w in
  (is_ok out.1 = false → out.2 = w) ∧
  Balance.holds (CL := LM) out.2 (Balance.ledger_run (ts ++ [(sender, p)]) l0).2 ∧ no_balance out.2.
Proof.
  intros [Hh Hm Hb] Hp out.
  assert (Balance.holds (CL := LM) w (Balance.ledger_run ts l0).2) as Hw.
  { apply (holds_same w (executor_context w)); [|done]. intros a. by rewrite module_read, Hm, lookup_empty. }
  destruct (Balance.transfer_spec (CL := LM) w _ sender p Hw Hp) as (_ & H2 & H3 & _).
  split; [exact H3|]. rewrite ledger_run_snoc. split; [exact H2|].
  pose proof (transfer_below sender p w) as [= _ Hl]. intros a. fold out in Hl. rewrite Hl. apply Hb.
Qed.

(** What the modules have written goes to the executor, their events to the
    buffer of the contract. *)
Lemma apply_module_step fuel st l1 :
  Balance.holds (CL := LM) (context st) l1 → no_balance (context st) →
  ∃ w, apply_module (VC := VC fuel) st = (Ok tt, with_context w st) ∧
    Balance.holds (executor_context w) l1 ∧ payload_buffer (get_level b1 w) = ∅ ∧ no_balance w.
Proof.
  intros Hh Hb. set (w1 := context st) in *.
  set (w2 := update_level b1 (with_payload ∅) w1).
  destruct (apply_to_executor (map_to_list (payload_buffer (get_level b1 w1))) w2) as (c & Hc & Hr).
  set (w3 := with_executor c w2).
  set (w4 := update_level b1 (with_level_events []) w3).
  set (w5 := update_level b0 (λ l, with_level_events (level_events l ++ level_events (get_level b1 w3)) l) w4).
  exists w5. split; [|split; [|split]].
  - assert (module_payload_drain_buffer (VMContext := VC fuel) w1 =
      (Ok (map_to_list (payload_buffer (get_level b1 w1))), w2)) as E1.
    { subst VC; destruct fuel; vm_simpl; unfold in_vm, modules; by rewrite self_module. }
    assert (module_payload_apply (VMContext := VC fuel) (map_to_list (payload_buffer (get_level b1 w1))) w2 =
      (Ok tt, w3)) as E2.
    { subst VC; destruct fuel; vm_simpl; unfold in_vm, base; rewrite self_base; cbn; by rewrite Hc. }
    assert (module_drain_events (VMContext := VC fuel) w3 = (Ok (level_events (get_level b1 w3)), w4)) as E3.
    { subst VC; destruct fuel; vm_simpl; unfold in_vm, modules; by rewrite self_module. }
    assert (module_apply_events (VMContext := VC fuel) (level_events (get_level b1 w3)) w4 = (Ok tt, w5)) as E4.
    { subst VC; destruct fuel; vm_simpl; unfold in_vm, stacked_apply_events; by rewrite self_module. }
    unfold apply_module, bind, on_context. fold w1. rewrite E1. cbn [context with_context map_err].
    rewrite E2. cbn [context with_context map_err]. rewrite E3. cbn [context with_context map_err]. by rewrite E4.
  - apply (holds_same w1); [|done]. intros a. rewrite module_read by done. change (executor_context w5) with c.
    rewrite Hr by apply NoDup_fst_map_to_list. by rewrite list_to_map_to_list.
  - subst w5 w4. rewrite get_update_ne, get_update_eq by done. cbn. subst w3.
    change (get_level b1 (with_executor c w2)) with (get_level b1 w2). subst w2. by rewrite get_update_eq.
  - intros a. subst w5 w4. rewrite get_update_eq, get_update_ne by done. cbn. subst w3.
    change (get_level b0 (with_executor c w2)) with (get_level b0 w2). subst w2. rewrite get_update_ne by done. apply Hb.
Qed.

(** The machine of such a contract. *)
Definition flat_machine (st : State (World C)) : Prop :=
  accounted (context st) ∧ Vm.pay_value st = pay_value.
#[local] Instance flat_machine_inv : MachineInv accounted flat_machine.
Proof. split; intros; by repeat match goal with H : flat_machine _ |- _ => destruct H end. Qed.

(** The calls of a contract that calls no other one; amounts are [u64]. *)
Definition flat_import (f : Import) : Prop :=
  nests f = false ∧
  match f with
  | IBalanceTransfer _ _ v | IBalanceTransferEa _ _ v _ => is_u64 v
  | _ => True
  end.

(** A transfer that may be charged, and what follows it. *)
Lemma transfer_import fuel sender recipient value :
  charge (Some sender, Balance.Build_TransferParams recipient value) →
  Keeps flat_machine
    (do! on_context (module_balance_transfer (VMContext := VC fuel) sender recipient value) in
     apply_module (VC := VC fuel)).
Proof.
  intros Hc st [(ts & Hts & Hst) Hpay]. unfold bind, on_context at 1.
  set (p := Balance.Build_TransferParams recipient value) in *.
  assert (module_balance_transfer (VMContext := VC fuel) sender recipient value (context st) =
    (do! in_vm (lift (Context.validate_address recipient)) in
     in_vm (Balance.transfer (H := HM) (Some sender) p)) (context st)) as ->.
  { subst VC. destruct fuel; vm_simpl; unfold modules; by rewrite self_module. }
  unfold bind, in_vm, lift at 1.
  destruct (Context.validate_address recipient) as [[]|e]; cbn [map_err]; [|by split; [exists ts|]].
  destruct (transfer_step ts (context st) (Some sender) p Hst (proj1 Hc)) as (Hsame & Hh & Hb).
  destruct (Balance.transfer (Some sender) p (context st)) as [[[]|e] w1]; cbn [map_err fst snd] in *.
  - destruct (apply_module_step fuel (with_context w1 st) _ Hh Hb) as (w & Hw & H1 & H2 & H3). rewrite Hw.
    split; [|done]. exists (ts ++ [(Some sender, p)]). split; [|done]. apply Forall_app. split; [done|by constructor].
  - rewrite Hsame by done. by split; [exists ts|].
Qed.

(** *** The other calls *)
Lemma accounted_base f w :
  (∀ l a, payload_buffer l !! balance_key a = None → payload_buffer (f l) !! balance_key a = None) →
  accounted w → accounted (update_level b0 f w).
Proof.
  intros Hf (ts & Hts & [Hh Hm Hb]). exists ts. split; [done|]. split; [exact Hh|by rewrite get_update_ne|].
  intros a. rewrite get_update_eq. apply Hf, Hb.
Qed.
Lemma accounted_module f w :
  (∀ l, payload_buffer l = ∅ → payload_buffer (f l) = ∅) → accounted w → accounted (update_level b1 f w).
Proof.
  intros Hf (ts & Hts & [Hh Hm Hb]). exists ts. split; [done|]. split; [exact Hh|rewrite get_update_eq; by apply Hf|].
  intros a. rewrite get_update_ne by done. apply Hb.
Qed.

Lemma reading_keeps {A} (m : M (World C) VMError A) : Frames id m → Keeps accounted m.
Proof. intros Hm w Hw. specialize (Hm w). unfold id in Hm. by rewrite Hm. Qed.
Lemma in_vm_reads {A} (m : M (World C) ModuleError A) : Frames id m → Frames id (in_vm m).
Proof. intros Hm w. unfold in_vm. specialize (Hm w). by destruct (m w). Qed.
Lemma stack_get_reads s k : Frames id (payload_get (Context := stacked_context (C := C) s) k).
Proof.
  intros w. cbn. destruct (find_level _ k s w); [done|]. unfold on_executor. rewrite payload_get_eq. by destruct w.
Qed.
Lemma key_reads key : Frames id (vm_to_module_key (C := C) self key).
Proof.
  unfold vm_to_module_key. destruct (contract_address _); [|apply _].
  apply frames_bind; [apply in_vm_reads, _|]. intros. apply _.
Qed.

Lemma data_not_balance h a : data_key h ≠ balance_key a.
Proof. discriminate. Qed.

Lemma storage_keeps fuel key value :
  Keeps accounted (vm_payload_set (VMContext := VC fuel) key value).
Proof.
  assert (Keeps accounted (let! key := vm_to_module_key self key in
    in_vm (payload_set (Context := base self) key value))) as H; [|subst VC; by destruct fuel].
  apply (yields_bind _ (λ k, ∃ h, k = data_key h)).
  - intros w Hw. pose proof (key_reads key w) as Hk. unfold id in Hk. rewrite Hk. split; [done|].
    unfold vm_to_module_key. destruct (contract_address _); [|done]. unfold in_vm, lift, bind.
    destruct (Context.util_hash _) as [h|]; cbn; [|done]. intros ? [= <-]. by exists h.
  - intros k [h ->] w Hw. unfold in_vm, base. rewrite self_base. cbn. apply accounted_base; [|done].
    intros l a Hl. cbn. rewrite lookup_insert_ne; [done|apply data_not_balance].
Qed.
Lemma event_keeps fuel e : Keeps accounted (vm_emit_event (VMContext := VC fuel) e).
Proof.
  assert (Keeps accounted (in_vm (emit_event (Context := base self) e))) as H; [|subst VC; by destruct fuel].
  intros w Hw. unfold in_vm, base. rewrite self_base. cbn. by apply accounted_base.
Qed.
Lemma read_keeps fuel key : Keeps accounted (vm_payload_get (VMContext := VC fuel) key).
Proof.
  assert (Frames id (let! key := vm_to_module_key self key in in_vm (payload_get (Context := base self) key))) as H.
  { apply frames_bind; [apply key_reads|]. intros. apply in_vm_reads, stack_get_reads. }
  apply reading_keeps in H. subst VC. by destruct fuel.
Qed.
Lemma balance_keeps fuel a : Keeps accounted (module_balance_get (VMContext := VC fuel) a).
Proof.
  assert (Frames id (in_vm (Balance.get_balance (H := modules self) (Some a) tt))) as H.
  { apply in_vm_reads. unfold Balance.get_balance. apply frames_bind; [apply _|]. intros.
    apply frames_bind; [|intros; apply _]. unfold sm_get, raw_get, sv_get, context_get. cbn.
    apply frames_bind; [apply stack_get_reads|]. intros [x|]; [|apply _]. apply frames_bind; [apply _|intros; apply _]. }
  apply reading_keeps in H. subst VC. by destruct fuel.
Qed.
Lemma drain_keeps fuel : Keeps accounted (module_payload_drain_buffer (VMContext := VC fuel)).
Proof.
  assert (Keeps accounted (in_vm (payload_drain_tx_buffer (Context := modules self)))) as H; [|subst VC; by destruct fuel].
  intros w Hw. unfold in_vm, modules. rewrite self_module. cbn. by apply accounted_module.
Qed.
Lemma drain_events_keeps fuel : Keeps accounted (module_drain_events (VMContext := VC fuel)).
Proof.
  assert (Keeps accounted (in_vm (drain_tx_events (Context := modules self)))) as H; [|subst VC; by destruct fuel].
  intros w Hw. unfold in_vm, modules. rewrite self_module. cbn. by apply accounted_module.
Qed.

(** The transfers of a contract are those that may be charged. *)
Lemma transfer_keeps fuel len ptr value :
  is_u64 value → Keeps flat_machine (balance_transfer (VC := VC fuel) len ptr value).
Proof.
  intros Hv. unfold balance_transfer. apply keeps_read. intros st Hst.
  assert (vm_contract_env (VMContext := VC fuel) (context st) = contract_env self) as -> by (subst VC; by destruct fuel).
  rewrite self_env. cbn [contract_address]. destruct address as [x|] eqn:Hx; [|done].
  revert st Hst. apply keeps_bind; [eapply keeps_memory_to_vec; apply _|]. intros r.
  apply transfer_import. split; [done|]. left. cbn. by rewrite Hx.
Qed.
Lemma flat_module_keeps fuel : Keeps flat_machine (apply_module (VC := VC fuel)).
Proof.
  intros st [(ts & Hts & Hst) Hpay]. pose proof Hst as [Hh Hm Hb].
  destruct (apply_module_step fuel st (Balance.ledger_run ts l0).2) as (w & Hw & H1 & H2 & H3); [|done|].
  - apply (holds_same (context st) (executor_context (context st))); [|done]. intros a.
    by rewrite module_read, Hm, lookup_empty.
  - rewrite Hw. split; [|done]. by exists ts.
Qed.
Lemma pay_keeps fuel : Keeps flat_machine (pay (VC := VC fuel)).
Proof.
  unfold pay. apply keeps_read. intros st Hst.
  assert (vm_contract_env (VMContext := VC fuel) (context st) = contract_env self) as -> by (subst VC; by destruct fuel).
  rewrite self_env. cbn [contract_address sender_address]. destruct caller as [y|] eqn:Hy; [|done].
  destruct address as [x|] eqn:Hx; [|done]. rewrite bind_asks. rewrite (proj2 Hst). case_decide as Hp.
  - apply transfer_import; [|done]. split; [done|]. right. cbn. by rewrite Hx, Hy.
  - rewrite bind_ret. by apply flat_module_keeps.
Qed.

(** Every such import keeps the account. *)
Lemma flat_import_keeps fuel f : flat_import f → Keeps flat_machine (import (VC := VC fuel) f).
Proof.
  intros [Hf Hv]. destruct f; try discriminate Hf; cbn [import]; unfold done, balance_transfer_ea;
    try (apply keeps_bind; [first [by apply transfer_keeps|apply pay_keeps]|intros; apply keeps_ret]).
  all: repeat first
    [ step_piece | eapply keeps_catch; by apply transfer_keeps
    | eapply keeps_context; [apply _|]; first [apply read_keeps|apply storage_keeps|apply event_keeps
        |apply balance_keeps|apply drain_keeps|apply drain_events_keeps]
    | step_import | progress unfold_import ].
Qed.

Lemma flat_execute_keeps code mode method params w :
  (∀ m, (compile config code w).1 = Ok m → ∀ func, calls_only flat_import (instance_call m func)) →
  Keeps accounted (provide_code code) → accounted w →
  accounted (Vm.execute (VC := VC (nest_fuel config)) config code mode method params pay_value w).2.
Proof.
  intros Hflat Hc Hw. unfold Vm.execute.
  apply (run_keeps (VC (nest_fuel config)) accounted flat_machine flat_import); [by split| |done| |done].
  - intros f Hf. by apply flat_import_keeps.
  - intros m Hm. by apply (Hflat m).
Qed.

(** After the run, what is in the buffer of the contract goes to the
    executor: no balances. *)
Definition no_balances (items : Updates) : Prop := NoDup items.*1 ∧ ∀ a, balance_key a ∉ items.*1.
Lemma base_drain : Yields accounted no_balances (payload_drain_tx_buffer (Context := base self)).
Proof.
  intros w Hw. unfold base. rewrite self_base. cbn. split; [by apply accounted_base|]. intros ? [= <-].
  split; [apply NoDup_fst_map_to_list|]. destruct Hw as (ts & _ & [_ _ Hb]). intros a Ha.
  apply list_elem_of_fmap in Ha as ([k v] & Ha & Hk%elem_of_map_to_list).
  change (balance_key a = k) in Ha. specialize (Hb a). rewrite Ha in Hb. congruence.
Qed.
Lemma base_apply items : no_balances items → Keeps accounted (payload_apply (Context := base self) items).
Proof.
  intros [Hnd Hno] w (ts & Hts & [Hh Hm Hb]). unfold base. rewrite self_base. cbn.
  destruct (apply_to_executor items w) as (c & -> & Hr). exists ts. split; [done|]. split; [|exact Hm|exact Hb].
  apply (holds_ext (executor_context w)); [|done]. intros a. cbn [with_executor executor_context].
  rewrite Hr by done. by rewrite not_elem_of_list_to_map_1.
Qed.
Lemma base_events : Keeps accounted (drain_tx_events (Context := base self)).
Proof. intros w Hw. unfold base. rewrite self_base. cbn. by apply accounted_base. Qed.
Lemma base_apply_events items : Keeps accounted (stacked_apply_events (base_context self) items).
Proof.
  intros w Hw. unfold stacked_apply_events. rewrite self_base. cbn [second_last older last].
  apply for_each_inv; [|done]. intros e w' _ (ts & Hts & [Hh Hm Hb]). unfold on_executor. rewrite emit_event_eq.
  exists ts. split; [done|]. split; [by apply Balance.holds_log|exact Hm|exact Hb].
Qed.
Lemma converted_keeps {A} (m : M (World C) ModuleError A) : Keeps accounted m → Keeps accounted (in_module (in_vm m)).
Proof. intros Hm w Hw. unfold in_module, in_vm. specialize (Hm w Hw). by destruct (m w). Qed.
Lemma converted_yields {A} (R : A → Prop) (m : M (World C) ModuleError A) :
  Yields accounted R m → Yields accounted R (in_module (in_vm m)).
Proof.
  intros Hm w Hw. unfold in_module, in_vm. destruct (Hm w Hw) as [H1 H2].
  destruct (m w) as [[a|e] w']; cbn in *; (split; [done|]); [|done]. intros ? [= <-]. by apply H2.
Qed.

Lemma settle_accounted r w : accounted w → accounted (ContractModule.settle self r w).2.
Proof.
  revert w. change (Keeps accounted (ContractModule.settle self r)). unfold ContractModule.settle. destruct r as [r|e].
  - eapply yields_bind; [apply converted_yields, base_drain|]. intros items Hi.
    apply keeps_bind; [by apply converted_keeps, base_apply|]. intros.
    apply keeps_bind; [apply converted_keeps, base_events|]. intros.
    apply keeps_bind; [apply converted_keeps, base_apply_events|]. intros. apply keeps_ret.
  - apply keeps_bind; [eapply yields_keeps, converted_yields, base_drain|]. intros.
    apply keeps_bind; [apply converted_keeps, base_events|]. intros. apply keeps_throw.
Qed.
End Flat.

(** ** The execution of such a contract *)
Section FlatExecution.
Context {SC : Scale} {UT : Util} {WL : WasmLib} {SE : Serialize Balance.Transferred}.
Context {SA : Serialize (ContractModule.ContractProposal Admin)}.
Context {SQ : Serialize (ContractModule.ContractProposal Hash)}.
Context {C : Type} `{CL : ContextLaws C}.

(** The code that is stored for the contract calls no other contract. *)
Definition flat_contract (address : Address) (c : C) : Prop :=
  ∀ h config m w func, executor_context w = c → (inner_get_code_hash address None c).1 = Ok (Some h) →
  (compile config (code_provider (C := C) ContractModule.contract_not_found address h) w).1 = Ok m →
  calls_only flat_import (instance_call m func).

(** A third party never loses. *)
Lemma charges_spare caller address pay ts a l :
  Forall (charge caller address pay) ts → Some a ≠ caller → Some a ≠ address →
  (l a ≤ (Balance.ledger_run ts l).2 a)%Z.
Proof.
  intros Hts Hc Ha. revert l. induction Hts as [|[s p] ts [Hv Hch] _ IH]; intros l; [done|]. cbn.
  destruct (Balance.ledger_transfer s p l) as [r l1] eqn:Ht. specialize (IH l1).
  destruct (Balance.ledger_run ts l1) as [rs l2]. cbn in *. etrans; [|exact IH].
  assert (l1 = (Balance.ledger_transfer s p l).2) as -> by by rewrite Ht. unfold Balance.ledger_transfer.
  destruct s as [s|]; [|done]. repeat (case_decide; [done|]). cbn. unfold Balance.ledger_set.
  assert (a ≠ s) by naive_solver. unfold is_u64 in *. repeat case_decide; subst; lia || done.
Qed.

Lemma charges_wf caller address pay ts : Forall (charge caller address pay) ts → Balance.wf_transfers ts.
Proof. intros Hts. eapply Forall_impl; [exact Hts|]. by intros t []. Qed.

Lemma fresh_context env (c : C) : ∃ self w,
  vm_context_new env {| executor_context := c; levels := ∅; next_level := 0; cells := ∅; next_cell := 0 |} = (Ok self, w) ∧
  contract_env self = env ∧ base_context self = {| older := []; top := 0 |} ∧
  module_context self = {| older := [0]; top := 1 |} ∧ executor_context w = c ∧
  ∀ i, payload_buffer (get_level i w) = ∅.
Proof.
  eexists _, _. split_and!; [done..|]. intros i. unfold get_level. cbn.
  destruct (decide (i = 1)) as [->|H1]; [done|]. rewrite lookup_insert_ne by done.
  destruct (decide (i = 0)) as [->|H2]; [done|]. by rewrite lookup_insert_ne.
Qed.

Lemma execute_accounted c l s params :
  Balance.holds c l → is_u64 (ContractModule.ep_pay_value params) →
  flat_contract (ContractModule.ep_contract_address params) c →
  ∃ ts, Forall (charge (Some s) (Some (ContractModule.ep_contract_address params)) (ContractModule.ep_pay_value params)) ts ∧
    Balance.holds (ContractModule.execute (Some s) params c).2 (Balance.ledger_run ts l).2.
Proof.
  intros Hl Hpay Hflat. set (address := ContractModule.ep_contract_address params) in *.
  set (pay := ContractModule.ep_pay_value params) in *.
  assert (∃ ts, Forall (charge (Some s) (Some address) pay) ts ∧ Balance.holds c (Balance.ledger_run ts l).2) as Hnone
    by by exists [].
  unfold ContractModule.execute. cbn [ok_or]. rewrite bind_lift_ok. fold address.
  pose proof (code_hash_reads address None c) as Hr. unfold flat_contract in Hflat. unfold bind at 1.
  destruct (inner_get_code_hash address None c) as [[[h|]|e] c1]; cbn [snd fst] in *; subst c1; try exact Hnone.
  cbn [ok_or]. rewrite bind_lift_ok. unfold ContractModule.inner_vm_execute. unfold bind at 1.
  pose proof (vm_config_reads c) as Hcfg.
  destruct (ContractModule.inner_get_vm_config c) as [[config|e] c1]; cbn [snd] in Hcfg; subst c1; [|exact Hnone].
  unfold ContractModule.in_world. destruct (fresh_context (Build_VMContractEnv (Some address) (Some s)) c)
    as (self & w & Hnew & Henv & Hbase & Hmod & Hexec & Hlev).
  rewrite (bind_ok _ _ self _ w) by (unfold in_module; by rewrite Hnew).
  assert (accounted (Some s) (Some address) pay l 0 1 w) as Hw.
  { exists []. split; [done|]. split; [by rewrite Hexec|by rewrite Hlev|intros a; by rewrite Hlev]. }
  assert (Keeps (accounted (Some s) (Some address) pay l 0 1)
    (provide_code (code_provider (C := C) ContractModule.contract_not_found address h))) as Hcode.
  { apply reading_keeps. simpl. apply frames_bind; [|intros; apply _]. apply in_vm_reads. intros w1.
    unfold on_executor. pose proof (code_reads address None (executor_context w1)) as Hcr.
    destruct (inner_get_code address None (executor_context w1)). cbn in Hcr. subst. by destruct w1. }
  pose proof (flat_execute_keeps config (Some s) (Some address) pay Hpay l self Henv 0 1 Hbase Hmod ltac:(lia)
    (code_provider ContractModule.contract_not_found address h) ModeCall (ContractModule.ep_method params)
    (ContractModule.ep_params params) w) as Hrun.
  unfold bind at 1, in_module.
  destruct (Vm.execute _ _ _ _ _ _ w) as [r w1]. cbn [fst snd] in Hrun.
  assert (accounted (Some s) (Some address) pay l 0 1 w1) as Hw1.
  { apply Hrun; [|exact Hcode|done]. intros m Hm func. by apply (Hflat h config m w). }
  apply (settle_accounted (Some s) (Some address) pay l self 0 1 Hbase ltac:(lia) (map_err vm_to_module_error r)) in Hw1.
  destruct (ContractModule.settle self (map_err vm_to_module_error r) w1) as [r' w2].
  destruct Hw1 as (ts & Hts & [Hh _ _]). by exists ts.
Qed.

(** C7: the execution of a contract that calls no other one moves money as
    the ledger of the balance module does, and charges nobody but its caller
    and the contract: there is a run of transfers of the ledger, each of the
    contract's own money or of the payment of the caller to the contract, after
    which the state holds exactly the ledger that they lead to.  So no money
    is made or lost, whatever fails, and no third party loses any. *)
Theorem flat_execution_ledger c l s params :
  Balance.holds c l → is_u64 (ContractModule.ep_pay_value params) →
  flat_contract (ContractModule.ep_contract_address params) c →
  ∃ ts, Forall (charge (Some s) (Some (ContractModule.ep_contract_address params)) (ContractModule.ep_pay_value params)) ts ∧
    let l' := (Balance.ledger_run ts l).2 in
    Balance.holds (ContractModule.execute (Some s) params c).2 l' ∧
    (∀ accounts, NoDup accounts → Forall (Balance.among accounts) ts →
      Balance.supply accounts l' = Balance.supply accounts l) ∧
    (∀ a, a ≠ s → a ≠ ContractModule.ep_contract_address params → (l a ≤ l' a)%Z).
Proof.
  intros Hl Hpay Hflat. destruct (execute_accounted c l s params Hl Hpay Hflat) as (ts & Hts & Hh).
  exists ts. split; [done|]. split; [done|]. split.
  - intros accounts Hnd Hin. by apply Balance.ledger_run_supply.
  - intros a Hs Ha. eapply charges_spare; [exact Hts| |]; congruence.
Qed.
End FlatExecution.

(** ** Concrete contracts

    An engine whose modules are named by their code, and contracts over an
    empty chain. *)
Module ContractSamples.
Import Samples.

Definition transfer_to_carol (value : Z) (p : Prog) : Prog :=
  PCall (IBalanceTransfer 1 0 value) (b "C") (λ _ _, p).
(** A call of the contract with a name of one byte. *)
Definition call_contract (name : string) (pay_value : Z) (p : Prog) : Prog :=
  PCall (IContractExecute 1 0 1 1 0 0 pay_value 0) (b (name +:+ "m")) (λ _ _, p).

(** The code: to be paid, to be paid twice, to pay carol, to call Y and then
    pay carol, to call Y and then Z, to read a balance. *)
Definition program (code : bytes) : Prog :=
  if decide (code = b "p") then PCall IPay [] (λ _ _, PReturn)
  else if decide (code = b "d") then PCall IPay [] (λ _ _, PCall IPay [] (λ _ _, PReturn))
  else if decide (code = b "t") then transfer_to_carol 5 PReturn
  else if decide (code = b "n") then call_contract "Y" 5 (transfer_to_carol 10 PReturn)
  else if decide (code = b "s") then call_contract "Y" 0 (call_contract "Z" 0 PReturn)
  else if decide (code = b "e") then
    PCall (IContractExecuteEa 1 0 1 1 0 0 0 0 1) (b "Y" ++ [Byte.xff]) (λ _ _, PReturn)
  else if decide (code = b "z") then PTrap (WRuntimeError (WInvokeError (WOtherInvoke "unreachable")))
  else PReturn.

#[export] Instance sample_engine : WasmLib := {|
  WasmModule := bytes;
  module_cache _ := None;
  pre_compile_and_compile _ code := Ok code;
  instance_call code _ := program code;
  memory_new _ := Ok tt;
  panic_text := "panic";
|}.

(** A contract, and the money of an account. *)
Definition deploy (address : Address) (code' : string) : M ExecContext ModuleError unit :=
  do! sm_set version address 1%Z in
  do! sm_set code (address, 1%Z) (b code') in
  sm_set code_hash (address, 1%Z) (b code').
Definition no_limits : ContractModule.InitParams := ContractModule.Build_InitParams None None None None None None.

(** X has the given code, Y asks to be paid, Z pays carol five. *)
Definition setup (code' : string) : M ExecContext ModuleError unit :=
  do! ContractModule.init None no_limits in
  do! deploy (b "X") code' in do! deploy (b "Y") "p" in do! deploy (b "Z") "t" in
  do! sm_set Balance.balance alice 100%Z in
  do! sm_set Balance.balance (b "X") 100%Z in
  do! sm_set Balance.balance (b "Y") 100%Z in
  sm_set Balance.balance (b "Z") 100%Z.
Definition contracts (code' : string) : ExecContext := (setup code' (empty_context 0)).2.
Definition balance_of (c : ExecContext) (a : Address) : Z :=
  match (Balance.get_balance (Some a) tt c).1 with Ok z => z | Err _ => (-1)%Z end.
Definition balances (c : ExecContext) : list Z := balance_of c <$> [alice; b "X"; b "Y"; b "Z"; carol].

(** Alice executes X, with a payment of ten. *)
Definition executing (code' : string) : ModuleResult bytes * ExecContext :=
  ContractModule.execute (Some alice) (ContractModule.Build_ExecuteParams (b "X") "m" [] 10) (contracts code').

(** Every balance of these states can be read. *)
Definition readable (c : ExecContext) : Prop := ∃ l, Balance.holds c l.
Lemma set_value {V} (v : StorageValue V) x :
  sv_meta_module v = false → (∀ a, sv_key (entry Balance.balance a) ≠ sv_key v) → Keeps readable (sv_set v x).
Proof.
  intros Hm Hk c [l Hl]. exists l. rewrite sv_set_eq. apply (holds_ext c); [|done].
  intros a. cbn [snd]. unfold sv_put. rewrite Hm. apply read_put_ne. specialize (Hk a). congruence.
Qed.
Lemma set_entry {K V} (m : StorageMap K V) k x :
  sm_meta_module m = false → (∀ a, sv_key (entry Balance.balance a) ≠ sv_key (entry m k)) →
  Keeps readable (sm_set m k x).
Proof. intros Hm Hk. by apply (set_value (entry m k)). Qed.
Lemma set_balance a z : is_u64 z → Keeps readable (sm_set Balance.balance a z).
Proof. intros Hz c [l Hl]. rewrite sm_set_eq. eexists. by apply Balance.holds_put. Qed.
Lemma deploy_readable a c : Keeps readable (deploy a c).
Proof.
  unfold deploy. repeat (apply keeps_bind; [apply set_entry; [done|intros; discriminate]|intros]).
  apply set_entry; [done|intros; discriminate].
Qed.
Lemma init_readable : Keeps readable (ContractModule.init None no_limits).
Proof.
  unfold ContractModule.init. apply keeps_bind; [apply keeps_asks|intros e]. case_decide; [apply keeps_throw|].
  repeat (apply keeps_bind; [apply set_value; [done|intros; discriminate]|intros]).
  apply set_value; [done|intros; discriminate].
Qed.
Lemma setup_readable code' : Keeps readable (setup code').
Proof.
  apply keeps_bind; [apply init_readable|intros]. do 3 (apply keeps_bind; [apply deploy_readable|intros]).
  do 3 (apply keeps_bind; [by apply set_balance|intros]). by apply set_balance.
Qed.
Lemma contracts_readable code' : ∃ l, Balance.holds (contracts code') l.
Proof.
  apply setup_readable. exists (λ _, 0%Z). intros a. exists None. split; [apply read_empty|done].
Qed.

Lemma paying_code : (inner_get_code (b "X") None (contracts "t")).1 = Ok (Some (b "t")).
Proof. vm_compute. reflexivity. Qed.
Lemma paying_flat : flat_contract (b "X") (contracts "t").
Proof.
  intros h config m w func Hw _ Hm.
  assert (m = b "t") as ->.
  { revert Hm. unfold compile. cbn [module_cache sample_engine]. unfold bind. cbn [provide_code code_provider].
    unfold bind, in_vm, on_executor. rewrite Hw. pose proof paying_code as Hc.
    destruct (inner_get_code (b "X") None (contracts "t")) as [r c]. cbn in Hc. subst r. cbn. by intros [= <-]. }
  cbn [instance_call sample_engine]. apply only_call; [by split|]. intros. apply only_return.
Qed.

Lemma flat_execution_ledger_witness :
  ∃ l ts, Forall (charge (Some alice) (Some (b "X")) 10) ts ∧
    Balance.holds (executing "t").2 (Balance.ledger_run ts l).2.
Proof.
  destruct (contracts_readable "t") as [l Hl].
  destruct (flat_execution_ledger (contracts "t") l alice (ContractModule.Build_ExecuteParams (b "X") "m" [] 10)
    Hl ltac:(done) paying_flat) as (ts & Hts & Hh & _).
  exists l, ts. split; [exact Hts|exact Hh].
Defined.

Lemma nesting_ends_witness :
  run_contract (C := ExecContext) default_config (nest_fuel default_config + 3)
    (Build_VMContractEnv (Some (b "X")) (Some alice)) ContractModule.contract_not_found (b "X") (b "n")
    ModeCall "m" [] 10 (contracts "n") =
  run_contract default_config (nest_fuel default_config)
    (Build_VMContractEnv (Some (b "X")) (Some alice)) ContractModule.contract_not_found (b "X") (b "n")
    ModeCall "m" [] 10 (contracts "n").
Proof. apply (nesting_ends default_config); done. Defined.

(** Alice creates a contract that is paid five as it is made. *)
Definition creation : ContractModule.CreateParams := ContractModule.Build_CreateParams (b "p") "m" [] 5.
Definition created_address : Address := b "t".
Definition created_state : ExecContext := (ContractModule.create (Some alice) creation (contracts "p")).2.
Lemma creation_ok : (ContractModule.create (Some alice) creation (contracts "p")).1 = Ok created_address.
Proof. vm_compute. reflexivity. Qed.
Lemma create_registers_witness :
  ContractModule.get_version None (ContractModule.Build_GetVersionParams created_address) created_state =
    (Ok (Some 1%Z), created_state) ∧
  ContractModule.get_code None (ContractModule.Build_GetCodeParams created_address None) created_state =
    (Ok (Some (b "p")), created_state).
Proof.
  destruct (create_registers alice creation (contracts "p") created_address created_state
    (outcome_eq _ _ creation_ok)) as (Hv & Hc & _).
  split; [exact Hv|exact Hc].
Defined.

(** Alice and bob administrate X, alice has proposed a code. *)
Definition council : Admin := {| threshold := 2; members := [(alice, 1%Z); (bob, 1%Z)] |}.
Definition proposed : ExecContext :=
  ((do! sm_set ContractModule.admin (b "X") council in
    ContractModule.update_code (Some alice) (ContractModule.Build_UpdateCodeParams (b "X") (b "t")))
   (contracts "p")).2.
Definition open_proposal : ContractModule.UpdateCodeProposal := Build_Proposal 1 (b "t") [alice].
Lemma council_votes :
  voting (ContractModule.code_poll (b "X")) (Some bob) 1 proposed = Ok (bob, open_proposal, (2%Z, collect (members council))).
Proof. vm_cast_no_check (@eq_refl (ModuleResult (Address * Proposal bytes * (Z * gmap Address Z))) (Ok (bob, open_proposal, (2%Z, collect (members council))))). Qed.
Lemma first_version : sv_read (entry version (b "X")) proposed = Ok (Some 1%Z).
Proof. vm_compute. reflexivity. Qed.
Lemma code_vote_outcome_witness :
  ∃ c', ContractModule.update_code_vote (Some bob) (ContractModule.Build_UpdateCodeVoteParams (b "X") 1) proposed = (Ok tt, c') ∧
    sv_read (entry version (b "X")) c' = Ok (Some 2%Z) ∧ sv_read (entry code (b "X", 2%Z)) c' = Ok (Some (b "t")).
Proof.
  destruct (code_vote_outcome proposed bob (b "X") 1 open_proposal 2 (collect (members council)) (b "t") 1
    council_votes eq_refl first_version) as (c' & Hrun & Hout).
  exists c'. split; [exact Hrun|].
  rewrite decide_True in Hout by (by vm_compute). destruct Hout as (Hv & Hc & _). split; [exact Hv|exact Hc].
Defined.

(** ** What the code does not guard against *)

(** Calls between contracts make money.  X calls Y, which is paid five by
    X, and then pays carol ten: the payment to carol is written to the
    executor's context, but what the nested call left in the buffer of X is
    applied over it at the end, so that X is charged five only. *)
Theorem nested_payment_makes_money :
  balances (contracts "n") = [100; 100; 100; 100; 0]%Z ∧
  is_ok (executing "n").1 = true ∧
  balances (executing "n").2 = [100; 95; 105; 100; 10]%Z.
Proof. split_and!; vm_compute; reflexivity. Qed.

(** The context of the first nested call serves all later ones.  X calls Y,
    and then Z: the code of Z runs with the address of Y, so that what Z pays
    to carol is taken from Y. *)
Theorem second_callee_spends_first :
  balances (contracts "s") = [100; 100; 100; 100; 0]%Z ∧
  is_ok (executing "s").1 = true ∧
  balances (executing "s").2 = [100; 100; 95; 100; 5]%Z.
Proof. split_and!; vm_compute; reflexivity. Qed.

(** A contract that asks to be paid twice charges the caller twice. *)
Lemma payment_repeats :
  balances (executing "p").2 = [90; 110; 100; 100; 0]%Z ∧ balances (executing "d").2 = [80; 120; 100; 100; 0]%Z.
Proof. split; vm_compute; reflexivity. Qed.

(** An error-aware call that fails before there is a nested context panics, and
    a trap in the code of a contract is no error of the contract: both are
    system errors, which end the batch of transactions. *)
Lemma traps_are_system_errors :
  (∃ e, (executing "e").1 = Err (System e)) ∧ ∃ e, (executing "z").1 = Err (System e).
Proof. split; eexists; vm_compute; reflexivity. Qed.

(** The errors without a message are read back from their texts, the message
    of a panic is not: it gains a space each time. *)
Lemma plain_errors_read_back : Forall (λ e, contract_error_from (contract_error_text e) = e) plain_errors.
Proof. repeat (apply Forall_cons; split; [reflexivity|]). constructor. Qed.
Lemma panic_message_grows :
  contract_error_from (contract_error_text (CPanic "x")) = CPanic " x" ∧
  contract_error_text (CPanic " x") = "Panic:  x".
Proof. split; reflexivity. Qed.
End ContractSamples.
