(* ===== verification/TokenContract.v ===== *)
(** * TokenContract

    [core/node/vm/contract-samples/token]: a contract that is written with the
    library, as an instance of what runs on the machine; that its calls refine
    those of a ledger with allowances; and that a transfer to oneself makes
    tokens. *)
From S2P Require Import Prelude Codec Types Context ExecutorContext Balance Vm ContractSdk ContractVm ContractLedger.
Import Vm ContractSdk.

Module Token.

Record InitParams := { ip_name : string; ip_symbol : string; ip_decimals : Z; ip_total_supply : Balance }.
Record BalanceParams := { bp_address : Address }.
Record TransferParams := { tp_recipient : Address; tp_value : Balance }.
Record ApproveParams := { ap_spender : Address; ap_value : Balance }.
Record AllowanceParams := { al_owner : Address; al_spender : Address }.
Record TransferFromParams := { tf_sender : Address; tf_recipient : Address; tf_value : Balance }.
Record TransferEvent := { te_sender : Address; te_recipient : Address; te_value : Balance }.
Record ApprovalEvent := { ae_owner : Address; ae_spender : Address; ae_value : Balance }.
(** [EmptyParams] of the primitives, and [u8]. *)
Inductive EmptyParams := Build_EmptyParams.
Record Decimals := { decimals_value : Z }.

(** The derived [Serialize] and [Deserialize]. *)
Class TokenJson : Type := {
  json_string :: Json string;
  json_decimals :: Json Decimals;
  json_balance :: Json Balance;
  json_unit :: Json unit;
  json_transfer :: Json (ContractEvent TransferEvent);
  json_approval :: Json (ContractEvent ApprovalEvent);
  from_init : bytes → option InitParams;
  from_empty : bytes → option EmptyParams;
  from_balance : bytes → option BalanceParams;
  from_transfer : bytes → option TransferParams;
  from_approve : bytes → option ApproveParams;
  from_allowance : bytes → option AllowanceParams;
  from_transfer_from : bytes → option TransferFromParams;
}.

(** [struct Contract]; the utilities have no state. *)
Record Contract := {
  context : SdkContext;
  name : StorageValue string;
  symbol : StorageValue string;
  decimals : StorageValue Decimals;
  total_supply : StorageValue Balance;
  balance : StorageMap Balance;
  allowance : StorageMap Balance;
}.

Section Token.
Context {TJ : TokenJson} {F : Type → Type} {L : SdkLib F}.

Definition new : F Contract :=
  context ← context_new;
  mret {| context := context;
          name := value_new _ (b "name"); symbol := value_new _ (b "symbol"); decimals := value_new _ (b "decimals");
          total_supply := value_new _ (b "totalSupply");
          balance := map_new _ (b "balance"); allowance := map_new _ (b "allowance") |}.

(** The caller, or an error. *)
Definition sender (self : Contract) : F Address :=
  of_result (ok_or CUnsigned (sender_address (contract_env (context self)))).

Definition init (self : Contract) (params : InitParams) : F unit :=
  _ ← value_set (name self) (ip_name params);
  _ ← value_set (symbol self) (ip_symbol params);
  _ ← value_set (decimals self) {| decimals_value := ip_decimals params |};
  _ ← value_set (total_supply self) (ip_total_supply params);
  sender_address ← sender self;
  map_set (balance self) sender_address (ip_total_supply params).

Definition get_name (self : Contract) (_ : EmptyParams) : F string := v ← value_get (name self); expect v.
Definition get_symbol (self : Contract) (_ : EmptyParams) : F string := v ← value_get (symbol self); expect v.
Definition get_decimals (self : Contract) (_ : EmptyParams) : F Decimals := v ← value_get (decimals self); expect v.
Definition get_total_supply (self : Contract) (_ : EmptyParams) : F Balance :=
  v ← value_get (total_supply self); expect v.
Definition get_balance (self : Contract) (params : BalanceParams) : F Balance :=
  v ← map_get (balance self) (bp_address params);
  mret (default 0%Z v).

Definition inner_transfer (self : Contract) (sender_address recipient_address : Address) (value : Balance) : F unit :=
  _ ← validate_address sender_address;
  _ ← validate_address recipient_address;
  sender_balance ← map_get (balance self) sender_address;
  let sender_balance := default 0%Z sender_balance in
  recipient_balance ← map_get (balance self) recipient_address;
  let recipient_balance := default 0%Z recipient_balance in
  if decide (value > sender_balance)%Z then fails (contract_error_from "Insufficient balance")
  else
    let '(sender_balance, overflow) := overflowing_sub sender_balance value in
    if overflow : bool then fails (contract_error_from "U64 overflow")
    else
      let '(recipient_balance, overflow) := overflowing_add recipient_balance value in
      if overflow : bool then fails (contract_error_from "U64 overflow")
      else
        _ ← map_set (balance self) sender_address sender_balance;
        _ ← map_set (balance self) recipient_address recipient_balance;
        emit_event "Transfer" {| te_sender := sender_address; te_recipient := recipient_address; te_value := value |}.

Definition allowance_key (owner_address spender_address : Address) : bytes :=
  owner_address ++ b "_" ++ spender_address.
Definition inner_approve (self : Contract) (owner_address spender_address : Address) (value : Balance) : F unit :=
  _ ← validate_address owner_address;
  _ ← validate_address spender_address;
  _ ← map_set (allowance self) (allowance_key owner_address spender_address) value;
  emit_event "Approval" {| ae_owner := owner_address; ae_spender := spender_address; ae_value := value |}.

Definition transfer (self : Contract) (params : TransferParams) : F unit :=
  sender_address ← sender self;
  inner_transfer self sender_address (tp_recipient params) (tp_value params).
Definition approve (self : Contract) (params : ApproveParams) : F unit :=
  owner_address ← sender self;
  inner_approve self owner_address (ap_spender params) (ap_value params).
Definition get_allowance (self : Contract) (params : AllowanceParams) : F Balance :=
  _ ← validate_address (al_owner params);
  _ ← validate_address (al_spender params);
  v ← map_get (allowance self) (allowance_key (al_owner params) (al_spender params));
  mret (default 0%Z v).
Definition transfer_from (self : Contract) (params : TransferFromParams) : F unit :=
  spender_address ← sender self;
  v ← map_get (allowance self) (allowance_key (tf_sender params) spender_address);
  let allowed := default 0%Z v in
  if decide (allowed < tf_value params)%Z then fails (contract_error_from "Exceed allowance")
  else
    _ ← inner_transfer self (tf_sender params) (tf_recipient params) (tf_value params);
    let '(allowed, overflow) := overflowing_sub allowed (tf_value params) in
    if overflow : bool then fails (contract_error_from "U64 overflow")
    else inner_approve self (tf_sender params) spender_address allowed.

(** A method without a validator that takes no payment. *)
Definition method {P O} {J : Json O} (ident : string) (from : bytes → option P) (body : Contract → P → F O) :
    ModuleMethod F Contract :=
  {| method_ident := ident; payable := false; params_from_slice := from; output_to_vec := to_vec;
     validate_ident := None; method_body := body |}.
Definition token : ContractSdk.Contract F Contract := {|
  ContractSdk.new := new;
  init_methods := [method "init" from_init init];
  call_methods := [method "name" from_empty get_name; method "symbol" from_empty get_symbol;
    method "decimals" from_empty get_decimals; method "total_supply" from_empty get_total_supply;
    method "balance" from_balance get_balance; method "transfer" from_transfer transfer;
    method "approve" from_approve approve; method "allowance" from_allowance get_allowance;
    method "transfer_from" from_transfer_from transfer_from];
|}.
End Token.
End Token.
Import Token.

(** ** The token runs as it means *)
Section Runs.
Context {TJ : TokenJson} {TC : Toolchain} {TL : ToolchainLaws} {WL : WasmLib} {X : Type} {VC : VMContext X}.
Context (cfg : VMConfig) {SL : ShareLimits cfg} (meth : string) (prms : bytes) (pv : Balance).
#[local] Instance meaning : SdkLib (Meaning.Act X) := Meaning.sdk_meaning cfg pv.
Abbreviation does := (Implements cfg meth prms pv None).

(** The steps of a method, down to a branch. *)
Ltac bound := lazymatch goal with
  | |- Implements _ _ _ _ _ (_ ≫= _) _ => apply implements_bind; [apply _|intros ?; bound]
  | |- Implements _ _ _ _ _ (match ?x with _ => _ end) _ => idtac
  | |- _ => apply _
  end.

#[local] Instance value_get_does {T} {J : Json T} (v : StorageValue T) : does (value_get v) (value_get v).
Proof. apply _. Qed.
#[local] Instance map_get_does {T} {J : Json T} (m : StorageMap T) k : does (map_get m k) (map_get m k).
Proof. apply _. Qed.
#[local] Instance value_set_does {T} {J : Json T} (v : StorageValue T) x : does (value_set v x) (value_set v x).
Proof. apply _. Qed.
#[local] Instance map_set_does {T} {J : Json T} (m : StorageMap T) k x : does (map_set m k x) (map_set m k x).
Proof. apply _. Qed.

#[local] Instance inner_transfer_does self a r v : does (inner_transfer self a r v) (inner_transfer self a r v).
Proof.
  unfold inner_transfer. bound. case_decide; [apply _|].
  unfold overflowing_sub, overflowing_add. repeat case_bool_decide; bound.
Qed.
#[local] Instance inner_approve_does self a r v : does (inner_approve self a r v) (inner_approve self a r v).
Proof. unfold inner_approve. bound. Qed.
#[local] Instance sender_does self : does (sender self) (sender self).
Proof. unfold sender. bound. Qed.
#[local] Typeclasses Opaque inner_transfer inner_approve sender.
#[local] Instance transfer_from_does self p : does (transfer_from self p) (transfer_from self p).
Proof.
  unfold transfer_from. bound. case_decide; [apply _|].
  apply implements_bind; [apply _|intros ?]. unfold overflowing_sub. case_bool_decide; bound.
Qed.
Lemma token_does : contract_does cfg meth prms pv None token token.
Proof.
  split; [unfold new; bound|..]; repeat (apply Forall2_cons; split; [apply method_means; [done|intros; bound]|]); apply Forall2_nil_2.
Qed.
End Runs.

(** ** A ledger with allowances *)
Record TokenLedger := {
  tokens : Address → Z;
  allowed : Address → Address → Z;
}.
Inductive TokenCall :=
| CallTransfer (p : TransferParams)
| CallApprove (p : ApproveParams)
| CallTransferFrom (p : TransferFromParams).

(** The value of one key is changed. *)
Definition update {K} `{EqDecision K} (k : K) (z : Z) (f : K → Z) : K → Z := λ k', if decide (k' = k) then z else f k'.

Section Ledger.
(** Whose address is valid. *)
Variable valid : Address → bool.

(** The balance of the recipient is the one from before the sender's is
    charged, as the contract reads it. *)
Definition ledger_transfer (s r : Address) (v : Z) (l : TokenLedger) : option TokenLedger :=
  if valid s && valid r then
    if decide (v ≤ tokens l s ∧ tokens l r + v < 2 ^ 64)%Z
    then Some {| tokens := update r (tokens l r + v)%Z (update s (tokens l s - v)%Z (tokens l)); allowed := allowed l |}
    else None
  else None.
Definition ledger_approve (o s : Address) (v : Z) (l : TokenLedger) : option TokenLedger :=
  if valid o && valid s
  then Some {| tokens := tokens l; allowed := λ o', if decide (o' = o) then update s v (allowed l o') else allowed l o' |}
  else None.
Definition ledger_call (caller : Address) (call : TokenCall) (l : TokenLedger) : option TokenLedger :=
  match call with
  | CallTransfer p => ledger_transfer caller (tp_recipient p) (tp_value p) l
  | CallApprove p => ledger_approve caller (ap_spender p) (ap_value p) l
  | CallTransferFrom p =>
      let a := allowed l (tf_sender p) caller in
      if decide (a < tf_value p)%Z then None
      else ledger_transfer (tf_sender p) (tf_recipient p) (tf_value p) l ≫=
           ledger_approve (tf_sender p) caller (a - tf_value p)%Z
  end.
End Ledger.

(** ** The storage of a contract *)

(** What a machine's context promises to a contract: the cells of its storage
    are apart, and its calls leave each other alone. *)
Class StorageLaws (X : Type) {VC : VMContext X} : Type := {
  cell : X → bytes → result VMError (option bytes);
  fill : bytes → option bytes → X → X;
  logged : Event → X → X;
  get_cell key x : vm_payload_get key x = (cell x key, x);
  set_fill key v x : vm_payload_set key v x = (Ok tt, fill key v x);
  emit_logged e x : vm_emit_event e x = (Ok tt, logged e x);
  cell_fill_eq key v x : cell (fill key v x) key = Ok v;
  cell_fill_ne key key' v x : key ≠ key' → cell (fill key v x) key' = cell x key';
  cell_logged e x key : cell (logged e x) key = cell x key;
}.
(** Valid addresses have one length; any other is refused. *)
Class AddressLaws (X : Type) {VC : VMContext X} : Type := {
  address_length : nat;
  valid_length a : vm_validate_address a = Ok tt → length a = address_length;
  invalid_refused a e : vm_validate_address a = Err e → ∃ e', e = VApplication e';
}.
(** A [u64] is read back from its digits; records of numbers and texts can be
    written. *)
Class TokenJsonLaws `{TokenJson} : Prop := {
  balance_json z : is_u64 z → ∃ bs, to_vec z = Some bs ∧ from_slice_option bs = Some (Some z) ∧ length bs ≤ 20;
  unit_json : ∃ bs, to_vec tt = Some bs;
  transfer_json e : ∃ bs, to_vec (T := ContractEvent TransferEvent) e = Some bs;
  approval_json e : ∃ bs, to_vec (T := ContractEvent ApprovalEvent) e = Some bs;
  transfer_value bs p : from_transfer bs = Some p → is_u64 (tp_value p);
  approve_value bs p : from_approve bs = Some p → is_u64 (ap_value p);
  transfer_from_value bs p : from_transfer_from bs = Some p → is_u64 (tf_value p);
}.

Section Refinement.
Context {TJ : TokenJson} {JL : TokenJsonLaws} {TC : Toolchain} {TL : ToolchainLaws} {WL : WasmLib}
  {X : Type} {VC : VMContext X} {ST : StorageLaws X} {AL : AddressLaws X}.
Context (cfg : VMConfig) {SL : ShareLimits cfg} (pv : Balance).
Hypothesis long_enough : (20 ≤ max_share_value_len cfg)%Z.
#[local] Instance token_meaning : SdkLib (Meaning.Act X) := Meaning.sdk_meaning cfg pv.

Definition valid (a : Address) : bool := is_ok (vm_validate_address a).
Definition balance_cell (a : Address) : bytes := entry_key (map_new Balance (b "balance")) a.
Definition allowance_cell (o s : Address) : bytes := entry_key (map_new Balance (b "allowance")) (allowance_key o s).

(** A cell holds a number; without a value it is zero. *)
Definition number_in (x : X) (key : bytes) (z : Z) : Prop :=
  is_u64 z ∧ ∃ v, cell x key = Ok v ∧
  match v with
  | None => z = 0%Z
  | Some bs => from_slice_option bs = Some (Some z) ∧ (Z.of_nat (length bs) ≤ max_share_value_len cfg)%Z
  end.
(** The storage holds the ledger. *)
Record holds (x : X) (l : TokenLedger) : Prop := {
  holds_tokens a : number_in x (balance_cell a) (tokens l a);
  holds_allowed o s : valid o = true → valid s = true → number_in x (allowance_cell o s) (allowed l o s);
  holds_readable o s : ∃ z, number_in x (allowance_cell o s) z;
}.

(** *** Reading and writing *)
Lemma stored_number x key z : number_in x key z →
  ∃ v, storage_get (F := Meaning.Act X) (V := Balance) key x = (Ok v, x) ∧ default 0%Z v = z.
Proof.
  intros (_ & v & Hc & Hv). cbn. unfold Meaning.stored, Meaning.host, mbind, Meaning.act_bind, bind. rewrite get_cell, Hc.
  destruct v as [bs|]; cbn; [|by exists None; subst]. destruct Hv as [Hz Hlen].
  unfold Meaning.shared, bind. rewrite decide_False by lia. cbn. rewrite Hz. cbn. by exists (Some z).
Qed.
Lemma store_number x key z : is_u64 z →
  ∃ bs, storage_set (F := Meaning.Act X) (V := Balance) key z x = (Ok tt, fill key (Some bs) x) ∧
    number_in (fill key (Some bs) x) key z.
Proof.
  intros Hz. destruct (balance_json z Hz) as (bs & Ht & Hf & Hlen). exists bs. split.
  - cbn. unfold Meaning.store, Meaning.serialized, Meaning.host, mbind, Meaning.act_bind, bind, lift. rewrite Ht. cbn. by rewrite set_fill.
  - split; [done|]. exists (Some bs). rewrite cell_fill_eq. split_and!; [done..|lia].
Qed.
(** A value that is written as [null], as [()] and [None] are, is stored, and
    reads as if nothing were: the deserialiser reads [null] at [Option] as
    [None] whatever the type of the value is. *)
Lemma stored_null_is_absent {V} {J : Json V} x key (v : V) null :
  to_vec v = Some null → from_slice_option null = Some (@None V) →
  (Z.of_nat (length null) ≤ max_share_value_len cfg)%Z →
  (_ ← storage_set (F := Meaning.Act X) key v; storage_get (F := Meaning.Act X) (V := V) key) x =
    (Ok None, fill key (Some null) x).
Proof.
  intros Hv Hn Hlen. cbn. unfold Meaning.store, Meaning.serialized, Meaning.stored, Meaning.host, mbind,
    Meaning.act_bind, bind, lift.
  rewrite Hv. cbn. rewrite set_fill. cbn. rewrite get_cell, cell_fill_eq. cbn. unfold Meaning.shared, bind.
  rewrite decide_False by lia. cbn. by rewrite Hn.
Qed.
Lemma number_elsewhere x key key' v z : key ≠ key' → number_in x key' z → number_in (fill key v x) key' z.
Proof. intros Hne (Hz & w & Hc & Hw). split; [done|]. exists w. by rewrite cell_fill_ne. Qed.
Lemma number_logged x e key z : number_in x key z → number_in (logged e x) key z.
Proof. intros (Hz & w & Hc & Hw). split; [done|]. exists w. by rewrite cell_logged. Qed.

(** The cells of the storage are apart. *)
Lemma balance_cell_inj a a' : balance_cell a = balance_cell a' → a = a'.
Proof. intros Heq. unfold balance_cell, entry_key in Heq. by apply app_inv_head, app_inv_head in Heq. Qed.
Lemma valid_long a : valid a = true → length a = address_length.
Proof. unfold valid. destruct (vm_validate_address a) as [[]|] eqn:E; [|done]. intros _. by apply valid_length. Qed.
Lemma allowance_cell_inj o s o' s' : valid o = true → valid o' = true →
  allowance_cell o s = allowance_cell o' s' → o = o' ∧ s = s'.
Proof.
  intros Ho%valid_long Ho'%valid_long Heq. unfold allowance_cell, entry_key, allowance_key in Heq.
  apply app_inv_head, app_inv_head in Heq. apply app_inj_1 in Heq as [-> Heq]; [|congruence].
  by apply app_inv_head in Heq.
Qed.
Lemma cells_apart a o s : balance_cell a ≠ allowance_cell o s.
Proof. intros Heq. discriminate Heq. Qed.

Lemma holds_update x l a z v : holds x l → number_in (fill (balance_cell a) v x) (balance_cell a) z →
  holds (fill (balance_cell a) v x) {| tokens := update a z (tokens l); allowed := allowed l |}.
Proof.
  intros [Ht Ha Hr] Hz. split; cbn [tokens allowed].
  - intros a'. unfold update. destruct (decide (a' = a)) as [->|Hne]; [done|].
    apply number_elsewhere; [|done]. by intros ->%balance_cell_inj.
  - intros o s Ho Hs. apply number_elsewhere; [apply cells_apart|by apply Ha].
  - intros o s. destruct (Hr o s) as [z' Hz']. exists z'. apply number_elsewhere; [apply cells_apart|done].
Qed.
Lemma holds_approve x l o s z v : valid o = true → holds x l → number_in (fill (allowance_cell o s) v x) (allowance_cell o s) z →
  holds (fill (allowance_cell o s) v x)
    {| tokens := tokens l; allowed := λ o', if decide (o' = o) then update s z (allowed l o') else allowed l o' |}.
Proof.
  intros Hvo [Ht Ha Hr] Hz. split; cbn [tokens allowed].
  - intros a'. apply number_elsewhere; [|done]. apply not_eq_sym, cells_apart.
  - intros o' s' Ho' Hs'. unfold update. destruct (decide (o' = o)) as [->|Hne]; [destruct (decide (s' = s)) as [->|Hne]; [done|]|].
    all: apply number_elsewhere; [|by apply Ha]; intros [? ?]%allowance_cell_inj; congruence.
  - intros o' s'. destruct (decide (allowance_cell o' s' = allowance_cell o s)) as [->|Hne]; [by exists z|].
    destruct (Hr o' s') as [z' Hz']. exists z'. by apply number_elsewhere.
Qed.
Lemma holds_logged x l e : holds x l → holds (logged e x) l.
Proof.
  intros [Ht Ha Hr]. split; intros; [apply number_logged; auto..|]. destruct (Hr o s) as [z Hz]. exists z. by apply number_logged.
Qed.

(** *** The methods *)

(** The calls of the context by the library, in sequence. *)
Lemma act_ok {A B} (m : Meaning.Act X A) (f : A → Meaning.Act X B) x a x' : m x = (Ok a, x') → (m ≫= f) x = f a x'.
Proof. unfold mbind, Meaning.act_bind, bind. by intros ->. Qed.
Lemma act_err {A B} (m : Meaning.Act X A) (f : A → Meaning.Act X B) x e x' : m x = (Err e, x') → (m ≫= f) x = (Err e, x').
Proof. unfold mbind, Meaning.act_bind, bind. by intros ->. Qed.

(** The contract, and an error that it is refused with. *)
Definition self_of (env : SdkContext) : Contract := {|
  Token.context := env;
  Token.name := value_new _ (b "name"); symbol := value_new _ (b "symbol"); decimals := value_new _ (b "decimals");
  total_supply := value_new _ (b "totalSupply");
  balance := map_new _ (b "balance"); allowance := map_new _ (b "allowance") |}.
Definition refused {A} (r : Prelude.result Meaning.Stop A) : Prop :=
  match r with
  | Err (Meaning.Returned _) | Err (Meaning.Ended (VApplication _)) => True
  | _ => False
  end.
(** A method does the ledger's step, or is refused where the ledger has none. *)
Definition steps (m : Meaning.Act X unit) (x : X) (l' : option TokenLedger) : Prop :=
  match l' with
  | Some l' => ∃ x', m x = (Ok tt, x') ∧ holds x' l'
  | None => refused (m x).1
  end.

Lemma validated x a :
  validate_address (F := Meaning.Act X) a x = (Ok tt, x) ∧ valid a = true ∨
  valid a = false ∧ ∃ e, validate_address (F := Meaning.Act X) a x = (Err (Meaning.Ended (VApplication e)), x).
Proof.
  cbn. unfold Meaning.host, valid. destruct (vm_validate_address a) as [[]|e] eqn:E; [by left|right].
  apply invalid_refused in E as [e' ->]. split; [done|by eexists].
Qed.
(** A method that first validates two addresses. *)
Lemma validated_two x a a' (m : Meaning.Act X unit) l' :
  (valid a = true → valid a' = true → steps m x l') →
  steps (_ ← validate_address a; _ ← validate_address a'; m) x (if valid a && valid a' then l' else None).
Proof.
  intros Hm. destruct (validated x a) as [[Ha Hva]|[Hva [e Ha]]]; rewrite Hva; cbn [andb].
  - destruct (validated x a') as [[Ha' Hva']|[Hva' [e Ha']]]; rewrite Hva'.
    + unfold steps. rewrite (act_ok _ _ _ _ _ Ha), (act_ok _ _ _ _ _ Ha'). by apply Hm.
    + cbn [steps]. rewrite (act_ok _ _ _ _ _ Ha), (act_err _ _ _ _ _ Ha'). exact I.
  - cbn [steps]. rewrite (act_err _ _ _ _ _ Ha). exact I.
Qed.

Lemma emitted {T} {J : Json (ContractEvent T)} n (d : T) x :
  (∃ bs, to_vec {| ContractSdk.name := n; data := d |} = Some bs) →
  ∃ e, emit_event (F := Meaning.Act X) n d x = (Ok tt, logged e x).
Proof.
  intros [bs Hbs]. exists bs. cbn. unfold Meaning.emit, Meaning.serialized, mbind, Meaning.act_bind, bind, lift.
  rewrite Hbs. cbn. unfold Meaning.host. by rewrite emit_logged.
Qed.

Lemma inner_transfer_steps env s r v x l : holds x l → is_u64 v →
  steps (inner_transfer (self_of env) s r v) x (ledger_transfer valid s r v l).
Proof.
  intros Hl Hv. apply validated_two. intros Hs Hr.
  destruct (stored_number _ _ _ (holds_tokens _ _ Hl s)) as (vs & Es & Ds).
  destruct (stored_number _ _ _ (holds_tokens _ _ Hl r)) as (vr & Er & Dr).
  destruct (holds_tokens _ _ Hl s) as [Us _], (holds_tokens _ _ Hl r) as [Ur _].
  unfold steps, map_get. cbn [balance self_of].
  rewrite (act_ok _ _ _ _ _ Es), (act_ok _ _ _ _ _ Er). cbv zeta. rewrite Ds, Dr.
  unfold overflowing_sub, overflowing_add, is_u64 in *.
  destruct (decide (v > tokens l s)%Z); [by rewrite decide_False by lia|]. rewrite bool_decide_eq_false_2 by lia.
  case_bool_decide; [by rewrite decide_False by lia|]. rewrite decide_True by lia. rewrite !u64_id by (unfold is_u64; lia).
  destruct (store_number x (balance_cell s) (tokens l s - v)) as (bs & Eb & Nb); [unfold is_u64; lia|].
  set (x1 := fill _ _ x) in *. destruct (store_number x1 (balance_cell r) (tokens l r + v)) as (bs' & Eb' & Nb');
    [unfold is_u64; lia|]. set (x2 := fill _ _ x1) in *.
  destruct (emitted "Transfer" (Build_TransferEvent s r v) x2 (transfer_json _)) as [e Ee].
  exists (logged e x2). unfold map_set. rewrite (act_ok _ _ _ _ _ Eb), (act_ok _ _ _ _ _ Eb'). split; [exact Ee|].
  apply holds_logged. apply (holds_update x1 {| tokens := update s (tokens l s - v)%Z (tokens l); allowed := allowed l |}); [|done].
  by apply holds_update.
Qed.
Lemma inner_approve_steps env o s v x l : holds x l → is_u64 v →
  steps (inner_approve (self_of env) o s v) x (ledger_approve valid o s v l).
Proof.
  intros Hl Hv. apply validated_two. intros Ho Hs. destruct (store_number x (allowance_cell o s) v Hv) as (bs & Eb & Nb).
  set (x1 := fill _ _ x) in *. destruct (emitted "Approval" (Build_ApprovalEvent o s v) x1 (approval_json _)) as [e Ee].
  exists (logged e x1). unfold map_set. rewrite (act_ok _ _ _ _ _ Eb). split; [exact Ee|].
  apply holds_logged. by apply holds_approve.
Qed.

(** A method of the contract, by the call. *)
Definition call_body (call : TokenCall) : Contract → Meaning.Act X unit :=
  match call with
  | CallTransfer p => λ self, Token.transfer self p
  | CallApprove p => λ self, approve self p
  | CallTransferFrom p => λ self, transfer_from self p
  end.
Definition call_value (call : TokenCall) : Z :=
  match call with CallTransfer p => tp_value p | CallApprove p => ap_value p | CallTransferFrom p => tf_value p end.

Lemma called env caller (m : Address → Meaning.Act X unit) x l' :
  sender_address (contract_env env) = Some caller → steps (m caller) x l' →
  steps (s ← sender (self_of env); m s) x l'.
Proof. intros Hs. unfold sender. cbn [Token.context self_of]. by rewrite Hs. Qed.
Lemma steps_bind (m : Meaning.Act X unit) (f : unit → Meaning.Act X unit) x l' g :
  steps m x l' → (∀ x' l1, holds x' l1 → steps (f tt) x' (g l1)) → steps (m ≫= f) x (l' ≫= g).
Proof.
  intros Hm Hf. destruct l' as [l1|]; cbn.
  - destruct Hm as (x' & Em & Hl). unfold steps. rewrite (act_ok _ _ _ _ _ Em). by apply Hf.
  - cbn in Hm. destruct (m x) as [[[]|e] x'] eqn:E; [done|]. by rewrite (act_err _ _ _ _ _ E).
Qed.
Lemma number_unique x key z z' : number_in x key z → number_in x key z' → z = z'.
Proof. intros (_ & v & E & Hv) (_ & v' & E' & Hv'). rewrite E in E'. injection E' as <-. destruct v; [destruct Hv, Hv'|]; congruence. Qed.
Lemma approve_invalid o s w l' : valid o && valid s = false → (l' : option TokenLedger) ≫= ledger_approve valid o s w = None.
Proof. intros Hv. destruct l'; [|done]. cbn. unfold ledger_approve. by rewrite Hv. Qed.
Lemma steps_read x key z (f : option Balance → Meaning.Act X unit) l' :
  number_in x key z → (∀ v, default 0%Z v = z → steps (f v) x l') → steps (storage_get key ≫= f) x l'.
Proof.
  intros (v & Ev & Dv)%stored_number Hf. specialize (Hf v Dv). unfold steps. by rewrite (act_ok _ _ _ _ _ Ev).
Qed.
Lemma transfer_from_steps env caller s r v x l : holds x l → is_u64 v →
  sender_address (contract_env env) = Some caller →
  steps (transfer_from (self_of env) (Build_TransferFromParams s r v)) x
    (ledger_call valid caller (CallTransferFrom (Build_TransferFromParams s r v)) l).
Proof.
  intros Hl Hv Hs. eapply called; [exact Hs|]. cbn [tf_sender tf_recipient tf_value ledger_call].
  destruct (holds_readable _ _ Hl s caller) as [z Hz]. pose proof (proj1 Hz) as Uz.
  apply (steps_read _ _ z); [exact Hz|]. intros va ->. unfold is_u64 in Uz, Hv.
  assert (steps (_ ← inner_transfer (self_of env) s r v; inner_approve (self_of env) s caller (z - v)%Z) x
    (ledger_transfer valid s r v l ≫= ledger_approve valid s caller (z - v)%Z) ∨ (z < v)%Z) as Hsteps.
  { destruct (decide (z < v)%Z); [by right|left]. apply steps_bind; [by apply inner_transfer_steps|].
    intros x' l1 Hl1. apply inner_approve_steps; [done|]. unfold is_u64. lia. }
  unfold overflowing_sub. destruct (valid s && valid caller) eqn:Hvalid.
  - apply andb_true_iff in Hvalid as [Hvs Hvc].
    assert (z = allowed l s caller) as -> by (eapply number_unique; [exact Hz|by apply (holds_allowed _ _ Hl)]).
    case_decide; [done|]. rewrite bool_decide_eq_false_2, u64_id by (unfold is_u64; lia). by destruct Hsteps.
  - rewrite (approve_invalid _ _ (allowed l s caller - v)%Z _ Hvalid). rewrite (approve_invalid _ _ _ _ Hvalid) in Hsteps.
    assert ((if decide (allowed l s caller < v)%Z then None else None) = @None TokenLedger) as -> by by case_decide.
    case_decide; [done|]. rewrite bool_decide_eq_false_2, u64_id by (unfold is_u64; lia). by destruct Hsteps.
Qed.
Lemma call_steps env caller call x l : holds x l → is_u64 (call_value call) →
  sender_address (contract_env env) = Some caller →
  steps (call_body call (self_of env)) x (ledger_call valid caller call l).
Proof.
  intros Hl Hv Hs. destruct call as [p|p|[s r v]]; cbn [call_value call_body] in *.
  - eapply called; [exact Hs|]. by apply inner_transfer_steps.
  - eapply called; [exact Hs|]. by apply inner_approve_steps.
  - by apply transfer_from_steps.
Qed.

(** *** A call of the token on the machine *)

(** The arguments that a contract reads: no bytes are [null]. *)
Definition given (prms : bytes) : bytes := if decide (length prms = 0) then b "null" else prms.
Definition asks_for (call : TokenCall) (meth : string) (prms : bytes) : Prop :=
  match call with
  | CallTransfer p => meth = "transfer" ∧ from_transfer (given prms) = Some p
  | CallApprove p => meth = "approve" ∧ from_approve (given prms) = Some p
  | CallTransferFrom p => meth = "transfer_from" ∧ from_transfer_from (given prms) = Some p
  end.
Definition fits (data : bytes) : Prop := (Z.of_nat (length data) ≤ max_share_value_len cfg)%Z.
(** A caller calls the contract, with arguments and environment that fit. *)
Record callable (x : X) (caller : Address) (prms : bytes) : Prop := {
  call_sender : sender_address (vm_contract_env x) = Some caller;
  call_fits : fits caller;
  call_params : fits prms;
  call_contract a : contract_address (vm_contract_env x) = Some a → fits a;
  call_tx h : ce_tx_hash (vm_call_env x) = Some h → fits h;
}.

Lemma shared_fits data (x : X) : fits data → Meaning.shared cfg data x = (Ok data, x).
Proof. intros Hf. unfold Meaning.shared. by rewrite decide_False by (unfold fits in Hf; lia). Qed.
Lemma shared_option_fits data (x : X) : (∀ d, data = Some d → fits d) → Meaning.shared_option cfg data x = (Ok data, x).
Proof. destruct data as [d|]; [|done]. intros Hf. cbn. unfold bind. by rewrite shared_fits by auto. Qed.
Lemma new_token x caller prms : callable x caller prms →
  ∃ env, Token.new (F := Meaning.Act X) x = (Ok (self_of env), x) ∧ sender_address (contract_env env) = Some caller.
Proof.
  intros [Hs Hf _ Ha Ht]. unfold Token.new, mbind, lib_bind, token_meaning, Meaning.sdk_meaning, Meaning.act_bind, bind.
  cbn [context_new]. unfold Meaning.host, Meaning.new_context, bind, asks.
  rewrite !shared_option_fits; [|rewrite Hs; by intros ? [= <-]|done..]. cbn. eexists. split; [done|]. cbn. exact Hs.
Qed.

(** The method that is found, its arguments and its result. *)
Definition outcome (m : Meaning.Act X bytes) (x : X) (l' : option TokenLedger) : Prop :=
  match l' with
  | Some l' => ∃ out x', m x = (Ok out, x') ∧ holds x' l'
  | None => refused (m x).1
  end.
Lemma method_outcome {P} ms meth self prms (p : P) ident from (body : Contract → P → Meaning.Act X unit) x l' :
  find_method ms meth = Some (method ident from body) → from prms = Some p → steps (body self p) x l' →
  outcome (execute_method ms self meth prms pv) x (if decide (pv > 0)%Z then None else l').
Proof.
  intros Hfind Hp Hm. unfold execute_method. rewrite Hfind. cbn [payable method params_from_slice method_body output_to_vec].
  rewrite Hp. case_decide; [done|]. cbn [ok_or of_result]. destruct unit_json as [bs Hbs].
  destruct l' as [l1|]; cbn [outcome steps] in *.
  - destruct Hm as (x' & Em & Hl). exists bs, x'. split; [|done].
    rewrite (act_ok _ _ x tt x), (act_ok _ _ x p x), (act_ok _ _ _ _ _ Em) by done. by rewrite Hbs.
  - rewrite (act_ok _ _ x tt x), (act_ok _ _ x p x) by done.
    destruct (body self p x) as [[[]|e] x'] eqn:E; [done|]. by rewrite (act_err _ _ _ _ _ E).
Qed.
Lemma execute_outcome call meth prms self x l' : asks_for call meth (prms : bytes) → steps (call_body call self) x l' →
  outcome (execute_method (call_methods token) self meth (given prms) pv) x (if decide (pv > 0)%Z then None else l').
Proof. destruct call as [p|p|p]; intros [-> Hp] Hm; by eapply method_outcome; [reflexivity|exact Hp|exact Hm]. Qed.

Lemma given_method_ok call meth prms (x : X) : asks_for call meth prms → Meaning.given_method cfg meth x = (Ok meth, x).
Proof.
  intros Hask. assert (fits (b meth) ∧ from_utf8 (b meth) = Some meth) as [Hf Hu].
  { unfold fits. destruct call, Hask as [-> _]; (split; [cbn; lia|vm_compute; reflexivity]). }
  unfold Meaning.given_method, Meaning.host, mbind, Meaning.act_bind, bind, lift. rewrite shared_fits by done. cbn [map_err].
  by rewrite Hu.
Qed.
Lemma given_params_ok prms (x : X) : fits prms → Meaning.given_params cfg prms x = (Ok (given prms), x).
Proof.
  intros Hf. unfold Meaning.given_params, Meaning.host, mbind, Meaning.act_bind, bind. by rewrite shared_fits.
Qed.
(** A refusal is reported as an error of the application. *)
Lemma reported_refused {A} (m : Meaning.Act X A) x : refused (m x).1 → ∃ e, (Meaning.reported m x).1 = Err (VApplication e).
Proof.
  unfold Meaning.reported. destruct (m x) as [[a|[[e|e]|e]] x']; cbn; intros Hr; try done; [by eexists|].
  destruct (from_utf8 _); by eexists.
Qed.

Lemma executed_outcome meth prms caller call x l : asks_for call meth prms → callable x caller prms → holds x l →
  is_u64 (call_value call) →
  match (if decide (pv > 0)%Z then None else ledger_call valid caller call l) with
  | Some l' => ∃ out x', Meaning.executed cfg pv meth prms token (call_methods token) x = (Ok out, x') ∧ holds x' l'
  | None => ∃ e, (Meaning.executed cfg pv meth prms token (call_methods token) x).1 = Err (VApplication e)
  end.
Proof.
  intros Hask Hcall Hl Hv. destruct (new_token x caller prms Hcall) as (env & Hnew & Hs).
  pose proof (execute_outcome _ _ _ _ _ _ Hask (call_steps env caller call x l Hl Hv Hs)) as Hout.
  unfold Meaning.executed. set (m := mbind _ _).
  assert (m x = execute_method (call_methods token) (self_of env) meth (given prms) pv x) as Hm.
  { unfold m. by rewrite (act_ok _ _ _ _ _ (given_method_ok _ _ _ x Hask)),
      (act_ok _ _ _ _ _ (given_params_ok prms x (call_params _ _ _ Hcall))), (act_ok _ _ _ _ _ Hnew). }
  destruct (if decide (pv > 0)%Z then None else _) as [l'|]; cbn [outcome] in Hout.
  - destruct Hout as (out & x' & Hex & Hl'). exists out, x'. split; [|done]. unfold Meaning.reported. by rewrite Hm, Hex.
  - apply reported_refused. by rewrite Hm.
Qed.
Lemma asked_value call meth prms : asks_for call meth prms → is_u64 (call_value call).
Proof.
  destruct call; intros [_ Hp]; [by eapply transfer_value|by eapply approve_value|by eapply transfer_from_value].
Qed.

Lemma run_token code x meth prms : compiles_to cfg token code → prepared cfg code x = (Ok tt, x) →
  Vm.execute cfg code ModeCall meth prms pv x = Meaning.executed cfg pv meth prms token (call_methods token) x.
Proof.
  intros Hcode Hprep. by rewrite (execute_means cfg pv token token (λ m p, token_does cfg m p pv) _ _ _ _ _ Hcode),
    (bind_ok _ _ _ _ _ Hprep).
Qed.

(** C4: the token is a ledger.  A call of its compiled code by the machine,
    with arguments that fit, does the step of the ledger with allowances: the
    storage then holds the ledger after it; where the ledger has no step — too
    little money or allowance, an overflow, an invalid address, a payment — the
    call fails with an error of the application. *)
Theorem token_refines_ledger code x l caller call meth prms :
  compiles_to cfg token code → prepared cfg code x = (Ok tt, x) →
  asks_for call meth prms → callable x caller prms → holds x l →
  match (if decide (pv > 0)%Z then None else ledger_call valid caller call l) with
  | Some l' => ∃ out x', Vm.execute cfg code ModeCall meth prms pv x = (Ok out, x') ∧ holds x' l'
  | None => ∃ e, (Vm.execute cfg code ModeCall meth prms pv x).1 = Err (VApplication e)
  end.
Proof.
  intros Hcode Hprep Hask Hcall Hl. rewrite run_token by done.
  apply executed_outcome; [done..|]. by eapply asked_value.
Qed.
End Refinement.

(** ** The supply *)
Definition supply (accounts : list Address) (l : TokenLedger) : Z := sumZ (tokens l) accounts.
(** Who pays whom in a call, and how much. *)
Definition payment (caller : Address) (call : TokenCall) : option (Address * Address * Z) :=
  match call with
  | CallTransfer p => Some (caller, tp_recipient p, tp_value p)
  | CallApprove _ => None
  | CallTransferFrom p => Some (tf_sender p, tf_recipient p, tf_value p)
  end.
(** The tokens that a call makes: the value of a payment to oneself. *)
Definition made (caller : Address) (call : TokenCall) : Z :=
  match payment caller call with
  | Some (s, r, v) => if decide (s = r) then v else 0%Z
  | None => 0%Z
  end.
Definition parties (caller : Address) (call : TokenCall) : list Address :=
  match payment caller call with Some (s, r, _) => [s; r] | None => [] end.

Lemma update_supply (accounts : list Address) a z f : NoDup accounts → a ∈ accounts →
  sumZ (update a z f) accounts = (sumZ f accounts + (z - f a))%Z.
Proof.
  intros Hnd Ha. rewrite (sumZ_update f (update a z f) a); [|done..|].
  - unfold update. rewrite decide_True by done. lia.
  - intros x Hx. unfold update. by rewrite decide_False.
Qed.
Lemma ledger_transfer_made valid s r v l l' accounts : ledger_transfer valid s r v l = Some l' →
  NoDup accounts → s ∈ accounts → r ∈ accounts →
  supply accounts l' = (supply accounts l + if decide (s = r) then v else 0)%Z.
Proof.
  unfold ledger_transfer. destruct (valid s && valid r); [|done]. case_decide; [|done]. intros [= <-] Hnd Hs Hr.
  unfold supply. cbn [tokens]. rewrite !update_supply by done. unfold update at 1. case_decide as Heq; case_decide; subst; try done; lia.
Qed.
Lemma ledger_approve_same valid o s v l l' : ledger_approve valid o s v l = Some l' → tokens l' = tokens l.
Proof. unfold ledger_approve. destruct (valid o && valid s); [|done]. by intros [= <-]. Qed.
Lemma ledger_call_made valid caller call l l' accounts : ledger_call valid caller call l = Some l' →
  NoDup accounts → Forall (.∈ accounts) (parties caller call) →
  supply accounts l' = (supply accounts l + made caller call)%Z.
Proof.
  intros Hcall Hnd Hin. destruct call as [p|p|p]; cbn [ledger_call] in Hcall; unfold made, parties in *; cbn [payment] in *.
  - apply Forall_cons in Hin as [Hs [Hr _]%Forall_cons]. by eapply ledger_transfer_made.
  - apply ledger_approve_same in Hcall. unfold supply. rewrite Hcall. lia.
  - apply Forall_cons in Hin as [Hs [Hr _]%Forall_cons]. case_decide; [done|]. apply bind_Some in Hcall as (l1 & Ht & Ha).
    apply ledger_approve_same in Ha. unfold supply at 1. rewrite Ha. by eapply ledger_transfer_made.
Qed.

Section SupplyOfToken.
Context {TJ : TokenJson} {JL : TokenJsonLaws} {TC : Toolchain} {TL : ToolchainLaws} {WL : WasmLib}
  {X : Type} {VC : VMContext X} {ST : StorageLaws X} {AL : AddressLaws X}.
Context (cfg : VMConfig) {SL : ShareLimits cfg} (pv : Balance).
Hypothesis long_enough : (20 ≤ max_share_value_len cfg)%Z.

(** C5: the supply of tokens.  An execution of a call that succeeds leaves
    the sum of all balances as it was, but for a payment to oneself, which
    adds its value to the sum: that is the only way to make tokens, and none
    are lost. *)
Theorem token_supply code x x' l out caller call meth prms accounts :
  compiles_to cfg token code → prepared cfg code x = (Ok tt, x) →
  asks_for call meth prms → callable cfg x caller prms → holds cfg x l →
  Vm.execute cfg code ModeCall meth prms pv x = (Ok out, x') →
  NoDup accounts → Forall (.∈ accounts) (parties caller call) →
  ∃ l', holds cfg x' l' ∧ supply accounts l' = (supply accounts l + made caller call)%Z.
Proof.
  intros Hcode Hprep Hask Hcall Hl Hex Hnd Hin.
  rewrite (run_token cfg pv) in Hex by done.
  pose proof (executed_outcome cfg pv long_enough meth prms caller call x l Hask Hcall Hl (asked_value _ _ _ Hask)) as Hstep.
  rewrite Hex in Hstep. case_decide; [by destruct Hstep|].
  destruct (ledger_call _ _ _ _) as [l'|] eqn:E; [|by destruct Hstep].
  destruct Hstep as (out' & x1 & [= <- <-] & Hl'). exists l'. split; [done|]. by eapply ledger_call_made.
Qed.
End SupplyOfToken.

(** ** The storage of a contract of the module *)
Import ContractVm.
Section OnContracts.
Context {SC : Scale} {UT : Util} {WL : WasmLib} {SE : Serialize Balance.Transferred}.
Context {C : Type} `{CL : ContextLaws C}.
Variables (cfg : VMConfig) (fuel : nat) (self : DefaultVMContext) (own : Address).
Hypothesis self_address : contract_address (contract_env self) = Some own.
(** The hash function: it does not fail, and no two values that are hashed
    collide. *)
Variable hash_of : bytes → Hash.
Hypothesis hash_total : ∀ d, Context.util_hash d = Ok (hash_of d).
Hypothesis hash_injective : ∀ d d', hash_of d = hash_of d' → d = d'.
#[local] Instance contract_vm : VMContext (World C) := vm_context cfg fuel self.

Definition module_key (key : bytes) : DBKey :=
  STORAGE_KEY ++ Context.SEPARATOR ++ CONTRACT_DATA_STORAGE_KEY ++ Context.SEPARATOR ++
  hash_of (own ++ Context.SEPARATOR ++ key).
Lemma module_key_eq key (w : World C) : vm_to_module_key self key w = (Ok (module_key key), w).
Proof. unfold vm_to_module_key. rewrite self_address. unfold bind, in_vm, lift. by rewrite hash_total. Qed.
Lemma module_key_inj key key' : module_key key = module_key key' → key = key'.
Proof. unfold module_key. intros Heq. by do 4 apply app_inv_head in Heq; apply hash_injective in Heq; do 2 apply app_inv_head in Heq. Qed.

(** The storage is the part of the stack of buffers under these keys. *)
#[export] Program Instance contract_storage : StorageLaws (World C) := {|
  cell w key := map_err module_to_vm_error
    (read (ContextLaws := stacked_laws (base_context self)) false (module_key key) w);
  fill key v w := put (ContextLaws := stacked_laws (base_context self)) false (module_key key) v w;
  logged e w := Context.log (ContextLaws := stacked_laws (base_context self)) e w;
|}.
Next Obligation.
  intros key w. transitivity ((let! k := vm_to_module_key self key in in_vm (payload_get (Context := base self) k)) w).
  { unfold contract_vm. by destruct fuel. }
  rewrite (bind_ok _ _ _ _ _ (module_key_eq key w)). unfold in_vm, base.
  by rewrite (payload_get_eq (ContextLaws := stacked_laws (base_context self))).
Qed.
Next Obligation.
  intros key v w. transitivity ((let! k := vm_to_module_key self key in in_vm (payload_set (Context := base self) k v)) w).
  { unfold contract_vm. by destruct fuel. }
  rewrite (bind_ok _ _ _ _ _ (module_key_eq key w)). unfold in_vm, base.
  by rewrite (payload_set_eq (ContextLaws := stacked_laws (base_context self))).
Qed.
Next Obligation. intros e w. unfold contract_vm. by destruct fuel. Qed.
Next Obligation. intros key v w. exact (f_equal _ (read_put_eq (ContextLaws := stacked_laws (base_context self)) false _ v w)). Qed.
Next Obligation. 
  intros key key' v w Hne. refine (f_equal _ (read_put_ne (ContextLaws := stacked_laws (base_context self)) false _ false _ v w _)). intros Heq.
  apply Hne, module_key_inj. by apply (f_equal snd) in Heq.
Qed.
Next Obligation. intros e w key. exact (f_equal _ (read_log (ContextLaws := stacked_laws (base_context self)) false _ e w)). Qed.
End OnContracts.

(** ** A concrete token

    On the context of the contract module over an empty chain, with a toolchain
    that puts values one after the other and an engine that has compiled the
    token. *)
Module TokenSamples.
Import Samples.

#[local] Instance plain_util : Util := {|
  Context.util_hash data := Ok data;
  Context.util_address data := Ok (take 1 data);
  Context.validate_address a := if decide (length a = 1) then Ok tt else Err (App (InvalidAddress "length"));
|}.
#[export] Instance plain_toolchain : Toolchain := {|
  place _ values := (concat values, λ i, Z.of_nat (length (concat (take i values))));
  initial_memory := [];
  panic_trap := WRuntimeError (WInvokeError (WOtherInvoke "unreachable"));
|}.
#[export] Instance plain_toolchain_laws : ToolchainLaws.
Proof.
  intros mem values i x Hx. cbn.
  assert (concat values = concat (take i values) ++ x ++ concat (drop (S i) values)) as ->
    by by rewrite <-(take_drop_middle values i x Hx) at 1; rewrite concat_app.
  unfold held, slice. rewrite Nat2Z.id, drop_app_length, take_app_length, !length_app. split_and!; [lia..|done].
Qed.

(** Numbers as eight bytes. *)
Fixpoint le_bytes (n : nat) (z : Z) : bytes :=
  match n with
  | 0 => []
  | S n => default Byte.x00 (Byte.of_N (Z.to_N (z mod 256))) :: le_bytes n (z / 256)
  end.
Fixpoint le_value (l : bytes) : Z :=
  match l with [] => 0 | x :: l => Z.of_N (Byte.to_N x) + 256 * le_value l end%Z.
Lemma le_bytes_length n z : length (le_bytes n z) = n.
Proof. revert z. induction n; intros z; cbn; by f_equal. Qed.
Lemma byte_value z : (0 ≤ z < 256)%Z → Z.of_N (Byte.to_N (default Byte.x00 (Byte.of_N (Z.to_N z)))) = z.
Proof.
  intros Hz. destruct (Byte.of_N (Z.to_N z)) as [x|] eqn:E; cbn.
  - apply Byte.to_of_N in E. rewrite E. lia.
  - apply Byte.of_N_None_iff in E. lia.
Qed.
Lemma le_round_trip n z : (0 ≤ z < 256 ^ Z.of_nat n)%Z → le_value (le_bytes n z) = z.
Proof.
  revert z. induction n as [|n IH]; intros z Hz; cbn; [cbn in Hz; lia|].
  rewrite byte_value by (apply Z.mod_pos_bound; lia). rewrite IH.
  - pose proof (Z.div_mod z 256). lia.
  - replace (Z.of_nat (S n)) with (Z.of_nat n + 1)%Z in Hz by lia. rewrite Z.pow_add_r in Hz by lia.
    split; [apply Z.div_pos; lia|apply Z.div_lt_upper_bound; lia].
Qed.

#[export] Instance plain_json : TokenJson := {|
  json_string := {| to_vec s := Some (b s); from_slice_option l := Some (Some (String.string_of_list_byte l)) |};
  json_decimals := {| to_vec d := Some (le_bytes 1 (decimals_value d)); from_slice_option l := Some (Some (Build_Decimals (le_value l))) |};
  json_balance := {| to_vec z := Some (le_bytes 8 z); from_slice_option l := Some (Some (le_value l)) |};
  json_unit := {| to_vec _ := Some (b "null"); from_slice_option _ := Some None |};
  json_transfer := {| to_vec e := Some (b (ContractSdk.name _ e)); from_slice_option _ := None |};
  json_approval := {| to_vec e := Some (b (ContractSdk.name _ e)); from_slice_option _ := None |};
  from_init l := Some (Build_InitParams "token" "T" 0 (u64 (le_value l)));
  from_empty _ := Some Build_EmptyParams;
  from_balance l := Some (Build_BalanceParams l);
  from_transfer l := Some (Build_TransferParams (take 1 l) (u64 (le_value (drop 1 l))));
  from_approve l := Some (Build_ApproveParams (take 1 l) (u64 (le_value (drop 1 l))));
  from_allowance l := Some (Build_AllowanceParams (take 1 l) (drop 1 l));
  from_transfer_from l := Some (Build_TransferFromParams (take 1 l) (take 1 (drop 1 l)) (u64 (le_value (drop 2 l))));
|}.
#[export] Instance plain_json_laws : TokenJsonLaws.
Proof.
  split; try (intros; by eexists); try (intros bs p [= <-]; apply u64_range).
  intros z Hz. exists (le_bytes 8 z). split_and!; [done| |by rewrite le_bytes_length; lia].
  unfold is_u64 in Hz. cbn [from_slice_option json_balance plain_json]. rewrite le_round_trip by lia. done.
Qed.

#[export] Instance token_engine : WasmLib := {|
  WasmModule := unit;
  module_cache _ := Some tt;
  pre_compile_and_compile _ _ := Ok tt;
  memory_new _ := Ok tt;
  instance_call _ func := Code.exports token func;
  panic_text := "panic";
|}.
#[export] Instance plain_limits : ShareLimits default_config.
Proof. by split. Qed.

(** The contract X, called by alice. *)
Definition token_address : Address := b "X".
Definition fresh : World ExecContext :=
  {| executor_context := empty_context 0; levels := ∅; next_level := 0; cells := ∅; next_cell := 0 |}.
Definition made_context : result VMError DefaultVMContext * World ExecContext :=
  vm_context_new (Build_VMContractEnv (Some token_address) (Some alice)) fresh.
Definition self : DefaultVMContext :=
  match made_context.1 with
  | Ok self => self
  | Err _ => {| contract_env := Build_VMContractEnv None None; base_context := Build_Stack [] 0;
                module_context := Build_Stack [] 0; nested_vm_context := 0 |}
  end.
#[export] Instance token_vm : VMContext (World ExecContext) := vm_context default_config (nest_fuel default_config) self.
#[export] Instance token_storage : StorageLaws (World ExecContext) :=
  contract_storage default_config (nest_fuel default_config) self token_address eq_refl (λ d, d) (λ _, eq_refl) (λ _ _ H, H).
Lemma validate_eq a : vm_validate_address a =
  if decide (length a = 1) then Ok tt else Err (module_to_vm_error (App (InvalidAddress "length"))).
Proof.
  transitivity (map_err module_to_vm_error (Context.validate_address a)).
  - unfold token_vm. by destruct (nest_fuel default_config).
  - cbn. by case_decide.
Qed.
#[export] Program Instance token_addresses : AddressLaws (World ExecContext) := {| address_length := 1 |}.
Next Obligation. intros a. rewrite validate_eq. by case_decide. Qed.
Next Obligation. intros a e. rewrite validate_eq. case_decide; [done|]. intros [= <-]. by eexists. Qed.

(** The money of an account. *)
Definition money (x : World ExecContext) (a : Address) : Z :=
  match cell x (balance_cell a) with
  | Ok None => 0
  | Ok (Some bs) => le_value bs
  | Err _ => -1
  end.
(** Alice has a hundred tokens and bob twenty. *)
Definition start : World ExecContext :=
  fill (balance_cell bob) (Some (le_bytes 8 20)) (fill (balance_cell alice) (Some (le_bytes 8 100)) made_context.2).
Definition start_ledger : TokenLedger :=
  {| tokens := update bob 20%Z (update alice 100%Z (λ _, 0%Z)); allowed := λ _ _, 0%Z |}.
Definition token_code : VMCodeProvider (World ExecContext) :=
  {| provide_code_hash := []; provide_code := ret [] |}.
Definition paying (r : Address) (v : Z) : result VMError bytes * World ExecContext :=
  Vm.execute default_config token_code ModeCall "transfer" (r ++ le_bytes 8 v) 0 start.

(** Paying bob thirty moves thirty; paying oneself thirty makes thirty. *)
Lemma self_transfer_makes_tokens :
  (money start alice, money start bob) = (100, 20)%Z ∧
  (let '(r, x) := paying bob 30 in (is_ok r, money x alice, money x bob)) = (true, 70, 50)%Z ∧
  (let '(r, x) := paying alice 30 in (is_ok r, money x alice, money x bob)) = (true, 130, 20)%Z ∧
  (let '(r, x) := paying bob 101 in (is_ok r, money x alice, money x bob)) = (false, 100, 20)%Z.
Proof. split_and!; vm_compute; reflexivity. Qed.

Lemma nothing_stored key : cell made_context.2 key = Ok None.
Proof. reflexivity. Qed.
Lemma nothing_holds : holds default_config made_context.2 {| tokens := λ _, 0%Z; allowed := λ _ _, 0%Z |}.
Proof.
  assert (∀ key, number_in default_config made_context.2 key 0) as Hzero by (intros key; split; [done|]; by exists None).
  split; intros; [apply Hzero|apply Hzero|by exists 0%Z].
Qed.
Lemma number_stored key z (x : World ExecContext) : is_u64 z →
  number_in default_config (fill key (Some (le_bytes 8 z)) x) key z.
Proof.
  intros Hz. split; [done|]. exists (Some (le_bytes 8 z)). rewrite cell_fill_eq, le_bytes_length. split_and!; [done| |done].
  unfold is_u64 in Hz. cbn [from_slice_option json_balance plain_json]. by rewrite le_round_trip by lia.
Qed.
Lemma start_holds : holds default_config start start_ledger.
Proof.
  apply (holds_update default_config _ {| tokens := update alice 100%Z (λ _, 0%Z); allowed := λ _ _, 0%Z |});
    [|by apply number_stored]. apply (holds_update default_config _ {| tokens := λ _, 0%Z; allowed := λ _ _, 0%Z |});
    [apply nothing_holds|by apply number_stored].
Qed.
Lemma alice_calls : callable default_config start alice (bob ++ le_bytes 8 30).
Proof. split; [done..| |]; by intros ? [= <-]. Qed.
Lemma token_compiles : compiles_to default_config token token_code.
Proof. intros x m x' [= <- <-] func. reflexivity. Qed.
Lemma pays_bob : asks_for (CallTransfer (Build_TransferParams bob 30)) "transfer" (bob ++ le_bytes 8 30).
Proof. split; [done|]. vm_compute. reflexivity. Qed.

#[local] Instance plain_meaning : SdkLib (Meaning.Act (World ExecContext)) := Meaning.sdk_meaning default_config 0.
Lemma contract_runs_witness :
  (paying bob 30).1 =
  ((do! prepared default_config token_code in
    Meaning.executed default_config 0 "transfer" (bob ++ le_bytes 8 30) token (call_methods token)) start).1.
Proof.
  exact (f_equal fst (proj1 (contract_runs default_config 0 token token (λ m p, token_does default_config m p 0)
    token_code ModeCall "transfer" (bob ++ le_bytes 8 30) start token_compiles))).
Defined.
Lemma token_refines_ledger_witness :
  ∃ out x', paying bob 30 = (Ok out, x') ∧
  holds default_config x' {| tokens := update bob 50%Z (update alice 70%Z (tokens start_ledger)); allowed := λ _ _, 0%Z |}.
Proof.
  exact (token_refines_ledger default_config 0 ltac:(done) token_code start start_ledger alice
    (CallTransfer (Build_TransferParams bob 30)) "transfer" (bob ++ le_bytes 8 30) token_compiles eq_refl pays_bob alice_calls start_holds).
Defined.
(** Alice pays herself. *)
Definition pays_self : TokenCall := CallTransfer (Build_TransferParams alice 30).
Lemma paid_self : paying alice 30 = (Ok (b "null"), (paying alice 30).2).
Proof. apply outcome_eq. vm_compute. reflexivity. Qed.
Lemma alice_pays : callable default_config start alice (alice ++ le_bytes 8 30).
Proof. split; [done..| |]; by intros ? [= <-]. Qed.
Lemma alice_asks : asks_for pays_self "transfer" (alice ++ le_bytes 8 30).
Proof. split; [done|]. vm_compute. reflexivity. Qed.
Lemma two_accounts : NoDup [alice; bob].
Proof. repeat constructor; set_solver. Qed.
Lemma both_parties : Forall (.∈ [alice; bob]) (parties alice pays_self).
Proof. repeat constructor. Qed.
Lemma token_supply_witness : supply [alice; bob] start_ledger = 120%Z ∧
  ∃ l', holds default_config (paying alice 30).2 l' ∧ supply [alice; bob] l' = 150%Z.
Proof.
  split; [vm_compute; reflexivity|].
  exact (token_supply default_config 0 ltac:(done) token_code start (paying alice 30).2 start_ledger (b "null") alice pays_self
    "transfer" (alice ++ le_bytes 8 30) [alice; bob] token_compiles eq_refl alice_asks alice_pays start_holds paid_self
    two_accounts both_parties).
Defined.
End TokenSamples.
