(* ===== verification/PoaEngine.v ===== *)
(** * PoaEngine

    The proof-of-authority engine of [core/node/consensus/poa/src]: the proof
    of a block, the task of the authority, and the scheduler
    ([core/node/consensus/base/src/scheduler.rs]) that wakes it. *)
From S2P Require Import Prelude Codec Types SystemModule Poa ConsensusSupport Engine.

(** ** The scheduler

    Times since the epoch are in nanoseconds; the timer of [futures_timer] is
    ready from its deadline on. *)
Module Scheduler.
Record Scheduler := {
  duration : option Z;
  delay : option Z;
}.

Definition new (duration : option Z) : Scheduler := {| duration := duration; delay := None |}.

(** [Duration::as_millis] *)
Definition as_millis (now : Z) : Z := (now / 10 ^ 6)%Z.

(** The milliseconds to wait; the remainder by zero panics. *)
Definition time_until_next (now duration : Z) : option Z :=
  if decide (duration = 0%Z) then None
  else Some (u64 (u64 (duration - u64 (as_millis now) mod duration) - 1)).

Inductive Poll :=
| Pending
| Ready (timestamp : Z)
| PollPanic.

(** [poll_next]: the clock is read at [now] to start the delay, and at
    [later] for the timestamp.  A clock before the epoch panics. *)
Definition poll_next (now later : Z) (s : Scheduler) : Poll * Scheduler :=
  match duration s with
  | None => (Pending, s)
  | Some d =>
      let delay :=
        match delay s with
        | Some deadline => Some deadline
        | None =>
            if decide (now < 0)%Z then None
            else (λ millis, now + millis * 10 ^ 6)%Z <$> time_until_next now d
        end in
      match delay with
      | None => (PollPanic, s)
      | Some deadline =>
          if decide (later < deadline)%Z then (Pending, {| duration := Some d; delay := Some deadline |})
          else if decide (later < 0)%Z then (PollPanic, {| duration := Some d; delay := None |})
          else (Ready (u64 (as_millis later)), {| duration := Some d; delay := None |})
      end
  end.

Lemma time_until_next_bound now d : (0 < d < 2 ^ 64)%Z →
  time_until_next now d = Some (d - u64 (as_millis now) mod d - 1)%Z.
Proof.
  intros Hd. unfold time_until_next. rewrite decide_False by lia.
  pose proof (Z.mod_pos_bound (u64 (as_millis now)) d) as Hm.
  rewrite (u64_id (d - _)) by (unfold is_u64; lia). by rewrite u64_id by (unfold is_u64; lia).
Qed.

(** A tick that comes when its delay elapses has a timestamp in the last
    millisecond of an interval of the epoch. *)
Lemma scheduler_aligned now d deadline :
  (0 < d)%Z → (0 ≤ now)%Z → is_u64 (as_millis now + d) → is_u64 d →
  (poll_next now now (new (Some d))).2 = {| duration := Some d; delay := Some deadline |} →
  poll_next deadline deadline {| duration := Some d; delay := Some deadline |} =
    (Ready (as_millis deadline), new (Some d)) ∧
  (as_millis deadline mod d = d - 1)%Z ∧ (as_millis now ≤ as_millis deadline < as_millis now + d)%Z.
Proof.
  unfold is_u64. intros Hd Hn Hu Hu' Hpoll.
  assert (0 ≤ as_millis now)%Z as Hms by (apply Z.div_pos; lia).
  revert Hpoll. unfold poll_next, new. cbn [duration delay]. rewrite decide_False by lia.
  rewrite time_until_next_bound, u64_id by (unfold is_u64; lia). cbn [fmap option_fmap option_map].
  set (r := (d - as_millis now mod d - 1)%Z).
  pose proof (Z.mod_pos_bound (as_millis now) d Hd) as Hm.
  assert (as_millis (now + r * 10 ^ 6) = as_millis now + r)%Z as Hr
    by (unfold as_millis; by rewrite Z.div_add by lia).
  case_decide as Hlt; [|by case_decide]. intros [= <-]. rewrite !decide_False by lia. rewrite Hr.
  rewrite u64_id by (unfold is_u64; lia). split; [done|].
  assert (as_millis now = d * (as_millis now / d) + as_millis now mod d)%Z as Hdiv by (apply Z.div_mod; lia).
  split; [|lia]. replace (as_millis now + r)%Z with (d - 1 + as_millis now / d * d)%Z by lia.
  rewrite Z.mod_add by lia. apply Z.mod_small. lia.
Qed.

(** In that millisecond the next delay is zero: an authority whose turn takes
    less than a millisecond has another one at once. *)
Lemma scheduler_ticks_again now d : (0 < d)%Z → is_u64 d → (0 ≤ now)%Z → is_u64 (as_millis now) →
  (as_millis now mod d = d - 1)%Z →
  poll_next now now (new (Some d)) = (Ready (as_millis now), new (Some d)).
Proof.
  unfold is_u64. intros Hd Hu Hn Hms Hmod. unfold poll_next, new. cbn [duration delay].
  rewrite decide_False by lia. rewrite time_until_next_bound, !u64_id by (unfold is_u64; lia).
  rewrite Hmod. cbn [fmap option_fmap option_map]. by rewrite !decide_False by lia.
Qed.
End Scheduler.

(** ** The engine *)
Module PoaEngine.

(** [struct Proof] *)
Record PoaProof := {
  pp_public_key : PublicKey;
  pp_signature : Signature;
}.

(** The fields of [struct PoaStream] that never change. *)
Record Setup := {
  poa_meta : Poa.Meta;
  secret_key : SecretKey;
  address : Address;
}.

(** [struct ConsensusState] *)
Record ConsensusState := {
  cs_consensus_name : string;
  cs_address : Address;
  cs_meta : Poa.Meta;
  cs_authority : Address;
}.

Section Engine.
Context {SC : Scale} {CS : ConsensusSupport}.

Definition codec_proof : Codec PoaProof :=
  iso_codec (sc_pair sc_bytes sc_bytes) (λ '(k, s), Build_PoaProof k s)
    (λ p, (pp_public_key p, pp_signature p))
    (λ p, match p with Build_PoaProof _ _ => eq_refl end) (λ '(k, s), eq_refl).

(** [Proof::new] *)
Definition proof_new (block_hash : Hash) (secret_key : SecretKey) : CommonResult PoaProof :=
  let message := encode sc_bytes block_hash in
  let? (public_key, signature) := support_sign secret_key message in
  Ok (Build_PoaProof public_key signature).

(** [impl TryFrom<Proof> for primitives::Proof] *)
Definition proof_try_into (value : PoaProof) : Proof :=
  {| pf_name := SystemModule.CONSENSUS_POA; pf_data := encode codec_proof value |}.

(** [None] is the panic of [expect]. *)
Definition get_poa_meta (w : World) (number : BlockNumber) : option (CommonResult Poa.Meta) :=
  match execute_call_with_block_number sc_unit Poa.codec_meta w number None "poa" "get_meta" tt with
  | Ok (Ok meta) => Some (Ok meta)
  | Ok (Err _) => None
  | Err e => Some (Err e)
  end.
Definition get_poa_authority (w : World) (number : BlockNumber) : option (CommonResult Address) :=
  match execute_call_with_block_number sc_unit sc_bytes w number None "poa" "get_authority" tt with
  | Ok (Ok authority) => Some (Ok authority)
  | Ok (Err _) => None
  | Err e => Some (Err e)
  end.

(** [Poa::verify_proof] *)
Definition verify_proof (w : World) (header : Header) (proof : Proof) : option (CommonResult unit) :=
  let name := pf_name proof in
  if decide (name ≠ SystemModule.CONSENSUS_POA) then
    Some (Err (consensus_error (ConsensusVerifyProofError ("Unexpected consensus: " +:+ name))))
  else
    match decode codec_proof (pf_data proof) with
    | None => Some (Err (consensus_error (ConsensusVerifyProofError "Decode error")))
    | Some proof =>
        let address := support_address (pp_public_key proof) in
        match get_poa_authority w (u64 (hdr_number header - 1)) with
        | None => None
        | Some (Err e) => Some (Err e)
        | Some (Ok authority_address) =>
            if decide (address = authority_address) then Some (Ok tt)
            else Some (Err (consensus_error (ConsensusVerifyProofError "Not authority")))
        end
    end.

(** Whether a proof is accepted depends on its key alone: nothing ties it to
    the block, and its signature is not verified. *)
Lemma verify_proof_by_key w header pf :
  verify_proof w header (proof_try_into pf) =
    match get_poa_authority w (u64 (hdr_number header - 1)) with
    | None => None
    | Some (Err e) => Some (Err e)
    | Some (Ok authority) =>
        if decide (support_address (pp_public_key pf) = authority) then Some (Ok tt)
        else Some (Err (consensus_error (ConsensusVerifyProofError "Not authority")))
    end.
Proof.
  unfold verify_proof, proof_try_into. cbn [pf_name pf_data].
  rewrite decide_False by (intros H; by apply H). rewrite decode_encode; [done|].
  unfold codec_proof. cbn [wf iso_codec]. rewrite sc_pair_wf. auto with codec.
Qed.

(** The address of the key: a signature yields its public key. *)
Definition get_address (secret_key : SecretKey) : CommonResult Address :=
  let? (public_key, _) := support_sign secret_key [] in
  Ok (support_address public_key).

(** The state of the task: the chain and the pool behind the support, and the
    replies to [GetConsensusState]. *)
Record PoaStream := {
  support : World;
  replies : list ConsensusState;
}.
Definition P (A : Type) : Type := M PoaStream Failure A.
Definition on_support {A} (m : M World CommonError A) : P A := λ s,
  let '(r, w) := m (support s) in (map_err Fail r, Build_PoaStream w (replies s)).

Variable self : Setup.

Definition work (timestamp : Z) : P unit :=
  let! w := asks support in
  let current_state := get_current_state w in
  let! authority_address := try_panic (get_poa_authority w (confirmed_number current_state)) in
  if decide (address self ≠ authority_address) then ret tt
  else
    let! build_block_params := on_support (prepare_block timestamp) in
    let tx_hash_set : gset Hash :=
      list_to_set ((tx_hash <$> bb_meta_txs build_block_params) ++
                   (tx_hash <$> bb_payload_txs build_block_params)) in
    let! w := asks support in
    let! commit_block_params := try (build_block w build_block_params) in
    let! proof := try (proof_new (cb_block_hash commit_block_params) (secret_key self)) in
    let commit_block_params := with_proof (proof_try_into proof) commit_block_params in
    do! on_support (commit_block commit_block_params) in
    on_support (txpool_remove_transactions tx_hash_set).

(** The clock, in nanoseconds since the epoch, may be before it. *)
Definition generate (now : Z) : P unit :=
  if decide (now < 0)%Z then throw (Fail (consensus_error ConsensusTime))
  else work (u64 (Scheduler.as_millis now)).

Definition consensus_state : P ConsensusState :=
  let! w := asks support in
  let! authority := try_panic (get_poa_authority w (confirmed_number (get_current_state w))) in
  ret {| cs_consensus_name := SystemModule.CONSENSUS_POA; cs_address := address self;
         cs_meta := poa_meta self; cs_authority := authority |}.

Definition on_in_message (now : Z) (m : ConsensusInMessage) : P unit :=
  match m with
  | InGenerate => generate now
  | GetConsensusState =>
      let! value := consensus_state in
      modify (λ s, Build_PoaStream (support s) (replies s ++ [value]))
  | _ => ret tt
  end.

(** A branch of the [select!] of [start]. *)
Inductive Event :=
| EvSchedule (timestamp : Z)
| EvIn (now : Z) (m : ConsensusInMessage).

Definition handle (ev : Event) : P unit :=
  match ev with
  | EvSchedule timestamp => or_warn (work timestamp)
  | EvIn now m => or_warn (on_in_message now m)
  end.
End Engine.

(** [PoaStream::spawn] with the part of [Poa::new] that reads the chain:
    without a key there is no task.  [None] is a panic. *)
Definition spawn {SC : Scale} {CS : ConsensusSupport} (w : World) (key : option SecretKey) :
    option (CommonResult (option (Setup * Scheduler.Scheduler))) :=
  match get_poa_meta w 0 with
  | None => None
  | Some (Err e) => Some (Err e)
  | Some (Ok meta) =>
      match key with
      | None => Some (Ok None)
      | Some key =>
          Some (let? address := get_address key in
                Ok (Some ({| poa_meta := meta; secret_key := key; address := address |},
                          Scheduler.new (Poa.meta_block_interval meta))))
      end
  end.
End PoaEngine.
