(* ===== verification/Db.v ===== *)
(** * Db

    [core/node/db/src/lib.rs]: the key-value database.  RocksDB is not part of
    the repository: a database is the finite map that it stores, by column and
    key, with the outcomes of the next writes.  A write is atomic; reads do not
    fail. *)
From S2P Require Import Prelude Codec Types.

(** ** [mod columns] and [mod global_key] *)
Definition GLOBAL : Z := 0.
Definition BLOCK_HASH : Z := 1.
Definition HEADER : Z := 2.
Definition META_STATE : Z := 3.
Definition META_TXS : Z := 4.
Definition PAYLOAD_STATE : Z := 5.
Definition PAYLOAD_TXS : Z := 6.
Definition TX : Z := 7.
Definition RECEIPT : Z := 8.
Definition EXECUTION : Z := 9.
Definition PROOF : Z := 10.
Definition CONSENSUS : Z := 11.

Definition CONFIRMED_NUMBER : bytes := b "confirmed_number".
Definition EXECUTION_NUMBER : bytes := b "execution_number".
Definition SPEC : bytes := b "spec".

(** ** Transactions *)

(** [enum DBOp] *)
Inductive DBOp :=
| OpInsert (col : Z) (key : DBKey) (value : DBValue)
| OpDelete (col : Z) (key : DBKey).

(** [struct DBTransaction] *)
Record DBTransaction := { ops : list DBOp }.

Definition transaction_new : DBTransaction := {| ops := [] |}.
Definition put_owned (col : Z) (key : DBKey) (value : DBValue) (t : DBTransaction) : DBTransaction :=
  {| ops := ops t ++ [OpInsert col key value] |}.
Definition delete_key (col : Z) (key : DBKey) (t : DBTransaction) : DBTransaction :=
  {| ops := ops t ++ [OpDelete col key] |}.
Definition extend (transaction t : DBTransaction) : DBTransaction :=
  {| ops := ops t ++ ops transaction |}.

(** ** The database *)

(** What is stored, by column and key. *)
Abbreviation Entries := (gmap (Z * DBKey) DBValue).

(** [None] is a write that succeeds, and so is every write after the end of
    the list. *)
Record DB := {
  entries : Entries;
  faults : list (option CommonError);
}.

(** [DB::get] *)
Definition db_get (col : Z) (key : DBKey) (db : DB) : CommonResult (option DBValue) :=
  Ok (entries db !! (col, key)).

(** [DB::get_with] *)
Definition get_with {U} (col : Z) (key : DBKey) (f : DBValue → CommonResult U) (db : DB) :
    CommonResult (option U) :=
  let? value := db_get col key db in
  match value with
  | Some value => let? u := f value in Ok (Some u)
  | None => Ok None
  end.

(** One operation of the batch of [DB::write]. *)
Definition apply_op (m : Entries) (op : DBOp) : Entries :=
  match op with
  | OpInsert col key value => <[(col, key) := value]> m
  | OpDelete col key => delete (col, key) m
  end.
Definition apply_ops (l : list DBOp) (m : Entries) : Entries := foldl apply_op m l.

(** [DB::write] *)
Definition write (transaction : DBTransaction) : M DB CommonError unit := λ db,
  match faults db with
  | Some e :: rest => (Err e, Build_DB (entries db) rest)
  | None :: rest => (Ok tt, Build_DB (apply_ops (ops transaction) (entries db)) rest)
  | [] => (Ok tt, Build_DB (apply_ops (ops transaction) (entries db)) [])
  end.

(** ** What a batch writes *)

Definition op_key (op : DBOp) : Z * DBKey :=
  match op with OpInsert col key _ | OpDelete col key => (col, key) end.
Definition op_value (op : DBOp) : option DBValue :=
  match op with OpInsert _ _ value => Some value | OpDelete _ _ => None end.

(** The last operation on a key: [None] when there is none. *)
Fixpoint written (l : list DBOp) (k : Z * DBKey) : option (option DBValue) :=
  match l with
  | [] => None
  | op :: l =>
      match written l k with
      | Some v => Some v
      | None => if decide (op_key op = k) then Some (op_value op) else None
      end
  end.

Lemma lookup_apply_op m op k :
  apply_op m op !! k = if decide (op_key op = k) then op_value op else m !! k.
Proof.
  destruct op as [c k' v|c k']; cbn; case_decide as Hk.
  - by rewrite Hk, lookup_insert_eq.
  - by rewrite lookup_insert_ne.
  - by rewrite Hk, lookup_delete_eq.
  - by rewrite lookup_delete_ne.
Qed.

Lemma lookup_apply_ops l m k : apply_ops l m !! k = default (m !! k) (written l k).
Proof.
  revert m. induction l as [|op l IH]; intros m; [done|]. unfold apply_ops in *. cbn.
  rewrite IH. destruct (written l k); [done|]. cbn. rewrite lookup_apply_op. by case_decide.
Qed.

Lemma apply_ops_app l1 l2 m : apply_ops (l1 ++ l2) m = apply_ops l2 (apply_ops l1 m).
Proof. apply foldl_app. Qed.

Lemma written_app l1 l2 k :
  written (l1 ++ l2) k = match written l2 k with Some v => Some v | None => written l1 k end.
Proof.
  induction l1 as [|op l1 IH]; cbn; [by destruct (written l2 k)|].
  rewrite IH. by destruct (written l2 k).
Qed.

Lemma written_none l k : (∀ op, op ∈ l → op_key op ≠ k) → written l k = None.
Proof.
  induction l as [|op l IH]; intros Hl; [done|]. cbn.
  rewrite IH by (intros op' Hop; apply Hl; by right).
  rewrite decide_False; [done|]. apply Hl. by left.
Qed.

Lemma written_some l k v : written l k = Some v → ∃ op, op ∈ l ∧ op_key op = k ∧ op_value op = v.
Proof.
  induction l as [|op l IH]; [done|]. cbn. destruct (written l k) as [w|].
  - intros [= <-]. destruct (IH eq_refl) as (op' & ? & ? & ?). exists op'. split; [by right|done].
  - case_decide; intros [= <-]. exists op. split; [by left|done].
Qed.

(** A write that succeeds stores the whole batch, one that fails nothing. *)
Lemma write_outcome t db r db' : write t db = (r, db') →
  entries db' = match r with Ok _ => apply_ops (ops t) (entries db) | Err _ => entries db end.
Proof. unfold write. by destruct (faults db) as [|[e|] l]; intros [= <- <-]. Qed.

Lemma get_with_decode {U} (C : Codec U) col key db :
  get_with col key (codec_decode C) db =
  match entries db !! (col, key) with
  | Some value => match decode C value with Some u => Ok (Some u) | None => Err ECodec end
  | None => Ok None
  end.
Proof.
  unfold get_with, db_get, codec_decode. cbn [result_bind].
  destruct (entries db !! (col, key)) as [v|]; [|done]. by destruct (decode C v).
Qed.

(** ** The operations on one column *)
Definition column (col : Z) (l : list DBOp) : list DBOp := filter (λ op, (op_key op).1 = col) l.

Lemma written_column l col k : written (column col l) (col, k) = written l (col, k).
Proof.
  induction l as [|op l IH]; [done|]. unfold column in *. rewrite filter_cons. cbn [written].
  case_decide as Hc; cbn [written]; rewrite IH; [done|].
  destruct (written l (col, k)); [done|]. rewrite decide_False; [done|]. intros Hk. by rewrite Hk in Hc.
Qed.

Lemma lookup_batch l m col k :
  apply_ops l m !! (col, k) = default (m !! (col, k)) (written (column col l) (col, k)).
Proof. by rewrite written_column, lookup_apply_ops. Qed.

Lemma column_app col l1 l2 : column col (l1 ++ l2) = column col l1 ++ column col l2.
Proof. apply filter_app. Qed.

Lemma column_all col l : (∀ op, op ∈ l → (op_key op).1 = col) → column col l = l.
Proof.
  induction l as [|op l IH]; intros Hl; [done|]. unfold column in *. rewrite filter_cons.
  rewrite decide_True by (apply Hl; by left). f_equal. apply IH. intros op' Hop. apply Hl. by right.
Qed.

Lemma column_other col l : (∀ op, op ∈ l → (op_key op).1 ≠ col) → column col l = [].
Proof.
  induction l as [|op l IH]; intros Hl; [done|]. unfold column in *. rewrite filter_cons.
  rewrite decide_False by (apply Hl; by left). apply IH. intros op' Hop. apply Hl. by right.
Qed.

(** Insertions into one column. *)
Lemma column_inserts {A} col col' (key val : A → bytes) (l : list A) :
  column col ((λ x, OpInsert col' (key x) (val x)) <$> l) =
  if decide (col = col') then (λ x, OpInsert col' (key x) (val x)) <$> l else [].
Proof.
  case_decide as Hc.
  - apply column_all. intros op (x & -> & _)%list_elem_of_fmap. by cbn.
  - apply column_other. intros op (x & -> & _)%list_elem_of_fmap. cbn. congruence.
Qed.

(** A key among those inserted is there afterwards. *)
Lemma written_inserted {A} col (key val : A → bytes) (l : list A) k :
  k ∈ key <$> l → ∃ x, x ∈ l ∧ key x = k ∧
    written ((λ x, OpInsert col (key x) (val x)) <$> l) (col, k) = Some (Some (val x)).
Proof.
  induction l as [|y l IH]; [by intros ?%not_elem_of_nil|]. rewrite !fmap_cons. cbn [written].
  intros Hk. destruct (decide (k ∈ key <$> l)) as [Hin|Hin].
  - destruct (IH Hin) as (x & Hx & Hkx & ->). exists x. split; [by right|done].
  - apply elem_of_cons in Hk as [->|?]; [|done]. exists y. split; [by left|]. split; [done|].
    rewrite written_none, decide_True; [done..|].
    intros op (x & -> & Hx)%list_elem_of_fmap. cbn. intros [= Heq]. apply Hin.
    rewrite <-Heq. by apply list_elem_of_fmap_2.
Qed.

Lemma lookup_one col l m k v h : column col l = [OpInsert col k v] →
  apply_ops l m !! (col, h) = if decide (h = k) then Some v else m !! (col, h).
Proof.
  intros Hc. rewrite lookup_batch, Hc. cbn [written op_key op_value].
  destruct (decide (h = k)) as [->|Hk]; [by rewrite decide_True|].
  rewrite decide_False; [done|]. congruence.
Qed.

Lemma lookup_untouched col l m h : column col l = [] → apply_ops l m !! (col, h) = m !! (col, h).
Proof. intros Hc. by rewrite lookup_batch, Hc. Qed.
