(* ===== verification/Statedb.v ===== *)
(** * Statedb

    [core/node/statedb/src/lib.rs]: the state of the chain as a Merkle trie
    whose nodes are in one column of the database.  The trie itself
    ([trie_db], [memory_db], [trie_root]) is a library: it is the interface
    [TrieLib], and what the state relies on are its laws [TrieLaws].  The state
    databases implement the interface [StateDBApi] of the executor. *)
From Stdlib Require Import Strings.Byte.
From S2P Require Import Prelude Codec Types Context ExecutorContext Executor Db.

(** A state as a map from keys to values. *)
Abbreviation Contents := (gmap DBKey DBValue).

(** What the state database uses of the trie library, which reads the nodes of
    the database by the function it is given. *)
Class TrieLib : Type := {
  TrieDB : Type;
  triedb_new : (DBKey → option DBValue) → Hash → CommonResult TrieDB;
  triedb_get : TrieDB → DBKey → CommonResult (option DBValue);
  TrieDBMut : Type;
  triedbmut_new : (DBKey → option DBValue) → TrieDBMut;
  triedbmut_from_existing : (DBKey → option DBValue) → Hash → CommonResult TrieDBMut;
  triedbmut_insert : DBKey → DBValue → TrieDBMut → CommonResult TrieDBMut;
  triedbmut_remove : DBKey → TrieDBMut → CommonResult TrieDBMut;
  (** What dropping the trie leaves: the root, and the buffer of nodes with
      their reference counts. *)
  triedbmut_drop : TrieDBMut → Hash * list (DBKey * (DBValue * Z));
  trie_root : list (bytes * bytes) → Hash;
}.

Section Statedb.
Context {SC : Scale} {CR : Crypto} {TL : TrieLib}.

(** [struct StateDB]: the database it reads, and its column. *)
Record StateDB := {
  sd_db : Entries;
  db_column : Z;
}.

(** [impl HashDB for ProxyHashDB]: the nodes that are not in the buffer *)
Definition proxy_get (d : StateDB) (key : DBKey) : option DBValue := sd_db d !! (db_column d, key).

(** [StateDB::default_root] *)
Definition default_root : Hash := repeat Byte.x00 hash_length.

(** [copy_from_slice] of a root into an array of the hash's length, which
    panics for other lengths. *)
Definition typed_root (root : Hash) : CommonResult Hash :=
  if decide (length root = hash_length) then Ok root else Err (EOther "copy_from_slice").

(** [StateDB::get] *)
Definition statedb_get (d : StateDB) (root : Hash) (key : DBKey) : CommonResult (option DBValue) :=
  let? root := typed_root root in
  let? triedb := triedb_new (proxy_get d) root in
  triedb_get triedb key.

(** [StateDBStmtForHasher] *)
Record StateDBStmt := {
  proxy : StateDB;
  stmt_root : Hash;
  stmt_new : bool;
}.

(** [StateDB::prepare_stmt] *)
Definition statedb_prepare_stmt (d : StateDB) (root : Hash) : CommonResult StateDBStmt :=
  let new := bool_decide (default_root = root) in
  let? root := typed_root root in
  Ok (Build_StateDBStmt d root new).

(** [StateDB::prepare_get] and [StateDBGetter::get] *)
Definition statedb_prepare_get (stmt : StateDBStmt) :
    CommonResult (DBKey → CommonResult (option DBValue)) :=
  let? triedb := if stmt_new stmt then Ok None
                 else let? triedb := triedb_new (proxy_get (proxy stmt)) (stmt_root stmt) in
                      Ok (Some triedb) in
  Ok (λ key, match triedb with
             | Some triedb => triedb_get triedb key
             | None => Ok None
             end).

(** The loop of [prepare_update_for_hasher] over the data. *)
Fixpoint apply_data (data : Updates) (triedb : TrieDBMut) : CommonResult TrieDBMut :=
  match data with
  | [] => Ok triedb
  | (k, v) :: data =>
      let? triedb := match v with
                     | Some v => triedbmut_insert k v triedb
                     | None => triedbmut_remove k triedb
                     end in
      apply_data data triedb
  end.

(** The loop over the buffer: only insertions are applied. *)
Definition extract_buffer (col : Z) (nodes : list (DBKey * (DBValue * Z))) : DBTransaction :=
  foldl (λ t x, let '(k, (v, rc)) := x in
                if decide (rc > 0)%Z then put_owned col k v t else t) transaction_new nodes.

(** [StateDB::prepare_update] *)
Definition statedb_prepare_update (d : StateDB) (root : Hash) (data : Updates) :
    CommonResult (Hash * DBTransaction) :=
  let? root := typed_root root in
  let new := bool_decide (default_root = root) in
  let? triedb := if new then Ok (triedbmut_new (proxy_get d))
                 else triedbmut_from_existing (proxy_get d) root in
  let? triedb := apply_data data triedb in
  let '(root, nodes) := triedbmut_drop triedb in
  Ok (root, extract_buffer (db_column d) nodes).

(** [TrieRoot::calc_ordered_trie_root] *)
Definition statedb_calc_ordered_trie_root (input : list bytes) : Hash :=
  trie_root (imap (λ k v, (encode sc_u32 (u32 (Z.of_nat k)), v)) input).

#[global] Instance statedb_api : StateDBApi := {|
  ExecutorContext.StateDB := StateDB;
  ExecutorContext.StateDBStmt := StateDBStmt;
  ExecutorContext.DBTransaction := DBTransaction;
  prepare_stmt := statedb_prepare_stmt;
  prepare_get := statedb_prepare_get;
  prepare_update := statedb_prepare_update;
  calc_ordered_trie_root := statedb_calc_ordered_trie_root;
|}.

(** ** The laws of the trie *)

(** The nodes that a transaction inserts. *)
Definition live_nodes (nodes : list (DBKey * (DBValue * Z))) : list (DBKey * DBValue) :=
  omap (λ x, if decide (x.2.2 > 0)%Z then Some (x.1, x.2.1) else None) nodes.

(** [holds fetch root m]: the nodes of [fetch] under [root] are a trie with
    the contents [m]; [builds fetch t m]: the open trie has the contents [m]. *)
Class TrieLaws : Type := {
  holds : (DBKey → option DBValue) → Hash → Contents → Prop;
  builds : (DBKey → option DBValue) → TrieDBMut → Contents → Prop;
  holds_get : ∀ fetch root m, holds fetch root m →
    ∃ t, triedb_new fetch root = Ok t ∧ ∀ k, triedb_get t k = Ok (m !! k);
  (** Further nodes do not matter. *)
  holds_mono : ∀ fetch fetch' root m, holds fetch root m →
    (∀ k v, fetch k = Some v → fetch' k = Some v) → holds fetch' root m;
  new_builds : ∀ fetch, builds fetch (triedbmut_new fetch) ∅;
  existing_builds : ∀ fetch root m, holds fetch root m →
    ∃ t, triedbmut_from_existing fetch root = Ok t ∧ builds fetch t m;
  insert_builds : ∀ fetch t m k v, builds fetch t m →
    ∃ t', triedbmut_insert k v t = Ok t' ∧ builds fetch t' (<[k := v]> m);
  remove_builds : ∀ fetch t m k, builds fetch t m →
    ∃ t', triedbmut_remove k t = Ok t' ∧ builds fetch t' (delete k m);
  (** The nodes that are left, with those that were there, hold the trie. *)
  drop_holds : ∀ fetch t m root nodes fetch', builds fetch t m → triedbmut_drop t = (root, nodes) →
    (∀ k v, fetch k = Some v → fetch' k = Some v) →
    (∀ k v, (k, v) ∈ live_nodes nodes → fetch' k = Some v) → holds fetch' root m;
  (** The buffer is a map. *)
  drop_nodup : ∀ t, NoDup (triedbmut_drop t).2.*1;
  (** A root is a hash, and no trie hashes to zeros. *)
  drop_root : ∀ t, length (triedbmut_drop t).1 = hash_length ∧ (triedbmut_drop t).1 ≠ default_root;
}.
End Statedb.

(** ** What a state promises

    What the state database promises to the executor and to the chain: a state
    that is updated and written is read back, and states that were there
    before stay. *)
Section Proofs.
Context {SC : Scale} {CR : Crypto} {TL : TrieLib} {LAWS : TrieLaws}.

(** The state with a root has some contents; the default root is the empty
    state, which has no nodes. *)
Definition represents (d : StateDB) (root : Hash) (m : Contents) : Prop :=
  length root = hash_length ∧
  if decide (default_root = root) then m = ∅ else holds (proxy_get d) root m.

(** Reading a key of a state, as [ContextEssence] and [Context] do. *)
Definition read_state (d : StateDB) (root : Hash) (key : DBKey) : CommonResult (option DBValue) :=
  let? stmt := statedb_prepare_stmt d root in
  let? getter := statedb_prepare_get stmt in
  getter key.

Lemma represents_default d : represents d default_root ∅.
Proof. split; [by unfold default_root; rewrite repeat_length|by rewrite decide_True]. Qed.

Lemma represents_getter d root m : represents d root m →
  ∃ stmt getter, statedb_prepare_stmt d root = Ok stmt ∧ statedb_prepare_get stmt = Ok getter ∧
    ∀ k, getter k = Ok (m !! k).
Proof.
  intros [Hl Hm]. unfold statedb_prepare_stmt, typed_root. rewrite decide_True by done.
  cbn [result_bind]. exists (Build_StateDBStmt d root (bool_decide (default_root = root))).
  unfold statedb_prepare_get. cbn [stmt_new stmt_root proxy].
  case_decide as Hd.
  - rewrite bool_decide_eq_true_2 by done. subst m. eexists. split_and!; [done..|]. intros k.
    by rewrite lookup_empty.
  - rewrite bool_decide_eq_false_2 by done. destruct (holds_get _ _ _ Hm) as (t & Ht & Hk).
    rewrite Ht. eexists. split_and!; [done..|]. exact Hk.
Qed.

Lemma represents_read d root m : represents d root m → ∀ k, read_state d root k = Ok (m !! k).
Proof.
  intros (stmt & getter & Hs & Hg & Hk)%represents_getter k. unfold read_state.
  rewrite Hs. cbn [result_bind]. rewrite Hg. apply Hk.
Qed.

(** The contents after a batch of updates. *)
Definition update_contents (data : Updates) (m : Contents) : Contents :=
  foldl (λ m kv, match kv.2 with Some v => <[kv.1 := v]> m | None => delete kv.1 m end) m data.

Lemma apply_data_builds fetch data t m : builds fetch t m →
  ∃ t', apply_data data t = Ok t' ∧ builds fetch t' (update_contents data m).
Proof.
  revert t m. induction data as [|[k [v|]] data IH]; intros t m Ht; cbn [apply_data].
  - by exists t.
  - destruct (insert_builds _ _ _ k v Ht) as (t1 & H1 & Ht1). rewrite H1. cbn [result_bind].
    by apply IH.
  - destruct (remove_builds _ _ _ k Ht) as (t1 & H1 & Ht1). rewrite H1. cbn [result_bind].
    by apply IH.
Qed.

(** ** The transaction of an update *)

Lemma extract_buffer_ops col nodes :
  ops (extract_buffer col nodes) = (λ kv, OpInsert col kv.1 kv.2) <$> live_nodes nodes.
Proof.
  unfold extract_buffer. change ((λ kv, OpInsert col kv.1 kv.2) <$> live_nodes nodes)
    with (ops transaction_new ++ ((λ kv, OpInsert col kv.1 kv.2) <$> live_nodes nodes)).
  generalize transaction_new. induction nodes as [|[k [v rc]] nodes IH]; intros t; cbn.
  - by rewrite app_nil_r.
  - rewrite IH. case_decide; [|done]. cbn. by rewrite <-app_assoc.
Qed.

Lemma live_nodes_nodup nodes : NoDup nodes.*1 → NoDup (live_nodes nodes).*1.
Proof.
  induction nodes as [|[k [v rc]] nodes IH]; [intros _; constructor|]. rewrite fmap_cons, NoDup_cons.
  intros [Hk Hnd]. unfold live_nodes in *. cbn. case_decide; [|by apply IH].
  rewrite fmap_cons. apply NoDup_cons. split; [|by apply IH]. cbn.
  intros ([k' w] & -> & ([x [w' rc']] & Hx & Hc)%list_elem_of_omap)%list_elem_of_fmap.
  cbn in Hc. case_decide; [|done]. injection Hc as <- <-. apply Hk. apply list_elem_of_fmap.
  by exists (x, (w', rc')).
Qed.

Lemma written_inserts col (l : list (DBKey * DBValue)) k v :
  NoDup l.*1 → (k, v) ∈ l →
  written ((λ kv, OpInsert col kv.1 kv.2) <$> l) (col, k) = Some (Some v).
Proof.
  induction l as [|[k' v'] l IH]; [by intros _ ?%not_elem_of_nil|].
  rewrite !fmap_cons, NoDup_cons, elem_of_cons. cbn [fst snd].
  intros [Hk Hnd] [[= <- <-]|Hin]; cbn.
  - rewrite written_none, decide_True; [done..|].
    intros op ([k2 v2] & -> & Hin)%list_elem_of_fmap. cbn. intros [= ->].
    apply Hk. apply list_elem_of_fmap. by exists (k, v2).
  - by rewrite IH.
Qed.

(** Nodes are named by their hashes: an update does not give another value to
    a node that is there. *)
Definition fresh (l : list DBOp) (m : Entries) : Prop :=
  ∀ op, op ∈ l → m !! op_key op = None ∨ m !! op_key op = op_value op.

(** Fresh insertions keep what is there. *)
Lemma fresh_keeps l m k v :
  (∀ op, op ∈ l → is_Some (op_value op)) → fresh l m → m !! k = Some v →
  apply_ops l m !! k = Some v.
Proof.
  intros Hins Hf Hk. rewrite lookup_apply_ops. destruct (written l k) as [w|] eqn:Hw; [|done].
  apply written_some in Hw as (op & Hop & <- & Hv). cbn.
  destruct (Hf op Hop) as [?|Heq]; [congruence|]. congruence.
Qed.

Lemma represents_mono d d' root m :
  (∀ k v, proxy_get d k = Some v → proxy_get d' k = Some v) →
  represents d root m → represents d' root m.
Proof. intros Hd [Hl Hm]. split; [done|]. case_decide; [done|]. by eapply holds_mono. Qed.

(** The database after a transaction. *)
Definition stored (t : DBTransaction) (d : StateDB) : StateDB :=
  Build_StateDB (apply_ops (ops t) (sd_db d)) (db_column d).

Lemma prepare_update_spec d root m data : represents d root m →
  ∃ root' t, statedb_prepare_update d root data = Ok (root', t) ∧
    (∀ op, op ∈ ops t → (op_key op).1 = db_column d ∧ is_Some (op_value op)) ∧
    (fresh (ops t) (sd_db d) → represents (stored t d) root' (update_contents data m)).
Proof.
  intros [Hl Hm]. unfold statedb_prepare_update, typed_root. rewrite decide_True by done.
  cbn [result_bind].
  assert (∃ t0, (if bool_decide (default_root = root) then Ok (triedbmut_new (proxy_get d))
            else triedbmut_from_existing (proxy_get d) root) = Ok t0 ∧ builds (proxy_get d) t0 m)
    as (t0 & Ht0 & Hb).
  { case_decide as Hd.
    - rewrite bool_decide_eq_true_2 by done. subst m. eexists. split; [done|apply new_builds].
    - rewrite bool_decide_eq_false_2 by done. by apply existing_builds. }
  rewrite Ht0. cbn [result_bind].
  destruct (apply_data_builds _ data t0 m Hb) as (t1 & Ht1 & Hb1). rewrite Ht1. cbn [result_bind].
  pose proof (drop_nodup t1) as Hnd. pose proof (drop_root t1) as [Hrl Hrd].
  destruct (triedbmut_drop t1) as [root' nodes] eqn:Hdrop. cbn [fst snd] in *.
  eexists _, _. split; [done|]. rewrite extract_buffer_ops. split.
  { intros op ([k v] & -> & _)%list_elem_of_fmap. cbn. by split. }
  intros Hf. split; [done|]. rewrite decide_False by congruence.
  eapply drop_holds; [exact Hb1|exact Hdrop| |].
  - intros k v Hk. unfold proxy_get, stored in *. cbn. rewrite extract_buffer_ops.
    apply fresh_keeps; [|done|done]. by intros op ([? ?] & -> & _)%list_elem_of_fmap.
  - intros k v Hk. unfold proxy_get, stored. cbn. rewrite extract_buffer_ops, lookup_apply_ops.
    rewrite (written_inserts _ _ k v); [done| |done]. by apply live_nodes_nodup.
Qed.

(** C35: an update of a state never fails; once its transaction is written, the
    new root reads the updated contents, every state that was in the database
    reads as before, and nothing outside the state's column has changed. *)
Theorem state_update_readable d root m data : represents d root m →
  ∃ root' t, statedb_prepare_update d root data = Ok (root', t) ∧
    (∀ col k, col ≠ db_column d → sd_db (stored t d) !! (col, k) = sd_db d !! (col, k)) ∧
    (fresh (ops t) (sd_db d) →
     (∀ k, read_state (stored t d) root' k = Ok (update_contents data m !! k)) ∧
     (∀ r mr k, represents d r mr → read_state (stored t d) r k = Ok (mr !! k))).
Proof.
  intros (root' & t & Hu & Hops & Hr)%(prepare_update_spec _ _ _ data).
  exists root', t. split; [done|]. split.
  - intros col k Hcol. unfold stored. cbn. rewrite lookup_apply_ops, written_none; [done|].
    intros op [Hc _]%Hops Hk. rewrite Hk in Hc. cbn in Hc. congruence.
  - intros Hf. split; [by apply represents_read, Hr|]. intros r mr k Hmr. apply represents_read.
    apply (represents_mono d); [|done]. intros k' v Hk'. unfold proxy_get, stored. cbn.
    apply fresh_keeps; [|done|done]. intros op Hop. by apply Hops.
Qed.
End Proofs.

(** ** A concrete trie

    A concrete trie that satisfies the laws of [TrieLaws]: its only node holds
    the whole state and is stored under a hash of it. *)
Module TrieSample.

#[export] Existing Instance FrameScale.scale.

(** A hash of eight bytes, none of which starts with a zero. *)
Definition byte_of_Z (z : Z) : Byte.byte := default Byte.x00 (Byte.of_N (Z.to_N (z mod 256))).
Definition digest (bs : bytes) : Z :=
  foldl (λ acc x, (acc * 257 + Z.of_N (Byte.to_N x) + 1) mod 72057594037927931)%Z 7%Z bs.
Fixpoint digits (n : nat) (z : Z) : bytes :=
  match n with 0 => [] | S n => byte_of_Z z :: digits n (z / 256) end.
Definition toy_hash (bs : bytes) : Hash := Byte.x01 :: digits 7 (digest bs).

(** Addresses and keys are what they are made of; a signature is the key and
    the message. *)
#[export] Instance toy_crypto : Crypto := {|
  hash_length := 8; hash_hash := toy_hash;
  address_length := 1; address_address := take 1; address_display _ := "address";
  KeyPair := bytes; key_pair_from_secret_key k := Ok k;
  kp_public_key k := k; kp_sign k msg := k ++ msg;
  Verifier := bytes; verifier_from_public_key k := Ok k;
  verify k msg sig := if decide (sig = k ++ msg) then Ok tt else Err (ECrypto "signature");
|}.

Definition codec_contents : Codec (list (bytes * bytes)) := sc_list (sc_pair sc_bytes sc_bytes).
Definition node_of (m : Contents) : DBValue := encode codec_contents (map_to_list m).

Definition toy_open (fetch : DBKey → option DBValue) (root : Hash) : CommonResult Contents :=
  match fetch root ≫= decode codec_contents with
  | Some l => Ok (list_to_map l)
  | None => Err (EOther "trie")
  end.

#[export] Instance toy_trie : TrieLib := {|
  TrieDB := Contents;
  triedb_new := toy_open;
  triedb_get m k := Ok (m !! k);
  TrieDBMut := Contents;
  triedbmut_new _ := ∅;
  triedbmut_from_existing := toy_open;
  triedbmut_insert k v m := Ok (<[k := v]> m);
  triedbmut_remove k m := Ok (delete k m);
  triedbmut_drop m := (toy_hash (node_of m), [(toy_hash (node_of m), (node_of m, 1%Z))]);
  trie_root input := toy_hash (encode codec_contents input);
|}.

Lemma toy_open_node (fetch : DBKey → option DBValue) root m :
  fetch root = Some (node_of m) → toy_open fetch root = Ok m.
Proof.
  intros Hf. unfold toy_open. rewrite Hf. cbn [mbind option_bind]. unfold node_of.
  rewrite decode_encode by
    (apply sc_list_wf, Forall_forall; intros [k v] _; apply sc_pair_wf; split; apply sc_bytes_wf).
  by rewrite list_to_map_to_list.
Qed.

Lemma length_digits n z : length (digits n z) = n.
Proof. revert z. induction n as [|n IH]; intros z; cbn; [done|]. by rewrite IH. Qed.

#[export, program] Instance toy_laws : TrieLaws := {
  holds fetch root m := fetch root = Some (node_of m);
  builds _ t m := t = m;
}.
Next Obligation. intros fetch root m Hf. exists m. split; [by apply toy_open_node|done]. Qed.
Next Obligation. intros fetch fetch' root m Hf Hm. by apply Hm. Qed.
Next Obligation. done. Qed.
Next Obligation. intros fetch root m Hf. exists m. split; [by apply toy_open_node|done]. Qed.
Next Obligation. intros fetch t m k v ->. by eexists. Qed.
Next Obligation. intros fetch t m k ->. by eexists. Qed.
Next Obligation. intros fetch t m root nodes fetch' -> [= <- <-] _ Hn. apply Hn. by left. Qed.
Next Obligation. intros t. apply NoDup_singleton. Qed.
Next Obligation.
  intros t. split; [|done]. cbn [triedbmut_drop toy_trie fst toy_hash length].
  by rewrite length_digits.
Qed.

(** ** The state database at a concrete input *)

Definition first_updates : Updates := [(b "x", Some (b "1")); (b "y", Some (b "2")); (b "x", None)].
Definition empty_statedb : StateDB := Build_StateDB ∅ META_STATE.

Lemma state_update_readable_witness :
  ∃ root t, statedb_prepare_update empty_statedb default_root first_updates = Ok (root, t) ∧
    read_state (stored t empty_statedb) root (b "y") = Ok (Some (b "2")) ∧
    read_state (stored t empty_statedb) root (b "x") = Ok None ∧
    read_state (stored t empty_statedb) default_root (b "y") = Ok None.
Proof.
  destruct (state_update_readable empty_statedb default_root ∅ first_updates
              (represents_default empty_statedb)) as (root & t & Hu & _ & H).
  exists root, t. split; [exact Hu|].
  assert (fresh (ops t) (sd_db empty_statedb)) as Hf.
  { intros op _. left. apply lookup_empty. }
  destruct (H Hf) as [Hnew Hold]. split; [|split].
  - rewrite Hnew. vm_compute. reflexivity.
  - rewrite Hnew. vm_compute. reflexivity.
  - rewrite (Hold default_root ∅ (b "y") (represents_default _)). reflexivity.
Defined.
End TrieSample.
