(* ===== verification/ChainData.v ===== *)
(** * ChainData

    What the chain keeps ([core/node/chain/src/backend.rs]): the database, the
    state it derives from it, and how blocks are read from it. *)
From stdpp Require Import pretty.
From S2P Require Import Prelude Codec Types Context ExecutorContext Executor SystemModule Db Statedb.

(** The texts of error messages. *)
Class Show : Type := {
  hash_text : Hash → string;
  hash_debug : Hash → string;
  error_text : CommonError → string;
}.
Definition number_text (n : Z) : string := pretty n.

(** [impl Catchable] and the errors of the chain *)
Definition chain_error (e : ChainErrorKind) : CommonError := EChain e.
Definition data_error (msg : string) : CommonError := chain_error (ChainData msg).

Section ChainData.
Context {SC : Scale} {CR : Crypto} {TL : TrieLib}.

(** [struct CurrentState] *)
Record CurrentState := {
  cs_genesis_hash : Hash;
  context_essence : ContextEssence;
  cs_system_meta : SystemModule.Meta;
  cs_confirmed_number : BlockNumber;
  cs_confirmed_block_hash : Hash;
  cs_executed_number : BlockNumber;
  cs_executed_block_hash : Hash;
}.

Inductive ChainOutMessage :=
| BlockCommitted (number : BlockNumber) (hash : Hash)
| ExecutionCommitted (number : BlockNumber) (hash : Hash).

(** [struct Backend], with the messages that it has sent and the clock in
    milliseconds ([None] is a time before the epoch).  The state databases are
    the columns of the database. *)
Record Backend := {
  db : DB;
  executor_genesis_hash : Hash;
  current_state : option CurrentState;
  message_tx : list ChainOutMessage;
  clock : option Z;
}.

Definition with_db (x : DB) (s : Backend) : Backend :=
  Build_Backend x (executor_genesis_hash s) (current_state s) (message_tx s) (clock s).
Definition with_genesis_hash (x : Hash) (s : Backend) : Backend :=
  Build_Backend (db s) x (current_state s) (message_tx s) (clock s).
Definition with_current_state (x : option CurrentState) (s : Backend) : Backend :=
  Build_Backend (db s) (executor_genesis_hash s) x (message_tx s) (clock s).
Definition with_message_tx (x : list ChainOutMessage) (s : Backend) : Backend :=
  Build_Backend (db s) (executor_genesis_hash s) (current_state s) x (clock s).
Definition with_clock (x : option Z) (s : Backend) : Backend :=
  Build_Backend (db s) (executor_genesis_hash s) (current_state s) (message_tx s) x.

Definition meta_statedb (d : DB) : StateDB := Build_StateDB (entries d) META_STATE.
Definition payload_statedb (d : DB) : StateDB := Build_StateDB (entries d) PAYLOAD_STATE.

(** Calls of the backend. *)
Definition B (A : Type) : Type := M Backend CommonError A.

(** [self.db.write(transaction)?] *)
Definition db_write (t : DBTransaction) : B unit := λ s,
  let '(r, d) := write t (db s) in (r, with_db d s).

(** ** Reading *)

Definition get_confirmed_number (d : DB) : CommonResult (option BlockNumber) :=
  get_with GLOBAL CONFIRMED_NUMBER (codec_decode sc_u64) d.

Definition get_execution_number (d : DB) : CommonResult (option BlockNumber) :=
  get_with GLOBAL EXECUTION_NUMBER (codec_decode sc_u64) d.

Definition get_block_hash (number : BlockNumber) (d : DB) : CommonResult (option Hash) :=
  get_with BLOCK_HASH (encode sc_u64 number) (codec_decode sc_bytes) d.

Definition get_header (block_hash : Hash) (d : DB) : CommonResult (option Header) :=
  get_with HEADER block_hash (codec_decode codec_header) d.

Definition get_body (block_hash : Hash) (d : DB) : CommonResult (option Body) :=
  let? meta_txs := get_with META_TXS block_hash (codec_decode (sc_list sc_bytes)) d in
  match meta_txs with
  | None => Ok None
  | Some meta_txs =>
      let? payload_txs := get_with PAYLOAD_TXS block_hash (codec_decode (sc_list sc_bytes)) d in
      match payload_txs with
      | None => Ok None
      | Some payload_txs => Ok (Some (Build_Body meta_txs payload_txs))
      end
  end.

Definition get_execution (block_hash : Hash) (d : DB) : CommonResult (option Execution) :=
  get_with EXECUTION block_hash (codec_decode codec_execution) d.

Definition get_proof (block_hash : Hash) (d : DB) : CommonResult (option Proof) :=
  get_with PROOF block_hash (codec_decode codec_block_proof) d.

Definition get_transaction (tx_hash : Hash) (d : DB) : CommonResult (option Transaction) :=
  get_with TX tx_hash (codec_decode codec_transaction) d.

Definition get_raw_transaction (tx_hash : Hash) (d : DB) : CommonResult (option bytes) :=
  db_get TX tx_hash d.

Definition get_receipt (tx_hash : Hash) (d : DB) : CommonResult (option Receipt) :=
  get_with RECEIPT tx_hash (codec_decode codec_receipt) d.

Section Reports.
Context {SH : Show}.

Definition get_block (block_hash : Hash) (d : DB) : CommonResult (option Block) :=
  let? header := get_header block_hash d in
  match header with
  | None => Ok None
  | Some header =>
      let? body := get_body block_hash d in
      let? body := ok_or (data_error ("Block missing body: block_hash: " +:+ hash_debug block_hash))
                     body in
      Ok (Some (Build_Block header body))
  end.

(** The gap is sign-extended to 64 bits. *)
Definition get_confirmed_executed_number (d : DB) : CommonResult (option BlockNumber) :=
  let? confirmed_number := get_confirmed_number d in
  match confirmed_number with
  | None => Ok None
  | Some confirmed_number =>
      let? block_hash := get_block_hash confirmed_number d in
      let? block_hash := ok_or (data_error ("Missing block hash: number: "
                           +:+ number_text confirmed_number)) block_hash in
      let? header := get_header block_hash d in
      let? header := ok_or (data_error ("Missing header: block_hash: " +:+ hash_debug block_hash))
                       header in
      Ok (if decide (confirmed_number = 0%Z) then None
          else Some (u64 (confirmed_number - u64 (payload_execution_gap header))))
  end.
End Reports.

(** ** Consensus data *)

Definition get_consensus_data {T} (CT : Codec T) (key : bytes) (d : DB) : CommonResult (option T) :=
  get_with CONSENSUS key (codec_decode CT) d.

Definition put_consensus_data {T} (CT : Codec T) (transaction : DBTransaction) (key : bytes)
    (value : T) : DBTransaction :=
  put_owned CONSENSUS key (encode CT value) transaction.

Definition delete_consensus_data (transaction : DBTransaction) (key : bytes) : DBTransaction :=
  delete_key CONSENSUS key transaction.

Definition commit_consensus_data (transaction : DBTransaction) : B unit := db_write transaction.
End ChainData.
