(* ===== verification/Chain.v ===== *)
(** * Chain

    The operations of the chain: [core/node/chain/src/backend.rs] (executing
    calls, validating transactions, building and committing blocks and
    executions), [execute.rs] (the queue of executions) and [lib.rs]. *)
From S2P Require Import Prelude Codec Types Context ExecutorContext Executor SystemModule Db Statedb ChainData.

Abbreviation ChainCommitBlockParams := (CommitBlockParams Db.DBTransaction).
Abbreviation ChainCommitExecutionParams := (CommitExecutionParams Db.DBTransaction).

(** ** The transactions of a block and of an execution *)
Section Transactions.
Context {SC : Scale}.

Definition put_tx (t : DBTransaction) (x : FullTransaction) : DBTransaction :=
  put_owned TX (tx_hash x) (encode codec_transaction (tx x)) t.
Definition put_receipt (t : DBTransaction) (x : FullReceipt) : DBTransaction :=
  put_owned RECEIPT (rc_tx_hash x) (encode codec_receipt (receipt x)) t.

(** [fn commit_block] *)
Definition commit_block_ops (transaction : DBTransaction) (p : ChainCommitBlockParams) :
    DBTransaction :=
  let block_hash := cb_block_hash p in
  (* 1. meta state *)
  let t := extend (cb_meta_transaction p) transaction in
  (* 2. header *)
  let t := put_owned HEADER block_hash (encode codec_header (cb_header p)) t in
  (* 3. body *)
  let t := put_owned META_TXS block_hash
             (encode (sc_list sc_bytes) (body_meta_txs (cb_body p))) t in
  let t := put_owned PAYLOAD_TXS block_hash
             (encode (sc_list sc_bytes) (body_payload_txs (cb_body p))) t in
  (* 4. txs *)
  let t := foldl put_tx t (cb_meta_txs p) in
  let t := foldl put_tx t (cb_payload_txs p) in
  (* 5. meta receipts *)
  let t := foldl put_receipt t (cb_meta_receipts p) in
  (* 6. proof *)
  let t := put_owned PROOF block_hash (encode codec_block_proof (cb_proof p)) t in
  (* 7. block hash *)
  let t := put_owned BLOCK_HASH (encode sc_u64 (hdr_number (cb_header p)))
             (encode sc_bytes block_hash) t in
  (* 8. confirmed number *)
  put_owned GLOBAL CONFIRMED_NUMBER (encode sc_u64 (hdr_number (cb_header p))) t.

(** [fn commit_execution] *)
Definition commit_execution_ops (transaction : DBTransaction) (p : ChainCommitExecutionParams) :
    DBTransaction :=
  (* 1. payload state *)
  let t := extend (ce_payload_transaction p) transaction in
  (* 2. execution *)
  let t := put_owned EXECUTION (ce_block_hash p) (encode codec_execution (ce_execution p)) t in
  (* 3. payload receipts *)
  let t := foldl put_receipt t (ce_payload_receipts p) in
  (* 4. execution number *)
  put_owned GLOBAL EXECUTION_NUMBER (encode sc_u64 (ce_number p)) t.

(** [fn commit_spec] *)
Definition commit_spec_ops (transaction : DBTransaction) (spec_str : string) : DBTransaction :=
  put_owned GLOBAL SPEC (encode sc_string spec_str) transaction.
End Transactions.

Section Chain.
Context {SC : Scale} {CR : Crypto} {TL : TrieLib} {SH : Show}.
(** The table that [#[dispatcher]] builds. *)
Variable Dispatcher : list (string * ModuleOps ExecContext).

(** [ContextEssence::new] and [Context::new] over the columns of a database. *)
Definition chain_essence (env : ContextEnv) (meta_state_root payload_state_root : Hash) (d : DB) :
    CommonResult ContextEssence :=
  context_essence_new env (meta_statedb d) meta_state_root (payload_statedb d) payload_state_root.
Definition chain_context (env : ContextEnv) (meta_state_root payload_state_root : Hash) (d : DB) :
    CommonResult ExecContext :=
  let? context_essence := chain_essence env meta_state_root payload_state_root d in
  context_new context_essence.

(** The result of a call on a context that is dropped afterwards. *)
Definition on_context {A} (m : M ExecContext CommonError A) (c : ExecContext) : CommonResult A :=
  (m c).1.

(** ** Calls *)

Definition execute_call (block_hash : Hash) (sender : option Address) (call : Call) (d : DB) :
    CommonResult OpaqueCallResult :=
  let? header := get_header block_hash d in
  let? header := ok_or (data_error ("Unknown block hash: " +:+ hash_text block_hash)) header in
  let? execution := get_execution block_hash d in
  let? execution :=
    match execution with
    | Some execution => Ok (Some execution)
    | None =>
        (* execution is not necessary for meta call *)
        let? is_meta := Executor.is_meta_call Dispatcher call in
        Ok (if is_meta : bool then Some (Build_Execution default_hash default_hash) else None)
    end in
  let? execution := ok_or (data_error ("Not execution block hash: " +:+ hash_text block_hash))
                      execution in
  let? context := chain_context (Build_ContextEnv (hdr_number header) (hdr_timestamp header))
                    (meta_state_root header) (payload_execution_state_root execution) d in
  on_context (Executor.execute_call Dispatcher sender call) context.

Definition execute_call_with_block_hash {P Q} (CP : Codec P) (CQ : Codec Q) (block_hash : Hash)
    (sender : option Address) (module method : string) (params : P) (d : DB) :
    CommonResult (result string Q) :=
  let call := Executor.build_call CP module method params in
  let? result := execute_call block_hash sender call d in
  match result with
  | Ok result => let? r := codec_decode CQ result in Ok (Ok r)
  | Err e => Ok (Err e)
  end.

Definition execute_call_with_block_number {P Q} (CP : Codec P) (CQ : Codec Q)
    (block_number : BlockNumber) (sender : option Address) (module method : string) (params : P)
    (d : DB) : CommonResult (result string Q) :=
  let? block_hash := get_block_hash block_number d in
  let? block_hash := ok_or (data_error ("Unknown block number: " +:+ number_text block_number))
                       block_hash in
  execute_call_with_block_hash CP CQ block_hash sender module method params d.

(** ** The current state *)

(** [None] is the panic of [expect]. *)
Definition get_current_state (s : Backend) : option CurrentState := current_state s.

Definition read_current_state (d : DB) (clock : option Z) : CommonResult CurrentState :=
  let? confirmed_number := get_confirmed_number d in
  let? confirmed_number := ok_or (data_error "Confirmed number not found") confirmed_number in
  let? confirmed_block_hash := get_block_hash confirmed_number d in
  let? confirmed_block_hash := ok_or (data_error ("Invalid block number: "
                                 +:+ number_text confirmed_number)) confirmed_block_hash in
  let? header := get_header confirmed_block_hash d in
  let? header := ok_or (data_error ("Invalid block hash: " +:+ number_text confirmed_number))
                   header in
  let? executed_number := get_execution_number d in
  let? executed_number := ok_or (data_error "Executed number not found") executed_number in
  let? executed_block_hash := get_block_hash executed_number d in
  let? executed_block_hash := ok_or (data_error ("Invalid block number: "
                                +:+ number_text executed_number)) executed_block_hash in
  let? execution := get_execution executed_block_hash d in
  let? execution := ok_or (data_error ("Not executed block hash: "
                      +:+ hash_text executed_block_hash)) execution in
  let number := u64 (confirmed_number + 1) in
  let? timestamp := ok_or (data_error "Timestamp error") clock in
  let? context_essence := chain_essence (Build_ContextEnv number (u64 timestamp))
                            (meta_state_root header) (payload_execution_state_root execution) d in
  let? system_meta := execute_call_with_block_hash sc_unit SystemModule.codec_meta
                        confirmed_block_hash None "system" "get_meta" tt d in
  let? system_meta := map_err (λ e, chain_error (ChainCall e)) system_meta in
  let? genesis_hash := get_block_hash 0 d in
  let? genesis_hash := ok_or (data_error "Missing genesis block") genesis_hash in
  Ok {| cs_genesis_hash := genesis_hash; context_essence := context_essence;
        cs_system_meta := system_meta; cs_confirmed_number := confirmed_number;
        cs_confirmed_block_hash := confirmed_block_hash; cs_executed_number := executed_number;
        cs_executed_block_hash := executed_block_hash |}.

Definition update_current_state : B unit :=
  let! s := asks id in
  let! current_state := lift (read_current_state (db s) (clock s)) in
  modify (with_current_state (Some current_state)).

Definition message_send (m : ChainOutMessage) : B unit :=
  modify (λ s, with_message_tx (message_tx s ++ [m]) s).

Definition on_block_committed (number : BlockNumber) (block_hash : Hash) : B unit :=
  do! update_current_state in
  message_send (BlockCommitted number block_hash).

Definition on_execution_committed (number : BlockNumber) (block_hash : Hash) : B unit :=
  do! update_current_state in
  message_send (ExecutionCommitted number block_hash).

(** ** Transactions *)

Definition validate_error (e : ValidateTxError) : CommonError := chain_error (ChainValidateTxError e).

Definition validate_until (confirmed_number : BlockNumber) (max_until_gap : BlockNumber)
    (w : Witness) : CommonResult unit :=
  let until := w_until w in
  let max_until := u64 (confirmed_number + max_until_gap) in
  if decide (until > max_until)%Z then
    Err (validate_error (VtInvalidTxUntil ("Exceed max until: " +:+ number_text until)))
  else if decide (until ≤ confirmed_number)%Z then
    Err (validate_error (VtInvalidTxUntil ("Exceed min until: " +:+ number_text until)))
  else Ok tt.

(** The errors of the executor that are errors of the validation. *)
Definition as_validate_error (e : ExecutorErrorKind) : option (CommonResult unit) :=
  let vte := match e with
             | InvalidTxWitness e => Some (VtInvalidTxWitness e)
             | InvalidTxModule e => Some (VtInvalidTxModule e)
             | InvalidTxMethod e => Some (VtInvalidTxMethod e)
             | InvalidTxParams e => Some (VtInvalidTxParams e)
             | Application e => Some (VtApplication e)
             | _ => None
             end in
  match vte with
  | Some e => Some (Err (validate_error e))
  | None => None
  end.

(** [None] is the panic of [expect]. *)
Definition validate_transaction (tx_hash : Hash) (t : Transaction) (witness_required : bool)
    (s : Backend) : option (CommonResult unit) :=
  match current_state s with
  | None => None
  | Some cs => Some (
      let? context := context_new (context_essence cs) in
      (* validate until *)
      let? _ := match witness t with
                | Some w => validate_until (cs_confirmed_number cs)
                              (SystemModule.meta_max_until_gap (cs_system_meta cs)) w
                | None => Ok tt
                end in
      (* validate duplication *)
      let? known := get_transaction tx_hash (db s) in
      let? _ := match known with
                | Some _ => Err (validate_error (VtDuplicatedTx (hash_text tx_hash)))
                | None => Ok tt
                end in
      (* validate by executor *)
      or_else_catch as_executor as_validate_error
        (on_context (Executor.validate_tx Dispatcher (executor_genesis_hash s) t witness_required)
           context))
  end.

(** ** Blocks *)

Definition build_block (p : BuildBlockParams) (d : DB) : CommonResult ChainCommitBlockParams :=
  let number := bb_number p in
  let timestamp := bb_timestamp p in
  let parent_number := u64 (number - 1) in
  let? parent_hash := get_block_hash parent_number d in
  let? parent_hash := ok_or (data_error ("Invalid block number: " +:+ number_text parent_number))
                        parent_hash in
  let? parent_header := get_header parent_hash d in
  let? parent_header := ok_or (data_error ("Invalid block hash: " +:+ hash_text parent_hash))
                          parent_header in
  let execution_number := bb_execution_number p in
  let? execution_block_hash := get_block_hash execution_number d in
  let? execution_block_hash := ok_or (data_error ("Invalid block number: "
                                 +:+ number_text execution_number)) execution_block_hash in
  let? execution := get_execution execution_block_hash d in
  let? block_execution := ok_or (data_error ("Not execution block hash: "
                            +:+ hash_text execution_block_hash)) execution in
  let block_execution_gap := i8 (u64 (number - execution_number)) in
  let? context := chain_context (Build_ContextEnv number timestamp) (meta_state_root parent_header)
                    (payload_execution_state_root block_execution) d in
  let '(r, context) := Executor.execute_txs Dispatcher (bb_meta_txs p) context in
  let? _ := r in
  let? (meta_state_root, meta_transaction) := get_meta_update context in
  let? (meta_txs_root, meta_txs) := get_meta_txs context in
  let? (meta_receipts_root, meta_receipts) := get_meta_receipts context in
  let? payload_txs_root := get_txs_root (bb_payload_txs p) in
  let payload_txs := bb_payload_txs p in
  let header := {|
    hdr_number := number; hdr_timestamp := timestamp; parent_hash := parent_hash;
    meta_txs_root := meta_txs_root; meta_state_root := meta_state_root;
    meta_receipts_root := meta_receipts_root; payload_txs_root := payload_txs_root;
    payload_execution_gap := block_execution_gap;
    hdr_payload_execution_state_root := payload_execution_state_root block_execution;
    hdr_payload_execution_receipts_root := payload_execution_receipts_root block_execution |} in
  let? block_hash := Executor.hash codec_header header in
  Ok {| cb_block_hash := block_hash; cb_header := header;
        cb_body := Build_Body (tx_hash <$> meta_txs) (tx_hash <$> payload_txs);
        cb_meta_txs := meta_txs; cb_meta_receipts := meta_receipts; cb_payload_txs := payload_txs;
        cb_meta_transaction := meta_transaction; cb_proof := default_proof |}.

(** The last confirmed block, as [commit_block] reads it. *)
Definition get_confirmed (d : DB) : CommonResult (BlockNumber * Hash) :=
  let? confirmed_number := get_confirmed_number d in
  let? confirmed_number := ok_or (data_error "Confirmed number not found") confirmed_number in
  let? block_hash := get_block_hash confirmed_number d in
  let? block_hash := ok_or (data_error ("Invalid block number: " +:+ number_text confirmed_number))
                       block_hash in
  Ok (confirmed_number, block_hash).

Definition commit_block_error (e : CommitBlockErrorKind) : CommonError :=
  chain_error (ChainCommitBlockError e).

Definition commit_block (p : ChainCommitBlockParams) : B unit :=
  let number := hdr_number (cb_header p) in
  let block_hash := cb_block_hash p in
  let! d := asks db in
  let! known := lift (get_header block_hash d) in
  match known with
  | Some _ => throw (commit_block_error CbDuplicated)
  | None =>
      let! confirmed := lift (get_confirmed d) in
      if decide (¬ (number = u64 (confirmed.1 + 1) ∧ parent_hash (cb_header p) = confirmed.2)) then
        throw (commit_block_error CbNotBest)
      else
        do! db_write (commit_block_ops transaction_new p) in
        on_block_committed number block_hash
  end.

(** ** Executions *)

Definition build_execution (p : BuildExecutionParams) (d : DB) :
    CommonResult ChainCommitExecutionParams :=
  let? context := chain_context (Build_ContextEnv (be_number p) (be_timestamp p))
                    (be_meta_state_root p) (be_payload_state_root p) d in
  let '(r, context) := Executor.execute_txs Dispatcher (be_payload_txs p) context in
  let? _ := r in
  let? (payload_state_root, payload_transaction) := get_payload_update context in
  let? (payload_receipts_root, payload_receipts) := get_payload_receipts context in
  Ok {| ce_block_hash := be_block_hash p; ce_number := be_number p;
        ce_execution := Build_Execution payload_state_root payload_receipts_root;
        ce_payload_receipts := payload_receipts;
        ce_payload_transaction := payload_transaction |}.

Definition commit_execution (p : ChainCommitExecutionParams) : B unit :=
  do! db_write (commit_execution_ops transaction_new p) in
  on_execution_committed (ce_number p) (ce_block_hash p).

(** ** The queue of executions *)

(** [struct ExecuteTask] *)
Record ExecuteTask := {
  et_number : BlockNumber;
  et_timestamp : Z;
  et_block_hash : Hash;
  et_parent_hash : Hash;
  et_meta_state_root : Hash;
  et_payload_txs : list FullTransaction;
}.

Definition queue_error (msg : string) : CommonError := chain_error (ChainExecuteQueue msg).

(** A task that failed before is rebuilt from the database. *)
Fixpoint read_txs (tx_hashes : list Hash) (d : DB) : CommonResult (list FullTransaction) :=
  match tx_hashes with
  | [] => Ok []
  | tx_hash :: tx_hashes =>
      let? t := get_transaction tx_hash d in
      let? t := ok_or (queue_error ("Unable to get transaction: " +:+ hash_text tx_hash)) t in
      let? txs := read_txs tx_hashes d in
      Ok (Build_FullTransaction t tx_hash :: txs)
  end.

Definition rebuild_task (current_number : BlockNumber) (d : DB) : CommonResult ExecuteTask :=
  let? block_hash := get_block_hash current_number d in
  let? block_hash := ok_or (queue_error ("Unable to get block hash: " +:+ number_text current_number))
                       block_hash in
  let? block := get_block block_hash d in
  let? block := ok_or (queue_error ("Unable to get block header: " +:+ hash_text block_hash)) block in
  let? payload_txs := read_txs (body_payload_txs (bk_body block)) d in
  Ok {| et_number := current_number; et_timestamp := hdr_timestamp (bk_header block);
        et_block_hash := block_hash; et_parent_hash := parent_hash (bk_header block);
        et_meta_state_root := meta_state_root (bk_header block); et_payload_txs := payload_txs |}.

(** The text of an error, with the block it is about. *)
Definition block_text (msg : string) (t : ExecuteTask) : string :=
  msg +:+ ": block number: " +:+ number_text (et_number t) +:+ ", block hash: "
  +:+ hash_text (et_block_hash t).
Definition in_queue (msg : string) (t : ExecuteTask) (e : CommonError) : CommonError :=
  queue_error (block_text msg t +:+ ", " +:+ error_text e).

Definition process_number (current_number : BlockNumber) (task : option ExecuteTask) : B unit :=
  let! d := asks db in
  let! t := lift
    match task with
    | Some task => if decide (et_number task = current_number) then Ok task
                   else rebuild_task current_number d
    | None => rebuild_task current_number d
    end in
  let! execution := lift (map_err (in_queue "Unable to get execution" t)
                            (get_execution (et_parent_hash t) d)) in
  let! execution := lift (ok_or (queue_error (block_text "Block not execution" t)) execution) in
  let build_execution_params := {|
    be_number := et_number t; be_timestamp := et_timestamp t; be_block_hash := et_block_hash t;
    be_meta_state_root := et_meta_state_root t;
    be_payload_state_root := payload_execution_state_root execution;
    be_payload_txs := et_payload_txs t |} in
  let! commit_execution_params := lift (map_err (in_queue "Build execution error" t)
                                          (build_execution build_execution_params d)) in
  λ s, let '(r, s) := commit_execution commit_execution_params s in
       (map_err (in_queue "Commit execution error" t) r, s).

(** [(execution_number + 1)..number] *)
Definition missed (execution_number number : BlockNumber) : list BlockNumber :=
  let first := u64 (execution_number + 1) in
  seqZ first (number - first).

Definition process_task (task : ExecuteTask) : B unit :=
  let number := et_number task in
  let! d := asks db in
  let! execution_number := lift (get_execution_number d) in
  let! execution_number := lift (ok_or (queue_error "Unable to get execution_number")
                                   execution_number) in
  do! for_each (λ current_number, process_number current_number None)
        (missed execution_number number) in
  process_number number (Some task).

(** ** [struct Chain]: the backend and the tasks that wait *)
Record Chain := {
  backend : Backend;
  task_rx : list ExecuteTask;
}.

(** A call of the backend. *)
Definition on_backend {A} (m : B A) : M Chain CommonError A := λ c,
  let '(r, s) := m (backend c) in (r, Build_Chain s (task_rx c)).

(** [ExecuteQueue::insert_task] *)
Definition insert_task (task : ExecuteTask) : M Chain CommonError unit :=
  modify (λ c, Build_Chain (backend c) (task_rx c ++ [task])).

(** The task of a block. *)
Definition execute_task (p : ChainCommitBlockParams) : ExecuteTask := {|
  et_number := hdr_number (cb_header p);
  et_timestamp := hdr_timestamp (cb_header p);
  et_block_hash := cb_block_hash p;
  et_parent_hash := parent_hash (cb_header p);
  et_meta_state_root := meta_state_root (cb_header p);
  et_payload_txs := cb_payload_txs p;
|}.

(** [Chain::commit_block] *)
Definition chain_commit_block (p : ChainCommitBlockParams) : M Chain CommonError unit :=
  do! on_backend (commit_block p) in
  insert_task (execute_task p).

(** One turn of [TaskStream::start]: an error is logged. *)
Definition task_stream_turn (c : Chain) : Chain :=
  match task_rx c with
  | [] => c
  | task :: rest => Build_Chain (process_task task (backend c)).2 rest
  end.
End Chain.
