(* ===== verification/ChainProofs.v ===== *)
(** * ChainProofs

    The chain that the database holds: its blocks are linked from the genesis
    block to the last confirmed one, and executed one after another. *)
From S2P Require Import Prelude Codec Types Context ExecutorContext Executor Db Statedb ChainData Chain.

(** ** What the transactions write *)
Section Transactions.
Context {SC : Scale}.

Definition tx_op (x : FullTransaction) : DBOp :=
  OpInsert TX (tx_hash x) (encode codec_transaction (tx x)).
Definition receipt_op (x : FullReceipt) : DBOp :=
  OpInsert RECEIPT (rc_tx_hash x) (encode codec_receipt (receipt x)).

Lemma put_txs_ops t l : ops (foldl put_tx t l) = ops t ++ (tx_op <$> l).
Proof.
  revert t. induction l as [|x l IH]; intros t; cbn; [by rewrite app_nil_r|].
  rewrite IH. cbn. by rewrite <-app_assoc.
Qed.
Lemma put_receipts_ops t l : ops (foldl put_receipt t l) = ops t ++ (receipt_op <$> l).
Proof.
  revert t. induction l as [|x l IH]; intros t; cbn; [by rewrite app_nil_r|].
  rewrite IH. cbn. by rewrite <-app_assoc.
Qed.

(** The operations on the state stay in the column of the state. *)
Definition state_ops (col : Z) (t : DBTransaction) : Prop := ∀ op, op ∈ ops t → (op_key op).1 = col.

(** What a block and an execution write besides the state. *)
Definition block_ops (p : ChainCommitBlockParams) : list DBOp :=
  [OpInsert HEADER (cb_block_hash p) (encode codec_header (cb_header p));
   OpInsert META_TXS (cb_block_hash p) (encode (sc_list sc_bytes) (body_meta_txs (cb_body p)));
   OpInsert PAYLOAD_TXS (cb_block_hash p) (encode (sc_list sc_bytes) (body_payload_txs (cb_body p)))]
  ++ (tx_op <$> (cb_meta_txs p ++ cb_payload_txs p)) ++ (receipt_op <$> cb_meta_receipts p)
  ++ [OpInsert PROOF (cb_block_hash p) (encode codec_block_proof (cb_proof p));
      OpInsert BLOCK_HASH (encode sc_u64 (hdr_number (cb_header p))) (encode sc_bytes (cb_block_hash p));
      OpInsert GLOBAL CONFIRMED_NUMBER (encode sc_u64 (hdr_number (cb_header p)))].
Definition execution_ops (p : ChainCommitExecutionParams) : list DBOp :=
  [OpInsert EXECUTION (ce_block_hash p) (encode codec_execution (ce_execution p))]
  ++ (receipt_op <$> ce_payload_receipts p)
  ++ [OpInsert GLOBAL EXECUTION_NUMBER (encode sc_u64 (ce_number p))].

Lemma commit_block_split t p :
  ops (commit_block_ops t p) = ops t ++ ops (cb_meta_transaction p) ++ block_ops p.
Proof.
  unfold commit_block_ops, block_ops. cbn [put_owned ops].
  rewrite put_receipts_ops, !put_txs_ops. cbn [put_owned ops extend transaction_new].
  rewrite <-!app_assoc, fmap_app. cbn [app]. by rewrite <-!app_assoc.
Qed.
Lemma commit_execution_split t p :
  ops (commit_execution_ops t p) = ops t ++ ops (ce_payload_transaction p) ++ execution_ops p.
Proof.
  unfold commit_execution_ops, execution_ops. cbn [put_owned ops]. rewrite put_receipts_ops.
  cbn [put_owned ops extend transaction_new]. by rewrite <-!app_assoc.
Qed.

Lemma state_column col col' t : state_ops col' t → col ≠ col' → column col (ops t) = [].
Proof. intros Hs Hc. apply column_other. intros op Hop. rewrite (Hs op Hop). congruence. Qed.

Lemma commit_block_column p col :
  state_ops META_STATE (cb_meta_transaction p) → col ≠ META_STATE →
  column col (ops (commit_block_ops transaction_new p)) = column col (block_ops p).
Proof. intros Hs Hc. rewrite commit_block_split. cbn [ops transaction_new app]. by rewrite column_app, (state_column _ _ _ Hs Hc). Qed.

Lemma commit_execution_column p col :
  state_ops PAYLOAD_STATE (ce_payload_transaction p) → col ≠ PAYLOAD_STATE →
  column col (ops (commit_execution_ops transaction_new p)) = column col (execution_ops p).
Proof. intros Hs Hc. rewrite commit_execution_split. cbn [ops transaction_new app]. by rewrite column_app, (state_column _ _ _ Hs Hc). Qed.

Lemma tx_column col l : column col (tx_op <$> l) = if decide (col = TX) then tx_op <$> l else [].
Proof. apply (column_inserts col TX tx_hash (λ x, encode codec_transaction (tx x))). Qed.
Lemma receipt_column col l :
  column col (receipt_op <$> l) = if decide (col = RECEIPT) then receipt_op <$> l else [].
Proof. apply (column_inserts col RECEIPT rc_tx_hash (λ x, encode codec_receipt (receipt x))). Qed.
End Transactions.

(** ** Reading after a block *)
Section AfterBlock.
Context {SC : Scale}.
Variables (d d' : DB) (p : ChainCommitBlockParams).
Hypothesis Hstate : state_ops META_STATE (cb_meta_transaction p).
Hypothesis Hd' : entries d' = apply_ops (ops (commit_block_ops transaction_new p)) (entries d).

#[local] Ltac by_column :=
  rewrite Hd'; first [apply lookup_one | apply lookup_untouched];
  rewrite commit_block_column by (first [exact Hstate | discriminate]);
  unfold block_ops; rewrite !column_app, tx_column, receipt_column; reflexivity.

Lemma block_header h : entries d' !! (HEADER, h) =
  if decide (h = cb_block_hash p) then Some (encode codec_header (cb_header p))
  else entries d !! (HEADER, h).
Proof. by_column. Qed.
Lemma block_meta_txs h : entries d' !! (META_TXS, h) =
  if decide (h = cb_block_hash p) then Some (encode (sc_list sc_bytes) (body_meta_txs (cb_body p)))
  else entries d !! (META_TXS, h).
Proof. by_column. Qed.
Lemma block_payload_txs h : entries d' !! (PAYLOAD_TXS, h) =
  if decide (h = cb_block_hash p) then Some (encode (sc_list sc_bytes) (body_payload_txs (cb_body p)))
  else entries d !! (PAYLOAD_TXS, h).
Proof. by_column. Qed.
Lemma block_proof h : entries d' !! (PROOF, h) =
  if decide (h = cb_block_hash p) then Some (encode codec_block_proof (cb_proof p))
  else entries d !! (PROOF, h).
Proof. by_column. Qed.
Lemma block_number k : entries d' !! (BLOCK_HASH, k) =
  if decide (k = encode sc_u64 (hdr_number (cb_header p))) then Some (encode sc_bytes (cb_block_hash p))
  else entries d !! (BLOCK_HASH, k).
Proof. by_column. Qed.
Lemma block_global k : entries d' !! (GLOBAL, k) =
  if decide (k = CONFIRMED_NUMBER) then Some (encode sc_u64 (hdr_number (cb_header p)))
  else entries d !! (GLOBAL, k).
Proof. by_column. Qed.
Lemma block_execution h : entries d' !! (EXECUTION, h) = entries d !! (EXECUTION, h).
Proof. by_column. Qed.
Lemma block_consensus k : entries d' !! (CONSENSUS, k) = entries d !! (CONSENSUS, k).
Proof. by_column. Qed.

(** A transaction of the block is stored, others are as before. *)
Lemma block_tx h :
  ((h ∈ tx_hash <$> (cb_meta_txs p ++ cb_payload_txs p)) ∧
   ∃ x, x ∈ cb_meta_txs p ++ cb_payload_txs p ∧ tx_hash x = h ∧
        entries d' !! (TX, h) = Some (encode codec_transaction (tx x))) ∨
  ((h ∉ tx_hash <$> (cb_meta_txs p ++ cb_payload_txs p)) ∧ entries d' !! (TX, h) = entries d !! (TX, h)).
Proof.
  assert (column TX (ops (commit_block_ops transaction_new p)) =
          tx_op <$> (cb_meta_txs p ++ cb_payload_txs p)) as Hc.
  { rewrite commit_block_column by (first [exact Hstate | discriminate]).
    unfold block_ops. rewrite !column_app, tx_column, receipt_column, decide_True by done.
    change (column TX [_; _; _]) with (@nil DBOp). cbn. by rewrite app_nil_r. }
  rewrite Hd'. rewrite !lookup_batch, Hc.
  destruct (decide (h ∈ tx_hash <$> (cb_meta_txs p ++ cb_payload_txs p))) as [Hin|Hin].
  - left. split; [done|].
    destruct (written_inserted TX tx_hash (λ x, encode codec_transaction (tx x)) _ _ Hin)
      as (x & Hx & Hk & Hw). exists x. split_and!; [done..|].
    unfold tx_op. by rewrite Hw.
  - right. split; [done|]. rewrite written_none; [done|].
    intros op (x & -> & Hx)%list_elem_of_fmap. cbn. intros [= Heq]. apply Hin. rewrite <-Heq.
    by apply list_elem_of_fmap_2.
Qed.
Lemma block_receipt h :
  (∃ x, x ∈ cb_meta_receipts p ∧ rc_tx_hash x = h ∧
        entries d' !! (RECEIPT, h) = Some (encode codec_receipt (receipt x))) ∨
  ((h ∉ rc_tx_hash <$> cb_meta_receipts p) ∧ entries d' !! (RECEIPT, h) = entries d !! (RECEIPT, h)).
Proof.
  assert (column RECEIPT (ops (commit_block_ops transaction_new p)) = receipt_op <$> cb_meta_receipts p) as Hc.
  { rewrite commit_block_column by (first [exact Hstate | discriminate]).
    unfold block_ops. rewrite !column_app, tx_column, receipt_column, decide_False, decide_True by done.
    change (column RECEIPT [_; _; _]) with (@nil DBOp). cbn. by rewrite app_nil_r. }
  rewrite Hd'. rewrite !lookup_batch, Hc.
  destruct (decide (h ∈ rc_tx_hash <$> cb_meta_receipts p)) as [Hin|Hin].
  - left. destruct (written_inserted RECEIPT rc_tx_hash (λ x, encode codec_receipt (receipt x)) _ _ Hin)
      as (x & Hx & Hk & Hw). exists x. split_and!; [done..|]. unfold receipt_op. by rewrite Hw.
  - right. split; [done|]. rewrite written_none; [done|].
    intros op (x & -> & Hx)%list_elem_of_fmap. cbn. intros [= Heq]. apply Hin. rewrite <-Heq.
    by apply list_elem_of_fmap_2.
Qed.
End AfterBlock.

(** ** Reading after an execution *)
Section AfterExecution.
Context {SC : Scale}.
Variables (d d' : DB) (p : ChainCommitExecutionParams).
Hypothesis Hstate : state_ops PAYLOAD_STATE (ce_payload_transaction p).
Hypothesis Hd' : entries d' = apply_ops (ops (commit_execution_ops transaction_new p)) (entries d).

#[local] Ltac by_column :=
  rewrite Hd'; first [apply lookup_one | apply lookup_untouched];
  rewrite commit_execution_column by (first [exact Hstate | discriminate]);
  unfold execution_ops; rewrite !column_app, receipt_column; reflexivity.

Lemma execution_stored h : entries d' !! (EXECUTION, h) =
  if decide (h = ce_block_hash p) then Some (encode codec_execution (ce_execution p))
  else entries d !! (EXECUTION, h).
Proof. by_column. Qed.
Lemma execution_global k : entries d' !! (GLOBAL, k) =
  if decide (k = EXECUTION_NUMBER) then Some (encode sc_u64 (ce_number p))
  else entries d !! (GLOBAL, k).
Proof. by_column. Qed.
(** The columns of the blocks are not touched. *)
Lemma execution_kept col k : col ∈ [BLOCK_HASH; HEADER; META_STATE; META_TXS; PAYLOAD_TXS; TX; PROOF; CONSENSUS] →
  entries d' !! (col, k) = entries d !! (col, k).
Proof.
  intros Hc. repeat (apply elem_of_cons in Hc as [->|Hc]; [by_column|]).
  by apply not_elem_of_nil in Hc.
Qed.
End AfterExecution.

(** The transactions that can be read back. *)
Lemma transaction_wf {SC : Scale} t :
  match witness t with Some w => is_u32 (w_nonce w) ∧ is_u64 (w_until w) | None => True end →
  wf codec_transaction t.
Proof.
  destruct t as [w c]. cbn [witness]. intros Hw. unfold codec_transaction. cbn [wf iso_codec].
  rewrite sc_pair_wf. cbn [fst snd witness call]. split; [|apply codec_call_wf].
  rewrite sc_option_wf. destruct w as [w|]; [|done]. unfold codec_witness. cbn [wf iso_codec].
  repeat (rewrite sc_pair_wf; cbn [fst snd]). rewrite sc_u32_wf, sc_u64_wf.
  split_and!; [apply sc_bytes_wf..|apply Hw|apply Hw].
Qed.

(** ** The chain on disk *)
Section Linked.
Context {SC : Scale} {CR : Crypto} {TL : TrieLib} {SH : Show}.

(** Block [k] of the chain is whole. *)
Record block_at (d : DB) (k : BlockNumber) (h : Hash) (hd : Header) (bd : Body) : Prop := {
  at_hash : get_block_hash k d = Ok (Some h);
  at_header : get_header h d = Ok (Some hd);
  at_body : get_body h d = Ok (Some bd);
  at_number : hdr_number hd = k;
  at_txs : ∀ t, t ∈ body_meta_txs bd ++ body_payload_txs bd →
    ∃ x, get_transaction t d = Ok (Some x);
}.

(** The blocks up to [n] are there, and each is the parent of the next. *)
Record linked (d : DB) (n : BlockNumber) : Prop := {
  linked_confirmed : get_confirmed_number d = Ok (Some n);
  linked_range : (0 ≤ n < 2 ^ 64)%Z;
  linked_blocks : ∀ k, (0 ≤ k ≤ n)%Z → ∃ h hd bd, block_at d k h hd bd;
  linked_parents : ∀ k h hd, (0 < k ≤ n)%Z →
    get_block_hash k d = Ok (Some h) → get_header h d = Ok (Some hd) →
    get_block_hash (k - 1) d = Ok (Some (parent_hash hd));
}.

(** The blocks up to [e] have been executed. *)
Record executed (d : DB) (e : BlockNumber) : Prop := {
  executed_number : get_execution_number d = Ok (Some e);
  executed_range : (0 ≤ e)%Z;
  executed_blocks : ∀ k h, (0 ≤ k ≤ e)%Z → get_block_hash k d = Ok (Some h) →
    ∃ x, get_execution h d = Ok (Some x);
}.

Record chain_ok (d : DB) (n e : BlockNumber) : Prop := {
  ok_linked : linked d n;
  ok_executed : executed d e;
  ok_order : (e ≤ n)%Z;
}.

(** The parameters of a block are values of their types, the body lists the
    transactions, and the state is written to its own column. *)
Record block_params_ok (p : ChainCommitBlockParams) : Prop := {
  params_header : wf codec_header (cb_header p);
  params_txs : Forall (λ x, wf codec_transaction (tx x)) (cb_meta_txs p ++ cb_payload_txs p);
  params_meta : body_meta_txs (cb_body p) = tx_hash <$> cb_meta_txs p;
  params_payload : body_payload_txs (cb_body p) = tx_hash <$> cb_payload_txs p;
  params_state : state_ops META_STATE (cb_meta_transaction p);
}.

(** What is read depends on the entries alone. *)
Lemma same_read {U} (C : Codec U) col k d d' :
  entries d' !! (col, k) = entries d !! (col, k) →
  get_with col k (codec_decode C) d' = get_with col k (codec_decode C) d.
Proof. intros Hd. by rewrite !get_with_decode, Hd. Qed.

Lemma read_back {U} (C : Codec U) col k d u :
  entries d !! (col, k) = Some (encode C u) → wf C u →
  get_with col k (codec_decode C) d = Ok (Some u).
Proof. intros Hd Hw. by rewrite get_with_decode, Hd, decode_encode. Qed.

Lemma same_body d d' h :
  entries d' !! (META_TXS, h) = entries d !! (META_TXS, h) →
  entries d' !! (PAYLOAD_TXS, h) = entries d !! (PAYLOAD_TXS, h) → get_body h d' = get_body h d.
Proof. intros H1 H2. unfold get_body. by rewrite !(same_read _ _ _ d d'). Qed.

Lemma hashes_wf (l : list Hash) : wf (sc_list sc_bytes) l.
Proof. apply sc_list_wf, Forall_forall. intros. apply sc_bytes_wf. Qed.

Lemma number_key k k' : is_u64 k → is_u64 k' → encode sc_u64 k = encode sc_u64 k' → k = k'.
Proof. intros. by apply (encode_inj sc_u64); [apply sc_u64_wf..|]. Qed.

(** The key of an element has no other value in the list. *)
Definition keyed {A K V} (key : A → K) (val : A → V) (l : list A) (x : A) : Prop :=
  ∀ y, y ∈ l → key y = key x → val y = val x.
Lemma keyed_nodup {A K V} (key : A → K) (val : A → V) l x : NoDup (key <$> l) → x ∈ l → keyed key val l x.
Proof.
  intros Hn [i Hi]%list_elem_of_lookup y [j Hj]%list_elem_of_lookup Hk.
  assert (i = j) as <- by (eapply NoDup_lookup; [exact Hn|rewrite list_lookup_fmap, Hi; done|by rewrite list_lookup_fmap, Hj; cbn; rewrite Hk]).
  congruence.
Qed.

(** ** A block that is written *)
Section Extend.
Variables (d d' : DB) (p : ChainCommitBlockParams) (n e : BlockNumber).
Hypothesis Hok : chain_ok d n e.
Hypothesis Hp : block_params_ok p.
Hypothesis Hd' : entries d' = apply_ops (ops (commit_block_ops transaction_new p)) (entries d).
Hypothesis Hnew : get_header (cb_block_hash p) d = Ok None.
Hypothesis Hnum : hdr_number (cb_header p) = (n + 1)%Z.
Hypothesis Hpar : get_block_hash n d = Ok (Some (parent_hash (cb_header p))).

Let Hs := params_state p Hp.

Lemma next_range : is_u64 (n + 1).
Proof. rewrite <-Hnum. by apply codec_header_wf, params_header. Qed.

(** The blocks that were there are read as before. *)
Lemma old_block_hash k : (0 ≤ k ≤ n)%Z → get_block_hash k d' = get_block_hash k d.
Proof.
  intros Hk. apply same_read. rewrite (block_number d d' p Hs Hd'). rewrite decide_False; [done|].
  rewrite Hnum. pose proof next_range as Hr. unfold is_u64 in Hr.
  intros ?%number_key; [lia|unfold is_u64; lia|done].
Qed.
Lemma old_header h hd : get_header h d = Ok (Some hd) → h ≠ cb_block_hash p.
Proof. intros Hh ->. by rewrite Hnew in Hh. Qed.
Lemma kept_header h : h ≠ cb_block_hash p → get_header h d' = get_header h d.
Proof. intros Hh. apply same_read. by rewrite (block_header d d' p Hs Hd'), decide_False. Qed.
Lemma kept_body h : h ≠ cb_block_hash p → get_body h d' = get_body h d.
Proof.
  intros Hh. apply same_body.
  - by rewrite (block_meta_txs d d' p Hs Hd'), decide_False.
  - by rewrite (block_payload_txs d d' p Hs Hd'), decide_False.
Qed.
Lemma kept_execution h : get_execution h d' = get_execution h d.
Proof. apply same_read, (block_execution d d' p Hs Hd'). Qed.
Lemma kept_transaction t x : get_transaction t d = Ok (Some x) → ∃ x, get_transaction t d' = Ok (Some x).
Proof.
  intros Ht. destruct (block_tx d d' p Hs Hd' t) as [(_ & y & Hy & <- & He)|[_ He]].
  - exists (tx y). apply (read_back codec_transaction TX); [done|].
    pose proof (params_txs p Hp) as Hw. rewrite Forall_forall in Hw. by apply Hw.
  - exists x. rewrite <-Ht. by apply same_read.
Qed.

(** The transactions and receipts of the block are read back, where one hash
    has one value; those of other hashes are read as before. *)
Lemma new_transaction x : x ∈ cb_meta_txs p ++ cb_payload_txs p →
  keyed tx_hash tx (cb_meta_txs p ++ cb_payload_txs p) x → get_transaction (tx_hash x) d' = Ok (Some (tx x)).
Proof.
  intros Hx Hk. destruct (block_tx d d' p Hs Hd' (tx_hash x)) as [(_ & y & Hy & Hh & He)|[[] _]].
  2: by apply (list_elem_of_fmap_2 tx_hash).
  rewrite <-(Hk y Hy Hh). apply (read_back codec_transaction TX); [done|].
  pose proof (params_txs p Hp) as Hw. rewrite Forall_forall in Hw. by apply Hw.
Qed.
Lemma other_transaction h : h ∉ tx_hash <$> (cb_meta_txs p ++ cb_payload_txs p) →
  get_transaction h d' = get_transaction h d.
Proof. intros Hh. by destruct (block_tx d d' p Hs Hd' h) as [[? _]|[_ He]]; [|apply same_read]. Qed.
Lemma new_receipt x : x ∈ cb_meta_receipts p → keyed rc_tx_hash receipt (cb_meta_receipts p) x →
  is_u64 (rc_block_number (receipt x)) → get_receipt (rc_tx_hash x) d' = Ok (Some (receipt x)).
Proof.
  intros Hx Hk Hr. destruct (block_receipt d d' p Hs Hd' (rc_tx_hash x)) as [(y & Hy & Hh & He)|[[] _]].
  2: by apply (list_elem_of_fmap_2 rc_tx_hash).
  rewrite <-(Hk y Hy Hh) in Hr |- *. apply (read_back codec_receipt RECEIPT); [done|by apply codec_receipt_wf].
Qed.
Lemma other_receipt h : h ∉ rc_tx_hash <$> cb_meta_receipts p → get_receipt h d' = get_receipt h d.
Proof.
  intros Hh. destruct (block_receipt d d' p Hs Hd' h) as [(y & Hy & <- & _)|[_ He]]; [|by apply same_read].
  destruct Hh. by apply (list_elem_of_fmap_2 rc_tx_hash).
Qed.

(** The new block is read back. *)
Lemma new_block_hash : get_block_hash (n + 1) d' = Ok (Some (cb_block_hash p)).
Proof.
  apply (read_back sc_bytes BLOCK_HASH); [|apply sc_bytes_wf].
  by rewrite (block_number d d' p Hs Hd'), Hnum, decide_True.
Qed.
Lemma new_header : get_header (cb_block_hash p) d' = Ok (Some (cb_header p)).
Proof.
  apply (read_back codec_header HEADER); [|apply params_header, Hp].
  by rewrite (block_header d d' p Hs Hd'), decide_True.
Qed.
Lemma new_body : get_body (cb_block_hash p) d' = Ok (Some (cb_body p)).
Proof.
  unfold get_body.
  rewrite (read_back (sc_list sc_bytes) META_TXS _ d' (body_meta_txs (cb_body p))).
  - cbn [result_bind].
    rewrite (read_back (sc_list sc_bytes) PAYLOAD_TXS _ d' (body_payload_txs (cb_body p))).
    + by destruct (cb_body p).
    + by rewrite (block_payload_txs d d' p Hs Hd'), decide_True.
    + apply hashes_wf.
  - by rewrite (block_meta_txs d d' p Hs Hd'), decide_True.
  - apply hashes_wf.
Qed.
Lemma new_proof : get_proof (cb_block_hash p) d' = Ok (Some (cb_proof p)).
Proof.
  apply (read_back codec_block_proof PROOF); [|apply codec_block_proof_wf].
  by rewrite (block_proof d d' p Hs Hd'), decide_True.
Qed.
Lemma new_confirmed : get_confirmed_number d' = Ok (Some (n + 1)%Z).
Proof.
  apply (read_back sc_u64 GLOBAL); [|apply sc_u64_wf, next_range].
  by rewrite (block_global d d' p Hs Hd'), decide_True, Hnum.
Qed.
Lemma kept_execution_number : get_execution_number d' = get_execution_number d.
Proof. apply same_read. rewrite (block_global d d' p Hs Hd'). by rewrite decide_False. Qed.

Lemma new_block_at : block_at d' (n + 1) (cb_block_hash p) (cb_header p) (cb_body p).
Proof.
  split; [apply new_block_hash|apply new_header|apply new_body|done|].
  intros t. rewrite (params_meta p Hp), (params_payload p Hp), <-fmap_app. intros Ht.
  destruct (block_tx d d' p Hs Hd' t) as [(_ & y & Hy & <- & He)|[Hn _]]; [|done].
  exists (tx y). apply (read_back codec_transaction TX); [done|].
  pose proof (params_txs p Hp) as Hw. rewrite Forall_forall in Hw. by apply Hw.
Qed.

Lemma old_block_at k h hd bd : (0 ≤ k ≤ n)%Z → block_at d k h hd bd → block_at d' k h hd bd.
Proof.
  intros Hk [H1 H2 H3 H4 H5]. pose proof (old_header h hd H2) as Hne. split.
  - by rewrite old_block_hash.
  - by rewrite kept_header.
  - by rewrite kept_body.
  - done.
  - intros t Ht. destruct (H5 t Ht) as [x Hx]. by eapply kept_transaction.
Qed.

Lemma block_extends : chain_ok d' (n + 1) e.
Proof.
  destruct Hok as [[Hc Hr Hb Hl] [He1 He2 He3] Ho]. pose proof next_range as Hn. unfold is_u64 in Hn.
  split; [split| |lia].
  - apply new_confirmed.
  - lia.
  - intros k Hk. destruct (decide (k = n + 1)%Z) as [->|Hne].
    + eexists _, _, _. apply new_block_at.
    + destruct (Hb k) as (h & hd & bd & H); [lia|]. exists h, hd, bd. apply old_block_at; [lia|done].
  - intros k h hd Hk Hh Hhd. destruct (decide (k = n + 1)%Z) as [->|Hne].
    + rewrite new_block_hash in Hh. injection Hh as <-. rewrite new_header in Hhd.
      injection Hhd as <-. rewrite Z.add_simpl_r. rewrite old_block_hash by lia. exact Hpar.
    + rewrite old_block_hash in Hh by lia. destruct (Hb k) as (h' & hd' & bd & [E1 E2 _ _ _]); [lia|].
      rewrite Hh in E1. injection E1 as <-. rewrite kept_header in Hhd by by eapply old_header.
      rewrite old_block_hash by lia. apply (Hl k h hd); [lia|done..].
  - split; [by rewrite kept_execution_number|done|]. intros k h Hk Hh.
    rewrite kept_execution. apply (He3 k h Hk). rewrite old_block_hash in Hh by lia. done.
Qed.
End Extend.
End Linked.
