(* ===== verification/ChainBuild.v ===== *)
(** * ChainBuild

    What the builders of the chain produce: the executor leaves the states and
    their roots alone, so the transactions of a block and of an execution stay
    in the columns of their states. *)
From S2P Require Import Prelude Codec Types Context ExecutorContext Dispatch Executor Db Statedb ChainData Chain ChainProofs.

(** ** What a batch leaves *)
Section Batches.
Context {SC : Scale} {API : StateDBApi} {CR : Crypto}.
Variable D : list (string * ModuleOps ExecContext).
Hypothesis confined : confined_modules D.

(** The states of a context, and the roots they are read from. *)
Definition same_states (c c' : ExecContext) : Prop :=
  ExecutorContext.meta_statedb c' = ExecutorContext.meta_statedb c ∧
  cx_meta_state_root c' = cx_meta_state_root c ∧
  statedb_getter (meta_state c') = statedb_getter (meta_state c) ∧
  ExecutorContext.payload_statedb c' = ExecutorContext.payload_statedb c ∧
  payload_state_root c' = payload_state_root c ∧
  statedb_getter (payload_state c') = statedb_getter (payload_state c).

#[local] Instance same_states_preorder : PreOrder same_states.
Proof. unfold same_states. split; [done|]. intros c1 c2 c3. intuition congruence. Qed.

Definition same_txs (c c' : ExecContext) : Prop :=
  meta_txs c' = meta_txs c ∧ payload_txs c' = payload_txs c.

Lemma touches_states c c' : touches c c' → same_states c c' ∧ same_txs c c'.
Proof. intros (m & p & es & ->)%touches_overlay. done. Qed.

Lemma execute_tx_states t c :
  same_states c (execute_tx D t c).2 ∧ same_txs c (execute_tx D t c).2.
Proof.
  rewrite execute_tx_eq. set (c0 := with_call_env _ c).
  pose proof (touches_states _ _ (confined (Types.module (call (tx t))) (sender_of (tx t)) (call (tx t)) c0)) as Ht.
  destruct (dispatch_execute_call _ _ _ _ _) as [[[r|e]|e] c1]; exact Ht.
Qed.

Lemma execute_loop_states kind txs c :
  same_states c (execute_loop D kind txs c).2 ∧ same_txs c (execute_loop D kind txs c).2.
Proof.
  revert kind c. induction txs as [|t txs IH]; intros kind c; [done|]. cbn. unfold bind, lift.
  destruct (is_meta D _) as [x|]; [|done].
  destruct (match kind with None => _ | Some _ => _ end) as [kd|]; [|done].
  pose proof (execute_tx_states t c) as [Ht [Hl1 Hl2]]. destruct (execute_tx D t c) as [[r|] c1]; [|done].
  specialize (IH (Some kd) c1) as [IH [IHl1 IHl2]]. cbn in *.
  destruct (execute_loop D (Some kd) txs c1) as [[[k rs]|] c2]; cbn in *;
    (split; [by etrans|split; cbn; congruence]).
Qed.

(** A batch adds its transactions to one of the lists, or to none. *)
Lemma execute_txs_states txs c r c' : execute_txs D txs c = (r, c') →
  same_states c c' ∧ (meta_txs c' = meta_txs c ∨ meta_txs c' = meta_txs c ++ txs) ∧
  (payload_txs c' = payload_txs c ∨ payload_txs c' = payload_txs c ++ txs).
Proof.
  unfold execute_txs. unfold bind at 1. pose proof (execute_loop_states None txs c) as [Hs [Ht1 Ht2]].
  destruct (execute_loop D None txs c) as [[[k rs]|e] c1]; cbn in *; [|intros [= <- <-]; by auto].
  unfold bind, modify, asks, throw. destruct k as [[]|]; cbn;
    [case_match|rewrite andb_false_r|rewrite andb_false_r]; intros [= <- <-]; cbn;
    (split; [exact Hs|]); rewrite <-Ht1, <-Ht2; auto.
Qed.

(** Nothing is pending after a batch. *)
Lemma execute_loop_clean kind txs c x c' :
  clean c → execute_loop D kind txs c = (Ok x, c') → clean c'.
Proof.
  revert kind c x. induction txs as [|t txs IH]; intros kind c x Hc; cbn; [by intros [= _ <-]|].
  unfold bind, lift. destruct (is_meta D _) as [y|]; [|done].
  destruct (match kind with None => _ | Some _ => _ end) as [kd|]; [|done].
  destruct (execute_tx D t c) as [[r|] c1] eqn:Ht; [|done].
  apply execute_tx_spec in Ht as [Hc1 _]; [|done..].
  destruct (execute_loop D (Some kd) txs c1) as [[[k rs]|] c2] eqn:Hl; [|done].
  intros [= _ <-]. by eapply IH.
Qed.
Lemma execute_txs_clean txs c c' : clean c → execute_txs D txs c = (Ok tt, c') → clean c'.
Proof.
  intros Hc. unfold execute_txs. unfold bind at 1.
  destruct (execute_loop D None txs c) as [[[k rs]|e] c1] eqn:Hl; [|done].
  apply execute_loop_clean in Hl; [|done]. unfold bind, modify, asks, throw.
  destruct k as [[]|]; cbn; [case_match; [done|]|rewrite andb_false_r|rewrite andb_false_r];
    intros [= <-]; unfold clean in *; by rewrite <-Hl.
Qed.
End Batches.

(** ** The transactions of the states *)
Section Updates.
Context {SC : Scale} {CR : Crypto} {TL : TrieLib}.

Lemma prepare_update_column d root data root' t :
  statedb_prepare_update d root data = Ok (root', t) → state_ops (db_column d) t.
Proof.
  unfold statedb_prepare_update. intros Hu.
  destruct (typed_root root); [|done]. cbn [result_bind] in Hu.
  destruct (if bool_decide _ then _ else _); [|done]. cbn [result_bind] in Hu.
  destruct (apply_data data _); [|done]. cbn [result_bind] in Hu.
  destruct (triedbmut_drop _) as [r nodes]. injection Hu as <- <-.
  intros op. rewrite extract_buffer_ops. by intros ([k v] & -> & _)%list_elem_of_fmap.
Qed.

Lemma chain_context_states env mr pr d c : chain_context env mr pr d = Ok c →
  ExecutorContext.meta_statedb c = meta_statedb d ∧
  ExecutorContext.payload_statedb c = payload_statedb d ∧ meta_txs c = [] ∧ payload_txs c = [].
Proof.
  unfold chain_context, chain_essence, context_essence_new, context_new. intros Hc.
  destruct (prepare_stmt _ mr) as [ms|]; [|done]. cbn [result_bind] in Hc.
  destruct (prepare_stmt _ pr) as [ps|]; [|done]. cbn in Hc.
  destruct (context_state_new ms) as [m|]; [|done]. cbn in Hc.
  destruct (context_state_new ps) as [q|]; [|done]. by injection Hc as <-.
Qed.
End Updates.

(** ** The builders *)
Section Builders.
Context {SC : Scale} {CR : Crypto} {TL : TrieLib} {SH : Show}.
Variable D : list (string * ModuleOps ExecContext).
Hypothesis confined : confined_modules D.

(** The run of the executor that a block or an execution comes from. *)
Lemma build_execution_run p d q : build_execution D p d = Ok q →
  ∃ c c', chain_context (Build_ContextEnv (be_number p) (be_timestamp p)) (be_meta_state_root p)
            (be_payload_state_root p) d = Ok c ∧
    execute_txs D (be_payload_txs p) c = (Ok tt, c') ∧
    get_payload_update c' = Ok (payload_execution_state_root (ce_execution q), ce_payload_transaction q) ∧
    get_payload_receipts c' = Ok (payload_execution_receipts_root (ce_execution q), ce_payload_receipts q) ∧
    ce_number q = be_number p ∧ ce_block_hash q = be_block_hash p.
Proof.
  unfold build_execution. destruct (chain_context _ _ _ d) as [c|] eqn:Hc; [|done].
  cbn [result_bind]. destruct (execute_txs D _ c) as [[[]|] c'] eqn:Hr; [|done]. cbn [result_bind].
  destruct (get_payload_update c') as [[root t]|] eqn:Hu; [|done]. cbn [result_bind].
  destruct (get_payload_receipts c') as [[rr rs]|] eqn:Hrs; [|done]. cbn [result_bind].
  intros [= <-]. by exists c, c'.
Qed.

Lemma build_execution_spec p d q : build_execution D p d = Ok q →
  ce_number q = be_number p ∧ ce_block_hash q = be_block_hash p ∧
  state_ops PAYLOAD_STATE (ce_payload_transaction q).
Proof.
  intros (c & c' & Hc & Hr & Hu & _ & Hn & Hh)%build_execution_run. split_and!; [done|done|].
  apply chain_context_states in Hc as (_ & Hp & _).
  apply execute_txs_states in Hr as [(_ & _ & _ & Hs & _) _]; [|done].
  apply prepare_update_column in Hu. by rewrite Hs, Hp in Hu.
Qed.

(** What goes into a block. *)
Record build_params_ok (p : BuildBlockParams) : Prop := {
  bp_number : is_u64 (bb_number p);
  bp_timestamp : is_u64 (bb_timestamp p);
  bp_txs : Forall (λ x, wf codec_transaction (tx x)) (bb_meta_txs p ++ bb_payload_txs p);
}.

(** The block and execution that a block is built on. *)
Definition built_on (p : BuildBlockParams) (d : DB) (ph : Hash) (x : Execution) : Prop :=
  get_block_hash (u64 (bb_number p - 1)) d = Ok (Some ph) ∧
  ∃ eh, get_block_hash (bb_execution_number p) d = Ok (Some eh) ∧ get_execution eh d = Ok (Some x).

Lemma build_block_run p d q : build_block D p d = Ok q →
  ∃ ph phd x c c',
    built_on p d ph x ∧ get_header ph d = Ok (Some phd) ∧
    chain_context (Build_ContextEnv (bb_number p) (bb_timestamp p)) (meta_state_root phd)
      (payload_execution_state_root x) d = Ok c ∧
    execute_txs D (bb_meta_txs p) c = (Ok tt, c') ∧
    get_meta_update c' = Ok (meta_state_root (cb_header q), cb_meta_transaction q) ∧
    get_meta_txs c' = Ok (meta_txs_root (cb_header q), cb_meta_txs q) ∧
    get_meta_receipts c' = Ok (meta_receipts_root (cb_header q), cb_meta_receipts q) ∧
    get_txs_root (bb_payload_txs p) = Ok (payload_txs_root (cb_header q)) ∧
    cb_payload_txs q = bb_payload_txs p ∧
    cb_body q = Build_Body (tx_hash <$> cb_meta_txs q) (tx_hash <$> cb_payload_txs q) ∧
    cb_block_hash q = hash_hash (encode codec_header (cb_header q)) ∧ cb_proof q = default_proof ∧
    cb_header q = {|
      hdr_number := bb_number p; hdr_timestamp := bb_timestamp p; parent_hash := ph;
      meta_txs_root := meta_txs_root (cb_header q); meta_state_root := meta_state_root (cb_header q);
      meta_receipts_root := meta_receipts_root (cb_header q);
      payload_txs_root := payload_txs_root (cb_header q);
      payload_execution_gap := i8 (u64 (bb_number p - bb_execution_number p));
      hdr_payload_execution_state_root := payload_execution_state_root x;
      hdr_payload_execution_receipts_root := payload_execution_receipts_root x |}.
Proof.
  unfold build_block. intros Hq.
  destruct (get_block_hash (u64 _) d) as [[ph|]|] eqn:Eph; [|done..]. cbn [result_bind ok_or] in Hq.
  destruct (get_header ph d) as [[phd|]|] eqn:Ehd; [|done..]. cbn [result_bind ok_or] in Hq.
  destruct (get_block_hash (bb_execution_number p) d) as [[eh|]|] eqn:Eeh; [|done..].
  cbn [result_bind ok_or] in Hq.
  destruct (get_execution eh d) as [[x|]|] eqn:Ex; [|done..]. cbn [result_bind ok_or] in Hq.
  destruct (chain_context _ _ _ d) as [c|] eqn:Hc; [|done]. cbn [result_bind] in Hq.
  destruct (execute_txs D _ c) as [[[]|] c'] eqn:Hr; [|done]. cbn [result_bind] in Hq.
  destruct (get_meta_update c') as [[root t]|] eqn:Hu; [|done]. cbn [result_bind] in Hq.
  destruct (get_meta_txs c') as [[tr ts]|] eqn:Ht; [|done]. cbn [result_bind] in Hq.
  destruct (get_meta_receipts c') as [[rr rs]|] eqn:Hrr; [|done]. cbn [result_bind] in Hq.
  destruct (get_txs_root (bb_payload_txs p)) as [pr|] eqn:Hpr; [|done]. cbn [result_bind] in Hq.
  unfold hash in Hq. cbn [result_bind] in Hq. injection Hq as <-.
  exists ph, phd, x, c, c'. repeat (split; [done || (split; [done|by exists eh])|]). done.
Qed.

Lemma build_block_state p d q : build_block D p d = Ok q →
  state_ops META_STATE (cb_meta_transaction q).
Proof.
  intros (ph & phd & x & c & c' & _ & _ & Hc & Hr & Hu & _)%build_block_run.
  apply chain_context_states in Hc as (Hm & _).
  apply execute_txs_states in Hr as [(Hs & _) _]; [|done].
  apply prepare_update_column in Hu. by rewrite Hs, Hm in Hu.
Qed.

Lemma build_block_spec p d q : build_params_ok p → build_block D p d = Ok q →
  block_params_ok q ∧ hdr_number (cb_header q) = bb_number p ∧
  get_block_hash (u64 (bb_number p - 1)) d = Ok (Some (parent_hash (cb_header q))).
Proof.
  intros Hp Hbuild. pose proof Hbuild as
    (ph & phd & x & c & c' & [Hph _] & _ & Hc & Hr & _ & Ht & _ & _ & Hpt & Hb & _ & _ & Hq)%build_block_run.
  apply chain_context_states in Hc as (_ & _ & Hl & _).
  apply execute_txs_states in Hr as [_ [Htxs _]]; [|done]. rewrite Hl in Htxs.
  unfold get_meta_txs, get_txs_root in Ht. cbn [result_bind] in Ht. injection Ht as _ Ht.
  split; [|by rewrite Hq]. split.
  - rewrite Hq. apply codec_header_wf. split_and!; [apply Hp..|apply i8_range].
  - rewrite <-Ht, Hpt. destruct Htxs as [->| ->]; [|apply Hp].
    apply (Forall_app _ (bb_meta_txs p)), Hp.
  - by rewrite Hb.
  - by rewrite Hb.
  - by eapply build_block_state.
Qed.
End Builders.

(** ** The states that blocks and executions leave

    From one block to the next: what the transactions of a block leave in
    their context is what the context of the next block reads from the
    database. *)
(** ** Batches of updates *)
Lemma update_contents_lookup (l : Updates) (m : Contents) k : NoDup l.*1 →
  update_contents l m !! k = match (list_to_map l : gmap DBKey (option DBValue)) !! k with
                             | Some v => v
                             | None => m !! k
                             end.
Proof.
  unfold update_contents. revert m. induction l as [|[k' v] l IH]; intros m.
  { intros _. cbn. by rewrite lookup_empty. }
  rewrite fmap_cons, NoDup_cons. intros [Hk Hnd]. cbn [foldl fst snd].
  rewrite IH, list_to_map_cons by done. destruct (decide (k = k')) as [->|Hne].
  - rewrite lookup_insert_eq, not_elem_of_list_to_map_1 by done.
    destruct v; [by rewrite lookup_insert_eq|by rewrite lookup_delete_eq].
  - rewrite lookup_insert_ne by done. destruct (_ !! k); [done|].
    destruct v; [by rewrite lookup_insert_ne|by rewrite lookup_delete_ne].
Qed.

Section States.
Context {SC : Scale} {CR : Crypto} {TL : TrieLib} {LAWS : TrieLaws} {SH : Show}.
Variable D : list (string * ModuleOps ExecContext).
Hypothesis confined : confined_modules D.

(** What a state with nothing pending reads is what its update leaves. *)
Lemma buffered_reads (s : ContextState) (m : Contents) k : tx_buffer s = ∅ →
  (∀ k, statedb_getter s k = Ok (m !! k)) →
  state_get s k = Ok (update_contents (map_to_list (buffer s)) m !! k).
Proof.
  intros Ht Hg. rewrite update_contents_lookup by apply NoDup_fst_map_to_list.
  rewrite list_to_map_to_list. unfold state_get. rewrite Ht, lookup_empty.
  destruct (buffer s !! k); [done|]. by rewrite Hg.
Qed.

(** A context over represented states exists, and reads them. *)
Lemma context_reads d env mr pr mm pm :
  represents (meta_statedb d) mr mm → represents (payload_statedb d) pr pm →
  ∃ c, chain_context env mr pr d = Ok c ∧ clean c ∧ cx_meta_state_root c = mr ∧
    payload_state_root c = pr ∧
    (∀ k, statedb_getter (meta_state c) k = Ok (mm !! k)) ∧
    (∀ k, statedb_getter (payload_state c) k = Ok (pm !! k)) ∧
    ∀ (meta : bool) k, read meta k c = Ok ((if meta then mm else pm) !! k).
Proof.
  intros (ms & mg & H1 & H2 & Hm)%represents_getter (ps & pg & H3 & H4 & Hp)%represents_getter.
  unfold chain_context, chain_essence, context_essence_new. cbn [prepare_stmt statedb_api].
  rewrite H1. cbn [result_bind]. rewrite H3. cbn [result_bind]. unfold context_new, context_state_new.
  cbn [prepare_get statedb_api es_meta_stmt es_payload_stmt]. rewrite H2. cbn [result_bind].
  rewrite H4. cbn [result_bind]. eexists. split_and!; [done..|].
  intros [] k; cbn; unfold state_get; cbn; rewrite !lookup_empty; [by rewrite Hm|by rewrite Hp].
Qed.

(** The update of a state that reads its contents. *)
Lemma update_reads (s : ContextState) d root mm root' t : tx_buffer s = ∅ → represents d root mm →
  (∀ k, statedb_getter s k = Ok (mm !! k)) →
  statedb_prepare_update d root (map_to_list (buffer s)) = Ok (root', t) →
  ∃ mm', (∀ k, state_get s k = Ok (mm' !! k)) ∧
    (fresh (ops t) (sd_db d) → represents (stored t d) root' mm').
Proof.
  intros Ht Hrep Hg Hup. exists (update_contents (map_to_list (buffer s)) mm). split.
  { intros k. by apply buffered_reads. }
  destruct (prepare_update_spec d root mm (map_to_list (buffer s)) Hrep) as (r & t' & Hu & _ & H).
  rewrite Hup in Hu. by injection Hu as <- <-.
Qed.

Lemma clean_buffers c : clean c → tx_buffer (meta_state c) = ∅ ∧ tx_buffer (payload_state c) = ∅.
Proof. unfold clean. by intros <-. Qed.

(** ** Writing keeps the states *)
Lemma represents_column col d d' root m :
  (∀ k, d' !! (col, k) = d !! (col, k)) → represents (Build_StateDB d col) root m →
  represents (Build_StateDB d' col) root m.
Proof. intros Hd. apply represents_mono. unfold proxy_get. cbn. intros k v. by rewrite Hd. Qed.

(** The state of a block or an execution is written as its transaction says. *)
Lemma block_meta_state p d k :
  apply_ops (ops (commit_block_ops transaction_new p)) d !! (META_STATE, k) =
  apply_ops (ops (cb_meta_transaction p)) d !! (META_STATE, k).
Proof.
  rewrite commit_block_split. cbn [ops transaction_new app]. rewrite apply_ops_app. apply (lookup_untouched META_STATE).
  unfold block_ops. by rewrite !column_app, tx_column, receipt_column.
Qed.
Lemma execution_payload_state p d k :
  apply_ops (ops (commit_execution_ops transaction_new p)) d !! (PAYLOAD_STATE, k) =
  apply_ops (ops (ce_payload_transaction p)) d !! (PAYLOAD_STATE, k).
Proof.
  rewrite commit_execution_split. cbn [ops transaction_new app]. rewrite apply_ops_app. apply (lookup_untouched PAYLOAD_STATE).
  unfold execution_ops. by rewrite !column_app, receipt_column.
Qed.

(** The other state is left alone. *)
Lemma block_payload_state p d k : state_ops META_STATE (cb_meta_transaction p) →
  apply_ops (ops (commit_block_ops transaction_new p)) d !! (PAYLOAD_STATE, k) = d !! (PAYLOAD_STATE, k).
Proof.
  intros Hs. apply lookup_untouched. rewrite commit_block_column by done.
  unfold block_ops. by rewrite !column_app, tx_column, receipt_column.
Qed.
Lemma execution_meta_state p d k : state_ops PAYLOAD_STATE (ce_payload_transaction p) →
  apply_ops (ops (commit_execution_ops transaction_new p)) d !! (META_STATE, k) = d !! (META_STATE, k).
Proof.
  intros Hs. apply lookup_untouched. rewrite commit_execution_column by done.
  unfold execution_ops. by rewrite !column_app, receipt_column.
Qed.

(** The state that a run leaves, as the contexts after the write read it. *)
Lemma run_reads (meta : bool) d d' env mr pr mm pm c c' txs root t :
  represents (meta_statedb d) mr mm → represents (payload_statedb d) pr pm →
  chain_context env mr pr d = Ok c → execute_txs D txs c = (Ok tt, c') →
  let sd := if meta then meta_statedb else payload_statedb in
  (if meta then get_meta_update c' else get_payload_update c') = Ok (root, t) →
  fresh (ops t) (entries d) →
  (∀ k, entries d' !! (db_column (sd d), k) = apply_ops (ops t) (entries d) !! (db_column (sd d), k)) →
  ∃ m', (∀ k, read meta k c' = Ok (m' !! k)) ∧ represents (sd d') root m' ∧
    (∀ r m, represents (sd d) r m → represents (sd d') r m).
Proof.
  intros Hm Hp Hc Hr sd Hup Hf Hd'.
  destruct (context_reads d env mr pr mm pm Hm Hp) as (c0 & Hc0 & Hcl & Hmr & Hpr & Hgm & Hgp & _).
  rewrite Hc in Hc0. injection Hc0 as <-. apply chain_context_states in Hc as (Hmd & Hpd & _).
  pose proof (execute_txs_clean D confined _ _ _ Hcl Hr) as (Htm & Htp)%clean_buffers.
  apply execute_txs_states in Hr as [(E1 & E2 & E3 & E4 & E5 & E6) _]; [|done].
  assert (∃ s st rt, state_of meta c' = s ∧ tx_buffer s = ∅ ∧ represents (sd d) rt st ∧
            (∀ k, statedb_getter s k = Ok (st !! k)) ∧
            statedb_prepare_update (sd d) rt (map_to_list (buffer s)) = Ok (root, t))
    as (s & st & rt & Hs & Ht & Hrep & Hg & Hu).
  { subst sd. destruct meta; cbn [state_of].
    - exists (meta_state c'), mm, mr. split_and!; [done..|by rewrite E3|].
      unfold get_meta_update in Hup. by rewrite E1, E2, Hmd, Hmr in Hup.
    - exists (payload_state c'), pm, pr. split_and!; [done..|by rewrite E6|].
      unfold get_payload_update in Hup. by rewrite E4, E5, Hpd, Hpr in Hup. }
  assert (sd_db (sd d) = entries d) as Hsd by (subst sd; by destruct meta).
  assert (∀ r m, represents (stored t (sd d)) r m → represents (sd d') r m) as Hw.
  { intros r m. unfold stored. rewrite Hsd. subst sd.
    destruct meta; apply represents_column; intros k; apply Hd'. }
  destruct (update_reads s (sd d) rt st root t Ht Hrep Hg Hu) as (m' & Hm' & Hr').
  rewrite Hsd in Hr'. exists m'. split; [|split].
  - intros k. rewrite <-Hm', <-Hs. done.
  - by apply Hw, Hr'.
  - intros r m Hrm. apply Hw. destruct (prepare_update_spec _ _ _ (map_to_list (buffer s)) Hrep)
      as (r1 & t1 & Hu1 & Hops & _). rewrite Hu in Hu1. injection Hu1 as <- <-.
    apply (represents_mono (sd d)); [|done]. intros k v Hk. unfold proxy_get, stored in *. cbn in *.
    apply fresh_keeps; [intros op Hop; by apply Hops|by rewrite Hsd|done].
Qed.

(** A new context over both states. *)
Lemma new_context d env mr pr mm pm : represents (meta_statedb d) mr mm →
  represents (payload_statedb d) pr pm →
  ∃ c, chain_context env mr pr d = Ok c ∧ (∀ k, read true k c = Ok (mm !! k)) ∧
    (∀ k, read false k c = Ok (pm !! k)).
Proof.
  intros Hm Hp.
  destruct (context_reads d env mr pr mm pm Hm Hp) as (c & Hc & _ & _ & _ & _ & _ & Hk).
  exists c. split; [done|]. split; intros k; apply Hk.
Qed.

(** C20: the state goes from one block to the next.  A block that is built on
    a parent whose state is in the database, and written, is a state that the
    next context reads: for every key it returns what the transactions of the
    block left in their context, and the payload state it is given is read as
    before.  No state that was in the database is lost. *)
Theorem block_state_carries_over bp d q d' ph phd x mm pm :
  build_block D bp d = Ok q → built_on bp d ph x → get_header ph d = Ok (Some phd) →
  represents (meta_statedb d) (meta_state_root phd) mm →
  represents (payload_statedb d) (payload_execution_state_root x) pm →
  fresh (ops (cb_meta_transaction q)) (entries d) →
  entries d' = apply_ops (ops (commit_block_ops transaction_new q)) (entries d) →
  ∃ c c', chain_context (Build_ContextEnv (bb_number bp) (bb_timestamp bp)) (meta_state_root phd)
            (payload_execution_state_root x) d = Ok c ∧
    execute_txs D (bb_meta_txs bp) c = (Ok tt, c') ∧
    (∀ env pr m, represents (payload_statedb d) pr m →
      ∃ c2, chain_context env (meta_state_root (cb_header q)) pr d' = Ok c2 ∧
        (∀ key, read true key c2 = read true key c') ∧ (∀ key, read false key c2 = Ok (m !! key))) ∧
    (∀ r m, represents (meta_statedb d) r m → represents (meta_statedb d') r m).
Proof.
  intros Hb. pose proof Hb as
    (ph' & phd' & x' & c & c' & [E1 (eh & E2 & E3)] & Hh' & Hc & Hr & Hu & _)%build_block_run.
  intros [F1 (eh' & F2 & F3)] Hh Hm Hp Hf Hd'.
  rewrite E1 in F1. injection F1 as <-. rewrite E2 in F2. injection F2 as <-.
  rewrite E3 in F3. injection F3 as <-. rewrite Hh' in Hh. injection Hh as <-.
  exists c, c'. split; [done|]. split; [done|].
  destruct (run_reads true d d' _ _ _ _ _ _ _ _ _ _ Hm Hp Hc Hr Hu Hf) as (m' & Hm' & Hnew & Hold).
  { intros k. rewrite Hd'. apply block_meta_state. }
  split; [|exact Hold]. intros env pr m Hpm.
  destruct (new_context d' env (meta_state_root (cb_header q)) pr m' m Hnew)
    as (c2 & Hc2 & Hk1 & Hk2).
  - apply (represents_column _ (entries d)); [|done]. intros k. rewrite Hd'.
    by apply block_payload_state, (build_block_state D confined bp d).
  - exists c2. split; [done|]. split; [|done]. intros key. by rewrite Hk1, Hm'.
Qed.

(** The same of the payload state: an execution that is built and written
    leaves a state that the next context reads as its transactions left it,
    and the meta states and all earlier payload states are read as before. *)
Theorem execution_state_carries_over p d q d' mm pm :
  build_execution D p d = Ok q →
  represents (meta_statedb d) (be_meta_state_root p) mm →
  represents (payload_statedb d) (be_payload_state_root p) pm →
  fresh (ops (ce_payload_transaction q)) (entries d) →
  entries d' = apply_ops (ops (commit_execution_ops transaction_new q)) (entries d) →
  ∃ c c', chain_context (Build_ContextEnv (be_number p) (be_timestamp p)) (be_meta_state_root p)
            (be_payload_state_root p) d = Ok c ∧
    execute_txs D (be_payload_txs p) c = (Ok tt, c') ∧
    (∀ env mr m, represents (meta_statedb d) mr m →
      ∃ c2, chain_context env mr (payload_execution_state_root (ce_execution q)) d' = Ok c2 ∧
        (∀ key, read false key c2 = read false key c') ∧ (∀ key, read true key c2 = Ok (m !! key))) ∧
    (∀ r m, represents (payload_statedb d) r m → represents (payload_statedb d') r m).
Proof.
  intros Hb Hm Hp Hf Hd'. pose proof Hb as (c & c' & Hc & Hr & Hu & _)%build_execution_run.
  exists c, c'. split; [done|]. split; [done|].
  destruct (run_reads false d d' _ _ _ _ _ _ _ _ _ _ Hm Hp Hc Hr Hu Hf) as (m' & Hm' & Hnew & Hold).
  { intros k. rewrite Hd'. apply execution_payload_state. }
  split; [|exact Hold]. intros env mr m Hmr.
  destruct (new_context d' env mr (payload_execution_state_root (ce_execution q)) m m')
    as (c2 & Hc2 & Hk1 & Hk2); [|done|].
  - apply (represents_column _ (entries d)); [|done]. intros k. rewrite Hd'.
    by apply execution_meta_state, (build_execution_spec D confined p d).
  - exists c2. split; [done|]. split; [|done]. intros key. by rewrite Hk2, Hm'.
Qed.
End States.
