(* ===== verification/ChainCommit.v ===== *)
(** * ChainCommit

    Committing blocks: a block extends the chain on disk by one, or changes
    nothing; and the queue of executions. *)
From S2P Require Import Prelude Codec Types Context ExecutorContext Executor Db Statedb ChainData Chain ChainProofs ChainBuild.

(** The error of the next write of a database. *)
Definition next_fault (d : DB) : option CommonError := default None (head (faults d)).

Section Commit.
Context {SC : Scale} {CR : Crypto} {TL : TrieLib} {SH : Show}.
Variable D : list (string * ModuleOps ExecContext).

Lemma db_write_spec t s : ∃ s',
  db_write t s = (match next_fault (db s) with Some f => Err f | None => Ok tt end, s') ∧
  entries (db s') = match next_fault (db s) with
                    | Some _ => entries (db s)
                    | None => apply_ops (ops t) (entries (db s))
                    end ∧
  message_tx s' = message_tx s ∧ current_state s' = current_state s ∧ clock s' = clock s ∧
  executor_genesis_hash s' = executor_genesis_hash s.
Proof.
  unfold db_write, write, next_fault. destruct (faults (db s)) as [|[f|] rest]; cbn; by eexists.
Qed.

(** The message is sent once the current state has been read. *)
Definition announce (msg : ChainOutMessage) : B unit :=
  do! update_current_state D in message_send msg.

Lemma announce_spec msg s r s' : announce msg s = (r, s') →
  db s' = db s ∧ clock s' = clock s ∧
  r = match read_current_state D (db s) (clock s) with Ok _ => Ok tt | Err e => Err e end ∧
  current_state s' = match read_current_state D (db s) (clock s) with
                     | Ok cs => Some cs | Err _ => current_state s end ∧
  message_tx s' = match r with Ok _ => message_tx s ++ [msg] | Err _ => message_tx s end.
Proof.
  unfold announce, update_current_state, message_send, bind, asks, lift, modify. cbn.
  destruct (read_current_state D (db s) (clock s)) as [cs|x]; intros [= <- <-]; cbn; done.
Qed.

(** The numbers and hashes of a current state are those of the chain. *)
Lemma read_current_state_spec d ck cs n e : chain_ok d n e →
  read_current_state D d ck = Ok cs →
  cs_confirmed_number cs = n ∧ cs_executed_number cs = e ∧
  get_block_hash n d = Ok (Some (cs_confirmed_block_hash cs)) ∧
  get_block_hash e d = Ok (Some (cs_executed_block_hash cs)) ∧
  get_block_hash 0 d = Ok (Some (cs_genesis_hash cs)).
Proof.
  intros [[Hn _ _ _] [He _ _] _]. unfold read_current_state. rewrite Hn, He.
  cbn [result_bind ok_or]. intros Hr.
  destruct (get_block_hash n d) as [[h|]|]; [|done..]. cbn [result_bind ok_or] in Hr.
  destruct (get_header h d) as [[hd|]|]; [|done..]. cbn [result_bind ok_or] in Hr.
  destruct (get_block_hash e d) as [[eh|]|]; [|done..]. cbn [result_bind ok_or] in Hr.
  destruct (get_execution eh d) as [[x|]|]; [|done..]. cbn [result_bind ok_or] in Hr.
  destruct ck as [ms|]; [|done]. cbn [result_bind ok_or] in Hr.
  destruct (chain_essence _ _ _ d) as [es|]; [|done]. cbn [result_bind] in Hr.
  destruct (execute_call_with_block_hash _ _ _ _ _ _ _ _ d) as [[m|]|]; [|done..].
  cbn [result_bind map_err] in Hr.
  destruct (get_block_hash 0 d) as [[g|]|]; [|done..]. cbn [result_bind ok_or] in Hr.
  injection Hr as <-. done.
Qed.

(** The state that the backend holds is that of the chain. *)
Definition current (s : Backend) (n e : BlockNumber) : Prop :=
  ∃ cs, current_state s = Some cs ∧ cs_confirmed_number cs = n ∧ cs_executed_number cs = e ∧
    get_block_hash n (db s) = Ok (Some (cs_confirmed_block_hash cs)) ∧
    get_block_hash e (db s) = Ok (Some (cs_executed_block_hash cs)).

Lemma announce_current msg s s' n e : chain_ok (db s) n e →
  announce msg s = (Ok tt, s') → current s' n e.
Proof.
  intros Hok (Hd & _ & Hr & Hc & _)%announce_spec.
  destruct (read_current_state D (db s) (clock s)) as [cs|] eqn:Hcs; [|done].
  apply (read_current_state_spec _ _ _ n e Hok) in Hcs as (? & ? & ? & ? & _).
  exists cs. rewrite Hd. done.
Qed.

Lemma get_confirmed_spec d n e parent : chain_ok d n e → get_block_hash n d = Ok (Some parent) →
  get_confirmed d = Ok (n, parent).
Proof.
  intros Hok Hpar. unfold get_confirmed. rewrite (linked_confirmed _ _ (ok_linked _ _ _ Hok)).
  cbn [result_bind ok_or]. by rewrite Hpar.
Qed.

(** The chain one block longer, after a call with the result [r]. *)
Record extended (s s' : Backend) (p : ChainCommitBlockParams) (n e : BlockNumber)
    (r : CommonResult unit) : Prop := {
  ext_chain : chain_ok (db s') (n + 1) e;
  ext_block : block_at (db s') (n + 1) (cb_block_hash p) (cb_header p) (cb_body p);
  ext_txs : ∀ x, x ∈ cb_meta_txs p ++ cb_payload_txs p →
    keyed tx_hash tx (cb_meta_txs p ++ cb_payload_txs p) x →
    get_transaction (tx_hash x) (db s') = Ok (Some (tx x));
  ext_other_txs : ∀ h, h ∉ tx_hash <$> (cb_meta_txs p ++ cb_payload_txs p) →
    get_transaction h (db s') = get_transaction h (db s);
  ext_receipts : ∀ x, x ∈ cb_meta_receipts p → keyed rc_tx_hash receipt (cb_meta_receipts p) x →
    is_u64 (rc_block_number (receipt x)) → get_receipt (rc_tx_hash x) (db s') = Ok (Some (receipt x));
  ext_other_receipts : ∀ h, h ∉ rc_tx_hash <$> cb_meta_receipts p →
    get_receipt h (db s') = get_receipt h (db s);
  ext_proof : get_proof (cb_block_hash p) (db s') = Ok (Some (cb_proof p));
  ext_old : ∀ k h hd bd, (0 ≤ k ≤ n)%Z → block_at (db s) k h hd bd → block_at (db s') k h hd bd;
  ext_executions : ∀ h, get_execution h (db s') = get_execution h (db s);
  ext_result : match r with
    | Ok _ => message_tx s' = message_tx s ++ [BlockCommitted (n + 1) (cb_block_hash p)] ∧
              current s' (n + 1) e
    | Err _ => message_tx s' = message_tx s ∧ current_state s' = current_state s
    end;
}.

Lemma commit_block_next p s n e r s' : chain_ok (db s) n e → block_params_ok p → is_u64 (n + 1) →
  get_header (cb_block_hash p) (db s) = Ok None → hdr_number (cb_header p) = (n + 1)%Z →
  get_block_hash n (db s) = Ok (Some (parent_hash (cb_header p))) →
  commit_block D p s = (r, s') →
  match next_fault (db s) with
  | Some f => r = Err f ∧ entries (db s') = entries (db s) ∧ message_tx s' = message_tx s
  | None => extended s s' p n e r
  end.
Proof.
  intros Hok Hp Hn Hnew Hnum Hpar. unfold commit_block, bind at 1, asks.
  rewrite Hnew, bind_lift_ok, (get_confirmed_spec _ n e _ Hok Hpar), bind_lift_ok.
  cbn [fst snd]. rewrite (u64_id (n + 1)), decide_False by (done || tauto).
  destruct (db_write_spec (commit_block_ops transaction_new p) s) as (s1 & Hw & He & Hm & Hcs & _).
  unfold bind. rewrite Hw. destruct (next_fault (db s)) as [f|]; [by intros [= <- <-]|].
  change (on_block_committed D _ _) with (announce (BlockCommitted (hdr_number (cb_header p)) (cb_block_hash p))).
  intros Ha. pose proof (block_extends (db s) (db s1) p n e Hok Hp He Hnew Hnum Hpar) as Hok1.
  pose proof Ha as (Hd & _ & Hr & Hc & Hmsg)%announce_spec. split; rewrite ?Hd.
  - done.
  - by eapply new_block_at.
  - intros x. by eapply new_transaction.
  - intros h. by eapply other_transaction.
  - intros x. by eapply new_receipt.
  - intros h. by eapply other_receipt.
  - by eapply new_proof.
  - intros k h hd bd Hk. by eapply old_block_at.
  - intros h. by eapply kept_execution.
  - rewrite Hnum in *. destruct r as [[]|x].
    + split; [by rewrite Hmsg, Hm|]. by eapply announce_current.
    + rewrite Hmsg, Hc, Hm, Hcs. split; [done|]. by destruct (read_current_state D _ _).
Qed.

(** What a call of [commit_block] does. *)
Lemma commit_block_cases p s n e parent r s' :
  chain_ok (db s) n e → block_params_ok p → is_u64 (n + 1) →
  get_block_hash n (db s) = Ok (Some parent) → commit_block D p s = (r, s') →
  match get_header (cb_block_hash p) (db s) with
  | Err x => r = Err x ∧ s' = s
  | Ok (Some _) => r = Err (commit_block_error CbDuplicated) ∧ s' = s
  | Ok None =>
      if decide (hdr_number (cb_header p) = (n + 1)%Z ∧ parent_hash (cb_header p) = parent) then
        match next_fault (db s) with
        | Some f => r = Err f ∧ entries (db s') = entries (db s) ∧ message_tx s' = message_tx s
        | None => extended s s' p n e r
        end
      else r = Err (commit_block_error CbNotBest) ∧ s' = s
  end.
Proof.
  intros Hok Hp Hn Hpar Hrun. destruct (get_header (cb_block_hash p) (db s)) as [[known|]|x] eqn:Hnew.
  2: destruct (decide (hdr_number (cb_header p) = (n + 1)%Z ∧ _)) as [[Hnum Hh]|Hbest];
       [apply commit_block_next; congruence|].
  all: revert Hrun; unfold commit_block, bind at 1, asks; rewrite Hnew.
  1, 3: by intros [= <- <-].
  rewrite bind_lift_ok, (get_confirmed_spec _ n e parent Hok Hpar), bind_lift_ok.
  cbn [fst snd]. rewrite (u64_id (n + 1)), decide_True by done. by intros [= <- <-].
Qed.

(** C14: a block is committed when its hash is new, its number is the next one
    and its parent is the last confirmed block; it is refused otherwise, and
    then nothing changes.  Once it is committed the chain on disk is one
    longer: the new block and its proof are read back, every transaction of
    the block is read under its hash, and every meta receipt under that of its
    transaction, as it was given (where the hash has one value in the block),
    those of other hashes are read as before; the blocks before it are
    read as they were, each block is the child of the one before; the
    executions are untouched.  The write is atomic: when
    it fails the entries are the old ones.  A message is sent exactly when the
    call succeeds, and then the current state is that of the new block.  The
    block is as the node builds and verifies them: its numbers are of their
    width, its body lists the hashes of its transactions, and it writes no
    other column with the state ([block_params_ok]). *)
Theorem block_extends_chain p s n e parent r s' :
  chain_ok (db s) n e → block_params_ok p → is_u64 (n + 1) →
  get_block_hash n (db s) = Ok (Some parent) → commit_block D p s = (r, s') →
  match get_header (cb_block_hash p) (db s) with
  | Err x => r = Err x ∧ s' = s
  | Ok (Some _) => r = Err (commit_block_error CbDuplicated) ∧ s' = s
  | Ok None =>
      if decide (hdr_number (cb_header p) = (n + 1)%Z ∧ parent_hash (cb_header p) = parent) then
        match next_fault (db s) with
        | Some f => r = Err f ∧ entries (db s') = entries (db s) ∧ message_tx s' = message_tx s
        | None => extended s s' p n e r
        end
      else r = Err (commit_block_error CbNotBest) ∧ s' = s
  end.
Proof. apply commit_block_cases. Qed.
End Commit.

(** ** The queue of executions

    The queue of executions: blocks are executed one after another, each over
    the execution of its parent, whatever tasks failed before. *)
Section Execute.
Context {SC : Scale} {CR : Crypto} {TL : TrieLib} {SH : Show}.
Variable D : list (string * ModuleOps ExecContext).
Hypothesis confined : confined_modules D.

(** ** An execution that is written *)
Section Extend.
Variables (d d' : DB) (q : ChainCommitExecutionParams) (n e : BlockNumber).
Hypothesis Hok : chain_ok d n e.
Hypothesis Hq : state_ops PAYLOAD_STATE (ce_payload_transaction q).
Hypothesis Hd' : entries d' = apply_ops (ops (commit_execution_ops transaction_new q)) (entries d).
Hypothesis Hnum : (0 < ce_number q ≤ n)%Z.
Hypothesis Hnext : (ce_number q ≤ e + 1)%Z.
Hypothesis Hhash : get_block_hash (ce_number q) d = Ok (Some (ce_block_hash q)).

#[local] Ltac kept := apply same_read, (execution_kept d d' q Hq Hd'); apply (bool_decide_unpack _); exact I.

Lemma exec_block_hash k : get_block_hash k d' = get_block_hash k d.
Proof. kept. Qed.
Lemma exec_header h : get_header h d' = get_header h d.
Proof. kept. Qed.
Lemma exec_body h : get_body h d' = get_body h d.
Proof. apply same_body; apply (execution_kept d d' q Hq Hd'); apply (bool_decide_unpack _); exact I. Qed.
Lemma exec_transaction h : get_transaction h d' = get_transaction h d.
Proof. kept. Qed.

Lemma exec_execution h : get_execution h d' =
  if decide (h = ce_block_hash q) then Ok (Some (ce_execution q)) else get_execution h d.
Proof.
  case_decide as Hh.
  - apply (read_back codec_execution EXECUTION); [|apply codec_execution_wf].
    by rewrite (execution_stored d d' q Hq Hd'), decide_True.
  - apply same_read. by rewrite (execution_stored d d' q Hq Hd'), decide_False.
Qed.

Lemma exec_block_at k h hd bd : block_at d k h hd bd → block_at d' k h hd bd.
Proof.
  intros [H1 H2 H3 H4 H5]. split; [by rewrite exec_block_hash|by rewrite exec_header|
    by rewrite exec_body|done|]. intros t Ht. rewrite exec_transaction. by apply H5.
Qed.

Lemma execution_extends : chain_ok d' n (ce_number q).
Proof.
  destruct Hok as [[Hc Hr Hb Hl] [He1 He2 He3] Ho]. split; [split| |lia].
  - rewrite <-Hc. apply same_read. rewrite (execution_global d d' q Hq Hd'). by rewrite decide_False.
  - done.
  - intros k Hk. destruct (Hb k Hk) as (h & hd & bd & H). exists h, hd, bd. by apply exec_block_at.
  - intros k h hd Hk. rewrite !exec_block_hash, exec_header. by apply Hl.
  - split; [|lia|].
    + apply (read_back sc_u64 GLOBAL); [|apply sc_u64_wf; unfold is_u64; lia].
      by rewrite (execution_global d d' q Hq Hd'), decide_True.
    + intros k h Hk. rewrite exec_block_hash, exec_execution. intros Hh. case_decide as Heq; [by eexists|].
      destruct (decide (k = ce_number q)) as [->|Hne]; [congruence|]. apply (He3 k h); [lia|done].
Qed.
End Extend.

(** ** The abstract machine: the next block is executed *)

(** The task of a block of the database. *)
Definition task_of (d : DB) (t : ExecuteTask) : Prop :=
  ∃ hd bd, block_at d (et_number t) (et_block_hash t) hd bd ∧
    et_timestamp t = hdr_timestamp hd ∧ et_parent_hash t = parent_hash hd ∧
    et_meta_state_root t = meta_state_root hd ∧ tx_hash <$> et_payload_txs t = body_payload_txs bd.

(** What a task is executed with, over the execution of the parent. *)
Definition execution_params (t : ExecuteTask) (x : Execution) : BuildExecutionParams := {|
  be_number := et_number t; be_timestamp := et_timestamp t; be_block_hash := et_block_hash t;
  be_meta_state_root := et_meta_state_root t;
  be_payload_state_root := payload_execution_state_root x; be_payload_txs := et_payload_txs t |}.

(** One step: block [k] is executed and its execution written. *)
Definition exec_step (k : BlockNumber) (d d' : DB) : Prop :=
  ∃ t x q, et_number t = k ∧ task_of d t ∧ get_execution (et_parent_hash t) d = Ok (Some x) ∧
    build_execution D (execution_params t x) d = Ok q ∧
    entries d' = apply_ops (ops (commit_execution_ops transaction_new q)) (entries d).

(** From [e] on, one block after another. *)
Inductive advance : DB → BlockNumber → DB → BlockNumber → Prop :=
| advance_refl d d' e : entries d' = entries d → advance d e d' e
| advance_next d e d1 d' e' : exec_step (e + 1) d d1 → advance d1 (e + 1) d' e' → advance d e d' e'.

Lemma exec_step_ok k d d' n e : chain_ok d n e → (0 < k ≤ n)%Z → (k ≤ e + 1)%Z → exec_step k d d' →
  chain_ok d' n k ∧ (∀ j h hd bd, block_at d j h hd bd → block_at d' j h hd bd).
Proof.
  intros Hok Hk He (t & x & q & <- & (hd & bd & Hat & _) & _ & Hb & Hd').
  apply build_execution_spec in Hb as (Hn & Hh & Hs); [|done]. cbn in Hn, Hh. split.
  - rewrite <-Hn. apply (execution_extends d d' q n e); rewrite ?Hn, ?Hh; try done. apply Hat.
  - intros j h hd' bd' Hj. by apply (exec_block_at d d' q Hs Hd').
Qed.

(** ** One number *)

(** A task that is rebuilt is that of the block. *)
Lemma read_txs_hashes hs d txs : read_txs hs d = Ok txs → tx_hash <$> txs = hs.
Proof.
  revert txs. induction hs as [|h hs IH]; intros txs; cbn [read_txs]; [by intros [= <-]|].
  destruct (get_transaction h d) as [[x|]|]; [|done..]. cbn [result_bind ok_or].
  destruct (read_txs hs d) as [l|]; [|done]. cbn [result_bind]. intros [= <-].
  rewrite fmap_cons. cbn [tx_hash]. f_equal. by apply IH.
Qed.
Lemma rebuild_task_of d n k t : linked d n → (0 ≤ k ≤ n)%Z → rebuild_task k d = Ok t →
  et_number t = k ∧ task_of d t.
Proof.
  intros Hl Hk. destruct (linked_blocks d n Hl k Hk) as (h & hd & bd & Hat).
  unfold rebuild_task, get_block. rewrite (at_hash _ _ _ _ _ Hat). cbn [result_bind ok_or].
  rewrite (at_header _ _ _ _ _ Hat), (at_body _ _ _ _ _ Hat). cbn [result_bind ok_or bk_body].
  destruct (read_txs _ d) as [txs|] eqn:Htxs; [|done]. cbn [result_bind]. intros [= <-].
  apply read_txs_hashes in Htxs. split; [done|]. by exists hd, bd.
Qed.

(** The task that is processed. *)
Definition task_at (k : BlockNumber) (task : option ExecuteTask) (d : DB) : CommonResult ExecuteTask :=
  match task with
  | Some task => if decide (et_number task = k) then Ok task else rebuild_task k d
  | None => rebuild_task k d
  end.

Lemma task_at_of k task d n t : linked d n → (0 ≤ k ≤ n)%Z →
  match task with Some task => task_of d task | None => True end →
  task_at k task d = Ok t → et_number t = k ∧ task_of d t.
Proof.
  intros Hl Hk Ht. unfold task_at. destruct task as [task|]; [|by eapply rebuild_task_of].
  case_decide as Hn; [|by eapply rebuild_task_of]. intros [= <-]. done.
Qed.

(** Either nothing is written, or the block is executed; the message is sent
    exactly when the call succeeds. *)
Lemma process_number_spec k task s r s' n : linked (db s) n → (0 ≤ k ≤ n)%Z →
  match task with Some task => task_of (db s) task | None => True end →
  process_number D k task s = (r, s') →
  match r with
  | Ok _ => exec_step k (db s) (db s') ∧
            ∃ h, get_block_hash k (db s) = Ok (Some h) ∧ message_tx s' = message_tx s ++ [ExecutionCommitted k h]
  | Err _ => (entries (db s') = entries (db s) ∨ exec_step k (db s) (db s')) ∧ message_tx s' = message_tx s
  end.
Proof.
  intros Hl Hk Htask. unfold process_number. fold (task_at k task).
  unfold bind at 1, asks. change (match task with Some _ => _ | None => _ end) with (task_at k task (db s)).
  destruct (task_at k task (db s)) as [t|x] eqn:Ht; [|intros [= <- <-]; by auto].
  pose proof (task_at_of _ _ _ _ _ Hl Hk Htask Ht) as (<- & Hof). rewrite bind_lift_ok.
  destruct (get_execution (et_parent_hash t) (db s)) as [[x|]|x] eqn:Hx; cbn [map_err ok_or];
    [|intros [= <- <-]; by auto..].
  rewrite bind_lift_ok. cbn [ok_or]. rewrite bind_lift_ok. fold (execution_params t x).
  destruct (build_execution D (execution_params t x) (db s)) as [q|] eqn:Hq; cbn [map_err];
    [|intros [= <- <-]; by auto]. rewrite bind_lift_ok.
  pose proof Hq as (Hn & Hh & _)%build_execution_spec; [|done]. cbn in Hn, Hh.
  unfold commit_execution, bind.
  destruct (db_write_spec (commit_execution_ops transaction_new q) s) as (s1 & Hw & He & Hm & _).
  rewrite Hw. destruct (next_fault (db s)) as [f|]; [intros [= <- <-]; cbn; by auto|].
  change (on_execution_committed D _ _) with (announce D (ExecutionCommitted (ce_number q) (ce_block_hash q))).
  destruct (announce D _ s1) as [ra s2] eqn:Ha. intros [= <- <-].
  apply announce_spec in Ha as (Hd & _ & _ & _ & Hmsg).
  assert (exec_step (et_number t) (db s) (db s2)) as Hstep.
  { exists t, x, q. split_and!; [done..|]. by rewrite Hd. }
  rewrite Hmsg, Hm. destruct ra as [[]|]; cbn [map_err]; [|by auto].
  split; [done|]. destruct Hof as (hd & bd & Hat & _). exists (et_block_hash t).
  split; [apply Hat|]. by rewrite Hn, Hh.
Qed.

(** ** Many numbers *)

(** The messages of the blocks from [e + 1] on with the hashes [hs]. *)
Definition messages (e : BlockNumber) (hs : list Hash) : list ChainOutMessage :=
  zip_with ExecutionCommitted (seqZ (e + 1) (Z.of_nat (length hs))) hs.

(** From [e] to [e'], with a message for each execution but for the last one
    when the call fails. *)
Record progressed (ok : bool) (s s' : Backend) (n e e' : BlockNumber) : Prop := {
  pg_ok : chain_ok (db s') n e';
  pg_advance : advance (db s) e (db s') e';
  pg_blocks : ∀ k h hd bd, block_at (db s) k h hd bd → block_at (db s') k h hd bd;
  pg_messages : ∃ hs, message_tx s' = message_tx s ++ messages e hs ∧
    Forall2 (λ k h, get_block_hash k (db s) = Ok (Some h)) (seqZ (e + 1) (Z.of_nat (length hs))) hs ∧
    if ok then (e + Z.of_nat (length hs) = e')%Z
    else (e + Z.of_nat (length hs) ≤ e' ≤ e + Z.of_nat (length hs) + 1)%Z;
}.

Lemma same_entries_block d d' k h hd bd : entries d' = entries d → block_at d k h hd bd → block_at d' k h hd bd.
Proof. destruct d as [m f], d' as [m' f']. cbn. intros -> [H1 H2 H3 H4 H5]. by split. Qed.
Lemma same_entries_ok d d' n e : entries d' = entries d → chain_ok d n e → chain_ok d' n e.
Proof.
  intros Hd [[Hn Hr Hb Hl] [H1 H2 H3] ?]. split; [split| |done].
  - by destruct d, d'; cbn in Hd; subst.
  - done.
  - intros k Hk. destruct (Hb k Hk) as (h & hd & bd & H). exists h, hd, bd. by eapply same_entries_block.
  - intros k h hd. destruct d, d'; cbn in Hd; subst. apply Hl.
  - by destruct d, d'; cbn in Hd; subst; split.
Qed.
Lemma same_entries_hash d d' k : entries d' = entries d → get_block_hash k d' = get_block_hash k d.
Proof. apply (λ H, same_read _ _ _ _ _ (f_equal (.!! _) H)). Qed.

Lemma block_hash_at d n k h : linked d n → (0 ≤ k ≤ n)%Z → get_block_hash k d = Ok (Some h) →
  ∃ hd bd, block_at d k h hd bd.
Proof.
  intros Hl Hk Hh. destruct (linked_blocks d n Hl k Hk) as (h' & hd & bd & Hat). exists hd, bd.
  pose proof (at_hash _ _ _ _ _ Hat) as He. rewrite Hh in He. by injection He as ->.
Qed.

Lemma same_entries_step d d1 k d' : entries d1 = entries d → exec_step k d1 d' → exec_step k d d'.
Proof.
  intros Hd (t & x & q & Hk & (hd & bd & Hat & Hr) & Hx & Hb & Hd'). exists t, x, q.
  split; [done|]. split; [exists hd, bd; split; [by eapply same_entries_block|done]|].
  by destruct d, d1; cbn in Hd; subst.
Qed.
Lemma advance_same d d1 e d' e' : entries d1 = entries d → advance d1 e d' e' → advance d e d' e'.
Proof.
  intros He Ha. revert He. induction Ha as [d1 d' e H|d1 e d2 d' e' Hs Ha _]; intros He.
  - apply advance_refl. congruence.
  - apply (advance_next d e d2); [|done]. by eapply same_entries_step.
Qed.
Lemma advance_trans d e d1 e1 d' e' : advance d e d1 e1 → advance d1 e1 d' e' → advance d e d' e'.
Proof.
  induction 1 as [d d1 e He|d e d2 d1 e1 Hs Ha IH]; intros H2; [by eapply advance_same|].
  eapply advance_next; [exact Hs|by apply IH].
Qed.

(** One number makes progress by one, or none. *)
Lemma process_next_spec e task s r s' n : chain_ok (db s) n e → (e < n)%Z →
  match task with Some task => task_of (db s) task | None => True end →
  process_number D (e + 1) task s = (r, s') →
  ∃ e', (e ≤ e' ≤ e + 1)%Z ∧ (is_ok r = true → e' = (e + 1)%Z) ∧ progressed (is_ok r) s s' n e e'.
Proof.
  intros Hok He Ht Hp. pose proof (executed_range _ _ (ok_executed _ _ _ Hok)) as He0.
  apply (process_number_spec _ _ _ _ _ n) in Hp; [|by apply Hok|lia|done].
  assert (exec_step (e + 1) (db s) (db s') → chain_ok (db s') n (e + 1) ∧
    advance (db s) e (db s') (e + 1) ∧
    ∀ k h hd bd, block_at (db s) k h hd bd → block_at (db s') k h hd bd) as Hstep.
  { intros Hx. destruct (exec_step_ok (e + 1) _ _ n e Hok ltac:(lia) ltac:(lia) Hx) as [H1 H2].
    split_and!; [done| |done]. eapply advance_next; [exact Hx|]. by apply advance_refl. }
  destruct r as [[]|x].
  - destruct Hp as (Hx & h & Hh & Hm). destruct (Hstep Hx) as (H1 & H2 & H3).
    exists (e + 1)%Z. split_and!; [lia..|done|]. split; [done..|]. exists [h].
    split; [done|]. split; [|cbn; lia]. cbn. by repeat constructor.
  - destruct Hp as ([Hd|Hx] & Hm).
    + exists e. split_and!; [lia..|done|]. split.
      * by eapply same_entries_ok.
      * by apply advance_refl.
      * intros. by eapply same_entries_block.
      * exists []. split; [by rewrite app_nil_r|]. split; [constructor|cbn; lia].
    + destruct (Hstep Hx) as (H1 & H2 & H3). exists (e + 1)%Z. split_and!; [lia..|done|].
      split; [done..|]. exists []. split; [by rewrite app_nil_r|]. split; [constructor|cbn; lia].
Qed.

(** The hash of a block is the one it had. *)
Lemma progressed_hash ok s s' n e e' k h : linked (db s) n → progressed ok s s' n e e' →
  (0 ≤ k ≤ n)%Z → get_block_hash k (db s') = Ok (Some h) → get_block_hash k (db s) = Ok (Some h).
Proof.
  intros Hl Hp Hk Hh. destruct (linked_blocks _ _ Hl k Hk) as (h' & hd & bd & Hat).
  pose proof (at_hash _ _ _ _ _ (pg_blocks _ _ _ _ _ _ Hp _ _ _ _ Hat)) as He.
  rewrite Hh in He. injection He as ->. apply Hat.
Qed.

Lemma progressed_trans ok s s1 s' n e e1 e' : chain_ok (db s) n e →
  progressed true s s1 n e e1 → progressed ok s1 s' n e1 e' → progressed ok s s' n e e'.
Proof.
  intros Hok Hp [B1 B2 B3 (hs2 & B4 & B5 & B6)].
  pose proof (executed_range _ _ (ok_executed _ _ _ Hok)) as He0.
  pose proof Hp as [A1 A2 A3 (hs1 & A4 & A5 & A6)]. split.
  - done.
  - by eapply advance_trans.
  - intros. by apply B3, A3.
  - assert (seqZ (e + 1) (Z.of_nat (length (hs1 ++ hs2))) =
            seqZ (e + 1) (Z.of_nat (length hs1)) ++ seqZ (e1 + 1) (Z.of_nat (length hs2))) as Hseq.
    { rewrite length_app, Nat2Z.inj_add, seqZ_app by lia. do 2 f_equal. lia. }
    exists (hs1 ++ hs2). rewrite length_app, Nat2Z.inj_add. split; [|split].
    + rewrite B4, A4, <-app_assoc. f_equal. unfold messages. rewrite Hseq, zip_with_app; [done|].
      rewrite length_seqZ. lia.
    + rewrite <-Nat2Z.inj_add, <-length_app, Hseq. apply Forall2_app; [done|].
      pose proof (ok_order _ _ _ B1).
      apply Forall2_same_length_lookup_2; [by apply Forall2_length in B5|].
      intros i k h Hk Hh. apply (progressed_hash true s s1 n e e1); [apply Hok|done| |].
      * apply lookup_seqZ in Hk as [-> Hi]. destruct ok; lia.
      * by apply (Forall2_lookup_lr _ _ _ _ _ _ B5 Hk Hh).
    + destruct ok; lia.
Qed.

(** The numbers that were missed. *)
Lemma missed_spec len s r s' n e : chain_ok (db s) n e → (e + Z.of_nat len ≤ n)%Z →
  for_each (λ k, process_number D k None) (seqZ (e + 1) (Z.of_nat len)) s = (r, s') →
  ∃ e', (e ≤ e' ≤ e + Z.of_nat len)%Z ∧ (is_ok r = true → e' = (e + Z.of_nat len)%Z) ∧
    progressed (is_ok r) s s' n e e'.
Proof.
  revert s e. induction len as [|len IH]; intros s e Hok Hn; cbn [Z.of_nat].
  - cbn. intros [= <- <-]. exists e. split_and!; [lia..|]. split; [done|by apply advance_refl|done|].
    exists []. split; [by rewrite app_nil_r|]. split; [constructor|cbn; lia].
  - rewrite seqZ_cons by lia. cbn [for_each]. unfold bind.
    destruct (process_number D (e + 1) None s) as [r1 s1] eqn:Hp.
    destruct (process_next_spec e None s r1 s1 n Hok ltac:(lia) I Hp) as (e1 & He1 & Hr1 & Hp1).
    destruct r1 as [[]|x]; [|intros [= <- <-]; exists e1; split_and!; [lia..|done|done]].
    specialize (Hr1 eq_refl) as ->. replace (Z.succ (e + 1))%Z with (e + 1 + 1)%Z by lia.
    replace (Z.pred (Z.of_nat (S len))) with (Z.of_nat len) by lia. intros Hrest.
    destruct (IH s1 (e + 1)%Z (pg_ok _ _ _ _ _ _ Hp1) ltac:(lia) Hrest) as (e' & He' & Hr' & Hp').
    exists e'. split_and!; [lia..|intros H; specialize (Hr' H); lia|].
    by eapply progressed_trans.
Qed.


(** A task that comes late executes its block again and sets the number of
    the last execution back. *)
Lemma late_task_moves_execution_back task s n e s' :
  chain_ok (db s) n e → task_of (db s) task → (0 < et_number task < e)%Z → is_u64 (e + 1) →
  process_task D task s = (Ok tt, s') →
  get_execution_number (db s') = Ok (Some (et_number task)) ∧ chain_ok (db s') n (et_number task).
Proof.
  intros Hok Ht Hn He Hp. pose proof (ok_order _ _ _ Hok) as Hen.
  pose proof (linked_range _ _ (ok_linked _ _ _ Hok)) as Hn0. revert Hp. unfold process_task.
  unfold bind at 1, asks. rewrite (executed_number _ _ (ok_executed _ _ _ Hok)).
  rewrite bind_lift_ok. cbn [ok_or]. rewrite bind_lift_ok. unfold missed.
  rewrite u64_id, seqZ_nil by (done || lia). cbn [for_each]. rewrite bind_ret. intros Hp.
  apply (process_number_spec _ _ _ _ _ n) in Hp as (Hx & _); [|apply Hok|lia|done].
  destruct (exec_step_ok (et_number task) _ _ n e Hok ltac:(lia) ltac:(lia) Hx) as [H _]. split; [|done].
  apply (executed_number _ _ (ok_executed _ _ _ H)).
Qed.
End Execute.
