(* ===== verification/Genesis.v ===== *)
(** * Genesis

    The first block ([core/node/chain/src/genesis.rs], and [Backend::new],
    [get_spec] and [init_genesis] of [backend.rs]): its transactions are those
    of the specification of the chain ([bin/main/base/src/spec.rs]).  The
    parsers of toml, of json and of dates are libraries. *)
From S2P Require Import Prelude Codec Types Context ExecutorContext Balance SystemModule Poa RaftModule HotstuffModule ContractModule Executor Db Statedb ChainData Chain.

(** ** The specification *)

Record SpecBasic := {
  sb_hash : string;
  sb_dsa : string;
  sb_address : string;
}.

(** [struct Tx] *)
Record SpecTx := {
  st_module : string;
  st_method : string;
  st_params : string;
}.

Record Genesis := { genesis_txs : list SpecTx }.

Record Spec := {
  sp_basic : SpecBasic;
  sp_genesis : Genesis;
}.

(** [struct SystemInitParams] *)
Record SystemInitParams := {
  si_chain_id : string;
  si_timestamp : string;
  si_max_until_gap : BlockNumber;
  si_max_execution_gap : ExecutionGap;
  si_consensus : string;
}.

(** What is read from text: [toml::from_str], [serde_json::from_str],
    [DateTime::parse_from_rfc3339] with [timestamp_millis], the texts of their
    errors, and the [from_str] of the algorithms that a specification names. *)
Class GenesisLib : Type := {
  parse_spec : string → result string Spec;
  json_system : string → result string SystemInitParams;
  json_balance : string → result string Balance.InitParams;
  json_poa : string → result string Poa.InitParams;
  json_raft : string → result string RaftModule.InitParams;
  json_hotstuff : string → result string HotstuffModule.InitParams;
  json_contract : string → result string ContractModule.InitParams;
  parse_rfc3339 : string → result string Z;
  basic_from_str : SpecBasic → CommonResult unit;
}.

Definition spec_error (msg : string) : CommonError := chain_error (ChainSpec msg).

Section Genesis.
Context {SC : Scale} {CR : Crypto} {TL : TrieLib} {SH : Show} {GL : GenesisLib}.
Variable Dispatcher : list (string * ModuleOps ExecContext).

(** [get_module_params] *)
Definition get_module_params {P} (from_str : string → result string P) (params : string) :
    CommonResult P :=
  map_err (λ e, spec_error ("Invalid json: " +:+ e)) (from_str params).

(** [TryFrom<SystemInitParams>] *)
Definition system_init_params (value : SystemInitParams) : CommonResult SystemModule.InitParams :=
  let? timestamp := map_err (λ e, spec_error ("Invalid time format: " +:+ e))
                      (parse_rfc3339 (si_timestamp value)) in
  Ok {| SystemModule.meta_chain_id := si_chain_id value;
        SystemModule.meta_timestamp := u64 timestamp;
        SystemModule.meta_max_until_gap := si_max_until_gap value;
        SystemModule.meta_max_execution_gap := si_max_execution_gap value;
        SystemModule.meta_consensus := si_consensus value |}.

(** [map_err] on a call of the executor. *)
Definition map_err_call {A} (f : CommonError → CommonError) (m : M ExecContext CommonError A) :
    M ExecContext CommonError A :=
  λ c, let '(r, c) := m c in (map_err f r, c).

Definition invalid_params (module method params : string) (e : CommonError) : CommonError :=
  spec_error ("Invalid params for " +:+ module +:+ "." +:+ method +:+ ": " +:+ params
              +:+ " cause: " +:+ error_text e).

Definition build_validate_tx {P} (CP : Codec P) (module method : string) (module_params : P)
    (params : string) : M ExecContext CommonError Transaction :=
  let call := Executor.build_call CP module method module_params in
  let! tx := lift (map_err (invalid_params module method params)
                     (Executor.build_tx Dispatcher default_hash None call)) in
  do! map_err_call (invalid_params module method params)
        (Executor.validate_tx Dispatcher default_hash tx false) in
  ret tx.

(** The transaction, and the timestamp of the block afterwards. *)
Definition build_tx (t : SpecTx) (timestamp : option Z) :
    M ExecContext CommonError (Transaction * option Z) :=
  let module := st_module t in
  let method := st_method t in
  let params := st_params t in
  let keep := λ m : M ExecContext CommonError Transaction, let! tx := m in ret (tx, timestamp) in
  if decide ((module, method) = ("system", "init")) then
    let! value := lift (get_module_params json_system params) in
    let! module_params := lift (system_init_params value) in
    let! tx := build_validate_tx SystemModule.codec_meta module method module_params params in
    ret (tx, Some (SystemModule.meta_timestamp module_params))
  else if decide ((module, method) = ("balance", "init")) then
    let! module_params := lift (get_module_params json_balance params) in
    keep (build_validate_tx Balance.codec_init module method module_params params)
  else if decide ((module, method) = ("poa", "init")) then
    let! module_params := lift (get_module_params json_poa params) in
    keep (build_validate_tx Poa.codec_init module method module_params params)
  else if decide ((module, method) = ("raft", "init")) then
    let! module_params := lift (get_module_params json_raft params) in
    keep (build_validate_tx RaftModule.codec_init module method module_params params)
  else if decide ((module, method) = ("hotstuff", "init")) then
    let! module_params := lift (get_module_params json_hotstuff params) in
    keep (build_validate_tx HotstuffModule.codec_init module method module_params params)
  else if decide ((module, method) = ("contract", "init")) then
    let! module_params := lift (get_module_params json_contract params) in
    keep (build_validate_tx ContractModule.codec_init module method module_params params)
  else throw (spec_error ("Unknown module or method: " +:+ module +:+ "." +:+ method)).

(** The loop over the transactions of the specification. *)
Fixpoint build_txs (txs : list SpecTx) (timestamp : option Z) (meta_txs payload_txs : list FullTransaction) :
    M ExecContext CommonError (option Z * list FullTransaction * list FullTransaction) :=
  match txs with
  | [] => ret (timestamp, meta_txs, payload_txs)
  | t :: txs =>
      let! (tx, timestamp) := build_tx t timestamp in
      let! is_meta := lift (Executor.is_meta_call Dispatcher (call tx)) in
      let! tx_hash := lift (Executor.hash_transaction tx) in
      let tx := Build_FullTransaction tx tx_hash in
      if is_meta : bool then build_txs txs timestamp (meta_txs ++ [tx]) payload_txs
      else build_txs txs timestamp meta_txs (payload_txs ++ [tx])
  end.

Definition build_genesis (spec : Spec) : M ExecContext CommonError BuildBlockParams :=
  let! (timestamp, meta_txs, payload_txs) := build_txs (genesis_txs (sp_genesis spec)) None [] [] in
  let! timestamp := lift (ok_or (spec_error "No timestamp specified") timestamp) in
  ret {| bb_number := 0; bb_timestamp := timestamp; bb_meta_txs := meta_txs;
         bb_payload_txs := payload_txs; bb_execution_number := 0 |}.

(** ** The genesis block *)

(** Both batches, after every transaction has been validated. *)
Definition execute_genesis (p : BuildBlockParams) : M ExecContext CommonError unit :=
  do! for_each (λ t, Executor.validate_tx Dispatcher default_hash (tx t) false) (bb_meta_txs p) in
  do! for_each (λ t, Executor.validate_tx Dispatcher default_hash (tx t) false) (bb_payload_txs p) in
  do! Executor.execute_txs Dispatcher (bb_meta_txs p) in
  Executor.execute_txs Dispatcher (bb_payload_txs p).

(** The part of [init_genesis] that prepares the transaction. *)
Definition genesis_block (spec : Spec) (d : DB) :
    CommonResult (ChainCommitBlockParams * ChainCommitExecutionParams) :=
  let? build_genesis_context := chain_context (Build_ContextEnv 0 0) default_root default_root d in
  let? p := on_context (build_genesis spec) build_genesis_context in
  let number := bb_number p in
  let zero_hash := default_hash in
  let? context := chain_context (Build_ContextEnv number (bb_timestamp p)) default_root default_root d in
  let '(r, context) := execute_genesis p context in
  let? _ := r in
  let? (meta_state_root, meta_transaction) := get_meta_update context in
  let? (meta_txs_root, meta_txs) := get_meta_txs context in
  let? (meta_receipts_root, meta_receipts) := get_meta_receipts context in
  let? (payload_state_root, payload_transaction) := get_payload_update context in
  let? (payload_txs_root, payload_txs) := get_payload_txs context in
  let? (payload_receipts_root, payload_receipts) := get_payload_receipts context in
  let header := {|
    hdr_number := number; hdr_timestamp := bb_timestamp p; parent_hash := zero_hash;
    meta_txs_root := meta_txs_root; meta_state_root := meta_state_root;
    meta_receipts_root := meta_receipts_root; payload_txs_root := payload_txs_root;
    payload_execution_gap := i8 (u64 (number - bb_execution_number p));
    hdr_payload_execution_state_root := zero_hash;
    hdr_payload_execution_receipts_root := zero_hash |} in
  let? block_hash := Executor.hash codec_header header in
  Ok ({| cb_block_hash := block_hash; cb_header := header;
         cb_body := Build_Body (tx_hash <$> meta_txs) (tx_hash <$> payload_txs);
         cb_meta_txs := meta_txs; cb_meta_receipts := meta_receipts; cb_payload_txs := payload_txs;
         cb_meta_transaction := meta_transaction; cb_proof := default_proof |},
      {| ce_block_hash := block_hash; ce_number := number;
         ce_execution := Build_Execution payload_state_root payload_receipts_root;
         ce_payload_receipts := payload_receipts; ce_payload_transaction := payload_transaction |}).

(** [fs::read_to_string] of the specification, and its parsing. *)
Definition read_spec (spec_file : option string) : CommonResult string :=
  ok_or (spec_error "Failed to read spec file") spec_file.
Definition from_spec (spec_str : string) : CommonResult Spec :=
  map_err (λ e, spec_error ("Failed to parse spec file: " +:+ e)) (parse_spec spec_str).

(** [Backend::init_genesis] *)
Definition init_genesis (spec_file : option string) : B unit :=
  let! spec_str := lift (read_spec spec_file) in
  let! spec := lift (from_spec spec_str) in
  let! d := asks db in
  let! (block, execution) := lift (genesis_block spec d) in
  let transaction := commit_block_ops transaction_new block in
  let transaction := commit_execution_ops transaction execution in
  let transaction := commit_spec_ops transaction spec_str in
  do! db_write transaction in
  on_execution_committed Dispatcher (ce_number execution) (cb_block_hash block).

(** [Backend::get_spec] on the database that was opened. *)
Definition get_spec (spec_file : option string) (d : DB) : CommonResult (bool * Spec) :=
  let? confirmed := db_get GLOBAL CONFIRMED_NUMBER d in
  let genesis_inited := match confirmed with Some _ => true | None => false end in
  let? spec :=
    if genesis_inited then
      let? spec := db_get GLOBAL Db.SPEC d in
      let? spec := ok_or (spec_error "Missing spec in db") spec in
      map_err (λ _ : CommonError, spec_error "Serde error") (codec_decode sc_string spec)
    else read_spec spec_file in
  let? spec := from_spec spec in
  Ok (genesis_inited, spec).

(** [Backend::new] on the database that was opened. *)
Definition backend_new (spec_file : option string) : B unit :=
  let! d := asks db in
  let! (genesis_inited, spec) := lift (get_spec spec_file d) in
  do! lift (basic_from_str (sp_basic spec)) in
  do! modify (λ s, Build_Backend (db s) default_hash None [] (clock s)) in
  do! (if genesis_inited : bool then ret tt else init_genesis spec_file) in
  let! d := asks db in
  let! genesis_hash := lift (get_block_hash 0 d) in
  let! genesis_hash := lift (ok_or (data_error "Missing genesis block") genesis_hash) in
  do! modify (with_genesis_hash genesis_hash) in
  update_current_state Dispatcher.
End Genesis.
