(* ===== verification/GenesisProofs.v ===== *)
(** * GenesisProofs

    The first start of a node writes a whole chain of one block, which has
    been executed; a later start finds the chain as it was left. *)
From S2P Require Import Prelude Codec Types Context ExecutorContext Dispatch Executor Engine Db Statedb ChainData Chain ChainProofs ChainBuild ChainCommit Genesis.

Section Genesis.
Context {SC : Scale} {CR : Crypto} {TL : TrieLib} {SH : Show} {GL : GenesisLib}.
Variable D : list (string * ModuleOps ExecContext).
Hypothesis confined : confined_modules D.
Hypothesis validators : confined_validators D.

(** ** What is written *)
Section Written.
Variables (d d' : DB) (p : ChainCommitBlockParams) (q : ChainCommitExecutionParams) (spec_str : string).
Hypothesis Hp : block_params_ok p.
Hypothesis Hq : state_ops PAYLOAD_STATE (ce_payload_transaction q).
Hypothesis Hnum : hdr_number (cb_header p) = 0%Z ∧ ce_number q = 0%Z.
Hypothesis Hhash : ce_block_hash q = cb_block_hash p.
Hypothesis Hd' : entries d' = apply_ops (ops (commit_spec_ops
  (commit_execution_ops (commit_block_ops transaction_new p) q) spec_str)) (entries d).

Let d1 := Build_DB (apply_ops (ops (commit_block_ops transaction_new p)) (entries d)) [].
Let d2 := Build_DB (apply_ops (ops (commit_execution_ops transaction_new q)) (entries d1)) [].

Lemma genesis_entries : entries d' =
  <[(GLOBAL, Db.SPEC) := encode sc_string spec_str]> (entries d2).
Proof.
  rewrite Hd'. unfold commit_spec_ops. cbn [put_owned ops]. rewrite apply_ops_app.
  rewrite commit_execution_split, apply_ops_app. subst d2 d1. cbn [entries].
  by rewrite (commit_execution_split transaction_new).
Qed.
Lemma genesis_spec : entries d' !! (GLOBAL, Db.SPEC) = Some (encode sc_string spec_str).
Proof. by rewrite genesis_entries, lookup_insert_eq. Qed.
Lemma genesis_kept {U} (C : Codec U) col k : (col, k) ≠ (GLOBAL, Db.SPEC) →
  get_with col k (codec_decode C) d' = get_with col k (codec_decode C) d2.
Proof. intros Hk. apply same_read. by rewrite genesis_entries, lookup_insert_ne. Qed.

Lemma genesis_block_at : block_at d' 0 (cb_block_hash p) (cb_header p) (cb_body p).
Proof.
  assert (block_at d1 0 (cb_block_hash p) (cb_header p) (cb_body p)) as H.
  { apply (new_block_at d d1 p (-1)); [done..|]. apply Hnum. }
  apply (exec_block_at d1 d2 q Hq eq_refl) in H as [H1 H2 H3 H4 H5].
  split; [by rewrite <-H1; apply genesis_kept|by rewrite <-H2; apply genesis_kept| |done|].
  - rewrite <-H3. apply same_body; by rewrite genesis_entries, lookup_insert_ne.
  - intros t Ht. destruct (H5 t Ht) as [x Hx]. exists x. rewrite <-Hx. by apply genesis_kept.
Qed.
Lemma genesis_execution : get_execution (cb_block_hash p) d' = Ok (Some (ce_execution q)).
Proof.
  unfold get_execution. rewrite genesis_kept by done. fold (get_execution (cb_block_hash p) d2).
  rewrite (exec_execution d1 d2 q Hq eq_refl). by rewrite decide_True.
Qed.

Lemma genesis_chain : chain_ok d' 0 0.
Proof.
  pose proof genesis_block_at as Hat. pose proof genesis_execution as Hx. destruct Hnum as [Hn Hm].
  pose proof (params_state p Hp) as Hs. split; [split| |lia].
  - apply (read_back sc_u64 GLOBAL); [|apply sc_u64_wf; unfold is_u64; lia].
    rewrite genesis_entries, lookup_insert_ne by done.
    rewrite (execution_global d1 d2 q Hq eq_refl), decide_False by done.
    by rewrite (block_global d d1 p Hs eq_refl), decide_True, Hn.
  - lia.
  - intros k Hk. replace k with 0%Z by lia. by eexists _, _, _.
  - lia.
  - split; [|lia|].
    + apply (read_back sc_u64 GLOBAL); [|apply sc_u64_wf; unfold is_u64; lia].
      rewrite genesis_entries, lookup_insert_ne by done.
      by rewrite (execution_global d1 d2 q Hq eq_refl), decide_True, Hm.
    + intros k h Hk Hh. replace k with 0%Z in Hh by lia. rewrite (at_hash _ _ _ _ _ Hat) in Hh.
      injection Hh as <-. by eexists.
Qed.
End Written.

(** ** What is built *)

Lemma build_validate_tx_unsigned {P} (CP : Codec P) module method (x : P) params c t c' :
  build_validate_tx D CP module method x params c = (Ok t, c') → witness t = None.
Proof.
  unfold build_validate_tx. destruct (Executor.build_tx _ _ _ _) as [t'|] eqn:Ht; [|done].
  cbn [map_err]. rewrite bind_lift_ok. unfold bind. destruct (map_err_call _ _ c) as [[[]|] c1]; [|done].
  intros [= <- _]. unfold Executor.build_tx in Ht. destruct (dispatch_check_call _ _ _); [|done].
  cbn in Ht. by injection Ht as <-.
Qed.

Definition time_ok (ts : option Z) : Prop := match ts with Some z => is_u64 z | None => True end.

Lemma build_tx_spec t ts c tx ts' c' : time_ok ts → build_tx D t ts c = (Ok (tx, ts'), c') →
  witness tx = None ∧ time_ok ts'.
Proof.
  intros Hts. unfold build_tx. repeat (case_decide; [|]); [..|done]; unfold bind at 1, lift at 1.
  1: { destruct (get_module_params json_system _) as [v|]; [|done].
       unfold bind at 1, lift at 1. destruct (system_init_params v) as [v'|] eqn:Hv; [|done].
       unfold bind. destruct (build_validate_tx _ _ _ _ _ _ c) as [[y|] c1] eqn:Hb; [|done].
       intros [= <- <- _]. split; [by eapply build_validate_tx_unsigned|]. unfold system_init_params in Hv.
       destruct (parse_rfc3339 _); [|done]. injection Hv as <-. apply u64_range. }
  all: destruct (get_module_params _ _) as [v|]; [|done]; unfold bind;
    destruct (build_validate_tx _ _ _ _ _ _ c) as [[y|] c1] eqn:Hb; [|done];
    intros [= <- <- _]; split; [by eapply build_validate_tx_unsigned|done].
Qed.

Definition txs_ok (l : list FullTransaction) : Prop := Forall (λ x, wf codec_transaction (tx x)) l.

Lemma build_txs_spec l ts ms ps c ts' ms' ps' c' : time_ok ts → txs_ok ms → txs_ok ps →
  build_txs D l ts ms ps c = (Ok (ts', ms', ps'), c') → time_ok ts' ∧ txs_ok ms' ∧ txs_ok ps'.
Proof.
  revert ts ms ps c. induction l as [|t l IH]; intros ts ms ps c Ht Hm Hp; cbn [build_txs].
  { by intros [= <- <- <- _]. }
  unfold bind at 1. destruct (build_tx D t ts c) as [[[y ts1]|] c1] eqn:Hb; [|done].
  apply build_tx_spec in Hb as [Hw Ht1]; [|done]. 
  assert (wf codec_transaction y) as Hy by (apply transaction_wf; by rewrite Hw).
  unfold bind at 1, lift at 1. destruct (Executor.is_meta_call D _) as [m|]; [|done].
  unfold Executor.hash_transaction, Executor.hash. rewrite bind_lift_ok.
  destruct m; apply IH; try done; (apply Forall_app; split; [done|by repeat constructor]).
Qed.

Lemma build_genesis_spec spec c p c' : build_genesis D spec c = (Ok p, c') →
  bb_number p = 0%Z ∧ bb_execution_number p = 0%Z ∧ build_params_ok p.
Proof.
  unfold build_genesis. unfold bind at 1.
  destruct (build_txs D _ None [] [] c) as [[[[ts ms] ps]|] c1] eqn:Hb; [|done].
  apply build_txs_spec in Hb as (Ht & Hm & Hp); [|done|constructor|constructor].
  destruct ts as [z|]; [|done]. cbn. intros [= <- _]. split_and!; [done..|].
  split; cbn; [unfold is_u64; lia|done|by apply Forall_app].
Qed.

Lemma execute_genesis_states p c c' : execute_genesis D p c = (Ok tt, c') →
  meta_txs c = [] → payload_txs c = [] → txs_ok (bb_meta_txs p ++ bb_payload_txs p) →
  same_states c c' ∧ txs_ok (meta_txs c' ++ payload_txs c').
Proof.
  intros Hrun Hm0 Hp0 [Hm Hp]%Forall_app. revert Hrun. unfold execute_genesis.
  assert (∀ l c, touches c (for_each (λ t, Executor.validate_tx D default_hash (tx t) false) l c).2) as Hv.
  { intros l. apply confined_for_each. intros t c0. by apply validate_tx_touches. }
  unfold bind. pose proof (Hv (bb_meta_txs p) c) as E1.
  destruct (for_each _ (bb_meta_txs p) c) as [[[]|] c1]; [|done].
  pose proof (Hv (bb_payload_txs p) c1) as E2. destruct (for_each _ _ c1) as [[[]|] c2]; [|done].
  assert (touches c c2) as [S0 [T1 T2]]%touches_states by (etrans; [exact E1|exact E2]).
  destruct (execute_txs D (bb_meta_txs p) c2) as [[[]|] c3] eqn:H1; [|done].
  apply execute_txs_states in H1 as (S1 & M1 & P1); [|done]. intros H2.
  apply execute_txs_states in H2 as (S2 & M2 & P2); [|done].
  split; [unfold same_states in *; intuition congruence|]. rewrite <-T1, <-T2, Hm0, Hp0 in *.
  apply Forall_app. split.
  - destruct M2 as [->| ->], M1 as [->| ->]; repeat (apply Forall_app; split); try done; constructor.
  - destruct P2 as [->| ->], P1 as [->| ->]; repeat (apply Forall_app; split); try done; constructor.
Qed.

Lemma genesis_block_spec spec d p q : genesis_block D spec d = Ok (p, q) →
  block_params_ok p ∧ state_ops PAYLOAD_STATE (ce_payload_transaction q) ∧
  (hdr_number (cb_header p) = 0%Z ∧ ce_number q = 0%Z) ∧ ce_block_hash q = cb_block_hash p.
Proof.
  unfold genesis_block. intros Hg.
  destruct (chain_context (Build_ContextEnv 0 0) _ _ d) as [c0|]; [|done]. cbn [result_bind] in Hg.
  unfold on_context in Hg. destruct (build_genesis D spec c0) as [[bp|] c0'] eqn:Hb; [|done].
  apply build_genesis_spec in Hb as (Hn & He & [_ Hts Htxs]). cbn [result_bind fst] in Hg.
  destruct (chain_context _ _ _ d) as [c|] eqn:Hc; [|done]. cbn [result_bind] in Hg.
  apply chain_context_states in Hc as (Hm & Hp & Hl1 & Hl2).
  destruct (execute_genesis D bp c) as [[[]|] c'] eqn:Hr; [|done]. cbn [result_bind] in Hg.
  apply execute_genesis_states in Hr as [(S1 & _ & _ & S2 & _) Hwf]; [|done..].
  destruct (get_meta_update c') as [[mr mt]|] eqn:Hmu; [|done]. cbn [result_bind] in Hg.
  apply prepare_update_column in Hmu. rewrite S1, Hm in Hmu.
  unfold get_meta_txs, get_meta_receipts, get_txs_root, get_receipts_root in Hg.
  cbn [result_bind] in Hg.
  destruct (get_payload_update c') as [[pr pt]|] eqn:Hpu; [|done]. cbn [result_bind] in Hg.
  apply prepare_update_column in Hpu. rewrite S2, Hp in Hpu.
  unfold get_payload_txs, get_payload_receipts, get_txs_root, get_receipts_root, hash in Hg.
  cbn [result_bind] in Hg. injection Hg as <- <-. split; [split|by split_and!].
  - apply codec_header_wf. split_and!; [by rewrite Hn|done|apply i8_range].
  - exact Hwf.
  - done.
  - done.
  - exact Hmu.
Qed.

(** ** Starting *)

(** The last steps of [Backend::new]. *)
Lemma finish_new s r s' (n e : BlockNumber) : chain_ok (db s) n e →
  (let! d := asks db in
   let! genesis_hash := lift (get_block_hash 0 d) in
   let! genesis_hash := lift (ok_or (data_error "Missing genesis block") genesis_hash) in
   do! modify (with_genesis_hash genesis_hash) in
   update_current_state D) s = (r, s') →
  db s' = db s ∧ message_tx s' = message_tx s ∧
  get_block_hash 0 (db s) = Ok (Some (executor_genesis_hash s')) ∧
  (r = Ok tt → current s' n e).
Proof.
  intros Hok. pose proof (linked_range _ _ (ok_linked _ _ _ Hok)) as Hn.
  destruct (linked_blocks _ _ (ok_linked _ _ _ Hok) 0%Z ltac:(lia)) as (h & hd & bd & [Hh _ _ _ _]).
  unfold bind at 1, asks at 1. rewrite Hh, bind_lift_ok. cbn [ok_or]. rewrite bind_lift_ok.
  unfold update_current_state, bind, modify, asks, lift. cbn.
  destruct (read_current_state D (db s) (clock s)) as [cs|x] eqn:Hcs; intros [= <- <-]; cbn;
    (split_and!; [done..|]); [intros _|done].
  apply (read_current_state_spec _ _ _ _ n e Hok) in Hcs as (? & ? & ? & ? & _). by exists cs.
Qed.

(** The chain of the specification: one block, which has been executed. *)
Record genesis_written (d d' : DB) (spec_str : string) (p : ChainCommitBlockParams)
    (q : ChainCommitExecutionParams) : Prop := {
  gw_spec : ∃ spec, parse_spec spec_str = Ok spec ∧ genesis_block D spec d = Ok (p, q);
  gw_chain : chain_ok d' 0 0;
  gw_block : block_at d' 0 (cb_block_hash p) (cb_header p) (cb_body p);
  gw_execution : get_execution (cb_block_hash p) d' = Ok (Some (ce_execution q));
  gw_text : entries d' !! (GLOBAL, Db.SPEC) = Some (encode sc_string spec_str);
}.

Lemma init_genesis_spec spec_file s s' : init_genesis D spec_file s = (Ok tt, s') →
  ∃ spec_str p q, spec_file = Some spec_str ∧ genesis_written (db s) (db s') spec_str p q ∧
    message_tx s' = message_tx s ++ [ExecutionCommitted 0 (cb_block_hash p)] ∧ current s' 0 0.
Proof.
  unfold init_genesis, from_spec. destruct spec_file as [spec_str|]; [|done].
  cbn [read_spec ok_or]. rewrite bind_lift_ok.
  destruct (parse_spec spec_str) as [spec|] eqn:Hspec; [|done]. cbn [map_err]. rewrite bind_lift_ok.
  unfold bind at 1, asks at 1.
  destruct (genesis_block D spec (db s)) as [[p q]|] eqn:Hg; [|done]. rewrite bind_lift_ok.
  destruct (db_write_spec (commit_spec_ops (commit_execution_ops
    (commit_block_ops transaction_new p) q) spec_str) s) as (s1 & Hw & He & Hm & _).
  unfold bind at 1. rewrite Hw. destruct (next_fault (db s)) as [f|]; [done|].
  change (on_execution_committed D (ce_number q) (cb_block_hash p))
    with (announce D (ExecutionCommitted (ce_number q) (cb_block_hash p))).
  intros Ha. pose proof Ha as (Hd & _ & _ & _ & Hmsg)%announce_spec.
  pose proof Hg as (Hp & Hq & Hn & Hh)%genesis_block_spec.
  assert (entries (db s') = apply_ops (ops (commit_spec_ops (commit_execution_ops
    (commit_block_ops transaction_new p) q) spec_str)) (entries (db s))) as He2 by by rewrite Hd, He.
  pose proof (genesis_chain (db s) (db s') p q spec_str Hp Hq Hn Hh He2) as Hok.
  exists spec_str, p, q. split; [done|]. split.
  2: { split; [by rewrite Hmsg, Hm, (proj2 Hn)|]. apply (announce_current D _ _ _ 0 0) in Ha; [done|].
       by rewrite <-Hd. }
  split.
  - by exists spec.
  - done.
  - by apply (genesis_block_at (db s) (db s') p q spec_str).
  - by apply (genesis_execution (db s) (db s') p q spec_str).
  - by apply (genesis_spec (db s) (db s') p q spec_str).
Qed.

(** C34: the first start.  On a database without a chain a node that starts
    has read the specification, and the database holds a chain of one block:
    the block made of the transactions of the specification, with its
    execution, and the specification itself; the current state and the hash
    that signatures are bound to are those of the block. *)
Theorem genesis_starts_chain spec_file s s' :
  entries (db s) !! (GLOBAL, CONFIRMED_NUMBER) = None →
  backend_new D spec_file s = (Ok tt, s') →
  ∃ spec_str p q, spec_file = Some spec_str ∧ genesis_written (db s) (db s') spec_str p q ∧
    current s' 0 0 ∧ executor_genesis_hash s' = cb_block_hash p ∧
    message_tx s' = [ExecutionCommitted 0 (cb_block_hash p)].
Proof.
  intros Hnew. unfold backend_new. unfold bind at 1, asks at 1.
  unfold get_spec, db_get. rewrite Hnew. cbn [result_bind].
  destruct (read_spec spec_file) as [text|]; [|done]. cbn [result_bind].
  destruct (from_spec text) as [spec|]; [|done]. cbn [result_bind]. rewrite bind_lift_ok.
  destruct (basic_from_str _) as [[]|]; [|done]. rewrite bind_lift_ok.
  unfold bind at 1, modify at 1. set (s0 := Build_Backend _ _ _ _ _). unfold bind at 1.
  destruct (init_genesis D spec_file s0) as [[[]|] s1] eqn:Hi; [|done].
  apply init_genesis_spec in Hi as (spec_str & p & q & Hf & Hw & Hm & _).
  intros (Hd & Hm2 & Hgh & Hcur)%(finish_new _ _ _ 0 0 (gw_chain _ _ _ _ _ Hw)).
  exists spec_str, p, q. rewrite Hd. split_and!; [done|done|by apply Hcur| |by rewrite Hm2, Hm].
  rewrite (at_hash _ _ _ _ _ (gw_block _ _ _ _ _ Hw)) in Hgh. by injection Hgh.
Qed.

(** C36: a later start.  On a database with a chain and its specification the
    file of the specification is not read, nothing is written and no message
    is sent; the current state is that of the chain as it was left. *)
Theorem restart_resumes spec_file s s' n e spec_str :
  chain_ok (db s) n e → entries (db s) !! (GLOBAL, Db.SPEC) = Some (encode sc_string spec_str) →
  backend_new D spec_file s = (Ok tt, s') →
  db s' = db s ∧ message_tx s' = [] ∧ current s' n e ∧
  get_block_hash 0 (db s) = Ok (Some (executor_genesis_hash s')).
Proof.
  intros Hok Hs. unfold backend_new. unfold bind at 1, asks at 1. unfold get_spec, db_get.
  assert (∃ x, entries (db s) !! (GLOBAL, CONFIRMED_NUMBER) = Some x) as [x Hx].
  { pose proof (linked_confirmed _ _ (ok_linked _ _ _ Hok)) as Hc. unfold get_confirmed_number in Hc.
    rewrite get_with_decode in Hc. destruct (entries (db s) !! (GLOBAL, CONFIRMED_NUMBER)) as [x|]; [by exists x|done]. }
  rewrite Hx, Hs. cbn [result_bind ok_or].
  destruct (map_err _ _) as [y|]; [|done]. cbn [result_bind].
  destruct (from_spec y) as [spec|]; [|done]. cbn [result_bind]. rewrite bind_lift_ok.
  destruct (basic_from_str _) as [[]|]; [|done]. rewrite bind_lift_ok.
  unfold bind at 1, modify at 1. unfold bind at 1, ret at 1.
  intros Hrun. pose proof (finish_new (Build_Backend (db s) default_hash None [] (clock s))
    _ _ n e Hok Hrun) as (Hd & Hm & Hg & Hc). by auto.
Qed.
End Genesis.
