(* ===== verification/ChainSupport.v ===== *)
(** * ChainSupport

    [DefaultConsensusSupport] of [core/node/consensus/base/src/support.rs]: the
    chain and the pool of transactions behind the consensus engines.  The
    engines were modelled against the interface [ConsensusSupport]; this file
    implements it, and so composes them with the chain. *)
From S2P Require Import Prelude Codec Types Context ExecutorContext SystemModule Executor TxPool ConsensusSupport Db Statedb ChainData Chain.

Section Support.
Context {SC : Scale} {CR : Crypto} {TL : TrieLib} {SH : Show}.
Variable Dispatcher : list (string * ModuleOps ExecContext).

(** [struct DefaultConsensusSupport] *)
Record DefaultConsensusSupport := {
  chain : Chain.Chain;
  txpool : TxPool.TxPool;
}.

Definition on_chain {A} (m : M Chain.Chain CommonError A) :
    M DefaultConsensusSupport CommonError A := λ w,
  let '(r, c) := m (chain w) in (r, Build_DefaultConsensusSupport c (txpool w)).
Definition on_txpool {A} (m : M TxPool.TxPool CommonError A) :
    M DefaultConsensusSupport CommonError A := λ w,
  let '(r, p) := m (txpool w) in (r, Build_DefaultConsensusSupport (chain w) p).

(** The database behind the chain. *)
Definition chain_db (w : DefaultConsensusSupport) : DB := db (backend (chain w)).

(** What only asks the chain or the pool. *)
Definition default_confirmed_number (w : DefaultConsensusSupport) : CommonResult (option BlockNumber) :=
  get_confirmed_number (chain_db w).
Definition default_execution_number (w : DefaultConsensusSupport) : CommonResult (option BlockNumber) :=
  get_execution_number (chain_db w).
Definition default_block_hash (w : DefaultConsensusSupport) (number : BlockNumber) :
    CommonResult (option Hash) := get_block_hash number (chain_db w).
Definition default_transaction (w : DefaultConsensusSupport) (tx_hash : Hash) :
    CommonResult (option Transaction) := ChainData.get_transaction tx_hash (chain_db w).
Definition default_is_meta_call (call : Call) : CommonResult bool :=
  Executor.is_meta_call Dispatcher call.
Definition default_get_transactions (w : DefaultConsensusSupport) :
    CommonResult (list FullTransaction) := Ok (TxPool.queue (txpool w)).

(** The data of the engines. *)
Definition default_get_consensus_data {T} (CT : Codec T) (w : DefaultConsensusSupport) (key : bytes) :
    CommonResult (option T) := get_consensus_data CT key (chain_db w).
Definition default_put_consensus_data {T} (CT : Codec T) (transaction : Db.DBTransaction) (key : bytes)
    (value : T) : Db.DBTransaction := put_consensus_data CT transaction key value.
Definition default_delete_consensus_data (transaction : Db.DBTransaction) (key : bytes) :
    Db.DBTransaction := delete_consensus_data transaction key.
Definition default_commit_consensus_data (transaction : Db.DBTransaction) :
    M DefaultConsensusSupport CommonError unit :=
  on_chain (on_backend (commit_consensus_data transaction)).

(** The part of the state that the engines read.  There is a state once the
    backend has been made; before, the code panics. *)
Definition engine_state (cs : ChainData.CurrentState) : ConsensusSupport.CurrentState := {|
  system_meta := cs_system_meta cs;
  confirmed_number := cs_confirmed_number cs;
  confirmed_block_hash := cs_confirmed_block_hash cs;
  executed_number := cs_executed_number cs;
  genesis_hash := cs_genesis_hash cs;
|}.
Definition no_state : ConsensusSupport.CurrentState :=
  ConsensusSupport.Build_CurrentState (SystemModule.Build_Meta "" 0 0 0 "") 0 [] 0 [].
Definition default_current_state (w : DefaultConsensusSupport) : ConsensusSupport.CurrentState :=
  match Chain.get_current_state (backend (chain w)) with
  | Some cs => engine_state cs
  | None => no_state
  end.

Definition default_validate_transaction (w : DefaultConsensusSupport) (tx_hash : Hash)
    (tx : Transaction) (witness_required : bool) : CommonResult unit :=
  default (Err (EOther "qed"))
    (Chain.validate_transaction Dispatcher tx_hash tx witness_required (backend (chain w))).

(** Whether a transaction of the pool is invalid: other errors are errors. *)
Definition is_invalid (w : DefaultConsensusSupport) (t : FullTransaction) : CommonResult bool :=
  or_else_catch as_chain
    (λ e, match e with
          | ChainValidateTxError _ => Some (Ok true)
          | _ => None
          end)
    (let? _ := default_validate_transaction w (tx_hash t) (tx t) true in Ok false).

(** The loop of [prepare_block]: the invalid transactions, the meta and the
    payload transactions. *)
Fixpoint sort_txs (w : DefaultConsensusSupport) (txs : list FullTransaction) :
    CommonResult (list FullTransaction * list FullTransaction * list FullTransaction) :=
  match txs with
  | [] => Ok ([], [], [])
  | t :: txs =>
      let? invalid := is_invalid w t in
      if invalid : bool then
        let? (invalid_txs, meta_txs, payload_txs) := sort_txs w txs in
        Ok (t :: invalid_txs, meta_txs, payload_txs)
      else
        let? is_meta := default_is_meta_call (call (tx t)) in
        let? (invalid_txs, meta_txs, payload_txs) := sort_txs w txs in
        Ok (if is_meta : bool then (invalid_txs, t :: meta_txs, payload_txs)
            else (invalid_txs, meta_txs, t :: payload_txs))
  end.

Definition default_prepare_block (timestamp : Z) :
    M DefaultConsensusSupport CommonError BuildBlockParams :=
  let! w := asks id in
  let current_state := default_current_state w in
  let number := u64 (confirmed_number current_state + 1) in
  let execution_number := executed_number current_state in
  let! txs := lift (default_get_transactions w) in
  let! (invalid_txs, meta_txs, payload_txs) := lift (sort_txs w txs) in
  let invalid_tx_hash_set := list_to_set (tx_hash <$> invalid_txs) : gset Hash in
  do! on_txpool (TxPool.remove invalid_tx_hash_set) in
  let block_execution_gap := i8 (u64 (number - execution_number)) in
  let max := SystemModule.meta_max_execution_gap (system_meta current_state) in
  if decide (block_execution_gap > max)%Z then
    throw (consensus_error (ConsensusData ("execution gap exceed max: "
             +:+ number_text block_execution_gap +:+ ", max: " +:+ number_text max)))
  else ret {| bb_number := number; bb_timestamp := timestamp; bb_meta_txs := meta_txs;
              bb_payload_txs := payload_txs; bb_execution_number := execution_number |}.

(** Signing and verifying with the algorithms of [get_basic]. *)
Definition default_sign (secret_key : SecretKey) (message : bytes) :
    CommonResult (PublicKey * Signature) :=
  let? key_pair := key_pair_from_secret_key secret_key in
  Ok (kp_public_key key_pair, kp_sign key_pair message).
Definition default_verify (public_key : PublicKey) (message : bytes) (signature : Signature) :
    CommonResult bool :=
  let? verifier := verifier_from_public_key public_key in
  Ok (is_ok (verify verifier message signature)).

Definition default_support : ConsensusSupport := {|
  World := DefaultConsensusSupport;
  MetaTransaction := Db.DBTransaction;
  ConsensusSupport.get_current_state := default_current_state;
  ConsensusSupport.get_header w h := ChainData.get_header h (chain_db w);
  ConsensusSupport.get_proof w h := ChainData.get_proof h (chain_db w);
  support_validate_transaction := default_validate_transaction;
  ConsensusSupport.hash_transaction := Executor.hash_transaction;
  ConsensusSupport.execute_call_with_block_number P R CP CR w number sender module method params :=
    Chain.execute_call_with_block_number Dispatcher CP CR number sender module method params (chain_db w);
  prepare_block := default_prepare_block;
  ConsensusSupport.build_block w p := Chain.build_block Dispatcher p (chain_db w);
  ConsensusSupport.commit_block p := on_chain (chain_commit_block Dispatcher p);
  txpool_remove_transactions hs := on_txpool (TxPool.remove hs);
  support_address := address_address;
  support_sign := default_sign;
  support_verify := default_verify;
  ConsensusSupport.debug_hash := hash_debug;
  ConsensusSupport.display_error := error_text;
|}.

(** *** The default support for the pool of transactions
    ([core/node/txpool/src/support.rs]) *)
Definition default_txpool_support : TxPoolSupport := {|
  support_hash_transaction := Executor.hash_transaction;
  hash_display := hash_text;
|}.
End Support.
