(* ===== verification/ChainLeader.v ===== *)
(** * ChainLeader

    What a leader does on the chain in its turn: the transactions of the pool are sorted, a
    block is built of them and committed, and the task of its execution waits
    in the queue. *)
From S2P Require Import Prelude Codec Types Context ExecutorContext Dispatch SystemModule Executor ExecutorProofs TxPool ConsensusSupport Engine Db Statedb ChainData Chain ChainProofs ChainBuild ChainCommit ChainSupport.

Section Leader.
Context {SC : Scale} {CR : Crypto} {TL : TrieLib} {SH : Show}.
Variable D : list (string * ModuleOps ExecContext).

Lemma forall_sublist {A} (P : A → Prop) l k : l `sublist_of` k → Forall P k → Forall P l.
Proof.
  intros Hs%sublist_submseteq. rewrite !Forall_forall. intros Hk x Hx. by eapply Hk, elem_of_submseteq.
Qed.

(** ** Sorting the pool *)

(** The transaction is valid, and the kind of its module. *)
Definition sorted_as (w : DefaultConsensusSupport) (kind : bool) (t : FullTransaction) : Prop :=
  default_validate_transaction D w (tx_hash t) (tx t) true = Ok tt ∧
  Executor.is_meta_call D (call (tx t)) = Ok kind.

Lemma is_invalid_false w t : is_invalid D w t = Ok false →
  default_validate_transaction D w (tx_hash t) (tx t) true = Ok tt.
Proof.
  unfold is_invalid. destruct (default_validate_transaction _ _ _ _ _) as [[]|x]; [done|].
  by destruct x as [| |[]| | | | | | | |].
Qed.

Lemma sort_txs_spec w txs i m p : sort_txs D w txs = Ok (i, m, p) →
  (i ++ m ++ p ≡ₚ txs) ∧ m `sublist_of` txs ∧ p `sublist_of` txs ∧
  Forall (λ t, is_invalid D w t = Ok true) i ∧ Forall (sorted_as w true) m ∧ Forall (sorted_as w false) p.
Proof.
  revert i m p. induction txs as [|t txs IH]; intros i m p; cbn [sort_txs].
  { intros [= <- <- <-]. by split_and!; constructor. }
  destruct (is_invalid D w t) as [[]|] eqn:Hi; [| |done]; cbn [result_bind].
  - destruct (sort_txs D w txs) as [[[i' m'] p']|]; [|done]. cbn [result_bind]. intros [= <- <- <-].
    destruct (IH _ _ _ eq_refl) as (Hp & Hm & Hpp & H1 & H2 & H3).
    split_and!; [by rewrite <-Hp|by constructor..|done|done].
  - unfold default_is_meta_call. destruct (Executor.is_meta_call D (call (tx t))) as [k|] eqn:Hk; [|done]. cbn [result_bind].
    destruct (sort_txs D w txs) as [[[i' m'] p']|]; [|done]. cbn [result_bind].
    destruct (IH _ _ _ eq_refl) as (Hp & Hm & Hpp & H1 & H2 & H3). apply is_invalid_false in Hi.
    destruct k; intros [= <- <- <-]; split_and!; try done; try (by constructor).
    + rewrite <-Hp. cbn. by rewrite <-Permutation_middle.
    + rewrite <-Hp, !app_assoc. by rewrite <-Permutation_middle.
Qed.

(** What is prepared for a block. *)
Record prepared (w w' : DefaultConsensusSupport) (ts : Z) (p : BuildBlockParams) : Prop := {
  pr_chain : chain w' = chain w;
  pr_number : bb_number p = u64 (confirmed_number (default_current_state w) + 1);
  pr_execution : bb_execution_number p = ConsensusSupport.executed_number (default_current_state w);
  pr_timestamp : bb_timestamp p = ts;
  pr_meta : bb_meta_txs p `sublist_of` queue (txpool w) ∧ Forall (sorted_as w true) (bb_meta_txs p);
  pr_payload : bb_payload_txs p `sublist_of` queue (txpool w) ∧ Forall (sorted_as w false) (bb_payload_txs p);
  pr_gap : (i8 (u64 (bb_number p - bb_execution_number p)) ≤
            SystemModule.meta_max_execution_gap (system_meta (default_current_state w)))%Z;
  pr_all : ∃ invalid, (invalid ++ bb_meta_txs p ++ bb_payload_txs p ≡ₚ queue (txpool w)) ∧
    Forall (λ t, is_invalid D w t = Ok true) invalid ∧
    txpool w' = (remove (list_to_set (tx_hash <$> invalid)) (txpool w)).2;
}.

Lemma prepare_block_prepared ts w p w' : default_prepare_block D ts w = (Ok p, w') →
  prepared w w' ts p.
Proof.
  unfold default_prepare_block, default_get_transactions. unfold bind at 1, asks. cbn [id]. rewrite bind_lift_ok.
  destruct (sort_txs D w (queue (txpool w))) as [[[i m] pl]|] eqn:Hs; [|done]. rewrite bind_lift_ok.
  apply sort_txs_spec in Hs as (Hp & Hm & Hpl & H1 & H2 & H3).
  unfold bind, on_txpool, remove, modify, ret, throw. cbn. case_decide as Hg; [done|].
  intros [= <- <-]. split; cbn; try done. all: first [lia | by exists i].
Qed.

(** ** A turn *)

(** The world agrees with a chain of [n] blocks, [e] of them executed. *)
Record world_ok (w : DefaultConsensusSupport) (n e : BlockNumber) : Prop := {
  wo_chain : chain_ok (chain_db w) n e;
  wo_current : current (backend (chain w)) n e;
  wo_pool : Forall (λ t, wf codec_transaction (tx t)) (queue (txpool w));
}.

Lemma current_engine s n e w : backend (chain w) = s → current s n e →
  confirmed_number (default_current_state w) = n ∧
  ConsensusSupport.executed_number (default_current_state w) = e.
Proof.
  intros <- (cs & Hcs & Hn & He & _). unfold default_current_state, Chain.get_current_state.
  rewrite Hcs. by split.
Qed.

Hypothesis confined : confined_modules D.

Lemma prepared_params_ok w w' ts p n e : world_ok w n e → is_u64 (n + 1) → is_u64 ts →
  prepared w w' ts p → bb_number p = (n + 1)%Z ∧ bb_execution_number p = e ∧ build_params_ok p.
Proof.
  intros [_ Hc Hp] Hn Hts [_ H1 H2 H3 [H4 _] [H5 _] _ _].
  destruct (current_engine _ _ _ w eq_refl Hc) as [Ec Ee]. rewrite Ec, u64_id in H1 by done.
  rewrite Ee in H2. split_and!; [done|done|]. split; [by rewrite H1|by rewrite H3|].
  apply Forall_app. split; by eapply forall_sublist.
Qed.

Lemma prepared_pool w w' ts p P : prepared w w' ts p → Forall P (queue (txpool w)) →
  Forall P (queue (txpool w')).
Proof.
  intros [_ _ _ _ _ _ _ (i & _ & _ & ->)]. unfold remove, bind, modify. cbn.
  rewrite !Forall_forall. intros Hq x [_ Hx]%list_elem_of_filter. by apply Hq.
Qed.

(** The transactions of a block that is built *)
Lemma loop_kind kind txs c k rs c' : Forall (λ t, tx_is_meta D t = Ok true) txs →
  kind = None ∨ kind = Some true → execute_loop D kind txs c = (Ok (k, rs), c') →
  (txs = [] ∧ k = kind) ∨ k = Some true.
Proof.
  revert kind c k rs c'. induction txs as [|t txs IH]; intros kind c k rs c' Hall Hk; cbn [execute_loop].
  { intros [= <- _ _]. by left. }
  apply Forall_cons in Hall as [Ht Hall]. unfold tx_is_meta in Ht. rewrite Ht. rewrite bind_lift_ok.
  assert ((match kind with
           | None => Ok true
           | Some k0 => if decide (k0 ≠ true) then Err (EExecutor (InvalidTxs "Mixed meta and payload in one txs batch")) else Ok k0
           end : CommonResult bool) = Ok true) as -> by (by destruct Hk as [->| ->]).
  rewrite bind_lift_ok. unfold bind.
  destruct (execute_tx D t c) as [[r|] c1]; [|done].
  destruct (execute_loop D (Some true) txs c1) as [[[k1 rs1]|] c2] eqn:E; [|done]. intros [= <- <- <-].
  apply IH in E as [[_ ->]| ->]; [by right..|done|by right].
Qed.

Lemma meta_batch txs c c' : Forall (λ t, tx_is_meta D t = Ok true) txs →
  execute_txs D txs c = (Ok tt, c') → meta_txs c' = meta_txs c ++ txs.
Proof.
  intros Hall. unfold execute_txs, bind at 1.
  pose proof (execute_loop_states D confined None txs c) as [_ [Hm _]].
  destruct (execute_loop D None txs c) as [[[k rs]|] c1] eqn:E; [|done]. cbn in Hm.
  apply loop_kind in E as [[-> ->]| ->]; [| |done|by left].
  - unfold bind, modify, asks. cbn. rewrite andb_false_r. intros [= <-]. by rewrite app_nil_r.
  - unfold bind, modify, asks, throw. cbn. case_match; [done|]. intros [= <-]. cbn. by rewrite Hm.
Qed.

Lemma built_txs p d q : Forall (λ t, tx_is_meta D t = Ok true) (bb_meta_txs p) → Chain.build_block D p d = Ok q →
  cb_meta_txs q = bb_meta_txs p ∧ cb_payload_txs q = bb_payload_txs p.
Proof.
  intros Hall (ph & phd & x & c & c' & _ & _ & Hc & Hr & _ & Ht & _ & _ & Hpt & _)%build_block_run.
  split; [|done]. apply chain_context_states in Hc as (_ & _ & Hm & _). apply meta_batch in Hr; [|done].
  rewrite Hm in Hr. unfold get_meta_txs in Ht. destruct (get_txs_root (meta_txs c')); [|done]. cbn in Ht.
  injection Ht as _ Ht. by rewrite <-Ht.
Qed.

(** The task of a block that was committed. *)
Lemma extended_task s s' p n e r : block_params_ok p → extended s s' p n e r →
  task_of (db s') (execute_task p).
Proof.
  intros Hp Hx. pose proof (ext_block _ _ _ _ _ _ Hx) as Hat. exists (cb_header p), (cb_body p).
  cbn. rewrite (at_number _ _ _ _ _ Hat). split; [done|]. by rewrite (params_payload p Hp).
Qed.

Lemma with_proof_ok (q : Chain.ChainCommitBlockParams) pf : block_params_ok q →
  block_params_ok (with_proof (CS := default_support D) pf q).
Proof. intros [H1 H2 H3 H4 H5]. by split. Qed.

(** The turn of a leader, through the interface of the engines.  The block
    is made of the valid transactions of the pool, in their order, by kind,
    and of nothing else; invalid ones leave the pool.  It extends the chain:
    its parent is the last confirmed block, it is read back with the proof,
    the gap in its header is the distance to the last execution.  When the
    call succeeds its task is the last of the queue, ready to be executed, and
    the world agrees with the longer chain, for the next turn. *)
Lemma leader_turn ts w p w1 q pf r w2 n e :
  world_ok w n e → is_u64 (n + 1) → is_u64 ts →
  @prepare_block (default_support D) ts w = (Ok p, w1) →
  @ConsensusSupport.build_block (default_support D) w1 p = Ok q →
  get_header (cb_block_hash q) (chain_db w) = Ok None → next_fault (chain_db w) = None →
  @ConsensusSupport.commit_block (default_support D) (with_proof (CS := default_support D) pf q) w1 = (r, w2) →
  prepared w w1 ts p ∧
  extended (backend (chain w)) (backend (chain w2)) (with_proof (CS := default_support D) pf q) n e r ∧
  hdr_number (cb_header q) = (n + 1)%Z ∧ hdr_timestamp (cb_header q) = ts ∧
  payload_execution_gap (cb_header q) = i8 (u64 (n + 1 - e)) ∧
  (cb_meta_txs q = bb_meta_txs p ∧ cb_payload_txs q = bb_payload_txs p ∧
   cb_body q = Build_Body (tx_hash <$> cb_meta_txs q) (tx_hash <$> cb_payload_txs q)) ∧
  (r = Ok tt → task_rx (chain w2) = task_rx (chain w) ++ [execute_task q] ∧
     task_of (chain_db w2) (execute_task q) ∧ world_ok w2 (n + 1) e).
Proof.
  intros Hw Hn Hts Hprep Hbuild Hnew Hf Hrun. apply prepare_block_prepared in Hprep as Hp.
  destruct (prepared_params_ok _ _ _ _ _ _ Hw Hn Hts Hp) as (Hnum & Hex & Hpok).
  pose proof (pr_chain _ _ _ _ Hp) as Hch. cbn in Hbuild.
  assert (chain_db w1 = chain_db w) as Hdb by (unfold chain_db; by rewrite Hch).
  rewrite Hdb in Hbuild.
  pose proof (build_block_spec D confined p (chain_db w) q Hpok Hbuild) as (Hq & Hqn & Hpar).
  pose proof Hbuild as (ph & phd & x & c & c' & _ & _ & _ & _ & _ & _ & _ & _ & Hpay & Hbody & _ & _ & Hhd)%build_block_run.
  assert (Forall (λ t, tx_is_meta D t = Ok true) (bb_meta_txs p)) as Hmetas
    by (eapply Forall_impl; [exact (proj2 (pr_meta _ _ _ _ Hp))|]; intros t [_ Hk]; exact Hk).
  destruct (built_txs p (chain_db w) q Hmetas Hbuild) as [Emeta _].
  pose proof (linked_range _ _ (ok_linked _ _ _ (wo_chain _ _ _ Hw))) as Hr0.
  rewrite Hnum, Z.add_simpl_r, u64_id in Hpar by done.
  revert Hrun. cbn. unfold on_chain, chain_commit_block, bind at 1, on_backend. rewrite Hch.
  destruct (Chain.commit_block D _ (backend (chain w))) as [rc s'] eqn:Hc.
  pose proof (commit_block_next D (with_proof (CS := default_support D) pf q) _ n e rc s'
    (wo_chain _ _ _ Hw) (with_proof_ok q pf Hq) Hn Hnew (eq_trans Hqn Hnum) Hpar Hc) as Hnext.
  unfold chain_db in Hf. rewrite Hf in Hnext.
  intros Hrun. assert (r = rc ∧ backend (chain w2) = s') as [-> Hs'].
  { unfold insert_task, modify in Hrun. destruct rc as [[]|y]; cbn in Hrun; by injection Hrun as <- <-. }
  rewrite Hs'. split; [done|]. split; [done|]. rewrite Hhd. cbn. rewrite Hnum, Hex.
  split_and!; [done|by apply Hp|done|done|done|done|]. intros ->.
  pose proof (extended_task _ _ _ _ _ _ (with_proof_ok q pf Hq) Hnext) as Htask.
  unfold chain_db. rewrite Hs'. split; [by injection Hrun as <-|]. split; [exact Htask|].
  split; unfold chain_db; rewrite ?Hs'.
  - by apply Hnext.
  - by apply (ext_result _ _ _ _ _ _ Hnext).
  - replace (txpool w2) with (txpool w1) by by injection Hrun as <-.
    by eapply prepared_pool, wo_pool.
Qed.

(** The gap is compared after its truncation to eight bits: when the
    executions are 128 to 255 blocks behind, the block is not refused. *)
Lemma wide_gap_is_not_refused ts w sorted :
  let state := default_current_state w in
  let number := u64 (confirmed_number state + 1) in
  let gap := u64 (number - ConsensusSupport.executed_number state) in
  (2 ^ 7 ≤ gap < 2 ^ 8)%Z → (0 ≤ SystemModule.meta_max_execution_gap (system_meta state))%Z →
  sort_txs D w (queue (txpool w)) = Ok sorted →
  ∃ p w', default_prepare_block D ts w = (Ok p, w') ∧ bb_number p = number.
Proof.
  intros state number gap Hg Hm Hs. unfold default_prepare_block, default_get_transactions.
  unfold bind at 1, asks. cbn [id]. rewrite bind_lift_ok.
  destruct sorted as [[i m] pl]. rewrite Hs, bind_lift_ok. unfold bind, on_txpool, remove, modify, ret, throw.
  cbn. fold state number gap. rewrite decide_False; [by eexists _, _|].
  assert (i8 gap = gap - 2 ^ 8)%Z as ->; [|lia]. unfold i8.
  replace (gap + 2 ^ 7)%Z with ((gap - 2 ^ 7) + 1 * 2 ^ 8)%Z by lia.
  rewrite Z_mod_plus_full, Z.mod_small by lia. lia.
Qed.
End Leader.
