(* ===== verification/ChainSamples.v ===== *)
(** * ChainSamples

    A concrete chain: the modules of the program over the trie and the
    algorithms of [TrieSample], with a specification that gives Alice some
    money.  The theorems about the chain are applied to it. *)
From S2P Require Import Prelude Codec Types Context ExecutorContext Dispatch Balance SystemModule Voting Poa RaftModule HotstuffModule Executor TxPool ConsensusSupport Engine ContractModule ContractConfined ContractLedger Db Statedb ChainData Chain ChainProofs ChainBuild ChainCommit Genesis GenesisProofs ChainSupport ChainLeader.

Module ChainSamples.
Import TrieSample.
#[local] Existing Instance Samples.sample_serialize.

#[export] Instance sample_show : Show :=
  {| hash_text _ := "hash"; hash_debug _ := "hash"; error_text _ := "error" |}.

(** All the modules, over the engine of [ContractLedger]. *)
Definition modules : list (string * ModuleOps ExecContext) :=
  Executor.Dispatcher (ContractModule.contract_module (WL := ContractSamples.sample_engine)).

Lemma modules_confined : confined_modules modules.
Proof. apply confined_dispatcher, confined_contract. Qed.
Lemma modules_validators : confined_validators modules.
Proof. apply confined_validators_dispatcher, confined_contract_validate. Qed.

(** ** The specification *)
Definition alice : Address := b "A".
Definition bob : Address := b "B".

Definition spec_text : string := "spec".
Definition sample_spec : Spec := {|
  sp_basic := Build_SpecBasic "blake2b" "ed25519" "blake2b";
  sp_genesis := Build_Genesis [Build_SpecTx "system" "init" ""; Build_SpecTx "balance" "init" "";
                               Build_SpecTx "poa" "init" ""];
|}.
#[export] Instance sample_lib : GenesisLib := {|
  parse_spec s := if decide (s = spec_text) then Ok sample_spec else Err "toml";
  json_system _ := Ok (Build_SystemInitParams "chain" "2020-04-16T23:46:02.189+08:00" 20 8 "poa");
  json_balance _ := Ok {| Balance.endow := [(alice, 100%Z)] |};
  json_poa _ := Ok {| Poa.init_block_interval := Some 1000%Z;
                      Poa.init_admin := Voting.Build_Admin 1 [(alice, 1%Z)]; Poa.init_authority := alice |};
  json_raft _ := Err "json"; json_hotstuff _ := Err "json";
  json_contract _ := Err "json";
  parse_rfc3339 _ := Ok 1587051962189%Z;
  basic_from_str _ := Ok tt;
|}.

(** ** The first start *)
Definition new_node : Backend := Build_Backend (Build_DB ∅ []) [] None [] (Some 1600000000000%Z).
Abbreviation started := (backend_new modules (Some spec_text) new_node).

Lemma started_ok : started.1 = Ok tt.
Proof. vm_compute. reflexivity. Qed.

Lemma genesis_starts_chain_witness : ∃ p q,
  genesis_written modules (db new_node) (db started.2) spec_text p q ∧
  current started.2 0 0 ∧ message_tx started.2 = [ExecutionCommitted 0 (cb_block_hash p)].
Proof.
  destruct (genesis_starts_chain modules modules_confined modules_validators (Some spec_text) new_node
    started.2 eq_refl (outcome_eq _ _ started_ok)) as (str & p & q & Hs & Hw & Hc & _ & Hm).
  injection Hs as <-. exists p, q. split; [exact Hw|]. split; [exact Hc|exact Hm].
Defined.

(** ** A run: the genesis block, a block with a transfer, its execution *)

(** Alice signs a call, for a chain with a genesis hash. *)
Definition transfer_to (recipient : Address) (value : Z) : Call :=
  Executor.build_call Balance.codec_transfer "balance" "transfer"
    {| Balance.recipient := recipient; Balance.value := value |}.
Definition signed (genesis_hash : Hash) (nonce : Nonce) (c : Call) : FullTransaction :=
  match Executor.build_tx modules genesis_hash (Some (alice, nonce, 10%Z)) c with
  | Ok t => {| tx := t; tx_hash := hash_hash (encode codec_transaction t) |}
  | Err _ => {| tx := Build_Transaction None c; tx_hash := [] |}
  end.
Definition payment : FullTransaction := signed [] 0 (transfer_to bob 30).
Definition handover : FullTransaction := signed [] 1
  (Executor.build_call Poa.codec_update_authority "poa" "update_authority"
     {| Poa.p_authority := bob |}).
Definition block_params : BuildBlockParams := {|
  bb_number := 1; bb_timestamp := 1587051962200; bb_meta_txs := [handover];
  bb_payload_txs := [payment]; bb_execution_number := 0 |}.

(** The equations of the run, and what is computed of it. *)
Record run (s1 : Backend) (q : Chain.ChainCommitBlockParams) (s2 s3 : Backend) : Prop := {
  run_genesis : init_genesis modules (Some spec_text) new_node = (Ok tt, s1);
  run_build : build_block modules block_params (db s1) = Ok q;
  run_commit : commit_block modules q s1 = (Ok tt, s2);
  run_process : process_task modules (execute_task q) s2 = (Ok tt, s3);
  run_new : get_header (cb_block_hash q) (db s1) = Ok None;
  run_parent : get_block_hash 0 (db s1) = Ok (Some (parent_hash (cb_header q)));
  run_number : hdr_number (cb_header q) = 1%Z;
  run_fault : next_fault (db s1) = None;
  run_receipt : (get_receipt (tx_hash payment) (db s3)) =
    Ok (Some {| rc_block_number := 1; rc_events := [b "Transferred"]; rc_result := Ok [] |});
}.
(** A call that succeeds, with a property of the state it leaves. *)
Definition succeeds {S} (x : CommonResult unit * S) (P : S → Prop) : Prop :=
  match x with (Ok _, s) => P s | (Err _, _) => False end.
Lemma succeeds_run {S} (x : CommonResult unit * S) P : succeeds x P → ∃ s, x = (Ok tt, s) ∧ P s.
Proof. destruct x as [[[]|] s]; [|done]. by exists s. Qed.
Definition returns {A} (x : CommonResult A) (P : A → Prop) : Prop :=
  match x with Ok a => P a | Err _ => False end.
Lemma returns_run {A} (x : CommonResult A) P : returns x P → ∃ a, x = Ok a ∧ P a.
Proof. destruct x as [a|]; [|done]. by exists a. Qed.

Lemma run_computes :
  succeeds (init_genesis modules (Some spec_text) new_node) (λ s1,
    returns (build_block modules block_params (db s1)) (λ q,
      succeeds (commit_block modules q s1) (λ s2,
        succeeds (process_task modules (execute_task q) s2) (λ s3,
          get_header (cb_block_hash q) (db s1) = Ok None ∧
          get_block_hash 0 (db s1) = Ok (Some (parent_hash (cb_header q))) ∧
          hdr_number (cb_header q) = 1%Z ∧ next_fault (db s1) = None ∧
          get_receipt (tx_hash payment) (db s3) =
            Ok (Some {| rc_block_number := 1; rc_events := [b "Transferred"]; rc_result := Ok [] |}))))).
Proof. vm_compute. repeat split. Qed.
Lemma run_exists : ∃ s1 q s2 s3, run s1 q s2 s3.
Proof.
  destruct (succeeds_run _ _ run_computes) as (s1 & E1 & H1).
  destruct (returns_run _ _ H1) as (q & E2 & H2).
  destruct (succeeds_run _ _ H2) as (s2 & E3 & H3).
  destruct (succeeds_run _ _ H3) as (s3 & E4 & F1 & F2 & F3 & F4 & F5).
  exists s1, q, s2, s3. by split.
Qed.

Section Run.
Context {s1 : Backend} {q : Chain.ChainCommitBlockParams} {s2 s3 : Backend} (R : run s1 q s2 s3).

Lemma run_written : ∃ p x, genesis_written modules (db new_node) (db s1) spec_text p x.
Proof.
  destruct (init_genesis_spec modules modules_confined modules_validators _ _ _ (run_genesis _ _ _ _ R))
    as (str & p & x & Hs & Hw & _). injection Hs as <-. by exists p, x.
Qed.
Lemma run_chain : chain_ok (db s1) 0 0.
Proof. destruct run_written as (p & x & H). apply H. Qed.
Lemma run_current : current s1 0 0.
Proof.
  destruct (init_genesis_spec modules modules_confined modules_validators _ _ _ (run_genesis _ _ _ _ R))
    as (str & p & x & _ & _ & _ & H). exact H.
Qed.
Lemma payment_wf : wf codec_transaction (tx payment).
Proof. apply transaction_wf. by vm_compute. Qed.
Lemma block_params_wf : build_params_ok block_params.
Proof.
  split; [by vm_compute|by vm_compute|]. apply Forall_app.
  split; (constructor; [|constructor]); [|exact payment_wf]. apply transaction_wf. by vm_compute.
Qed.
Lemma run_params : block_params_ok q.
Proof.
  exact (proj1 (build_block_spec modules modules_confined block_params _ _ block_params_wf (run_build _ _ _ _ R))).
Qed.
Lemma run_keys : NoDup (tx_hash <$> (cb_meta_txs q ++ cb_payload_txs q)).
Proof.
  destruct (built_txs modules modules_confined block_params (db s1) q) as [Em Ep].
  - constructor; [|constructor]. vm_compute. reflexivity.
  - exact (run_build _ _ _ _ R).
  - rewrite (Em : @cb_meta_txs Db.DBTransaction q = _), (Ep : @cb_payload_txs Db.DBTransaction q = _).
    cbn [block_params bb_meta_txs bb_payload_txs app fmap list_fmap].
    apply NoDup_cons. split; [|apply NoDup_singleton]. intros Hin%list_elem_of_singleton. by vm_compute in Hin.
Qed.
Lemma run_extended : extended s1 s2 q 0 0 (Ok tt).
Proof.
  pose proof (commit_block_next modules q s1 0 0 (Ok tt) s2 run_chain run_params ltac:(done)
    (run_new _ _ _ _ R) (run_number _ _ _ _ R) (run_parent _ _ _ _ R) (run_commit _ _ _ _ R)) as H.
  by rewrite (run_fault _ _ _ _ R) in H.
Qed.
End Run.

(** ** The theorems at the run *)

Lemma run_restarts : succeeds (init_genesis modules (Some spec_text) new_node) (λ s1,
  succeeds (backend_new modules None s1) (λ _, True)).
Proof. vm_compute. exact I. Qed.
Lemma restart_resumes_witness : ∃ s1 q s2 s3 s, run s1 q s2 s3 ∧
  backend_new modules None s1 = (Ok tt, s) ∧ db s = db s1 ∧ message_tx s = [] ∧ current s 0 0.
Proof.
  destruct run_exists as (s1 & q & s2 & s3 & R).
  destruct (succeeds_run _ _ run_restarts) as (s1' & E1 & H1). rewrite (run_genesis _ _ _ _ R) in E1.
  injection E1 as <-. destruct (succeeds_run _ _ H1) as (s & Hs & _).
  destruct (run_written R) as (p & x & Hw).
  destruct (restart_resumes modules None s1 s 0 0 spec_text (run_chain R) (gw_text _ _ _ _ _ _ Hw) Hs)
    as (Hd & Hm & Hc & _).
  exists s1, q, s2, s3, s. split; [exact R|]. split; [exact Hs|]. split; [exact Hd|].
  split; [exact Hm|exact Hc].
Defined.

Lemma block_extends_chain_witness : ∃ s1 q s2 s3, run s1 q s2 s3 ∧ chain_ok (db s2) 1 0 ∧
  (∀ x, x ∈ cb_meta_txs q ++ cb_payload_txs q → get_transaction (tx_hash x) (db s2) = Ok (Some (tx x))) ∧
  current s2 1 0 ∧ message_tx s2 = message_tx s1 ++ [BlockCommitted 1 (cb_block_hash q)].
Proof.
  destruct run_exists as (s1 & q & s2 & s3 & R).
  pose proof (block_extends_chain modules q s1 0 0 (parent_hash (cb_header q)) (Ok tt) s2 (run_chain R)
    (run_params R) ltac:(done) (run_parent _ _ _ _ R) (run_commit _ _ _ _ R)) as H.
  rewrite (run_new _ _ _ _ R) in H.
  rewrite decide_True in H by (split; [exact (run_number _ _ _ _ R)|reflexivity]).
  rewrite (run_fault _ _ _ _ R) in H. destruct H as [Hc _ Htx _ _ _ _ _ _ [Hm Hcur]].
  exists s1, q, s2, s3. split; [exact R|]. split; [exact Hc|].
  split; [intros x Hx; exact (Htx x Hx (keyed_nodup _ _ _ x (run_keys R) Hx))|]. split; [exact Hcur|exact Hm].
Defined.


(** ** The states at the run *)

(** The contents of a state of the toy trie, and that they are there. *)
Definition contents_of (sd : StateDB) (root : Hash) : Contents :=
  match toy_open (proxy_get sd) root with Ok m => m | Err _ => ∅ end.
Definition known (sd : StateDB) (root : Hash) : Prop :=
  length root = 8 ∧ bool_decide (default_root = root) = false ∧
  proxy_get sd root = Some (node_of (contents_of sd root)).
Lemma known_represents sd root : known sd root → represents sd root (contents_of sd root).
Proof.
  intros (Hl & Hd & Hp). split; [exact Hl|]. apply bool_decide_eq_false in Hd.
  rewrite decide_False by exact Hd. exact Hp.
Qed.
Definition fresh_b (l : list DBOp) (m : Entries) : bool :=
  forallb (λ op, bool_decide (m !! op_key op = None) || bool_decide (m !! op_key op = op_value op)) l.
Lemma fresh_b_fresh l m : fresh_b l m = true → fresh l m.
Proof.
  unfold fresh_b. rewrite forallb_forall. intros H op Hop%list_elem_of_In. specialize (H op Hop).
  apply orb_true_iff in H as [H|H]; apply bool_decide_eq_true in H; auto.
Qed.
Definition finds {A} (x : CommonResult (option A)) (P : A → Prop) : Prop :=
  returns x (λ o, match o with Some a => P a | None => False end).
Lemma finds_run {A} (x : CommonResult (option A)) P : finds x P → ∃ a, x = Ok (Some a) ∧ P a.
Proof. intros ([a|] & -> & H)%returns_run; [|done]. by exists a. Qed.

Lemma states_compute :
  succeeds (init_genesis modules (Some spec_text) new_node) (λ s1,
    returns (build_block modules block_params (db s1)) (λ q,
      finds (get_block_hash 0 (db s1)) (λ h,
        finds (get_header h (db s1)) (λ hd, finds (get_execution h (db s1)) (λ x,
          known (meta_statedb (db s1)) (meta_state_root hd) ∧
          known (payload_statedb (db s1)) (payload_execution_state_root x) ∧
          fresh_b (ops (cb_meta_transaction q)) (entries (db s1)) = true))))).
Proof. vm_compute. repeat split. Qed.

(** The database after a transaction that is written. *)
Definition after (t : Db.DBTransaction) (d : DB) : DB := Build_DB (apply_ops (ops t) (entries d)) [].

Lemma block_state_carries_over_witness : ∃ s1 q s2 s3 c c2, run s1 q s2 s3 ∧
  chain_context (Build_ContextEnv 2 0) (meta_state_root (cb_header q)) default_root
    (after (commit_block_ops transaction_new q) (db s1)) = Ok c2 ∧
  ∀ key, Context.read true key c2 = Context.read true key c.
Proof.
  destruct run_exists as (s1 & q & s2 & s3 & R).
  destruct (succeeds_run _ _ states_compute) as (s1' & E1 & H1). rewrite (run_genesis _ _ _ _ R) in E1.
  injection E1 as <-. destruct (returns_run _ _ H1) as (q' & E2 & H2). rewrite (run_build _ _ _ _ R) in E2.
  injection E2 as <-. destruct (finds_run _ _ H2) as (h & Hh & H3).
  destruct (finds_run _ _ H3) as (hd & Hhd & H4). destruct (finds_run _ _ H4) as (x & Hx & Hm & Hp & Hf).
  destruct (block_state_carries_over modules modules_confined block_params (db s1) q
    (after (commit_block_ops transaction_new q) (db s1)) h hd x _ _ (run_build _ _ _ _ R)
    (conj Hh (ex_intro _ h (conj Hh Hx))) Hhd (known_represents _ _ Hm) (known_represents _ _ Hp)
    (fresh_b_fresh _ _ Hf) eq_refl) as (c & c' & _ & _ & Hnext & _).
  destruct (Hnext (Build_ContextEnv 2 0) default_root ∅ (represents_default _)) as (c2 & Hc2 & Hr & _).
  exists s1, q, s2, s3, c', c2. split; [exact R|]. split; [exact Hc2|exact Hr].
Defined.

Lemma execution_computes :
  succeeds (init_genesis modules (Some spec_text) new_node) (λ s1,
    returns (build_block modules block_params (db s1)) (λ q,
      succeeds (commit_block modules q s1) (λ s2,
        finds (get_execution (parent_hash (cb_header q)) (db s2)) (λ x,
          known (meta_statedb (db s2)) (meta_state_root (cb_header q)) ∧
          known (payload_statedb (db s2)) (payload_execution_state_root x) ∧
          returns (build_execution modules (execution_params (execute_task q) x) (db s2)) (λ y,
            fresh_b (ops (ce_payload_transaction y)) (entries (db s2)) = true))))).
Proof. vm_compute. repeat split. Qed.

Lemma execution_state_carries_over_witness : ∃ s1 q s2 s3 y c c2, run s1 q s2 s3 ∧
  chain_context (Build_ContextEnv 2 0) default_root
    (payload_execution_state_root (ce_execution y)) (after (commit_execution_ops transaction_new y) (db s2)) = Ok c2 ∧
  ∀ key, Context.read false key c2 = Context.read false key c.
Proof.
  destruct run_exists as (s1 & q & s2 & s3 & R).
  destruct (succeeds_run _ _ execution_computes) as (s1' & E1 & H1). rewrite (run_genesis _ _ _ _ R) in E1.
  injection E1 as <-. destruct (returns_run _ _ H1) as (q' & E2 & H2). rewrite (run_build _ _ _ _ R) in E2.
  injection E2 as <-. destruct (succeeds_run _ _ H2) as (s2' & E3 & H3). rewrite (run_commit _ _ _ _ R) in E3.
  injection E3 as <-. destruct (finds_run _ _ H3) as (x & Hx & Hm & Hp & H4).
  destruct (returns_run _ _ H4) as (y & Hy & Hf).
  destruct (execution_state_carries_over modules modules_confined _ (db s2) y
    (after (commit_execution_ops transaction_new y) (db s2)) _ _ Hy (known_represents _ _ Hm)
    (known_represents _ _ Hp) (fresh_b_fresh _ _ Hf) eq_refl) as (c & c' & _ & _ & Hnext & _).
  destruct (Hnext (Build_ContextEnv 2 0) default_root ∅ (represents_default _)) as (c2 & Hc2 & Hr & _).
  exists s1, q, s2, s3, y, c', c2. split; [exact R|]. split; [exact Hc2|exact Hr].
Defined.

(** ** A leader's turn *)

(** A world whose pool has the handover, a payment and a transfer to a wrong address. *)
Definition world_of (s : Backend) : DefaultConsensusSupport := {|
  chain := Build_Chain s [];
  txpool := TxPool.with_queue [payment; signed [] 0 (transfer_to (b "BB") 5); handover] TxPool.txpool_new;
|}.
#[local] Abbreviation support := (default_support modules).

Lemma leader_computes :
  succeeds (init_genesis modules (Some spec_text) new_node) (λ s1,
    match @prepare_block support 1587051962200%Z (world_of s1) with
    | (Ok p, w1) => (tx_hash <$> bb_payload_txs p) = [tx_hash payment] ∧ length (TxPool.queue (txpool w1)) = 2 ∧
        returns (@ConsensusSupport.build_block support w1 p) (λ q,
          get_header (cb_block_hash q) (db s1) = Ok None ∧ next_fault (db s1) = None ∧
          succeeds (@ConsensusSupport.commit_block support (with_proof (CS := support) default_proof q) w1) (λ _, True))
    | (Err _, _) => False
    end).
Proof. vm_compute. repeat split. Qed.

Lemma pool_wf : Forall (λ t, wf codec_transaction (tx t))
  [payment; signed [] 0 (transfer_to (b "BB") 5); handover].
Proof. repeat (constructor; [apply transaction_wf; by vm_compute|]). constructor. Qed.

Lemma leader_turn_runs : ∃ w p w1 q w2,
  @prepare_block support 1587051962200%Z w = (Ok p, w1) ∧ length (TxPool.queue (txpool w)) = 3 ∧
  length (TxPool.queue (txpool w1)) = 2 ∧ (tx_hash <$> cb_payload_txs q) = [tx_hash payment] ∧
  world_ok w2 1 0 ∧ task_rx (chain w2) = [execute_task q].
Proof.
  destruct run_exists as (s1 & q0 & s2 & s3 & R).
  destruct (succeeds_run _ _ leader_computes) as (s1' & E1 & H1). rewrite (run_genesis _ _ _ _ R) in E1.
  injection E1 as <-. destruct (@prepare_block support _ (world_of s1)) as [[p|] w1] eqn:Hp; [|done].
  destruct H1 as (Ht & Hlen & H2). destruct (returns_run _ _ H2) as (q & Hq & Hnew & Hf & H3).
  destruct (succeeds_run _ _ H3) as (w2 & Hc & _).
  assert (world_ok (world_of s1) 0 0) as Hw
    by (split; [exact (run_chain R)|exact (run_current R)|exact pool_wf]).
  destruct (leader_turn modules modules_confined 1587051962200 _ _ _ _ _ _ _ 0 0 Hw
    ltac:(done) ltac:(done) Hp Hq Hnew Hf Hc)
    as (_ & _ & _ & _ & _ & (_ & Hpay & _) & Hok). destruct (Hok eq_refl) as (Htask & _ & Hw2).
  exists (world_of s1), p, w1, q, w2. split; [exact Hp|]. split; [reflexivity|]. split; [exact Hlen|].
  split; [exact (eq_trans (f_equal (fmap tx_hash) Hpay) Ht)|]. split; [exact Hw2|exact Htask].
Qed.
End ChainSamples.
