(* ===== verification/PoaLeader.v ===== *)
(** * PoaLeader

    The turn of the authority of a poa chain, on the chain and the pool behind
    the engines: what [PoaEngine.work] does to them, and who accepts the proof
    of the block. *)
From S2P Require Import Prelude Codec Types Context ExecutorContext Dispatch SystemModule Poa Executor TxPool ConsensusSupport Engine Db Statedb ChainData Chain ChainProofs ChainBuild ChainCommit Genesis ChainSupport ChainLeader PoaEngine ChainSamples.
Import PoaEngine.

Section Leader.
Context {SC : Scale} {CR : Crypto} {TL : TrieLib} {SH : Show}.
Variable D : list (string * ModuleOps ExecContext).
Hypothesis confined : confined_modules D.
#[local] Instance support : ConsensusSupport := default_support D.
Variable self : Setup.
Hypothesis own_address : get_address (secret_key self) = Ok (address self).

(** The block [q] is the turn's at the timestamp [ts] on the worlds before and after. *)
Record turn (w w' : DefaultConsensusSupport) (ts n e : Z) (q : Chain.ChainCommitBlockParams) : Prop := {
  tn_extends : extended (backend (chain w)) (backend (chain w')) q n e (Ok tt);
  tn_world : world_ok w' (n + 1) e;
  tn_header : hdr_number (cb_header q) = (n + 1)%Z ∧ hdr_timestamp (cb_header q) = ts ∧
    payload_execution_gap (cb_header q) = i8 (u64 (n + 1 - e));
  tn_task : task_rx (chain w') = task_rx (chain w) ++ [execute_task q];
  tn_meta : cb_meta_txs q `sublist_of` TxPool.queue (txpool w) ∧
    Forall (sorted_as D w true) (cb_meta_txs q);
  tn_payload : cb_payload_txs q `sublist_of` TxPool.queue (txpool w) ∧
    Forall (sorted_as D w false) (cb_payload_txs q);
  tn_body : cb_body q = Build_Body (tx_hash <$> cb_meta_txs q) (tx_hash <$> cb_payload_txs q);
  tn_rest : ∃ invalid, (invalid ++ cb_meta_txs q ++ cb_payload_txs q ≡ₚ TxPool.queue (txpool w)) ∧
    Forall (λ t, is_invalid D w t = Ok true) invalid;
  tn_pool : TxPool.queue (txpool w') = [] ∧
    TxPool.map (txpool w') =
      filter (λ kv, kv.1 ∉ tx_hash <$> TxPool.queue (txpool w)) (TxPool.map (txpool w));
  tn_proof : ∀ (v : DefaultConsensusSupport) header, hdr_number header = (n + 1)%Z →
    get_poa_authority v n = Some (Ok (address self)) →
    verify_proof v header (cb_proof q) = Some (Ok tt);
}.

(** The proof of the authority is accepted wherever it is the authority. *)
Lemma own_proof_verifies {CS : ConsensusSupport} h sk pf a w header n :
  get_address sk = Ok a → proof_new h sk = Ok pf → is_u64 n → hdr_number header = (n + 1)%Z →
  get_poa_authority w n = Some (Ok a) →
  (∀ m m' k k' s s', support_sign sk m = Ok (k, s) → support_sign sk m' = Ok (k', s') → k = k') →
  verify_proof w header (proof_try_into pf) = Some (Ok tt).
Proof.
  intros Ha Hpf Hn Hh Hw Hkey. rewrite verify_proof_by_key, Hh, Z.add_simpl_r, u64_id, Hw by done.
  rewrite decide_True; [done|].
  revert Ha Hpf. unfold get_address, proof_new.
  destruct (support_sign sk []) as [[k s]|] eqn:E1; cbn; [|done]. intros [= <-].
  destruct (support_sign sk (encode _ _)) as [[k' s']|] eqn:E2; cbn; [|done].
  intros Hpf. injection Hpf as <-. by rewrite (Hkey _ _ _ _ _ _ E1 E2).
Qed.

Lemma default_sign_key sk m m' k k' s s' :
  default_sign sk m = Ok (k, s) → default_sign sk m' = Ok (k', s') → k = k'.
Proof. unfold default_sign. destruct (key_pair_from_secret_key sk); naive_solver. Qed.

(** What is left of the pool once all transactions of its queue are removed,
    in two steps. *)
Lemma pool_emptied (p : TxPool.TxPool) i l : i ++ l ≡ₚ TxPool.queue p →
  let p' := (TxPool.remove (list_to_set (tx_hash <$> l)) (TxPool.remove (list_to_set (tx_hash <$> i)) p).2).2 in
  TxPool.queue p' = [] ∧
  TxPool.map p' = filter (λ kv, kv.1 ∉ tx_hash <$> TxPool.queue p) (TxPool.map p).
Proof.
  intros Hp. unfold TxPool.remove, bind, modify. cbn. split.
  - apply elem_of_nil_inv. intros t [Hl [Hi Hin]%list_elem_of_filter]%list_elem_of_filter.
    rewrite <-Hp in Hin. rewrite elem_of_list_to_set in Hl. rewrite elem_of_list_to_set in Hi.
    apply elem_of_app in Hin as [Hin|Hin]; apply (list_elem_of_fmap_2 tx_hash) in Hin; done.
  - rewrite map_filter_filter. apply map_filter_ext. intros h t _. cbn.
    rewrite !elem_of_list_to_set, <-Hp, fmap_app, elem_of_app. tauto.
Qed.

(** Removing the transactions of a block from the pool leaves the chain. *)
Lemma turn_done w w1 w2 ts n e p q pf hs :
  world_ok w n e → get_address (secret_key self) = Ok (address self) →
  proof_new (cb_block_hash q) (secret_key self) = Ok pf →
  hs = list_to_set ((tx_hash <$> bb_meta_txs p) ++ (tx_hash <$> bb_payload_txs p)) →
  is_u64 n → txpool w2 = txpool w1 →
  prepared D w w1 ts p →
  extended (backend (chain w)) (backend (chain w2)) (with_proof (proof_try_into pf) q) n e (Ok tt) →
  hdr_number (cb_header q) = (n + 1)%Z → hdr_timestamp (cb_header q) = ts →
  payload_execution_gap (cb_header q) = i8 (u64 (n + 1 - e)) →
  (cb_meta_txs q = bb_meta_txs p ∧ cb_payload_txs q = bb_payload_txs p ∧
   cb_body q = Build_Body (tx_hash <$> cb_meta_txs q) (tx_hash <$> cb_payload_txs q)) →
  task_rx (chain w2) = task_rx (chain w) ++ [execute_task q] → world_ok w2 (n + 1) e →
  turn w (on_txpool (TxPool.remove hs) w2).2 ts n e (with_proof (proof_try_into pf) q).
Proof.
  intros Hw Ha Hpf -> Hn Hpool Hprep Hext Hnum Hts Hgap (Hmeta & Hpay & Hbody) Htask [Hok Hcur Hwf].
  pose proof (pr_payload _ _ _ _ _ Hprep) as Hp. pose proof (pr_meta _ _ _ _ _ Hprep) as Hm.
  pose proof (pr_all _ _ _ _ _ Hprep) as (inv & Hall & Hinv & Hp1).
  rewrite <-Hpay in Hp, Hall. rewrite <-Hmeta in Hm, Hall. rewrite <-Hpay, <-Hmeta, <-fmap_app.
  destruct (pool_emptied (txpool w) inv _ Hall) as [Hq Hmap]. rewrite <-Hp1, <-Hpool in Hq, Hmap.
  split; try done.
  - split; cbn; try done. revert Hwf. rewrite !Forall_forall. intros Hwf t [_ Hin]%list_elem_of_filter. by apply Hwf.
  - by exists inv.
  - intros v header Hh Hv. eapply own_proof_verifies; try done. intros *. apply default_sign_key.
Qed.

Lemma prepare_block_chain ts w : chain (default_prepare_block D ts w).2 = chain w.
Proof.
  unfold default_prepare_block, default_get_transactions. unfold bind at 1, asks. cbn [id]. rewrite bind_lift_ok.
  destruct (sort_txs D w (TxPool.queue (txpool w))) as [[[i m] pl]|]; [|done]. rewrite bind_lift_ok.
  unfold bind, on_txpool, TxPool.remove, modify, ret, throw. cbn. by case_decide.
Qed.

Lemma on_chain_pool {A} (m : M Chain.Chain CommonError A) w : txpool (on_chain m w).2 = txpool w.
Proof. unfold on_chain. by destruct (m (chain w)). Qed.

(** C16: the turn of the authority of a poa chain.  The block is the next one;
    its meta and its payload transactions are exactly the transactions of the
    pool's queue that are valid, of either kind, each in the order of the
    queue, and its body lists their hashes; what else is in the queue is
    invalid.  The block extends the chain and its task is the last of the
    queue of executions; nothing is left in the queue of the pool, and of its map what was
    not in the queue; the proof is accepted by every node at whose last
    block the same address is the authority, on that header or on any other of
    that number.  When the turn fails, the chain is as it was or the block has
    been written whole.  A node that is not the authority does nothing.  The
    node is in the state of its chain, its address is that of its key, the disk
    takes the write, and the hash of the block is new. *)
Theorem poa_turn_extends ts s s' n e authority r :
  let w := PoaEngine.support s in
  world_ok w n e → is_u64 (n + 1) → is_u64 n → is_u64 ts → next_fault (chain_db w) = None →
  get_poa_authority w n = Some (Ok authority) →
  (∀ p w1 q, @prepare_block support ts w = (Ok p, w1) → @ConsensusSupport.build_block support w1 p = Ok q →
     get_header (cb_block_hash q) (chain_db w) = Ok None) →
  work self ts s = (r, s') →
  let w' := PoaEngine.support s' in
  if decide (address self = authority) then
    match r with
    | Ok _ => ∃ q, turn w w' ts n e q
    | Err _ => chain w' = chain w ∨
               ∃ q x, extended (backend (chain w)) (backend (chain w')) q n e (Err x)
    end
  else r = Ok tt ∧ s' = s.
Proof.
  intros w Hw Hn1 Hn Hts Hf Ha Hnew Hrun w'. revert Hrun. unfold work. unfold bind at 1, asks at 1.
  destruct (current_engine _ _ _ w eq_refl (wo_current _ _ _ Hw)) as [Hc _].
  fold w. change (@ConsensusSupport.get_current_state support w) with (default_current_state w). rewrite Hc, Ha.
  unfold bind at 1, try_panic, try, lift at 1. cbn [map_err].
  destruct (decide (address self = authority)) as [Heq|Hne].
  2: { rewrite decide_True by done. intros [= <- <-]. done. }
  rewrite decide_False by tauto. unfold bind at 1, on_support at 1. fold w.
  destruct (@prepare_block support ts w) as [[p|x] w1] eqn:Hp; cbn [map_err].
  2: { intros [= <- <-]. left. exact (eq_trans (f_equal (λ x, chain x.2) (eq_sym Hp)) (prepare_block_chain ts w)). }
  unfold bind at 1, asks at 1. cbn [PoaEngine.support].
  pose proof (prepare_block_prepared _ _ _ _ _ Hp) as Hprep. pose proof (pr_chain _ _ _ _ _ Hprep) as Hch.
  destruct (@ConsensusSupport.build_block support w1 p) as [q|x] eqn:Hq.
  2: { intros [= <- <-]. by left. }
  unfold bind at 1, try, lift at 1. cbn [map_err].
  destruct (proof_new (cb_block_hash q) (secret_key self)) as [pf|x] eqn:Hpf.
  2: { intros [= <- <-]. by left. }
  unfold bind at 1, lift at 1. cbn [map_err]. unfold bind at 1, on_support at 1. cbn [PoaEngine.support].
  destruct (@ConsensusSupport.commit_block support (with_proof (proof_try_into pf) q) w1) as [rc w2] eqn:Hcm.
  destruct (leader_turn D confined ts w p w1 q (proof_try_into pf) rc w2 n e Hw Hn1 Hts Hp Hq
    (Hnew _ _ _ eq_refl Hq) Hf Hcm) as (_ & Hext & H1 & H2 & H3 & H4 & H5).
  destruct rc as [[]|x]; cbn [map_err].
  2: { intros [= <- <-]. right. by exists (with_proof (proof_try_into pf) q), x. }
  destruct (H5 eq_refl) as (Htask & _ & Hw2). unfold on_support. intros [= <- <-].
  pose proof (eq_trans (f_equal (λ x, txpool x.2) (eq_sym Hcm)) (on_chain_pool _ w1)) as Hpool. cbn in Hpool.
  exists (with_proof (proof_try_into pf) q).
  exact (turn_done w w1 w2 ts n e p q pf _ Hw own_address Hpf eq_refl Hn Hpool Hprep Hext H1 H2 H3 H4 Htask Hw2).
Qed.
End Leader.

(** ** The authority of the sample chain *)
Module PoaSamples.
Import ChainSamples TrieSample.

#[local] Abbreviation sample := (default_support modules).
Definition alice_setup : Setup :=
  {| poa_meta := Poa.Build_Meta (Some 1000%Z); secret_key := alice; address := alice |}.
Definition sample_stream (s : Backend) : @PoaStream sample := @Build_PoaStream sample (world_of s) [].
#[local] Abbreviation now_ms := 1587051962999%Z.

(** What is computed of a turn. *)
Definition poa_turn_computed (s1 : Backend) : Prop :=
  @get_poa_authority _ sample (world_of s1) 0 = Some (Ok alice) ∧
  next_fault (db s1) = None ∧
  match @prepare_block sample now_ms (world_of s1) with
  | (Ok p, w1) => returns (@ConsensusSupport.build_block sample w1 p)
                    (λ q, get_header (cb_block_hash q) (db s1) = Ok None)
  | _ => False
  end ∧
  is_ok (@work _ sample alice_setup now_ms (sample_stream s1)).1 = true.

Lemma poa_turn_computes :
  succeeds (init_genesis modules (Some spec_text) new_node) poa_turn_computed.
Proof. vm_compute. repeat split. Qed.

Lemma alice_address : @get_address sample alice = Ok alice.
Proof. vm_compute. reflexivity. Qed.

Lemma poa_turn_extends_witness : ∃ (s1 : Backend) w' q,
  turn modules alice_setup (world_of s1) w' now_ms 0 0 q.
Proof.
  destruct run_exists as (s1 & q0 & s2 & s3 & R).
  destruct (succeeds_run _ _ poa_turn_computes) as (s1' & E1 & Ha & Hf & Hnew & Hwork).
  rewrite (run_genesis _ _ _ _ R) in E1. injection E1 as <-.
  destruct (@work _ sample alice_setup now_ms (sample_stream s1)) as [r s'] eqn:Hrun.
  assert (world_ok (world_of s1) 0 0) as Hw
    by (split; [exact (run_chain R)|exact (run_current R)|exact pool_wf]).
  pose proof (poa_turn_extends modules modules_confined alice_setup alice_address now_ms
    (sample_stream s1) s' 0 0 alice r Hw ltac:(done) ltac:(done) ltac:(done) Hf Ha) as H.
  cbn [fst] in Hwork. destruct r as [[]|x]; [|done].
  destruct (λ F, H F Hrun) as [q Hq]; [|by exists s1, (PoaEngine.support s'), q].
  intros p w1 q Hp Hq. destruct (@prepare_block sample now_ms (world_of s1)) as [[p'|] w1'] eqn:E; [|done].
  pose proof (eq_trans (eq_sym E) Hp) as Heq. injection Heq as <- <-.
  destruct (returns_run _ _ Hnew) as (q' & Hq' & Hh). pose proof (eq_trans (eq_sym Hq) Hq') as Heq.
  injection Heq as <-. exact Hh.
Defined.
End PoaSamples.
