(* ===== verification/PeerManager.v ===== *)
(** * PeerManager

    [core/node/peer-manager/src/lib.rs]: which peers the node keeps a
    connection with.  It holds the active peers, with a limited number of
    incoming and of outgoing ones, and the inactive ones, which it activates
    when there is room, reserved peers first. *)
From S2P Require Import Prelude Engine.

(** [linked_hash_map::LinkedHashMap], which holds its bindings in the order of
    their insertion; where it moves a key that is inserted again is left
    open. *)
Class LinkedHashMapLib : Type := {
  LinkedHashMap : Type → Type;
  lh_new : ∀ {V}, LinkedHashMap V;
  lh_insert : ∀ {V}, PeerId → V → LinkedHashMap V → LinkedHashMap V;
  lh_remove : ∀ {V}, PeerId → LinkedHashMap V → LinkedHashMap V;
  lh_iter : ∀ {V}, LinkedHashMap V → list (PeerId * V);
  lh_keys : ∀ {V} (m : LinkedHashMap V), NoDup (lh_iter m).*1;
  lh_iter_new : ∀ {V}, lh_iter (V := V) lh_new = [];
  lh_iter_remove : ∀ {V} k (m : LinkedHashMap V),
    lh_iter (lh_remove k m) = filter (λ kv, kv.1 ≠ k) (lh_iter m);
  lh_iter_insert : ∀ {V} k v (m : LinkedHashMap V), k ∉ (lh_iter m).*1 →
    lh_iter (lh_insert k v m) = lh_iter m ++ [(k, v)];
  lh_iter_replace : ∀ {V} k v (m : LinkedHashMap V),
    lh_iter (lh_insert k v m) ≡ₚ (k, v) :: filter (λ kv, kv.1 ≠ k) (lh_iter m);
}.

Module PeerManager.

Definition MIN_SCORE : Z := -100.

(** [u64] *)
Abbreviation IncomingId := Z.

Inductive PeerState := In | Out.
Inductive PeerType := Reserved | Normal.
Record PeerInfo := {
  peer_state : PeerState;
  peer_type : PeerType;
}.
#[export] Instance peer_state_eq_dec : EqDecision PeerState.
Proof. solve_decision. Defined.
#[export] Instance peer_type_eq_dec : EqDecision PeerType.
Proof. solve_decision. Defined.

Inductive OutMessage :=
| Connect (peer_id : PeerId)
| Drop (peer_id : PeerId)
| Accept (incoming_id : IncomingId)
| Reject (incoming_id : IncomingId).

Record PeerReport := {
  score_diff : Z;
  desc : string;
}.
(** [PeerReport::new_fatal] *)
Definition new_fatal (desc : string) : PeerReport := {| score_diff := MIN_SCORE; desc := desc |}.

Inductive InMessage :=
| AddReservedPeer (peer_id : PeerId)
| RemoveReservedPeer (peer_id : PeerId)
| SetReservedOnly (reserved_only : bool)
| ReportPeer (peer_id : PeerId) (report : PeerReport).

Section Manager.
Context {LH : LinkedHashMapLib}.

Definition lh_contains {V} (k : PeerId) (m : LinkedHashMap V) : bool := bool_decide (k ∈ (lh_iter m).*1).
Definition lh_get {V} (k : PeerId) (m : LinkedHashMap V) : option V :=
  snd <$> head (filter (λ kv, kv.1 = k) (lh_iter m)).

Record PeerManagerConfig := {
  max_in_peers : Z;
  max_out_peers : Z;
  bootnodes : LinkedHashMap unit;
  reserved : LinkedHashMap unit;
  reserved_only : bool;
}.

Record ActivePeers := {
  peers : LinkedHashMap PeerInfo;
  in_peers : Z;
  out_peers : Z;
}.

(** [struct InactivePeers] *)
Abbreviation InactivePeers := (LinkedHashMap unit).

Record PeerManager := {
  config : PeerManagerConfig;
  active : ActivePeers;
  inactive : InactivePeers;
  in_rx : list InMessage;
  out_messages : list OutMessage;
  scores : gmap PeerId Z;
}.

Definition with_config (x : PeerManagerConfig) (m : PeerManager) : PeerManager :=
  {| config := x; active := active m; inactive := inactive m; in_rx := in_rx m;
     out_messages := out_messages m; scores := scores m |}.
Definition with_active (x : ActivePeers) (m : PeerManager) : PeerManager :=
  {| config := config m; active := x; inactive := inactive m; in_rx := in_rx m;
     out_messages := out_messages m; scores := scores m |}.
Definition with_inactive (x : InactivePeers) (m : PeerManager) : PeerManager :=
  {| config := config m; active := active m; inactive := x; in_rx := in_rx m;
     out_messages := out_messages m; scores := scores m |}.
Definition with_in_rx (x : list InMessage) (m : PeerManager) : PeerManager :=
  {| config := config m; active := active m; inactive := inactive m; in_rx := x;
     out_messages := out_messages m; scores := scores m |}.
Definition with_out_messages (x : list OutMessage) (m : PeerManager) : PeerManager :=
  {| config := config m; active := active m; inactive := inactive m; in_rx := in_rx m;
     out_messages := x; scores := scores m |}.
Definition with_scores (x : gmap PeerId Z) (m : PeerManager) : PeerManager :=
  {| config := config m; active := active m; inactive := inactive m; in_rx := in_rx m;
     out_messages := out_messages m; scores := x |}.
Definition with_reserved (x : LinkedHashMap unit) (c : PeerManagerConfig) : PeerManagerConfig :=
  {| max_in_peers := max_in_peers c; max_out_peers := max_out_peers c; bootnodes := bootnodes c;
     reserved := x; reserved_only := reserved_only c |}.
Definition with_reserved_only (x : bool) (c : PeerManagerConfig) : PeerManagerConfig :=
  {| max_in_peers := max_in_peers c; max_out_peers := max_out_peers c; bootnodes := bootnodes c;
     reserved := reserved c; reserved_only := x |}.

(** *** [impl ActivePeers] *)
Inductive InsertPeerResult :=
| Inserted (peer_id : PeerId)
| Replaced (inserted removed : PeerId)
| Exist (peer_id : PeerId)
| Full (peer_id : PeerId).

(** The counters of incoming and outgoing peers, [+= 1] and [-= 1] in [u32]. *)
Definition count_in (d : Z) (s : PeerState) (n : Z) : Z := match s with In => u32 (n + d) | Out => n end.
Definition count_out (d : Z) (s : PeerState) (n : Z) : Z := match s with In => n | Out => u32 (n + d) end.

Definition add_active (peer_id : PeerId) (info : PeerInfo) (a : ActivePeers) : ActivePeers := {|
  peers := lh_insert peer_id info (peers a);
  in_peers := count_in 1 (peer_state info) (in_peers a);
  out_peers := count_out 1 (peer_state info) (out_peers a) |}.
Definition drop_active (peer_id : PeerId) (state : PeerState) (a : ActivePeers) : ActivePeers := {|
  peers := lh_remove peer_id (peers a);
  in_peers := count_in (-1) state (in_peers a);
  out_peers := count_out (-1) state (out_peers a) |}.

Definition replaceable (state : PeerState) (peer : PeerId * PeerInfo) : Prop :=
  peer_state peer.2 = state ∧ peer_type peer.2 = Normal.
#[export] Instance replaceable_dec state peer : Decision (replaceable state peer).
Proof. unfold replaceable. apply _. Defined.

Definition insert_peer (peer_id : PeerId) (peer_state : PeerState) (config : PeerManagerConfig)
    (a : ActivePeers) : InsertPeerResult * ActivePeers :=
  let peer_type := if lh_contains peer_id (reserved config) then Reserved else Normal in
  match lh_get peer_id (peers a) with
  | Some _ => (Exist peer_id, a)
  | None =>
      let exceed_max_peers :=
        match peer_state with
        | In => bool_decide (in_peers a >= max_in_peers config)%Z
        | Out => bool_decide (out_peers a >= max_out_peers config)%Z
        end in
      let info := {| PeerManager.peer_state := peer_state; peer_type := peer_type |} in
      if exceed_max_peers then
        match (if decide (peer_type = Reserved) then head (filter (replaceable peer_state) (lh_iter (peers a)))
               else None) with
        | Some (to_remove, to_remove_info) =>
            (Replaced peer_id to_remove,
             drop_active to_remove (PeerManager.peer_state to_remove_info) (add_active peer_id info a))
        | None => (Full peer_id, a)
        end
      else (Inserted peer_id, add_active peer_id info a)
  end.

Definition remove_peer (peer_id : PeerId) (a : ActivePeers) : ActivePeers :=
  match lh_get peer_id (peers a) with
  | Some info => drop_active peer_id (peer_state info) a
  | None => a
  end.

(** *** [impl InactivePeers] *)
Definition take_peer (config : PeerManagerConfig) (i : InactivePeers) : option (PeerId * InactivePeers) :=
  match head (filter (λ kv, lh_contains kv.1 (reserved config)) (lh_iter i)) with
  | Some (peer_id, _) => Some (peer_id, lh_remove peer_id i)
  | None =>
      if reserved_only config then None
      else
        match head (filter (λ kv, ¬ lh_contains kv.1 (reserved config)) (lh_iter i)) with
        | Some (peer_id, _) => Some (peer_id, lh_remove peer_id i)
        | None => None
        end
  end.

(** *** [impl PeerManager] *)
Definition send (x : OutMessage) (m : PeerManager) : PeerManager :=
  with_out_messages (out_messages m ++ [x]) m.
Definition inactive_insert (peer_id : PeerId) (m : PeerManager) : PeerManager :=
  with_inactive (lh_insert peer_id tt (inactive m)) m.
Definition inactive_remove (peer_id : PeerId) (m : PeerManager) : PeerManager :=
  with_inactive (lh_remove peer_id (inactive m)) m.
Definition active_remove (peer_id : PeerId) (m : PeerManager) : PeerManager :=
  with_active (remove_peer peer_id (active m)) m.

(** The [while let] of [activate]: a turn for each unit of fuel. *)
Fixpoint activate_loop (fuel : nat) (m : PeerManager) : PeerManager :=
  match fuel with
  | 0 => m
  | S fuel =>
      match take_peer (config m) (inactive m) with
      | None => m
      | Some (peer_id, rest) =>
          let m := with_inactive rest m in
          let '(r, a) := insert_peer peer_id Out (config m) (active m) in
          let m := with_active a m in
          match r with
          | Inserted peer_id => activate_loop fuel (send (Connect peer_id) m)
          | Replaced inserted removed =>
              activate_loop fuel (send (Drop removed) (send (Connect inserted) (inactive_insert removed m)))
          | Exist _ => activate_loop fuel m
          | Full peer_id => inactive_insert peer_id m
          end
      end
  end.

(** A turn takes an inactive peer, or an active one of type [Normal]. *)
Definition activate_fuel (m : PeerManager) : nat :=
  S (2 * length (lh_iter (inactive m)) +
     length (filter (λ kv, peer_type kv.2 = Normal) (lh_iter (peers (active m))))).
Definition activate (m : PeerManager) : PeerManager := activate_loop (activate_fuel m) m.

Definition new (config : PeerManagerConfig) : PeerManager :=
  activate {|
    config := config;
    active := {| peers := lh_new; in_peers := 0; out_peers := 0 |};
    inactive := foldl (λ i kv, lh_insert kv.1 tt i) lh_new
                  (lh_iter (reserved config) ++ lh_iter (bootnodes config));
    in_rx := [];
    out_messages := [];
    scores := ∅ |}.

Definition discovered (peer_id : PeerId) (m : PeerManager) : PeerManager :=
  if lh_contains peer_id (peers (active m)) then m
  else activate (inactive_insert peer_id m).

Definition dropped (peer_id : PeerId) (m : PeerManager) : PeerManager :=
  activate (inactive_insert peer_id (active_remove peer_id m)).

Definition incoming (peer_id : PeerId) (incoming_id : IncomingId) (m : PeerManager) : PeerManager :=
  if reserved_only (config m) && negb (lh_contains peer_id (reserved (config m)))
  then send (Reject incoming_id) m
  else
    let '(r, a) := insert_peer peer_id In (config m) (active m) in
    let m := with_active a m in
    match r with
    | Inserted peer_id => send (Accept incoming_id) (inactive_remove peer_id m)
    | Replaced inserted removed =>
        send (Drop removed) (send (Accept incoming_id)
          (inactive_insert removed (inactive_remove inserted m)))
    | Exist _ => send (Accept incoming_id) m
    | Full peer_id => send (Reject incoming_id) (inactive_insert peer_id m)
    end.

Definition on_add_reserved_peer (peer_id : PeerId) (m : PeerManager) : PeerManager :=
  let m := with_config (with_reserved (lh_insert peer_id tt (reserved (config m))) (config m)) m in
  if lh_contains peer_id (peers (active m)) then m
  else activate (inactive_insert peer_id m).

Definition drop_peer (peer_id : PeerId) (m : PeerManager) : PeerManager :=
  send (Drop peer_id) (inactive_insert peer_id (active_remove peer_id m)).

Definition on_remove_reserved_peer (peer_id : PeerId) (m : PeerManager) : PeerManager :=
  let m := with_config (with_reserved (lh_remove peer_id (reserved (config m))) (config m)) m in
  activate (if reserved_only (config m) then drop_peer peer_id m else m).

Definition on_set_reserved_only (only : bool) (m : PeerManager) : PeerManager :=
  let m := with_config (with_reserved_only only (config m)) m in
  activate
    (if reserved_only (config m) then
       let active_normal_peers :=
         filter (λ p, ¬ lh_contains p (reserved (config m))) (lh_iter (peers (active m))).*1 in
       foldl (λ m peer_id, drop_peer peer_id m) m active_normal_peers
     else m).

(** [i32::checked_add], and the bound on the side of the overflow. *)
Definition add_score (score score_diff : Z) : Z :=
  if decide (- 2 ^ 31 ≤ score + score_diff < 2 ^ 31)%Z then (score + score_diff)%Z
  else if decide (score_diff >= 0)%Z then (2 ^ 31 - 1)%Z else (- 2 ^ 31)%Z.

Definition on_report_peer (peer_id : PeerId) (peer_report : PeerReport) (m : PeerManager) : PeerManager :=
  let new_score :=
    match scores m !! peer_id with
    | None => score_diff peer_report
    | Some v => add_score v (score_diff peer_report)
    end in
  let m := with_scores (<[peer_id := new_score]> (scores m)) m in
  if decide (new_score < MIN_SCORE)%Z then
    let is_active := lh_contains peer_id (peers (active m)) in
    let m := inactive_remove peer_id (active_remove peer_id m) in
    activate (if is_active : bool then send (Drop peer_id) m else m)
  else m.

Definition on_in_message (x : InMessage) (m : PeerManager) : PeerManager :=
  match x with
  | AddReservedPeer peer_id => on_add_reserved_peer peer_id m
  | RemoveReservedPeer peer_id => on_remove_reserved_peer peer_id m
  | SetReservedOnly reserved => on_set_reserved_only reserved m
  | ReportPeer peer_id report => on_report_peer peer_id report m
  end.

(** [poll_next]: the next message, handling what has come in until there is
    one. *)
Fixpoint poll_loop (rx : list InMessage) (m : PeerManager) : option OutMessage * PeerManager :=
  match out_messages m with
  | x :: rest => (Some x, with_in_rx rx (with_out_messages rest m))
  | [] =>
      match rx with
      | [] => (None, with_in_rx [] m)
      | x :: rx => poll_loop rx (on_in_message x m)
      end
  end.
Definition poll_next (m : PeerManager) : option OutMessage * PeerManager := poll_loop (in_rx m) m.

(** The calls. *)
Inductive Op :=
| OpDiscovered (peer_id : PeerId)
| OpDropped (peer_id : PeerId)
| OpIncoming (peer_id : PeerId) (incoming_id : IncomingId)
| OpMessage (x : InMessage).
Definition run_op (o : Op) (m : PeerManager) : PeerManager :=
  match o with
  | OpDiscovered p => discovered p m
  | OpDropped p => dropped p m
  | OpIncoming p i => incoming p i m
  | OpMessage x => on_in_message x m
  end.
End Manager.
End PeerManager.
