(* ===== verification/PeerManagerProofs.v ===== *)
(** * PeerManagerProofs

    The slots of the peer manager are counted and bounded, its messages tell
    the network exactly which peers are active, and it activates as many
    peers as it may. *)
From S2P Require Import Prelude Engine PeerManager.
Import PeerManager.

Section Lists.
Context {LH : LinkedHashMapLib} {V : Type}.
Implicit Types (m : LinkedHashMap V) (l : list (PeerId * V)).

Lemma keys_elem l k v : (k, v) ∈ l → k ∈ l.*1.
Proof. intros H. apply list_elem_of_fmap. by exists (k, v). Qed.

Lemma lh_contains_spec k m : lh_contains k m = true ↔ k ∈ (lh_iter m).*1.
Proof. unfold lh_contains. by rewrite bool_decide_eq_true. Qed.

Lemma lh_get_Some k v m : lh_get k m = Some v → (k, v) ∈ lh_iter m.
Proof.
  unfold lh_get. destruct (filter _ _) as [|[k' v'] l] eqn:E; [done|]. intros [= <-].
  assert ((k', v') ∈ filter (λ kv : PeerId * V, kv.1 = k) (lh_iter m)) as H by (rewrite E; left).
  apply list_elem_of_filter in H as [<- H]. done.
Qed.
Lemma lh_get_None k m : lh_get k m = None → k ∉ (lh_iter m).*1.
Proof.
  unfold lh_get. destruct (filter _ _) as [|x l] eqn:E; [|done]. intros _ ([k' v] & -> & Hin)%list_elem_of_fmap.
  assert ((k', v) ∈ filter (λ kv : PeerId * V, kv.1 = k') (lh_iter m)) as H by (by apply list_elem_of_filter).
  cbn in *. rewrite E in H. by apply not_elem_of_nil in H.
Qed.

(** A binding and the other ones. *)
Lemma filter_key_perm l k v : NoDup l.*1 → (k, v) ∈ l → l ≡ₚ (k, v) :: filter (λ kv, kv.1 ≠ k) l.
Proof.
  induction l as [|[k' v'] l IH]; [by intros _ ?%not_elem_of_nil|]. rewrite fmap_cons.
  intros [Hn Hnd]%NoDup_cons [[= <- <-]|Hin]%elem_of_cons; rewrite filter_cons; cbn.
  - rewrite decide_False by tauto. constructor. cbn in Hn.
    assert (filter (λ kv : PeerId * V, kv.1 ≠ k) l = l) as ->; [|done].
    clear -Hn. induction l as [|[k' v'] l IH]; [done|]. rewrite filter_cons. cbn in *.
    rewrite decide_True by (intros ->; apply Hn; left). rewrite IH; [done|]. intros H. apply Hn. by right.
  - rewrite decide_True; [|intros ->; apply Hn; by eapply keys_elem]. rewrite (IH Hnd Hin) at 1. constructor.
Qed.

Lemma lh_iter_remove_perm k v m : (k, v) ∈ lh_iter m → lh_iter m ≡ₚ (k, v) :: lh_iter (lh_remove k m).
Proof. intros H. rewrite lh_iter_remove. apply filter_key_perm; [apply lh_keys|done]. Qed.

Lemma lh_keys_remove p k m : p ∈ (lh_iter (lh_remove k m)).*1 ↔ p ≠ k ∧ p ∈ (lh_iter m).*1.
Proof.
  rewrite lh_iter_remove, !list_elem_of_fmap. split.
  - intros ([p' v] & -> & [Hne Hin]%list_elem_of_filter). split; [done|]. by exists (p', v).
  - intros (Hne & [p' v] & -> & Hin). exists (p', v). split; [done|]. by apply list_elem_of_filter.
Qed.
Lemma lh_keys_insert p k v m : p ∈ (lh_iter (lh_insert k v m)).*1 ↔ p = k ∨ p ∈ (lh_iter m).*1.
Proof.
  rewrite lh_iter_replace, fmap_cons, elem_of_cons. cbn. pose proof (lh_keys_remove p k m) as H.
  rewrite lh_iter_remove in H. rewrite H. destruct (decide (p = k)); naive_solver.
Qed.
Lemma lh_insert_length k v m : k ∉ (lh_iter m).*1 → length (lh_iter (lh_insert k v m)) = S (length (lh_iter m)).
Proof. intros H. rewrite lh_iter_insert, length_app by done. cbn. lia. Qed.
Lemma lh_insert_length_le k v m : length (lh_iter (lh_insert k v m)) ≤ S (length (lh_iter m)).
Proof. rewrite lh_iter_replace. cbn. apply le_n_S, length_filter. Qed.
End Lists.

(** The active and the inactive peers. *)
Abbreviation active_keys m := (lh_iter (peers (active m))).*1.
Abbreviation inactive_keys m := (lh_iter (inactive m)).*1.

Section Manager.
Context {LH : LinkedHashMapLib}.

(** ** The counters *)

Definition count (s : PeerState) (l : list (PeerId * PeerInfo)) : Z :=
  Z.of_nat (length (filter (λ kv, peer_state kv.2 = s) l)).

#[local] Instance count_perm s : Proper (Permutation ==> eq) (count s).
Proof. intros l l' H. unfold count. by rewrite H. Qed.

Lemma count_cons s x l : count s (x :: l) = ((if decide (peer_state x.2 = s) then 1 else 0) + count s l)%Z.
Proof. unfold count. rewrite filter_cons. case_decide; cbn [length]; lia. Qed.
Lemma count_nonneg s l : (0 ≤ count s l)%Z.
Proof. unfold count. lia. Qed.

(** Both counters say how many peers of their state are active, and both are
    within the limits. *)
Record counted (c : PeerManagerConfig) (a : ActivePeers) : Prop := {
  cn_in : in_peers a = count In (lh_iter (peers a));
  cn_out : out_peers a = count Out (lh_iter (peers a));
  cn_max_in : (count In (lh_iter (peers a)) ≤ max_in_peers c)%Z;
  cn_max_out : (count Out (lh_iter (peers a)) ≤ max_out_peers c)%Z;
  cn_u32 : is_u32 (max_in_peers c) ∧ is_u32 (max_out_peers c);
}.

Definition limit (s : PeerState) (c : PeerManagerConfig) : Z :=
  match s with In => max_in_peers c | Out => max_out_peers c end.

Lemma counted_max c a s : counted c a → (count s (lh_iter (peers a)) ≤ limit s c)%Z.
Proof. intros []. by destruct s. Qed.

Lemma add_counted c a k i : counted c a → k ∉ (lh_iter (peers a)).*1 →
  (count (peer_state i) (lh_iter (peers a)) < limit (peer_state i) c)%Z →
  counted c (add_active k i a).
Proof.
  intros [Hi Ho Hmi Hmo [Hu1 Hu2]] Hk Hlt. unfold is_u32 in *.
  pose proof (count_nonneg In (lh_iter (peers a))). pose proof (count_nonneg Out (lh_iter (peers a))).
  split; cbn; try done; rewrite lh_iter_insert, <-Permutation_cons_append, count_cons by done; cbn;
    destruct (peer_state i); cbn in *; repeat case_decide; try done; rewrite ?u32_id by (unfold is_u32; lia); lia.
Qed.

Lemma drop_counted c a k i : (k, i) ∈ lh_iter (peers a) →
  in_peers a = u32 (count In (lh_iter (peers a))) → out_peers a = u32 (count Out (lh_iter (peers a))) →
  is_u32 (max_in_peers c) ∧ is_u32 (max_out_peers c) →
  let l := lh_iter (lh_remove k (peers a)) in
  (count In l ≤ max_in_peers c)%Z → (count Out l ≤ max_out_peers c)%Z →
  counted c (drop_active k (peer_state i) a).
Proof.
  intros Hin Hi Ho [Hu1 Hu2] l Hli Hlo. unfold is_u32 in *.
  pose proof (lh_iter_remove_perm _ _ _ Hin) as Hp. rewrite Hp, count_cons in Hi, Ho. cbn in Hi, Ho.
  pose proof (count_nonneg In l). pose proof (count_nonneg Out l). fold l in Hi, Ho.
  split; cbn; fold l; try done.
  - destruct (peer_state i); cbn in *; rewrite Hi; unfold u32; repeat case_decide; try done.
    + rewrite Zplus_mod_idemp_l. rewrite Z.mod_small; lia.
    + rewrite Z.mod_small; lia.
  - destruct (peer_state i); cbn in *; rewrite Ho; unfold u32; repeat case_decide; try done.
    + rewrite Z.mod_small; lia.
    + rewrite Zplus_mod_idemp_l. rewrite Z.mod_small; lia.
Qed.

(** A peer takes the slot of another one of its state. *)
Lemma replace_counted c a k q i i' : counted c a → k ∉ (lh_iter (peers a)).*1 →
  (q, i) ∈ lh_iter (peers a) → peer_state i' = peer_state i →
  counted c (drop_active q (peer_state i) (add_active k i' a)).
Proof.
  intros [Hi Ho Hmi Hmo Hu] Hk Hq Hs. pose proof (filter_key_perm _ _ _ (lh_keys _) Hq) as Hp.
  assert ((q, i) ∈ lh_iter (lh_insert k i' (peers a))) as Hq' by (rewrite lh_iter_insert by done; set_solver).
  pose proof (lh_iter_remove_perm _ _ _ Hq') as Hp'. rewrite lh_iter_insert in Hp' at 1 by done.
  rewrite <-Permutation_cons_append in Hp'.
  assert (∀ s, count s (lh_iter (lh_remove q (lh_insert k i' (peers a)))) = count s (lh_iter (peers a))) as Hc.
  { intros s. pose proof (count_perm s _ _ Hp') as Hcp. rewrite !count_cons in Hcp. cbn in Hcp. rewrite Hs in Hcp. lia. }
  apply (drop_counted c (add_active k i' a) q i); cbn; rewrite ?Hc; try done.
  all: rewrite lh_iter_insert, <-Permutation_cons_append, count_cons by done; cbn; rewrite Hs.
  all: destruct Hu as [Hu1 Hu2]; unfold is_u32 in *.
  all: pose proof (count_nonneg In (lh_iter (peers a))); pose proof (count_nonneg Out (lh_iter (peers a))).
  all: destruct (peer_state i); cbn; repeat case_decide; try done; rewrite ?Hi, ?Ho; try (by f_equal; lia).
  all: rewrite u32_id; [done|unfold is_u32; lia].
Qed.

Lemma remove_counted c a p : counted c a → counted c (remove_peer p a).
Proof.
  intros H. unfold remove_peer. destruct (lh_get p (peers a)) as [i|] eqn:E; [|done].
  apply lh_get_Some in E. pose proof H as [Hi Ho Hmi Hmo [Hu1 Hu2]]. unfold is_u32 in *.
  pose proof (lh_iter_remove_perm _ _ _ E) as Hp.
  pose proof (count_nonneg In (lh_iter (peers a))). pose proof (count_nonneg Out (lh_iter (peers a))).
  apply (drop_counted c a p i E); rewrite ?u32_id by (unfold is_u32; lia); try done.
  all: rewrite Hp, count_cons in Hmi, Hmo; cbn in *; repeat case_decide; lia.
Qed.

Lemma remove_peer_iter p a : lh_iter (peers (remove_peer p a)) = filter (λ kv, kv.1 ≠ p) (lh_iter (peers a)).
Proof.
  unfold remove_peer. destruct (lh_get p (peers a)) as [i|] eqn:E; [apply lh_iter_remove|].
  apply lh_get_None in E. revert E. generalize (lh_iter (peers a)). intros l.
  induction l as [|[k v] l IH]; [done|]. rewrite fmap_cons, not_elem_of_cons. intros [Hne Hn].
  rewrite filter_cons, decide_True by (cbn in *; congruence). by rewrite <-IH.
Qed.

(** ** The outcomes of an insertion *)

Definition new_info (c : PeerManagerConfig) (k : PeerId) (s : PeerState) : PeerInfo :=
  {| peer_state := s; peer_type := if lh_contains k (reserved c) then Reserved else Normal |}.

Definition insert_outcome (c : PeerManagerConfig) (k : PeerId) (s : PeerState) (a : ActivePeers)
    (r : InsertPeerResult) (a' : ActivePeers) : Prop :=
  match r with
  | Exist k' => k' = k ∧ a' = a ∧ k ∈ (lh_iter (peers a)).*1
  | Full k' => k' = k ∧ a' = a ∧ (k ∉ (lh_iter (peers a)).*1) ∧
      count s (lh_iter (peers a)) = limit s c ∧
      (lh_contains k (reserved c) = true → ∀ x, x ∈ lh_iter (peers a) → ¬ replaceable s x)
  | Inserted k' => k' = k ∧ (k ∉ (lh_iter (peers a)).*1) ∧ counted c a' ∧
      lh_iter (peers a') = lh_iter (peers a) ++ [(k, new_info c k s)]
  | Replaced k' q => k' = k ∧ (k ∉ (lh_iter (peers a)).*1) ∧ lh_contains k (reserved c) = true ∧ counted c a' ∧
      ∃ i, (q, i) ∈ lh_iter (peers a) ∧ replaceable s (q, i) ∧
        lh_iter (peers a') = filter (λ kv, kv.1 ≠ q) (lh_iter (peers a) ++ [(k, new_info c k s)])
  end.

Lemma exceed_spec c a s : counted c a →
  match s with
  | In => bool_decide (in_peers a >= max_in_peers c)%Z
  | Out => bool_decide (out_peers a >= max_out_peers c)%Z
  end = bool_decide (count s (lh_iter (peers a)) = limit s c).
Proof. intros [-> -> H1 H2 _]. destruct s; cbn; apply bool_decide_ext; lia. Qed.

Lemma insert_peer_spec c a k s : counted c a →
  let '(r, a') := insert_peer k s c a in insert_outcome c k s a r a'.
Proof.
  intros H. unfold insert_peer. destruct (lh_get k (peers a)) as [i|] eqn:E.
  { apply lh_get_Some, keys_elem in E. done. }
  apply lh_get_None in E. rewrite (exceed_spec c a s H).
  change {| peer_state := s; peer_type := _ |} with (new_info c k s).
  pose proof (counted_max c a s H) as Hmax.
  case_bool_decide as Hfull; [|cbn; split_and!; [done|done| |by apply lh_iter_insert]].
  2: { apply add_counted; [done|done|]. cbn. lia. }
  case_decide as Hr.
  - assert (lh_contains k (reserved c) = true) as Hres by (by destruct (lh_contains k (reserved c))).
    destruct (filter (replaceable s) _) as [|[q i] rest] eqn:Ef; cbn.
    { split_and!; try done. intros _ x Hx Hrep.
      assert (x ∈ filter (replaceable s) (lh_iter (peers a))) as Hin by (by apply list_elem_of_filter).
      rewrite Ef in Hin. by apply not_elem_of_nil in Hin. }
    assert ((q, i) ∈ filter (replaceable s) (lh_iter (peers a))) as [Hrep Hin]%list_elem_of_filter
      by (rewrite Ef; left).
    split_and!; [done..| |exists i; split_and!; [done|done|by rewrite lh_iter_remove, lh_iter_insert]].
    apply replace_counted; try done. symmetry. apply Hrep.
  - split_and!; try done. intros Hres. by rewrite Hres in Hr.
Qed.

(** ** The invariant *)


Record manager_ok (m : PeerManager) : Prop := {
  mo_counted : counted (config m) (active m);
  mo_disjoint : ∀ p, p ∈ active_keys m → p ∉ inactive_keys m;
  mo_reserved : reserved_only (config m) = true → ∀ p, p ∈ active_keys m →
    lh_contains p (reserved (config m)) = true;
}.

(** What the network makes of a message: the peers it is to be connected
    with, where the incoming peer of the call is [p]. *)
Definition mirror (p : PeerId) (s : gset PeerId) (x : OutMessage) : gset PeerId :=
  match x with
  | Connect q => {[q]} ∪ s
  | Drop q => s ∖ {[q]}
  | Accept _ => {[p]} ∪ s
  | Reject _ => s
  end.
Definition active_set (m : PeerManager) : gset PeerId := list_to_set (active_keys m).

(** The messages sent from one state to another mirror what was activated. *)
Definition mirrored (p : PeerId) (m m' : PeerManager) : Prop :=
  ∃ xs, out_messages m' = out_messages m ++ xs ∧
    active_set m' = foldl (mirror p) (active_set m) xs.

Lemma mirrored_refl p m m' : out_messages m' = out_messages m → active m' = active m → mirrored p m m'.
Proof. intros Ho Ha. exists []. by rewrite app_nil_r, Ho; unfold active_set; rewrite Ha. Qed.
Lemma mirrored_trans p m1 m2 m3 : mirrored p m1 m2 → mirrored p m2 m3 → mirrored p m1 m3.
Proof.
  intros (x1 & Ho1 & Ha1) (x2 & Ho2 & Ha2). exists (x1 ++ x2).
  by rewrite Ho2, Ho1, app_assoc, Ha2, Ha1, foldl_app.
Qed.

Lemma active_set_elem p m : p ∈ active_set m ↔ p ∈ active_keys m.
Proof. unfold active_set. by rewrite elem_of_list_to_set. Qed.

Lemma keys_snoc (l : list (PeerId * PeerInfo)) k i p : p ∈ (l ++ [(k, i)]).*1 ↔ p = k ∨ p ∈ l.*1.
Proof. rewrite fmap_app, elem_of_app. cbn. rewrite list_elem_of_singleton. tauto. Qed.
Lemma keys_filter {V} (l : list (PeerId * V)) q p : p ∈ (filter (λ kv, kv.1 ≠ q) l).*1 ↔ p ≠ q ∧ p ∈ l.*1.
Proof.
  rewrite !list_elem_of_fmap. split.
  - intros ([p' v] & -> & [Hne Hin]%list_elem_of_filter). split; [done|]. by exists (p', v).
  - intros (Hne & [p' v] & -> & Hin). exists (p', v). split; [done|]. by apply list_elem_of_filter.
Qed.

(** *** The peers that are taken *)
Definition eligible (c : PeerManagerConfig) (p : PeerId) : Prop :=
  lh_contains p (reserved c) = true ∨ reserved_only c = false.

Lemma take_peer_spec c (i : LinkedHashMap unit) :
  match take_peer c i with
  | Some (p, i') => i' = lh_remove p i ∧ p ∈ (lh_iter i).*1 ∧ eligible c p ∧
      (lh_contains p (reserved c) = false → ∀ q, q ∈ (lh_iter i).*1 → lh_contains q (reserved c) = false)
  | None => ∀ p, p ∈ (lh_iter i).*1 → ¬ eligible c p
  end.
Proof.
  unfold take_peer, eligible. set (F1 := filter (λ kv : PeerId * unit, lh_contains kv.1 (reserved c)) (lh_iter i)).
  set (F2 := filter (λ kv : PeerId * unit, ¬ lh_contains kv.1 (reserved c)) (lh_iter i)).
  destruct F1 as [|[p u] l] eqn:E1; cbn [head].
  - assert (∀ q, q ∈ (lh_iter i).*1 → lh_contains q (reserved c) = false) as Hn.
    { intros q ([q' u] & -> & Hin)%list_elem_of_fmap. destruct (lh_contains _ _) eqn:E; [|done].
      assert ((q', u) ∈ F1) as H by (apply list_elem_of_filter; by rewrite E).
      rewrite E1 in H. by apply not_elem_of_nil in H. }
    destruct (reserved_only c) eqn:Hr; [intros p Hp [H|H]; [rewrite Hn in H|]; done|].
    destruct F2 as [|[p u] l] eqn:E2; cbn [head].
    + intros p ([q' u] & -> & Hin)%list_elem_of_fmap _.
      assert ((q', u) ∈ F2) as H by (apply list_elem_of_filter; cbn; rewrite Hn by (by eapply keys_elem); split; [by intros []|done]).
      rewrite E2 in H. by apply not_elem_of_nil in H.
    + assert ((p, u) ∈ F2) as [_ Hin]%list_elem_of_filter by (rewrite E2; left).
      split_and!; [done|by eapply keys_elem|by right|done].
  - assert ((p, u) ∈ F1) as [Hres Hin]%list_elem_of_filter by (rewrite E1; left). cbn in Hres.
    apply Is_true_true in Hres. split_and!; [done|by eapply keys_elem|by left|by rewrite Hres].
Qed.

(** *** A turn of [activate] *)

Definition normals (m : PeerManager) : nat :=
  length (filter (λ kv, peer_type kv.2 = Normal) (lh_iter (peers (active m)))).
Definition measure (m : PeerManager) : nat := 2 * length (lh_iter (inactive m)) + normals m.

Lemma length_remove_key (i : LinkedHashMap unit) p : p ∈ (lh_iter i).*1 →
  S (length (lh_iter (lh_remove p i))) = length (lh_iter i).
Proof.
  intros ([p' u] & -> & Hin)%list_elem_of_fmap. by rewrite (lh_iter_remove_perm _ _ _ Hin).
Qed.

(** No peer can be activated: none may be, or the slots of outgoing peers are
    taken, by reserved peers as far as one of the inactive peers is reserved. *)
Definition saturated (m : PeerManager) : Prop :=
  (∀ p, p ∈ inactive_keys m → ¬ eligible (config m) p) ∨
  (count Out (lh_iter (peers (active m))) = max_out_peers (config m) ∧
   ∀ p, p ∈ inactive_keys m → lh_contains p (reserved (config m)) = true →
     ∀ x, x ∈ lh_iter (peers (active m)) → ¬ replaceable Out x).

Lemma activate_inserted x m p a : manager_ok m → p ∈ inactive_keys m → eligible (config m) p →
  insert_outcome (config m) p Out (active m) (Inserted p) a →
  let m' := send (Connect p) (with_active a (with_inactive (lh_remove p (inactive m)) m)) in
  manager_ok m' ∧ mirrored x m m' ∧ measure m' < measure m.
Proof.
  intros [Hc Hd Hr] Hp He (_ & Hn & Ha & Hl) m'. split_and!.
  - split; cbn; [done| |].
    + intros q. rewrite Hl, keys_snoc, lh_keys_remove. intros [->|Hq] [Hne Hi]; [done|by eapply Hd].
    + intros Hro q. rewrite Hl, keys_snoc. intros [->|Hq]; [|by apply Hr]. destruct He; [done|congruence].
  - exists [Connect p]. split; [done|]. apply set_eq. intros q. cbn.
    rewrite elem_of_union, elem_of_singleton, !active_set_elem. cbn. by rewrite Hl, keys_snoc.
  - unfold measure, normals. cbn. rewrite Hl, filter_app, length_app, filter_cons, filter_nil.
    pose proof (length_remove_key _ _ Hp). case_decide; cbn; lia.
Qed.

Lemma filter_snoc_ne (l : list (PeerId * PeerInfo)) q k i : k ≠ q →
  filter (λ kv, kv.1 ≠ q) (l ++ [(k, i)]) = filter (λ kv, kv.1 ≠ q) l ++ [(k, i)].
Proof. intros Hne. rewrite filter_app, (filter_cons _ (k, i)), decide_True by done. by rewrite filter_nil. Qed.

Lemma activate_replaced x m p q a : manager_ok m → p ∈ inactive_keys m → eligible (config m) p →
  insert_outcome (config m) p Out (active m) (Replaced p q) a →
  let m' := send (Drop q) (send (Connect p)
              (inactive_insert q (with_active a (with_inactive (lh_remove p (inactive m)) m)))) in
  manager_ok m' ∧ mirrored x m m' ∧ measure m' < measure m.
Proof.
  intros [Hc Hd Hr] Hp He (_ & Hn & Hres & Ha & i & Hq & [_ Hrep] & Hl) m'.
  assert (p ≠ q) as Hne by (intros ->; apply Hn; by eapply keys_elem).
  assert (q ∉ inactive_keys m) as Hqi by (apply Hd; by eapply keys_elem).
  split_and!.
  - split; cbn; [done| |].
    + intros y. rewrite Hl, keys_filter, keys_snoc, lh_keys_insert, lh_keys_remove.
      intros [Hyq [->|Hy]] [->|[Hyp Hyi]]; [done|done|done|by eapply Hd].
    + intros Hro y. rewrite Hl, keys_filter, keys_snoc. intros [_ [->|Hy]]; [done|by apply Hr].
  - exists [Connect p; Drop q]. split; [cbn; by rewrite <-app_assoc|]. apply set_eq. intros y. cbn.
    rewrite elem_of_difference, elem_of_union, !elem_of_singleton, !active_set_elem. cbn.
    rewrite Hl, keys_filter, keys_snoc. tauto.
  - unfold measure, normals. cbn. rewrite Hl, filter_snoc_ne by done.
    pose proof (length_remove_key _ _ Hp). pose proof (lh_insert_length_le q tt (lh_remove p (inactive m))).
    pose proof (filter_key_perm _ _ _ (lh_keys _) Hq) as Hperm. rewrite Hperm at 2.
    rewrite filter_app, length_app, (filter_cons _ (q, i)), decide_True by done.
    rewrite filter_cons, decide_False, filter_nil by (cbn; by rewrite Hres). cbn. lia.
Qed.

Lemma activate_full x m p a : manager_ok m → p ∈ inactive_keys m →
  (lh_contains p (reserved (config m)) = false → ∀ q, q ∈ inactive_keys m → lh_contains q (reserved (config m)) = false) →
  insert_outcome (config m) p Out (active m) (Full p) a →
  let m' := inactive_insert p (with_active a (with_inactive (lh_remove p (inactive m)) m)) in
  manager_ok m' ∧ mirrored x m m' ∧ saturated m'.
Proof.
  intros [Hc Hd Hr] Hp Hres (_ & -> & Hn & Hlim & Hrep) m'.
  assert (∀ q, q ∈ inactive_keys m' ↔ q ∈ inactive_keys m) as Hi.
  { intros q. cbn. rewrite lh_keys_insert, lh_keys_remove. destruct (decide (q = p)) as [->|]; naive_solver. }
  split_and!; [split; cbn; [done| |done]|by apply mirrored_refl|].
  - intros q Hq Hqi. by apply (Hd q Hq), Hi.
  - right. split; [exact Hlim|]. intros q Hq%Hi Hqr. cbn. apply Hrep.
    destruct (lh_contains p (reserved (config m))) eqn:E; [done|]. pose proof (Hres eq_refl q Hq). cbn in Hqr. congruence.
Qed.

(** With enough fuel the loop is left: nothing more can be activated, and more
    fuel changes nothing. *)
Lemma activate_loop_spec x n m : manager_ok m → measure m < n →
  manager_ok (activate_loop n m) ∧ mirrored x m (activate_loop n m) ∧ saturated (activate_loop n m) ∧
  config (activate_loop n m) = config m ∧
  ∀ n', n ≤ n' → activate_loop n' m = activate_loop n m.
Proof.
  revert m. induction n as [|n IH]; intros m Hok Hn; [lia|]. cbn [activate_loop].
  pose proof (take_peer_spec (config m) (inactive m)) as Ht.
  destruct (take_peer (config m) (inactive m)) as [[p rest]|] eqn:Et.
  2: { split_and!; [done|by apply mirrored_refl|by left|done|]. intros [|n'] ?; [lia|]. cbn. by rewrite Et. }
  destruct Ht as (-> & Hp & He & Hres). cbn [config active with_inactive].
  pose proof (insert_peer_spec (config m) (active m) p Out (mo_counted m Hok)) as Hi.
  destruct (insert_peer p Out (config m) (active m)) as [r a] eqn:Ei.
  assert (∀ m', manager_ok m' ∧ mirrored x m m' ∧ measure m' < measure m → config m' = config m →
    manager_ok (activate_loop n m') ∧ mirrored x m (activate_loop n m') ∧ saturated (activate_loop n m') ∧
    config (activate_loop n m') = config m ∧ ∀ n', n ≤ n' → activate_loop n' m' = activate_loop n m') as Hstep.
  { intros m' (Hok' & Hm' & Hlt) Hcfg. destruct (IH m' Hok') as (H1 & H2 & H3 & H4 & H5); [lia|].
    split_and!; [done|by eapply mirrored_trans|done|congruence|done]. }
  destruct r as [k|k q|k|k]; pose proof Hi as (-> & _).
  - destruct (Hstep _ (activate_inserted x m p a Hok Hp He Hi) eq_refl) as (? & ? & ? & ? & H5).
    split_and!; try done. intros [|n'] ?; [lia|]. cbn. rewrite Et. cbn. rewrite Ei. apply H5. lia.
  - destruct (Hstep _ (activate_replaced x m p q a Hok Hp He Hi) eq_refl) as (? & ? & ? & ? & H5).
    split_and!; try done. intros [|n'] ?; [lia|]. cbn. rewrite Et. cbn. rewrite Ei. apply H5. lia.
  - destruct Hi as (_ & _ & Hk). by destruct (mo_disjoint m Hok p Hk).
  - destruct (activate_full x m p a Hok Hp Hres Hi) as (? & ? & ?).
    split_and!; try done. intros [|n'] ?; [lia|]. cbn. rewrite Et. cbn. by rewrite Ei.
Qed.

Lemma activate_spec x m : manager_ok m →
  manager_ok (activate m) ∧ mirrored x m (activate m) ∧ saturated (activate m) ∧ config (activate m) = config m.
Proof.
  intros Hok. destruct (activate_loop_spec x (activate_fuel m) m Hok) as (? & ? & ? & ? & _); [|done].
  unfold activate_fuel, measure, normals. lia.
Qed.

(** ** The calls *)

Lemma retire_spec p m : manager_ok m →
  let m' := inactive_insert p (active_remove p m) in
  manager_ok m' ∧ active_set m' = active_set m ∖ {[p]} ∧ out_messages m' = out_messages m.
Proof.
  intros [Hc Hd Hr] m'. split_and!; [split; cbn|apply set_eq; intros q|done].
  - by apply remove_counted.
  - intros q. rewrite remove_peer_iter, keys_filter, lh_keys_insert. intros [Hne Hq] [->|Hi]; [done|by eapply Hd].
  - intros Hro q. rewrite remove_peer_iter, keys_filter. intros [_ Hq]. by apply Hr.
  - rewrite elem_of_difference, elem_of_singleton, !active_set_elem. cbn.
    rewrite remove_peer_iter, keys_filter. tauto.
Qed.

Lemma inactive_insert_spec p m : manager_ok m → p ∉ active_keys m → manager_ok (inactive_insert p m).
Proof.
  intros [Hc Hd Hr] Hp. split; cbn; [done| |done]. intros q Hq. rewrite lh_keys_insert.
  intros [->|Hi]; [done|by eapply Hd].
Qed.
Lemma inactive_remove_spec p m : manager_ok m → manager_ok (inactive_remove p m).
Proof.
  intros [Hc Hd Hr]. split; cbn; [done| |done]. intros q Hq. rewrite lh_keys_remove. intros [_ Hi]. by eapply Hd.
Qed.
Lemma send_ok x m : manager_ok m → manager_ok (send x m).
Proof. intros []. by split. Qed.

(** A peer that is dropped. *)
Lemma drop_peer_spec x p m : manager_ok m → manager_ok (drop_peer p m) ∧ mirrored x m (drop_peer p m).
Proof.
  intros Hok. destruct (retire_spec p m Hok) as (Hok' & Ha & Ho). split; [by apply send_ok|].
  exists [Drop p]. split; [cbn; by rewrite <-Ho|]. exact Ha.
Qed.

Lemma drop_peers_spec x ps m : manager_ok m →
  let m' := foldl (λ m p, drop_peer p m) m ps in
  manager_ok m' ∧ mirrored x m m' ∧ (∀ q, q ∈ active_keys m' → q ∈ active_keys m ∧ q ∉ ps) ∧ config m' = config m.
Proof.
  revert m. induction ps as [|p ps IH]; intros m Hok; cbn.
  { split_and!; [done|by apply mirrored_refl| |done]. intros q Hq. split; [done|by apply not_elem_of_nil]. }
  destruct (drop_peer_spec x p m Hok) as [Hok' Hm]. destruct (IH _ Hok') as (? & Hm' & Hk & Hc).
  split_and!; [done|by eapply mirrored_trans| |by rewrite Hc]. intros q [Hq Hn]%Hk.
  cbn in Hq. rewrite remove_peer_iter, keys_filter in Hq. split; [by apply Hq|].
  apply not_elem_of_cons. by split; [apply Hq|].
Qed.

Definition same_limits (c c' : PeerManagerConfig) : Prop :=
  max_in_peers c' = max_in_peers c ∧ max_out_peers c' = max_out_peers c.

Lemma with_config_ok c m : manager_ok m → same_limits (config m) c →
  (reserved_only c = true → ∀ p, p ∈ active_keys m → lh_contains p (reserved c) = true) →
  manager_ok (with_config c m).
Proof.
  intros [[] Hd Hr] [Hi Ho] Hc. split; cbn; [split; by rewrite ?Hi, ?Ho|done|done].
Qed.

Definition incoming_of (o : Op) : PeerId := match o with OpIncoming p _ => p | _ => [] end.
Definition start_of (o : Op) (s : gset PeerId) : gset PeerId :=
  match o with OpDropped p => s ∖ {[p]} | _ => s end.

(** What a call is to do to a manager that is well formed. *)
Definition call_spec (o : Op) (m m' : PeerManager) : Prop :=
  manager_ok m' ∧ same_limits (config m) (config m') ∧
  ∃ xs, out_messages m' = out_messages m ++ xs ∧
    active_set m' = foldl (mirror (incoming_of o)) (start_of o (active_set m)) xs.

Lemma activate_call o m m1 : manager_ok m1 → same_limits (config m) (config m1) →
  (∃ xs, out_messages m1 = out_messages m ++ xs ∧
     active_set m1 = foldl (mirror (incoming_of o)) (start_of o (active_set m)) xs) →
  call_spec o m (activate m1).
Proof.
  intros Hok Hl (xs & Ho & Ha). destruct (activate_spec (incoming_of o) m1 Hok) as (H1 & (ys & Ho' & Ha') & _ & H4).
  split_and!; [done|by rewrite H4|]. exists (xs ++ ys). by rewrite Ho', Ho, app_assoc, foldl_app, Ha', Ha.
Qed.

Lemma unchanged_call o m m' : manager_ok m' → same_limits (config m) (config m') → active m' = active m →
  out_messages m' = out_messages m → start_of o (active_set m) = active_set m → call_spec o m m'.
Proof.
  intros Hok Hl Ha Ho Hs. split_and!; [done..|]. exists []. rewrite app_nil_r, Hs. split; [done|].
  cbn. unfold active_set. by rewrite Ha.
Qed.

Lemma discovered_spec p m : manager_ok m → call_spec (OpDiscovered p) m (discovered p m).
Proof.
  intros Hok. unfold discovered. destruct (lh_contains p _) eqn:E; [by apply unchanged_call|].
  apply activate_call; [|done|by exists []; rewrite app_nil_r].
  apply inactive_insert_spec; [done|]. intros H%lh_contains_spec. congruence.
Qed.

Lemma dropped_spec p m : manager_ok m → call_spec (OpDropped p) m (dropped p m).
Proof.
  intros Hok. destruct (retire_spec p m Hok) as (Hok' & Ha & Ho). apply activate_call; [done|done|].
  exists []. by rewrite app_nil_r.
Qed.

Lemma incoming_inserted p id m a : manager_ok m →
  (reserved_only (config m) = true → lh_contains p (reserved (config m)) = true) →
  insert_outcome (config m) p In (active m) (Inserted p) a →
  call_spec (OpIncoming p id) m (send (Accept id) (inactive_remove p (with_active a m))).
Proof.
  intros [Hc Hd Hr] Hp (_ & Hn & Ha & Hl). split_and!; [|done|exists [Accept id]; split; [done|]].
  - apply send_ok. split; cbn; [done| |].
    + intros q. rewrite Hl, keys_snoc, lh_keys_remove. intros [->|Hq] [Hne Hi]; [done|by eapply Hd].
    + intros Hro q. rewrite Hl, keys_snoc. intros [->|Hq]; [by apply Hp|by apply Hr].
  - apply set_eq. intros q. cbn. rewrite elem_of_union, elem_of_singleton, !active_set_elem. cbn.
    by rewrite Hl, keys_snoc.
Qed.

Lemma incoming_replaced p q id m a : manager_ok m →
  insert_outcome (config m) p In (active m) (Replaced p q) a →
  call_spec (OpIncoming p id) m
    (send (Drop q) (send (Accept id) (inactive_insert q (inactive_remove p (with_active a m))))).
Proof.
  intros [Hc Hd Hr] (_ & Hn & Hres & Ha & i & Hq & _ & Hl).
  assert (p ≠ q) as Hne by (intros ->; apply Hn; by eapply keys_elem).
  split_and!; [|done|exists [Accept id; Drop q]; split; [cbn; by rewrite <-app_assoc|]].
  - do 2 apply send_ok. split; cbn; [done| |].
    + intros y. rewrite Hl, keys_filter, keys_snoc, lh_keys_insert, lh_keys_remove.
      intros [Hyq [->|Hy]] [->|[Hyp Hyi]]; [done|done|done|by eapply Hd].
    + intros Hro y. rewrite Hl, keys_filter, keys_snoc. intros [_ [->|Hy]]; [done|by apply Hr].
  - apply set_eq. intros y. cbn.
    rewrite elem_of_difference, elem_of_union, !elem_of_singleton, !active_set_elem. cbn.
    rewrite Hl, keys_filter, keys_snoc. tauto.
Qed.

Lemma with_active_id m : with_active (active m) m = m.
Proof. by destruct m. Qed.

Lemma incoming_spec p id m : manager_ok m → call_spec (OpIncoming p id) m (incoming p id m).
Proof.
  intros Hok. unfold incoming. destruct (_ && _) eqn:Eb.
  { split_and!; [by apply send_ok|done|]. by exists [Reject id]. }
  assert (reserved_only (config m) = true → lh_contains p (reserved (config m)) = true) as Hp.
  { intros Hro. rewrite Hro in Eb. by destruct (lh_contains _ _). }
  pose proof (insert_peer_spec (config m) (active m) p In (mo_counted m Hok)) as Hi.
  destruct (insert_peer p In (config m) (active m)) as [r a].
  destruct r as [k|k q|k|k]; pose proof Hi as (-> & _).
  - by apply incoming_inserted.
  - by apply incoming_replaced.
  - destruct Hi as (_ & -> & Hk). rewrite with_active_id.
    split_and!; [by apply send_ok|done|]. exists [Accept id]. split; [done|]. apply set_eq. intros y. cbn.
    rewrite elem_of_union, elem_of_singleton, !active_set_elem. split; [by right|]. by intros [->|].
  - destruct Hi as (_ & -> & Hk & _). rewrite with_active_id.
    split_and!; [|done|by exists [Reject id]]. by apply send_ok, inactive_insert_spec.
Qed.

Lemma on_add_reserved_peer_spec p m : manager_ok m →
  call_spec (OpMessage (AddReservedPeer p)) m (on_add_reserved_peer p m).
Proof.
  intros Hok. unfold on_add_reserved_peer. set (m1 := with_config _ m).
  assert (manager_ok m1) as Hok1.
  { apply with_config_ok; [done|done|]. intros Hro q Hq. apply lh_contains_spec, lh_keys_insert. right.
    by apply lh_contains_spec, (mo_reserved m Hok). }
  destruct (lh_contains p (peers (active m1))) eqn:E; [by apply unchanged_call|].
  apply activate_call; [|done|by exists []; rewrite app_nil_r].
  apply inactive_insert_spec; [done|]. intros H%lh_contains_spec. congruence.
Qed.

Lemma on_report_peer_spec p r m : manager_ok m →
  call_spec (OpMessage (ReportPeer p r)) m (on_report_peer p r m).
Proof.
  intros Hok. unfold on_report_peer. set (sc := with_scores _ m).
  assert (manager_ok sc) as Hok1 by (destruct Hok; by split).
  case_decide; [|by apply unchanged_call].
  destruct (retire_spec p sc Hok1) as (Hok2 & Ha & Ho).
  assert (manager_ok (inactive_remove p (active_remove p sc))) as Hok3.
  { destruct Hok2 as [Hc Hd Hr]. split; cbn in *; [done| |done].
    intros q Hq. rewrite lh_keys_remove. intros [_ Hi]. apply (Hd q Hq), lh_keys_insert. by right. }
  apply activate_call.
  - destruct (lh_contains p _); [by apply send_ok|done].
  - by destruct (lh_contains p _).
  - assert (active_set (active_remove p sc) = active_set m ∖ {[p]}) as Ha' by exact Ha.
    destruct (lh_contains p (peers (active sc))) eqn:E; [by exists [Drop p]|].
    exists []. rewrite app_nil_r. split; [done|]. cbn.
    change (active_set (inactive_remove _ _)) with (active_set (active_remove p sc)). rewrite Ha'.
    assert (p ∉ active_set m) as Hp; [|set_solver].
    rewrite active_set_elem. intros Hk%lh_contains_spec. cbn in E. congruence.
Qed.

(** The configuration may as well be changed after the peers are dropped. *)
Lemma drop_peers_config c ps m :
  foldl (λ m p, drop_peer p m) (with_config c m) ps = with_config c (foldl (λ m p, drop_peer p m) m ps).
Proof. revert m. induction ps as [|p ps IH]; intros m; [done|]. cbn. by rewrite <-IH. Qed.

Lemma mirrored_call o m m' : manager_ok m' → same_limits (config m) (config m') →
  mirrored (incoming_of o) m m' → start_of o (active_set m) = active_set m → call_spec o m (activate m').
Proof. intros Hok Hl (xs & Ho & Ha) Hs. apply activate_call; [done..|]. exists xs. by rewrite Hs. Qed.

Lemma on_remove_reserved_peer_spec p m : manager_ok m →
  call_spec (OpMessage (RemoveReservedPeer p)) m (on_remove_reserved_peer p m).
Proof.
  intros Hok. unfold on_remove_reserved_peer. set (c := with_reserved _ _).
  change (reserved_only (config (with_config c m))) with (reserved_only (config m)).
  destruct (reserved_only (config m)) eqn:Hro.
  - destruct (drop_peer_spec [] p m Hok) as [Hok' Hm].
    change (drop_peer p (with_config c m)) with (with_config c (drop_peer p m)).
    apply mirrored_call; [|done|exact Hm|done]. apply with_config_ok; [done|done|]. intros _ q Hq.
    cbn in Hq. rewrite remove_peer_iter, keys_filter in Hq. apply lh_contains_spec, lh_keys_remove.
    split; [apply Hq|]. apply lh_contains_spec, (mo_reserved m Hok); [done|apply Hq].
  - apply mirrored_call; [|done|by apply mirrored_refl|done]. apply with_config_ok; [done|done|]. cbn. congruence.
Qed.

Lemma on_set_reserved_only_spec only m : manager_ok m →
  call_spec (OpMessage (SetReservedOnly only)) m (on_set_reserved_only only m).
Proof.
  intros Hok. unfold on_set_reserved_only. set (c := with_reserved_only only (config m)).
  change (reserved_only (config (with_config c m))) with only. destruct only.
  - rewrite drop_peers_config. set (ps := filter _ _).
    destruct (drop_peers_spec [] ps m Hok) as (Hok' & Hm & Hk & Hc).
    apply mirrored_call; [|done|exact Hm|done]. apply with_config_ok; [done|by rewrite Hc|].
    intros _ q [Hq Hn]%Hk. cbn. destruct (lh_contains q (reserved (config m))) eqn:E; [done|].
    destruct Hn. apply list_elem_of_filter. split; [|done]. cbn. rewrite E. by intros [].
  - apply mirrored_call; [|done|by apply mirrored_refl|done]. by apply with_config_ok.
Qed.

Lemma run_op_spec o m : manager_ok m → call_spec o m (run_op o m).
Proof.
  intros Hok. destruct o as [p|p|p i|[p|p|only|p r]]; cbn [run_op on_in_message].
  - by apply discovered_spec.
  - by apply dropped_spec.
  - by apply incoming_spec.
  - by apply on_add_reserved_peer_spec.
  - by apply on_remove_reserved_peer_spec.
  - by apply on_set_reserved_only_spec.
  - by apply on_report_peer_spec.
Qed.

(** ** The life of a manager *)

Inductive Event :=
| Invoke (o : Op)
| Post (x : InMessage)
| Poll.
Definition run_event (m : PeerManager) (e : Event) : PeerManager :=
  match e with
  | Invoke o => run_op o m
  | Post x => with_in_rx (in_rx m ++ [x]) m
  | Poll => (poll_next m).2
  end.

Lemma same_limits_trans c c' c'' : same_limits c c' → same_limits c' c'' → same_limits c c''.
Proof. intros [H1 H2] [H3 H4]. split; congruence. Qed.

Lemma with_in_rx_ok rx xs m : manager_ok m → manager_ok (with_in_rx rx (with_out_messages xs m)).
Proof. intros []. by split. Qed.

Lemma poll_loop_ok rx m : manager_ok m →
  manager_ok (poll_loop rx m).2 ∧ same_limits (config m) (config (poll_loop rx m).2).
Proof.
  revert m. induction rx as [|x rx IH]; intros m Hok; cbn; destruct (out_messages m) as [|y rest] eqn:Eo; cbn.
  - split; [|done]. destruct Hok. by split.
  - split; [by apply with_in_rx_ok|done].
  - destruct (run_op_spec (OpMessage x) m Hok) as (Hok' & Hl & _). destruct (IH _ Hok') as [H1 H2].
    split; [done|by eapply same_limits_trans].
  - split; [by apply with_in_rx_ok|done].
Qed.

Lemma run_event_ok m e : manager_ok m → manager_ok (run_event m e) ∧ same_limits (config m) (config (run_event m e)).
Proof.
  intros Hok. destruct e as [o|x|]; cbn.
  - by destruct (run_op_spec o m Hok) as (? & ? & _).
  - split; [|done]. destruct Hok. by split.
  - by apply poll_loop_ok.
Qed.

Lemma run_events_ok m es : manager_ok m →
  manager_ok (foldl run_event m es) ∧ same_limits (config m) (config (foldl run_event m es)).
Proof.
  revert m. induction es as [|e es IH]; intros m Hok; [by split|]. cbn.
  destruct (run_event_ok m e Hok) as [Hok' Hl]. destruct (IH _ Hok') as [H1 H2].
  split; [done|by eapply same_limits_trans].
Qed.

Lemma new_ok c : is_u32 (max_in_peers c) → is_u32 (max_out_peers c) →
  manager_ok (new c) ∧ config (new c) = c.
Proof.
  intros Hi Ho. unfold new. set (m := Build_PeerManager _ _ _ _ _ _).
  assert (manager_ok m) as Hok.
  { unfold is_u32 in *. split; cbn; rewrite ?lh_iter_new;
      [|by intros p ?%not_elem_of_nil|by intros _ p ?%not_elem_of_nil].
    split; cbn; rewrite ?lh_iter_new; unfold count; cbn; try done; lia. }
  by destruct (activate_spec [] m Hok) as (? & _ & _ & ?).
Qed.

(** The number of active peers in a state. *)
Definition active_in (s : PeerState) (m : PeerManager) : Z := count s (lh_iter (peers (active m))).

(** C25: over the whole life of a peer manager, whatever is called or posted
    and in whatever order, its two counters (in [u32]) are the numbers of its
    incoming and outgoing peers and stay within the limits of the
    configuration, no peer is active and inactive at once, and while only
    reserved peers are wanted no other one is active. *)
Theorem peer_slots c es :
  is_u32 (max_in_peers c) → is_u32 (max_out_peers c) →
  let m := foldl run_event (new c) es in
  in_peers (active m) = active_in In m ∧ (active_in In m ≤ max_in_peers c)%Z ∧
  out_peers (active m) = active_in Out m ∧ (active_in Out m ≤ max_out_peers c)%Z ∧
  (∀ p, p ∈ active_keys m → p ∉ inactive_keys m) ∧
  (reserved_only (config m) = true → ∀ p, p ∈ active_keys m → lh_contains p (reserved (config m)) = true).
Proof.
  intros Hi Ho m. destruct (new_ok c Hi Ho) as [Hok Hc].
  destruct (run_events_ok (new c) es Hok) as [[[H1 H2 H3 H4 H5] Hd Hr] [E1 E2]].
  rewrite Hc in E1, E2. unfold active_in. rewrite <-E1, <-E2. by split_and!.
Qed.

(** C26: the messages of a call tell the network exactly what the call did:
    when it makes the connections that are to be opened or accepted, and
    closes those that are to be dropped, in the order of the messages, it is
    connected with the active peers (a peer that the network reports as
    dropped is gone before). *)
Theorem messages_mirror_active o m : manager_ok m →
  ∃ xs, out_messages (run_op o m) = out_messages m ++ xs ∧
    active_set (run_op o m) = foldl (mirror (incoming_of o)) (start_of o (active_set m)) xs.
Proof. intros Hok. apply (run_op_spec o m Hok). Qed.

(** After a call that activates peers none is left that could be activated: a
    reserved peer waits only while reserved peers have all outgoing slots, and
    other ones only while these slots are taken or are not for them. *)
Lemma activation_saturates m : manager_ok m → saturated (activate m) ∧
  ∀ n, activate_fuel m ≤ n → activate_loop n m = activate m.
Proof.
  intros Hok. destruct (activate_loop_spec [] (activate_fuel m) m Hok) as (_ & _ & ? & _ & ?); [|done].
  unfold activate_fuel, measure, normals. lia.
Qed.

(** ** What a report does not do *)

(** A fatal report on a peer without a score leaves it where it is: its score
    is the least one and not below it. *)
Lemma fatal_report_keeps_peer p d m : scores m !! p = None →
  on_report_peer p (new_fatal d) m = with_scores (<[p := MIN_SCORE]> (scores m)) m.
Proof. intros Hs. unfold on_report_peer. rewrite Hs. cbn. by rewrite decide_False. Qed.

(** A peer whose score is too low is dropped, but when the network reports
    that its connection is closed it is activated again as any other peer. *)
Lemma banned_peer_returns p m : manager_ok m → reserved_only (config m) = false →
  inactive_keys (active_remove p m) = [] → lh_contains p (reserved (config m)) = false →
  (count Out (lh_iter (peers (remove_peer p (active m)))) < max_out_peers (config m))%Z →
  p ∈ active_keys (dropped p m).
Proof.
  intros Hok Hro Hin Hres Hlt. destruct (retire_spec p m Hok) as (Hok' & _ & _).
  unfold dropped, activate. set (m1 := inactive_insert p _). unfold activate_fuel.
  assert (lh_iter (inactive m1) = [(p, tt)]) as Hi.
  { cbn. cbn in Hin. assert (lh_iter (inactive m) = []) as E by (by destruct (lh_iter (inactive m))).
    rewrite lh_iter_insert by (rewrite E; by intros ?%not_elem_of_nil). by rewrite E. }
  rewrite Hi. cbn [length Nat.mul Nat.add activate_loop].
  assert (take_peer (config m1) (inactive m1) = Some (p, lh_remove p (inactive m1))) as Ht.
  { unfold take_peer. rewrite Hi. cbn [filter]. cbn. rewrite Hres. cbn. rewrite Hro. done. }
  rewrite Ht. cbn [config active with_inactive].
  pose proof (insert_peer_spec (config m1) (active m1) p Out (mo_counted m1 Hok')) as Hs.
  destruct (insert_peer p Out (config m1) (active m1)) as [r a]. destruct r as [k|k q|k|k]; pose proof Hs as (-> & Hs').
  - destruct Hs' as (_ & _ & Hl). cbn [activate_loop send with_out_messages with_active with_inactive config inactive].
    assert (lh_iter (lh_remove p (inactive m1)) = []) as He
      by (rewrite lh_iter_remove, Hi, filter_cons, decide_False by (by intros []); done).
    unfold take_peer. rewrite He. cbn. destruct (reserved_only (config m)); cbn; rewrite Hl, keys_snoc; by left.
  - destruct Hs' as (_ & Hr & _). cbn in Hr. congruence.
  - destruct Hs' as (_ & Hk). cbn in Hk. rewrite remove_peer_iter, keys_filter in Hk. by destruct Hk.
  - destruct Hs' as (_ & _ & Hl & _). cbn in Hl. lia.
Qed.
End Manager.

(** ** A concrete peer manager

    Linked hash maps as lists, and a peer manager with one slot of each kind. *)
Import PeerManager.

(** ** Bindings in the order of their insertion *)
Definition assoc (V : Type) : Type := { l : list (PeerId * V) | bool_decide (NoDup l.*1) }.
Definition others {V} (k : PeerId) (l : list (PeerId * V)) : list (PeerId * V) := filter (λ kv, kv.1 ≠ k) l.

Lemma others_keys {V} (k p : PeerId) (l : list (PeerId * V)) : p ∈ (others k l).*1 → p ≠ k ∧ p ∈ l.*1.
Proof.
  intros ([p' v] & -> & [Hne Hin]%list_elem_of_filter)%list_elem_of_fmap. split; [done|].
  apply list_elem_of_fmap. by exists (p', v).
Qed.
Lemma others_NoDup {V} k (l : list (PeerId * V)) : NoDup l.*1 → NoDup (others k l).*1.
Proof.
  induction l as [|[p v] l IH]; intros Hnd; [constructor|]. apply NoDup_cons in Hnd as [Hn Hnd].
  unfold others. rewrite filter_cons. case_decide; [|by apply IH]. cbn. constructor; [|by apply IH].
  intros [_ Hk]%(others_keys k p). by apply Hn.
Qed.
Lemma others_id {V} k (l : list (PeerId * V)) : k ∉ l.*1 → others k l = l.
Proof.
  induction l as [|[p v] l IH]; [done|]. rewrite fmap_cons, not_elem_of_cons. intros [Hne Hn].
  unfold others. rewrite filter_cons, decide_True by (cbn in *; congruence). f_equal. by apply IH.
Qed.
Lemma insert_NoDup {V} k v (l : list (PeerId * V)) : NoDup l.*1 → NoDup (others k l ++ [(k, v)]).*1.
Proof.
  intros H. rewrite fmap_app. apply NoDup_app. split_and!; [by apply others_NoDup| |apply NoDup_singleton].
  intros p [Hne _]%others_keys Hp%list_elem_of_singleton. done.
Qed.

#[export] Program Instance assoc_lib : LinkedHashMapLib := {|
  LinkedHashMap := assoc;
  lh_new V := exist _ [] _;
  lh_insert V k v m := exist _ (others k (proj1_sig m) ++ [(k, v)]) _;
  lh_remove V k m := exist _ (others k (proj1_sig m)) _;
  lh_iter V m := proj1_sig m;
|}.
Next Obligation. intros V. apply bool_decide_pack. constructor. Qed.
Next Obligation. intros V k v [l Hl]. apply bool_decide_pack, insert_NoDup. exact (bool_decide_unpack _ Hl). Qed.
Next Obligation. intros V k [l Hl]. apply bool_decide_pack, others_NoDup. exact (bool_decide_unpack _ Hl). Qed.
Next Obligation. intros V [l Hl]. exact (bool_decide_unpack _ Hl). Qed.
Next Obligation. done. Qed.
Next Obligation. done. Qed.
Next Obligation. intros V k v [l Hl] Hk. change (others k l ++ [(k, v)] = l ++ [(k, v)]). by rewrite others_id. Qed.
Next Obligation. intros V k v [l Hl]. change (others k l ++ [(k, v)] ≡ₚ (k, v) :: others k l). by rewrite <-Permutation_cons_append. Qed.

(** ** A manager *)
Definition reserved_peer : PeerId := b "R".
Definition boot_peer : PeerId := b "A".
Definition other_peer : PeerId := b "B".

Definition sample_config : PeerManagerConfig := {|
  max_in_peers := 1; max_out_peers := 1;
  bootnodes := lh_insert boot_peer tt lh_new;
  reserved := lh_new;
  reserved_only := false |}.

(** A peer of the boot nodes is connected, another one comes in, a peer is
    reserved and takes the slot, then only reserved peers are wanted. *)
Definition sample_events : list Event :=
  [Poll; Invoke (OpIncoming other_peer 0); Post (AddReservedPeer reserved_peer); Poll; Poll; Poll;
   Invoke (OpMessage (SetReservedOnly true)); Invoke (OpDropped boot_peer)].
Definition sample_manager : PeerManager := foldl run_event (new sample_config) sample_events.

Lemma peer_slots_witness :
  in_peers (active sample_manager) = active_in In sample_manager ∧
  (active_in Out sample_manager ≤ 1)%Z ∧ active_keys sample_manager = [reserved_peer].
Proof.
  destruct (peer_slots sample_config sample_events) as (Hin & _ & _ & Hout & _); [by vm_compute..|].
  split; [exact Hin|]. split; [exact Hout|]. vm_compute. reflexivity.
Defined.

Lemma messages_mirror_active_witness :
  manager_ok (new sample_config) ∧
  out_messages (run_op (OpIncoming other_peer 0) (new sample_config)) = [Connect boot_peer; Accept 0] ∧
  ∃ xs, out_messages (run_op (OpIncoming other_peer 0) (new sample_config)) =
    out_messages (new sample_config) ++ xs ∧
    active_set (run_op (OpIncoming other_peer 0) (new sample_config)) =
      foldl (mirror other_peer) (active_set (new sample_config)) xs.
Proof.
  assert (manager_ok (new sample_config)) as Hok by (apply new_ok; by vm_compute).
  split; [exact Hok|]. split; [vm_compute; reflexivity|].
  exact (messages_mirror_active (OpIncoming other_peer 0) (new sample_config) Hok).
Defined.

(** The report of a handshake with another genesis block drops nobody. *)
Example fatal_report_example :
  active_keys (on_report_peer boot_peer (new_fatal "Handshake failed") (new sample_config)) = [boot_peer].
Proof. vm_compute. reflexivity. Qed.

(** A peer is dropped for its reports, and connected with again. *)
Example banned_peer_example :
  let m := on_report_peer boot_peer (Build_PeerReport (-101) "") (new sample_config) in
  active_keys m = [] ∧ out_messages m = [Connect boot_peer; Drop boot_peer] ∧
  out_messages (dropped boot_peer m) = [Connect boot_peer; Drop boot_peer; Connect boot_peer].
Proof. vm_compute. repeat split. Qed.
