(* ===== verification/NetworkHandler.v ===== *)
(** * NetworkHandler

    [core/node/network/src/protocol/handler.rs] and the substreams of
    [upgrade.rs]: the protocol on one connection, which opens a substream in
    each direction, exchanges handshakes and then messages.  The sockets and the
    timers are libraries: what they answer is an argument of the polls. *)
From S2P Require Import Prelude Engine.

Module NetworkHandler.

(** ** Substreams *)

(** A socket that is polled. *)
Inductive SinkPoll :=
| SinkPending
| SinkErr (e : string)
| SinkOk.

(** [struct InSubstream]; its socket is polled for messages. *)
Record InSubstream := { received_handshake : option bytes }.
Definition take_received_handshake (s : InSubstream) : option bytes * InSubstream :=
  (received_handshake s, {| received_handshake := None |}).
(** What [upgrade_inbound] makes of the handshake that it has read. *)
Definition upgrade_inbound (handshake : bytes) : InSubstream :=
  {| received_handshake := Some handshake |}.

(** [struct OutSubstream], with what its socket has taken. *)
Record OutSubstream := {
  send_queue : list bytes;
  socket : list bytes;
}.
(** What [upgrade_outbound] makes once the handshake is written. *)
Definition upgrade_outbound : OutSubstream := {| send_queue := []; socket := [] |}.
Definition out_send_message (message : bytes) (s : OutSubstream) : OutSubstream :=
  {| send_queue := send_queue s ++ [message]; socket := socket s |}.

(** What the socket answers: whether it is ready, the error of a message that
    it does not take, whether it is flushed. *)
Record OutIO := {
  io_ready : SinkPoll;
  io_send : list (option string);
  io_flush : SinkPoll;
}.

Inductive OutPoll :=
| OutPending
| OutErr (e : string)
| OutEnd
| OutReady.

(** The [while let] that sends the queue. *)
Fixpoint send_all (queue : list bytes) (answers : list (option string)) (sent : list bytes) :
    option string * OutSubstream :=
  match queue with
  | [] => (None, {| send_queue := []; socket := sent |})
  | message :: queue =>
      match answers with
      | Some e :: _ => (Some e, {| send_queue := queue; socket := sent |})
      | None :: answers => send_all queue answers (sent ++ [message])
      | [] => send_all queue [] (sent ++ [message])
      end
  end.

Definition poll_flush (x : SinkPoll) : OutPoll :=
  match x with SinkPending => OutPending | SinkErr e => OutErr e | SinkOk => OutReady end.

(** [impl Stream for OutSubstream] *)
Definition out_poll_next (io : OutIO) (s : OutSubstream) : OutPoll * OutSubstream :=
  match send_queue s with
  | [] => (OutReady, s)
  | queue =>
      match io_ready io with
      | SinkPending => (OutPending, s)
      | SinkErr e => (OutErr e, s)
      | SinkOk =>
          let '(r, s) := send_all queue (io_send io) (socket s) in
          match r with
          | Some e => (OutErr e, s)
          | None => (poll_flush (io_flush io), s)
          end
      end
  end.

(** What the socket of an incoming substream answers. *)
Inductive InPoll :=
| InPending
| InErr (e : string)
| InEnd
| InReady (message : bytes).

(** ** The handler *)

(** Milliseconds. *)
Definition OPEN_TIMEOUT : Z := 20000.

Inductive HandlerIn :=
| HOpen (handshake : bytes)
| HClose
| HSendMessage (message : bytes).

Inductive HandlerOut :=
| HProtocolOpen (handshake : bytes)
| HProtocolClose (reason : string)
| HProtocolError (should_disconnect : bool) (error : string)
| HMessage (message : bytes).

Inductive State :=
| Init
| Opening (in_substream : option InSubstream) (out_substream : option OutSubstream) (deadline : Instant)
| Opened (in_substream : InSubstream) (out_substream : OutSubstream)
| Closed
| Locked.

(** [ProtocolsHandlerEvent]: a request of a substream with our handshake, or
    an event for the behaviour. *)
Inductive HandlerEvent :=
| OutboundSubstreamRequest (handshake : bytes)
| Custom (out : HandlerOut).

Record Handler := {
  state : State;
  events_queue : list HandlerEvent;
}.
Definition handler_new : Handler := {| state := Init; events_queue := [] |}.

Definition with_state (x : State) (h : Handler) : Handler :=
  {| state := x; events_queue := events_queue h |}.
Definition push_back (x : HandlerEvent) (h : Handler) : Handler :=
  {| state := state h; events_queue := events_queue h ++ [x] |}.

(** [std::mem::replace(&mut self.state, State::Locked)] *)
Definition take_state : M Handler Failure State := λ h, (Ok (state h), with_state Locked h).
Definition set_state (x : State) : M Handler Failure unit := modify (with_state x).
Definition push (x : HandlerEvent) : M Handler Failure unit := modify (push_back x).

Definition open (now : Instant) (handshake : bytes) : M Handler Failure unit :=
  let! st := take_state in
  match st with
  | Init =>
      do! push (OutboundSubstreamRequest handshake) in
      set_state (Opening None None (now + OPEN_TIMEOUT)%Z)
  | Opening in_substream out_substream _ =>
      do! push (OutboundSubstreamRequest handshake) in
      set_state (Opening in_substream out_substream (now + OPEN_TIMEOUT)%Z)
  | Opened in_substream out_substream => set_state (Opened in_substream out_substream)
  | Closed => set_state Closed
  | Locked => panic
  end.

Definition close : M Handler Failure unit :=
  let! st := take_state in
  match st with
  | Init => set_state Closed
  | Opening _ _ _ => set_state Closed
  | Opened _ _ =>
      do! push (Custom (HProtocolClose "Closed by handler")) in
      set_state Closed
  | Closed => set_state Closed
  | Locked => panic
  end.

Definition send_message (message : bytes) : M Handler Failure unit :=
  let! st := asks state in
  match st with
  | Opened in_substream out_substream =>
      set_state (Opened in_substream (out_send_message message out_substream))
  | _ => push (Custom (HProtocolError false "Send message when not opened"))
  end.

(** [take_received_handshake().expect("qed")] and the event of an open protocol *)
Definition opened (in_substream : InSubstream) (out_substream : OutSubstream) : M Handler Failure unit :=
  match take_received_handshake in_substream with
  | (None, _) => panic
  | (Some handshake, in_substream) =>
      do! push (Custom (HProtocolOpen handshake)) in
      set_state (Opened in_substream out_substream)
  end.

Definition inject_fully_negotiated_inbound (now : Instant) (protocol : InSubstream) : M Handler Failure unit :=
  let! st := take_state in
  match st with
  | Init => set_state (Opening (Some protocol) None (now + OPEN_TIMEOUT)%Z)
  | Opening _ out_substream deadline =>
      match out_substream with
      | Some out_substream => opened protocol out_substream
      | None => set_state (Opening (Some protocol) None deadline)
      end
  | Opened in_substream out_substream => set_state (Opened in_substream out_substream)
  | Closed => set_state Closed
  | Locked => panic
  end.

Definition inject_fully_negotiated_outbound (now : Instant) (protocol : OutSubstream) : M Handler Failure unit :=
  let! st := take_state in
  match st with
  | Init => set_state (Opening None (Some protocol) (now + OPEN_TIMEOUT)%Z)
  | Opening in_substream _ deadline =>
      match in_substream with
      | Some in_substream => opened in_substream protocol
      | None => set_state (Opening None (Some protocol) deadline)
      end
  | Opened in_substream out_substream => set_state (Opened in_substream out_substream)
  | Closed => set_state Closed
  | Locked => panic
  end.

Definition inject_event (now : Instant) (event : HandlerIn) : M Handler Failure unit :=
  match event with
  | HOpen handshake => open now handshake
  | HClose => close
  | HSendMessage message => send_message message
  end.

(** [upgrade] says whether the error is one of the upgrade. *)
Definition inject_dial_upgrade_error (upgrade : bool) (error : string) : M Handler Failure unit :=
  push (Custom (HProtocolError upgrade error)).

Definition connection_keep_alive (h : Handler) : bool :=
  match state h with
  | Init | Opening _ _ _ | Opened _ _ => true
  | _ => false
  end.

(** [poll], with the clock and what the sockets answer. *)
Definition poll (now : Instant) (io : OutIO) (input : InPoll) : M Handler Failure (option HandlerEvent) :=
  let! h := asks id in
  match events_queue h with
  | event :: rest =>
      do! modify (λ h, {| state := state h; events_queue := rest |}) in
      ret (Some event)
  | [] =>
      let! st := take_state in
      match st with
      | Init => do! set_state Init in ret None
      | Opening in_substream out_substream deadline =>
          if decide (deadline ≤ now)%Z then
            do! set_state (Opening in_substream out_substream (now + OPEN_TIMEOUT)%Z) in
            ret (Some (Custom (HProtocolError true "Timeout when opening protocol")))
          else
            do! set_state (Opening in_substream out_substream deadline) in
            ret None
      | Opened in_substream out_substream =>
          let '(r, out_substream) := out_poll_next io out_substream in
          match r with
          | OutErr e =>
              do! set_state Closed in
              ret (Some (Custom (HProtocolClose ("Outbound substream encountered error: " +:+ e))))
          | OutEnd =>
              do! set_state Closed in
              ret (Some (Custom (HProtocolClose "Outbound substream closed by the remote")))
          | OutPending | OutReady =>
              match input with
              | InErr e =>
                  do! set_state Closed in
                  ret (Some (Custom (HProtocolClose ("Inbound substream encountered error: " +:+ e))))
              | InEnd =>
                  do! set_state Closed in
                  ret (Some (Custom (HProtocolClose "Inbound substream closed by the remote")))
              | InPending =>
                  do! set_state (Opened in_substream out_substream) in
                  ret None
              | InReady message =>
                  do! set_state (Opened in_substream out_substream) in
                  ret (Some (Custom (HMessage message)))
              end
          end
      | Closed => do! set_state Closed in ret None
      | Locked => panic
      end
  end.

(** ** What the behaviour sees of a connection *)

Inductive Input :=
| EvEvent (now : Instant) (event : HandlerIn)
| EvInbound (now : Instant) (handshake : bytes)
| EvOutbound (now : Instant)
| EvUpgradeError (upgrade : bool) (error : string)
| EvPoll (now : Instant) (io : OutIO) (input : InPoll).

(** The event that an input yields. *)
Definition handle (i : Input) : M Handler Failure (option HandlerEvent) :=
  match i with
  | EvEvent now event => do! inject_event now event in ret None
  | EvInbound now handshake =>
      do! inject_fully_negotiated_inbound now (upgrade_inbound handshake) in ret None
  | EvOutbound now => do! inject_fully_negotiated_outbound now upgrade_outbound in ret None
  | EvUpgradeError upgrade error => do! inject_dial_upgrade_error upgrade error in ret None
  | EvPoll now io input => poll now io input
  end.

(** The events of a run; a panic ends it with [None]. *)
Fixpoint run (ins : list Input) (h : Handler) : option (list HandlerEvent * Handler) :=
  match ins with
  | [] => Some ([], h)
  | i :: ins =>
      match handle i h with
      | (Ok event, h) =>
          match run ins h with
          | Some (events, h) => Some (option_list event ++ events, h)
          | None => None
          end
      | (Err _, _) => None
      end
  end.

(** *** The protocol of a connection *)
Inductive Phase := Unopened | Open | Ended.

(** The phase that an event leads to; [None] for an event that does not
    belong there. *)
Definition advance (p : Phase) (e : HandlerEvent) : option Phase :=
  match e, p with
  | Custom (HProtocolOpen _), Unopened => Some Open
  | Custom (HProtocolOpen _), _ => None
  | Custom (HMessage _), Open => Some Open
  | Custom (HMessage _), _ => None
  | Custom (HProtocolClose _), Open => Some Ended
  | Custom (HProtocolClose _), _ => None
  | Custom (HProtocolError _ _), p => Some p
  | OutboundSubstreamRequest _, p => Some p
  end.
Definition follow (p : option Phase) (es : list HandlerEvent) : option Phase :=
  foldl (λ p e, p ≫= (λ p, advance p e)) p es.

(** The phase of a state, once the queue is empty. *)
Definition phase_of (st : State) (p : Phase) : Prop :=
  match st with
  | Init => p = Unopened
  | Opening i _ _ => p = Unopened ∧ match i with Some s => is_Some (received_handshake s) | None => True end
  | Opened _ _ => p = Open
  | Closed => p ≠ Open
  | Locked => False
  end.

(** A run that is in the phase [p] and whose queue is still to come. *)
Definition in_phase (p : Phase) (h : Handler) : Prop :=
  ∃ q, follow (Some p) (events_queue h) = Some q ∧ phase_of (state h) q.

Lemma follow_app p es es' : follow p (es ++ es') = follow (follow p es) es'.
Proof. apply foldl_app. Qed.

Lemma follow_cons p e es : follow (Some p) (e :: es) = follow (advance p e) es.
Proof. done. Qed.
Lemma follow_None es : follow None es = None.
Proof. by induction es. Qed.

Lemma in_phase_push p st es e q q' : follow (Some p) es = Some q → advance q e = Some q' → phase_of st q' →
  in_phase p {| state := st; events_queue := es ++ [e] |}.
Proof. intros Hf Ha Hp. exists q'. cbn [events_queue state]. by rewrite follow_app, Hf. Qed.

(** A call that keeps the phase, or is in a later one, and does not panic. *)
Definition keeps_phase (m : M Handler Failure unit) : Prop :=
  ∀ p h, in_phase p h → ∃ h', m h = (Ok tt, h') ∧ in_phase p h'.

Ltac solve_keep :=
  first
    [ by eexists; split; [reflexivity|]; eexists; split; [eassumption|]; cbn; intuition eauto
    | by eexists; split; [reflexivity|]; eapply in_phase_push; [eassumption|reflexivity|]; cbn; intuition eauto ].

Lemma open_keeps now hs : keeps_phase (open now hs).
Proof. intros p [[|i o d|i o| |] es] (q & Hf & Hq); cbn in Hq; [subst|destruct Hq; subst|subst| |done]; solve_keep. Qed.

Lemma close_keeps : keeps_phase close.
Proof. intros p [[|i o d|i o| |] es] (q & Hf & Hq); cbn in Hq; [subst|destruct Hq; subst|subst| |done]; solve_keep. Qed.

Lemma send_message_keeps x : keeps_phase (send_message x).
Proof. intros p [[|i o d|i o| |] es] (q & Hf & Hq); cbn in Hq; [subst|destruct Hq; subst|subst| |done]; solve_keep. Qed.

Lemma inbound_keeps now hs : keeps_phase (inject_fully_negotiated_inbound now (upgrade_inbound hs)).
Proof.
  intros p [[|i [o|] d|i o| |] es] (q & Hf & Hq); cbn in Hq;
    [subst|destruct Hq; subst|destruct Hq; subst|subst| |done]; solve_keep.
Qed.

Lemma outbound_keeps now : keeps_phase (inject_fully_negotiated_outbound now upgrade_outbound).
Proof.
  intros p [[|[[[hs|]]|] o d|i o| |] es] (q & Hf & Hq); cbn in Hq;
    [subst|destruct Hq; subst|by destruct Hq as [_ []]|destruct Hq; subst|subst| |done]; solve_keep.
Qed.

Lemma upgrade_error_keeps u e : keeps_phase (inject_dial_upgrade_error u e).
Proof.
  intros p [st es] (q & Hf & Hq). eexists. split; [reflexivity|].
  by eapply (in_phase_push p st es _ q).
Qed.

(** A poll yields an event of the protocol and goes on after it. *)
Lemma poll_spec now io input p h : in_phase p h →
  ∃ e h' p', poll now io input h = (Ok e, h') ∧ follow (Some p) (option_list e) = Some p' ∧ in_phase p' h'.
Proof.
  intros (q & Hf & Hq). destruct h as [st [|e es]]; unfold poll; cbn.
  2: { cbn [events_queue] in Hf. rewrite follow_cons in Hf.
       destruct (advance p e) as [p'|] eqn:Ha; [|by rewrite follow_None in Hf].
       exists (Some e), {| state := st; events_queue := es |}, p'.
       split_and!; [done|by cbn; rewrite Ha|by exists q]. }
  injection Hf as <-. destruct st as [|i o d|i o| |]; cbn in Hq |- *; [| | | |done].
  - subst. eexists None, _, _. split_and!; [done..|]. by exists Unopened.
  - destruct Hq as [-> Hi]. case_decide; [eexists (Some _)|eexists None]; eexists _, _; split_and!; try done; by exists Unopened.
  - subst. destruct (out_poll_next io o) as [r o'].
    destruct r; [destruct input|..|destruct input]; cbn; unfold ret, bind, set_state, modify; cbn;
      lazymatch goal with |- context [(Ok ?e, _) = _] => exists e end; eexists _, _;
      (split_and!; [reflexivity|reflexivity|]); eexists; (split; [reflexivity|]); done.
  - eexists None, _, _. split_and!; [done..|]. by exists p.
Qed.

(** C27: the events of a connection follow the protocol, whatever the peer, the
    behaviour, the sockets and the clock do: it is opened at most once,
    messages come and the protocol is closed only while it is open, and nothing but errors and requests of substreams
    comes before and after.  The handler never panics, and is kept alive as
    long as it is not closed. *)
Theorem handler_follows_protocol ins :
  ∃ es h p, run ins handler_new = Some (es, h) ∧ follow (Some Unopened) (es ++ events_queue h) = Some p ∧
    phase_of (state h) p ∧ (connection_keep_alive h = false ↔ state h = Closed).
Proof.
  assert (∀ p h, in_phase p h → ∃ es h' p', run ins h = Some (es, h') ∧
    follow (Some p) es = Some p' ∧ in_phase p' h') as Hrun.
  { induction ins as [|i ins IH]; intros p h Hh; [by exists [], h, p|]. cbn [run].
    assert (∃ e h' p', handle i h = (Ok e, h') ∧ follow (Some p) (option_list e) = Some p' ∧ in_phase p' h')
      as (e & h' & p' & -> & He & Hh').
    { destruct i as [now ev|now hs|now|u e|now io input]; cbn [handle]; [..|by apply poll_spec].
      all: exists None; unfold bind.
      - destruct (λ K : keeps_phase (inject_event now ev), K p h Hh) as (h' & -> & H'); [|by exists h', p].
        destruct ev; [apply open_keeps|apply close_keeps|apply send_message_keeps].
      - destruct (inbound_keeps now hs p h Hh) as (h' & -> & H'). by exists h', p.
      - destruct (outbound_keeps now p h Hh) as (h' & -> & H'). by exists h', p.
      - destruct (upgrade_error_keeps u e p h Hh) as (h' & -> & H'). by exists h', p. }
    destruct (IH _ _ Hh') as (es & h'' & p'' & -> & Hes & Hh''). exists (option_list e ++ es), h'', p''.
    split; [done|]. split; [by rewrite follow_app, He|done]. }
  destruct (Hrun Unopened handler_new) as (es & h & p & Hr & He & q & Hq & Hp); [by exists Unopened|].
  exists es, h, q. split_and!; [done|by rewrite follow_app, He|done|].
  unfold connection_keep_alive. by destruct (state h).
Qed.
End NetworkHandler.
