(* ===== verification/NetworkProtocol.v ===== *)
(** * NetworkProtocol

    [core/node/network/src/protocol.rs]: the behaviour that keeps the state of
    each peer's connections, carries out what the peer manager decides, and
    tells the coordinator when the protocol with a peer is opened and closed. *)
From S2P Require Import Prelude Engine PeerManager NetworkHandler.

Module NetworkProtocol.

(** The identifiers of connections are the library's. *)
Abbreviation ConnectionId := bytes.

(** Milliseconds. *)
Definition DELAY : Z := 5000.
Definition PEER_REPORT_DIAL_FAILURE : PeerManager.PeerReport := PeerManager.Build_PeerReport (-2) "Dial failure".
Definition PEER_REPORT_PROTOCOL_ERROR : PeerManager.PeerReport := PeerManager.Build_PeerReport (-2) "Protocol error".

(** [libp2p::core::ConnectedPoint], without the addresses *)
Inductive ConnectedPoint := Dialer | Listener.
#[export] Instance connected_point_eq_dec : EqDecision ConnectedPoint.
Proof. solve_decision. Defined.

Inductive ProtocolOut :=
| ProtocolOpen (peer_id : PeerId) (connected_point : ConnectedPoint) (nonce : Z) (handshake : bytes)
| ProtocolClose (peer_id : PeerId) (connected_point : ConnectedPoint)
| Message (peer_id : PeerId) (message : bytes).

Record Connection := {
  connected_point : ConnectedPoint;
  incoming_id : option PeerManager.IncomingId;
}.

Inductive PeerState :=
| Init (pending_dial : option Instant)
| Connected (connected_list : gmap ConnectionId Connection) (nonce : Z)
| ProtocolOpened (connected_list opened_list : gmap ConnectionId Connection) (nonce : Z)
| Locked.

(** [enum NotifyHandler] and [enum NetworkBehaviourAction] of the library *)
Inductive NotifyHandler :=
| One (conn : ConnectionId)
| All.
Inductive Action :=
| ANotifyHandler (peer_id : PeerId) (handler : NotifyHandler) (event : NetworkHandler.HandlerIn)
| AGenerateEvent (event : ProtocolOut)
| ADialPeer (peer_id : PeerId).

Section Protocol.
Context {LH : PeerManager.LinkedHashMapLib} {HO : HashOrder}.

(** [struct Protocol], with the builder of handshakes it shares with the
    coordinator, the clock, and the numbers that will be drawn. *)
Record Protocol := {
  local_peer_id : PeerId;
  handshake_builder : Z → bytes;
  peers : gmap PeerId PeerState;
  incoming_peers : gmap Z PeerId;
  delay_peers : gmap PeerId Instant;
  peer_manager : PeerManager.PeerManager;
  next_incoming_id : PeerManager.IncomingId;
  events : list Action;
  now : Instant;
  draws : list Z;
}.

Definition with_peers (x : gmap PeerId PeerState) (s : Protocol) : Protocol :=
  {| local_peer_id := local_peer_id s; handshake_builder := handshake_builder s; peers := x;
     incoming_peers := incoming_peers s; delay_peers := delay_peers s; peer_manager := peer_manager s;
     next_incoming_id := next_incoming_id s; events := events s; now := now s; draws := draws s |}.
Definition with_incoming_peers (x : gmap Z PeerId) (s : Protocol) : Protocol :=
  {| local_peer_id := local_peer_id s; handshake_builder := handshake_builder s; peers := peers s;
     incoming_peers := x; delay_peers := delay_peers s; peer_manager := peer_manager s;
     next_incoming_id := next_incoming_id s; events := events s; now := now s; draws := draws s |}.
Definition with_delay_peers (x : gmap PeerId Instant) (s : Protocol) : Protocol :=
  {| local_peer_id := local_peer_id s; handshake_builder := handshake_builder s; peers := peers s;
     incoming_peers := incoming_peers s; delay_peers := x; peer_manager := peer_manager s;
     next_incoming_id := next_incoming_id s; events := events s; now := now s; draws := draws s |}.
Definition with_peer_manager (x : PeerManager.PeerManager) (s : Protocol) : Protocol :=
  {| local_peer_id := local_peer_id s; handshake_builder := handshake_builder s; peers := peers s;
     incoming_peers := incoming_peers s; delay_peers := delay_peers s; peer_manager := x;
     next_incoming_id := next_incoming_id s; events := events s; now := now s; draws := draws s |}.
Definition with_next_incoming_id (x : Z) (s : Protocol) : Protocol :=
  {| local_peer_id := local_peer_id s; handshake_builder := handshake_builder s; peers := peers s;
     incoming_peers := incoming_peers s; delay_peers := delay_peers s; peer_manager := peer_manager s;
     next_incoming_id := x; events := events s; now := now s; draws := draws s |}.
Definition with_events (x : list Action) (s : Protocol) : Protocol :=
  {| local_peer_id := local_peer_id s; handshake_builder := handshake_builder s; peers := peers s;
     incoming_peers := incoming_peers s; delay_peers := delay_peers s; peer_manager := peer_manager s;
     next_incoming_id := next_incoming_id s; events := x; now := now s; draws := draws s |}.
Definition with_now (x : Instant) (s : Protocol) : Protocol :=
  {| local_peer_id := local_peer_id s; handshake_builder := handshake_builder s; peers := peers s;
     incoming_peers := incoming_peers s; delay_peers := delay_peers s; peer_manager := peer_manager s;
     next_incoming_id := next_incoming_id s; events := events s; now := x; draws := draws s |}.
Definition with_draws (x : list Z) (s : Protocol) : Protocol :=
  {| local_peer_id := local_peer_id s; handshake_builder := handshake_builder s; peers := peers s;
     incoming_peers := incoming_peers s; delay_peers := delay_peers s; peer_manager := peer_manager s;
     next_incoming_id := next_incoming_id s; events := events s; now := now s; draws := x |}.

(** [Protocol::new] *)
Definition protocol_new (local_peer_id : PeerId) (handshake_builder : Z → bytes)
    (peer_manager : PeerManager.PeerManager) (now : Instant) (draws : list Z) : Protocol := {|
  local_peer_id := local_peer_id; handshake_builder := handshake_builder; peers := ∅;
  incoming_peers := ∅; delay_peers := ∅; peer_manager := peer_manager; next_incoming_id := 0;
  events := []; now := now; draws := draws |}.

Definition N (A : Type) : Type := M Protocol Failure A.

Definition push_event (a : Action) : N unit := modify (λ s, with_events (events s ++ [a]) s).
Definition on_peer_manager (f : PeerManager.PeerManager → PeerManager.PeerManager) : N unit :=
  modify (λ s, with_peer_manager (f (peer_manager s)) s).

(** [self.peers.entry(..).or_insert(..)] and
    [std::mem::replace(entry, PeerState::Locked)] *)
Definition take_entry (peer_id : PeerId) : N PeerState := λ s,
  (Ok (default (Init None) (peers s !! peer_id)), with_peers (<[peer_id := Locked]> (peers s)) s).
(** [*entry = ..] *)
Definition set_entry (peer_id : PeerId) (st : PeerState) : N unit :=
  modify (λ s, with_peers (<[peer_id := st]> (peers s)) s).

(** [rng.gen()] *)
Definition gen_nonce : N Z := λ s,
  match draws s with
  | x :: rest => (Ok (u64 x), with_draws rest s)
  | [] => (Ok 0%Z, s)
  end.

(** [self.peer_manager.tx().unbounded_send(PMInMessage::ReportPeer(..))] *)
Definition report (peer_id : PeerId) (r : PeerManager.PeerReport) : N unit :=
  on_peer_manager (λ m, PeerManager.with_in_rx
    (PeerManager.in_rx m ++ [PeerManager.ReportPeer peer_id r]) m).

Definition add_discovered_peers (peer_ids : list PeerId) : N unit :=
  for_each (λ peer_id,
    let! local := asks local_peer_id in
    if decide (peer_id ≠ local) then on_peer_manager (PeerManager.discovered peer_id) else ret tt) peer_ids.

Definition send_message (peer_id : PeerId) (message : bytes) : N unit :=
  let! st := asks (λ s, peers s !! peer_id) in
  match st with
  | Some (ProtocolOpened _ opened_list _) =>
      match head (hash_iter opened_list) with
      | Some (connection_id, _) =>
          push_event (ANotifyHandler peer_id (One connection_id) (NetworkHandler.HSendMessage message))
      | None => ret tt
      end
  | _ => ret tt
  end.

(** The state is kept, and all handlers of a connected peer are closed: what
    [drop_peer], [peer_manager_drop] and [peer_manager_reject] do. *)
Definition close_all (peer_id : PeerId) : N unit :=
  let! st := take_entry peer_id in
  match st with
  | Init pending_dial => set_entry peer_id (Init pending_dial)
  | Connected connected_list nonce =>
      do! push_event (ANotifyHandler peer_id All NetworkHandler.HClose) in
      set_entry peer_id (Connected connected_list nonce)
  | ProtocolOpened connected_list opened_list nonce =>
      do! push_event (ANotifyHandler peer_id All NetworkHandler.HClose) in
      set_entry peer_id (ProtocolOpened connected_list opened_list nonce)
  | Locked => panic
  end.

Definition drop_peer (peer_id : PeerId) (delay : option Z) : N unit :=
  do! match delay with
      | Some delay => modify (λ s, with_delay_peers (<[peer_id := (now s + delay)%Z]> (delay_peers s)) s)
      | None => ret tt
      end in
  close_all peer_id.

Definition next_incoming : N PeerManager.IncomingId := λ s,
  (Ok (next_incoming_id s), with_next_incoming_id (next_id (next_incoming_id s)) s).

Definition peer_manager_connect (peer_id : PeerId) : N unit :=
  let! st := take_entry peer_id in
  match st with
  | Init pending_dial =>
      let! s := asks id in
      if decide (peer_id = local_peer_id s) then set_entry peer_id (Init pending_dial)
      else
        do! modify (λ s, with_delay_peers (delete peer_id (delay_peers s)) s) in
        match delay_peers s !! peer_id ≫= (λ instant, if decide (instant > now s)%Z then Some instant else None) with
        | Some instant => set_entry peer_id (Init (Some instant))
        | None =>
            match pending_dial with
            | None =>
                do! push_event (ADialPeer peer_id) in
                set_entry peer_id (Init pending_dial)
            | Some _ => set_entry peer_id (Init pending_dial)
            end
        end
  | Connected connected_list nonce => set_entry peer_id (Connected connected_list nonce)
  | ProtocolOpened connected_list opened_list nonce =>
      set_entry peer_id (ProtocolOpened connected_list opened_list nonce)
  | Locked => panic
  end.

Definition peer_manager_drop (peer_id : PeerId) : N unit := close_all peer_id.

(** [self.incoming_peers.remove(&incoming_id)] *)
Definition take_incoming (incoming_id : PeerManager.IncomingId) : N (option PeerId) := λ s,
  (Ok (incoming_peers s !! incoming_id), with_incoming_peers (delete incoming_id (incoming_peers s)) s).

(** The connection that came in with the identifier. *)
Definition find_incoming (id : PeerManager.IncomingId) (connected_list : gmap ConnectionId Connection) :
    option ConnectionId :=
  fst <$> head (filter (λ kv, incoming_id kv.2 = Some id) (hash_iter connected_list)).

(** The handler of that connection is opened. *)
Definition open_incoming (peer_id : PeerId) (id : PeerManager.IncomingId)
    (connected_list : gmap ConnectionId Connection) (nonce : Z) : N unit :=
  match find_incoming id connected_list with
  | Some connection_id =>
      let! handshake := asks (λ s, handshake_builder s nonce) in
      push_event (ANotifyHandler peer_id (One connection_id) (NetworkHandler.HOpen handshake))
  | None => ret tt
  end.

Definition peer_manager_accept (incoming_id : PeerManager.IncomingId) : N unit :=
  let! peer := take_incoming incoming_id in
  match peer with
  | None => ret tt
  | Some peer_id =>
      let! st := take_entry peer_id in
      match st with
      | Init pending_dial =>
          do! on_peer_manager (PeerManager.dropped peer_id) in
          set_entry peer_id (Init pending_dial)
      | Connected connected_list nonce =>
          do! open_incoming peer_id incoming_id connected_list nonce in
          set_entry peer_id (Connected connected_list nonce)
      | ProtocolOpened connected_list opened_list nonce =>
          do! open_incoming peer_id incoming_id connected_list nonce in
          set_entry peer_id (ProtocolOpened connected_list opened_list nonce)
      | Locked => panic
      end
  end.

Definition peer_manager_reject (incoming_id : PeerManager.IncomingId) : N unit :=
  let! peer := take_incoming incoming_id in
  match peer with
  | None => ret tt
  | Some peer_id => close_all peer_id
  end.

(** ** [impl NetworkBehaviour for Protocol] *)

Definition open_connection (peer_id : PeerId) (conn : ConnectionId) (nonce : Z) : N unit :=
  let! handshake := asks (λ s, handshake_builder s nonce) in
  push_event (ANotifyHandler peer_id (One conn) (NetworkHandler.HOpen handshake)).

Definition close_connection (peer_id : PeerId) (conn : ConnectionId) : N unit :=
  push_event (ANotifyHandler peer_id (One conn) NetworkHandler.HClose).

(** An incoming connection of a peer that is not connected: refused while the
    peer is delayed, otherwise the peer manager decides. *)
Definition listen (peer_id : PeerId) (conn : ConnectionId) : N (option PeerManager.IncomingId) :=
  let! s := asks id in
  do! modify (λ s, with_delay_peers (delete peer_id (delay_peers s)) s) in
  match delay_peers s !! peer_id ≫= (λ instant, if decide (instant > now s)%Z then Some instant else None) with
  | Some instant =>
      do! close_connection peer_id conn in
      do! modify (λ s, with_delay_peers (<[peer_id := instant]> (delay_peers s)) s) in
      ret None
  | None =>
      let! incoming_id := next_incoming in
      do! modify (λ s, with_incoming_peers (<[incoming_id := peer_id]> (incoming_peers s)) s) in
      do! on_peer_manager (PeerManager.incoming peer_id incoming_id) in
      ret (Some incoming_id)
  end.

(** Whether another connection of a connected peer is opened. *)
Definition should_open (connected_list : gmap ConnectionId Connection) (endpoint : ConnectedPoint) : bool :=
  match endpoint with
  | Dialer => true
  | Listener => bool_decide (map_Exists (λ _ v, connected_point v = Dialer) connected_list)
  end.

(** A further connection: the list of connections after it. *)
Definition another_connection (peer_id : PeerId) (conn : ConnectionId) (endpoint : ConnectedPoint)
    (connected_list : gmap ConnectionId Connection) (nonce : Z) : N (gmap ConnectionId Connection) :=
  if should_open connected_list endpoint then
    do! open_connection peer_id conn nonce in
    ret (<[conn := {| connected_point := endpoint; incoming_id := None |}]> connected_list)
  else
    do! close_connection peer_id conn in
    ret connected_list.

Definition inject_connection_established (peer_id : PeerId) (conn : ConnectionId)
    (endpoint : ConnectedPoint) : N unit :=
  let! st := take_entry peer_id in
  match st with
  | Init _ =>
      let! nonce := gen_nonce in
      let! incoming_id :=
        match endpoint with
        | Dialer => do! open_connection peer_id conn nonce in ret None
        | Listener => listen peer_id conn
        end in
      set_entry peer_id
        (Connected {[conn := {| connected_point := endpoint; incoming_id := incoming_id |}]} nonce)
  | Connected connected_list nonce =>
      let! connected_list := another_connection peer_id conn endpoint connected_list nonce in
      set_entry peer_id (Connected connected_list nonce)
  | ProtocolOpened connected_list opened_list nonce =>
      let! connected_list := another_connection peer_id conn endpoint connected_list nonce in
      set_entry peer_id (ProtocolOpened connected_list opened_list nonce)
  | Locked => panic
  end.

Definition inject_connection_closed (peer_id : PeerId) (conn : ConnectionId) : N unit :=
  let! st := take_entry peer_id in
  match st with
  | Init pending_dial => set_entry peer_id (Init pending_dial)
  | Connected connected_list nonce =>
      let connected_list := delete conn connected_list in
      if decide (connected_list = ∅) then
        do! on_peer_manager (PeerManager.dropped peer_id) in
        set_entry peer_id (Init None)
      else set_entry peer_id (Connected connected_list nonce)
  | ProtocolOpened connected_list opened_list nonce =>
      let closed_connection :=
        match opened_list !! conn with
        | Some connection => Some connection
        | None => connected_list !! conn
        end in
      let connected_list := delete conn connected_list in
      let opened_list := delete conn opened_list in
      match closed_connection with
      | Some closed_connection =>
          if decide (opened_list = ∅) then
            do! push_event (AGenerateEvent (ProtocolClose peer_id (connected_point closed_connection))) in
            if decide (connected_list = ∅) then
              do! on_peer_manager (PeerManager.dropped peer_id) in
              set_entry peer_id (Init None)
            else set_entry peer_id (Connected connected_list nonce)
          else set_entry peer_id (ProtocolOpened connected_list opened_list nonce)
      | None => set_entry peer_id (ProtocolOpened connected_list opened_list nonce)
      end
  | Locked => panic
  end.

Definition on_protocol_open (source : PeerId) (conn : ConnectionId) (handshake : bytes) : N unit :=
  let! st := take_entry source in
  match st with
  | Init pending_dial => set_entry source (Init pending_dial)
  | Connected connected_list nonce =>
      match connected_list !! conn with
      | Some connection =>
          do! push_event (AGenerateEvent (ProtocolOpen source (connected_point connection) nonce handshake)) in
          set_entry source (ProtocolOpened (delete conn connected_list) {[conn := connection]} nonce)
      | None => set_entry source (Connected connected_list nonce)
      end
  | ProtocolOpened connected_list opened_list nonce =>
      match connected_list !! conn with
      | Some connection =>
          set_entry source
            (ProtocolOpened (delete conn connected_list) (<[conn := connection]> opened_list) nonce)
      | None => set_entry source (ProtocolOpened connected_list opened_list nonce)
      end
  | Locked => panic
  end.

Definition on_protocol_close (source : PeerId) (conn : ConnectionId) : N unit :=
  let! st := take_entry source in
  match st with
  | Init pending_dial => set_entry source (Init pending_dial)
  | Connected connected_list nonce => set_entry source (Connected connected_list nonce)
  | ProtocolOpened connected_list opened_list nonce =>
      let closed_connection := opened_list !! conn in
      let opened_list := delete conn opened_list in
      match closed_connection with
      | Some closed_connection =>
          if decide (opened_list = ∅) then
            do! push_event (AGenerateEvent (ProtocolClose source (connected_point closed_connection))) in
            set_entry source (Connected (<[conn := closed_connection]> connected_list) nonce)
          else set_entry source (ProtocolOpened connected_list opened_list nonce)
      | None => set_entry source (ProtocolOpened connected_list opened_list nonce)
      end
  | Locked => panic
  end.

(** A peer that breaks the protocol is delayed, its handler closed and
    reported. *)
Definition disconnect (source : PeerId) (conn : ConnectionId) : N unit :=
  do! modify (λ s, with_delay_peers (<[source := (now s + DELAY)%Z]> (delay_peers s)) s) in
  do! close_connection source conn in
  report source PEER_REPORT_PROTOCOL_ERROR.

Definition on_protocol_error (source : PeerId) (conn : ConnectionId) (should_disconnect : bool) : N unit :=
  let! st := take_entry source in
  match st with
  | Init pending_dial => set_entry source (Init pending_dial)
  | Connected connected_list nonce =>
      do! match connected_list !! conn with
          | Some _ => if should_disconnect then disconnect source conn else ret tt
          | None => ret tt
          end in
      set_entry source (Connected connected_list nonce)
  | ProtocolOpened connected_list opened_list nonce =>
      do! (if decide (is_Some (connected_list !! conn) ∨ is_Some (opened_list !! conn))
           then (if should_disconnect then disconnect source conn else ret tt)
           else ret tt) in
      set_entry source (ProtocolOpened connected_list opened_list nonce)
  | Locked => panic
  end.

Definition inject_event (source : PeerId) (conn : ConnectionId) (event : NetworkHandler.HandlerOut) : N unit :=
  match event with
  | NetworkHandler.HProtocolOpen handshake => on_protocol_open source conn handshake
  | NetworkHandler.HProtocolClose _ => on_protocol_close source conn
  | NetworkHandler.HProtocolError should_disconnect _ => on_protocol_error source conn should_disconnect
  | NetworkHandler.HMessage message => push_event (AGenerateEvent (Message source message))
  end.

Definition inject_dial_failure (peer_id : PeerId) : N unit :=
  let! st := take_entry peer_id in
  match st with
  | Init _ =>
      do! report peer_id PEER_REPORT_DIAL_FAILURE in
      do! on_peer_manager (PeerManager.dropped peer_id) in
      do! modify (λ s, with_delay_peers (<[peer_id := (now s + DELAY)%Z]> (delay_peers s)) s) in
      set_entry peer_id (Init None)
  | Connected connected_list nonce => set_entry peer_id (Connected connected_list nonce)
  | ProtocolOpened connected_list opened_list nonce =>
      set_entry peer_id (ProtocolOpened connected_list opened_list nonce)
  | Locked => panic
  end.

(** *** [poll] *)

(** [self.peer_manager.poll_next_unpin(cx)] *)
Definition poll_peer_manager : N (option PeerManager.OutMessage) := λ s,
  let '(r, m) := PeerManager.poll_next (peer_manager s) in (Ok r, with_peer_manager m s).

Definition on_out_message (out : PeerManager.OutMessage) : N unit :=
  match out with
  | PeerManager.Connect peer_id => peer_manager_connect peer_id
  | PeerManager.Drop peer_id => peer_manager_drop peer_id
  | PeerManager.Accept incoming_id => peer_manager_accept incoming_id
  | PeerManager.Reject incoming_id => peer_manager_reject incoming_id
  end.

(** The loop over the messages of the peer manager; the result says whether
    it was left for want of messages. *)
Fixpoint manager_loop (fuel : nat) : N bool :=
  match fuel with
  | 0 => ret false
  | S fuel =>
      let! out := poll_peer_manager in
      match out with
      | Some out => do! on_out_message out in manager_loop fuel
      | None => ret true
      end
  end.

(** The pending dial of a peer, once its delay is over. *)
Definition dial_pending (peer_id : PeerId) : N unit :=
  let! s := asks id in
  match peers s !! peer_id with
  | Some (Init (Some deadline)) =>
      if decide (deadline ≤ now s)%Z then
        do! push_event (ADialPeer peer_id) in
        set_entry peer_id (Init None)
      else ret tt
  | _ => ret tt
  end.

Definition pop_event : N (option Action) := λ s,
  match events s with
  | e :: rest => (Ok (Some e), with_events rest s)
  | [] => (Ok None, s)
  end.

Definition poll (fuel : nat) : N (option Action) :=
  let! event := pop_event in
  match event with
  | Some event => ret (Some event)
  | None =>
      let! _ := manager_loop fuel in
      let! peers := asks (λ s, hash_iter (peers s)) in
      do! for_each dial_pending peers.*1 in
      pop_event
  end.

(** ** The calls of the behaviour *)
Inductive Event :=
| EvDiscovered (peer_ids : list PeerId)
| EvSend (peer_id : PeerId) (message : bytes)
| EvDrop (peer_id : PeerId) (delay : option Z)
| EvEstablished (peer_id : PeerId) (conn : ConnectionId) (endpoint : ConnectedPoint)
| EvClosed (peer_id : PeerId) (conn : ConnectionId)
| EvHandler (source : PeerId) (conn : ConnectionId) (event : NetworkHandler.HandlerOut)
| EvDialFailure (peer_id : PeerId)
| EvReport (peer_id : PeerId) (r : PeerManager.PeerReport)
| EvPoll (fuel : nat)
| EvTime (now : Instant).

(** The action that a call yields. *)
Definition handle (ev : Event) : N (option Action) :=
  match ev with
  | EvDiscovered peer_ids => do! add_discovered_peers peer_ids in ret None
  | EvSend peer_id message => do! send_message peer_id message in ret None
  | EvDrop peer_id delay => do! drop_peer peer_id delay in ret None
  | EvEstablished peer_id conn endpoint =>
      do! inject_connection_established peer_id conn endpoint in ret None
  | EvClosed peer_id conn => do! inject_connection_closed peer_id conn in ret None
  | EvHandler source conn event => do! inject_event source conn event in ret None
  | EvDialFailure peer_id => do! inject_dial_failure peer_id in ret None
  | EvReport peer_id r => do! report peer_id r in ret None
  | EvPoll fuel => poll fuel
  | EvTime now => do! modify (with_now now) in ret None
  end.

(** The actions of a run; a panic ends it with [None]. *)
Fixpoint run (evs : list Event) (s : Protocol) : option (list Action * Protocol) :=
  match evs with
  | [] => Some ([], s)
  | ev :: evs =>
      match handle ev s with
      | (Ok a, s) =>
          match run evs s with
          | Some (actions, s) => Some (option_list a ++ actions, s)
          | None => None
          end
      | (Err _, _) => None
      end
  end.
End Protocol.
End NetworkProtocol.
