(* ===== verification/NetworkSessions.v ===== *)
(** * NetworkSessions

    What the coordinator sees of the network: the protocol with a peer is
    opened and closed in turns, and the behaviour never finds a locked state.
    The loop over the messages of the peer manager comes to an end. *)
From S2P Require Import Prelude Engine PeerManager PeerManagerProofs NetworkHandler NetworkProtocol.
Import NetworkProtocol.

(** ** Sessions of a peer *)

Definition is_open (st : PeerState) : bool :=
  match st with ProtocolOpened _ _ _ => true | _ => false end.

(** An opened peer has an opened connection, and no state stays locked. *)
Definition good (st : PeerState) : Prop :=
  match st with
  | Locked => False
  | ProtocolOpened _ opened_list _ => opened_list ≠ ∅
  | _ => True
  end.

(** Whether the protocol is open after an action: it is opened only when it is
    closed, and closed only when it is open. *)
Definition session (p : PeerId) (b : bool) (a : Action) : option bool :=
  match a with
  | AGenerateEvent (ProtocolOpen q _ _ _) =>
      if decide (q = p) then (if b then None else Some true) else Some b
  | AGenerateEvent (ProtocolClose q _) =>
      if decide (q = p) then (if b then Some false else None) else Some b
  | _ => Some b
  end.
Definition sessions (p : PeerId) (b : option bool) (xs : list Action) : option bool :=
  foldl (λ o a, o ≫= λ b, session p b a) b xs.

Lemma sessions_cons p b a xs : sessions p (Some b) (a :: xs) = sessions p (session p b a) xs.
Proof. done. Qed.
Lemma sessions_app p b xs ys : sessions p b (xs ++ ys) = sessions p (sessions p b xs) ys.
Proof. apply foldl_app. Qed.

Section Sessions.
Context {LH : LinkedHashMapLib} {HO : HashOrder}.

Definition opened (s : Protocol) (p : PeerId) : bool :=
  match peers s !! p with Some st => is_open st | None => false end.
Definition inv (s : Protocol) : Prop := ∀ p st, peers s !! p = Some st → good st.

(** The events queued from one state to the other tell what is opened. *)
Definition told (s s' : Protocol) : Prop :=
  inv s' ∧ ∃ xs, events s' = events s ++ xs ∧ ∀ p, sessions p (Some (opened s p)) xs = Some (opened s' p).

Lemma told_refl s s' : inv s → peers s' = peers s → events s' = events s → told s s'.
Proof.
  intros Hs Hp He. split; [unfold inv; by rewrite Hp|]. exists []. rewrite app_nil_r. split; [done|].
  intros p. unfold opened. by rewrite Hp.
Qed.
Lemma told_trans s1 s2 s3 : told s1 s2 → told s2 s3 → told s1 s3.
Proof.
  intros (_ & x1 & He1 & H1) (Hi & x2 & He2 & H2). split; [done|]. exists (x1 ++ x2).
  rewrite He2, He1, app_assoc. split; [done|]. intros p. by rewrite sessions_app, H1.
Qed.

(** A call that ends well and tells what it does. *)
Definition tells {A} (m : N A) : Prop := ∀ s, inv s → ∃ a s', m s = (Ok a, s') ∧ told s s'.

Lemma tells_bind {A B} (m : N A) (k : A → N B) : tells m → (∀ a, tells (k a)) → tells (bind m k).
Proof.
  intros Hm Hk s Hs. destruct (Hm s Hs) as (a & s1 & H1 & T1). destruct (Hk a s1) as (y & s2 & H2 & T2); [apply T1|].
  exists y, s2. unfold bind. rewrite H1. split; [done|by eapply told_trans].
Qed.
Lemma tells_ret {A} (a : A) : tells (ret a).
Proof. intros s Hs. eexists _, _. split; [reflexivity|by apply told_refl]. Qed.
Lemma tells_asks {A} (f : Protocol → A) : tells (asks f).
Proof. intros s Hs. eexists _, _. split; [reflexivity|by apply told_refl]. Qed.
Lemma tells_for_each {A} (f : A → N unit) l : (∀ x, tells (f x)) → tells (for_each f l).
Proof. intros Hf. induction l as [|x l IH]; [apply tells_ret|]. by apply tells_bind. Qed.
Lemma tells_quiet (f : Protocol → Protocol) :
  (∀ s, peers (f s) = peers s) → (∀ s, events (f s) = events s) → tells (modify f).
Proof. intros Hp He s Hs. eexists _, _. split; [reflexivity|by apply told_refl]. Qed.

Lemma tells_push a : (∀ p b, session p b a = Some b) → tells (push_event a).
Proof.
  intros Ha s Hs. eexists _, _. split; [reflexivity|]. split; [done|]. exists [a]. split; [done|].
  intros p. cbn. apply Ha.
Qed.

(** A call that leaves the peers and the events to the rest of its handler:
    what it queues is no session event. *)
Definition quiet {A} (m : N A) : Prop :=
  ∀ s, ∃ a s' xs, m s = (Ok a, s') ∧ peers s' = peers s ∧ events s' = events s ++ xs ∧
    ∀ p b, sessions p (Some b) xs = Some b.

Lemma quiet_bind {A B} (m : N A) (k : A → N B) : quiet m → (∀ a, quiet (k a)) → quiet (bind m k).
Proof.
  intros Hm Hk s. destruct (Hm s) as (a & s1 & x1 & H1 & P1 & E1 & S1).
  destruct (Hk a s1) as (y & s2 & x2 & H2 & P2 & E2 & S2). exists y, s2, (x1 ++ x2).
  unfold bind. rewrite H1. split_and!; [done|congruence|by rewrite E2, E1, app_assoc|].
  intros p c. by rewrite sessions_app, S1, S2.
Qed.
Lemma quiet_ret {A} (a : A) : quiet (ret a).
Proof. intros s. eexists _, _, []. split_and!; [reflexivity|done|by rewrite app_nil_r|done]. Qed.
Lemma quiet_asks {A} (f : Protocol → A) : quiet (asks f).
Proof. intros s. eexists _, _, []. split_and!; [reflexivity|done|by rewrite app_nil_r|done]. Qed.
Lemma untold_modify (f : Protocol → Protocol) :
  (∀ s, peers (f s) = peers s) → (∀ s, events (f s) = events s) → quiet (modify f).
Proof. intros Hp He s. eexists _, _, []. split_and!; [reflexivity|apply Hp|by rewrite app_nil_r|done]. Qed.
Lemma quiet_push a : (∀ p b, session p b a = Some b) → quiet (push_event a).
Proof. intros Ha s. eexists _, _, [a]. split_and!; [reflexivity|done|done|]. intros p c. apply Ha. Qed.

(** A handler: it takes the state of a peer and leaves another one; the peer
    is opened or closed only by the event that says so. *)
Definition leads (p : PeerId) (b : bool) (m : N unit) : Prop :=
  ∀ s, ∃ s' st' xs, m s = (Ok tt, s') ∧ peers s' = <[p := st']> (peers s) ∧ events s' = events s ++ xs ∧
    good st' ∧ sessions p (Some b) xs = Some (is_open st') ∧
    ∀ q b, q ≠ p → sessions q (Some b) xs = Some b.

Lemma leads_set p b st' : good st' → b = is_open st' → leads p b (set_entry p st').
Proof.
  intros Hg -> s. eexists _, st', []. split_and!; [reflexivity|done|by rewrite app_nil_r|done|done|done].
Qed.

Lemma leads_quiet {A} p b (m : N A) (k : A → N unit) : quiet m → (∀ a, leads p b (k a)) → leads p b (bind m k).
Proof.
  intros Hm Hk s. destruct (Hm s) as (a & s1 & x1 & H1 & P1 & E1 & S1).
  destruct (Hk a s1) as (s2 & st' & x2 & H2 & P2 & E2 & G & S2 & O2). exists s2, st', (x1 ++ x2).
  unfold bind. rewrite H1. split_and!; [done|by rewrite P2, P1|by rewrite E2, E1, app_assoc|done| |].
  - by rewrite sessions_app, S1.
  - intros q c Hq. by rewrite sessions_app, S1, O2.
Qed.

(** The event that opens or closes the peer. *)
Lemma leads_event p b b' e (k : unit → N unit) : session p b (AGenerateEvent e) = Some b' →
  (∀ q c, q ≠ p → session q c (AGenerateEvent e) = Some c) → leads p b' (k tt) →
  leads p b (bind (push_event (AGenerateEvent e)) k).
Proof.
  intros Hb Hq Hk s. destruct (Hk (with_events (events s ++ [AGenerateEvent e]) s))
    as (s' & st' & xs & H & P & E & G & S & O).
  exists s', st', (AGenerateEvent e :: xs). split_and!; [done|done|rewrite E; cbn; by rewrite <-app_assoc|done| |].
  - by rewrite sessions_cons, Hb.
  - intros q c Hne. rewrite sessions_cons, Hq by done. by apply O.
Qed.

Lemma handler_tells p (f : PeerState → N unit) : (∀ st, good st → leads p (is_open st) (f st)) →
  tells (bind (take_entry p) f).
Proof.
  intros Hf s Hs. set (st := default (Init None) (peers s !! p)).
  assert (good st) as Hg by (unfold st; destruct (peers s !! p) as [x|] eqn:E; cbn; [by apply (Hs p)|done]).
  assert (opened s p = is_open st) as Ho by (unfold opened, st; by destruct (peers s !! p)).
  destruct (Hf st Hg (with_peers (<[p := Locked]> (peers s)) s)) as (s' & st' & xs & H & P & E & G & S & O).
  cbn in P. rewrite insert_insert_eq in P. exists tt, s'. unfold bind, take_entry. fold st. rewrite H.
  split; [done|]. split.
  - intros q x. rewrite P. destruct (decide (q = p)) as [->|Hne].
    + rewrite lookup_insert_eq. by intros [= <-].
    + rewrite lookup_insert_ne by done. apply Hs.
  - exists xs. split; [done|]. intros q. unfold opened at 2. rewrite P. destruct (decide (q = p)) as [->|Hne].
    + by rewrite lookup_insert_eq, Ho.
    + rewrite lookup_insert_ne by done. by apply O.
Qed.

(** ** The handlers *)

Ltac solve_quiet :=
  repeat first
    [ by apply quiet_ret | by apply quiet_asks | by apply untold_modify | by apply quiet_push
    | apply quiet_bind; [|intros] | progress cbv zeta | case_match ].
Ltac solve_leads :=
  repeat first
    [ by apply leads_set
    | eapply leads_event; [cbn; by rewrite decide_True|intros; cbn; by rewrite decide_False|]
    | apply leads_quiet; [by solve_quiet|intros]
    | progress cbv zeta | case_decide | case_match ].

Lemma gen_nonce_quiet : quiet gen_nonce.
Proof.
  intros s. unfold gen_nonce. destruct (draws s); eexists _, _, []; (split_and!; [reflexivity|done|by rewrite app_nil_r|done]).
Qed.
Lemma next_incoming_quiet : quiet next_incoming.
Proof. intros s. eexists _, _, []. split_and!; [reflexivity|done|by rewrite app_nil_r|done]. Qed.
Lemma take_incoming_quiet i : quiet (take_incoming i).
Proof. intros s. eexists _, _, []. split_and!; [reflexivity|done|by rewrite app_nil_r|done]. Qed.
Lemma poll_peer_manager_quiet : quiet poll_peer_manager.
Proof.
  intros s. unfold poll_peer_manager. destruct (PeerManager.poll_next _) as [r m]. eexists _, _, [].
  split_and!; [reflexivity|done|by rewrite app_nil_r|done].
Qed.

Lemma quiet_tells {A} (m : N A) : quiet m → tells m.
Proof.
  intros Hm s Hs. destruct (Hm s) as (a & s' & xs & H & P & E & S). exists a, s'. split; [done|].
  split; [unfold inv; by rewrite P|]. exists xs. split; [done|]. intros p. rewrite S. unfold opened. by rewrite P.
Qed.

Lemma on_peer_manager_quiet f : quiet (on_peer_manager f).
Proof. by apply untold_modify. Qed.
Lemma open_connection_quiet p c n : quiet (open_connection p c n).
Proof. unfold open_connection. solve_quiet. Qed.
Lemma close_connection_quiet p c : quiet (close_connection p c).
Proof. unfold close_connection. solve_quiet. Qed.
Lemma open_incoming_quiet p i l n : quiet (open_incoming p i l n).
Proof. unfold open_incoming. solve_quiet. Qed.
Lemma report_quiet p r : quiet (report p r).
Proof. unfold report. apply on_peer_manager_quiet. Qed.
Lemma listen_quiet p c : quiet (listen p c).
Proof.
  unfold listen. apply quiet_bind; [apply quiet_asks|intros s]. apply quiet_bind; [by apply untold_modify|intros _].
  destruct (_ ≫= _); solve_quiet; first [apply close_connection_quiet|apply next_incoming_quiet|apply on_peer_manager_quiet].
Qed.
Lemma another_connection_quiet p c e l n : quiet (another_connection p c e l n).
Proof. unfold another_connection. case_match; solve_quiet. Qed.
Lemma disconnect_quiet p c : quiet (disconnect p c).
Proof. unfold disconnect. solve_quiet. Qed.

Lemma close_all_tells p : tells (close_all p).
Proof. apply handler_tells. intros [d|l n|l o n|] Hg; cbn in Hg; [solve_leads..|done]. Qed.

Lemma send_message_tells p x : tells (send_message p x).
Proof. apply quiet_tells. unfold send_message. solve_quiet. Qed.

Lemma drop_peer_tells p d : tells (drop_peer p d).
Proof. apply tells_bind; [apply quiet_tells; solve_quiet|intros; apply close_all_tells]. Qed.

Lemma peer_manager_connect_tells p : tells (peer_manager_connect p).
Proof.
  apply handler_tells. intros [d|l n|l o n|] Hg; cbn in Hg; [|solve_leads..|done].
  apply leads_quiet; [apply quiet_asks|intros s]. solve_leads.
Qed.

Lemma peer_manager_accept_tells i : tells (peer_manager_accept i).
Proof.
  apply tells_bind; [apply quiet_tells, take_incoming_quiet|]. intros [p|]; [|apply tells_ret].
  apply handler_tells. intros [d|l n|l o n|] Hg; cbn in Hg; [| | |done];
    (apply leads_quiet; [first [apply on_peer_manager_quiet|apply open_incoming_quiet]|intros; by apply leads_set]).
Qed.

Lemma peer_manager_reject_tells i : tells (peer_manager_reject i).
Proof.
  apply tells_bind; [apply quiet_tells, take_incoming_quiet|]. intros [p|]; [apply close_all_tells|apply tells_ret].
Qed.

Lemma established_tells p c e : tells (inject_connection_established p c e).
Proof.
  apply handler_tells. intros [d|l n|l o n|] Hg; cbn in Hg; [| | |done].
  - apply leads_quiet; [apply gen_nonce_quiet|intros n]. apply leads_quiet; [|intros; by apply leads_set].
    destruct e; [|apply listen_quiet]. apply quiet_bind; [apply open_connection_quiet|intros; apply quiet_ret].
  - apply leads_quiet; [apply another_connection_quiet|intros; by apply leads_set].
  - apply leads_quiet; [apply another_connection_quiet|intros; by apply leads_set].
Qed.

Lemma closed_tells p c : tells (inject_connection_closed p c).
Proof.
  apply handler_tells. intros [d|l n|l o n|] Hg; cbn in Hg; [| | |done]; solve_leads.
  all: apply leads_set; [cbn; by rewrite delete_id|done].
Qed.

Lemma insert_not_empty {A} (k : ConnectionId) (x : A) (m : gmap ConnectionId A) : <[k := x]> m ≠ ∅.
Proof. apply insert_non_empty. Qed.

Lemma on_protocol_open_tells p c h : tells (on_protocol_open p c h).
Proof.
  apply handler_tells. intros [d|l n|l o n|] Hg; cbn in Hg; [solve_leads| | |done].
  - destruct (l !! c); [|solve_leads]. eapply leads_event; [cbn; by rewrite decide_True|intros; cbn; by rewrite decide_False|].
    apply leads_set; [apply map_non_empty_singleton|done].
  - destruct (l !! c); [|solve_leads]. apply leads_set; [apply insert_not_empty|done].
Qed.

Lemma on_protocol_close_tells p c : tells (on_protocol_close p c).
Proof.
  apply handler_tells. intros [d|l n|l o n|] Hg; cbn in Hg; [| | |done]; solve_leads.
  all: apply leads_set; [cbn; by rewrite delete_id|done].
Qed.

Lemma on_protocol_error_tells p c d : tells (on_protocol_error p c d).
Proof.
  apply handler_tells. intros [x|l n|l o n|] Hg; cbn in Hg; [solve_leads| | |done];
    (apply leads_quiet; [|intros; by apply leads_set]); repeat case_match; solve_quiet; apply disconnect_quiet.
Qed.

Lemma message_tells p x : tells (push_event (AGenerateEvent (Message p x))).
Proof. by apply tells_push. Qed.

Lemma inject_event_tells p c e : tells (inject_event p c e).
Proof.
  destruct e; [apply on_protocol_open_tells|apply on_protocol_close_tells|apply on_protocol_error_tells
              |apply message_tells].
Qed.

Lemma inject_dial_failure_tells p : tells (inject_dial_failure p).
Proof.
  apply handler_tells. intros [d|l n|l o n|] Hg; cbn in Hg; [|solve_leads|solve_leads|done].
  apply leads_quiet; [apply report_quiet|intros]. apply leads_quiet; [apply on_peer_manager_quiet|intros]. solve_leads.
Qed.

Lemma on_out_message_tells x : tells (on_out_message x).
Proof.
  destruct x; [apply peer_manager_connect_tells|apply close_all_tells|apply peer_manager_accept_tells
              |apply peer_manager_reject_tells].
Qed.

Lemma manager_loop_tells n : tells (manager_loop n).
Proof.
  induction n as [|n IH]; [apply tells_ret|]. cbn [manager_loop].
  apply tells_bind; [apply quiet_tells, poll_peer_manager_quiet|]. intros [x|]; [|apply tells_ret].
  apply tells_bind; [apply on_out_message_tells|intros; apply IH].
Qed.

Lemma dial_pending_tells p : tells (dial_pending p).
Proof.
  intros s Hs. unfold dial_pending, bind, asks. cbn [id].
  destruct (peers s !! p) as [[[d|]|l n|l o n|]|] eqn:E; [|by eexists _, _; split; [reflexivity|by apply told_refl]..].
  case_decide; [|by eexists _, _; split; [reflexivity|by apply told_refl]].
  eexists _, _. split; [reflexivity|]. split.
  - intros q st. cbn. destruct (decide (q = p)) as [->|Hne].
    + rewrite lookup_insert_eq. by intros [= <-].
    + rewrite lookup_insert_ne by done. apply Hs.
  - exists [ADialPeer p]. split; [done|]. intros q. unfold opened. cbn. destruct (decide (q = p)) as [->|Hne].
    + by rewrite lookup_insert_eq, E.
    + by rewrite lookup_insert_ne.
Qed.

(** An action leaves the queue. *)
Lemma pop_event_spec s : ∃ a s', pop_event s = (Ok a, s') ∧ peers s' = peers s ∧ events s = option_list a ++ events s'.
Proof. unfold pop_event. destruct (events s) as [|a rest] eqn:E; eexists _, _; by split_and!. Qed.

(** The actions that a call yields and queues. *)
Lemma handle_spec ev s : inv s → ∃ a s', handle ev s = (Ok a, s') ∧ inv s' ∧
  ∃ xs, option_list a ++ events s' = events s ++ xs ∧ ∀ p, sessions p (Some (opened s p)) xs = Some (opened s' p).
Proof.
  intros Hs.
  assert (∀ m : N unit, tells m → ∃ a s', bind m (λ _, ret (None : option Action)) s = (Ok a, s') ∧ inv s' ∧
    ∃ xs, option_list a ++ events s' = events s ++ xs ∧
      ∀ p, sessions p (Some (opened s p)) xs = Some (opened s' p)) as Hm.
  { intros m Hm. destruct (Hm s Hs) as ([] & s' & H & T). exists None, s'. unfold bind. rewrite H. by split. }
  destruct ev; cbn [handle]; try apply Hm.
  - apply tells_for_each. intros p. apply quiet_tells. solve_quiet; apply on_peer_manager_quiet.
  - apply send_message_tells.
  - apply drop_peer_tells.
  - apply established_tells.
  - apply closed_tells.
  - apply inject_event_tells.
  - apply inject_dial_failure_tells.
  - apply quiet_tells, report_quiet.
  - clear Hm. unfold poll. destruct (pop_event_spec s) as (a & s1 & H1 & P1 & E1).
    unfold bind at 1. rewrite H1. destruct a as [a|].
    { eexists (Some a), s1. split; [reflexivity|]. split; [unfold inv; by rewrite P1|]. exists [].
      rewrite app_nil_r. split; [done|]. intros p. unfold opened. by rewrite P1. }
    assert (inv s1) as Hs1 by (unfold inv; by rewrite P1).
    assert (tells (do! manager_loop fuel in
      let! peers := asks (λ s, hash_iter (peers s)) in for_each dial_pending peers.*1)) as Ht.
    { apply tells_bind; [apply manager_loop_tells|intros _]. apply tells_bind; [apply tells_asks|intros l].
      apply tells_for_each, dial_pending_tells. }
    destruct (Ht s1 Hs1) as ([] & s2 & H2 & I2 & xs & E2 & S2).
    destruct (pop_event_spec s2) as (a & s3 & H3 & P3 & E3). exists a, s3. split_and!.
    + revert H2. unfold bind, asks. destruct (manager_loop fuel s1) as [[y|e] s']; [|done].
      destruct (for_each _ _ _) as [[[]|e] s'']; [|done]. by intros [= <-].
    + unfold inv. by rewrite P3.
    + exists xs. rewrite <-E3, E2. cbn in E1. rewrite E1. split; [done|]. intros p.
      assert (opened s p = opened s1 p) as -> by (unfold opened; by rewrite P1).
      rewrite S2. unfold opened. by rewrite P3.
  - apply tells_quiet; done.
Qed.

(** ** The loop over the messages of the peer manager *)

Lemma activate_loop_in_rx n m : PeerManager.in_rx (PeerManager.activate_loop n m) = PeerManager.in_rx m.
Proof.
  revert m. induction n as [|n IH]; intros m; [done|]. cbn [PeerManager.activate_loop].
  destruct (PeerManager.take_peer _ _) as [[p rest]|]; [|done].
  destruct (PeerManager.insert_peer _ _ _ _) as [r a]. by destruct r; rewrite ?IH.
Qed.
Lemma dropped_in_rx p m : PeerManager.in_rx (PeerManager.dropped p m) = PeerManager.in_rx m.
Proof. unfold PeerManager.dropped, PeerManager.activate. by rewrite activate_loop_in_rx. Qed.

Lemma poll_loop_shrinks rx m x m' : PeerManager.poll_loop rx m = (Some x, m') →
  length (PeerManager.in_rx m') < length rx ∨
  (length (PeerManager.in_rx m') = length rx ∧ PeerManager.out_messages m = x :: PeerManager.out_messages m').
Proof.
  revert m. induction rx as [|y rx IH]; intros m; cbn [PeerManager.poll_loop];
    destruct (PeerManager.out_messages m) as [|z rest]; try done.
  - intros [= <- <-]. by right.
  - intros [?|[? _]]%IH; left; cbn; lia.
  - intros [= <- <-]. by right.
Qed.

(** What the measure of the loop is made of: the incoming peers that wait for
    an answer, the messages for the peer manager and those it has sent. *)
Definition calm (s s' : Protocol) : Prop :=
  PeerManager.in_rx (peer_manager s') = PeerManager.in_rx (peer_manager s) ∧
  (size (incoming_peers s') < size (incoming_peers s) ∨
   size (incoming_peers s') = size (incoming_peers s) ∧ peer_manager s' = peer_manager s).

Lemma close_all_calm p s : peer_manager (close_all p s).2 = peer_manager s ∧
  incoming_peers (close_all p s).2 = incoming_peers s.
Proof. unfold close_all, bind, take_entry. by destruct (default _ _). Qed.

Lemma connect_calm p s : peer_manager (peer_manager_connect p s).2 = peer_manager s ∧
  incoming_peers (peer_manager_connect p s).2 = incoming_peers s.
Proof.
  unfold peer_manager_connect, bind, take_entry, asks. destruct (default _ _); [|done..]. cbn [id].
  case_decide; [done|]. cbn. destruct (_ ≫= _); [done|]. by destruct pending_dial.
Qed.

Lemma take_incoming_size i s p : incoming_peers s !! i = Some p →
  size (delete i (incoming_peers s)) < size (incoming_peers s).
Proof.
  intros Hp. rewrite map_size_delete, Hp. cbn.
  assert (size (incoming_peers s) ≠ 0); [|lia]. intros Hs%map_size_empty_inv. by rewrite Hs, lookup_empty in Hp.
Qed.

Lemma accept_calm i s : calm s (peer_manager_accept i s).2.
Proof.
  unfold peer_manager_accept, bind at 1, take_incoming.
  destruct (incoming_peers s !! i) as [p|] eqn:E.
  2: { split; [done|]. right. cbn. by rewrite delete_id. }
  pose proof (take_incoming_size i s p E) as Hlt. unfold bind at 1, take_entry.
  destruct (default _ _) as [d|l n|l o n|]; unfold bind, on_peer_manager, open_incoming; cbn.
  - split; [exact (dropped_in_rx p _)|by left].
  - destruct (find_incoming i l); (split; [done|by left]).
  - destruct (find_incoming i l); (split; [done|by left]).
  - split; [done|by left].
Qed.

Lemma reject_calm i s : calm s (peer_manager_reject i s).2.
Proof.
  unfold peer_manager_reject, bind at 1, take_incoming.
  destruct (incoming_peers s !! i) as [p|] eqn:E.
  - pose proof (take_incoming_size i s p E) as Hlt.
    destruct (close_all_calm p (with_incoming_peers (delete i (incoming_peers s)) s)) as [Hm Hi].
    split; [by rewrite Hm|]. left. by rewrite Hi.
  - split; [done|]. right. cbn. by rewrite delete_id.
Qed.

Lemma on_out_message_calm x s : calm s (on_out_message x s).2.
Proof.
  destruct x as [p|p|i|i]; cbn [on_out_message]; [| |apply accept_calm|apply reject_calm].
  - destruct (connect_calm p s) as [Hm Hi]. split; [by rewrite Hm|]. right. by rewrite Hm, Hi.
  - unfold peer_manager_drop. destruct (close_all_calm p s) as [Hm Hi]. split; [by rewrite Hm|]. right. by rewrite Hm, Hi.
Qed.

(** One turn of the loop. *)
Lemma manager_turn s x m' : inv s → PeerManager.poll_next (peer_manager s) = (Some x, m') →
  ∃ s', on_out_message x (with_peer_manager m' s) = (Ok tt, s') ∧ inv s' ∧
    calm (with_peer_manager m' s) s'.
Proof.
  intros Hs Hp. assert (inv (with_peer_manager m' s)) as Hs' by exact Hs.
  destruct (on_out_message_tells x _ Hs') as ([] & s' & H & Hi & _). exists s'. split; [done|]. split; [done|].
  pose proof (on_out_message_calm x (with_peer_manager m' s)) as Hc. by rewrite H in Hc.
Qed.

(** The loop is left when the peer manager has nothing more to say, and it
    comes to that. *)
Lemma manager_loop_ends s : inv s → ∃ n s', ∀ k, n ≤ k → manager_loop k s = (Ok true, s').
Proof.
  remember (size (incoming_peers s)) as a eqn:Ha. revert s Ha.
  induction a as [a IHa] using lt_wf_ind. intros s.
  remember (length (PeerManager.in_rx (peer_manager s))) as d eqn:Hd. revert s Hd.
  induction d as [d IHd] using lt_wf_ind. intros s.
  remember (length (PeerManager.out_messages (peer_manager s))) as c eqn:Hc. revert s Hc.
  induction c as [c IHc] using lt_wf_ind. intros s Hc Hd Ha Hs.
  destruct (PeerManager.poll_next (peer_manager s)) as [[x|] m'] eqn:Hp.
  2: { exists 1, (with_peer_manager m' s). intros [|k] Hk; [lia|]. cbn [manager_loop]. unfold bind, poll_peer_manager.
       by rewrite Hp. }
  destruct (manager_turn s x m' Hs Hp) as (s1 & H1 & I1 & Hrx & Hinc). cbn in Hrx, Hinc.
  assert (∃ n s', ∀ k, n ≤ k → manager_loop k s1 = (Ok true, s')) as (n & s' & Hn).
  { destruct Hinc as [Hlt|[Heq Hm]]; [eapply IHa; [rewrite Ha; exact Hlt|done|done]|].
    apply poll_loop_shrinks in Hp as [Hlt|[He Ho]].
    - eapply IHd; [rewrite Hd, <-Hrx in *; exact Hlt|done|congruence|done].
    - apply (IHc (length (PeerManager.out_messages (peer_manager s1)))); [|done|congruence|congruence|done].
      rewrite Hc, Hm, Ho. cbn. lia. }
  exists (S n), s'. intros [|k] Hk; [lia|]. cbn [manager_loop]. unfold bind, poll_peer_manager. rewrite Hp, H1.
  apply Hn. lia.
Qed.

(** C19: over the life of the network behaviour, whatever connections,
    handlers, peer manager and clock do, it never panics (no state is left
    locked), and its events to the coordinator open and close the protocol
    with each peer in turns: open first, close only what is open, and never
    open twice.  What has been told of a peer is what its state says. *)
Theorem sessions_alternate evs local build pm now draws :
  ∃ actions s, run evs (protocol_new local build pm now draws) = Some (actions, s) ∧
    ∀ p, sessions p (Some false) (actions ++ events s) = Some (opened s p).
Proof.
  assert (∀ s, inv s → ∃ actions s', run evs s = Some (actions, s') ∧ ∃ xs,
    actions ++ events s' = events s ++ xs ∧ ∀ p, sessions p (Some (opened s p)) xs = Some (opened s' p)) as Hrun.
  { induction evs as [|ev evs IH]; intros s Hs.
    { exists [], s. split; [done|]. exists []. by rewrite app_nil_r. }
    cbn [run]. destruct (handle_spec ev s Hs) as (a & s1 & -> & I1 & x1 & E1 & S1).
    destruct (IH s1 I1) as (actions & s2 & -> & x2 & E2 & S2). eexists _, s2. split; [reflexivity|].
    exists (x1 ++ x2). rewrite <-app_assoc, E2, app_assoc, E1, <-app_assoc. split; [done|].
    intros p. by rewrite sessions_app, S1. }
  destruct (Hrun (protocol_new local build pm now draws)) as (actions & s & Hr & xs & E & S).
  { intros p st. cbn. by rewrite lookup_empty. }
  exists actions, s. split; [done|]. intros p. rewrite E. cbn. specialize (S p). unfold opened at 1 in S. cbn in S.
  by rewrite lookup_empty in S.
Qed.
End Sessions.
