(* ===== verification/RaftProtocol.v ===== *)
(** * RaftProtocol

    [core/node/consensus/raft/src/protocol.rs] and [proof.rs]: the messages of
    the protocol, the log entries and the proof of a block, with the codecs
    their derives give. *)
From S2P Require Import Prelude Codec EnumCodec Types.

(** [struct RequestId(u64)] *)
Abbreviation RequestId := Z.

Inductive EntryData :=
| Blank
| EntryProposal (block_hash : Hash).

Record Entry := {
  e_term : Z;
  e_index : Z;
  e_data : EntryData;
}.

Record Proposal := {
  p_block_hash : Hash;
  p_number : BlockNumber;
  p_timestamp : Z;
  p_meta_txs : list Transaction;
  p_payload_txs : list Transaction;
  p_execution_number : BlockNumber;
}.

#[export] Instance entry_data_eq_dec : EqDecision EntryData.
Proof. solve_decision. Defined.
#[export] Instance entry_eq_dec : EqDecision Entry.
Proof. solve_decision. Defined.

Record RegisterValidatorReq := {
  rvq_request_id : RequestId;
  rvq_public_key : PublicKey;
  rvq_signature : Signature;
}.
Record RegisterValidatorRes := {
  rvs_request_id : RequestId;
  rvs_success : bool;
}.
Record AppendEntriesReq := {
  aq_request_id : RequestId;
  aq_term : Z;
  aq_prev_log_index : Z;
  aq_prev_log_term : Z;
  aq_commit_log_index : Z;
  aq_entries : list Entry;
}.
Record AppendEntriesRes := {
  as_request_id : RequestId;
  as_success : bool;
  as_term : Z;
  as_last_log_index : Z;
  as_last_log_term : Z;
}.
Record RequestVoteReq := {
  vq_request_id : RequestId;
  vq_term : Z;
  vq_last_log_index : Z;
  vq_last_log_term : Z;
}.
Record RequestVoteRes := {
  vs_request_id : RequestId;
  vs_term : Z;
  vs_vote_granted : bool;
}.
Record RequestProposalReq := {
  pq_request_id : RequestId;
}.
Record RequestProposalRes := {
  ps_request_id : RequestId;
  ps_extra_election_timeout : Z;
  ps_proposal : option Proposal;
}.

Inductive RaftMessage :=
| MRegisterValidatorReq (req : RegisterValidatorReq)
| MRegisterValidatorRes (res : RegisterValidatorRes)
| MAppendEntriesReq (req : AppendEntriesReq)
| MAppendEntriesRes (res : AppendEntriesRes)
| MRequestVoteReq (req : RequestVoteReq)
| MRequestVoteRes (res : RequestVoteRes)
| MRequestProposalReq (req : RequestProposalReq)
| MRequestProposalRes (res : RequestProposalRes).

(** [struct Proof] of [proof.rs] *)
Record RaftProof := {
  rp_log_index : Z;
  rp_log_term : Z;
  rp_public_key : PublicKey;
  rp_signature : Signature;
}.

Section Codecs.
Context {SC : Scale}.

Definition codec_entry_data : Codec EntryData :=
  iso_codec (sc_sum sc_unit sc_bytes)
    (λ x, match x with inl _ => Blank | inr h => EntryProposal h end)
    (λ d, match d with Blank => inl tt | EntryProposal h => inr h end)
    (λ d, match d with Blank => eq_refl | EntryProposal _ => eq_refl end)
    (λ x, match x with inl tt => eq_refl | inr _ => eq_refl end).

Definition codec_entry : Codec Entry :=
  iso_codec (sc_pair sc_u64 (sc_pair sc_u64 codec_entry_data))
    (λ '(x0, (x1, x2)), Build_Entry x0 x1 x2)
    (λ r, (e_term r, (e_index r, e_data r)))
    (λ r, match r with Build_Entry _ _ _ => eq_refl end) (λ '(x0, (x1, x2)), eq_refl).

Definition codec_proposal : Codec Proposal :=
  iso_codec (sc_pair sc_bytes (sc_pair sc_u64 (sc_pair sc_u64 (sc_pair (sc_list codec_transaction) (sc_pair (sc_list codec_transaction) sc_u64)))))
    (λ '(x0, (x1, (x2, (x3, (x4, x5))))), Build_Proposal x0 x1 x2 x3 x4 x5)
    (λ r, (p_block_hash r, (p_number r, (p_timestamp r, (p_meta_txs r, (p_payload_txs r, p_execution_number r))))))
    (λ r, match r with Build_Proposal _ _ _ _ _ _ => eq_refl end) (λ '(x0, (x1, (x2, (x3, (x4, x5))))), eq_refl).

Definition codec_register_validator_req : Codec RegisterValidatorReq :=
  iso_codec (sc_pair sc_u64 (sc_pair sc_bytes sc_bytes))
    (λ '(x0, (x1, x2)), Build_RegisterValidatorReq x0 x1 x2)
    (λ r, (rvq_request_id r, (rvq_public_key r, rvq_signature r)))
    (λ r, match r with Build_RegisterValidatorReq _ _ _ => eq_refl end) (λ '(x0, (x1, x2)), eq_refl).

Definition codec_register_validator_res : Codec RegisterValidatorRes :=
  iso_codec (sc_pair sc_u64 sc_bool)
    (λ '(x0, x1), Build_RegisterValidatorRes x0 x1)
    (λ r, (rvs_request_id r, rvs_success r))
    (λ r, match r with Build_RegisterValidatorRes _ _ => eq_refl end) (λ '(x0, x1), eq_refl).

Definition codec_append_entries_req : Codec AppendEntriesReq :=
  iso_codec (sc_pair sc_u64 (sc_pair sc_u64 (sc_pair sc_u64 (sc_pair sc_u64 (sc_pair sc_u64 (sc_list codec_entry))))))
    (λ '(x0, (x1, (x2, (x3, (x4, x5))))), Build_AppendEntriesReq x0 x1 x2 x3 x4 x5)
    (λ r, (aq_request_id r, (aq_term r, (aq_prev_log_index r, (aq_prev_log_term r, (aq_commit_log_index r, aq_entries r))))))
    (λ r, match r with Build_AppendEntriesReq _ _ _ _ _ _ => eq_refl end) (λ '(x0, (x1, (x2, (x3, (x4, x5))))), eq_refl).

Definition codec_append_entries_res : Codec AppendEntriesRes :=
  iso_codec (sc_pair sc_u64 (sc_pair sc_bool (sc_pair sc_u64 (sc_pair sc_u64 sc_u64))))
    (λ '(x0, (x1, (x2, (x3, x4)))), Build_AppendEntriesRes x0 x1 x2 x3 x4)
    (λ r, (as_request_id r, (as_success r, (as_term r, (as_last_log_index r, as_last_log_term r)))))
    (λ r, match r with Build_AppendEntriesRes _ _ _ _ _ => eq_refl end) (λ '(x0, (x1, (x2, (x3, x4)))), eq_refl).

Definition codec_request_vote_req : Codec RequestVoteReq :=
  iso_codec (sc_pair sc_u64 (sc_pair sc_u64 (sc_pair sc_u64 sc_u64)))
    (λ '(x0, (x1, (x2, x3))), Build_RequestVoteReq x0 x1 x2 x3)
    (λ r, (vq_request_id r, (vq_term r, (vq_last_log_index r, vq_last_log_term r))))
    (λ r, match r with Build_RequestVoteReq _ _ _ _ => eq_refl end) (λ '(x0, (x1, (x2, x3))), eq_refl).

Definition codec_request_vote_res : Codec RequestVoteRes :=
  iso_codec (sc_pair sc_u64 (sc_pair sc_u64 sc_bool))
    (λ '(x0, (x1, x2)), Build_RequestVoteRes x0 x1 x2)
    (λ r, (vs_request_id r, (vs_term r, vs_vote_granted r)))
    (λ r, match r with Build_RequestVoteRes _ _ _ => eq_refl end) (λ '(x0, (x1, x2)), eq_refl).

Definition codec_request_proposal_req : Codec RequestProposalReq :=
  iso_codec sc_u64
    (λ x0, Build_RequestProposalReq x0)
    (λ r, pq_request_id r)
    (λ r, match r with Build_RequestProposalReq _ => eq_refl end) (λ x0, eq_refl).

Definition codec_request_proposal_res : Codec RequestProposalRes :=
  iso_codec (sc_pair sc_u64 (sc_pair sc_u64 (sc_option codec_proposal)))
    (λ '(x0, (x1, x2)), Build_RequestProposalRes x0 x1 x2)
    (λ r, (ps_request_id r, (ps_extra_election_timeout r, ps_proposal r)))
    (λ r, match r with Build_RequestProposalRes _ _ _ => eq_refl end) (λ '(x0, (x1, x2)), eq_refl).

Definition codec_proof : Codec RaftProof :=
  iso_codec (sc_pair sc_u64 (sc_pair sc_u64 (sc_pair sc_bytes sc_bytes)))
    (λ '(i, (t, (k, s))), Build_RaftProof i t k s)
    (λ p, (rp_log_index p, (rp_log_term p, (rp_public_key p, rp_signature p))))
    (λ p, match p with Build_RaftProof _ _ _ _ => eq_refl end) (λ '(i, (t, (k, s))), eq_refl).

Definition variant_register_validator_req : Variant RaftMessage :=
  Build_Variant _ "RegisterValidatorReq" _ codec_register_validator_req MRegisterValidatorReq
    (λ m, match m with MRegisterValidatorReq x => Some x | _ => None end) ltac:(solve_variant).

Definition variant_register_validator_res : Variant RaftMessage :=
  Build_Variant _ "RegisterValidatorRes" _ codec_register_validator_res MRegisterValidatorRes
    (λ m, match m with MRegisterValidatorRes x => Some x | _ => None end) ltac:(solve_variant).

Definition variant_append_entries_req : Variant RaftMessage :=
  Build_Variant _ "AppendEntriesReq" _ codec_append_entries_req MAppendEntriesReq
    (λ m, match m with MAppendEntriesReq x => Some x | _ => None end) ltac:(solve_variant).

Definition variant_append_entries_res : Variant RaftMessage :=
  Build_Variant _ "AppendEntriesRes" _ codec_append_entries_res MAppendEntriesRes
    (λ m, match m with MAppendEntriesRes x => Some x | _ => None end) ltac:(solve_variant).

Definition variant_request_vote_req : Variant RaftMessage :=
  Build_Variant _ "RequestVoteReq" _ codec_request_vote_req MRequestVoteReq
    (λ m, match m with MRequestVoteReq x => Some x | _ => None end) ltac:(solve_variant).

Definition variant_request_vote_res : Variant RaftMessage :=
  Build_Variant _ "RequestVoteRes" _ codec_request_vote_res MRequestVoteRes
    (λ m, match m with MRequestVoteRes x => Some x | _ => None end) ltac:(solve_variant).

Definition variant_request_proposal_req : Variant RaftMessage :=
  Build_Variant _ "RequestProposalReq" _ codec_request_proposal_req MRequestProposalReq
    (λ m, match m with MRequestProposalReq x => Some x | _ => None end) ltac:(solve_variant).

Definition variant_request_proposal_res : Variant RaftMessage :=
  Build_Variant _ "RequestProposalRes" _ codec_request_proposal_res MRequestProposalRes
    (λ m, match m with MRequestProposalRes x => Some x | _ => None end) ltac:(solve_variant).

Definition raft_variants : list (Variant RaftMessage) :=
  [variant_register_validator_req;
   variant_register_validator_res;
   variant_append_entries_req;
   variant_append_entries_res;
   variant_request_vote_req;
   variant_request_vote_res;
   variant_request_proposal_req;
   variant_request_proposal_res].

#[export] Instance raft_enum : EnumVariants raft_variants.
Proof. solve_enum. Qed.

(** [enum RaftMessage] with its attribute [enum_codec] *)
Definition codec_raft_message : Codec RaftMessage := enum_codec raft_variants.
End Codecs.

(** ** Concrete inputs *)

Module RaftProtocolSamples.
#[local] Existing Instance FrameScale.scale.

Definition vote_request : RequestVoteReq := Build_RequestVoteReq 1 2 3 4.

Lemma enum_codec_roundtrip_witness :
  decode codec_raft_message (encode codec_raft_message (MRequestVoteReq vote_request)) =
  Some (MRequestVoteReq vote_request).
Proof.
  refine (proj2 (proj2 (enum_codec_roundtrip raft_variants variant_request_vote_req
    (MRequestVoteReq vote_request) vote_request _ eq_refl _))).
  - unfold raft_variants. do 4 right. left.
  - repeat split; done.
Defined.
End RaftProtocolSamples.
