(* ===== verification/RaftStorage.v ===== *)
(** * RaftStorage

    [core/node/consensus/raft/src/storage.rs]: the persistent storage of a
    node.  The consensus data on disk is a record of optional values; every
    write is one transaction, which the disk may refuse. *)
From S2P Require Import Prelude Codec Types BTreeMap SystemModule ConsensusSupport RaftProtocol.

(** ** [storage.rs] *)

(** The consensus data on disk, by its keys. *)
Record RaftData := {
  DB_KEY_CURRENT_TERM : option Z;
  DB_KEY_CURRENT_VOTED_FOR : option (option Address);
  DB_KEY_COMMIT_LOG_INDEX : option Z;
  DB_KEY_LOGS : option (list (Z * Entry));
  DB_KEY_PROPOSAL : option (option Proposal);
}.

Definition empty_data : RaftData := Build_RaftData None None None None None.

Definition put_term (x : Z) (d : RaftData) : RaftData :=
  Build_RaftData (Some x) (DB_KEY_CURRENT_VOTED_FOR d) (DB_KEY_COMMIT_LOG_INDEX d)
    (DB_KEY_LOGS d) (DB_KEY_PROPOSAL d).
Definition put_voted_for (x : option Address) (d : RaftData) : RaftData :=
  Build_RaftData (DB_KEY_CURRENT_TERM d) (Some x) (DB_KEY_COMMIT_LOG_INDEX d)
    (DB_KEY_LOGS d) (DB_KEY_PROPOSAL d).
Definition put_commit_log_index (x : Z) (d : RaftData) : RaftData :=
  Build_RaftData (DB_KEY_CURRENT_TERM d) (DB_KEY_CURRENT_VOTED_FOR d) (Some x)
    (DB_KEY_LOGS d) (DB_KEY_PROPOSAL d).
Definition put_logs (x : list (Z * Entry)) (d : RaftData) : RaftData :=
  Build_RaftData (DB_KEY_CURRENT_TERM d) (DB_KEY_CURRENT_VOTED_FOR d)
    (DB_KEY_COMMIT_LOG_INDEX d) (Some x) (DB_KEY_PROPOSAL d).
Definition put_proposal (x : option Proposal) (d : RaftData) : RaftData :=
  Build_RaftData (DB_KEY_CURRENT_TERM d) (DB_KEY_CURRENT_VOTED_FOR d)
    (DB_KEY_COMMIT_LOG_INDEX d) (DB_KEY_LOGS d) (Some x).

(** [struct Storage], with the data on disk and the outcomes of the next
    transactions: [None] is a success, and so is every transaction after the
    end of the list. *)
Record Storage := {
  base_log_index : Z;
  base_log_term : Z;
  current_term : Z;
  current_voted_for : option Address;
  commit_log_index : Z;
  logs : BTreeMap Entry;
  proposal : option Proposal;
  db : RaftData;
  disk : list (option CommonError);
}.

Definition set_base (i t : Z) (s : Storage) : Storage :=
  Build_Storage i t (current_term s) (current_voted_for s) (commit_log_index s) (logs s)
    (proposal s) (db s) (disk s).
Definition set_current_term (x : Z) (s : Storage) : Storage :=
  Build_Storage (base_log_index s) (base_log_term s) x (current_voted_for s)
    (commit_log_index s) (logs s) (proposal s) (db s) (disk s).
Definition set_current_voted_for (x : option Address) (s : Storage) : Storage :=
  Build_Storage (base_log_index s) (base_log_term s) (current_term s) x
    (commit_log_index s) (logs s) (proposal s) (db s) (disk s).
Definition set_commit_log_index (x : Z) (s : Storage) : Storage :=
  Build_Storage (base_log_index s) (base_log_term s) (current_term s) (current_voted_for s)
    x (logs s) (proposal s) (db s) (disk s).
Definition set_logs (x : BTreeMap Entry) (s : Storage) : Storage :=
  Build_Storage (base_log_index s) (base_log_term s) (current_term s) (current_voted_for s)
    (commit_log_index s) x (proposal s) (db s) (disk s).
Definition set_proposal (x : option Proposal) (s : Storage) : Storage :=
  Build_Storage (base_log_index s) (base_log_term s) (current_term s) (current_voted_for s)
    (commit_log_index s) (logs s) x (db s) (disk s).
Definition set_db (x : RaftData) (d : list (option CommonError)) (s : Storage) : Storage :=
  Build_Storage (base_log_index s) (base_log_term s) (current_term s) (current_voted_for s)
    (commit_log_index s) (logs s) (proposal s) x d.

(** [fn commit_consensus_data] *)
Definition commit_consensus_data (op : RaftData → RaftData) :
    M Storage CommonError unit := λ s,
  match disk s with
  | Some e :: rest => (Err e, set_db (db s) rest s)
  | None :: rest => (Ok tt, set_db (op (db s)) rest s)
  | [] => (Ok tt, set_db (op (db s)) [] s)
  end.

Definition get_base_log_index_term (s : Storage) : Z * Z := (base_log_index s, base_log_term s).

Definition get_last_log_index_term (s : Storage) : Z * Z :=
  match last (logs s) with
  | Some (_, v) => (e_index v, e_term v)
  | None => (base_log_index s, base_log_term s)
  end.

Definition update_current_term (x : Z) : M Storage CommonError unit :=
  do! commit_consensus_data (put_term x) in modify (set_current_term x).

Definition update_current_voted_for (x : option Address) : M Storage CommonError unit :=
  do! commit_consensus_data (put_voted_for x) in modify (set_current_voted_for x).

Definition update_commit_log_index (x : Z) : M Storage CommonError unit :=
  do! commit_consensus_data (put_commit_log_index x) in modify (set_commit_log_index x).

Definition update_proposal (x : option Proposal) : M Storage CommonError unit :=
  do! commit_consensus_data (put_proposal x) in modify (set_proposal x).

(** [fn get_log_entries]: the range is a predicate on the keys. *)
Definition get_log_entries (range : Z → bool) (s : Storage) : list Entry :=
  snd <$> bt_range range (logs s).

Definition append_log_entries (entry : list Entry) : M Storage CommonError unit :=
  do! modify (λ s, set_logs (bt_extend ((λ x, (e_index x, x)) <$> entry) (logs s)) s) in
  let! logs_vec := asks logs in
  commit_consensus_data (put_logs logs_vec).

Definition delete_log_entries (range : Z → bool) : M Storage CommonError unit :=
  do! modify (λ s, set_logs (bt_remove range (logs s)) s) in
  let! logs_vec := asks logs in
  commit_consensus_data (put_logs logs_vec).

Section Support.
Context {SC : Scale} {CS : ConsensusSupport}.

(** [fn get_proof] *)
Definition storage_get_proof (w : World) : CommonResult (option RaftProof) :=
  let current_state := get_current_state w in
  if decide (confirmed_number current_state = 0%Z) then Ok None
  else
    let hash := confirmed_block_hash current_state in
    let? proof := get_proof w hash in
    let? proof := ok_or (consensus_error (ConsensusData
                    ("Missing proof: block_hash: " +:+ debug_hash hash))) proof in
    let? proof := ok_or (consensus_error (ConsensusData "Decode proof error"))
                    (decode codec_proof (pf_data proof)) in
    Ok (Some proof).

(** [entry] holds the proposal with the given hash. *)
Definition holds_proposal (p : option Proposal) (entry : Entry) : bool :=
  match e_data entry with
  | EntryProposal block_hash => bool_decide (Some block_hash = p_block_hash <$> p)
  | Blank => false
  end.

(** [Storage::refresh], by its parts: each reads a value of the disk, fixes
    it if needed, and returns it. *)
Definition refresh_term (base_log_term : Z) : M Storage CommonError (Z * option Address) :=
  let! data := asks db in
  let current_term := default 0%Z (DB_KEY_CURRENT_TERM data) in
  let current_voted_for := default None (DB_KEY_CURRENT_VOTED_FOR data) in
  if decide (current_term < base_log_term)%Z then
    do! commit_consensus_data (put_voted_for None ∘ put_term base_log_term) in
    ret (base_log_term, None)
  else ret (current_term, current_voted_for).

Definition refresh_commit_log_index (base_log_index : Z) : M Storage CommonError Z :=
  let! data := asks db in
  let commit_log_index := default 0%Z (DB_KEY_COMMIT_LOG_INDEX data) in
  if decide (commit_log_index < base_log_index)%Z then
    do! commit_consensus_data (put_commit_log_index base_log_index) in
    ret base_log_index
  else ret commit_log_index.

Definition refresh_logs (base_log_index : Z) : M Storage CommonError (BTreeMap Entry) :=
  let! data := asks db in
  let logs := bt_collect (default [] (DB_KEY_LOGS data)) in
  let to_remove_key := fst <$> bt_range (λ k, bool_decide (k ≤ base_log_index)%Z) logs in
  let logs := bt_remove (λ k, bool_decide (k ≤ base_log_index)%Z) logs in
  if decide (to_remove_key ≠ []) then
    do! commit_consensus_data (put_logs logs) in
    ret logs
  else ret logs.

Definition refresh_proposal (logs : BTreeMap Entry) : M Storage CommonError (option Proposal) :=
  let! data := asks db in
  let proposal := default None (DB_KEY_PROPOSAL data) in
  let contained_in_logs := existsb (λ kv, holds_proposal proposal kv.2) logs in
  if decide (¬ contained_in_logs) then
    do! commit_consensus_data (put_proposal None) in
    ret None
  else ret proposal.

Definition refresh (w : World) : M Storage CommonError unit :=
  let! proof := lift (storage_get_proof w) in
  let '(base_log_index, base_log_term) :=
    match proof with
    | Some proof => (rp_log_index proof, rp_log_term proof)
    | None => (0%Z, 0%Z)
    end in
  let! (current_term, current_voted_for) := refresh_term base_log_term in
  let! commit_log_index := refresh_commit_log_index base_log_index in
  let! logs := refresh_logs base_log_index in
  let! proposal := refresh_proposal logs in
  modify (λ s, Build_Storage base_log_index base_log_term current_term current_voted_for
                 commit_log_index logs proposal (db s) (disk s)).

(** [Storage::new] over the data on disk *)
Definition storage_new (data : RaftData) (d : list (option CommonError)) (w : World) :
    CommonResult unit * Storage :=
  refresh w (Build_Storage 0 0 0 None 0 [] None data d).
(** ** Memory and disk *)

(** The memory holds what the disk holds. *)
Record synced (s : Storage) : Prop := {
  synced_term : default 0%Z (DB_KEY_CURRENT_TERM (db s)) = current_term s;
  synced_voted_for : default None (DB_KEY_CURRENT_VOTED_FOR (db s)) = current_voted_for s;
  synced_commit : default 0%Z (DB_KEY_COMMIT_LOG_INDEX (db s)) = commit_log_index s;
  synced_logs : bt_collect (default [] (DB_KEY_LOGS (db s))) = logs s;
  synced_proposal : default None (DB_KEY_PROPOSAL (db s)) = proposal s;
}.

(** The proof of the last confirmed block, as the base of the log. *)
Definition base_of (proof : option RaftProof) : Z * Z :=
  match proof with
  | Some proof => (rp_log_index proof, rp_log_term proof)
  | None => (0%Z, 0%Z)
  end.

(** What [refresh] establishes over the confirmed block: the term and the
    commit index are not behind the block, and only the entries above it and
    the proposal of one of them are kept. *)
Record refreshed (base : Z * Z) (s : Storage) : Prop := {
  refreshed_base : (base_log_index s, base_log_term s) = base;
  refreshed_term : (base_log_term s ≤ current_term s)%Z;
  refreshed_commit : (base_log_index s ≤ commit_log_index s)%Z;
  refreshed_logs : bt_wf (logs s);
  refreshed_above : ∀ k e, (k, e) ∈ logs s → (base_log_index s < k)%Z;
  refreshed_proposal : ∀ p, proposal s = Some p →
    existsb (λ kv, holds_proposal (Some p) kv.2) (logs s) = true;
}.

Lemma commit_consensus_data_ok op s x s' :
  commit_consensus_data op s = (Ok x, s') → ∃ d, s' = set_db (op (db s)) d s.
Proof. unfold commit_consensus_data. destruct (disk s) as [|[e|] d]; naive_solver. Qed.

Lemma commit_consensus_data_err op s e s' :
  commit_consensus_data op s = (Err e, s') → ∃ d, s' = set_db (db s) d s.
Proof. unfold commit_consensus_data. destruct (disk s) as [|[e'|] d]; naive_solver. Qed.

(** Without faults a transaction is written. *)
Lemma commit_consensus_data_nil op s :
  disk s = [] → commit_consensus_data op s = (Ok tt, set_db (op (db s)) [] s).
Proof. unfold commit_consensus_data. by intros ->. Qed.

Lemma set_db_same s : set_db (db s) (disk s) s = s.
Proof. by destruct s. Qed.

(** What [refresh] reads of the disk. *)
Definition term_of (base : Z * Z) (data : RaftData) : Z :=
  Z.max base.2 (default 0%Z (DB_KEY_CURRENT_TERM data)).
Definition voted_for_of (base : Z * Z) (data : RaftData) : option Address :=
  if decide (default 0 (DB_KEY_CURRENT_TERM data) < base.2)%Z then None
  else default None (DB_KEY_CURRENT_VOTED_FOR data).
Definition commit_of (base : Z * Z) (data : RaftData) : Z :=
  Z.max base.1 (default 0%Z (DB_KEY_COMMIT_LOG_INDEX data)).
Definition logs_of (base : Z * Z) (data : RaftData) : BTreeMap Entry :=
  bt_remove (λ k, bool_decide (k ≤ base.1)%Z) (bt_collect (default [] (DB_KEY_LOGS data))).
Definition proposal_of (base : Z * Z) (data : RaftData) : option Proposal :=
  let proposal := default None (DB_KEY_PROPOSAL data) in
  if existsb (λ kv, holds_proposal proposal kv.2) (logs_of base data) then proposal else None.


(** Each part of [refresh] returns its value, changes only the disk, and
    leaves the disk holding the value; a disk without faults does not fail. *)
Definition settles {A} (m : M Storage CommonError A) (v : RaftData → A)
    (held : RaftData → A) (frame : RaftData → RaftData → Prop) : Prop :=
  ∀ s, (∀ x s', m s = (Ok x, s') → x = v (db s) ∧
          ∃ data d, s' = set_db data d s ∧ held data = v (db s) ∧ frame (db s) data) ∧
       (disk s = [] → ∃ data, m s = (Ok (v (db s)), set_db data [] s)).

Lemma settles_ext {A} (m : M Storage CommonError A) v v' held frame :
  (∀ d, v d = v' d) → settles m v held frame → settles m v' held frame.
Proof. intros Hv Hm s. rewrite <-Hv. apply Hm. Qed.

Lemma settles_write {A} (c : RaftData → Prop) `{∀ d, Decision (c d)} op (x y : RaftData → A)
    held frame :
  (∀ d, c d → held (op d d) = x d ∧ frame d (op d d)) →
  (∀ d, ¬ c d → held d = y d ∧ frame d d) →
  settles (let! data := asks db in
           if decide (c data) then do! commit_consensus_data (op data) in ret (x data)
           else ret (y data))
    (λ d, if decide (c d) then x d else y d) held frame.
Proof.
  intros Hx Hy s. split.
  - intros r s' (data & ? & [= <- <-] & Hm)%bind_inv_ok. case_decide as Hc.
    + apply bind_inv_ok in Hm as ([] & s2 & [d ->]%commit_consensus_data_ok & [= <- <-]).
      split; [done|]. exists (op (db s) (db s)), d. by destruct (Hx _ Hc).
    + injection Hm as <- <-. split; [done|]. exists (db s), (disk s).
      rewrite set_db_same. by destruct (Hy _ Hc).
  - intros Hd. unfold bind at 1, asks. case_decide.
    + exists (op (db s) (db s)). erewrite bind_ok by by apply commit_consensus_data_nil. done.
    + exists (db s). by rewrite <-Hd, set_db_same.
Qed.

Lemma refresh_term_settles bi bt :
  settles (refresh_term bt) (λ d, (term_of (bi, bt) d, voted_for_of (bi, bt) d))
    (λ d, (default 0%Z (DB_KEY_CURRENT_TERM d), default None (DB_KEY_CURRENT_VOTED_FOR d)))
    (λ d d', DB_KEY_COMMIT_LOG_INDEX d' = DB_KEY_COMMIT_LOG_INDEX d ∧
             DB_KEY_LOGS d' = DB_KEY_LOGS d ∧ DB_KEY_PROPOSAL d' = DB_KEY_PROPOSAL d).
Proof.
  eapply settles_ext; [|apply (settles_write (λ d, default 0 (DB_KEY_CURRENT_TERM d) < bt)%Z
    (λ _, put_voted_for None ∘ put_term bt) (λ _, (bt, None)) (λ d, (_, _))); done].
  intros d. unfold term_of, voted_for_of. simpl. case_decide; f_equal; lia.
Qed.

Lemma refresh_commit_settles bi bt :
  settles (refresh_commit_log_index bi) (commit_of (bi, bt))
    (λ d, default 0%Z (DB_KEY_COMMIT_LOG_INDEX d))
    (λ d d', DB_KEY_CURRENT_TERM d' = DB_KEY_CURRENT_TERM d ∧
             DB_KEY_CURRENT_VOTED_FOR d' = DB_KEY_CURRENT_VOTED_FOR d ∧
             DB_KEY_LOGS d' = DB_KEY_LOGS d ∧ DB_KEY_PROPOSAL d' = DB_KEY_PROPOSAL d).
Proof.
  eapply settles_ext; [|apply (settles_write (λ d, default 0 (DB_KEY_COMMIT_LOG_INDEX d) < bi)%Z
    (λ _, put_commit_log_index bi) (λ _, bi)); done].
  intros d. unfold commit_of. simpl. case_decide; lia.
Qed.

Lemma refresh_logs_settles bi bt :
  settles (refresh_logs bi) (logs_of (bi, bt))
    (λ d, bt_collect (default [] (DB_KEY_LOGS d)))
    (λ d d', DB_KEY_CURRENT_TERM d' = DB_KEY_CURRENT_TERM d ∧
             DB_KEY_CURRENT_VOTED_FOR d' = DB_KEY_CURRENT_VOTED_FOR d ∧
             DB_KEY_COMMIT_LOG_INDEX d' = DB_KEY_COMMIT_LOG_INDEX d ∧
             DB_KEY_PROPOSAL d' = DB_KEY_PROPOSAL d).
Proof.
  eapply settles_ext; [|apply (settles_write
    (λ d, fst <$> bt_range (λ k, bool_decide (k ≤ bi)%Z)
                    (bt_collect (default [] (DB_KEY_LOGS d))) ≠ [])
    (λ d, put_logs (logs_of (bi, bt) d)) (logs_of (bi, bt)) (logs_of (bi, bt)))].
  - intros d. cbv beta. by destruct (decide _).
  - intros d _. split; [|done]. apply bt_collect_id, bt_filter_wf, bt_collect_wf.
  - intros d Hk. split; [|done]. symmetry. apply bt_remove_none.
    apply dec_stable in Hk. by apply fmap_nil_inv in Hk.
Qed.

Lemma refresh_proposal_settles logs :
  settles (refresh_proposal logs)
    (λ d, let proposal := default None (DB_KEY_PROPOSAL d) in
          if existsb (λ kv, holds_proposal proposal kv.2) logs then proposal else None)
    (λ d, default None (DB_KEY_PROPOSAL d))
    (λ d d', DB_KEY_CURRENT_TERM d' = DB_KEY_CURRENT_TERM d ∧
             DB_KEY_CURRENT_VOTED_FOR d' = DB_KEY_CURRENT_VOTED_FOR d ∧
             DB_KEY_COMMIT_LOG_INDEX d' = DB_KEY_COMMIT_LOG_INDEX d ∧
             DB_KEY_LOGS d' = DB_KEY_LOGS d).
Proof.
  eapply settles_ext; [|apply (settles_write
    (λ d, ¬ existsb (λ kv, holds_proposal (default None (DB_KEY_PROPOSAL d)) kv.2) logs)
    (λ _, put_proposal None) (λ _, None)); done].
  intros d. cbv beta zeta. by destruct (existsb _ logs).
Qed.

Lemma refresh_spec w s :
  (∀ x s', refresh w s = (Ok x, s') → ∃ proof data d, storage_get_proof w = Ok proof ∧
     let base := base_of proof in
     s' = Build_Storage base.1 base.2 (term_of base (db s)) (voted_for_of base (db s))
            (commit_of base (db s)) (logs_of base (db s)) (proposal_of base (db s)) data d ∧
     synced s') ∧
  (disk s = [] → ∀ proof, storage_get_proof w = Ok proof → ∃ s', refresh w s = (Ok tt, s')).
Proof.
  unfold refresh. split.
  - intros x s' (proof & s1 & [= Hp <-] & Hr)%bind_inv_ok. exists proof.
    change (match proof with Some p => _ | None => _ end) with (base_of proof) in Hr.
    destruct (base_of proof) as [bi bt].
    apply bind_inv_ok in Hr as ([t v] & s1 & Ht & Hr).
    apply (refresh_term_settles bi bt s) in Ht as (Heq & d1 & k1 & -> & Hd1 & Hf1).
    apply bind_inv_ok in Hr as (ci & s2 & Hc & Hr).
    apply (refresh_commit_settles bi bt) in Hc as (-> & d2 & k2 & -> & Hd2 & Hf2).
    apply bind_inv_ok in Hr as (l & s3 & Hl & Hr).
    apply (refresh_logs_settles bi bt) in Hl as (-> & d3 & k3 & -> & Hd3 & Hf3).
    apply bind_inv_ok in Hr as (pr & s4 & Hpr & Hr).
    apply refresh_proposal_settles in Hpr as (-> & d4 & k4 & -> & Hd4 & Hf4).
    injection Hr as <- <-. cbn [db set_db] in *. exists d4, k4.
    injection Heq as -> ->. injection Hd1 as Ht1 Hv1. destruct_and!.
    assert (commit_of (bi, bt) d1 = commit_of (bi, bt) (db s)) as Hce
      by (unfold commit_of; congruence).
    assert (logs_of (bi, bt) d2 = logs_of (bi, bt) (db s)) as Hle
      by (unfold logs_of; congruence).
    rewrite Hce, Hle in *. split_and!; [done| |constructor; simpl; congruence].
    assert (DB_KEY_PROPOSAL d3 = DB_KEY_PROPOSAL (db s)) as -> by congruence. done.
  - intros Hd proof Hp. unfold bind at 1, lift. rewrite Hp.
    change (match proof with Some p => _ | None => _ end) with (base_of proof).
    destruct (base_of proof) as [bi bt].
    destruct (proj2 (refresh_term_settles bi bt s) Hd) as [d1 E1].
    rewrite (bind_ok _ _ _ _ _ E1). clear E1.
    match goal with |- context [bind (refresh_commit_log_index ?i) _ ?s] =>
      destruct (proj2 (refresh_commit_settles i bt s) eq_refl) as [d2 E2] end.
    rewrite (bind_ok _ _ _ _ _ E2). clear E2.
    match goal with |- context [bind (refresh_logs ?i) _ ?s] =>
      destruct (proj2 (refresh_logs_settles i bt s) eq_refl) as [d3 E3] end.
    rewrite (bind_ok _ _ _ _ _ E3). clear E3.
    match goal with |- context [bind (refresh_proposal ?l) _ ?s] =>
      destruct (proj2 (refresh_proposal_settles l s) eq_refl) as [d4 E4] end.
    rewrite (bind_ok _ _ _ _ _ E4). clear E4.
    eexists. reflexivity.
Qed.

Lemma holds_proposal_None l : existsb (λ kv : Z * Entry, holds_proposal None kv.2) l = false.
Proof.
  induction l as [|[k [t i []]] l IH]; simpl; [done|done|]. by rewrite IH.
Qed.

(** The operations keep the disk and the memory together when they succeed. *)
Lemma update_current_term_synced x s r s' :
  update_current_term x s = (Ok r, s') → synced s → synced s'.
Proof.
  intros ([] & s1 & [d ->]%commit_consensus_data_ok & [= <- <-])%bind_inv_ok [].
  by constructor.
Qed.
Lemma update_current_voted_for_synced x s r s' :
  update_current_voted_for x s = (Ok r, s') → synced s → synced s'.
Proof.
  intros ([] & s1 & [d ->]%commit_consensus_data_ok & [= <- <-])%bind_inv_ok [].
  by constructor.
Qed.
Lemma update_commit_log_index_synced x s r s' :
  update_commit_log_index x s = (Ok r, s') → synced s → synced s'.
Proof.
  intros ([] & s1 & [d ->]%commit_consensus_data_ok & [= <- <-])%bind_inv_ok [].
  by constructor.
Qed.
Lemma update_proposal_synced x s r s' :
  update_proposal x s = (Ok r, s') → synced s → synced s'.
Proof.
  intros ([] & s1 & [d ->]%commit_consensus_data_ok & [= <- <-])%bind_inv_ok [].
  by constructor.
Qed.
Lemma append_log_entries_synced l s r s' :
  append_log_entries l s = (Ok r, s') → bt_wf (logs s) → synced s → synced s'.
Proof.
  intros ([] & s1 & [= <-] & (m & s2 & [= <- <-] & [d ->]%commit_consensus_data_ok)%bind_inv_ok)
    %bind_inv_ok Hwf []. constructor; try done. by apply bt_collect_id, bt_extend_wf.
Qed.
Lemma delete_log_entries_synced P s r s' :
  delete_log_entries P s = (Ok r, s') → bt_wf (logs s) → synced s → synced s'.
Proof.
  intros ([] & s1 & [= <-] & (m & s2 & [= <- <-] & [d ->]%commit_consensus_data_ok)%bind_inv_ok)
    %bind_inv_ok Hwf []. constructor; try done. by apply bt_collect_id, bt_filter_wf.
Qed.

(** A successful refresh leaves the memory equal to the disk and above
    the confirmed block: the term and the commit index are not behind the
    block's, only entries with greater indices are kept, in order, and a
    proposal is kept only if one of these entries is its entry. *)
Theorem refresh_establishes w s s' :
  refresh w s = (Ok tt, s') →
  synced s' ∧ ∃ proof, storage_get_proof w = Ok proof ∧ refreshed (base_of proof) s'.
Proof.
  intros Hr. apply refresh_spec in Hr as (proof & data & d & Hp & -> & Hs). split; [done|].
  exists proof. split; [done|]. destruct (base_of proof) as [bi bt].
  constructor; simpl; unfold term_of, commit_of; simpl; [done|lia|lia|..].
  - apply bt_filter_wf, bt_collect_wf.
  - intros k e [Hk _]%list_elem_of_filter. simpl in Hk. rewrite bool_decide_spec in Hk. lia.
  - intros p. unfold proposal_of. case_match eqn:E; [|done]. intros Heq. by rewrite Heq in E.
Qed.

(** *** Restarts *)

(** The writes of a storage. *)
Inductive Write :=
| WTerm (x : Z) | WVotedFor (x : option Address) | WCommit (x : Z) | WProposal (x : option Proposal)
| WAppend (entries : list Entry) | WDelete (range : Z → bool) | WRefresh (w : World).

Definition write_op (op : Write) : M Storage CommonError unit :=
  match op with
  | WTerm x => update_current_term x
  | WVotedFor x => update_current_voted_for x
  | WCommit x => update_commit_log_index x
  | WProposal x => update_proposal x
  | WAppend entries => append_log_entries entries
  | WDelete range => delete_log_entries range
  | WRefresh w => refresh w
  end.

(** The writes of one value, which change the memory after the disk. *)
Definition single (op : Write) : bool :=
  match op with WTerm _ | WVotedFor _ | WCommit _ | WProposal _ => true | _ => false end.

(** Any writes, of which those of the log and the refreshes succeed. *)
Inductive written : Storage → Storage → Prop :=
| written_none s : written s s
| written_op op s r s1 s2 :
    write_op op s = (r, s1) → r = Ok tt ∨ single op = true → written s1 s2 → written s s2.

Lemma refused_write op s e s' :
  single op = true → write_op op s = (Err e, s') → s' = set_db (db s) (disk s') s.
Proof.
  intros Hop Hw. assert (∃ o f, (do! commit_consensus_data o in modify f) s = (Err e, s')) as (o & f & Ho)
    by (destruct op; try done; eauto).
  unfold bind in Ho. destruct (commit_consensus_data o s) as [[[]|e'] s1] eqn:Hc; [done|].
  injection Ho as -> ->. by apply commit_consensus_data_err in Hc as [d ->].
Qed.

Lemma write_synced op s r s' : write_op op s = (r, s') → r = Ok tt ∨ single op = true →
  synced s → bt_wf (logs s) → synced s' ∧ bt_wf (logs s').
Proof.
  intros Hw Hr Hs Hwf. destruct r as [[]|e]; cycle 1.
  { destruct Hr as [[=]|Hop]. rewrite (refused_write _ _ _ _ Hop Hw). split; [|done].
    by destruct Hs. }
  destruct op; simpl in Hw.
  - split; [by eapply update_current_term_synced|].
    by apply bind_inv_ok in Hw as ([] & s1 & [d ->]%commit_consensus_data_ok & [= <-]).
  - split; [by eapply update_current_voted_for_synced|].
    by apply bind_inv_ok in Hw as ([] & s1 & [d ->]%commit_consensus_data_ok & [= <-]).
  - split; [by eapply update_commit_log_index_synced|].
    by apply bind_inv_ok in Hw as ([] & s1 & [d ->]%commit_consensus_data_ok & [= <-]).
  - split; [by eapply update_proposal_synced|].
    by apply bind_inv_ok in Hw as ([] & s1 & [d ->]%commit_consensus_data_ok & [= <-]).
  - split; [by eapply append_log_entries_synced|].
    apply bind_inv_ok in Hw as ([] & s1 & [= <-] & (m & s2 & [= <- <-] &
      [d ->]%commit_consensus_data_ok)%bind_inv_ok). by apply bt_extend_wf.
  - split; [by eapply delete_log_entries_synced|].
    apply bind_inv_ok in Hw as ([] & s1 & [= <-] & (m & s2 & [= <- <-] &
      [d ->]%commit_consensus_data_ok)%bind_inv_ok). by apply bt_filter_wf.
  - apply refresh_establishes in Hw as (Hs' & proof & _ & []). done.
Qed.

Lemma written_synced s s' : written s s' → synced s → bt_wf (logs s) → synced s' ∧ bt_wf (logs s').
Proof.
  induction 1 as [|op s r s1 s2 Hw Hr _ IH]; [done|]. intros Hs Hwf.
  destruct (write_synced _ _ _ _ Hw Hr Hs Hwf). by apply IH.
Qed.

Definition memory (s : Storage) :=
  (base_log_index s, base_log_term s, current_term s, current_voted_for s,
   commit_log_index s, logs s, proposal s).

(** The memory of a storage as it is recovered over a block that was decided
    by the entry [base]. *)
Definition recovered (base : Z * Z) (s : Storage) :=
  let above := bt_remove (λ k, bool_decide (k ≤ base.1)%Z) (logs s) in
  (base.1, base.2, Z.max base.2 (current_term s),
   if decide (current_term s < base.2)%Z then None else current_voted_for s,
   Z.max base.1 (commit_log_index s), above,
   if existsb (λ kv, holds_proposal (proposal s) kv.2) above then proposal s else None).

(** C38: a restart recovers what a node remembered.  Take any writes of a
    storage after it was opened, of which the disk may refuse those of the term,
    the vote, the commit index and the proposal, and let any blocks be confirmed
    meanwhile: the storage that is opened again is based on the entry of the last
    confirmed block; it has the term and the commit index that the node had, or
    those of the block if they are greater, the vote unless the term is new, the
    entries above the block, and the proposal if one of these entries is its
    entry; nothing else is forgotten, and it holds what the disk holds.  The
    memory is exactly what it was if the base is, the term, the commit index and
    the entries are not behind it, and the proposal has its entry. *)
Theorem restart_recovers data faults w0 s0 s w proof :
  storage_new data faults w0 = (Ok tt, s0) → written s0 s → storage_get_proof w = Ok proof →
  ∃ s', storage_new (db s) [] w = (Ok tt, s') ∧ memory s' = recovered (base_of proof) s ∧ synced s' ∧
    (refreshed (base_of proof) s → memory s' = memory s).
Proof.
  intros (Hs0 & proof0 & _ & [])%refresh_establishes Hrun Hp.
  destruct (written_synced _ _ Hrun Hs0) as [[Ht Hv Hc Hl Hpr] Hwf]; [done|]. unfold storage_new.
  destruct (proj2 (refresh_spec w (Build_Storage 0 0 0 None 0 [] None (db s) []))
              eq_refl proof Hp) as [s' Hs']. exists s'. split; [done|].
  apply refresh_spec in Hs' as (proof' & data' & d & Hp' & -> & Hs).
  rewrite Hp in Hp'. injection Hp' as <-.
  match goal with |- memory ?m = _ ∧ _ => assert (memory m = recovered (base_of proof) s) as Heq end.
  { unfold memory, recovered. simpl. unfold proposal_of, logs_of, term_of, voted_for_of, commit_of.
    by rewrite Hl, Ht, Hv, Hc, Hpr. }
  split; [exact Heq|]. split; [done|]. rewrite Heq. intros [Hb Hbt Hbc _ Habove Hprop].
  rewrite <-Hb. unfold recovered, memory. cbn [fst snd].
  rewrite bt_remove_id by (intros k e Hin%Habove; apply bool_decide_eq_false; lia).
  rewrite decide_False, !Z.max_r by lia. f_equal.
  destruct (proposal s) as [p|]; [by rewrite Hprop|by rewrite holds_proposal_None].
Qed.
End Support.

(** ** Concrete inputs *)

Module RaftStorageSamples.
#[local] Existing Instance FrameScale.scale.
#[local] Existing Instance sample_support.

(** A chain whose block 1 was decided by the log entry 3 of term 2. *)
Definition world_1 : World := {|
  sw_state := Build_CurrentState sample_meta 1 (sample_hash 1 10) 1 (sample_hash 0 0);
  sw_headers := [(sample_hash 1 10, sample_header 1 10 1 (sample_hash 0 0))];
  sw_proofs := [(sample_hash 1 10,
    Build_Proof SystemModule.CONSENSUS_RAFT (encode codec_proof (Build_RaftProof 3 2 [] [])))];
  sw_answers := [];
  sw_pool := [];
|}.

Definition entry_of (t i : Z) (d : EntryData) : Z * Entry := (i, Build_Entry t i d).
Definition proposal_2 : Proposal := Build_Proposal (sample_hash 2 20) 2 20 [] [] 1.

(** A disk of term 1 with entries around the block. *)
Definition data_1 : RaftData := {|
  DB_KEY_CURRENT_TERM := Some 1%Z;
  DB_KEY_CURRENT_VOTED_FOR := Some (Some (b "A"));
  DB_KEY_COMMIT_LOG_INDEX := None;
  DB_KEY_LOGS := Some [entry_of 2 3 Blank; entry_of 2 4 Blank;
                       entry_of 2 5 (EntryProposal (sample_hash 2 20))];
  DB_KEY_PROPOSAL := Some (Some proposal_2);
|}.

Definition storage_1 : Storage := (storage_new data_1 [] world_1).2.

Lemma storage_1_eq : storage_new data_1 [] world_1 = (Ok tt, storage_1).
Proof. vm_compute. reflexivity. Qed.

Lemma refresh_establishes_witness :
  synced storage_1 ∧ ∃ proof, storage_get_proof world_1 = Ok proof ∧
    refreshed (base_of proof) storage_1.
Proof. exact (refresh_establishes world_1 _ storage_1 storage_1_eq). Defined.

(** The node votes in a new term and appends entries; then block 2, decided by
    the entry 6, is confirmed, and the node is started again. *)
Definition world_2 : World := {|
  sw_state := Build_CurrentState sample_meta 2 (sample_hash 2 20) 2 (sample_hash 1 10);
  sw_headers := [];
  sw_proofs := [(sample_hash 2 20,
    Build_Proof SystemModule.CONSENSUS_RAFT (encode codec_proof (Build_RaftProof 6 4 [] [])))];
  sw_answers := [];
  sw_pool := [];
|}.
Definition append_2 : Write := WAppend [Build_Entry 5 6 Blank; Build_Entry 5 7 Blank].
Definition storage_2 : Storage :=
  (write_op append_2 (write_op (WVotedFor (Some (b "B"))) (write_op (WTerm 5) storage_1).2).2).2.

Lemma restart_recovers_witness : ∃ s', storage_new (db storage_2) [] world_2 = (Ok tt, s') ∧
  base_log_index s' = 6%Z ∧ current_term s' = 5%Z ∧ current_voted_for s' = Some (b "B") ∧
  commit_log_index s' = 6%Z ∧ logs s' = [entry_of 5 7 Blank] ∧ proposal s' = None.
Proof.
  destruct (restart_recovers data_1 [] world_1 storage_1 storage_2 world_2 (Some (Build_RaftProof 6 4 [] [])))
    as (s' & Hs & Hm & _).
  - exact storage_1_eq.
  - apply (written_op (WTerm 5) _ (Ok tt) (write_op (WTerm 5) storage_1).2);
      [by vm_compute|by left|].
    apply (written_op (WVotedFor (Some (b "B"))) _ (Ok tt)
      (write_op (WVotedFor (Some (b "B"))) (write_op (WTerm 5) storage_1).2).2); [by vm_compute|by left|].
    apply (written_op append_2 _ (Ok tt) storage_2); [by vm_compute|by left|apply written_none].
  - by vm_compute.
  - exists s'. split; [exact Hs|]. vm_compute in Hm. injection Hm as ? ? ? ? ? ? ?. by split_and!.
Defined.
End RaftStorageSamples.
