(* ===== verification/RaftVerifier.v ===== *)
(** * RaftVerifier

    [Verifier::verify_proposal] of [core/node/consensus/raft/src/verifier.rs],
    [Proof::new] of [proof.rs] and [verify_proof] of [lib.rs]. *)
From S2P Require Import Prelude Codec Types SystemModule RaftModule ConsensusSupport RaftProtocol BlockVerifier.

Section Raft.
Context {SC : Scale} {CS : ConsensusSupport}.

(** Returns also what is left of the proposal, which is taken after the
    checks of its number. *)
Definition verify_proposal (w : World) (proposal : Proposal) :
    CommonResult (Proposal * ChainCommitBlockParams) * option Proposal :=
  let block_hash := p_block_hash proposal in
  let number := p_number proposal in
  let execution_number := p_execution_number proposal in
  match
    (let? _ := verify_not_repeat ERaftVerify w block_hash in
     let? (_confirmed_number, _confirmed_hash, confirmed_header) :=
       verify_best ERaftVerify w number in
     verify_execution ERaftVerify w number execution_number confirmed_header)
  with
  | Err e => (Err e, Some proposal)
  | Ok _ =>
      ((let? (meta_txs, payload_txs) :=
          verify_body ERaftVerify w (p_meta_txs proposal) (p_payload_txs proposal) in
        let? commit_block_params :=
          verify_header ERaftVerify w (p_block_hash proposal) (p_number proposal)
            (p_timestamp proposal) (p_execution_number proposal) meta_txs payload_txs in
        Ok (proposal, commit_block_params)), None)
  end.

(** [fn get_raft_authorities]: [None] is the panic of [expect]. *)
Definition get_raft_authorities (w : World) (number : BlockNumber) :
    option (CommonResult RaftModule.Authorities) :=
  match execute_call_with_block_number sc_unit RaftModule.codec_authorities w number None
          "raft" "get_authorities" tt with
  | Ok (Ok authorities) => Some (Ok authorities)
  | Ok (Err _) => None
  | Err e => Some (Err e)
  end.

(** [Proof::new] *)
Definition proof_new (block_hash : Hash) (log_index log_term : Z) (secret_key : SecretKey) :
    CommonResult RaftProof :=
  let message := encode (sc_pair sc_bytes (sc_pair sc_u64 sc_u64))
                   (block_hash, (log_index, log_term)) in
  let? (public_key, signature) := support_sign secret_key message in
  Ok (Build_RaftProof log_index log_term public_key signature).

(** [impl TryFrom<Proof> for primitives::Proof] *)
Definition proof_try_into (value : RaftProof) : Proof :=
  {| pf_name := SystemModule.CONSENSUS_RAFT; pf_data := encode codec_proof value |}.

(** [Raft::verify_proof] *)
Definition verify_proof (w : World) (header : Header) (proof : Proof) :
    option (CommonResult unit) :=
  let name := pf_name proof in
  if decide (name ≠ SystemModule.CONSENSUS_RAFT) then
    Some (Err (consensus_error (ConsensusVerifyProofError ("Unexpected consensus: " +:+ name))))
  else
    match decode codec_proof (pf_data proof) with
    | None => Some (Err (consensus_error (ConsensusVerifyProofError "Decode error")))
    | Some proof =>
        let address := support_address (rp_public_key proof) in
        match get_raft_authorities w (u64 (hdr_number header - 1)) with
        | None => None
        | Some (Err e) => Some (Err e)
        | Some (Ok authorities) =>
            if decide (address ∈ RaftModule.authority_members authorities) then Some (Ok tt)
            else Some (Err (consensus_error (ConsensusVerifyProofError "Not authority")))
        end
    end.

Lemma verify_proposal_ok w p p' cbp rest : verify_proposal w p = (Ok (p', cbp), rest) →
  ∃ header meta payload,
    p' = p ∧ rest = None ∧ get_header w (p_block_hash p) = Ok None ∧
    verify_best ERaftVerify w (p_number p) =
      Ok (confirmed_number (get_current_state w), confirmed_block_hash (get_current_state w),
          header) ∧
    verify_execution ERaftVerify w (p_number p) (p_execution_number p) header = Ok tt ∧
    valid_txs w (p_meta_txs p) meta ∧ valid_txs w (p_payload_txs p) payload ∧
    cb_block_hash cbp = p_block_hash p ∧
    build_block w (Build_BuildBlockParams (p_number p) (p_timestamp p) meta payload
                     (p_execution_number p)) = Ok cbp.
Proof.
  unfold verify_proposal.
  destruct (verify_not_repeat _ _ _) as [[]|] eqn:Er; simpl; [|done].
  destruct (verify_best _ _ _) as [[[n h] header]|] eqn:Eb; simpl; [|done].
  destruct (verify_execution _ _ _ _ _) as [[]|] eqn:Ee; simpl; [|done].
  unfold verify_body.
  destruct (get_verified_txs _ _ (p_meta_txs p) _) as [meta|] eqn:Em; simpl; [|done].
  destruct (get_verified_txs _ _ (p_payload_txs p) _) as [payload|] eqn:Ep; simpl; [|done].
  destruct (verify_header _ _ _ _ _ _ _ _) as [cbp'|] eqn:Eh; simpl; [|done].
  intros [= <- <- <-]. exists header, meta, payload.
  pose proof Eb as Eb'. apply verify_best_ok in Eb' as (-> & -> & _).
  apply verify_header_ok in Eh. apply verify_not_repeat_ok in Er.
  apply get_verified_txs_ok in Em as [Em _]. apply get_verified_txs_ok in Ep as [Ep _].
  destruct Eh. by split_and!.
Qed.

(** The chain keeps a header of the last confirmed block, and executes no
    block it has not confirmed. *)
Record sane_chain (w : World) (header : Header) : Prop := {
  sane_header : get_header w (confirmed_block_hash (get_current_state w)) = Ok (Some header);
  sane_number : hdr_number header = confirmed_number (get_current_state w);
  sane_bound : (confirmed_number (get_current_state w) < 2 ^ 64 - 1)%Z;
  sane_gap : (0 ≤ Types.payload_execution_gap header < 2 ^ 7)%Z;
  sane_gap_number : (Types.payload_execution_gap header ≤ hdr_number header)%Z;
  sane_executed : (executed_number (get_current_state w)
                   ≤ confirmed_number (get_current_state w))%Z;
}.

(** C37: a proposal that a validator accepts is the block after the last
    confirmed one, is new, executes a range of blocks that neither goes back
    behind the confirmed block's nor ahead of what is executed and whose gap
    (compared after truncation to eight bits) is within the chain's limit;
    all its transactions are valid and none is repeated within its list; and
    it is the block that the validator builds itself. *)
Theorem accepted_proposal w header p p' cbp rest :
  sane_chain w header → is_u64 (p_execution_number p) →
  verify_proposal w p = (Ok (p', cbp), rest) →
  let state := get_current_state w in
  p' = p ∧ rest = None ∧
  p_number p = (confirmed_number state + 1)%Z ∧
  get_header w (p_block_hash p) = Ok None ∧
  (1 ≤ p_number p - p_execution_number p
     ≤ SystemModule.meta_max_execution_gap (system_meta state))%Z ∧
  (hdr_number header - Types.payload_execution_gap header ≤ p_execution_number p
     ≤ executed_number state)%Z ∧
  ∃ meta payload, valid_txs w (p_meta_txs p) meta ∧ valid_txs w (p_payload_txs p) payload ∧
    cb_block_hash cbp = p_block_hash p ∧
    build_block w (Build_BuildBlockParams (p_number p) (p_timestamp p) meta payload
                     (p_execution_number p)) = Ok cbp.
Proof.
  intros [Hh Hn Hb Hg Hgn Hex] Hue Hv state.
  apply verify_proposal_ok in Hv as (header' & meta & payload & -> & -> & Hnew & Hbest & Hexec &
    Hm & Hp & Hhash & Hbuild).
  apply verify_best_ok in Hbest as (_ & _ & Hh' & Hnum). rewrite Hh in Hh'.
  injection Hh' as <-. fold state in Hnum, Hb, Hn, Hex.
  assert (0 ≤ confirmed_number state)%Z by lia.
  rewrite u64_id in Hnum by (unfold is_u64; lia).
  apply verify_execution_ok in Hexec; [|done|done|unfold is_u64; lia|done|done|done|done].
  split_and!; try done; [apply Hexec..|]. by exists meta, payload.
Qed.

(** A proof that is accepted names an authority of the block before, but
    nothing in it is tied to the block: any proof that carries the public key
    of an authority is accepted for any header of that number, whatever its
    log position and its signature. *)
Theorem verify_proof_ignores_signature w header index term key signature authorities :
  is_u64 index → is_u64 term →
  get_raft_authorities w (u64 (hdr_number header - 1)) = Some (Ok authorities) →
  verify_proof w header (proof_try_into (Build_RaftProof index term key signature)) =
    Some (if decide (support_address key ∈ RaftModule.authority_members authorities) then Ok tt
          else Err (consensus_error (ConsensusVerifyProofError "Not authority"))).
Proof.
  intros Hi Ht Ha. unfold verify_proof, proof_try_into. cbn [pf_name pf_data].
  rewrite decide_False by (intros H; by apply H). rewrite decode_encode.
  - cbn [rp_public_key]. rewrite Ha. by case_decide.
  - unfold codec_proof. cbn [wf iso_codec]. wf_simpl. auto with codec.
Qed.
End Raft.

(** ** Concrete inputs *)

Module RaftVerifierSamples.
#[local] Existing Instance FrameScale.scale.
#[local] Existing Instance sample_support.

Definition sample_authorities : RaftModule.Authorities :=
  RaftModule.Build_Authorities [b "A"; b "B"; b "C"].

(** The genesis block of a chain with three authorities. *)
Definition world_0 : World :=
  sample_genesis [("get_authorities", encode RaftModule.codec_authorities sample_authorities)].

Definition sample_tx (h : string) : Transaction := Build_Transaction None (Build_Call "" "" (b h)).
Definition proposal_1 : Proposal :=
  Build_Proposal (sample_hash 1 5) 1 5 [] [sample_tx "x"; sample_tx "y"] 0.
Definition block_1 : ChainCommitBlockParams :=
  sample_build world_0 (Build_BuildBlockParams 1 5 []
    [Build_FullTransaction (sample_tx "x") (b "x"); Build_FullTransaction (sample_tx "y") (b "y")]
    0).

Lemma accepted_proposal_witness :
  p_number proposal_1 = (confirmed_number (get_current_state world_0) + 1)%Z.
Proof.
  refine (proj1 (proj2 (proj2 (accepted_proposal world_0 (sample_header 0 0 0 []) proposal_1
    proposal_1 block_1 None _ _ _)))).
  - constructor; vm_compute; repeat split; congruence.
  - apply (bool_decide_unpack _). reflexivity.
  - vm_compute. reflexivity.
Defined.

(** A proof with an empty signature and a made-up log position passes. *)
Lemma verify_proof_ignores_signature_witness :
  verify_proof world_0 (sample_header 1 5 1 []) (proof_try_into (Build_RaftProof 77 99 (b "B") []))
  = Some (Ok tt).
Proof.
  refine (verify_proof_ignores_signature world_0 (sample_header 1 5 1 []) 77 99 (b "B") []
    sample_authorities _ _ _).
  - apply (bool_decide_unpack _). reflexivity.
  - apply (bool_decide_unpack _). reflexivity.
  - vm_compute. reflexivity.
Defined.
End RaftVerifierSamples.
