(* ===== verification/RaftStream.v ===== *)
(** * RaftStream

    [core/node/consensus/raft/src/stream.rs]: the task of a node.  Its handlers
    read and write the task's state, send messages, and stop at the first
    error, which the task's loop logs and ignores; a panic ends the task. *)
From S2P Require Import Prelude Codec EnumCodec Types BTreeMap SystemModule RaftModule ConsensusSupport Engine RaftProtocol RaftStorage RaftVerifier.

(** [enum State] of [stream/state.rs] *)
Inductive State :=
| Leader
| Candidate
| Follower
| Observer
| Shutdown.

#[local] Existing Instance RaftModule.authorities_eq_dec.

#[export] Instance state_eq_dec : EqDecision State.
Proof. solve_decision. Defined.

Inductive InternalMessage :=
| LogUpdated
| IRequestVoteRes (address : Address) (res : RequestVoteRes)
| IAppendEntriesRes (address : Address) (res : AppendEntriesRes)
| Generate
| AuthoritiesUpdated (authorities : RaftModule.Authorities).

(** [config.rs] *)
Definition DEFAULT_INIT_EXTRA_ELECTION_TIMEOUT : Z := 10000.
Definition DEFAULT_EXTRA_ELECTION_TIMEOUT_PER_KB : Z := 5.
Definition DEFAULT_REQUEST_PROPOSAL_MIN_INTERVAL : Z := 1000.
Definition SYNC_EXTRA_ELECTION_TIMEOUT : Z := 1000.

Record RaftConfig := {
  init_extra_election_timeout : option Z;
  extra_election_timeout_per_kb : option Z;
  request_proposal_min_interval : option Z;
}.

(** The fields of [struct RaftStream] that never change. *)
Record Setup := {
  raft_meta : RaftModule.Meta;
  raft_config : RaftConfig;
  secret_key : SecretKey;
  public_key : PublicKey;
  address : Address;
}.

Section Stream.
Context {SC : Scale} {CS : ConsensusSupport}.

(** [struct RaftStream], with the messages sent and not yet received, the
    clock, and the numbers that [thread_rng] will draw. *)
Record RaftStream := {
  support : World;
  storage : Storage;
  peers : gmap PeerId PeerInfo;
  known_validators : gmap Address PeerId;
  next_request_id : RequestId;
  current_leader : option Address;
  next_election_instant : option Instant;
  last_heartbeat_instant : option Instant;
  state : State;
  authorities : RaftModule.Authorities;
  internal : list InternalMessage;
  last_request_proposal_instant : option Instant;
  pending_proposal : option Proposal;
  commit_block_params : option ChainCommitBlockParams;
  sync_latency : BlockNumber;
  out : list (PeerId * bytes);
  now : Instant;
  draws : list Z;
}.

Definition with_support (x : World) (s : RaftStream) : RaftStream :=
  Build_RaftStream x (storage s) (peers s) (known_validators s) (next_request_id s)
    (current_leader s) (next_election_instant s) (last_heartbeat_instant s) (state s)
    (authorities s) (internal s) (last_request_proposal_instant s) (pending_proposal s)
    (commit_block_params s) (sync_latency s) (out s) (now s) (draws s).
Definition with_storage (x : Storage) (s : RaftStream) : RaftStream :=
  Build_RaftStream (support s) x (peers s) (known_validators s) (next_request_id s)
    (current_leader s) (next_election_instant s) (last_heartbeat_instant s) (state s)
    (authorities s) (internal s) (last_request_proposal_instant s) (pending_proposal s)
    (commit_block_params s) (sync_latency s) (out s) (now s) (draws s).
Definition with_peers (x : gmap PeerId PeerInfo) (s : RaftStream) : RaftStream :=
  Build_RaftStream (support s) (storage s) x (known_validators s) (next_request_id s)
    (current_leader s) (next_election_instant s) (last_heartbeat_instant s) (state s)
    (authorities s) (internal s) (last_request_proposal_instant s) (pending_proposal s)
    (commit_block_params s) (sync_latency s) (out s) (now s) (draws s).
Definition with_known_validators (x : gmap Address PeerId) (s : RaftStream) : RaftStream :=
  Build_RaftStream (support s) (storage s) (peers s) x (next_request_id s) (current_leader s)
    (next_election_instant s) (last_heartbeat_instant s) (state s) (authorities s)
    (internal s) (last_request_proposal_instant s) (pending_proposal s)
    (commit_block_params s) (sync_latency s) (out s) (now s) (draws s).
Definition with_next_request_id (x : RequestId) (s : RaftStream) : RaftStream :=
  Build_RaftStream (support s) (storage s) (peers s) (known_validators s) x
    (current_leader s) (next_election_instant s) (last_heartbeat_instant s) (state s)
    (authorities s) (internal s) (last_request_proposal_instant s) (pending_proposal s)
    (commit_block_params s) (sync_latency s) (out s) (now s) (draws s).
Definition with_current_leader (x : option Address) (s : RaftStream) : RaftStream :=
  Build_RaftStream (support s) (storage s) (peers s) (known_validators s) (next_request_id s)
    x (next_election_instant s) (last_heartbeat_instant s) (state s) (authorities s)
    (internal s) (last_request_proposal_instant s) (pending_proposal s)
    (commit_block_params s) (sync_latency s) (out s) (now s) (draws s).
Definition with_next_election_instant (x : option Instant) (s : RaftStream) : RaftStream :=
  Build_RaftStream (support s) (storage s) (peers s) (known_validators s) (next_request_id s)
    (current_leader s) x (last_heartbeat_instant s) (state s) (authorities s) (internal s)
    (last_request_proposal_instant s) (pending_proposal s) (commit_block_params s)
    (sync_latency s) (out s) (now s) (draws s).
Definition with_last_heartbeat_instant (x : option Instant) (s : RaftStream) : RaftStream :=
  Build_RaftStream (support s) (storage s) (peers s) (known_validators s) (next_request_id s)
    (current_leader s) (next_election_instant s) x (state s) (authorities s) (internal s)
    (last_request_proposal_instant s) (pending_proposal s) (commit_block_params s)
    (sync_latency s) (out s) (now s) (draws s).
Definition with_state (x : State) (s : RaftStream) : RaftStream :=
  Build_RaftStream (support s) (storage s) (peers s) (known_validators s) (next_request_id s)
    (current_leader s) (next_election_instant s) (last_heartbeat_instant s) x (authorities s)
    (internal s) (last_request_proposal_instant s) (pending_proposal s)
    (commit_block_params s) (sync_latency s) (out s) (now s) (draws s).
Definition with_authorities (x : RaftModule.Authorities) (s : RaftStream) : RaftStream :=
  Build_RaftStream (support s) (storage s) (peers s) (known_validators s) (next_request_id s)
    (current_leader s) (next_election_instant s) (last_heartbeat_instant s) (state s) x
    (internal s) (last_request_proposal_instant s) (pending_proposal s)
    (commit_block_params s) (sync_latency s) (out s) (now s) (draws s).
Definition with_internal (x : list InternalMessage) (s : RaftStream) : RaftStream :=
  Build_RaftStream (support s) (storage s) (peers s) (known_validators s) (next_request_id s)
    (current_leader s) (next_election_instant s) (last_heartbeat_instant s) (state s)
    (authorities s) x (last_request_proposal_instant s) (pending_proposal s)
    (commit_block_params s) (sync_latency s) (out s) (now s) (draws s).
Definition with_last_request_proposal_instant (x : option Instant) (s : RaftStream) : RaftStream :=
  Build_RaftStream (support s) (storage s) (peers s) (known_validators s) (next_request_id s)
    (current_leader s) (next_election_instant s) (last_heartbeat_instant s) (state s)
    (authorities s) (internal s) x (pending_proposal s) (commit_block_params s)
    (sync_latency s) (out s) (now s) (draws s).
Definition with_pending_proposal (x : option Proposal) (s : RaftStream) : RaftStream :=
  Build_RaftStream (support s) (storage s) (peers s) (known_validators s) (next_request_id s)
    (current_leader s) (next_election_instant s) (last_heartbeat_instant s) (state s)
    (authorities s) (internal s) (last_request_proposal_instant s) x (commit_block_params s)
    (sync_latency s) (out s) (now s) (draws s).
Definition with_commit_block_params (x : option ChainCommitBlockParams) (s : RaftStream) : RaftStream :=
  Build_RaftStream (support s) (storage s) (peers s) (known_validators s) (next_request_id s)
    (current_leader s) (next_election_instant s) (last_heartbeat_instant s) (state s)
    (authorities s) (internal s) (last_request_proposal_instant s) (pending_proposal s) x
    (sync_latency s) (out s) (now s) (draws s).
Definition with_sync_latency (x : BlockNumber) (s : RaftStream) : RaftStream :=
  Build_RaftStream (support s) (storage s) (peers s) (known_validators s) (next_request_id s)
    (current_leader s) (next_election_instant s) (last_heartbeat_instant s) (state s)
    (authorities s) (internal s) (last_request_proposal_instant s) (pending_proposal s)
    (commit_block_params s) x (out s) (now s) (draws s).
Definition with_out (x : list (PeerId * bytes)) (s : RaftStream) : RaftStream :=
  Build_RaftStream (support s) (storage s) (peers s) (known_validators s) (next_request_id s)
    (current_leader s) (next_election_instant s) (last_heartbeat_instant s) (state s)
    (authorities s) (internal s) (last_request_proposal_instant s) (pending_proposal s)
    (commit_block_params s) (sync_latency s) x (now s) (draws s).
Definition with_now (x : Instant) (s : RaftStream) : RaftStream :=
  Build_RaftStream (support s) (storage s) (peers s) (known_validators s) (next_request_id s)
    (current_leader s) (next_election_instant s) (last_heartbeat_instant s) (state s)
    (authorities s) (internal s) (last_request_proposal_instant s) (pending_proposal s)
    (commit_block_params s) (sync_latency s) (out s) x (draws s).
Definition with_draws (x : list Z) (s : RaftStream) : RaftStream :=
  Build_RaftStream (support s) (storage s) (peers s) (known_validators s) (next_request_id s)
    (current_leader s) (next_election_instant s) (last_heartbeat_instant s) (state s)
    (authorities s) (internal s) (last_request_proposal_instant s) (pending_proposal s)
    (commit_block_params s) (sync_latency s) (out s) (now s) x.

Inductive VerifyAction :=
| VerifyOk (proposal : Proposal) (commit_block_params : ChainCommitBlockParams)
| Wait
| Discard.

(** ** Calls of the task *)

Definition R (A : Type) : Type := M RaftStream Failure A.

Definition on_storage {A} (m : M Storage CommonError A) : R A := λ s,
  let '(r, st) := m (storage s) in (map_err Fail r, with_storage st s).

Definition on_support {A} (m : M World CommonError A) : R A := λ s,
  let '(r, w) := m (support s) in (map_err Fail r, with_support w s).

(** [internal_tx.unbounded_send]: the receiver is the task itself. *)
Definition internal_send (m : InternalMessage) : R unit :=
  modify (λ s, with_internal (internal s ++ [m]) s).

Variable self : Setup.

(** [thread_rng().gen_range(..)] panics when the range is empty. *)
Definition gen_range (low high : Z) : R Z :=
  if decide (low < high)%Z then λ s,
    match draws s with
    | x :: rest => (Ok (low + x mod (high - low))%Z, with_draws rest s)
    | [] => (Ok low, s)
    end
  else panic.

Definition rand_election_timeout : R Z :=
  gen_range (RaftModule.meta_election_timeout_min (raft_meta self))
    (RaftModule.meta_election_timeout_max (raft_meta self)).

(** [fn next_election_instant] *)
Definition get_next_election_instant : R Instant :=
  let! next := asks next_election_instant in
  match next with
  | Some inst => ret inst
  | None =>
      let! now := asks now in
      let! timeout := rand_election_timeout in
      let inst := (now + timeout)%Z in
      do! modify (with_next_election_instant (Some inst)) in
      ret inst
  end.

Definition update_next_election_instant (extra : Z) (heartbeat : bool) : R unit :=
  let! now := asks now in
  let! s := asks id in
  let sync_extra :=
    if decide (state s = Follower ∧ sync_latency s > 0)%Z then SYNC_EXTRA_ELECTION_TIMEOUT
    else 0%Z in
  let! timeout := rand_election_timeout in
  do! modify (with_next_election_instant (Some (now + timeout + extra + sync_extra)%Z)) in
  if heartbeat then modify (with_last_heartbeat_instant (Some now)) else ret tt.

Definition update_current_leader (leader : option Address) : R unit :=
  modify (with_current_leader leader).

(** A node that is not an authority follows as an observer. *)
Definition update_state (st : State) : R unit :=
  modify (λ s,
    if decide (st = Follower ∧ address self ∉ RaftModule.authority_members (authorities s))
    then with_state Observer s
    else with_state st s).

Definition update_sync_latency (latency : BlockNumber) : R unit :=
  do! modify (with_sync_latency latency) in
  if decide (latency = 0%Z) then update_next_election_instant 0 false else ret tt.

(** ** Out messages *)

Definition send_out_message (peer_id : PeerId) (message : RaftMessage) : R unit :=
  modify (λ s, with_out (out s ++ [(peer_id, encode codec_raft_message message)]) s).

(** [fn request], which numbers the request. *)
Definition request (peer_id : PeerId) (req : RequestId → RaftMessage) : R RequestId :=
  let! request_id := asks next_request_id in
  do! modify (with_next_request_id (next_id request_id)) in
  do! send_out_message peer_id (req request_id) in
  ret request_id.

Definition response (peer_id : PeerId) (res : RaftMessage) : R unit :=
  send_out_message peer_id res.

Definition get_peer_address (peer_id : PeerId) (s : RaftStream) : option Address :=
  peers s !! peer_id ≫= pi_address.

(** A request to a validator that is registered to us. *)
Definition request_validator (addr : Address) (req : RequestId → RaftMessage) :
    R (option RequestId) :=
  let! known := asks known_validators in
  match known !! addr with
  | Some peer_id =>
      let! request_id := request peer_id req in
      ret (Some request_id)
  | None => ret None
  end.

Definition append_entries (addr : Address) (req : AppendEntriesReq) : R (option RequestId) :=
  request_validator addr (λ id, MAppendEntriesReq
    (Build_AppendEntriesReq id (aq_term req) (aq_prev_log_index req) (aq_prev_log_term req)
       (aq_commit_log_index req) (aq_entries req))).

Definition request_vote (addr : Address) (req : RequestVoteReq) : R (option RequestId) :=
  request_validator addr (λ id, MRequestVoteReq
    (Build_RequestVoteReq id (vq_term req) (vq_last_log_index req) (vq_last_log_term req))).

Definition request_proposal (addr : Address) (req : RequestProposalReq) :
    R (option RequestId) :=
  request_validator addr (λ id, MRequestProposalReq (Build_RequestProposalReq id)).

(** ** Registering validators *)

Definition register_validator (peer_id : PeerId) : R (option RequestId) :=
  let! peers := asks peers in
  match peers !! peer_id with
  | None => ret None
  | Some peer_info =>
      let message := encode sc_u64 (remote_nonce peer_info) in
      let! (_, signature) := try (support_sign (secret_key self) message) in
      let! request_id := request peer_id (λ id, MRegisterValidatorReq
        (Build_RegisterValidatorReq id (public_key self) signature)) in
      ret (Some request_id)
  end.

Definition on_req_register_validator (peer_id : PeerId) (req : RegisterValidatorReq) :
    R RegisterValidatorRes :=
  let! peers_ := asks peers in
  let! success :=
    match peers_ !! peer_id with
    | None => ret false
    | Some peer_info =>
        let message := encode sc_u64 (local_nonce peer_info) in
        let! success := try (support_verify (rvq_public_key req) message (rvq_signature req)) in
        do! (if success : bool then
               let addr := support_address (rvq_public_key req) in
               let peer_info := Build_PeerInfo (local_nonce peer_info) (remote_nonce peer_info)
                                  (Some addr) in
               do! modify (λ s, with_peers (<[peer_id := peer_info]> (peers s)) s) in
               modify (λ s, with_known_validators (<[addr := peer_id]> (known_validators s)) s)
             else ret tt) in
        ret success
    end in
  ret (Build_RegisterValidatorRes (rvq_request_id req) success).

Definition on_res_register_validator (peer_id : PeerId) (res : RegisterValidatorRes) : R unit :=
  ret tt.

(** ** Proposals *)

Definition on_proposal_verify_err (e : VerifyError) : VerifyAction :=
  match e with
  | ShouldWait => Wait
  | Duplicated | NotBest | InvalidExecutionGap | InvalidHeader _ | VDuplicatedTx _
  | VInvalidTx _ => Discard
  end.

Definition on_proposal_verify_ok (p : Proposal) (cbp : ChainCommitBlockParams) :
    CommonResult VerifyAction := Ok (VerifyOk p cbp).

Definition on_proposal_verify_result
    (result : CommonResult (Proposal * ChainCommitBlockParams)) : CommonResult VerifyAction :=
  or_else_catch as_raft (λ e, Some (Ok (on_proposal_verify_err e)))
    (let? (p, cbp) := result in on_proposal_verify_ok p cbp).

(** The body of [fn on_proposal], which [perform_append_entries] repeats. *)
Definition on_proposal (p : Proposal) : R unit :=
  let! w := asks support in
  let '(result, rest) := verify_proposal w p in
  let! action := try (on_proposal_verify_result result) in
  match action with
  | VerifyOk p cbp =>
      do! modify (with_commit_block_params (Some cbp)) in
      on_storage (update_proposal (Some p))
  | Wait => modify (with_pending_proposal rest)
  | Discard => ret tt
  end.

Definition on_req_request_proposal (addr : Address) (req : RequestProposalReq) :
    R RequestProposalRes :=
  let! st := asks storage in
  let! p := try (ok_or (consensus_error (ConsensusData
              "Missing proposal on req request proposal")) (proposal st)) in
  let proposal_size := Z.of_nat (length (encode codec_proposal p)) in
  let per_kb := default DEFAULT_EXTRA_ELECTION_TIMEOUT_PER_KB
                  (extra_election_timeout_per_kb (raft_config self)) in
  let extra := (u64 (per_kb * proposal_size) / 1024)%Z in
  let! known := asks known_validators in
  do! match known !! addr with
      | Some peer_id =>
          response peer_id (MRequestProposalRes (Build_RequestProposalRes 0 extra None))
      | None => ret tt
      end in
  ret (Build_RequestProposalRes (pq_request_id req) 0 (Some p)).

Definition on_res_request_proposal (addr : Address) (res : RequestProposalRes) : R unit :=
  do! update_next_election_instant (ps_extra_election_timeout res) false in
  match ps_proposal res with
  | Some p =>
      let! result := attempt (on_proposal p) in
      do! update_next_election_instant 0 false in
      try result
  | None => ret tt
  end.

(** ** Appending entries *)

(** [find_map]: the hash of the first proposal among the entries. *)
Fixpoint find_proposal (entries : list Entry) : option Hash :=
  match entries with
  | [] => None
  | e :: entries =>
      match e_data e with
      | EntryProposal block_hash => Some block_hash
      | Blank => find_proposal entries
      end
  end.

(** A proposal is requested unless one was requested recently or is pending. *)
Definition request_proposal_now (s : RaftStream) : bool :=
  let interval := default DEFAULT_REQUEST_PROPOSAL_MIN_INTERVAL
                    (request_proposal_min_interval (raft_config self)) in
  let recently :=
    match last_request_proposal_instant s with
    | Some inst => bool_decide (now s - inst ≤ interval)%Z
    | None => false
    end in
  negb recently && bool_decide (pending_proposal s = None).

Definition append_entries_res (request_id : RequestId) (success : bool) (term : Z)
    (last_log : Z * Z) : AppendEntriesRes :=
  Build_AppendEntriesRes request_id success term last_log.1 last_log.2.

(** The end of [perform_append_entries]. *)
Definition append_and_respond (req : AppendEntriesReq) : R AppendEntriesRes :=
  do! on_storage (append_log_entries (aq_entries req)) in
  let! st := asks storage in
  ret (append_entries_res (aq_request_id req) true (current_term st)
         (get_last_log_index_term st)).

Definition perform_append_entries (addr : Address) (req : AppendEntriesReq) :
    R AppendEntriesRes :=
  match find_proposal (aq_entries req) with
  | None => append_and_respond req
  | Some remote =>
      (* clear discordant local proposal *)
      let! st := asks storage in
      do! (if decide (p_block_hash <$> proposal st = Some remote) then ret tt
           else on_storage (update_proposal None)) in
      (* clear discordant pending proposal *)
      do! modify (λ s,
        if decide (p_block_hash <$> pending_proposal s = Some remote) then s
        else with_pending_proposal None s) in
      (* verify pending proposal *)
      let! pending := asks pending_proposal in
      do! match pending with
          | Some p =>
              do! modify (with_pending_proposal None) in
              on_proposal p
          | None => ret tt
          end in
      let! st := asks storage in
      match proposal st with
      | Some _ => append_and_respond req
      | None =>
          let! request_now := asks request_proposal_now in
          do! (if request_now : bool then
                 let! _ := request_proposal addr (Build_RequestProposalReq 0) in
                 modify (λ s, with_last_request_proposal_instant (Some (now s)) s)
               else ret tt) in
          let! st := asks storage in
          ret (append_entries_res (aq_request_id req) false (current_term st)
                 (get_last_log_index_term st))
      end
  end.

Definition on_req_append_entries (addr : Address) (req : AppendEntriesReq) :
    R AppendEntriesRes :=
  let! st := asks storage in
  let last_log := get_last_log_index_term st in
  let current_term := current_term st in
  if decide (aq_term req < current_term)%Z then
    ret (append_entries_res (aq_request_id req) false current_term last_log)
  else
    do! update_next_election_instant 0 true in
    do! on_storage (update_commit_log_index (aq_commit_log_index req)) in
    do! (if decide (aq_term req ≠ current_term) then
           do! on_storage (update_current_term (aq_term req)) in
           on_storage (update_current_voted_for None)
         else ret tt) in
    do! update_current_leader (Some addr) in
    do! update_state Follower in
    match aq_entries req with
    | [] => ret (append_entries_res (aq_request_id req) true current_term last_log)
    | first :: _ =>
        if decide (e_index first ≠ u64 (aq_prev_log_index req + 1)) then
          ret (append_entries_res (aq_request_id req) false current_term last_log)
        else
          let! st := asks storage in
          let prev := (aq_prev_log_index req, aq_prev_log_term req) in
          if decide (prev = get_last_log_index_term st) then perform_append_entries addr req
          else
            let base := get_base_log_index_term st in
            let prev_log_exists :=
              existsb (λ x, bool_decide (e_term x = aq_prev_log_term req))
                (get_log_entries (λ k, bool_decide (k = aq_prev_log_index req)) st)
              || bool_decide (prev = base) in
            if negb prev_log_exists then
              ret (append_entries_res (aq_request_id req) false current_term base)
            else
              do! on_storage (delete_log_entries
                    (λ k, bool_decide (u64 (aq_prev_log_index req + 1) ≤ k)%Z)) in
              perform_append_entries addr req
    end.

Definition on_res_append_entries (addr : Address) (res : AppendEntriesRes) : R unit :=
  internal_send (IAppendEntriesRes addr res).

(** ** Votes *)

Definition request_vote_res (request_id : RequestId) (term : Z) (granted : bool) :
    RequestVoteRes := Build_RequestVoteRes request_id term granted.

Definition on_req_request_vote (addr : Address) (req : RequestVoteReq) : R RequestVoteRes :=
  let! s := asks id in
  let current_term := current_term (storage s) in
  let refuse := ret (request_vote_res (vq_request_id req) current_term false) in
  if decide (vq_term req < current_term)%Z then refuse
  else if match last_heartbeat_instant s with
          | Some inst =>
              bool_decide (now s - inst
                           ≤ RaftModule.meta_election_timeout_min (raft_meta self))%Z
          | None => false
          end then refuse
  else
    do! (if decide (vq_term req > current_term)%Z then
           do! update_next_election_instant 0 false in
           do! update_state Follower in
           do! on_storage (update_current_term (vq_term req)) in
           on_storage (update_current_voted_for None)
         else ret tt) in
    let! st := asks storage in
    let '(last_log_index, last_log_term) := get_last_log_index_term st in
    let uptodate := bool_decide (last_log_index ≤ vq_last_log_index req ∧
                                 last_log_term ≤ vq_last_log_term req)%Z in
    if negb uptodate then refuse
    else
      match current_voted_for st with
      | Some voted_address =>
          ret (request_vote_res (vq_request_id req) current_term
                 (bool_decide (voted_address = addr)))
      | None =>
          do! update_state Follower in
          do! update_next_election_instant 0 false in
          do! on_storage (update_current_voted_for (Some addr)) in
          ret (request_vote_res (vq_request_id req) current_term true)
      end.

Definition on_res_request_vote (addr : Address) (res : RequestVoteRes) : R unit :=
  internal_send (IRequestVoteRes addr res).

(** ** Internal messages *)

(** Clear discordant parameters. *)
Definition accordant (committed : Hash) (kept : option ChainCommitBlockParams) :
    option ChainCommitBlockParams :=
  match kept with
  | Some cbp => if decide (cb_block_hash cbp = committed) then Some cbp else None
  | None => None
  end.

(** The parameters kept since the proposal was built or verified, if they
    are of the committed block; otherwise the block is built again. *)
Definition take_commit_block_params (committed : Hash) (p : Proposal) :
    R ChainCommitBlockParams :=
  let! kept := asks commit_block_params in
  do! modify (with_commit_block_params None) in
  match accordant committed kept with
  | Some cbp => ret cbp
  | None =>
      let! w := asks support in
      try (let? meta_txs := convert_txs (p_meta_txs p) in
           let? payload_txs := convert_txs (p_payload_txs p) in
           build_block w (Build_BuildBlockParams (p_number p) (p_timestamp p) meta_txs
                            payload_txs (p_execution_number p)))
  end.

Definition on_log_updated : R unit :=
  let! st := asks storage in
  let entries := get_log_entries (λ k, bool_decide (k ≤ commit_log_index st)%Z) st in
  match find_proposal entries with
  | None => ret tt
  | Some committed =>
      let! p := try (ok_or (consensus_error (ConsensusData "Missing proposal")) (proposal st)) in
      let! cbp := take_commit_block_params committed p in
      let '(log_index, log_term) := get_last_log_index_term st in
      let! pf := try (proof_new (cb_block_hash cbp) log_index log_term (secret_key self)) in
      let cbp := with_proof (proof_try_into pf) cbp in
      let tx_hash_set : gset Hash :=
        list_to_set (body_meta_txs (cb_body cbp) ++ body_payload_txs (cb_body cbp)) in
      do! on_support (commit_block cbp) in
      on_support (txpool_remove_transactions tx_hash_set)
  end.

Definition on_internal_message (m : InternalMessage) : R unit :=
  match m with
  | LogUpdated => on_log_updated
  | _ => ret tt
  end.

(** ** In messages *)

Definition on_block_committed (number : BlockNumber) (block_hash : Hash) : R unit :=
  let! w := asks support in
  do! on_storage (refresh w) in
  match get_raft_authorities w (confirmed_number (get_current_state w)) with
  | None => panic
  | Some r =>
      let! new := try r in
      let! old := asks authorities in
      if decide (old = new) then ret tt
      else
        do! modify (with_authorities new) in
        internal_send (AuthoritiesUpdated new)
  end.

Definition on_network_protocol_open (peer_id : PeerId) (local remote : Z) : R unit :=
  do! modify (λ s, with_peers (<[peer_id := Build_PeerInfo local remote None]> (peers s)) s) in
  let! _ := register_validator peer_id in
  ret tt.

Definition on_network_protocol_close (peer_id : PeerId) : R unit :=
  let! s := asks id in
  do! match get_peer_address peer_id s with
      | Some addr => modify (λ s, with_known_validators (delete addr (known_validators s)) s)
      | None => ret tt
      end in
  modify (λ s, with_peers (delete peer_id (peers s)) s).

Definition on_network_message (peer_id : PeerId) (message : bytes) : R unit :=
  let! message := try (codec_decode codec_raft_message message) in
  let! s := asks id in
  let peer_address := get_peer_address peer_id s in
  match message, peer_address with
  | MRegisterValidatorReq req, _ =>
      let! res := on_req_register_validator peer_id req in
      response peer_id (MRegisterValidatorRes res)
  | MRegisterValidatorRes res, _ => on_res_register_validator peer_id res
  | MAppendEntriesReq req, Some addr =>
      let! res := on_req_append_entries addr req in
      do! internal_send LogUpdated in
      response peer_id (MAppendEntriesRes res)
  | MAppendEntriesRes res, Some addr => on_res_append_entries addr res
  | MRequestVoteReq req, Some addr =>
      let! res := on_req_request_vote addr req in
      response peer_id (MRequestVoteRes res)
  | MRequestVoteRes res, Some addr => on_res_request_vote addr res
  | MRequestProposalReq req, Some addr =>
      let! res := on_req_request_proposal addr req in
      response peer_id (MRequestProposalRes res)
  | MRequestProposalRes res, Some addr => on_res_request_proposal addr res
  | _, None => ret tt
  end.

Definition on_in_message (m : ConsensusInMessage) : R unit :=
  match m with
  | NetworkProtocolOpen peer_id local remote => on_network_protocol_open peer_id local remote
  | NetworkProtocolClose peer_id => on_network_protocol_close peer_id
  | NetworkMessage peer_id message => on_network_message peer_id message
  | BlockCommitted number block_hash => on_block_committed number block_hash
  | InGenerate => internal_send Generate
  | GetConsensusState => ret tt
  | SyncLatencyUpdated latency => update_sync_latency latency
  end.
End Stream.
