(* ===== verification/RaftState.v ===== *)
(** * RaftState

    [core/node/consensus/raft/src/stream/state.rs]: what the task does as a
    leader, a candidate, a follower or an observer, and the replication tasks
    of a leader.  The tasks talk through queues, which are part of the state. *)
From stdpp Require Import sorting.
From S2P Require Import Prelude Codec Types BTreeMap SystemModule RaftModule ConsensusSupport Engine RaftProtocol RaftStorage RaftStream.

#[local] Existing Instance RaftModule.authorities_eq_dec.

Inductive ReplicationInMessage :=
| AppendEntriesReqResult (request_id : option RequestId)
| RAppendEntriesRes (res : AppendEntriesRes).

Inductive ReplicationOutMessage :=
| RAppendEntriesReq (address : Address) (req : AppendEntriesReq)
| UpdateMatchIndex (address : Address) (match_index : Z)
| UpdateState (state : State).

(** [struct Replication], the leader's handle, with the queue behind [in_tx]
    and the state of its [ReplicationStream]. *)
Record Replication := {
  match_index : Z;
  in_queue : list ReplicationInMessage;
  stream_match_index : Z;
  stream_match_term : Z;
  stream_requests : gset RequestId;
}.

(** [Replication::new] *)
Definition replication_new (match_index match_term : Z) : Replication :=
  Build_Replication match_index [] match_index match_term ∅.

(** [struct LeaderState] *)
Record LeaderState := {
  replications : gmap Address Replication;
  replication_out : list ReplicationOutMessage;
}.

(** [struct CandidateState] *)
Record CandidateState := {
  votes_granted : Z;
  votes_needed : Z;
  requests : gset RequestId;
}.

(** [|a, b| b.cmp(a)] *)
Definition descending (a b : Z) : Prop := (b ≤ a)%Z.
#[export] Instance descending_dec a b : Decision (descending a b) := Z.le_dec b a.
#[export] Instance descending_total : Total descending.
Proof. intros x y. unfold descending. lia. Qed.
#[export] Instance descending_trans : Transitive descending.
Proof. intros x y z. unfold descending. lia. Qed.

(** [fn get_new_commit_log_index]: [None] is the panic of an index out of
    range. *)
Definition get_new_commit_log_index (match_indices : list Z) (old_commit_log_index : Z) :
    option Z :=
  (* reverse sort *)
  let match_indices := merge_sort descending match_indices in
  let offset := length match_indices / 2 in
  new_commit_log_index ← match_indices !! offset;
  Some (Z.max new_commit_log_index old_commit_log_index).

Section Roles.
Context {SC : Scale} {CS : ConsensusSupport}.
Variable self : Setup.

(** ** The replication task *)
Section ReplicationStream.
Variable target : Address.

Definition on_append_entries_req_result (request_id : option RequestId) (r : Replication) :
    Replication :=
  match request_id with
  | Some id => Build_Replication (match_index r) (in_queue r) (stream_match_index r)
                 (stream_match_term r) ({[id]} ∪ stream_requests r)
  | None => r
  end.

(** Returns the messages to the leader. *)
Definition on_append_entries_res (st : Storage) (res : AppendEntriesRes) (r : Replication) :
    Replication * list ReplicationOutMessage :=
  if decide (as_request_id res ∉ stream_requests r) then (r, [])
  else
    let requests := stream_requests r ∖ {[as_request_id res]} in
    if decide (as_term res > current_term st)%Z then
      (Build_Replication (match_index r) (in_queue r) (stream_match_index r)
         (stream_match_term r) requests, [UpdateState Follower])
    else
      let match_index_changed :=
        bool_decide (as_last_log_index res ≠ stream_match_index r) in
      (Build_Replication (match_index r) (in_queue r) (as_last_log_index res)
         (as_last_log_term res) requests,
       if match_index_changed then [UpdateMatchIndex target (as_last_log_index res)] else []).

Definition replication_on_in_message (st : Storage) (m : ReplicationInMessage)
    (r : Replication) : Replication * list ReplicationOutMessage :=
  match m with
  | AppendEntriesReqResult request_id => (on_append_entries_req_result request_id r, [])
  | RAppendEntriesRes res => on_append_entries_res st res r
  end.

(** The request that a heartbeat sends. *)
Definition replicate (st : Storage) (r : Replication) : ReplicationOutMessage :=
  let '(last_log_index, _) := get_last_log_index_term st in
  let entries :=
    if decide (stream_match_index r < last_log_index)%Z then
      get_log_entries (λ k, bool_decide (u64 (stream_match_index r + 1) ≤ k ≤ last_log_index)%Z)
        st
    else [] in
  RAppendEntriesReq target {|
    aq_request_id := 0%Z;
    aq_term := current_term st;
    aq_prev_log_index := stream_match_index r;
    aq_prev_log_term := stream_match_term r;
    aq_commit_log_index := commit_log_index st;
    aq_entries := entries;
  |}.
End ReplicationStream.

(** ** The leader *)

Definition L (A : Type) : Type := M (LeaderState * RaftStream) Failure A.

(** A call of the stream, and an update of the leader's own state. *)
Definition stream {A} (m : R A) : L A := λ '(l, s),
  let '(r, s) := m s in (r, (l, s)).
Definition update_leader (f : LeaderState → LeaderState) : L unit :=
  modify (λ '(l, s), (f l, s)).
Definition leader_state : L LeaderState := asks fst.

Definition with_replications (x : gmap Address Replication) (l : LeaderState) : LeaderState :=
  Build_LeaderState x (replication_out l).
Definition with_replication_out (x : list ReplicationOutMessage) (l : LeaderState) :
    LeaderState :=
  Build_LeaderState (replications l) x.

(** [in_tx.unbounded_send(..)] *)
Definition replication_send (m : ReplicationInMessage) (r : Replication) : Replication :=
  Build_Replication (match_index r) (in_queue r ++ [m]) (stream_match_index r)
    (stream_match_term r) (stream_requests r).
Definition set_match_index (x : Z) (r : Replication) : Replication :=
  Build_Replication x (in_queue r) (stream_match_index r) (stream_match_term r)
    (stream_requests r).

Definition on_maybe_commit : L unit :=
  let! l := leader_state in
  let! st := stream (asks storage) in
  let match_indices := (match_index ∘ snd) <$> map_to_list (replications l) in
  (* add leader last_log_index as match_index *)
  let match_indices := match_indices ++ [(get_last_log_index_term st).1] in
  let old_commit_log_index := commit_log_index st in
  match get_new_commit_log_index match_indices old_commit_log_index with
  | None => throw Panic
  | Some new_commit_log_index =>
      if decide (new_commit_log_index ≠ old_commit_log_index) then
        do! stream (on_storage (update_commit_log_index new_commit_log_index)) in
        stream (internal_send LogUpdated)
      else ret tt
  end.

Definition on_update_match_index (addr : Address) (x : Z) : L unit :=
  do! update_leader (λ l,
        with_replications (alter (set_match_index x) addr (replications l)) l) in
  on_maybe_commit.

(** [LeaderState::append_entries] *)
Definition leader_append_entries (entries : list Entry) : L unit :=
  do! stream (on_storage (append_log_entries entries)) in
  let! l := leader_state in
  if decide (replications l = ∅) then
    let! st := stream (asks storage) in
    on_update_match_index (address self) (get_last_log_index_term st).1
  else ret tt.

(** An entry after the last one, in the current term. *)
Definition next_entry (data : EntryData) (st : Storage) : Entry :=
  Build_Entry (current_term st) (u64 ((get_last_log_index_term st).1 + 1)) data.

Definition append_init_entry : L unit :=
  let! st := stream (asks storage) in
  leader_append_entries [next_entry Blank st].

Definition contains_proposal (st : Storage) : bool :=
  bool_decide (is_Some (find_proposal (get_log_entries (λ _, true) st))).

Definition work (timestamp : Z) : L unit :=
  let! st := stream (asks storage) in
  if contains_proposal st then ret tt
  else
    let! build_block_params := stream (on_support (prepare_block timestamp)) in
    let! w := stream (asks support) in
    let! commit_block_params := stream (try (build_block w build_block_params)) in
    let block_hash := cb_block_hash commit_block_params in
    let proposal := {|
      p_block_hash := block_hash;
      p_number := bb_number build_block_params;
      p_timestamp := bb_timestamp build_block_params;
      p_meta_txs := tx <$> bb_meta_txs build_block_params;
      p_payload_txs := tx <$> bb_payload_txs build_block_params;
      p_execution_number := bb_execution_number build_block_params;
    |} in
    do! stream (modify (with_commit_block_params (Some commit_block_params))) in
    do! stream (on_storage (update_proposal (Some proposal))) in
    (* append proposal entry *)
    let! st := stream (asks storage) in
    leader_append_entries [next_entry (EntryProposal block_hash) st].

(** The authorities other than this node that have no replication get one. *)
Definition add_replications (base : Z * Z) (members : list Address)
    (rs : gmap Address Replication) : gmap Address Replication :=
  foldl (λ rs target,
    if decide (target ≠ address self ∧ rs !! target = None)
    then <[target := replication_new base.1 base.2]> rs else rs) rs members.

(** [LeaderState::on_authorities_updated] *)
Definition leader_on_authorities_updated (authorities : RaftModule.Authorities) : L unit :=
  let members := RaftModule.authority_members authorities in
  if decide (address self ∉ members) then stream (update_state self Observer)
  else
    let! st := stream (asks storage) in
    update_leader (λ l, with_replications
      (add_replications (get_base_log_index_term st) members
         (filter (λ kv, kv.1 ∈ members) (replications l))) l).

(** [LeaderState::on_append_entries_res] *)
Definition leader_on_append_entries_res (addr : Address) (res : AppendEntriesRes) : L unit :=
  update_leader (λ l,
    with_replications (alter (replication_send (RAppendEntriesRes res)) addr (replications l)) l).

Definition on_replication_out_message (m : ReplicationOutMessage) : L unit :=
  match m with
  | RAppendEntriesReq addr req =>
      let! l := leader_state in
      match replications l !! addr with
      | Some _ =>
          let! request_id := stream (append_entries addr req) in
          update_leader (λ l, with_replications
            (alter (replication_send (AppendEntriesReqResult request_id)) addr (replications l)) l)
      | None => ret tt
      end
  | UpdateMatchIndex addr match_index => on_update_match_index addr match_index
  | UpdateState st => stream (update_state self st)
  end.

(** [LeaderState::new] and [start], up to the loop *)
Definition leader_start : R LeaderState := λ s,
  let rs := add_replications (get_base_log_index_term (storage s))
              (RaftModule.authority_members (authorities s)) ∅ in
  match (do! stream (modify (with_last_heartbeat_instant None)) in
         do! stream (modify (with_next_election_instant None)) in
         do! stream (update_current_leader (Some (address self))) in
         append_init_entry) (Build_LeaderState rs [], s) with
  | (Ok _, (l, s)) => (Ok l, s)
  | (Err e, (_, s)) => (Err e, s)
  end.

(** A message of the internal queue. *)
Definition leader_on_internal (m : InternalMessage) : L unit :=
  match m with
  | IAppendEntriesRes addr res => leader_on_append_entries_res addr res
  | Generate =>
      (* the timestamp is the clock of the system *)
      let! timestamp := stream (asks now) in
      work timestamp
  | AuthoritiesUpdated authorities => leader_on_authorities_updated authorities
  | _ => stream (on_internal_message self m)
  end.

(** ** The candidate *)

Definition C (A : Type) : Type := M (CandidateState * RaftStream) Failure A.

Definition cstream {A} (m : R A) : C A := λ '(c, s), let '(r, s) := m s in (r, (c, s)).
Definition update_candidate (f : CandidateState → CandidateState) : C unit :=
  modify (λ '(c, s), (f c, s)).

Definition on_maybe_become_leader : C unit :=
  let! c := asks fst in
  if decide (votes_needed c ≤ votes_granted c)%Z then cstream (update_state self Leader)
  else ret tt.

Definition candidate_request_vote : C unit :=
  let! s := asks snd in
  let '(last_log_index, last_log_term) := get_last_log_index_term (storage s) in
  let targets := filter (λ x, x ≠ address self) (RaftModule.authority_members (authorities s)) in
  if decide (targets = []) then on_maybe_become_leader
  else
    for_each (λ addr,
      let! request_id := cstream (request_vote addr
        (Build_RequestVoteReq 0 (current_term (storage s)) last_log_index last_log_term)) in
      match request_id with
      | Some id => update_candidate (λ c, Build_CandidateState (votes_granted c) (votes_needed c)
                                            ({[id]} ∪ requests c))
      | None => ret tt
      end) targets.

(** One turn of the outer loop of [CandidateState::start], up to the inner
    loop: the node moves to a new term, votes for itself and asks for votes. *)
Definition candidate_begin : R CandidateState := λ s,
  let authorities_len := Z.of_nat (length (RaftModule.authority_members (authorities s))) in
  let c := Build_CandidateState 1 (authorities_len / 2 + 1) ∅ in
  match (do! cstream (update_next_election_instant self 0 false) in
         do! cstream (update_current_leader None) in
         let! st := cstream (asks storage) in
         do! cstream (on_storage (update_current_term (u64 (current_term st + 1)))) in
         do! cstream (on_storage (update_current_voted_for (Some (address self)))) in
         candidate_request_vote) (c, s) with
  | (Ok _, (c, s)) => (Ok c, s)
  | (Err e, (_, s)) => (Err e, s)
  end.

Definition candidate_on_authorities_updated (authorities : RaftModule.Authorities) : R unit :=
  if decide (address self ∉ RaftModule.authority_members authorities)
  then update_state self Observer else ret tt.

(** [CandidateState::on_res_request_vote] *)
Definition candidate_on_res_request_vote (addr : Address) (res : RequestVoteRes) : C unit :=
  let! c := asks fst in
  if decide (vs_request_id res ∉ requests c) then ret tt
  else
    do! update_candidate (λ c, Build_CandidateState (votes_granted c) (votes_needed c)
                                 (requests c ∖ {[vs_request_id res]})) in
    let! st := cstream (asks storage) in
    if decide (vs_term res > current_term st)%Z then
      do! cstream (update_current_leader None) in
      do! cstream (update_state self Follower) in
      do! cstream (on_storage (update_current_term (vs_term res))) in
      cstream (on_storage (update_current_voted_for None))
    else if vs_vote_granted res then
      let! s := asks snd in
      do! (if decide (addr ∈ RaftModule.authority_members (authorities s)) then
             update_candidate (λ c, Build_CandidateState (u64 (votes_granted c + 1))
                                      (votes_needed c) (requests c))
           else ret tt) in
      on_maybe_become_leader
    else ret tt.

Definition candidate_on_internal (m : InternalMessage) : C unit :=
  match m with
  | IRequestVoteRes addr res => candidate_on_res_request_vote addr res
  | AuthoritiesUpdated authorities => cstream (candidate_on_authorities_updated authorities)
  | _ => cstream (on_internal_message self m)
  end.

(** ** The follower and the observer *)

Definition follower_on_authorities_updated (authorities : RaftModule.Authorities) : R unit :=
  if decide (address self ∉ RaftModule.authority_members authorities)
  then update_state self Observer else ret tt.

Definition follower_on_internal (m : InternalMessage) : R unit :=
  match m with
  | AuthoritiesUpdated authorities => follower_on_authorities_updated authorities
  | _ => on_internal_message self m
  end.

Definition observer_on_authorities_updated (authorities : RaftModule.Authorities) : R unit :=
  if decide (address self ∈ RaftModule.authority_members authorities)
  then update_state self Follower else ret tt.

Definition observer_on_internal (m : InternalMessage) : R unit :=
  match m with
  | AuthoritiesUpdated authorities => observer_on_authorities_updated authorities
  | _ => on_internal_message self m
  end.
End Roles.
