(* ===== verification/RaftNode.v ===== *)
(** * RaftNode

    The task of a node as a state machine: [RaftStream::spawn] and [start] of
    [core/node/consensus/raft/src/stream.rs] and the loops of [stream/state.rs].
    An event is one branch of a [select!]: a message of a queue, a timer, a
    tick of a replication task. *)
From S2P Require Import Prelude Codec Types RaftModule SystemModule ConsensusSupport Engine RaftProtocol RaftStorage RaftVerifier RaftStream RaftState.

Section Node.
Context {SC : Scale} {CS : ConsensusSupport}.
Variable self : Setup.

(** The state of the loop the task is in. *)
Inductive Role :=
| RLeader (l : LeaderState)
| RCandidate (c : CandidateState)
| RFollower
| RObserver.

Record Node := {
  role : Role;
  node_stream : RaftStream;
}.

Definition role_state (r : Role) : State :=
  match r with
  | RLeader _ => Leader
  | RCandidate _ => Candidate
  | RFollower => Follower
  | RObserver => Observer
  end.

(** The loop of [RaftStream::start]: enter the loop of the current state.
    [None] when the task ends. *)
Definition enter : R (option Role) :=
  let! st := asks state in
  match st with
  | Leader => let! l := leader_start self in ret (Some (RLeader l))
  | Candidate => let! c := candidate_begin self in ret (Some (RCandidate c))
  | Follower => ret (Some RFollower)
  | Observer => do! update_current_leader None in ret (Some RObserver)
  | Shutdown => ret None
  end.

(** The top of an inner loop: while the state is the role's, wait for the
    next event; otherwise leave the loop and enter that of the state.
    Entering may change the state again: the only authority of a chain is
    elected as it becomes a candidate. *)
Fixpoint settle (fuel : nat) (r : Role) : R (option Role) :=
  let! st := asks state in
  if decide (st = role_state r) then
    do! match r with
        | RCandidate _ | RFollower => let! _ := get_next_election_instant self in ret tt
        | _ => ret tt
        end in
    ret (Some r)
  else
    match fuel with
    | 0 => ret None
    | S fuel =>
        let! next := enter in
        match next with
        | Some r => settle fuel r
        | None => ret None
        end
    end.

(** From one event to the next the task enters at most two loops. *)
Definition LOOPS : nat := 2.

(** A handler of a role, whose errors are logged. *)
Definition leader_handler (l : LeaderState) (m : L unit) : R Role := λ s,
  match m (l, s) with
  | (Ok _, (l, s)) | (Err (Fail _), (l, s)) => (Ok (RLeader l), s)
  | (Err Panic, (_, s)) => (Err Panic, s)
  end.
Definition candidate_handler (c : CandidateState) (m : C unit) : R Role := λ s,
  match m (c, s) with
  | (Ok _, (c, s)) | (Err (Fail _), (c, s)) => (Ok (RCandidate c), s)
  | (Err Panic, (_, s)) => (Err Panic, s)
  end.
Definition stream_handler (r : Role) (m : R unit) : R Role := do! or_warn m in ret r.

Inductive Event :=
| EvIn (m : ConsensusInMessage)
| EvInClosed
| EvInternal
| EvElection
| EvSchedule (timestamp : Z)
| EvReplicationOut
| EvHeartbeat (target : Address)
| EvReplicationIn (target : Address).

(** The first message of the internal queue. *)
Definition take_internal : R (option InternalMessage) := λ s,
  match internal s with
  | m :: rest => (Ok (Some m), with_internal rest s)
  | [] => (Ok None, s)
  end.

Definition on_internal (r : Role) : R Role :=
  let! m := take_internal in
  match m with
  | None => ret r
  | Some m =>
      match r with
      | RLeader l => leader_handler l (leader_on_internal self m)
      | RCandidate c => candidate_handler c (candidate_on_internal self m)
      | RFollower => stream_handler r (follower_on_internal self m)
      | RObserver => stream_handler r (observer_on_internal self m)
      end
  end.

(** A replication task has done a step: its new state and its messages. *)
Definition replication_step (addr : Address) (l : LeaderState)
    (x : Replication * list ReplicationOutMessage) : LeaderState :=
  Build_LeaderState (<[addr := x.1]> (replications l)) (replication_out l ++ x.2).

(** The election timer of a follower or a candidate. *)
Definition on_election (r : Role) : R Role :=
  let! s := asks id in
  let elapsed :=
    match next_election_instant s with
    | Some inst => bool_decide (inst ≤ now s)%Z
    | None => false
    end in
  match r with
  | RFollower => if elapsed then do! update_state self Candidate in ret r else ret r
  | RCandidate _ =>
      if elapsed then let! c := candidate_begin self in ret (RCandidate c) else ret r
  | _ => ret r
  end.

(** One branch of the [select!] of the role; an event that is not enabled
    does nothing. *)
Definition handle (ev : Event) (r : Role) : R Role :=
  match ev, r with
  | EvIn m, _ => stream_handler r (on_in_message self m)
  | EvInClosed, _ => do! update_state self Shutdown in ret r
  | EvInternal, _ => on_internal r
  | EvElection, _ => on_election r
  | EvSchedule timestamp, RLeader l => leader_handler l (work self timestamp)
  | EvReplicationOut, RLeader l =>
      match replication_out l with
      | m :: rest =>
          leader_handler (with_replication_out rest l) (on_replication_out_message self m)
      | [] => ret r
      end
  | EvHeartbeat target, RLeader l =>
      let! st := asks storage in
      match replications l !! target with
      | Some rep => ret (RLeader (replication_step target l (rep, [replicate target st rep])))
      | None => ret r
      end
  | EvReplicationIn target, RLeader l =>
      let! st := asks storage in
      match replications l !! target with
      | Some rep =>
          match in_queue rep with
          | m :: rest =>
              ret (RLeader (replication_step target l (replication_on_in_message target st m
                (Build_Replication (match_index rep) rest (stream_match_index rep)
                   (stream_match_term rep) (stream_requests rep)))))
          | [] => ret r
          end
      | None => ret r
      end
  | _, _ => ret r
  end.

(** The task waits for an event, or has ended and left its storage. *)
Inductive Task :=
| Running (n : Node)
| Ended (s : RaftStream).

Definition finish (m : result Failure (option Role) * RaftStream) : Task :=
  match m with
  | (Ok (Some r), s) => Running (Build_Node r s)
  | (_, s) => Ended s
  end.

Definition step (ev : Event) (n : Node) : Task :=
  finish ((let! r := handle ev (role n) in settle LOOPS r) (node_stream n)).

(** [RaftStream::spawn], over the data on disk. *)
Definition stream_new (w : World) (storage : Storage) (now : Instant) (draws : list Z) :
    RaftStream := {|
  support := w; storage := storage; peers := ∅; known_validators := ∅; next_request_id := 0%Z;
  current_leader := None; next_election_instant := None; last_heartbeat_instant := None;
  state := Observer; authorities := RaftModule.Build_Authorities []; internal := [];
  last_request_proposal_instant := None; pending_proposal := None; commit_block_params := None;
  sync_latency := 0%Z; out := []; now := now; draws := draws |}.

Definition start : R (option Role) :=
  do! update_state self Follower in
  let! st := asks state in
  do! (if decide (st = Follower) then
         let extra := default DEFAULT_INIT_EXTRA_ELECTION_TIMEOUT
                        (init_extra_election_timeout (raft_config self)) in
         let! timeout := rand_election_timeout self in
         modify (λ s, with_next_election_instant (Some (now s + u64 (timeout + extra))%Z) s)
       else ret tt) in
  let! next := enter in
  match next with
  | Some r => settle LOOPS r
  | None => ret None
  end.

Definition spawn (w : World) (data : RaftData) (disk : list (option CommonError))
    (now : Instant) (draws : list Z) : Task :=
  let '(r, st) := storage_new data disk w in
  let s := stream_new w st now draws in
  match r with
  | Err _ => Ended s
  | Ok _ =>
      match get_raft_authorities w (confirmed_number (get_current_state w)) with
      | Some (Ok authorities) => finish (start (with_authorities authorities s))
      | _ => Ended s
      end
  end.

Definition task_stream (t : Task) : RaftStream :=
  match t with
  | Running n => node_stream n
  | Ended s => s
  end.
End Node.

(** ** Concrete nodes

    A concrete raft node, on which the theorems about the engine are applied:
    the authority A of a chain of three, and the only authority of another. *)
#[export] Existing Instance FrameScale.scale.
#[export] Existing Instance sample_support.

Definition sample_setup : Setup :=
  Build_Setup (RaftModule.Build_Meta (Some 1000%Z) 100 200 400) (Build_RaftConfig None None None)
    (b "A") (b "A") (b "A").

Definition world_of (members : list Address) : World :=
  sample_genesis [("get_authorities",
                   encode RaftModule.codec_authorities (RaftModule.Build_Authorities members))].
Definition world_three : World := world_of [b "A"; b "B"; b "C"].
Definition world_one : World := world_of [b "A"].

(** A node, as the default of [get_node]. *)
Definition idle_node : Node :=
  Build_Node RObserver (stream_new world_three (Build_Storage 0 0 0 None 0 [] None empty_data [])
                          0 []).
Definition get_node (t : Task) : Node := match t with Running n => n | Ended s => idle_node end.
Definition is_running (t : Task) : bool := match t with Running _ => true | Ended _ => false end.

Lemma running_get_node t : is_running t = true → t = Running (get_node t).
Proof. by destruct t. Qed.

(** The node at time 20000, when its first election timeout has passed. *)
Definition later (w : World) (n : Node) : Node :=
  let s := node_stream n in
  let st := set_db (db (storage s)) [] (storage s) in
  Build_Node (role n) (with_support w (with_now 20000 (with_draws [] (with_storage st s)))).

Definition started (w : World) : Task := spawn sample_setup w empty_data [] 0 [].
Definition node_at (w : World) : Node := later w (get_node (started w)).

Definition handle_all (evs : list Event) (t : Task) : Task :=
  foldl (λ t ev, match t with Running n => step sample_setup ev n | Ended s => Ended s end) t evs.

(** B connects, as a validator whose signature is accepted. *)
Definition connect (peer : PeerId) (addr : PublicKey) : list Event :=
  [EvIn (NetworkProtocolOpen peer 1 2);
   EvIn (NetworkMessage peer (encode codec_raft_message
     (MRegisterValidatorReq (Build_RegisterValidatorReq 0 addr []))))].

Definition receive (peer : PeerId) (m : RaftMessage) : Event :=
  EvIn (NetworkMessage peer (encode codec_raft_message m)).

Definition node_three : Node := node_at world_three.
(** B and C are registered with the node. *)
Definition node_connected : Node :=
  get_node (handle_all (connect (b "b") (b "B") ++ connect (b "c") (b "C")) (Running node_three)).
(** The node of the chain with one authority leads it after its timeout. *)
Definition node_leader : Node := get_node (handle_all [EvElection] (Running (node_at world_one))).

(** ** What the engine does not guard against

    Runs of a node that show where the engine does not do what it means to. *)
(** Z connects; it is a validator of no chain. *)
Definition outsider : list Event := connect (b "z") (b "Z").

(** Its request to append nothing, in the last term. *)
Definition takeover : Event :=
  receive (b "z") (MAppendEntriesReq (Build_AppendEntriesReq 0 (2 ^ 64 - 1) 0 0 0 [])).

Definition followed : Node := get_node (handle_all (outsider ++ [takeover]) (Running node_three)).
Definition timed_out_after : Node :=
  get_node (handle_all [EvElection]
    (Running (Build_Node (role followed) (with_now 40000 (node_stream followed))))).

(** A registered peer that is not an authority is followed as the leader and
    sets the term of the node; from the last term the next candidacy wraps
    around to term 0, in which the node votes again. *)
Theorem outsider_resets_terms :
  (b "Z" ∉ RaftModule.authority_members (authorities (node_stream followed))) ∧
  current_leader (node_stream followed) = Some (b "Z") ∧
  current_term (storage (node_stream followed)) = (2 ^ 64 - 1)%Z ∧
  current_term (storage (node_stream timed_out_after)) = 0%Z ∧
  current_voted_for (storage (node_stream timed_out_after)) = Some (b "A").
Proof.
  split_and!; [|vm_compute; reflexivity..].
  apply (bool_decide_unpack _). vm_compute. reflexivity.
Qed.
