(* ===== verification/RaftLoops.v ===== *)
(** * RaftLoops

    The loops of a node: whatever event it handles, the task comes to wait in
    the loop of its state, or it has ended. *)
From S2P Require Import Prelude Codec Types BTreeMap SystemModule RaftModule ConsensusSupport Engine RaftProtocol RaftStorage RaftVerifier RaftStream RaftState RaftNode.

(** The states with the state of a task: of the task itself, of a role. *)
Class HasState (S : Type) := state_of : S → State.
#[export] Instance stream_has_state {CS : ConsensusSupport} : HasState RaftStream := state.
#[export] Instance pair_has_state {X S} `{HasState S} : HasState (X * S) := λ x, state_of x.2.

(** A call that stays in the state. *)
Class Stays {S E A} `{HasState S} (m : M S E A) : Prop :=
  stays : ∀ s, state_of (m s).2 = state_of s.

Section Stays.
Context {S E : Type} `{HasState S}.

#[global] Instance stays_ret {A} (a : A) : Stays (ret (E := E) a).
Proof. by intros s. Qed.
#[global] Instance stays_throw {A} (e : E) : Stays (throw (A := A) e).
Proof. by intros s. Qed.
#[global] Instance stays_asks {A} (f : S → A) : Stays (asks (E := E) f).
Proof. by intros s. Qed.
#[global] Instance stays_bind {A B} (m : M S E A) (k : A → M S E B) :
  Stays m → (∀ a, Stays (k a)) → Stays (bind m k).
Proof.
  intros Hm Hk s. unfold bind. specialize (Hm s). destruct (m s) as [[a|e] s']; simpl in *;
    [|done]. by rewrite (Hk a s').
Qed.
#[global] Instance stays_for_each {A} (f : A → M S E unit) l :
  (∀ x, Stays (f x)) → Stays (for_each f l).
Proof.
  intros Hf. induction l as [|x l IH]; [apply stays_ret|].
  apply stays_bind; [apply Hf|intros _; apply IH].
Qed.
(** A call that stays, and then one that reaches a state from there. *)
Lemma stays_after {A B} (m : M S E A) (k : A → M S E B) (P : State → Prop) s :
  Stays m → P (state_of s) →
  (∀ a s', state_of s' = state_of s → P (state_of (k a s').2)) → P (state_of (bind m k s).2).
Proof.
  intros Hm Hs Hk. unfold bind. specialize (Hm s).
  destruct (m s) as [[a|e] s']; [by apply Hk|]. simpl in *. by rewrite Hm.
Qed.
Lemma stays_modify (f : S → S) :
  (∀ s, state_of (f s) = state_of s) → Stays (modify (E := E) f).
Proof. intros Hf s. apply Hf. Qed.
End Stays.

Ltac solve_stays :=
  repeat first
    [ progress intros
    | apply stays_bind
    | apply stays_for_each
    | progress cbv zeta
    | match goal with
      | |- Stays (match ?x with _ => _ end) => destruct x
      end
    | apply _
    | apply stays_modify; intros; reflexivity
    | apply stays_modify; intros [? ?]; reflexivity ].

Section Loops.
Context {SC : Scale} {CS : ConsensusSupport}.
Variable self : Setup.

#[local] Hint Extern 1 (Stays (modify _)) => apply stays_modify; intros; reflexivity
  : typeclass_instances.

#[local] Instance stays_on_storage {A} (m : M Storage CommonError A) : Stays (on_storage m).
Proof. intros s. unfold on_storage. by destruct (m (storage s)). Qed.
#[local] Instance stays_gen_range low high : Stays (gen_range low high).
Proof. unfold gen_range. case_decide; [|apply stays_throw]. intros s. by destruct (draws s). Qed.
#[local] Instance stays_get_next : Stays (get_next_election_instant self).
Proof. unfold get_next_election_instant, rand_election_timeout. solve_stays. Qed.
#[local] Instance stays_update_next x h : Stays (update_next_election_instant self x h).
Proof. unfold update_next_election_instant, rand_election_timeout. solve_stays. Qed.
#[local] Instance stays_leader x : Stays (update_current_leader x).
Proof. unfold update_current_leader. solve_stays. Qed.
#[local] Instance stays_internal_send m : Stays (internal_send m).
Proof. unfold internal_send. solve_stays. Qed.
#[local] Instance stays_request_vote a r : Stays (request_vote a r).
Proof. unfold request_vote, request_validator, request, send_out_message. solve_stays. Qed.
#[local] Instance stays_stream {A} (m : R A) : Stays m → Stays (stream m).
Proof. intros Hm [l s]. unfold stream. specialize (Hm s). by destruct (m s). Qed.
#[local] Instance stays_cstream {A} (m : R A) : Stays m → Stays (cstream m).
Proof. intros Hm [l s]. unfold cstream. specialize (Hm s). by destruct (m s). Qed.
#[local] Instance stays_update_leader f : Stays (update_leader (CS := CS) f).
Proof. apply stays_modify. by intros []. Qed.
#[local] Instance stays_update_candidate f : Stays (update_candidate (CS := CS) f).
Proof. apply stays_modify. by intros []. Qed.
#[local] Instance stays_commit : Stays (on_maybe_commit (CS := CS)).
Proof. unfold on_maybe_commit, leader_state. solve_stays. Qed.
#[local] Instance stays_init : Stays (append_init_entry self).
Proof.
  unfold append_init_entry, leader_append_entries, on_update_match_index, leader_state.
  solve_stays.
Qed.

(** A leader enters its loop in its state. *)
Lemma leader_start_state s : state (leader_start self s).2 = state s.
Proof.
  unfold leader_start.
  match goal with |- context [bind ?m ?k (?l, s)] =>
    assert (Stays (bind m k)) as Hq by solve_stays; specialize (Hq (l, s));
    destruct (bind m k (l, s)) as [[u|e] [l' s']]; exact Hq end.
Qed.

(** A candidate that is not refused a write stays a candidate or, when it
    needs no vote of others, is the leader. *)
Lemma candidate_request_state c s :
  state (candidate_request_vote self (c, s)).2.2 = state s ∨
  state (candidate_request_vote self (c, s)).2.2 = Leader.
Proof.
  unfold candidate_request_vote. rewrite bind_asks. cbn [snd].
  destruct (get_last_log_index_term (storage s)) as [li lt]. cbv zeta. case_decide.
  - unfold on_maybe_become_leader. rewrite bind_asks. case_decide; [|by left]. right.
    unfold cstream, update_state, modify. reflexivity.
  - left. match goal with |- context [for_each ?f ?l (c, s)] =>
      assert (Stays (for_each f l)) as Hq by solve_stays; exact (Hq (c, s)) end.
Qed.

Lemma candidate_begin_state s :
  state (candidate_begin self s).2 = state s ∨ state (candidate_begin self s).2 = Leader.
Proof.
  unfold candidate_begin. set (c0 := Build_CandidateState _ _ _).
  set (P := λ st, st = state s ∨ st = Leader).
  match goal with |- context [bind ?m ?k (c0, s)] =>
    assert (P (state_of (bind m k (c0, s)).2)) as Hend;
      [|by destruct (bind m k (c0, s)) as [[u|e] [c s']]]
  end.
  apply stays_after; [apply _|by left|]. intros _ s1 H1.
  apply stays_after; [apply _|by rewrite H1; left|]. intros _ s2 H2.
  apply stays_after; [apply _|by rewrite H2, H1; left|]. intros st s3 H3.
  apply stays_after; [apply _|by rewrite H3, H2, H1; left|]. intros _ s4 H4.
  apply stays_after; [apply _|by rewrite H4, H3, H2, H1; left|]. intros _ [c5 s5] H5.
  assert (state s5 = state s) as Heq by (by rewrite H4, H3, H2, H1 in H5).
  destruct (candidate_request_state c5 s5) as [Hc|Hc]; [left|by right].
  by rewrite <-Heq.
Qed.

(** Entering the loop of a state leaves the node in it, or as a leader. *)
Lemma enter_state s r s' : enter self s = (Ok r, s') →
  match r with
  | Some r => role_state r = state s ∧
              (state s' = state s ∨ (state s = Candidate ∧ state s' = Leader))
  | None => state s = Shutdown
  end.
Proof.
  unfold enter. rewrite bind_asks. destruct (state s) eqn:Hs.
  - intros (l & s1 & Hl & [= <- <-])%bind_inv_ok. pose proof (leader_start_state s) as H1.
    rewrite Hl, Hs in H1. simpl in H1. split; [done|by left].
  - intros (c & s1 & Hc & [= <- <-])%bind_inv_ok. pose proof (candidate_begin_state s) as H1.
    rewrite Hc, Hs in H1. simpl in H1. split; [done|]. destruct H1; [by left|by right].
  - intros [= <- <-]. split; [done|by left].
  - intros ([] & s1 & [= <-] & [= <- <-])%bind_inv_ok. split; [done|by left].
  - by intros [= <- <-].
Qed.

(** Waiting in the loop that the task is in. *)
Lemma settle_here fuel r s r' s' : state s = role_state r → settle self fuel r s = (Ok r', s') →
  r' = Some r ∧ state s' = role_state r.
Proof.
  intros Hs Hr.
  assert ((do! match r with
               | RCandidate _ | RFollower => let! _ := get_next_election_instant self in ret tt
               | _ => ret tt
               end in ret (Some r)) s = (Ok r', s')) as Hw.
  { destruct fuel; cbn [settle] in Hr; rewrite bind_asks, decide_True in Hr by done; exact Hr. }
  apply bind_inv_ok in Hw as ([] & s1 & Hw & [= <- <-]). split; [done|]. rewrite <-Hs.
  match type of Hw with ?m _ = _ => assert (Stays m) as Hst by solve_stays end.
  specialize (Hst s). by rewrite Hw in Hst.
Qed.

Lemma settle_leader r s r' s' : state s = Leader → settle self 1 r s = (Ok r', s') →
  ∃ r1, r' = Some r1 ∧ state s' = role_state r1.
Proof.
  intros Hs Hr. destruct (decide (state s = role_state r)) as [Heq|Hne].
  { apply settle_here in Hr as [-> ?]; [|done]. by exists r. }
  cbn [settle] in Hr. rewrite bind_asks, decide_False in Hr by done.
  apply bind_inv_ok in Hr as (next & s1 & He & Hr). apply enter_state in He.
  destruct next as [r1|]; [|congruence]. destruct He as [Hr1 Hs1].
  change (settle self 0 r1 s1 = (Ok r', s')) in Hr.
  apply settle_here in Hr as [-> ?]; [by exists r1|]. rewrite Hr1. destruct Hs1 as [|[]]; congruence.
Qed.

(** Where the task waits for its next event: in the loop of its state, or
    nowhere because it has been shut down. *)
Definition waits (r : option Role) (s : RaftStream) : Prop :=
  match r with
  | Some r => state s = role_state r
  | None => state s = Shutdown
  end.

(** The two loops that the model lets a task enter after an event are
    enough: when the task does not stop at an error it waits in the loop of
    its state, or its state is [Shutdown]. *)
Theorem settle_reaches_state r s r' s' :
  settle self LOOPS r s = (Ok r', s') → waits r' s'.
Proof.
  unfold waits.
  intros Hr. destruct (decide (state s = role_state r)) as [Heq|Hne].
  { by apply settle_here in Hr as [-> ?]. }
  unfold LOOPS in Hr. cbn [settle] in Hr. rewrite bind_asks, decide_False in Hr by done.
  apply bind_inv_ok in Hr as (next & s1 & He & Hr). pose proof He as Hen.
  apply enter_state in Hen. destruct next as [r1|].
  - change (settle self 1 r1 s1 = (Ok r', s')) in Hr. destruct Hen as [Hr1 [Hs1|[Hc Hl]]].
    + apply settle_here in Hr as [-> ?]; [done|congruence].
    + by apply settle_leader in Hr as (r2 & -> & ?).
  - injection Hr as <- <-. unfold enter in He. rewrite bind_asks, Hen in He.
    by injection He as <-.
Qed.
End Loops.

(** ** Concrete inputs *)

Module RaftLoopsSamples.
(** The only authority of a chain: its election timeout passes, it becomes a
    candidate, elects itself and enters the loop of a leader. *)
Definition timed_out : RaftStream := with_state Candidate (node_stream (node_at world_one)).
Abbreviation settled := (settle sample_setup LOOPS RFollower timed_out).

Lemma settle_reaches_state_witness : state settled.2 = Leader.
Proof.
  assert (match settled.1 with Ok (Some (RLeader _)) => True | _ => False end) as Hr
    by (vm_compute; exact I).
  destruct settled as [[[[l|c| |]|]|e] s'] eqn:Hs; try done.
  exact (settle_reaches_state sample_setup RFollower timed_out (Some (RLeader l)) s' Hs).
Defined.
End RaftLoopsSamples.
