(* ===== verification/RaftVotes.v ===== *)
(** * RaftVotes

    A node votes for at most one candidate of each term, whatever events it
    handles, whatever writes the disk refuses, and across restarts. *)
From S2P Require Import Prelude Codec Types BTreeMap SystemModule RaftModule ConsensusSupport Engine RaftProtocol RaftStorage RaftVerifier RaftStream RaftState RaftNode.

(** ** Calls that do not touch the vote *)

(** The states with a storage: of the storage itself, the task, a role. *)
Class HasStorage (S : Type) := storage_of : S → Storage.
#[export] Instance storage_has_storage : HasStorage Storage := λ s, s.
#[export] Instance stream_has_storage {CS : ConsensusSupport} : HasStorage RaftStream := storage.
#[export] Instance pair_has_storage {X S} `{HasStorage S} : HasStorage (X * S) :=
  λ x, storage_of x.2.

(** The term and the vote, in memory and on disk. *)
Definition vote_of (st : Storage) : Z * option Address * (Z * option Address) :=
  (current_term st, current_voted_for st,
   (default 0%Z (DB_KEY_CURRENT_TERM (db st)), default None (DB_KEY_CURRENT_VOTED_FOR (db st)))).

Class Quiet {S E A} `{HasStorage S} (m : M S E A) : Prop :=
  quiet : ∀ s, vote_of (storage_of (m s).2) = vote_of (storage_of s).

Section Quiet.
Context {S E : Type} `{HasStorage S}.

#[global] Instance quiet_ret {A} (a : A) : Quiet (ret (E := E) a).
Proof. by intros s. Qed.
#[global] Instance quiet_throw {A} (e : E) : Quiet (throw (A := A) e).
Proof. by intros s. Qed.
#[global] Instance quiet_lift {A} (r : result E A) : Quiet (lift r).
Proof. by intros s. Qed.
#[global] Instance quiet_asks {A} (f : S → A) : Quiet (asks (E := E) f).
Proof. by intros s. Qed.
#[global] Instance quiet_bind {A B} (m : M S E A) (k : A → M S E B) :
  Quiet m → (∀ a, Quiet (k a)) → Quiet (bind m k).
Proof.
  intros Hm Hk s. unfold bind. specialize (Hm s). destruct (m s) as [[a|e] s']; simpl in *;
    [|done]. by rewrite (Hk a s').
Qed.
#[global] Instance quiet_for_each {A} (f : A → M S E unit) l :
  (∀ x, Quiet (f x)) → Quiet (for_each f l).
Proof.
  intros Hf. induction l as [|x l IH]; [apply quiet_ret|].
  apply quiet_bind; [apply Hf|intros _; apply IH].
Qed.
Lemma quiet_modify (f : S → S) :
  (∀ s, vote_of (storage_of (f s)) = vote_of (storage_of s)) → Quiet (modify (E := E) f).
Proof. intros Hf s. apply Hf. Qed.
End Quiet.

(** Split the tests and matches of a call, and close its leaves. *)
Ltac quiet_leaf :=
  first [ apply _
        | apply quiet_modify; intros; unfold storage_of, storage_has_storage, stream_has_storage; simpl;
          repeat first [case_decide | case_match]; reflexivity ].
Ltac solve_quiet :=
  repeat first
    [ progress intros
    | apply quiet_bind
    | apply quiet_for_each
    | progress cbv zeta
    | match goal with
      | |- Quiet (match ?x with _ => _ end) => destruct x
      end
    | quiet_leaf ].

Section Storage.
Context {SC : Scale} {CS : ConsensusSupport}.

Lemma quiet_commit (op : RaftData → RaftData) :
  (∀ d, DB_KEY_CURRENT_TERM (op d) = DB_KEY_CURRENT_TERM d ∧
        DB_KEY_CURRENT_VOTED_FOR (op d) = DB_KEY_CURRENT_VOTED_FOR d) →
  Quiet (commit_consensus_data op).
Proof.
  intros Hop s. unfold commit_consensus_data, storage_of, storage_has_storage, vote_of.
  destruct (Hop (db s)) as [H1 H2].
  destruct (disk s) as [|[e|] d]; simpl; by rewrite ?H1, ?H2.
Qed.

#[global] Instance quiet_update_commit_log_index x : Quiet (update_commit_log_index x).
Proof. unfold update_commit_log_index. solve_quiet. by apply quiet_commit. Qed.
#[global] Instance quiet_update_proposal x : Quiet (update_proposal x).
Proof. unfold update_proposal. solve_quiet. by apply quiet_commit. Qed.
#[global] Instance quiet_append_log_entries x : Quiet (append_log_entries x).
Proof. unfold append_log_entries. solve_quiet. by apply quiet_commit. Qed.
#[global] Instance quiet_delete_log_entries x : Quiet (delete_log_entries x).
Proof. unfold delete_log_entries. solve_quiet. by apply quiet_commit. Qed.
End Storage.

Section Calls.
Context {SC : Scale} {CS : ConsensusSupport}.
Variable self : Setup.

#[global] Instance quiet_on_storage {A} (m : M Storage CommonError A) :
  Quiet m → Quiet (on_storage m).
Proof.
  intros Hm s. unfold on_storage. specialize (Hm (storage s)).
  destruct (m (storage s)) as [r st]. exact Hm.
Qed.
#[global] Instance quiet_on_support {A} (m : M World CommonError A) : Quiet (on_support m).
Proof. intros s. unfold on_support. by destruct (m (support s)) as [r w]. Qed.
#[global] Instance quiet_attempt {A} (m : R A) : Quiet m → Quiet (attempt m).
Proof.
  intros Hm s. specialize (Hm s). unfold attempt. by destruct (m s) as [[a|[]] s'].
Qed.
#[global] Instance quiet_or_warn m : Quiet m → Quiet (or_warn m).
Proof. intros Hm. unfold or_warn. apply _. Qed.
#[global] Instance quiet_try {A} (r : CommonResult A) : Quiet (try r).
Proof. by intros s. Qed.
#[global] Instance quiet_panic {A} : Quiet (panic (A := A)).
Proof. by intros s. Qed.
#[global] Instance quiet_gen_range low high : Quiet (gen_range low high).
Proof.
  unfold gen_range. case_decide; [|apply _]. intros s. by destruct (draws s).
Qed.
#[global] Instance quiet_rand : Quiet (rand_election_timeout self).
Proof. apply quiet_gen_range. Qed.
#[global] Instance quiet_get_next : Quiet (get_next_election_instant self).
Proof. unfold get_next_election_instant. solve_quiet. Qed.
#[global] Instance quiet_update_next x h : Quiet (update_next_election_instant self x h).
Proof. unfold update_next_election_instant. solve_quiet. Qed.
#[global] Instance quiet_update_leader x : Quiet (update_current_leader x).
Proof. unfold update_current_leader. solve_quiet. Qed.
#[global] Instance quiet_update_state x : Quiet (update_state self x).
Proof. unfold update_state. solve_quiet. Qed.
#[global] Instance quiet_update_sync x : Quiet (update_sync_latency self x).
Proof. unfold update_sync_latency. solve_quiet. Qed.
#[global] Instance quiet_internal_send m : Quiet (internal_send m).
Proof. unfold internal_send. solve_quiet. Qed.
#[global] Instance quiet_send_out p m : Quiet (send_out_message p m).
Proof. unfold send_out_message. solve_quiet. Qed.
#[global] Instance quiet_request p m : Quiet (request p m).
Proof. unfold request. solve_quiet. Qed.
#[global] Instance quiet_response p m : Quiet (response p m).
Proof. apply quiet_send_out. Qed.
#[global] Instance quiet_request_validator p m : Quiet (request_validator p m).
Proof. unfold request_validator. solve_quiet. Qed.
#[global] Instance quiet_register p : Quiet (register_validator self p).
Proof. unfold register_validator. solve_quiet. Qed.
#[global] Instance quiet_on_req_register p r : Quiet (on_req_register_validator p r).
Proof. unfold on_req_register_validator. solve_quiet. Qed.
#[global] Instance quiet_on_proposal p : Quiet (on_proposal p).
Proof. unfold on_proposal. solve_quiet. Qed.
#[global] Instance quiet_on_req_request_proposal a r : Quiet (on_req_request_proposal self a r).
Proof. unfold on_req_request_proposal. solve_quiet. Qed.
#[global] Instance quiet_on_res_request_proposal a r : Quiet (on_res_request_proposal self a r).
Proof. unfold on_res_request_proposal. solve_quiet. Qed.
#[global] Instance quiet_append_and_respond r : Quiet (append_and_respond r).
Proof. unfold append_and_respond. solve_quiet. Qed.
#[global] Instance quiet_perform a r : Quiet (perform_append_entries self a r).
Proof. unfold perform_append_entries, request_proposal. solve_quiet. Qed.
#[global] Instance quiet_take_params h p : Quiet (take_commit_block_params h p).
Proof. unfold take_commit_block_params. solve_quiet. Qed.
#[global] Instance quiet_on_log_updated : Quiet (on_log_updated self).
Proof. unfold on_log_updated. solve_quiet. Qed.
#[global] Instance quiet_on_internal_message m : Quiet (on_internal_message self m).
Proof. unfold on_internal_message. solve_quiet. Qed.
#[global] Instance quiet_open p l r : Quiet (on_network_protocol_open self p l r).
Proof. unfold on_network_protocol_open. solve_quiet. Qed.
#[global] Instance quiet_close p : Quiet (on_network_protocol_close p).
Proof. unfold on_network_protocol_close. solve_quiet. Qed.
End Calls.

(** ** The record of votes *)

(** The votes of a node: a term and the candidate it voted for. *)
Abbreviation Votes := (list (Z * Address)).

Definition one_vote (h : Votes) : Prop :=
  ∀ term x y, (term, x) ∈ h → (term, y) ∈ h → x = y.

(** A term and a vote that are consistent with the votes cast before: none is
    of a later term, and one of the current term is the current vote. *)
Record consistent (h : Votes) (term : Z) (voted : option Address) : Prop := {
  consistent_one : one_vote h;
  consistent_past : ∀ t x, (t, x) ∈ h → (t ≤ term)%Z ∧ (t = term → voted = Some x);
  consistent_nonneg : (0 ≤ term)%Z;
}.

(** The invariant of a running node: memory and disk agree on the vote. *)
Definition vote_inv (h : Votes) (st : Storage) : Prop :=
  let '(term, voted, disk) := vote_of st in disk = (term, voted) ∧ consistent h term voted.

Lemma same_term st st' : vote_of st' = vote_of st → current_term st' = current_term st.
Proof. unfold vote_of. congruence. Qed.

Lemma consistent_raise h t v t' v' : consistent h t v → (t < t')%Z → consistent h t' v'.
Proof. intros [Hone Hpast H0] Ht. split; [done| |lia]. intros t1 x Hin%Hpast. lia. Qed.

(** The current vote can be recorded. *)
Lemma consistent_record h t x : consistent h t (Some x) → consistent ((t, x) :: h) t (Some x).
Proof.
  intros [Hone Hpast H0]. split; [| |done].
  - intros t1 y z [Hy|Hy]%elem_of_cons [Hz|Hz]%elem_of_cons; simplify_eq; [done|..].
    + destruct (Hpast _ _ Hz) as [_ Heq]. by injection (Heq eq_refl).
    + destruct (Hpast _ _ Hy) as [_ Heq]. by injection (Heq eq_refl).
    + by apply (Hone t1).
  - intros t1 y [[= -> ->]|Hy]%elem_of_cons; [done|]. by apply Hpast.
Qed.

Class Keeps {S E A} `{HasStorage S} (m : M S E A) : Prop :=
  keeps : ∀ h s, vote_inv h (storage_of s) → vote_inv h (storage_of (m s).2).

Section Keeps.
Context {S E : Type} `{HasStorage S}.

Lemma vote_inv_same h st st' : vote_of st' = vote_of st → vote_inv h st → vote_inv h st'.
Proof. unfold vote_inv. by intros ->. Qed.

Lemma keeps_of_quiet {A} (m : M S E A) : Quiet m → Keeps m.
Proof. intros Hm h s. by apply vote_inv_same. Qed.

Lemma keeps_then {A B} (m : M S E A) (k : A → M S E B) :
  Keeps m → (∀ a, Keeps (k a)) → Keeps (bind m k).
Proof.
  intros Hm Hk h s Hs. unfold bind. specialize (Hm h s Hs).
  destruct (m s) as [[a|e] s']; [|done]. by apply Hk.
Qed.

(** A quiet call first, then a call that establishes a property of the vote
    where the vote is still the same; and a quiet call after it. *)
Lemma keeps_after {A B} (m : M S E A) (k : A → M S E B) (P : Storage → Prop) s :
  (∀ st st', vote_of st' = vote_of st → P st → P st') →
  Quiet m → P (storage_of s) →
  (∀ a s', vote_of (storage_of s') = vote_of (storage_of s) → P (storage_of (k a s').2)) →
  P (storage_of (bind m k s).2).
Proof.
  intros HP Hm Hs Hk. unfold bind. specialize (Hm s).
  destruct (m s) as [[a|e] s']; [by apply Hk|]. by eapply HP.
Qed.

Lemma keeps_before {A B} (m : M S E A) (k : A → M S E B) (P : Storage → Prop) s :
  (∀ st st', vote_of st' = vote_of st → P st → P st') →
  P (storage_of (m s).2) → (∀ a, Quiet (k a)) → P (storage_of (bind m k s).2).
Proof.
  intros HP Hs Hk. unfold bind. destruct (m s) as [[a|e] s']; [|done].
  eapply HP; [apply Hk|done].
Qed.
End Keeps.

Section Writes.
Context {SC : Scale} {CS : ConsensusSupport}.

(** The outcomes of a write of the term and of the vote. *)
Lemma update_term_vote x st :
  let '(r, st') := update_current_term x st in
  match r with
  | Ok _ => vote_of st' = (x, current_voted_for st, (x, (vote_of st).2.2))
  | Err _ => vote_of st' = vote_of st
  end.
Proof.
  unfold update_current_term, commit_consensus_data, bind.
  by destruct (disk st) as [|[e|] d].
Qed.

Lemma update_voted_vote x st :
  let '(r, st') := update_current_voted_for x st in
  match r with
  | Ok _ => vote_of st' = (current_term st, x, ((vote_of st).2.1, x))
  | Err _ => vote_of st' = vote_of st
  end.
Proof.
  unfold update_current_voted_for, commit_consensus_data, bind.
  by destruct (disk st) as [|[e|] d].
Qed.

(** Raising the term and then setting the vote keeps the invariant, wherever
    it stops; when it succeeds the new term has the new vote. *)
Lemma raise_term (x : Z) v h s :
  vote_inv h (storage s) → (current_term (storage s) < x)%Z →
  let m := do! on_storage (update_current_term x) in on_storage (update_current_voted_for v) in
  vote_inv h (storage (m s).2) ∧
  (∀ r, (m s).1 = Ok r → vote_of (storage (m s).2) = (x, v, (x, v))) ∧
  (current_term (storage (m s).2) ≤ x)%Z.
Proof.
  intros Hs Hx. unfold vote_inv in Hs. unfold on_storage, bind.
  pose proof (update_term_vote x (storage s)) as Ht.
  destruct (update_current_term x (storage s)) as [[[]|e] st1]; simpl;
    [|split_and!; [unfold vote_inv; by rewrite Ht|done|]].
  2: { unfold vote_of in Ht. injection Ht as -> _ _ _. lia. }
  pose proof (update_voted_vote v st1) as Hv.
  destruct (update_current_voted_for v st1) as [[[]|e] st2]; simpl.
  - assert (current_term st1 = x) as Hx1 by (unfold vote_of in Ht; congruence).
    rewrite Hx1 in Hv. unfold vote_inv. rewrite Hv, Ht. simpl.
    split_and!; [done| |done|by unfold vote_of in Hv; injection Hv as -> _ _ _].
    destruct Hs as [_ Hc]. by apply (consistent_raise h _ _ x v) in Hc.
  - assert (current_term st2 = x) as Hx2 by (unfold vote_of in Hv, Ht; congruence).
    split_and!; [|done|lia]. unfold vote_inv. rewrite Hv, Ht.
    destruct Hs as [[= Hd1 Hd2] Hc]. simpl. rewrite Hd2. split; [done|]. by apply (consistent_raise h _ _ x (current_voted_for (storage s))) in Hc.
Qed.

(** Casting the vote of the current term when there is none. *)
Lemma cast_vote v h s :
  vote_inv h (storage s) → current_voted_for (storage s) = None →
  let m := on_storage (update_current_voted_for v) in
  vote_inv h (storage (m s).2) ∧
  (∀ r, (m s).1 = Ok r →
    vote_of (storage (m s).2) =
      (current_term (storage s), v, (current_term (storage s), v))).
Proof.
  intros Hs Hnone. unfold vote_inv in Hs. unfold on_storage.
  pose proof (update_voted_vote v (storage s)) as Hv.
  destruct (update_current_voted_for v (storage s)) as [[[]|e] st1]; simpl.
  - destruct Hs as [[= Hd1 Hd2] [Hone Hpast H0]]. unfold vote_inv. rewrite Hv. simpl.
    rewrite Hd1. split; [|done]. split; [done|]. split; [done| |done].
    intros t x Hin. destruct (Hpast _ _ Hin) as [Hle Heq]. split; [done|].
    intros ->. rewrite Hnone in Heq. by specialize (Heq eq_refl).
  - split; [|done]. unfold vote_inv. by rewrite Hv.
Qed.
End Writes.

Section Handlers.
Context {SC : Scale} {CS : ConsensusSupport}.
Variable self : Setup.

#[local] Instance keeps_on_req_append_entries addr req :
  Keeps (on_req_append_entries self addr req).
Proof.
  intros h s Hs. unfold on_req_append_entries. unfold bind at 1, asks. cbv beta iota zeta.
  case_decide as Hterm; [done|].
  apply keeps_after; [apply vote_inv_same|apply _|done|]. intros _ s1 H1.
  apply keeps_after; [apply vote_inv_same|apply _|by eapply vote_inv_same|]. intros _ s2 H2.
  apply keeps_before; [apply vote_inv_same| |solve_quiet].
  assert (vote_of (storage s2) = vote_of (storage s)) as H20 by (etrans; [apply H2|apply H1]).
  assert (vote_inv h (storage s2)) as Hs2 by by eapply vote_inv_same.
  case_decide as Hne; [|done]. apply (raise_term (aq_term req) None); [done|].
  unfold vote_of in H20. injection H20 as -> _ _ _. lia.
Qed.

#[local] Instance keeps_on_req_request_vote addr req :
  Keeps (on_req_request_vote self addr req).
Proof.
  intros h s Hs. unfold on_req_request_vote. unfold bind at 1, asks. cbv beta iota zeta.
  case_decide as Hterm; [done|].
  destruct (match last_heartbeat_instant _ with Some _ => _ | None => _ end); [done|].
  match goal with |- context [bind (if decide _ then _ else _) ?f _] => set (k := f) end.
  assert (∀ u, Keeps (k u)) as Hk.
  { intros u h1 s1 Hs1. unfold k, bind at 1, asks. cbv beta iota.
    destruct (get_last_log_index_term (storage s1)) as [li lt]. cbv beta iota.
    destruct (negb _); [done|]. destruct (current_voted_for (storage s1)) as [a|] eqn:Hv; [done|].
    apply keeps_after; [apply vote_inv_same|apply _|done|]. intros _ s2 H2.
    apply keeps_after; [apply vote_inv_same|apply _|by eapply vote_inv_same|]. intros _ s3 H3.
    apply keeps_before; [apply vote_inv_same| |solve_quiet].
    assert (vote_of (storage s3) = vote_of (storage s1)) as H31 by (etrans; [apply H3|apply H2]).
    apply (cast_vote (Some addr)); [by eapply vote_inv_same|].
    unfold vote_of in H31. by injection H31 as _ -> _ _. }
  case_decide as Hgt; [|exact (Hk tt h s Hs)].
  unfold bind at 1. 
  assert (vote_inv h (storage_of ((do! update_next_election_instant self 0 false in
     do! update_state self Follower in
     do! on_storage (update_current_term (vq_term req)) in
     on_storage (update_current_voted_for None)) s).2)) as Hr.
  { apply keeps_after; [apply vote_inv_same|apply _|done|]. intros _ s1 H1.
    apply keeps_after; [apply vote_inv_same|apply _|by eapply vote_inv_same|]. intros _ s2 H2.
    assert (vote_of (storage s2) = vote_of (storage s)) as H20 by (etrans; [apply H2|apply H1]).
    apply raise_term; [by eapply vote_inv_same|].
    unfold vote_of in H20. injection H20 as -> _ _ _. unfold id in Hgt. lia. }
  destruct ((do! update_next_election_instant self 0 false in _) s) as [[u|e] s']; [|done].
  by apply Hk.
Qed.

Lemma keeps_refresh w h st :
  disk st = [] → vote_inv h st → vote_inv h (refresh w st).2.
Proof.
  intros Hd Hs. destruct (storage_get_proof w) as [proof|e] eqn:Hp.
  - destruct (proj2 (refresh_spec w st) Hd proof Hp) as [st' Hr]. rewrite Hr. simpl.
    apply refresh_spec in Hr as (proof' & data & d & Hp' & -> & [Ht Hv _ _ _]).
    unfold vote_inv, vote_of in *. simpl in *. rewrite Ht, Hv. split; [done|].
    destruct Hs as [[= H1 H2] Hc]. unfold term_of, voted_for_of. rewrite H1, H2.
    case_decide as Hlt; [|by rewrite Z.max_r by lia].
    rewrite Z.max_l by lia. by eapply consistent_raise.
  - unfold refresh, bind, lift. by rewrite Hp.
Qed.

Lemma keeps_on_block_committed n b h s :
  disk (storage s) = [] → vote_inv h (storage_of s) →
  vote_inv h (storage_of (on_block_committed n b s).2).
Proof.
  intros Hd Hs. unfold on_block_committed. rewrite bind_asks.
  apply keeps_before; [apply vote_inv_same| |solve_quiet].
  unfold on_storage. pose proof (keeps_refresh (support s) h (storage s) Hd Hs).
  by destruct (refresh (support s) (storage s)).
Qed.

(** The messages of other nodes. *)
#[local] Instance keeps_on_network_message p m : Keeps (on_network_message self p m).
Proof.
  unfold on_network_message. apply keeps_then; [apply keeps_of_quiet, _|]. intros msg.
  apply keeps_then; [apply keeps_of_quiet, _|]. intros s. cbv zeta.
  destruct msg, (get_peer_address p s); try (apply keeps_of_quiet; solve_quiet; fail).
  - apply keeps_then; [apply _|]. intros res. apply keeps_of_quiet. solve_quiet.
  - apply keeps_then; [apply _|]. intros res. apply keeps_of_quiet. solve_quiet.
Qed.

Lemma keeps_on_in_message m h s :
  (∀ n b, m = BlockCommitted n b → disk (storage s) = []) → vote_inv h (storage_of s) →
  vote_inv h (storage_of (on_in_message self m s).2).
Proof.
  intros Hd Hs. destruct m; cbn [on_in_message]; try (apply keeps_of_quiet; [apply _|done]; fail).
  - by apply keeps_on_network_message.
  - apply keeps_on_block_committed; [by eapply Hd|done].
Qed.

(** *** The roles *)

#[local] Hint Extern 1 (Quiet (modify _)) => apply quiet_modify; intros; reflexivity
  : typeclass_instances.

#[local] Instance quiet_stream {A} (m : R A) : Quiet m → Quiet (stream m).
Proof. intros Hm [l s]. unfold stream. specialize (Hm s). by destruct (m s). Qed.
#[local] Instance quiet_update_leader_state f : Quiet (update_leader (CS := CS) f).
Proof. apply quiet_modify. by intros []. Qed.
#[local] Instance quiet_leader_state : Quiet (leader_state (CS := CS)).
Proof. apply quiet_asks. Qed.
#[local] Instance quiet_cstream {A} (m : R A) : Quiet m → Quiet (cstream m).
Proof. intros Hm [l s]. unfold cstream. specialize (Hm s). by destruct (m s). Qed.
#[local] Instance quiet_update_candidate f : Quiet (update_candidate (CS := CS) f).
Proof. apply quiet_modify. by intros []. Qed.

#[local] Instance quiet_on_maybe_commit : Quiet (on_maybe_commit (CS := CS)).
Proof. unfold on_maybe_commit. solve_quiet. Qed.
#[local] Instance quiet_on_update_match_index a x : Quiet (on_update_match_index (CS := CS) a x).
Proof. unfold on_update_match_index. solve_quiet. Qed.
#[local] Instance quiet_leader_append l : Quiet (leader_append_entries self l).
Proof. unfold leader_append_entries. solve_quiet. Qed.
#[local] Instance quiet_append_init : Quiet (append_init_entry self).
Proof. unfold append_init_entry. solve_quiet. Qed.
#[local] Instance quiet_work t : Quiet (work self t).
Proof. unfold work. solve_quiet. Qed.
#[local] Instance quiet_leader_authorities a : Quiet (leader_on_authorities_updated self a).
Proof. unfold leader_on_authorities_updated. solve_quiet. Qed.
#[local] Instance quiet_leader_on_internal m : Quiet (leader_on_internal self m).
Proof. unfold leader_on_internal, leader_on_append_entries_res. solve_quiet. Qed.
#[local] Instance quiet_replication_out m : Quiet (on_replication_out_message self m).
Proof. unfold on_replication_out_message, append_entries. solve_quiet. Qed.
#[local] Instance quiet_maybe_leader : Quiet (on_maybe_become_leader self).
Proof. unfold on_maybe_become_leader. solve_quiet. Qed.
#[local] Instance quiet_candidate_request : Quiet (candidate_request_vote self).
Proof. unfold candidate_request_vote, request_vote. solve_quiet. Qed.
#[local] Instance quiet_follower_on_internal m : Quiet (follower_on_internal self m).
Proof. unfold follower_on_internal, follower_on_authorities_updated. solve_quiet. Qed.
#[local] Instance quiet_observer_on_internal m : Quiet (observer_on_internal self m).
Proof. unfold observer_on_internal, observer_on_authorities_updated. solve_quiet. Qed.
#[local] Instance quiet_candidate_authorities a : Quiet (candidate_on_authorities_updated self a).
Proof. unfold candidate_on_authorities_updated. solve_quiet. Qed.
#[local] Instance quiet_take_internal : Quiet (take_internal (CS := CS)).
Proof. intros s. unfold take_internal. by destruct (internal s). Qed.

#[local] Instance quiet_leader_start : Quiet (leader_start self).
Proof.
  intros s. unfold leader_start.
  match goal with |- context [bind ?m ?k (?l, s)] =>
    assert (Quiet (bind m k)) as Hq by solve_quiet; specialize (Hq (l, s));
    destruct (bind m k (l, s)) as [[u|e] [l' s']]; exact Hq end.
Qed.

Lemma cstream_bind {A B} (m : R A) (k : A → R B) cs :
  bind (cstream m) (λ a, cstream (k a)) cs = cstream (bind m k) cs.
Proof. destruct cs as [c s]. unfold cstream, bind. by destruct (m s) as [[a|e] s']. Qed.

Lemma storage_cstream {A} (m : R A) c s :
  storage_of (cstream m (c, s)).2 = storage (m s).2 ∧ (cstream m (c, s)).1 = (m s).1.
Proof. unfold cstream. by destruct (m s). Qed.

#[local] Instance keeps_candidate_on_res addr res :
  Keeps (candidate_on_res_request_vote self addr res).
Proof.
  intros h s Hs. unfold candidate_on_res_request_vote. rewrite bind_asks.
  case_decide; [done|]. apply keeps_after; [apply vote_inv_same|apply _|done|]. intros _ [c1 s1] H1.
  unfold bind at 1. unfold cstream at 1, asks at 1. cbv beta iota.
  case_decide as Hgt; [|apply keeps_of_quiet; [solve_quiet|by eapply vote_inv_same]].
  apply keeps_after; [apply vote_inv_same|apply _|by eapply vote_inv_same|]. intros _ s2 H2.
  apply keeps_after; [apply vote_inv_same|apply _|by do 2 (eapply vote_inv_same; [done|])|]. intros _ [c3 s3] H3.
  rewrite cstream_bind, (proj1 (storage_cstream _ _ _)).
  assert (vote_of (storage s3) = vote_of (storage s1)) as H31 by (etrans; [apply H3|apply H2]).
  apply (raise_term (vs_term res) None).
  - eapply vote_inv_same; [apply H31|]. by eapply vote_inv_same.
  - unfold vote_of in H31. injection H31 as -> _ _ _. lia.
Qed.

(** A candidacy raises the term by one. *)
Lemma keeps_candidate_begin h s :
  vote_inv h (storage s) → (current_term (storage s) + 1 < 2 ^ 64)%Z →
  vote_inv h (storage (candidate_begin self s).2) ∧
  (current_term (storage (candidate_begin self s).2) ≤ current_term (storage s) + 1)%Z.
Proof.
  intros Hs Hroom. unfold candidate_begin. set (c0 := Build_CandidateState _ _ _).
  assert (0 ≤ current_term (storage s))%Z by apply Hs.
  set (P := λ st, vote_inv h st ∧ (current_term st ≤ current_term (storage s) + 1)%Z).
  assert (∀ st st', vote_of st' = vote_of st → P st → P st') as HP.
  { intros st st' H' [HI Hle]. split; [by eapply vote_inv_same|].
    unfold vote_of in H'. injection H' as -> _ _ _. done. }
  assert (P (storage s)) as Ps by (split; [done|lia]).
  match goal with |- context [bind ?m ?k (c0, s)] =>
    assert (P (storage_of (bind m k (c0, s)).2)) as Hend;
      [|by destruct (bind m k (c0, s)) as [[u|e] [c s']]]
  end.
  apply keeps_after; [done|apply _|done|]. intros _ s1 H1.
  apply keeps_after; [done|apply _|by eapply HP|]. intros _ [c2 s2] H2.
  assert (vote_of (storage s2) = vote_of (storage s)) as H20 by (etrans; [apply H2|apply H1]).
  unfold bind at 1. unfold cstream at 1, asks at 1. cbv beta iota.
  assert (current_term (storage s2) = current_term (storage s)) as Ht
    by (unfold vote_of in H20; congruence).
  rewrite Ht, u64_id by (unfold is_u64; lia).
  rewrite <-bind_assoc. apply keeps_before; [done| |apply _].
  rewrite cstream_bind, (proj1 (storage_cstream _ _ _)).
  destruct (raise_term (current_term (storage s) + 1) (Some (address self)) h s2)
    as (HI & _ & Hle); [by eapply vote_inv_same|lia|by split].
Qed.

Lemma quiet_keeps {A} (m : R A) h s :
  Quiet m → vote_inv h (storage s) → vote_inv h (storage (m s).2).
Proof. intros Hm. exact (keeps_of_quiet m Hm h s). Qed.

(** Entering a loop raises the term by at most one. *)
Lemma keeps_enter h s :
  vote_inv h (storage s) → (current_term (storage s) + 1 < 2 ^ 64)%Z →
  vote_inv h (storage (enter self s).2) ∧
  (current_term (storage (enter self s).2) ≤ current_term (storage s) + 1)%Z.
Proof.
  intros Hs Hroom. unfold enter. rewrite bind_asks.
  assert (∀ m : R (option Role), Quiet m → vote_inv h (storage (m s).2) ∧
    (current_term (storage (m s).2) ≤ current_term (storage s) + 1)%Z) as Hq.
  { intros m Hm. specialize (Hm s). split; [by eapply vote_inv_same|].
    pose proof (same_term _ _ Hm : current_term (storage (m s).2) = current_term (storage s)).
    lia. }
  destruct (state s); try (apply Hq; solve_quiet; fail).
  destruct (keeps_candidate_begin h s Hs Hroom) as [HI Hle]. unfold bind.
  by destruct (candidate_begin self s) as [[c|e] s'].
Qed.

Lemma keeps_settle fuel r h s :
  vote_inv h (storage s) → (current_term (storage s) + Z.of_nat fuel < 2 ^ 64)%Z →
  vote_inv h (storage (settle self fuel r s).2).
Proof.
  revert r s. induction fuel as [|fuel IH]; intros r s Hs Hroom; cbn [settle];
    rewrite bind_asks; case_decide.
  1, 3: apply quiet_keeps; [solve_quiet|done].
  - done.
  - destruct (keeps_enter h s Hs) as [HI Hle]; [lia|]. unfold bind.
    destruct (enter self s) as [[[r'|]|e] s']; [|done..]. simpl in *. apply IH; [done|lia].
Qed.

Lemma keeps_stream_handler r m h s :
  vote_inv h (storage (m s).2) → vote_inv h (storage (stream_handler r m s).2).
Proof.
  unfold stream_handler, or_warn, attempt, bind. by destruct (m s) as [[[]|[e|]] s'].
Qed.

Lemma keeps_leader_handler l m h s :
  Quiet m → vote_inv h (storage s) → vote_inv h (storage (leader_handler l m s).2).
Proof.
  intros Hm Hs. unfold leader_handler. specialize (Hm (l, s)).
  destruct (m (l, s)) as [[[]|[e|]] [l' s']]; by eapply vote_inv_same.
Qed.

Lemma keeps_candidate_handler c m h s :
  Keeps m → vote_inv h (storage s) → vote_inv h (storage (candidate_handler c m s).2).
Proof.
  intros Hm Hs. unfold candidate_handler. specialize (Hm h (c, s) Hs).
  by destruct (m (c, s)) as [[[]|[e|]] [c' s']].
Qed.

Lemma keeps_on_internal r h s :
  vote_inv h (storage s) → vote_inv h (storage (on_internal self r s).2).
Proof.
  intros Hs. unfold on_internal, take_internal, bind.
  destruct (internal s) as [|m rest]; [done|].
  assert (vote_inv h (storage (with_internal rest s))) as Hs' by done.
  destruct r as [l|c| |].
  - by apply keeps_leader_handler; [apply _|].
  - apply keeps_candidate_handler; [|done]. unfold candidate_on_internal.
    destruct m; try (apply keeps_of_quiet; apply _; fail). apply _.
  - apply keeps_stream_handler, quiet_keeps; [apply _|done].
  - apply keeps_stream_handler, quiet_keeps; [apply _|done].
Qed.

Lemma keeps_handle ev r h s :
  (∀ n b, ev = EvIn (BlockCommitted n b) → disk (storage s) = []) →
  vote_inv h (storage s) → (current_term (storage s) + 1 < 2 ^ 64)%Z →
  vote_inv h (storage (handle self ev r s).2).
Proof.
  intros Hd Hs Hroom. destruct ev; cbn [handle].
  - apply keeps_stream_handler. apply keeps_on_in_message; [|done]. intros n b ->. by eapply Hd.
  - apply quiet_keeps; [solve_quiet|done].
  - by apply keeps_on_internal.
  - unfold on_election. rewrite bind_asks. destruct r; [done| | |done].
    + destruct (match next_election_instant _ with Some _ => _ | None => _ end); [|done].
      destruct (keeps_candidate_begin h s Hs Hroom) as [HI _]. unfold bind.
      by destruct (candidate_begin self s) as [[c'|e] s'].
    + destruct (match next_election_instant _ with Some _ => _ | None => _ end); [|done].
      apply quiet_keeps; [solve_quiet|done].
  - destruct r; [|done..]. by apply keeps_leader_handler; [apply _|].
  - destruct r as [l| | |]; [|done..]. destruct (replication_out l) as [|m rest]; [done|].
    by apply keeps_leader_handler; [apply _|].
  - destruct r; [|done..]. apply quiet_keeps; [solve_quiet|done].
  - destruct r; [|done..]. apply quiet_keeps; [solve_quiet|done].
Qed.

(** *** Steps and restarts *)

(** What the disk holds is consistent with the votes. *)
Definition disk_inv (h : Votes) (st : Storage) : Prop :=
  let '(_, (term, voted)) := vote_of st in consistent h term voted.

Lemma disk_inv_same h st st' : vote_of st' = vote_of st → disk_inv h st → disk_inv h st'.
Proof. unfold disk_inv. by intros ->. Qed.
Lemma vote_inv_disk h st : vote_inv h st → disk_inv h st.
Proof. unfold vote_inv, disk_inv. destruct (vote_of st) as [[t v] d]. by intros [-> Hc]. Qed.

(** The term has room for the loops that an event may enter. *)
Definition room (st : Storage) : Prop := (current_term st + Z.of_nat (S LOOPS) < 2 ^ 64)%Z.

Definition task_inv (h : Votes) (t : Task) : Prop :=
  match t with
  | Running n => vote_inv h (storage (node_stream n))
  | Ended s => disk_inv h (storage s)
  end.

Lemma finish_inv h m : vote_inv h (storage m.2) → task_inv h (finish m).
Proof.
  destruct m as [[[r|]|e] s]; simpl; [done|apply vote_inv_disk|apply vote_inv_disk].
Qed.

Lemma step_inv ev n h :
  let s := node_stream n in
  (∀ k b, ev = EvIn (BlockCommitted k b) → disk (storage s) = []) →
  room (storage s) → room (storage (handle self ev (role n) s).2) →
  vote_inv h (storage s) → task_inv h (step self ev n).
Proof.
  intros s Hd Hroom Hroom' Hs. unfold step. apply finish_inv.
  assert (vote_inv h (storage (handle self ev (role n) s).2)) as Hh.
  { apply keeps_handle; [done|done|]. unfold room, LOOPS in Hroom. lia. }
  unfold bind. fold s. destruct (handle self ev (role n) s) as [[r|e] s']; [|done].
  apply keeps_settle; [done|]. unfold room, LOOPS in *. simpl in *. lia.
Qed.

Lemma refresh_term_disk_inv bt h st :
  disk_inv h st → disk_inv h (refresh_term bt st).2.
Proof.
  intros Hs. unfold refresh_term. rewrite bind_asks. case_decide as Hlt; [|done].
  unfold commit_consensus_data, bind. unfold disk_inv, vote_of in *.
  destruct (disk st) as [|[e|] d]; simpl in *; [|done|]; by eapply consistent_raise.
Qed.

Lemma refresh_disk_inv w h st :
  disk_inv h (storage_of st) → disk_inv h (storage_of (refresh w st).2).
Proof.
  intros Hs. unfold refresh. unfold bind at 1, lift.
  destruct (storage_get_proof w) as [proof|e]; [|done].
  destruct (match proof with Some _ => _ | None => _ end) as [bi bt].
  pose proof (refresh_term_disk_inv bt h st Hs) as Ht. unfold bind at 1.
  destruct (refresh_term bt st) as [[[t v]|e] st1]; [|done].
  apply keeps_after; [apply disk_inv_same|unfold refresh_commit_log_index; solve_quiet;
    by apply quiet_commit|done|]. intros ci st2 H2.
  apply (disk_inv_same h _ _ H2) in Ht.
  apply keeps_after; [apply disk_inv_same|unfold refresh_logs; solve_quiet;
    by apply quiet_commit|done|]. intros l st3 H3.
  apply (disk_inv_same h _ _ H3) in Ht.
  apply keeps_after; [apply disk_inv_same|unfold refresh_proposal; solve_quiet;
    by apply quiet_commit|done|]. intros p st4 H4.
  apply (disk_inv_same h _ _ H4) in Ht. exact Ht.
Qed.

Lemma storage_new_inv w data d h :
  consistent h (default 0%Z (DB_KEY_CURRENT_TERM data)) (default None (DB_KEY_CURRENT_VOTED_FOR data)) →
  let '(r, st) := storage_new data d w in
  disk_inv h st ∧ (is_ok r = true → vote_inv h st).
Proof.
  intros Hc. unfold storage_new. set (st0 := Build_Storage _ _ _ _ _ _ _ _ _).
  pose proof (refresh_disk_inv w h st0 Hc) as Hd.
  destruct (refresh w st0) as [[[]|e] st] eqn:Hr; simpl in *; (split; [done|]); [|done].
  intros _. apply refresh_spec in Hr as (proof & data' & d' & _ & -> & [Ht Hv _ _ _]).
  unfold vote_inv, disk_inv, vote_of in *. simpl in *. by rewrite Ht, Hv in *.
Qed.

Lemma start_inv h s :
  vote_inv h (storage_of s) → room (storage s) → vote_inv h (storage_of (start self s).2).
Proof.
  intros Hs Hroom. unfold start.
  apply keeps_after; [apply vote_inv_same|apply _|done|]. intros _ s1 H1. rewrite bind_asks.
  apply keeps_after; [apply vote_inv_same|solve_quiet|by eapply vote_inv_same|]. intros _ s2 H2.
  assert (vote_of (storage s2) = vote_of (storage s)) as H20 by (etrans; [apply H2|apply H1]).
  pose proof (same_term _ _ H20) as Ht. unfold room, LOOPS in Hroom. simpl in Hroom.
  destruct (keeps_enter h s2) as [HI Hle]; [by eapply vote_inv_same|lia|]. unfold bind at 1.
  destruct (enter self s2) as [[[r|]|e] s3]; [|done..]. cbn [fst snd] in *.
  refine (keeps_settle LOOPS r h s3 HI _). unfold LOOPS. lia.
Qed.

Lemma spawn_inv w data d now draws h :
  consistent h (default 0%Z (DB_KEY_CURRENT_TERM data))
    (default None (DB_KEY_CURRENT_VOTED_FOR data)) →
  room (storage_new data d w).2 → task_inv h (spawn self w data d now draws).
Proof.
  intros Hc Hroom. unfold spawn. pose proof (storage_new_inv w data d h Hc) as Hn.
  destruct (storage_new data d w) as [[[]|e] st]; destruct Hn as [Hd Hv]; [|done].
  specialize (Hv eq_refl). destruct (get_raft_authorities _ _) as [[a|e]|]; [|done..].
  apply finish_inv. by apply start_inv.
Qed.

(** *** Runs *)

(** The vote that the storage of a running node shows is recorded. *)
Definition observe (t : Task) (h : Votes) : Votes :=
  match t with
  | Running n =>
      match current_voted_for (storage (node_stream n)) with
      | Some x => (current_term (storage (node_stream n)), x) :: h
      | None => h
      end
  | Ended _ => h
  end.

Lemma observe_inv t h : task_inv h t → task_inv (observe t h) t.
Proof.
  destruct t as [n|s]; simpl; [|done]. unfold vote_inv. destruct (vote_of _) as [[t v] d] eqn:Hv.
  unfold vote_of in Hv. injection Hv as -> Hv' Hd. rewrite Hv'.
  intros [-> Hc]. destruct v as [x|]; [|done]. split; [done|]. by apply consistent_record.
Qed.

(** The life of a node: it starts on an empty disk; it handles events, while
    the chain, the clock, the random numbers and the faults of the disk to
    come change as they may; and it is restarted, after its task ended or
    not, on the disk it left.  Terms stay away from the end of [u64], and the
    disk does not fail while the node refreshes its storage. *)
Inductive Run : Votes → Task → Prop :=
| run_new w d now draws :
    room (storage_new empty_data d w).2 →
    let t := spawn self w empty_data d now draws in Run (observe t []) t
| run_event h n ev :
    Run h (Running n) →
    (∀ k b, ev = EvIn (BlockCommitted k b) → disk (storage (node_stream n)) = []) →
    room (storage (node_stream n)) →
    room (storage (handle self ev (role n) (node_stream n)).2) →
    let t := step self ev n in Run (observe t h) t
| run_environment h n w now draws d :
    Run h (Running n) →
    let s := node_stream n in
    let st := set_db (db (storage s)) d (storage s) in
    Run h (Running (Build_Node (role n)
             (with_support w (with_now now (with_draws draws (with_storage st s))))))
| run_restart h t w d now draws :
    Run h t →
    room (storage_new (db (storage (task_stream t))) d w).2 →
    let t' := spawn self w (db (storage (task_stream t))) d now draws in Run (observe t' h) t'.

Lemma run_inv h t : Run h t → task_inv h t.
Proof.
  induction 1 as [w d now draws Hroom t|h n ev _ IH Hd Hr Hr' t|h n w now draws d _ IH s st
                 |h t w d now draws _ IH Hr t'].
  - apply observe_inv, spawn_inv; [|done]. simpl. split; [|by intros ?? ?%not_elem_of_nil|done].
    by intros ??? ?%not_elem_of_nil.
  - by apply observe_inv, step_inv.
  - exact IH.
  - apply observe_inv, spawn_inv; [|done]. destruct t as [n|s]; simpl in *; [|done].
    by apply vote_inv_disk in IH.
Qed.

(** C10: over the life of a node, through events, restarts and disk faults,
    the storage never shows votes for two candidates in one term, under two
    conditions: the terms stay at least four below the end of [u64] (else the
    next candidacy comes back to term zero and votes anew), and no transaction
    fails while a running node refreshes its storage for a committed block
    (any other transaction may fail, and so may those of a start). *)
Theorem one_vote_per_term h t : Run h t → one_vote h.
Proof.
  intros Hrun%run_inv. destruct t as [n|s]; simpl in Hrun.
  - apply vote_inv_disk in Hrun. apply Hrun.
  - apply Hrun.
Qed.

(** *** Granted votes *)

Lemma update_next_storage x hb s :
  storage (update_next_election_instant self x hb s).2 = storage s.
Proof.
  unfold update_next_election_instant, rand_election_timeout, gen_range. rewrite !bind_asks.
  unfold bind. case_decide; [|done]. destruct (draws s), hb; done.
Qed.
Lemma update_state_storage x s : storage (update_state self x s).2 = storage s.
Proof. unfold update_state, modify. simpl. by case_decide. Qed.

(** A write of the term or of the vote that succeeds. *)
Lemma write_ok op f (u : unit) s s' :
  on_storage (do! commit_consensus_data op in modify f) s = (Ok u, s') →
  ∃ d, storage s' = f (set_db (op (db (storage s))) d (storage s)).
Proof.
  unfold on_storage, bind, commit_consensus_data, modify.
  destruct (disk (storage s)) as [|[e|] d]; intros Heq; simplify_eq/=; by eexists.
Qed.

(** A node that grants a vote has recorded it, in memory and on disk,
    for the candidate and the term of the request; the request's term is not
    behind the node's, the candidate's log is not behind in its last index
    nor in its last term, and a vote already cast in that term was for the
    same candidate. *)
Theorem granted_vote addr req s res s' :
  on_req_request_vote self addr req s = (Ok res, s') →
  vs_vote_granted res = true →
  (vote_of (storage s)).2 = (vote_of (storage s)).1 →
  vote_of (storage s') = (vq_term req, Some addr, (vq_term req, Some addr)) ∧
  (current_term (storage s) ≤ vq_term req)%Z ∧
  ((get_last_log_index_term (storage s')).1 ≤ vq_last_log_index req)%Z ∧
  ((get_last_log_index_term (storage s')).2 ≤ vq_last_log_term req)%Z ∧
  logs (storage s') = logs (storage s) ∧
  (vq_term req = current_term (storage s) → ∀ x,
     current_voted_for (storage s) = Some x → x = addr).
Proof.
  unfold on_req_request_vote. rewrite bind_asks. unfold id. cbv zeta.
  case_decide as Hge; [by intros [= <- <-]|].
  destruct (match last_heartbeat_instant _ with Some _ => _ | None => _ end).
  { by intros [= <- <-]. }
  intros ([] & s1 & Hraise & Hvote)%bind_inv_ok Hgranted Hsync.
  assert (current_term (storage s1) = vq_term req ∧
          (vote_of (storage s1)).2 = (vote_of (storage s1)).1 ∧
          logs (storage s1) = logs (storage s) ∧
          (vq_term req = current_term (storage s) →
             current_voted_for (storage s1) = current_voted_for (storage s)))
    as (Ht & Hsync1 & Hlogs & Hsame).
  { case_decide as Hgt; [|injection Hraise as <-; split_and!; [lia|done..]].
    apply bind_inv_ok in Hraise as ([] & s2 & H2 & Hraise).
    apply bind_inv_ok in Hraise as ([] & s3 & H3 & Hraise).
    apply bind_inv_ok in Hraise as ([] & s4 & [d4 H4]%write_ok & [d1 H1]%write_ok).
    pose proof (update_next_storage 0 false s) as E2. rewrite H2 in E2. simpl in E2.
    pose proof (update_state_storage Follower s2) as E3. rewrite H3 in E3. simpl in E3.
    rewrite H1, H4, E3, E2. unfold vote_of. simpl. split_and!; [done..|lia]. }
  rewrite bind_asks in Hvote.
  destruct (get_last_log_index_term (storage s1)) as [li lt] eqn:Hlast.
  case_bool_decide as Hup; [|by injection Hvote as <- <-]. simpl in Hvote.
  destruct (current_voted_for (storage s1)) as [x|] eqn:Hv.
  - injection Hvote as <- <-. simpl in Hgranted. apply bool_decide_eq_true in Hgranted as ->.
    rewrite Hlast. destruct Hup. split_and!; cbn [fst snd]; try (lia || done).
    + unfold vote_of in *. simpl in Hsync1. by rewrite Hsync1, Ht, Hv.
    + intros Heq x Hx. specialize (Hsame Heq). congruence.
  - apply bind_inv_ok in Hvote as ([] & s2 & H2 & Hvote).
    apply bind_inv_ok in Hvote as ([] & s3 & H3 & Hvote).
    apply bind_inv_ok in Hvote as ([] & s4 & [d4 H4]%write_ok & [= <- <-]).
    pose proof (update_state_storage Follower s1) as E2. rewrite H2 in E2. simpl in E2.
    pose proof (update_next_storage 0 false s2) as E3. rewrite H3 in E3. simpl in E3.
    rewrite E3, E2 in H4. rewrite H4.
    change (get_last_log_index_term _) with (get_last_log_index_term (storage s1)).
    rewrite Hlast. destruct Hup. split_and!; cbn [fst snd]; try (lia || done).
    + unfold vote_of in *. simpl in *. injection Hsync1 as -> _. by rewrite Ht.
    + intros Heq x Hx. specialize (Hsame Heq). congruence.
Qed.
End Handlers.

(** ** Concrete inputs *)

Module RaftVotesSamples.
Definition at_start : Votes := observe (started world_three) [].
Definition candidate : Task := step sample_setup EvElection node_three.
Definition restarted : Task :=
  spawn sample_setup world_three (db (storage (task_stream candidate))) [] 0 [].
Definition votes_cast : Votes := observe restarted (observe candidate at_start).

Lemma run_started : Run sample_setup at_start (Running (get_node (started world_three))).
Proof.
  rewrite <-(running_get_node (started world_three)) by (vm_compute; reflexivity).
  refine (run_new sample_setup world_three [] 0 [] _). vm_compute. reflexivity.
Qed.

Lemma run_later : Run sample_setup at_start (Running node_three).
Proof. exact (run_environment sample_setup _ _ world_three 20000 [] [] run_started). Qed.

Lemma run_candidate : Run sample_setup (observe candidate at_start) candidate.
Proof.
  refine (run_event sample_setup _ node_three EvElection run_later _ _ _);
    [discriminate|vm_compute; reflexivity..].
Qed.

Lemma run_restarted : Run sample_setup votes_cast restarted.
Proof.
  refine (run_restart sample_setup _ candidate world_three [] 0 [] run_candidate _).
  vm_compute. reflexivity.
Qed.

(** A node that was a candidate of term 1 restarts with its vote. *)
Lemma one_vote_per_term_witness : votes_cast = [(1%Z, b "A"); (1%Z, b "A")] ∧ one_vote votes_cast.
Proof.
  split; [vm_compute; reflexivity|].
  exact (one_vote_per_term sample_setup votes_cast restarted run_restarted).
Defined.

Definition vote_req : RequestVoteReq := Build_RequestVoteReq 7 3 5 2.
Abbreviation voted :=
  (on_req_request_vote sample_setup (b "B") vote_req (node_stream node_three)).

Lemma granted_vote_witness :
  vote_of (storage voted.2) = (3%Z, Some (b "B"), (3%Z, Some (b "B"))).
Proof.
  assert (voted.1 = Ok (Build_RequestVoteRes 7 0 true)) as Hv by (vm_compute; reflexivity).
  apply outcome_eq in Hv.
  refine (proj1 (granted_vote sample_setup _ _ _ _ _ Hv _ _)); vm_compute; reflexivity.
Defined.
End RaftVotesSamples.
