(* ===== verification/RaftCommit.v ===== *)
(** * RaftCommit

    What a leader commits and what a follower appends. *)
From stdpp Require Import sorting.
From S2P Require Import Prelude Codec EnumCodec Types BTreeMap SystemModule RaftModule ConsensusSupport Engine RaftProtocol RaftStorage RaftVerifier RaftStream RaftState RaftNode RaftVotes.

(** ** The commit index of a leader *)

(** How many of the indices reach [v]. *)
Definition reaching (v : Z) (l : list Z) : nat := length (filter (λ x, v ≤ x)%Z l).

#[export] Instance reaching_perm v : Proper ((≡ₚ) ==> (=)) (reaching v).
Proof. intros l1 l2 Hl. unfold reaching. by rewrite Hl. Qed.

(** In a descending list, the first [k + 1] elements reach the element at [k],
    and what the element at [k] does not reach, at most [k] elements do. *)
Lemma descending_reaching l k x v : StronglySorted descending l → l !! k = Some x →
  (v ≤ x)%Z → k < reaching v l.
Proof.
  intros Hs. revert k. induction Hs as [|y l Hs IH Hy]; intros k Hk Hv; [done|].
  unfold reaching in *. rewrite filter_cons. destruct k as [|k]; simpl in Hk.
  - injection Hk as ->. rewrite decide_True by done. simpl. lia.
  - assert (x ≤ y)%Z. { rewrite Forall_forall in Hy. apply Hy. by apply list_elem_of_lookup_2 in Hk. }
    rewrite decide_True by lia. simpl. specialize (IH k Hk Hv). lia.
Qed.

Lemma descending_not_reaching l k x v : StronglySorted descending l → l !! k = Some x →
  (x < v)%Z → reaching v l ≤ k.
Proof.
  intros Hs. revert k. induction Hs as [|y l Hs IH Hy]; intros k Hk Hv; [done|].
  unfold reaching in *. rewrite filter_cons. destruct k as [|k]; simpl in Hk.
  - injection Hk as ->. rewrite decide_False by lia.
    assert (filter (λ z, v ≤ z)%Z l = []) as ->; [|done].
    apply elem_of_nil_inv. intros z [Hz Hin]%list_elem_of_filter.
    rewrite Forall_forall in Hy. specialize (Hy z Hin). unfold descending in Hy. lia.
  - specialize (IH k Hk Hv). case_decide; simpl; lia.
Qed.

Lemma get_new_commit_log_index_spec l old : l ≠ [] → ∃ new,
  get_new_commit_log_index l old = Some new ∧ (old ≤ new)%Z ∧
  (new ≠ old → length l < 2 * reaching new l) ∧
  (∀ v, length l < 2 * reaching v l → (v ≤ new)%Z).
Proof.
  intros Hl. unfold get_new_commit_log_index.
  pose proof (merge_sort_Permutation descending l) as Hp.
  pose proof (StronglySorted_merge_sort descending l) as Hs.
  assert (length (merge_sort descending l) = length l) as Hlen by (by rewrite Hp).
  assert (length l / 2 < length l) as Hk by (apply Nat.div_lt; [destruct l; simpl; [done|lia]|lia]).
  rewrite Hlen. destruct (merge_sort descending l !! (length l / 2)) as [x|] eqn:Hx.
  2: { apply lookup_ge_None_1 in Hx. lia. }
  exists (Z.max x old). split; [done|]. split; [lia|].
  pose proof (Nat.div_mod (length l) 2). pose proof (Nat.mod_upper_bound (length l) 2). split.
  - intros Hne. rewrite <-Hp. rewrite Z.max_l by lia.
    pose proof (descending_reaching _ _ x x Hs Hx). rewrite Hlen. lia.
  - intros v Hv. rewrite <-Hp in Hv. destruct (decide (x < v)%Z) as [Hlt|]; [|lia].
    pose proof (descending_not_reaching _ _ x v Hs Hx Hlt). rewrite Hlen in Hv. lia.
Qed.

Section Commit.
Context {SC : Scale} {CS : ConsensusSupport}.
Variable self : Setup.

(** The match indices of the replicas and the last index of the leader. *)
Definition known_indices (l : LeaderState) (s : RaftStream) : list Z :=
  ((match_index ∘ snd) <$> map_to_list (replications l))
  ++ [(get_last_log_index_term (storage s)).1].

Lemma length_known_indices l s : length (known_indices l s) = size (replications l) + 1.
Proof. unfold known_indices. rewrite length_app, length_fmap, length_map_to_list. done. Qed.

Lemma update_commit_outcome x (s : RaftStream) :
  let '(r, s') := on_storage (update_commit_log_index x) s in
  commit_log_index (storage s') = (if is_ok r then x else commit_log_index (storage s)) ∧
  internal s' = internal s ∧ r ≠ Err Panic.
Proof.
  unfold on_storage, update_commit_log_index, commit_consensus_data, bind, modify.
  by destruct (disk (storage s)) as [|[e|] d].
Qed.

(** C29: a leader moves its commit index forward only, and only to an index
    that a majority of the authorities (its own log counted) are known to
    have reached; if the disk accepts the write it commits everything that a
    majority has reached, and queues the log update that executes it.  It
    never panics. *)
Theorem leader_commits_majority l s r l' s' :
  on_maybe_commit (l, s) = (r, (l', s')) →
  let old := commit_log_index (storage s) in
  let new := commit_log_index (storage s') in
  let members := size (replications l) + 1 in
  l' = l ∧ r ≠ Err Panic ∧ (old ≤ new)%Z ∧
  (new ≠ old → members < 2 * reaching new (known_indices l s)) ∧
  (r = Ok tt → (∀ v, members < 2 * reaching v (known_indices l s) → (v ≤ new)%Z) ∧
     internal s' = internal s ++ (if decide (new = old) then [] else [LogUpdated])).
Proof.
  intros Hm old new members.
  assert (known_indices l s ≠ []) as Hne by (intros [_ [=]]%app_nil).
  destruct (get_new_commit_log_index_spec (known_indices l s) old Hne)
    as (x & Hx & Hle & Hmaj & Hmax).
  rewrite length_known_indices in Hmaj, Hmax. fold members in Hmaj, Hmax.
  unfold on_maybe_commit, leader_state in Hm. rewrite bind_asks in Hm.
  unfold bind at 1 in Hm. unfold stream at 1, asks at 1 in Hm. cbv beta iota zeta in Hm.
  change (_ ++ [_]) with (known_indices l s) in Hm. fold old in Hm. rewrite Hx in Hm.
  case_decide as Hd; [|injection Hm as <- <- <-].
  - unfold bind, stream in Hm. pose proof (update_commit_outcome x s) as Hc.
    destruct (on_storage (update_commit_log_index x) s) as [[[]|e] s1];
      destruct Hc as (Hc & Hi & Hp); simpl in Hm, Hc; injection Hm as <- <- <-;
      subst new; simpl; rewrite Hc.
    + split_and!; [done|done|done|done|]. intros _. split; [done|].
      rewrite Hi, decide_False by done. done.
    + fold old. split_and!; [done|congruence|lia|done|done].
  - subst x. subst new. fold old.
    split_and!; [done|done|lia|done|]. intros _. split; [done|].
    by rewrite decide_True, app_nil_r.
Qed.
End Commit.

(** ** The log of a follower *)

Section Append.
Context {SC : Scale} {CS : ConsensusSupport}.
Variable self : Setup.

(** The entries are stored under their indices, in order. *)
Record log_ok (st : Storage) : Prop := {
  log_sorted : bt_wf (logs st);
  log_indexed : ∀ k e, (k, e) ∈ logs st → e_index e = k;
}.

(** The part of the storage that says where the log ends. *)
Definition log_of (st : Storage) : BTreeMap Entry * (Z * Z) :=
  (logs st, get_base_log_index_term st).

Lemma log_of_last st st' : log_of st = log_of st' →
  get_last_log_index_term st = get_last_log_index_term st'.
Proof.
  unfold log_of, get_last_log_index_term, get_base_log_index_term. by intros [= -> -> ->].
Qed.

(** A call that leaves the log and the term as they are. *)
Class Still {A} (m : R A) : Prop :=
  still : ∀ s, log_of (storage (m s).2) = log_of (storage s) ∧
               current_term (storage (m s).2) = current_term (storage s).

#[local] Instance still_ret {A} (a : A) : Still (ret a).
Proof. by intros s. Qed.
#[local] Instance still_try {A} (r : CommonResult A) : Still (try r).
Proof. by intros s. Qed.
#[local] Instance still_asks {A} (f : RaftStream → A) : Still (asks f).
Proof. by intros s. Qed.
#[local] Instance still_bind {A B} (m : R A) (k : A → R B) :
  Still m → (∀ a, Still (k a)) → Still (bind m k).
Proof.
  intros Hm Hk s. unfold bind. specialize (Hm s). destruct (m s) as [[a|e] s']; [|done].
  destruct (Hk a s') as [-> ->]. done.
Qed.
Lemma still_modify f :
  (∀ s, log_of (storage (f s)) = log_of (storage s) ∧
        current_term (storage (f s)) = current_term (storage s)) → Still (modify f).
Proof. intros Hf s. apply Hf. Qed.
#[local] Instance still_update_proposal x : Still (on_storage (update_proposal x)).
Proof.
  intros s. unfold on_storage, update_proposal, commit_consensus_data, bind, modify.
  by destruct (disk (storage s)) as [|[e|] d].
Qed.

Ltac solve_still :=
  repeat first
    [ progress intros
    | apply still_bind
    | match goal with
      | |- Still (match ?x with _ => _ end) => destruct x
      end
    | progress cbv zeta
    | apply _
    | apply still_modify; intros; repeat first [case_decide | case_match]; done ].

#[local] Instance still_on_proposal p : Still (on_proposal p).
Proof. unfold on_proposal. solve_still. Qed.
#[local] Instance still_request_proposal a r : Still (request_proposal a r).
Proof. unfold request_proposal, request_validator, request, send_out_message. solve_still. Qed.

(** Where [perform_append_entries] succeeds it has appended the entries, and
    holds the proposal that they refer to. *)
Lemma append_and_respond_ok req s res s' :
  append_and_respond req s = (Ok res, s') →
  logs (storage s') = bt_extend ((λ x, (e_index x, x)) <$> aq_entries req) (logs (storage s)) ∧
  proposal (storage s') = proposal (storage s) ∧
  current_term (storage s') = current_term (storage s) ∧
  res = append_entries_res (aq_request_id req) true (current_term (storage s))
          (get_last_log_index_term (storage s')).
Proof.
  unfold append_and_respond, on_storage, append_log_entries, commit_consensus_data, bind, modify,
    asks, ret. simpl. destruct (disk (storage s)) as [|[e|] d]; simpl; intros [= <- <-]; done.
Qed.

Lemma update_proposal_ok x (s : RaftStream) u s' :
  on_storage (update_proposal x) s = (Ok u, s') →
  proposal (storage s') = x ∧ pending_proposal s' = pending_proposal s.
Proof.
  unfold on_storage, update_proposal, commit_consensus_data, bind, modify.
  destruct (disk (storage s)) as [|[e|] d]; simpl; intros [= <- <-]; done.
Qed.

(** A verified proposal is kept, any other leaves the storage as it is. *)
Lemma on_proposal_ok p s u s' : on_proposal p s = (Ok u, s') →
  proposal (storage s') = proposal (storage s) ∨ proposal (storage s') = Some p.
Proof.
  unfold on_proposal. rewrite bind_asks.
  destruct (verify_proposal (support s) p) as [result rest] eqn:Hv.
  intros (action & s1 & Ha & Hr)%bind_inv_ok. unfold try, lift in Ha. injection Ha as Ha <-.
  destruct result as [[p' cbp]|e]; simpl in Ha.
  - injection Ha as <-. apply verify_proposal_ok in Hv as (? & ? & ? & -> & _).
    apply bind_inv_ok in Hr as ([] & s2 & [= <-] & [Hp _]%update_proposal_ok). by right.
  - left. destruct e as [| | | | | |e| | | |]; try discriminate. injection Ha as <-.
    by destruct e; injection Hr as _ <-.
Qed.

(** The proposal that the entries refer to is held. *)
Definition holds_proposal_of (entries : list Entry) (st : Storage) : Prop :=
  ∀ h, find_proposal entries = Some h → p_block_hash <$> proposal st = Some h.

Lemma perform_append_entries_ok addr req s res s' :
  perform_append_entries self addr req s = (Ok res, s') →
  current_term (storage s') = current_term (storage s) ∧
  as_term res = current_term (storage s) ∧
  (as_last_log_index res, as_last_log_term res) = get_last_log_index_term (storage s') ∧
  (if as_success res then
     logs (storage s') = bt_extend ((λ x, (e_index x, x)) <$> aq_entries req) (logs (storage s)) ∧
     holds_proposal_of (aq_entries req) (storage s')
   else logs (storage s') = logs (storage s)).
Proof.
  unfold perform_append_entries, holds_proposal_of.
  destruct (find_proposal (aq_entries req)) as [remote|].
  2: { intros (Hl & _ & Ht & ->)%append_and_respond_ok. simpl. split_and!; try done.
       by destruct (get_last_log_index_term _). }
  rewrite bind_asks. intros ([] & s1 & H1 & Hr)%bind_inv_ok.
  assert (log_of (storage s1) = log_of (storage s) ∧
          current_term (storage s1) = current_term (storage s)) as [Hl1 Ht1].
  { match type of H1 with ?m _ = _ => assert (Still m) as Hstill by (case_decide; apply _) end.
    specialize (Hstill s). by rewrite H1 in Hstill. }
  assert (proposal (storage s1) = None ∨ p_block_hash <$> proposal (storage s1) = Some remote)
    as Hp1.
  { case_decide; [injection H1 as <-; by right|].
    apply update_proposal_ok in H1 as [-> _]. by left. }
  clear H1. apply bind_inv_ok in Hr as ([] & s2 & [= <-] & Hr). rewrite bind_asks in Hr.
  set (s2 := if decide _ then _ else _) in Hr.
  assert (storage s2 = storage s1) as Hs2 by (unfold s2; by case_decide).
  assert (pending_proposal s2 = None ∨ p_block_hash <$> pending_proposal s2 = Some remote) as Hq2
    by (unfold s2; case_decide; [by right|by left]).
  apply bind_inv_ok in Hr as ([] & s3 & H3 & Hr).
  assert (log_of (storage s3) = log_of (storage s) ∧
          current_term (storage s3) = current_term (storage s)) as [Hl3 Ht3].
  { match type of H3 with ?m _ = _ => assert (Still m) as Hstill by solve_still end.
    specialize (Hstill s2). rewrite H3, Hs2 in Hstill. simpl in Hstill.
    split; [etrans; [apply Hstill|done]|etrans; [apply Hstill|done]]. }
  assert (proposal (storage s3) = None ∨ p_block_hash <$> proposal (storage s3) = Some remote)
    as Hp3.
  { destruct (pending_proposal s2) as [p|]; [|injection H3 as <-; by rewrite Hs2].
    apply bind_inv_ok in H3 as ([] & s4 & [= <-] & [H4|H4]%on_proposal_ok).
    - simpl in H4. by rewrite H4, Hs2.
    - right. rewrite H4. by destruct Hq2. }
  rewrite bind_asks in Hr. destruct (proposal (storage s3)) as [p|] eqn:Hp.
  - apply append_and_respond_ok in Hr as (Hl & Hpr & Ht & ->). simpl.
    rewrite Ht, Ht3, Hl, Hpr, Hp. split_and!; try done; [by destruct (get_last_log_index_term _)| |].
    + by injection Hl3 as ->.
    + intros h [= <-]. by destruct Hp3.
  - match type of Hr with ?m _ = _ => assert (Still m) as Hstill by solve_still end.
    specialize (Hstill s3). rewrite Hr in Hstill. simpl in Hstill.
    rewrite bind_asks in Hr. apply bind_inv_ok in Hr as (u & s4 & H4 & [= <- <-]).
    destruct Hstill as [Hl4 Ht4]. simpl. rewrite Ht4, Ht3. split_and!; try done.
    + by destruct (get_last_log_index_term _).
    + rewrite Hl3 in Hl4. by injection Hl4.
Qed.

(** The entries continue the log after the index [prev]. *)
Definition numbered (prev : Z) (entries : list Entry) : Prop :=
  ∀ i e, entries !! i = Some e → e_index e = (prev + 1 + Z.of_nat i)%Z.

Abbreviation keyed entries := ((λ x, (e_index x, x)) <$> entries).

Lemma bt_get_extend_numbered entries prev m k : numbered prev entries →
  bt_get k (bt_extend (keyed entries) m) =
  if decide (prev < k ≤ prev + Z.of_nat (length entries))%Z
  then entries !! Z.to_nat (k - prev - 1) else bt_get k m.
Proof.
  revert prev m. induction entries as [|e entries IH]; intros prev m Hn.
  { rewrite decide_False by (simpl; lia). done. }
  assert (e_index e = prev + 1)%Z as He by (rewrite (Hn 0 e); [lia|done]).
  change (bt_extend (keyed (e :: entries)) m)
    with (bt_extend (keyed entries) (bt_insert (e_index e) e m)).
  rewrite (IH (prev + 1)%Z).
  2: { intros i x Hi. rewrite (Hn (S i) x); [lia|done]. }
  rewrite bt_get_insert, He. cbn [length]. rewrite Nat2Z.inj_succ.
  destruct (decide (k = prev + 1)%Z) as [->|Hk].
  - rewrite decide_False, decide_True by lia.
    replace (Z.to_nat (prev + 1 - prev - 1)) with 0 by lia. done.
  - destruct (decide (prev + 1 < k ≤ prev + 1 + Z.of_nat (length entries))%Z).
    + rewrite decide_True by lia.
      replace (Z.to_nat (k - prev - 1)) with (S (Z.to_nat (k - (prev + 1) - 1))) by lia. done.
    + by rewrite decide_False by lia.
Qed.

(** The log up to [prev] followed by the entries. *)
Definition log_with (prev : Z) (entries : list Entry) (old new : BTreeMap Entry) : Prop :=
  ∀ k, bt_get k new =
    if decide (k ≤ prev)%Z then bt_get k old else entries !! Z.to_nat (k - prev - 1).

Lemma extend_log_with entries prev old kept :
  numbered prev entries → (∀ k, bt_get k kept = if decide (k ≤ prev)%Z then bt_get k old else None) →
  log_with prev entries old (bt_extend (keyed entries) kept).
Proof.
  intros Hn Hk k. rewrite (bt_get_extend_numbered _ prev) by done. rewrite Hk.
  destruct (decide (k ≤ prev)%Z); [by rewrite decide_False by lia|].
  case_decide; [done|]. symmetry. apply lookup_ge_None. lia.
Qed.

Lemma extend_log_ok entries prev kept : numbered prev entries →
  bt_wf kept → (∀ k e, (k, e) ∈ kept → e_index e = k) →
  ∀ k e, (k, e) ∈ bt_extend (keyed entries) kept → e_index e = k.
Proof.
  intros Hn Hwf Hi k e Hin.
  apply bt_get_elem in Hin; [|by apply bt_extend_wf].
  rewrite (bt_get_extend_numbered _ prev) in Hin by done. case_decide as Hk.
  - rewrite (Hn _ _ Hin). lia.
  - apply Hi. by apply bt_get_elem.
Qed.

(** No entry lies beyond the last one. *)
Lemma nothing_after_last st k e : log_ok st → (k, e) ∈ logs st →
  (k ≤ (get_last_log_index_term st).1)%Z.
Proof.
  intros [Hs Hi] Hin. unfold get_last_log_index_term.
  destruct (last (logs st)) as [[k' e']|] eqn:Hl.
  - simpl. rewrite (Hi k' e') by (by apply last_Some_elem_of). by eapply bt_last_max.
  - apply last_None in Hl. rewrite Hl in Hin. by apply not_elem_of_nil in Hin.
Qed.

(** The previous entry of a request is in the log, or is its base. *)
Definition prev_matches (index term : Z) (st : Storage) : Prop :=
  (index, term) = get_base_log_index_term st ∨
  ∃ e, bt_get index (logs st) = Some e ∧ e_term e = term.

Lemma last_matches st : log_ok st →
  prev_matches (get_last_log_index_term st).1 (get_last_log_index_term st).2 st.
Proof.
  intros [Hs Hi]. unfold prev_matches, get_last_log_index_term.
  destruct (last (logs st)) as [[k e]|] eqn:Hl; [|by left].
  right. exists e. apply last_Some_elem_of in Hl as Hin. simpl. rewrite (Hi k e) by done.
  split; [|done]. by apply bt_get_elem.
Qed.

(** What a follower does before it looks at the entries: it adopts the
    commit index, the term and the leader. *)
Lemma adopt_ok {A} addr (req : AppendEntriesReq) cur s (k : R A) r s' :
  cur = current_term (storage s) →
  (do! update_next_election_instant self 0 true in
   do! on_storage (update_commit_log_index (aq_commit_log_index req)) in
   do! (if decide (aq_term req ≠ cur) then
          do! on_storage (update_current_term (aq_term req)) in
          on_storage (update_current_voted_for None)
        else ret tt) in
   do! update_current_leader (Some addr) in
   do! update_state self Follower in k) s = (Ok r, s') →
  ∃ s1, log_of (storage s1) = log_of (storage s) ∧ current_term (storage s1) = aq_term req ∧
    k s1 = (Ok r, s').
Proof.
  intros -> Hr. apply bind_inv_ok in Hr as ([] & s1 & H1 & Hr).
  apply bind_inv_ok in Hr as ([] & s2 & [d2 H2]%write_ok & Hr).
  apply bind_inv_ok in Hr as ([] & s3 & H3 & Hr).
  apply bind_inv_ok in Hr as ([] & s4 & [= <-] & Hr).
  apply bind_inv_ok in Hr as ([] & s5 & H5 & Hr).
  pose proof (update_next_storage self 0 true s) as E1. rewrite H1 in E1. simpl in E1.
  pose proof (update_state_storage self Follower (with_current_leader (Some addr) s3)) as E5.
  rewrite H5 in E5. simpl in E5. exists s5. rewrite E5. split_and!; [..|done].
  all: case_decide; [apply bind_inv_ok in H3 as ([] & s6 & [d6 H6]%write_ok & [d3 H3]%write_ok);
    rewrite H3, H6, H2, E1; done|injection H3 as <-; rewrite H2, E1; done].
Qed.

Lemma delete_ok P (s : RaftStream) u s' :
  on_storage (delete_log_entries P) s = (Ok u, s') →
  logs (storage s') = bt_remove P (logs (storage s)) ∧
  current_term (storage s') = current_term (storage s).
Proof.
  unfold on_storage, delete_log_entries, commit_consensus_data, bind, modify, asks. simpl.
  destruct (disk (storage s)) as [|[e|] d]; simpl; intros [= <- <-]; done.
Qed.

Lemma prev_exists index term st : bt_wf (logs st) →
  existsb (λ x, bool_decide (e_term x = term))
    (get_log_entries (λ k, bool_decide (k = index)) st) = true →
  ∃ e, bt_get index (logs st) = Some e ∧ e_term e = term.
Proof.
  intros Hwf (e & Hin & He)%existsb_exists. apply bool_decide_eq_true in He. exists e.
  split; [|done]. unfold get_log_entries in Hin. apply list_elem_of_In in Hin.
  apply list_elem_of_fmap in Hin as ([k x] & -> & [Hk Hin]%list_elem_of_filter). simpl in *.
  apply bool_decide_spec in Hk. subst. by apply bt_get_elem.
Qed.

(** A log that keeps what another one has up to an index. *)
Definition kept_to (prev : Z) (st st2 : Storage) : Prop :=
  log_ok st2 ∧
  ∀ k, bt_get k (logs st2) = if decide (k ≤ prev)%Z then bt_get k (logs st) else None.

Lemma kept_whole st st2 : log_ok st → logs st2 = logs st →
  kept_to (get_last_log_index_term st).1 st st2.
Proof.
  intros Hok Hl. split; [split; rewrite Hl; apply Hok|]. intros k. rewrite Hl.
  case_decide as Hk; [done|]. destruct (bt_get k (logs st)) as [e|] eqn:Hg; [|done].
  apply bt_get_elem in Hg; [|apply Hok]. apply (nothing_after_last _ _ _ Hok) in Hg. lia.
Qed.

Lemma kept_deleted prev st st2 : log_ok st →
  logs st2 = bt_remove (λ k, bool_decide (prev + 1 ≤ k)%Z) (logs st) → kept_to prev st st2.
Proof.
  intros Hok Hl. split; [split; rewrite Hl|].
  - apply bt_filter_wf, Hok.
  - intros k e [_ Hin]%list_elem_of_filter. by apply Hok.
  - intros k. rewrite Hl, bt_get_remove. case_decide;
      [rewrite bool_decide_eq_false_2 by lia|rewrite bool_decide_eq_true_2 by lia]; done.
Qed.

(** Only the log and its base decide whether an entry is there. *)
Lemma same_log st st1 : log_of st1 = log_of st → log_ok st →
  log_ok st1 ∧ (∀ index term, prev_matches index term st1 → prev_matches index term st) ∧
  (∀ prev st2, kept_to prev st1 st2 → kept_to prev st st2) ∧ logs st1 = logs st.
Proof.
  intros Hl Hok. pose proof (f_equal fst Hl : logs st1 = logs st) as Hlogs.
  pose proof (f_equal snd Hl : get_base_log_index_term st1 = get_base_log_index_term st) as Hbase.
  unfold prev_matches, kept_to. rewrite Hlogs, Hbase.
  split_and!; [split; rewrite Hlogs; apply Hok|done..].
Qed.

(** What the follower holds once it has appended the entries. *)
Lemma appended addr req st s res s' :
  kept_to (aq_prev_log_index req) st (storage s) →
  numbered (aq_prev_log_index req) (aq_entries req) →
  perform_append_entries self addr req s = (Ok res, s') → as_success res = true →
  log_with (aq_prev_log_index req) (aq_entries req) (logs st) (logs (storage s')) ∧
  log_ok (storage s') ∧ current_term (storage s') = current_term (storage s) ∧
  (as_last_log_index res, as_last_log_term res) = get_last_log_index_term (storage s') ∧
  holds_proposal_of (aq_entries req) (storage s').
Proof.
  intros [[Hwf Hi] Hkept] Hn Hp Hsuccess.
  apply perform_append_entries_ok in Hp as (Ht & _ & Hlast & Hlog).
  rewrite Hsuccess in Hlog. destruct Hlog as [Hlog Hprop].
  split_and!; [|split|done..]; rewrite Hlog.
  - by apply extend_log_with.
  - by apply bt_extend_wf.
  - by apply (extend_log_ok _ (aq_prev_log_index req)).
Qed.

(** C28: when a follower acknowledges entries, the entry before them is in
    its log (or is the base of the log), its log is now its own up to that
    entry followed by exactly the entries of the request, it is in the
    request's term, it reports the end of its new log, and if the entries
    refer to a proposal it holds that proposal. *)
Theorem acknowledged_entries addr req s res s' :
  log_ok (storage s) → aq_entries req ≠ [] →
  numbered (aq_prev_log_index req) (aq_entries req) →
  (0 ≤ aq_prev_log_index req < 2 ^ 64 - 1)%Z →
  on_req_append_entries self addr req s = (Ok res, s') → as_success res = true →
  prev_matches (aq_prev_log_index req) (aq_prev_log_term req) (storage s) ∧
  log_with (aq_prev_log_index req) (aq_entries req) (logs (storage s)) (logs (storage s')) ∧
  log_ok (storage s') ∧ current_term (storage s') = aq_term req ∧
  (current_term (storage s) ≤ aq_term req)%Z ∧
  (as_last_log_index res, as_last_log_term res) = get_last_log_index_term (storage s') ∧
  holds_proposal_of (aq_entries req) (storage s').
Proof.
  intros Hok Hne Hn Hprev Hr Hsuccess. unfold on_req_append_entries in Hr.
  rewrite bind_asks in Hr. cbv zeta in Hr. case_decide as Hterm; [by injection Hr as <- <-|].
  apply adopt_ok in Hr as (s1 & Hl1 & Ht1 & Hr); [|done].
  destruct (same_log _ _ Hl1 Hok) as (Hok1 & Hprev1 & Hkept1 & _).
  destruct (aq_entries req) as [|first rest] eqn:Hentries; [done|].
  case_decide as Hfirst; [by injection Hr as <- <-|]. rewrite bind_asks in Hr.
  rewrite <-Hentries in *.
  assert (∃ s2, perform_append_entries self addr req s2 = (Ok res, s') ∧
    current_term (storage s2) = aq_term req ∧
    kept_to (aq_prev_log_index req) (storage s1) (storage s2) ∧
    prev_matches (aq_prev_log_index req) (aq_prev_log_term req) (storage s1))
    as (s2 & Hp & Ht2 & Hkept & Hm).
  { case_decide as Hcase.
    - exists s1. pose proof (last_matches (storage s1) Hok1) as Hm.
      pose proof (kept_whole _ _ Hok1 eq_refl) as Hk. by rewrite <-Hcase in Hm, Hk.
    - destruct (existsb _ _ || bool_decide _) eqn:Hexists; simpl in Hr; [|by injection Hr as <- <-].
      apply bind_inv_ok in Hr as ([] & s2 & [Hl2 Ht2]%delete_ok & Hr).
      exists s2. split_and!; [done|congruence|..].
      + apply kept_deleted; [done|]. rewrite u64_id in Hl2 by (unfold is_u64; lia). done.
      + apply orb_true_iff in Hexists as [He|He%bool_decide_eq_true].
        * right. by apply prev_exists; [apply Hok1|].
        * left. by rewrite He. }
  destruct (appended _ _ _ _ _ _ (Hkept1 _ _ Hkept) Hn Hp Hsuccess) as (?&?&?&?&?).
  split_and!; auto; [congruence|lia].
Qed.
End Append.

(** ** Concrete inputs *)

Module RaftCommitSamples.
(** The leader of three authorities whose log ends at 4: one replica has
    reached 3, the other 1. *)
Definition leader_storage : Storage :=
  Build_Storage 0 0 2 (Some (b "A")) 1
    [(1, Build_Entry 1 1 Blank); (2, Build_Entry 2 2 Blank); (3, Build_Entry 2 3 Blank);
     (4, Build_Entry 2 4 Blank)]%Z None empty_data [].
Definition leader_stream : RaftStream := with_storage leader_storage (node_stream node_three).
Definition leader : LeaderState :=
  Build_LeaderState {[ b "B" := replication_new 3 2; b "C" := replication_new 1 1 ]} [].
Abbreviation committed := (on_maybe_commit (leader, leader_stream)).

(** It commits up to 3, which it and B have. *)
Lemma leader_commits_majority_witness :
  commit_log_index (storage committed.2.2) = 3%Z ∧
  2 + 1 < 2 * reaching 3 (known_indices leader leader_stream).
Proof.
  assert (commit_log_index (storage committed.2.2) = 3%Z) as Hc by (vm_compute; reflexivity).
  split; [done|]. destruct committed as [r [l' s']] eqn:Hm. simpl in Hc.
  destruct (leader_commits_majority leader leader_stream r l' s' Hm) as (_ & _ & _ & Hmaj & _).
  rewrite Hc in Hmaj. assert (size (replications leader) = 2) as <- by (vm_compute; reflexivity).
  apply Hmaj. vm_compute. discriminate.
Defined.

(** A follower with a conflicting entry at 3 replaces it. *)
Definition append_req : AppendEntriesReq :=
  Build_AppendEntriesReq 9 3 2 2 1 [Build_Entry 3 3 Blank; Build_Entry 3 4 Blank].
Abbreviation appended := (on_req_append_entries sample_setup (b "B") append_req leader_stream).

Lemma acknowledged_entries_witness :
  bt_get 3 (logs (storage appended.2)) = Some (Build_Entry 3 3 Blank).
Proof.
  assert (appended.1 = Ok (Build_AppendEntriesRes 9 true 3 4 3)) as Hr
    by (vm_compute; reflexivity).
  apply outcome_eq in Hr.
  refine (proj1 (proj2 (acknowledged_entries sample_setup _ _ _ _ _ _ _ _ _ Hr eq_refl)) 3%Z).
  - split; [vm_compute; repeat constructor|]. intros k e Hin. cbn in Hin.
    repeat (apply elem_of_cons in Hin as [[= -> ->]|Hin]); [done..|by apply not_elem_of_nil in Hin].
  - discriminate.
  - intros [|[|i]] e; [intros [= <-]; done..|done].
  - split; vm_compute; congruence.
Defined.
End RaftCommitSamples.
