(* ===== verification/HotstuffProtocol.v ===== *)
(** * HotstuffProtocol

    [core/node/consensus/hotstuff/src/protocol.rs] and [proof.rs]: the messages
    of the protocol, the certificates and the proof of a block, with the codecs
    their derives give. *)
From S2P Require Import Prelude Codec EnumCodec Types SystemModule.

(** [struct RequestId(u64)] *)
Abbreviation RequestId := Z.

Inductive MessageType :=
| NewView
| Prepare
| PreCommit
| Commit
| Decide.

Inductive TimeoutMessageType :=
| NewTimeout
| TimeoutDecide.

Record Node := {
  n_parent_hash : Hash;
  n_block_hash : Hash;
}.

Record Proposal := {
  p_parent_hash : Hash;
  p_block_hash : Hash;
  p_number : BlockNumber;
  p_timestamp : Z;
  p_meta_txs : list Transaction;
  p_payload_txs : list Transaction;
  p_execution_number : BlockNumber;
}.

Record QC := {
  qc_message_type : MessageType;
  qc_view : Z;
  qc_node : Node;
  qc_leader_address : Address;
  qc_sig : list (PublicKey * Signature);
}.

Record TC := {
  tc_view : Z;
  tc_sig : list (PublicKey * Signature);
}.

#[export] Instance message_type_eq_dec : EqDecision MessageType.
Proof. solve_decision. Defined.
#[export] Instance node_eq_dec : EqDecision Node.
Proof. solve_decision. Defined.
#[export] Instance qc_eq_dec : EqDecision QC.
Proof. solve_decision. Defined.

Record RegisterValidatorReq := {
  rvq_request_id : RequestId;
  rvq_public_key : PublicKey;
  rvq_signature : Signature;
}.

Record RegisterValidatorRes := {
  rvs_request_id : RequestId;
  rvs_success : bool;
}.

Record RequestProposalReq := {
  pq_request_id : RequestId;
  pq_block_hash : Hash;
}.

Record RequestProposalRes := {
  ps_request_id : RequestId;
  ps_proposal : option Proposal;
}.

Record ConsensusMessage := {
  cm_request_id : RequestId;
  cm_message_type : MessageType;
  cm_view : Z;
  cm_node : option Node;
  cm_justify : option QC;
  cm_sig : option (PublicKey * Signature);
}.

Record TimeoutMessage := {
  tm_request_id : RequestId;
  tm_message_type : TimeoutMessageType;
  tm_view : Z;
  tm_justify : option TC;
  tm_sig : option (PublicKey * Signature);
}.

Inductive HotStuffMessage :=
| MRegisterValidatorReq (req : RegisterValidatorReq)
| MRegisterValidatorRes (res : RegisterValidatorRes)
| MRequestProposalReq (req : RequestProposalReq)
| MRequestProposalRes (res : RequestProposalRes)
| MConsensusMessage (message : ConsensusMessage)
| MTimeoutMessage (message : TimeoutMessage).

(** [struct Proof] of [proof.rs] *)
Record HotstuffProof := { hp_commit_qc : QC }.

Section Codecs.
Context {SC : Scale}.

Definition message_type_of (i : Z) : option MessageType :=
  match i with
  | 0 => Some NewView | 1 => Some Prepare | 2 => Some PreCommit | 3 => Some Commit
  | 4 => Some Decide | _ => None
  end%Z.
Definition message_type_index (t : MessageType) : Z :=
  match t with NewView => 0 | Prepare => 1 | PreCommit => 2 | Commit => 3 | Decide => 4 end.

Lemma message_type_of_index t : message_type_of (message_type_index t) = Some t.
Proof. by destruct t. Qed.
Lemma message_type_index_of i t : message_type_of i = Some t → message_type_index t = i.
Proof.
  unfold message_type_of. repeat (destruct i as [|i|i]; try done; try by intros [= <-]).
Qed.

Definition codec_message_type : Codec MessageType :=
  part_codec sc_u8 message_type_of message_type_index message_type_of_index
    message_type_index_of.

Definition timeout_type_of (i : Z) : option TimeoutMessageType :=
  match i with 0 => Some NewTimeout | 1 => Some TimeoutDecide | _ => None end%Z.
Definition timeout_type_index (t : TimeoutMessageType) : Z :=
  match t with NewTimeout => 0 | TimeoutDecide => 1 end.

Lemma timeout_type_of_index t : timeout_type_of (timeout_type_index t) = Some t.
Proof. by destruct t. Qed.
Lemma timeout_type_index_of i t : timeout_type_of i = Some t → timeout_type_index t = i.
Proof. unfold timeout_type_of. repeat (destruct i as [|i|i]; try done; try by intros [= <-]). Qed.

Definition codec_timeout_message_type : Codec TimeoutMessageType :=
  part_codec sc_u8 timeout_type_of timeout_type_index timeout_type_of_index
    timeout_type_index_of.

Definition codec_sig : Codec (PublicKey * Signature) := sc_pair sc_bytes sc_bytes.

Definition codec_node : Codec Node :=
  iso_codec (sc_pair sc_bytes sc_bytes)
    (λ '(x0, x1), Build_Node x0 x1)
    (λ r, (n_parent_hash r, n_block_hash r))
    (λ r, match r with Build_Node _ _ => eq_refl end) (λ '(x0, x1), eq_refl).

Definition codec_proposal : Codec Proposal :=
  iso_codec (sc_pair sc_bytes (sc_pair sc_bytes (sc_pair sc_u64 (sc_pair sc_u64 (sc_pair (sc_list codec_transaction) (sc_pair (sc_list codec_transaction) sc_u64))))))
    (λ '(x0, (x1, (x2, (x3, (x4, (x5, x6)))))), Build_Proposal x0 x1 x2 x3 x4 x5 x6)
    (λ r, (p_parent_hash r, (p_block_hash r, (p_number r, (p_timestamp r, (p_meta_txs r, (p_payload_txs r, p_execution_number r)))))))
    (λ r, match r with Build_Proposal _ _ _ _ _ _ _ => eq_refl end) (λ '(x0, (x1, (x2, (x3, (x4, (x5, x6)))))), eq_refl).

Definition codec_qc : Codec QC :=
  iso_codec (sc_pair codec_message_type (sc_pair sc_u64 (sc_pair codec_node (sc_pair sc_bytes (sc_list codec_sig)))))
    (λ '(x0, (x1, (x2, (x3, x4)))), Build_QC x0 x1 x2 x3 x4)
    (λ r, (qc_message_type r, (qc_view r, (qc_node r, (qc_leader_address r, qc_sig r)))))
    (λ r, match r with Build_QC _ _ _ _ _ => eq_refl end) (λ '(x0, (x1, (x2, (x3, x4)))), eq_refl).

Definition codec_tc : Codec TC :=
  iso_codec (sc_pair sc_u64 (sc_list codec_sig))
    (λ '(x0, x1), Build_TC x0 x1)
    (λ r, (tc_view r, tc_sig r))
    (λ r, match r with Build_TC _ _ => eq_refl end) (λ '(x0, x1), eq_refl).

Definition codec_register_validator_req : Codec RegisterValidatorReq :=
  iso_codec (sc_pair sc_u64 (sc_pair sc_bytes sc_bytes))
    (λ '(x0, (x1, x2)), Build_RegisterValidatorReq x0 x1 x2)
    (λ r, (rvq_request_id r, (rvq_public_key r, rvq_signature r)))
    (λ r, match r with Build_RegisterValidatorReq _ _ _ => eq_refl end) (λ '(x0, (x1, x2)), eq_refl).

Definition codec_register_validator_res : Codec RegisterValidatorRes :=
  iso_codec (sc_pair sc_u64 sc_bool)
    (λ '(x0, x1), Build_RegisterValidatorRes x0 x1)
    (λ r, (rvs_request_id r, rvs_success r))
    (λ r, match r with Build_RegisterValidatorRes _ _ => eq_refl end) (λ '(x0, x1), eq_refl).

Definition codec_request_proposal_req : Codec RequestProposalReq :=
  iso_codec (sc_pair sc_u64 sc_bytes)
    (λ '(x0, x1), Build_RequestProposalReq x0 x1)
    (λ r, (pq_request_id r, pq_block_hash r))
    (λ r, match r with Build_RequestProposalReq _ _ => eq_refl end) (λ '(x0, x1), eq_refl).

Definition codec_request_proposal_res : Codec RequestProposalRes :=
  iso_codec (sc_pair sc_u64 (sc_option codec_proposal))
    (λ '(x0, x1), Build_RequestProposalRes x0 x1)
    (λ r, (ps_request_id r, ps_proposal r))
    (λ r, match r with Build_RequestProposalRes _ _ => eq_refl end) (λ '(x0, x1), eq_refl).

Definition codec_consensus_message : Codec ConsensusMessage :=
  iso_codec (sc_pair sc_u64 (sc_pair codec_message_type (sc_pair sc_u64 (sc_pair (sc_option codec_node) (sc_pair (sc_option codec_qc) (sc_option codec_sig))))))
    (λ '(x0, (x1, (x2, (x3, (x4, x5))))), Build_ConsensusMessage x0 x1 x2 x3 x4 x5)
    (λ r, (cm_request_id r, (cm_message_type r, (cm_view r, (cm_node r, (cm_justify r, cm_sig r))))))
    (λ r, match r with Build_ConsensusMessage _ _ _ _ _ _ => eq_refl end) (λ '(x0, (x1, (x2, (x3, (x4, x5))))), eq_refl).

Definition codec_timeout_message : Codec TimeoutMessage :=
  iso_codec (sc_pair sc_u64 (sc_pair codec_timeout_message_type (sc_pair sc_u64 (sc_pair (sc_option codec_tc) (sc_option codec_sig)))))
    (λ '(x0, (x1, (x2, (x3, x4)))), Build_TimeoutMessage x0 x1 x2 x3 x4)
    (λ r, (tm_request_id r, (tm_message_type r, (tm_view r, (tm_justify r, tm_sig r)))))
    (λ r, match r with Build_TimeoutMessage _ _ _ _ _ => eq_refl end) (λ '(x0, (x1, (x2, (x3, x4)))), eq_refl).

Definition codec_proof : Codec HotstuffProof :=
  iso_codec codec_qc Build_HotstuffProof hp_commit_qc
    (λ p, match p with Build_HotstuffProof _ => eq_refl end) (λ x, eq_refl).

Definition variant_register_validator_req : Variant HotStuffMessage :=
  Build_Variant _ "RegisterValidatorReq" _ codec_register_validator_req MRegisterValidatorReq
    (λ m, match m with MRegisterValidatorReq x => Some x | _ => None end) ltac:(solve_variant).

Definition variant_register_validator_res : Variant HotStuffMessage :=
  Build_Variant _ "RegisterValidatorRes" _ codec_register_validator_res MRegisterValidatorRes
    (λ m, match m with MRegisterValidatorRes x => Some x | _ => None end) ltac:(solve_variant).

Definition variant_request_proposal_req : Variant HotStuffMessage :=
  Build_Variant _ "RequestProposalReq" _ codec_request_proposal_req MRequestProposalReq
    (λ m, match m with MRequestProposalReq x => Some x | _ => None end) ltac:(solve_variant).

Definition variant_request_proposal_res : Variant HotStuffMessage :=
  Build_Variant _ "RequestProposalRes" _ codec_request_proposal_res MRequestProposalRes
    (λ m, match m with MRequestProposalRes x => Some x | _ => None end) ltac:(solve_variant).

Definition variant_consensus_message : Variant HotStuffMessage :=
  Build_Variant _ "ConsensusMessage" _ codec_consensus_message MConsensusMessage
    (λ m, match m with MConsensusMessage x => Some x | _ => None end) ltac:(solve_variant).

Definition variant_timeout_message : Variant HotStuffMessage :=
  Build_Variant _ "TimeoutMessage" _ codec_timeout_message MTimeoutMessage
    (λ m, match m with MTimeoutMessage x => Some x | _ => None end) ltac:(solve_variant).

Definition hotstuff_variants : list (Variant HotStuffMessage) :=
  [variant_register_validator_req;
   variant_register_validator_res;
   variant_request_proposal_req;
   variant_request_proposal_res;
   variant_consensus_message;
   variant_timeout_message].

#[export] Instance hotstuff_enum : EnumVariants hotstuff_variants.
Proof. solve_enum. Qed.

(** [enum HotStuffMessage] with its attribute [enum_codec] *)
Definition codec_hotstuff_message : Codec HotStuffMessage := enum_codec hotstuff_variants.

(** [impl TryFrom<Proof> for primitives::Proof] *)
Definition proof_try_into (value : HotstuffProof) : Proof :=
  {| pf_name := SystemModule.CONSENSUS_HOTSTUFF; pf_data := encode codec_proof value |}.
End Codecs.
