(* ===== verification/HotstuffAuthorities.v ===== *)
(** * HotstuffAuthorities

    The authorities of the hotstuff engine and the weight that certificates
    must reach: [get_hotstuff_authorities] and [aggregate_authorities] of
    [core/node/consensus/hotstuff/src/lib.rs], and the weights that
    [verify_qc], [verify_tc] and the collectors of [stream.rs] and
    [stream/state.rs] compute, each time in the same way. *)
From S2P Require Import Prelude Codec Types SystemModule HotstuffModule ConsensusSupport Engine.

(** [Vec<(Address, u32)>], the members of the authorities. *)
Abbreviation Members := (list (Address * Z)).

(** One turn of the loop of [aggregate_authorities]: the weight of a member
    that is there already is added to it, in [u32]. *)
Fixpoint add_weight (new_members : Members) (address : Address) (weight : Z) : Members :=
  match new_members with
  | [] => [(address, weight)]
  | (a, w) :: rest =>
      if decide (a = address) then (a, u32 (w + weight)) :: rest
      else (a, w) :: add_weight rest address weight
  end.

Definition aggregate_members (members : Members) : Members :=
  foldl (λ new_members x, if decide (x.2 > 0)%Z then add_weight new_members x.1 x.2
                          else new_members) [] members.

Definition aggregate_authorities (a : HotstuffModule.Authorities) : HotstuffModule.Authorities :=
  HotstuffModule.Build_Authorities (aggregate_members (HotstuffModule.authority_members a)).

(** [let n = members.iter().fold(0u32, ..)], [let f = (n - 1) / 3], [n - f],
    in [u32]. *)
Definition total_members (a : HotstuffModule.Authorities) : Z :=
  fold_u32 snd (HotstuffModule.authority_members a).
Definition quorum (a : HotstuffModule.Authorities) : Z :=
  let n := total_members a in
  let f := (u32 (n - 1) / 3)%Z in
  u32 (n - f).

(** [members.iter().map(|x| (&x.0, x.1)).collect::<HashMap<_, _>>()] *)
Definition member_weight (a : HotstuffModule.Authorities) : gmap Address Z :=
  collect (HotstuffModule.authority_members a).

Section Support.
Context {SC : Scale} {CS : ConsensusSupport}.

(** [None] is the panic of [expect]. *)
Definition get_hotstuff_authorities (w : World) (number : BlockNumber) :
    option (CommonResult HotstuffModule.Authorities) :=
  match execute_call_with_block_number sc_unit HotstuffModule.codec_authorities w number None
          "hotstuff" "get_authorities" tt with
  | Ok (Ok authorities) => Some (Ok (aggregate_authorities authorities))
  | Ok (Err _) => None
  | Err e => Some (Err e)
  end.
End Support.
