(* ===== verification/HotstuffStorage.v ===== *)
(** * HotstuffStorage

    [core/node/consensus/hotstuff/src/storage.rs]: the persistent storage of a
    node.  The consensus data on disk is a record of optional values; every
    write is one transaction, which the disk may refuse. *)
From S2P Require Import Prelude Codec Types SystemModule HotstuffModule ConsensusSupport Engine HotstuffProtocol HotstuffAuthorities.

(** The consensus data on disk, by its keys; [DB_KEY_PROPOSAL] are the keys
    with the prefix [DB_KEY_PROPOSAL_PREFIX]. *)
Record HotstuffData := {
  DB_KEY_VIEW : option Z;
  DB_KEY_PREPARE_QC : option QC;
  DB_KEY_LOCKED_QC : option QC;
  DB_KEY_NODES : option (list (Hash * Node));
  DB_KEY_PROPOSALS : option (list (Hash * Node));
  DB_KEY_PROPOSAL : gmap Hash Proposal;
}.

Definition empty_data : HotstuffData := Build_HotstuffData None None None None None ∅.

Definition put_view (x : Z) (d : HotstuffData) : HotstuffData :=
  Build_HotstuffData (Some x) (DB_KEY_PREPARE_QC d) (DB_KEY_LOCKED_QC d) (DB_KEY_NODES d)
    (DB_KEY_PROPOSALS d) (DB_KEY_PROPOSAL d).
Definition put_prepare_qc (x : QC) (d : HotstuffData) : HotstuffData :=
  Build_HotstuffData (DB_KEY_VIEW d) (Some x) (DB_KEY_LOCKED_QC d) (DB_KEY_NODES d)
    (DB_KEY_PROPOSALS d) (DB_KEY_PROPOSAL d).
Definition put_locked_qc (x : QC) (d : HotstuffData) : HotstuffData :=
  Build_HotstuffData (DB_KEY_VIEW d) (DB_KEY_PREPARE_QC d) (Some x) (DB_KEY_NODES d)
    (DB_KEY_PROPOSALS d) (DB_KEY_PROPOSAL d).
Definition put_nodes (x : list (Hash * Node)) (d : HotstuffData) : HotstuffData :=
  Build_HotstuffData (DB_KEY_VIEW d) (DB_KEY_PREPARE_QC d) (DB_KEY_LOCKED_QC d) (Some x)
    (DB_KEY_PROPOSALS d) (DB_KEY_PROPOSAL d).
Definition put_proposals (x : list (Hash * Node)) (d : HotstuffData) : HotstuffData :=
  Build_HotstuffData (DB_KEY_VIEW d) (DB_KEY_PREPARE_QC d) (DB_KEY_LOCKED_QC d)
    (DB_KEY_NODES d) (Some x) (DB_KEY_PROPOSAL d).
Definition alter_proposal (f : gmap Hash Proposal → gmap Hash Proposal) (d : HotstuffData) :
    HotstuffData :=
  Build_HotstuffData (DB_KEY_VIEW d) (DB_KEY_PREPARE_QC d) (DB_KEY_LOCKED_QC d)
    (DB_KEY_NODES d) (DB_KEY_PROPOSALS d) (f (DB_KEY_PROPOSAL d)).

(** [struct Storage], with the data on disk and the outcomes of the next
    transactions: [None] is a success, and so is every transaction after the
    end of the list. *)
Record Storage := {
  base_commit_qc : QC;
  base_block_hash : Hash;
  view : Z;
  prepare_qc : QC;
  locked_qc : QC;
  nodes : gmap Hash Node;
  proposals : gmap Hash Node;
  db : HotstuffData;
  disk : list (option CommonError);
}.

Definition set_view (x : Z) (s : Storage) : Storage :=
  Build_Storage (base_commit_qc s) (base_block_hash s) x (prepare_qc s) (locked_qc s)
    (nodes s) (proposals s) (db s) (disk s).
Definition set_prepare_qc (x : QC) (s : Storage) : Storage :=
  Build_Storage (base_commit_qc s) (base_block_hash s) (view s) x (locked_qc s)
    (nodes s) (proposals s) (db s) (disk s).
Definition set_locked_qc (x : QC) (s : Storage) : Storage :=
  Build_Storage (base_commit_qc s) (base_block_hash s) (view s) (prepare_qc s) x
    (nodes s) (proposals s) (db s) (disk s).
Definition set_proposals (x : gmap Hash Node) (s : Storage) : Storage :=
  Build_Storage (base_commit_qc s) (base_block_hash s) (view s) (prepare_qc s) (locked_qc s)
    (nodes s) x (db s) (disk s).
Definition set_db (x : HotstuffData) (d : list (option CommonError)) (s : Storage) : Storage :=
  Build_Storage (base_commit_qc s) (base_block_hash s) (view s) (prepare_qc s) (locked_qc s)
    (nodes s) (proposals s) x d.

(** Calls of the storage, which panic where [get_hotstuff_authorities] does. *)
Definition St (A : Type) : Type := M Storage Failure A.

(** [fn commit_consensus_data] *)
Definition commit_consensus_data (op : HotstuffData → HotstuffData) : St unit := λ s,
  match disk s with
  | Some e :: rest => (Err (Fail e), set_db (db s) rest s)
  | None :: rest => (Ok tt, set_db (op (db s)) rest s)
  | [] => (Ok tt, set_db (op (db s)) [] s)
  end.

Definition update_view (x : Z) : St unit :=
  do! commit_consensus_data (put_view x) in modify (set_view x).

Definition update_prepare_qc (x : QC) : St unit :=
  do! commit_consensus_data (put_prepare_qc x) in modify (set_prepare_qc x).

Definition update_locked_qc (x : QC) : St unit :=
  do! commit_consensus_data (put_locked_qc x) in modify (set_locked_qc x).

(** The proposals are read from the disk every time. *)
Definition get_proposal (block_hash : Hash) (s : Storage) : option Proposal :=
  DB_KEY_PROPOSAL (db s) !! block_hash.

Section Support.
Context {SC : Scale} {CS : ConsensusSupport} {HO : HashOrder}.

Definition put_proposal (proposal : Proposal) : St unit :=
  (* save proposals *)
  let node := Build_Node (p_parent_hash proposal) (p_block_hash proposal) in
  do! modify (λ s, set_proposals (<[n_block_hash node := node]> (proposals s)) s) in
  let! proposals_vec := asks (λ s, hash_iter (proposals s)) in
  do! commit_consensus_data (put_proposals proposals_vec) in
  (* save proposal *)
  commit_consensus_data (alter_proposal <[p_block_hash proposal := proposal]>).

(** [None] is a panic: of [get_hotstuff_authorities] or of [members[0]]. *)
Definition get_genesis_qc (w : World) : option (CommonResult QC) :=
  let genesis_hash := genesis_hash (get_current_state w) in
  match get_hotstuff_authorities w 0 with
  | None => None
  | Some (Err e) => Some (Err e)
  | Some (Ok genesis_authorities) =>
      match HotstuffModule.authority_members genesis_authorities with
      | [] => None
      | (genesis_leader_address, _) :: _ =>
          Some (Ok {| qc_message_type := Decide; qc_view := 0%Z;
                      qc_node := {| n_parent_hash := []; n_block_hash := genesis_hash |};
                      qc_leader_address := genesis_leader_address; qc_sig := [] |})
      end
  end.

(** [fn get_proof] *)
Definition storage_get_proof (w : World) : CommonResult (option HotstuffProof) :=
  let current_state := get_current_state w in
  if decide (confirmed_number current_state = 0%Z) then Ok None
  else
    let hash := confirmed_block_hash current_state in
    let? proof := get_proof w hash in
    let? proof := ok_or (consensus_error (ConsensusData
                    ("Missing proof: block_hash: " +:+ debug_hash hash))) proof in
    let? proof := ok_or (consensus_error (ConsensusData "Decode proof error"))
                    (decode codec_proof (pf_data proof)) in
    Ok (Some proof).

(** [Storage::refresh], by its parts: each reads a value of the disk, fixes
    it if needed, and returns it. *)
Definition refresh_view (base_commit_qc : QC) : St Z :=
  let! data := asks db in
  let view := default 0%Z (DB_KEY_VIEW data) in
  if decide (view < u64 (qc_view base_commit_qc + 1))%Z then
    let view := u64 (qc_view base_commit_qc + 1) in
    do! commit_consensus_data (put_view view) in
    ret view
  else ret view.

Definition refresh_prepare_qc (genesis_qc base_commit_qc : QC) : St QC :=
  let! data := asks db in
  let prepare_qc := default genesis_qc (DB_KEY_PREPARE_QC data) in
  if decide (qc_view prepare_qc ≤ qc_view base_commit_qc)%Z then
    do! commit_consensus_data (put_prepare_qc base_commit_qc) in
    ret base_commit_qc
  else ret prepare_qc.

Definition refresh_locked_qc (genesis_qc base_commit_qc : QC) : St QC :=
  let! data := asks db in
  let locked_qc := default genesis_qc (DB_KEY_LOCKED_QC data) in
  if decide (qc_view locked_qc ≤ qc_view base_commit_qc)%Z then
    do! commit_consensus_data (put_locked_qc base_commit_qc) in
    ret base_commit_qc
  else ret locked_qc.

(** The nodes of the base block are kept, the others removed. *)
Definition to_keep (base_block_hash : Hash) (kv : Hash * Node) : Prop :=
  n_parent_hash kv.2 = base_block_hash.
#[export] Instance to_keep_dec base kv : Decision (to_keep base kv).
Proof. unfold to_keep. apply _. Defined.

Definition to_remove_key (base_block_hash : Hash) (m : gmap Hash Node) : list Hash :=
  (filter (λ kv, ¬ to_keep base_block_hash kv) (hash_iter m)).*1.

Definition refresh_nodes (base_block_hash : Hash) : St (gmap Hash Node) :=
  let! data := asks db in
  let nodes := collect (default [] (DB_KEY_NODES data)) in
  let keys := to_remove_key base_block_hash nodes in
  let nodes := filter (to_keep base_block_hash) nodes in
  if decide (keys ≠ []) then
    do! commit_consensus_data (put_nodes (hash_iter nodes)) in
    ret nodes
  else ret nodes.

(** The code stores the nodes once more where it removed proposals. *)
Definition refresh_proposals (base_block_hash : Hash) (nodes : gmap Hash Node) :
    St (gmap Hash Node) :=
  let! data := asks db in
  let proposals := collect (default [] (DB_KEY_PROPOSALS data)) in
  let keys := to_remove_key base_block_hash proposals in
  do! for_each (λ k, commit_consensus_data (alter_proposal (delete k))) keys in
  let proposals := filter (to_keep base_block_hash) proposals in
  if decide (keys ≠ []) then
    do! commit_consensus_data (put_nodes (hash_iter nodes)) in
    ret proposals
  else ret proposals.

Definition refresh (w : World) : St unit :=
  let! proof := try (storage_get_proof w) in
  let! genesis_qc := try_panic (get_genesis_qc w) in
  let base_commit_qc :=
    match proof with Some proof => hp_commit_qc proof | None => genesis_qc end in
  let base_block_hash := confirmed_block_hash (get_current_state w) in
  let! view := refresh_view base_commit_qc in
  let! prepare_qc := refresh_prepare_qc genesis_qc base_commit_qc in
  let! locked_qc := refresh_locked_qc genesis_qc base_commit_qc in
  let! nodes := refresh_nodes base_block_hash in
  let! proposals := refresh_proposals base_block_hash nodes in
  modify (λ s, Build_Storage base_commit_qc base_block_hash view prepare_qc locked_qc nodes
                 proposals (db s) (disk s)).

(** [Storage::new] over the data on disk *)
Definition storage_new (data : HotstuffData) (d : list (option CommonError)) (w : World) :
    result Failure unit * option Storage :=
  match get_genesis_qc w with
  | None => (Err Panic, None)
  | Some (Err e) => (Err (Fail e), None)
  | Some (Ok genesis_qc) =>
      let '(r, s) := refresh w (Build_Storage genesis_qc [] 0 genesis_qc genesis_qc ∅ ∅ data d) in
      (r, Some s)
  end.
End Support.
