(* ===== verification/HotstuffVerifier.v ===== *)
(** * HotstuffVerifier

    [Verifier::verify_proposal] of [core/node/consensus/hotstuff/src/verifier.rs],
    [verify_qc] and [verify_tc] of [stream.rs], and [verify_proof] of [lib.rs]. *)
From S2P Require Import Prelude Codec Types SystemModule HotstuffModule ConsensusSupport Engine BlockVerifier HotstuffProtocol HotstuffAuthorities.

Section Verifier.
Context {SC : Scale} {CS : ConsensusSupport}.

Definition hotstuff_verify_error (e : VerifyError) : CommonError := EHotStuff (HsVerifyError e).
Definition qc_error (msg : string) : CommonError := EHotStuff (HsQCError msg).

(** [Verifier::verify_best]: the block extends the last confirmed one. *)
Definition verify_parent (w : World) (number : BlockNumber) (parent_hash : Hash) :
    CommonResult (BlockNumber * Hash * Header) :=
  let? confirmed := verify_best hotstuff_verify_error w number in
  if decide (parent_hash ≠ confirmed.1.2) then Err (hotstuff_verify_error NotBest)
  else Ok confirmed.

(** Returns also what is left of the proposal, which is taken after the
    checks of its number. *)
Definition verify_proposal (w : World) (proposal : Proposal) :
    CommonResult (Proposal * ChainCommitBlockParams) * option Proposal :=
  let block_hash := p_block_hash proposal in
  let parent_hash := p_parent_hash proposal in
  let number := p_number proposal in
  let execution_number := p_execution_number proposal in
  match
    (let? _ := verify_not_repeat hotstuff_verify_error w block_hash in
     let? (_confirmed_number, _confirmed_hash, confirmed_header) :=
       verify_parent w number parent_hash in
     verify_execution hotstuff_verify_error w number execution_number confirmed_header)
  with
  | Err e => (Err e, Some proposal)
  | Ok _ =>
      ((let? (meta_txs, payload_txs) :=
          verify_body hotstuff_verify_error w (p_meta_txs proposal) (p_payload_txs proposal) in
        let? commit_block_params :=
          verify_header hotstuff_verify_error w (p_block_hash proposal) (p_number proposal)
            (p_timestamp proposal) (p_execution_number proposal) meta_txs payload_txs in
        Ok (proposal, commit_block_params)), None)
  end.

(** [fn verify] *)
Definition verify_signature (message : bytes) (public_key : PublicKey) (signature : Signature) :
    CommonResult unit :=
  let? verified := support_verify public_key message signature in
  if verified : bool then Ok tt else Err (ECrypto "Verification failed").

(** What is signed: [codec::encode(&(message_type, view, node, leader_address))]. *)
Definition vote_message (message_type : MessageType) (view : Z) (node : option Node)
    (leader_address : Address) : bytes :=
  encode (sc_pair codec_message_type (sc_pair sc_u64 (sc_pair (sc_option codec_node) sc_bytes)))
    (message_type, (view, (node, leader_address))).
Definition timeout_message_bytes (message_type : TimeoutMessageType) (view : Z) : bytes :=
  encode (sc_pair codec_timeout_message_type sc_u64) (message_type, view).

(** The loop of [verify_qc] and [verify_tc] over the signatures. *)
Fixpoint signed_weight (member_weight : gmap Address Z) (sig_message : bytes)
    (sigs : list (PublicKey * Signature)) (total_weight : Z) : CommonResult Z :=
  match sigs with
  | [] => Ok total_weight
  | (public_key, signature) :: sigs =>
      let address := support_address public_key in
      let total_weight :=
        match member_weight !! address with
        | Some weight => u32 (total_weight + weight)
        | None => total_weight
        end in
      let? _ := map_err (λ e, qc_error (display_error e))
                  (verify_signature sig_message public_key signature) in
      signed_weight member_weight sig_message sigs total_weight
  end.

(** The end of [verify_qc] and [verify_tc]. *)
Definition verify_weight (authorities : HotstuffModule.Authorities) (sig_message : bytes)
    (sigs : list (PublicKey * Signature)) : CommonResult unit :=
  let? total_weight := signed_weight (member_weight authorities) sig_message sigs 0 in
  if decide (total_weight < quorum authorities)%Z then Err (qc_error "No enough weight")
  else Ok tt.

Definition verify_qc (qc : QC) (expected_message_type : option MessageType)
    (authorities : HotstuffModule.Authorities) : CommonResult unit :=
  (* genesis qc *)
  if decide (qc_view qc = 0%Z) then Ok tt
  else
    let? _ :=
      match expected_message_type with
      | Some expected =>
          if decide (qc_message_type qc ≠ expected)
          then Err (qc_error "Unexpected message type") else Ok tt
      | None => Ok tt
      end in
    verify_weight authorities
      (vote_message (qc_message_type qc) (qc_view qc) (Some (qc_node qc)) (qc_leader_address qc))
      (qc_sig qc).

Definition verify_tc (tc : TC) (authorities : HotstuffModule.Authorities) : CommonResult unit :=
  verify_weight authorities (timeout_message_bytes NewTimeout (tc_view tc)) (tc_sig tc).

(** [HotStuff::verify_proof]: [None] is the panic of [expect]. *)
Definition verify_proof (w : World) (header : Header) (proof : Proof) :
    option (CommonResult unit) :=
  let name := pf_name proof in
  if decide (name ≠ SystemModule.CONSENSUS_HOTSTUFF) then
    Some (Err (consensus_error (ConsensusVerifyProofError ("Unexpected consensus: " +:+ name))))
  else
    match decode codec_proof (pf_data proof) with
    | None => Some (Err (consensus_error (ConsensusVerifyProofError "Decode error")))
    | Some proof =>
        let commit_qc := hp_commit_qc proof in
        match get_hotstuff_authorities w (u64 (hdr_number header - 1)) with
        | None => None
        | Some (Err e) => Some (Err e)
        | Some (Ok authorities) =>
            Some (map_err (λ e, consensus_error (ConsensusVerifyProofError
                             ("Verify commit qc error: " +:+ display_error e)))
                    (verify_qc commit_qc None authorities))
        end
    end.
End Verifier.
