(* ===== verification/HotstuffStream.v ===== *)
(** * HotstuffStream

    [core/node/consensus/hotstuff/src/stream.rs]: the task of a node.  Its
    handlers read and write the task's state, send messages, and stop at the
    first error, which the task's loop logs and ignores; a panic ends the task. *)
From S2P Require Import Prelude Codec EnumCodec Types SystemModule HotstuffModule ConsensusSupport Engine HotstuffProtocol HotstuffAuthorities HotstuffStorage HotstuffVerifier.

(** [enum State] of [stream/state.rs] *)
Inductive State :=
| Leader
| Replica
| Observer.

#[local] Existing Instance HotstuffModule.authorities_eq_dec.

#[export] Instance state_eq_dec : EqDecision State.
Proof. solve_decision. Defined.

Inductive InternalMessage :=
| ValidatorRegistered (address : Address) (peer_id : PeerId)
| IConsensusMessage (message : ConsensusMessage) (peer_id : PeerId)
| IProposal (address : Address) (proposal : Proposal).

(** [config.rs] *)
Definition DEFAULT_INIT_EXTRA_TIMEOUT : Z := 10000.

(** The fields of [struct HotStuffStream] that never change. *)
Record Setup := {
  hotstuff_meta : HotstuffModule.Meta;
  init_extra_timeout : option Z;
  secret_key : SecretKey;
  public_key : PublicKey;
  address : Address;
}.

(** ** [struct TimeoutMessageCollector] *)
Abbreviation TimeoutMessageCollector := (gmap Z (gmap Address TimeoutMessage)).

(** [TimeoutMessageCollector::add]: the first message of an address stays. *)
Definition tmc_add (address : Address) (timeout_message : TimeoutMessage)
    (messages : TimeoutMessageCollector) : TimeoutMessageCollector :=
  let of_view := default ∅ (messages !! tm_view timeout_message) in
  <[tm_view timeout_message :=
      match of_view !! address with
      | Some _ => of_view
      | None => <[address := timeout_message]> of_view
      end]> messages.

(** [TimeoutMessageCollector::cleanup] *)
Definition tmc_cleanup (view : Z) (messages : TimeoutMessageCollector) : TimeoutMessageCollector :=
  filter (λ kv, (kv.1 > view)%Z) messages.

(** The loop of [get_tc] over the messages of a view; [None] is the panic of
    [expect]. *)
Fixpoint collect_tc (member_weight : gmap Address Z) (quorum : Z)
    (messages : list (Address * TimeoutMessage)) (total_weight : Z)
    (tc_sig : list (PublicKey * Signature)) : option (option TC) :=
  match messages with
  | [] => Some None
  | (address, message) :: messages =>
      '(total_weight, tc_sig) ←
        match member_weight !! address with
        | Some weight => s ← tm_sig message; Some (u32 (total_weight + weight), tc_sig ++ [s])
        | None => Some (total_weight, tc_sig)
        end;
      if decide (quorum ≤ total_weight)%Z then Some (Some (Build_TC (tm_view message) tc_sig))
      else collect_tc member_weight quorum messages total_weight tc_sig
  end.

(** [TimeoutMessageCollector::get_tc] *)
Definition get_tc `{HashOrder} (authorities : HotstuffModule.Authorities) (view : Z)
    (messages : TimeoutMessageCollector) : option (option TC) :=
  match messages !! view with
  | Some messages =>
      collect_tc (member_weight authorities) (quorum authorities) (hash_iter messages) 0 []
  | None => Some None
  end.

Section Stream.
Context {SC : Scale} {CS : ConsensusSupport} {HO : HashOrder}.

(** [struct HotStuffStream], with the messages sent and not yet received, the
    clock, and the numbers that [thread_rng] will draw. *)
Record HotStuffStream := {
  support : World;
  storage : Storage;
  peers : gmap PeerId PeerInfo;
  known_validators : gmap Address PeerId;
  next_request_id : RequestId;
  next_timeout_instant : option Instant;
  current_leader : option Address;
  state : State;
  authorities : HotstuffModule.Authorities;
  last_authorities : HotstuffModule.Authorities;
  internal : list InternalMessage;
  commit_block_params : option ChainCommitBlockParams;
  pending_consensus_messages : gmap PeerId (list ConsensusMessage);
  pending_new_view_messages : list (ConsensusMessage * Address);
  timeout_message_collector : TimeoutMessageCollector;
  timeout_tc : option TC;
  shutdown : bool;
  out : list (PeerId * bytes);
  now : Instant;
  draws : list Z;
}.

Definition with_support (x : World) (s : HotStuffStream) : HotStuffStream :=
  Build_HotStuffStream x (storage s) (peers s) (known_validators s) (next_request_id s)
    (next_timeout_instant s) (current_leader s) (state s) (authorities s) (last_authorities
    s) (internal s) (commit_block_params s) (pending_consensus_messages s)
    (pending_new_view_messages s) (timeout_message_collector s) (timeout_tc s) (shutdown s)
    (out s) (now s) (draws s).
Definition with_storage (x : Storage) (s : HotStuffStream) : HotStuffStream :=
  Build_HotStuffStream (support s) x (peers s) (known_validators s) (next_request_id s)
    (next_timeout_instant s) (current_leader s) (state s) (authorities s) (last_authorities
    s) (internal s) (commit_block_params s) (pending_consensus_messages s)
    (pending_new_view_messages s) (timeout_message_collector s) (timeout_tc s) (shutdown s)
    (out s) (now s) (draws s).
Definition with_peers (x : gmap PeerId PeerInfo) (s : HotStuffStream) : HotStuffStream :=
  Build_HotStuffStream (support s) (storage s) x (known_validators s) (next_request_id s)
    (next_timeout_instant s) (current_leader s) (state s) (authorities s) (last_authorities
    s) (internal s) (commit_block_params s) (pending_consensus_messages s)
    (pending_new_view_messages s) (timeout_message_collector s) (timeout_tc s) (shutdown s)
    (out s) (now s) (draws s).
Definition with_known_validators (x : gmap Address PeerId)
    (s : HotStuffStream) : HotStuffStream :=
  Build_HotStuffStream (support s) (storage s) (peers s) x (next_request_id s)
    (next_timeout_instant s) (current_leader s) (state s) (authorities s) (last_authorities
    s) (internal s) (commit_block_params s) (pending_consensus_messages s)
    (pending_new_view_messages s) (timeout_message_collector s) (timeout_tc s) (shutdown s)
    (out s) (now s) (draws s).
Definition with_next_request_id (x : RequestId) (s : HotStuffStream) : HotStuffStream :=
  Build_HotStuffStream (support s) (storage s) (peers s) (known_validators s) x
    (next_timeout_instant s) (current_leader s) (state s) (authorities s) (last_authorities
    s) (internal s) (commit_block_params s) (pending_consensus_messages s)
    (pending_new_view_messages s) (timeout_message_collector s) (timeout_tc s) (shutdown s)
    (out s) (now s) (draws s).
Definition with_next_timeout_instant (x : option Instant)
    (s : HotStuffStream) : HotStuffStream :=
  Build_HotStuffStream (support s) (storage s) (peers s) (known_validators s)
    (next_request_id s) x (current_leader s) (state s) (authorities s) (last_authorities s)
    (internal s) (commit_block_params s) (pending_consensus_messages s)
    (pending_new_view_messages s) (timeout_message_collector s) (timeout_tc s) (shutdown s)
    (out s) (now s) (draws s).
Definition with_current_leader (x : option Address) (s : HotStuffStream) : HotStuffStream :=
  Build_HotStuffStream (support s) (storage s) (peers s) (known_validators s)
    (next_request_id s) (next_timeout_instant s) x (state s) (authorities s)
    (last_authorities s) (internal s) (commit_block_params s) (pending_consensus_messages s)
    (pending_new_view_messages s) (timeout_message_collector s) (timeout_tc s) (shutdown s)
    (out s) (now s) (draws s).
Definition with_state (x : State) (s : HotStuffStream) : HotStuffStream :=
  Build_HotStuffStream (support s) (storage s) (peers s) (known_validators s)
    (next_request_id s) (next_timeout_instant s) (current_leader s) x (authorities s)
    (last_authorities s) (internal s) (commit_block_params s) (pending_consensus_messages s)
    (pending_new_view_messages s) (timeout_message_collector s) (timeout_tc s) (shutdown s)
    (out s) (now s) (draws s).
Definition with_authorities (x : HotstuffModule.Authorities)
    (s : HotStuffStream) : HotStuffStream :=
  Build_HotStuffStream (support s) (storage s) (peers s) (known_validators s)
    (next_request_id s) (next_timeout_instant s) (current_leader s) (state s) x
    (last_authorities s) (internal s) (commit_block_params s) (pending_consensus_messages s)
    (pending_new_view_messages s) (timeout_message_collector s) (timeout_tc s) (shutdown s)
    (out s) (now s) (draws s).
Definition with_last_authorities (x : HotstuffModule.Authorities)
    (s : HotStuffStream) : HotStuffStream :=
  Build_HotStuffStream (support s) (storage s) (peers s) (known_validators s)
    (next_request_id s) (next_timeout_instant s) (current_leader s) (state s) (authorities
    s) x (internal s) (commit_block_params s) (pending_consensus_messages s)
    (pending_new_view_messages s) (timeout_message_collector s) (timeout_tc s) (shutdown s)
    (out s) (now s) (draws s).
Definition with_internal (x : list InternalMessage) (s : HotStuffStream) : HotStuffStream :=
  Build_HotStuffStream (support s) (storage s) (peers s) (known_validators s)
    (next_request_id s) (next_timeout_instant s) (current_leader s) (state s) (authorities
    s) (last_authorities s) x (commit_block_params s) (pending_consensus_messages s)
    (pending_new_view_messages s) (timeout_message_collector s) (timeout_tc s) (shutdown s)
    (out s) (now s) (draws s).
Definition with_commit_block_params (x : option ChainCommitBlockParams)
    (s : HotStuffStream) : HotStuffStream :=
  Build_HotStuffStream (support s) (storage s) (peers s) (known_validators s)
    (next_request_id s) (next_timeout_instant s) (current_leader s) (state s) (authorities
    s) (last_authorities s) (internal s) x (pending_consensus_messages s)
    (pending_new_view_messages s) (timeout_message_collector s) (timeout_tc s) (shutdown s)
    (out s) (now s) (draws s).
Definition with_pending_consensus_messages (x : gmap PeerId (list ConsensusMessage))
    (s : HotStuffStream) : HotStuffStream :=
  Build_HotStuffStream (support s) (storage s) (peers s) (known_validators s)
    (next_request_id s) (next_timeout_instant s) (current_leader s) (state s) (authorities
    s) (last_authorities s) (internal s) (commit_block_params s) x
    (pending_new_view_messages s) (timeout_message_collector s) (timeout_tc s) (shutdown s)
    (out s) (now s) (draws s).
Definition with_pending_new_view_messages (x : list (ConsensusMessage * Address))
    (s : HotStuffStream) : HotStuffStream :=
  Build_HotStuffStream (support s) (storage s) (peers s) (known_validators s)
    (next_request_id s) (next_timeout_instant s) (current_leader s) (state s) (authorities
    s) (last_authorities s) (internal s) (commit_block_params s) (pending_consensus_messages
    s) x (timeout_message_collector s) (timeout_tc s) (shutdown s) (out s) (now s) (draws
    s).
Definition with_timeout_message_collector (x : TimeoutMessageCollector)
    (s : HotStuffStream) : HotStuffStream :=
  Build_HotStuffStream (support s) (storage s) (peers s) (known_validators s)
    (next_request_id s) (next_timeout_instant s) (current_leader s) (state s) (authorities
    s) (last_authorities s) (internal s) (commit_block_params s) (pending_consensus_messages
    s) (pending_new_view_messages s) x (timeout_tc s) (shutdown s) (out s) (now s) (draws
    s).
Definition with_timeout_tc (x : option TC) (s : HotStuffStream) : HotStuffStream :=
  Build_HotStuffStream (support s) (storage s) (peers s) (known_validators s)
    (next_request_id s) (next_timeout_instant s) (current_leader s) (state s) (authorities
    s) (last_authorities s) (internal s) (commit_block_params s) (pending_consensus_messages
    s) (pending_new_view_messages s) (timeout_message_collector s) x (shutdown s) (out s)
    (now s) (draws s).
Definition with_shutdown (x : bool) (s : HotStuffStream) : HotStuffStream :=
  Build_HotStuffStream (support s) (storage s) (peers s) (known_validators s)
    (next_request_id s) (next_timeout_instant s) (current_leader s) (state s) (authorities
    s) (last_authorities s) (internal s) (commit_block_params s) (pending_consensus_messages
    s) (pending_new_view_messages s) (timeout_message_collector s) (timeout_tc s) x (out s)
    (now s) (draws s).
Definition with_out (x : list (PeerId * bytes)) (s : HotStuffStream) : HotStuffStream :=
  Build_HotStuffStream (support s) (storage s) (peers s) (known_validators s)
    (next_request_id s) (next_timeout_instant s) (current_leader s) (state s) (authorities
    s) (last_authorities s) (internal s) (commit_block_params s) (pending_consensus_messages
    s) (pending_new_view_messages s) (timeout_message_collector s) (timeout_tc s) (shutdown
    s) x (now s) (draws s).
Definition with_now (x : Instant) (s : HotStuffStream) : HotStuffStream :=
  Build_HotStuffStream (support s) (storage s) (peers s) (known_validators s)
    (next_request_id s) (next_timeout_instant s) (current_leader s) (state s) (authorities
    s) (last_authorities s) (internal s) (commit_block_params s) (pending_consensus_messages
    s) (pending_new_view_messages s) (timeout_message_collector s) (timeout_tc s) (shutdown
    s) (out s) x (draws s).
Definition with_draws (x : list Z) (s : HotStuffStream) : HotStuffStream :=
  Build_HotStuffStream (support s) (storage s) (peers s) (known_validators s)
    (next_request_id s) (next_timeout_instant s) (current_leader s) (state s) (authorities
    s) (last_authorities s) (internal s) (commit_block_params s) (pending_consensus_messages
    s) (pending_new_view_messages s) (timeout_message_collector s) (timeout_tc s) (shutdown
    s) (out s) (now s) x.

Inductive VerifyAction :=
| VerifyOk (proposal : Proposal) (commit_block_params : ChainCommitBlockParams)
| Wait
| Discard.

(** ** Calls of the task *)

Definition R (A : Type) : Type := M HotStuffStream Failure A.

Definition on_storage {A} (m : St A) : R A := λ s,
  let '(r, st) := m (storage s) in (r, with_storage st s).

Definition on_support {A} (m : M World CommonError A) : R A := λ s,
  let '(r, w) := m (support s) in (map_err Fail r, with_support w s).

(** [internal_tx.unbounded_send]: the receiver is the task itself. *)
Definition internal_send (m : InternalMessage) : R unit :=
  modify (λ s, with_internal (internal s ++ [m]) s).

Variable self : Setup.

Definition is_member (addr : Address) (a : HotstuffModule.Authorities) : Prop :=
  addr ∈ (HotstuffModule.authority_members a).*1.
#[export] Instance is_member_dec addr a : Decision (is_member addr a).
Proof. unfold is_member. apply _. Defined.

(** [iter().position(|(address, _)| address == addr)] *)
Fixpoint position (addr : Address) (members : Members) : option nat :=
  match members with
  | [] => None
  | (a, _) :: members => if decide (a = addr) then Some 0 else S <$> position addr members
  end.

(** [fn compute_leader]: [None] is a panic, of [expect] or of a remainder by
    zero; the indices are 64 bits wide. *)
Definition compute_leader (s : HotStuffStream) : option Address :=
  let members := HotstuffModule.authority_members (authorities s) in
  let len := Z.of_nat (length members) in
  last_leader_index ←
    (if decide (last_authorities s = authorities s)
     then Z.of_nat <$> position (qc_leader_address (base_commit_qc (storage s))) members
     else Some (u64 (len - 1)));
  let view_diff := u64 (view (storage s) - qc_view (base_commit_qc (storage s))) in
  let leader_index := u64 (last_leader_index + view_diff) in
  if decide (len = 0%Z) then None
  else fst <$> members !! Z.to_nat (leader_index mod len).

(** [fn next_timeout_instant] *)
Definition get_next_timeout_instant : R Instant :=
  let! next := asks next_timeout_instant in
  match next with
  | Some inst => ret inst
  | None =>
      let! now := asks now in
      let inst := (now + HotstuffModule.meta_view_timeout (hotstuff_meta self))%Z in
      do! modify (with_next_timeout_instant (Some inst)) in
      ret inst
  end.

Definition update_next_timeout_instant (extra : Z) : R unit :=
  modify (λ s, with_next_timeout_instant
    (Some (now s + HotstuffModule.meta_view_timeout (hotstuff_meta self) + extra)%Z) s).

Definition update_current_leader (leader : option Address) : R unit :=
  modify (with_current_leader leader).

(** A node that is not an authority observes. *)
Definition update_state (st : State) : R unit :=
  modify (λ s,
    if decide (st = Replica ∧ ¬ is_member (address self) (authorities s))
    then with_state Observer s
    else with_state st s).

(** ** Out messages *)

Definition send_out_message (peer_id : PeerId) (message : HotStuffMessage) : R unit :=
  modify (λ s, with_out (out s ++ [(peer_id, encode codec_hotstuff_message message)]) s).

(** [fn request], which numbers the request. *)
Definition request (peer_id : PeerId) (req : RequestId → HotStuffMessage) : R RequestId :=
  let! request_id := asks next_request_id in
  do! modify (with_next_request_id (next_id request_id)) in
  do! send_out_message peer_id (req request_id) in
  ret request_id.

Definition response (peer_id : PeerId) (res : HotStuffMessage) : R unit :=
  send_out_message peer_id res.

Definition get_peer_address (peer_id : PeerId) (s : HotStuffStream) : option Address :=
  peers s !! peer_id ≫= pi_address.

(** A request to a validator that is registered to us. *)
Definition request_validator (addr : Address) (req : RequestId → HotStuffMessage) :
    R (option RequestId) :=
  let! known := asks known_validators in
  match known !! addr with
  | Some peer_id =>
      let! request_id := request peer_id req in
      ret (Some request_id)
  | None => ret None
  end.

Definition request_proposal (addr : Address) (req : RequestProposalReq) : R (option RequestId) :=
  request_validator addr (λ id, MRequestProposalReq
    (Build_RequestProposalReq id (pq_block_hash req))).

Definition consensus_message (addr : Address) (req : ConsensusMessage) : R (option RequestId) :=
  request_validator addr (λ id, MConsensusMessage
    (Build_ConsensusMessage id (cm_message_type req) (cm_view req) (cm_node req)
       (cm_justify req) (cm_sig req))).

Definition timeout_message (addr : Address) (req : TimeoutMessage) : R (option RequestId) :=
  request_validator addr (λ id, MTimeoutMessage
    (Build_TimeoutMessage id (tm_message_type req) (tm_view req) (tm_justify req) (tm_sig req))).

(** [for address in addresses { if address != self.address { f(address)?; } }]
    over the members of the authorities *)
Definition for_others (f : Address → R unit) : R unit :=
  let! authorities := asks authorities in
  for_each (λ addr, if decide (addr ≠ address self) then f addr else ret tt)
    (HotstuffModule.authority_members authorities).*1.

(** [fn sign], with the public key of this node *)
Definition sign (message : bytes) : R Signature :=
  let! (_, signature) := try (support_sign (secret_key self) message) in
  ret signature.

(** ** Registering validators *)

Definition register_validator (peer_id : PeerId) : R (option RequestId) :=
  let! peers := asks peers in
  match peers !! peer_id with
  | None => ret None
  | Some peer_info =>
      let message := encode sc_u64 (remote_nonce peer_info) in
      let! signature := sign message in
      let! request_id := request peer_id (λ id, MRegisterValidatorReq
        (Build_RegisterValidatorReq id (public_key self) signature)) in
      ret (Some request_id)
  end.

Definition on_req_register_validator (peer_id : PeerId) (req : RegisterValidatorReq) :
    R RegisterValidatorRes :=
  let! peers_ := asks peers in
  let! success :=
    match peers_ !! peer_id with
    | None => ret false
    | Some peer_info =>
        let message := encode sc_u64 (local_nonce peer_info) in
        let success := is_ok (verify_signature message (rvq_public_key req) (rvq_signature req)) in
        do! (if success then
               let addr := support_address (rvq_public_key req) in
               let peer_info := Build_PeerInfo (local_nonce peer_info) (remote_nonce peer_info)
                                  (Some addr) in
               do! modify (λ s, with_peers (<[peer_id := peer_info]> (peers s)) s) in
               do! modify (λ s, with_known_validators (<[addr := peer_id]> (known_validators s)) s) in
               internal_send (ValidatorRegistered addr peer_id)
             else ret tt) in
        ret success
    end in
  ret (Build_RegisterValidatorRes (rvq_request_id req) success).

Definition on_res_register_validator (peer_id : PeerId) (res : RegisterValidatorRes) : R unit :=
  ret tt.

(** ** Proposals *)

Definition on_req_request_proposal (addr : Address) (req : RequestProposalReq) :
    R RequestProposalRes :=
  let! st := asks storage in
  let! proposal := try (ok_or (consensus_error (ConsensusData
                     "Missing proposal on req request proposal"))
                     (get_proposal (pq_block_hash req) st)) in
  ret (Build_RequestProposalRes (pq_request_id req) (Some proposal)).

Definition on_proposal_verify_ok (p : Proposal) (cbp : ChainCommitBlockParams) :
    CommonResult VerifyAction := Ok (VerifyOk p cbp).

Definition on_proposal_verify_err (e : VerifyError) : VerifyAction :=
  match e with
  | ShouldWait => Wait
  | Duplicated | NotBest | InvalidExecutionGap | InvalidHeader _ | VDuplicatedTx _
  | VInvalidTx _ => Discard
  end.

Definition on_proposal_verify_result
    (result : CommonResult (Proposal * ChainCommitBlockParams)) : CommonResult VerifyAction :=
  or_else_catch as_hotstuff
    (λ e, match e with
          | HsVerifyError e => Some (Ok (on_proposal_verify_err e))
          | _ => None
          end)
    (let? (p, cbp) := result in on_proposal_verify_ok p cbp).

(** A proposal that has to wait is dropped. *)
Definition on_proposal (p : Proposal) : R unit :=
  let! w := asks support in
  let '(result, _) := verify_proposal w p in
  let! action := try (on_proposal_verify_result result) in
  match action with
  | VerifyOk p cbp =>
      do! modify (with_commit_block_params (Some cbp)) in
      on_storage (put_proposal p)
  | Wait => ret tt
  | Discard => ret tt
  end.

Definition on_res_request_proposal (addr : Address) (res : RequestProposalRes) : R unit :=
  match ps_proposal res with
  | Some p =>
      do! on_proposal p in
      internal_send (IProposal addr p)
  | None => ret tt
  end.

(** ** Decided blocks *)

Definition on_internal_message (m : InternalMessage) : R unit := ret tt.

Definition stream_on_decide (commit_block_params : ChainCommitBlockParams) (commit_qc : QC) :
    R unit :=
  let proof := Build_HotstuffProof commit_qc in
  let cbp := with_proof (proof_try_into proof) commit_block_params in
  let tx_hash_set : gset Hash :=
    list_to_set (body_meta_txs (cb_body cbp) ++ body_payload_txs (cb_body cbp)) in
  do! on_support (commit_block cbp) in
  on_support (txpool_remove_transactions tx_hash_set).

Definition on_block_committed (number : BlockNumber) (block_hash : Hash) : R unit :=
  let! w := asks support in
  do! on_storage (refresh w) in
  let! new := try_panic (get_hotstuff_authorities w (confirmed_number (get_current_state w))) in
  modify (λ s, with_last_authorities (authorities s) (with_authorities new s)).

(** ** Timeouts *)

(** The collected messages of views up to [view] are dropped. *)
Definition advance_view (view : Z) : R unit :=
  let next_view := u64 (view + 1) in
  do! on_storage (update_view next_view) in
  modify (λ s, with_timeout_message_collector
                 (tmc_cleanup view (timeout_message_collector s)) s).

(** [fn on_timeout_new_timeout], from the check of [justify] on *)
Definition timeout_justify (justify : option TC) : R bool :=
  match justify with
  | None => ret true
  | Some justify =>
      let! s := asks id in
      if decide (view (storage s) ≤ tc_view justify)%Z then
        match verify_tc justify (authorities s) with
        | Err _ => ret false
        | Ok _ => do! advance_view (tc_view justify) in ret true
        end
      else ret true
  end.

Definition broadcast_tc (tc : TC) : R unit :=
  let decide_message := Build_TimeoutMessage 0 TimeoutDecide (tc_view tc) (Some tc) None in
  for_others (λ addr, let! _ := timeout_message addr decide_message in ret tt).

Definition on_timeout_new_timeout (message : TimeoutMessage) (addr : Address) : R unit :=
  match tm_sig message with
  | None => ret tt
  | Some (public_key, signature) =>
      if decide (support_address public_key ≠ addr) then ret tt
      else
        match verify_signature (timeout_message_bytes (tm_message_type message) (tm_view message))
                public_key signature with
        | Err _ => ret tt
        | Ok _ =>
            let! go_on := timeout_justify (tm_justify message) in
            if negb go_on then ret tt
            else
              do! modify (λ s, with_timeout_message_collector
                    (tmc_add addr message (timeout_message_collector s)) s) in
              let! s := asks id in
              match get_tc (authorities s) (tm_view message) (timeout_message_collector s) with
              | None => panic
              | Some None => ret tt
              | Some (Some tc) =>
                  do! modify (with_timeout_tc (Some tc)) in
                  do! advance_view (tc_view tc) in
                  broadcast_tc tc
              end
        end
  end.

Definition on_timeout_decide (message : TimeoutMessage) (addr : Address) : R unit :=
  match tm_justify message with
  | None => ret tt
  | Some justify =>
      let! authorities := asks authorities in
      match verify_tc justify authorities with
      | Err _ => ret tt
      | Ok _ => advance_view (tc_view justify)
      end
  end.

Definition on_timeout_message (message : TimeoutMessage) (addr : Address) : R unit :=
  let! st := asks storage in
  if decide (tm_view message < view st)%Z then ret tt
  else
    match tm_message_type message with
    | NewTimeout => on_timeout_new_timeout message addr
    | TimeoutDecide => on_timeout_decide message addr
    end.

Definition on_timeout : R unit :=
  let! s := asks id in
  let view := view (storage s) in
  let! sig := sign (timeout_message_bytes NewTimeout view) in
  let message := Build_TimeoutMessage 0 NewTimeout view (timeout_tc s)
                   (Some (public_key self, sig)) in
  let addresses := (HotstuffModule.authority_members (authorities s)).*1 in
  do! on_timeout_message message (address self) in
  do! for_each (λ addr,
        if decide (addr ≠ address self) then
          let! _ := timeout_message addr message in ret tt
        else ret tt) addresses in
  update_next_timeout_instant 0.

(** ** In messages *)

Definition on_network_protocol_open (peer_id : PeerId) (local remote : Z) : R unit :=
  do! modify (λ s, with_peers (<[peer_id := Build_PeerInfo local remote None]> (peers s)) s) in
  let! _ := register_validator peer_id in
  ret tt.

Definition on_network_protocol_close (peer_id : PeerId) : R unit :=
  let! s := asks id in
  do! match get_peer_address peer_id s with
      | Some addr => modify (λ s, with_known_validators (delete addr (known_validators s)) s)
      | None => ret tt
      end in
  modify (λ s, with_peers (delete peer_id (peers s)) s).

Definition on_network_message (peer_id : PeerId) (message : bytes) : R unit :=
  let! message := try (codec_decode codec_hotstuff_message message) in
  let! s := asks id in
  match message, get_peer_address peer_id s with
  | MRegisterValidatorReq req, _ =>
      let! res := on_req_register_validator peer_id req in
      response peer_id (MRegisterValidatorRes res)
  | MRegisterValidatorRes res, _ => on_res_register_validator peer_id res
  | MRequestProposalReq req, Some addr =>
      let! res := on_req_request_proposal addr req in
      response peer_id (MRequestProposalRes res)
  | MRequestProposalRes res, Some addr => on_res_request_proposal addr res
  | MConsensusMessage message, _ => internal_send (IConsensusMessage message peer_id)
  | MTimeoutMessage message, Some addr => on_timeout_message message addr
  | _, None => ret tt
  end.

Definition on_in_message (m : ConsensusInMessage) : R unit :=
  match m with
  | NetworkProtocolOpen peer_id local remote => on_network_protocol_open peer_id local remote
  | NetworkProtocolClose peer_id => on_network_protocol_close peer_id
  | NetworkMessage peer_id message => on_network_message peer_id message
  | BlockCommitted number block_hash => on_block_committed number block_hash
  | GetConsensusState | InGenerate | SyncLatencyUpdated _ => ret tt
  end.
End Stream.
