(* ===== verification/HotstuffState.v ===== *)
(** * HotstuffState

    [core/node/consensus/hotstuff/src/stream/state.rs]: what the task does in a
    view as the leader, as a replica or as an observer. *)
From S2P Require Import Prelude Codec Types SystemModule HotstuffModule ConsensusSupport Engine HotstuffProtocol HotstuffAuthorities HotstuffStorage HotstuffVerifier HotstuffStream.

(** ** [struct ConsensusMessageCollector]: the last message of an address. *)
Abbreviation Collector := (gmap Address ConsensusMessage).

(** The loop of [get_high_qc]; [None] is the panic of [expect]. *)
Fixpoint collect_high_qc (member_weight : gmap Address Z) (quorum : Z)
    (messages : list (Address * ConsensusMessage)) (total_weight : Z) (high_qc : option QC) :
    option (option QC) :=
  match messages with
  | [] => Some None
  | (address, message) :: messages =>
      justify ← cm_justify message;
      let '(total_weight, high_qc) :=
        match member_weight !! address with
        | Some weight =>
            (u32 (total_weight + weight),
             Some match high_qc with
                  | None => justify
                  | Some high_qc =>
                      if decide (qc_view justify > qc_view high_qc)%Z then justify else high_qc
                  end)
        | None => (total_weight, high_qc)
        end in
      if decide (quorum ≤ total_weight)%Z then Some high_qc
      else collect_high_qc member_weight quorum messages total_weight high_qc
  end.

(** The loop of [get_qc]. *)
Fixpoint collect_qc (member_weight : gmap Address Z) (quorum : Z) (leader_address : Address)
    (messages : list (Address * ConsensusMessage)) (total_weight : Z)
    (qc_sig : list (PublicKey * Signature)) : option (option QC) :=
  match messages with
  | [] => Some None
  | (address, message) :: messages =>
      '(total_weight, qc_sig) ←
        match member_weight !! address with
        | Some weight => s ← cm_sig message; Some (u32 (total_weight + weight), qc_sig ++ [s])
        | None => Some (total_weight, qc_sig)
        end;
      if decide (quorum ≤ total_weight)%Z then
        node ← cm_node message;
        Some (Some (Build_QC (cm_message_type message) (cm_view message) node leader_address qc_sig))
      else collect_qc member_weight quorum leader_address messages total_weight qc_sig
  end.

Section Collectors.
Context {HO : HashOrder}.

Definition get_high_qc (authorities : HotstuffModule.Authorities) (c : Collector) :
    option (option QC) :=
  collect_high_qc (member_weight authorities) (quorum authorities) (hash_iter c) 0 None.

Definition get_high_qc_addresses (qc : QC) (c : Collector) : list Address :=
  (filter (λ kv, cm_justify kv.2 = Some qc) (hash_iter c)).*1.

Definition get_qc (authorities : HotstuffModule.Authorities) (leader_address : Address)
    (c : Collector) : option (option QC) :=
  collect_qc (member_weight authorities) (quorum authorities) leader_address (hash_iter c) 0 [].
End Collectors.

(** A message of this node. *)
Definition new_message (message_type : MessageType) (view : Z) (node : option Node)
    (justify : option QC) : ConsensusMessage :=
  Build_ConsensusMessage 0 message_type view node justify None.

(** [struct LeaderState]: the schedule signal is its timestamp. *)
Record LeaderState := {
  new_view_collector : Collector;
  prepare_collector : Collector;
  pre_commit_collector : Collector;
  commit_collector : Collector;
  work_schedule_signal : option Z;
  work_new_view_signal : option QC;
  pending_remote_proposal : option Hash;
  prepare_message : option ConsensusMessage;
  pre_commit_message : option ConsensusMessage;
  commit_message : option ConsensusMessage;
  decide_message : option ConsensusMessage;
}.

Definition with_new_view_collector (x : Collector) (s : LeaderState) : LeaderState :=
  Build_LeaderState x (prepare_collector s) (pre_commit_collector s) (commit_collector s)
    (work_schedule_signal s) (work_new_view_signal s) (pending_remote_proposal s)
    (prepare_message s) (pre_commit_message s) (commit_message s) (decide_message s).
Definition with_prepare_collector (x : Collector) (s : LeaderState) : LeaderState :=
  Build_LeaderState (new_view_collector s) x (pre_commit_collector s) (commit_collector s)
    (work_schedule_signal s) (work_new_view_signal s) (pending_remote_proposal s)
    (prepare_message s) (pre_commit_message s) (commit_message s) (decide_message s).
Definition with_pre_commit_collector (x : Collector) (s : LeaderState) : LeaderState :=
  Build_LeaderState (new_view_collector s) (prepare_collector s) x (commit_collector s)
    (work_schedule_signal s) (work_new_view_signal s) (pending_remote_proposal s)
    (prepare_message s) (pre_commit_message s) (commit_message s) (decide_message s).
Definition with_commit_collector (x : Collector) (s : LeaderState) : LeaderState :=
  Build_LeaderState (new_view_collector s) (prepare_collector s) (pre_commit_collector s) x
    (work_schedule_signal s) (work_new_view_signal s) (pending_remote_proposal s)
    (prepare_message s) (pre_commit_message s) (commit_message s) (decide_message s).
Definition with_work_schedule_signal (x : option Z) (s : LeaderState) : LeaderState :=
  Build_LeaderState (new_view_collector s) (prepare_collector s) (pre_commit_collector s)
    (commit_collector s) x (work_new_view_signal s) (pending_remote_proposal s)
    (prepare_message s) (pre_commit_message s) (commit_message s) (decide_message s).
Definition with_work_new_view_signal (x : option QC) (s : LeaderState) : LeaderState :=
  Build_LeaderState (new_view_collector s) (prepare_collector s) (pre_commit_collector s)
    (commit_collector s) (work_schedule_signal s) x (pending_remote_proposal s)
    (prepare_message s) (pre_commit_message s) (commit_message s) (decide_message s).
Definition with_pending_remote_proposal (x : option Hash) (s : LeaderState) : LeaderState :=
  Build_LeaderState (new_view_collector s) (prepare_collector s) (pre_commit_collector s)
    (commit_collector s) (work_schedule_signal s) (work_new_view_signal s) x
    (prepare_message s) (pre_commit_message s) (commit_message s) (decide_message s).
Definition with_prepare_message (x : option ConsensusMessage) (s : LeaderState) : LeaderState :=
  Build_LeaderState (new_view_collector s) (prepare_collector s) (pre_commit_collector s)
    (commit_collector s) (work_schedule_signal s) (work_new_view_signal s)
    (pending_remote_proposal s) x (pre_commit_message s) (commit_message s) (decide_message
    s).
Definition with_pre_commit_message (x : option ConsensusMessage)
    (s : LeaderState) : LeaderState :=
  Build_LeaderState (new_view_collector s) (prepare_collector s) (pre_commit_collector s)
    (commit_collector s) (work_schedule_signal s) (work_new_view_signal s)
    (pending_remote_proposal s) (prepare_message s) x (commit_message s) (decide_message s).
Definition with_commit_message (x : option ConsensusMessage) (s : LeaderState) : LeaderState :=
  Build_LeaderState (new_view_collector s) (prepare_collector s) (pre_commit_collector s)
    (commit_collector s) (work_schedule_signal s) (work_new_view_signal s)
    (pending_remote_proposal s) (prepare_message s) (pre_commit_message s) x (decide_message
    s).
Definition with_decide_message (x : option ConsensusMessage) (s : LeaderState) : LeaderState :=
  Build_LeaderState (new_view_collector s) (prepare_collector s) (pre_commit_collector s)
    (commit_collector s) (work_schedule_signal s) (work_new_view_signal s)
    (pending_remote_proposal s) (prepare_message s) (pre_commit_message s) (commit_message
    s) x.

(** [LeaderState::new] *)
Definition leader_new : LeaderState :=
  Build_LeaderState ∅ ∅ ∅ ∅ None None None None None None None.

Section Roles.
Context {SC : Scale} {CS : ConsensusSupport} {HO : HashOrder}.
Variable self : Setup.

Definition message_error (msg : string) : CommonError := EHotStuff (HsMessageError msg).

(** [fn sign_message], of the leader and of a replica *)
Definition sign_message (m : ConsensusMessage) : R ConsensusMessage :=
  let! current_leader := asks current_leader in
  match current_leader with
  | None => panic
  | Some leader_address =>
      let! sig := sign self (vote_message (cm_message_type m) (cm_view m) (cm_node m)
                               leader_address) in
      ret (Build_ConsensusMessage (cm_request_id m) (cm_message_type m) (cm_view m) (cm_node m)
             (cm_justify m) (Some (public_key self, sig)))
  end.

(** The authorities that a certificate of a justification was made by. *)
Definition justify_authorities (justify : QC) (s : HotStuffStream) : HotstuffModule.Authorities :=
  if decide (qc_view justify = qc_view (base_commit_qc (storage s))) then last_authorities s
  else authorities s.

(** [fn on_consensus_message], which every role repeats: [on_validator] is
    its [on_validator_consensus_message]. *)
Definition from_member (peer_id : PeerId) (s : HotStuffStream) : option (option Address) :=
  match get_peer_address peer_id s with
  | Some addr => Some (if decide (is_member addr (authorities s)) then Some addr else None)
  | None => None
  end.
Definition keep_pending (message : ConsensusMessage) (peer_id : PeerId) : R unit :=
  modify (λ s, with_pending_consensus_messages
    (<[peer_id := default [] (pending_consensus_messages s !! peer_id) ++ [message]]>
       (pending_consensus_messages s)) s).

(** [pending_consensus_messages.remove(&peer_id)] *)
Definition take_pending (peer_id : PeerId) : R (list ConsensusMessage) :=
  let! pending := asks pending_consensus_messages in
  do! modify (with_pending_consensus_messages (delete peer_id pending)) in
  ret (default [] (pending !! peer_id)).

(** ** The leader *)

Definition L (A : Type) : Type := M (LeaderState * HotStuffStream) Failure A.

(** A call of the stream, and an update of the leader's own state. *)
Definition stream {A} (m : R A) : L A := λ '(l, s),
  let '(r, s) := m s in (r, (l, s)).
Definition update_leader (f : LeaderState → LeaderState) : L unit :=
  modify (λ '(l, s), (f l, s)).
Definition leader_state : L LeaderState := asks fst.

(** A proposal whose parameters are kept is not built again. *)
Definition has_params (p : Proposal) (s : HotStuffStream) : Prop :=
  cb_block_hash <$> commit_block_params s = Some (p_block_hash p).
#[export] Instance has_params_dec p s : Decision (has_params p s).
Proof. unfold has_params. apply _. Defined.

Definition take_decided (block_hash : Hash) : R (option ChainCommitBlockParams) :=
  let! st := asks storage in
  match get_proposal block_hash st with
  | None => ret None
  | Some proposal =>
      let! kept := asks commit_block_params in
      do! modify (with_commit_block_params None) in
      ret match kept with
          | Some v => if decide (cb_block_hash v = p_block_hash proposal) then Some v else None
          | None => None
          end
  end.

(** [fn on_decide] of the leader, and the end of that of a replica *)
Definition decide_block (commit_qc : QC) : R unit :=
  let! cbp := take_decided (n_block_hash (qc_node commit_qc)) in
  match cbp with
  | Some cbp => stream_on_decide cbp commit_qc
  | None => ret tt
  end.

(** [fn verify_message]: the message that is collected.  The errors are
    discarded by every caller. *)
Definition verify_message (m : ConsensusMessage) (addr : Address) :
    L (CommonResult ConsensusMessage) :=
  let! l := leader_state in
  if decide (address self = addr) then
    match prepare_message l with
    | None => throw Panic
    | Some pm =>
        stream (attempt (sign_message
          (Build_ConsensusMessage (cm_request_id m) (cm_message_type m) (cm_view m)
             (cm_node pm) None (cm_sig m))))
    end
  else
    match cm_sig m with
    | None => ret (Err (message_error "Missing sig"))
    | Some (public_key, signature) =>
        if decide (support_address public_key ≠ addr) then
          ret (Err (message_error "Unexpected address"))
        else
          match verify_signature (vote_message (cm_message_type m) (cm_view m) (cm_node m)
                                    (address self)) public_key signature with
          | Err e => ret (Err e)
          | Ok _ =>
              match prepare_message l with
              | None => throw Panic
              | Some pm =>
                  if decide (cm_node m ≠ cm_node pm)
                  then ret (Err (message_error "Unexpected node"))
                  else ret (Ok m)
              end
          end
    end.

Definition broadcast_message (m : ConsensusMessage) : R unit :=
  for_others self (λ addr, let! _ := consensus_message addr m in ret tt).

(** The handlers of votes differ in the collector, and in what they do with
    a certificate. *)
Definition collect_vote (get : LeaderState → Collector) (set : Collector → LeaderState → LeaderState)
    (m : ConsensusMessage) (addr : Address) (on_qc : QC → L unit) : L unit :=
  let! verified := verify_message m addr in
  match verified with
  | Err _ => ret tt
  | Ok m =>
      do! update_leader (λ l, set (<[addr := m]> (get l)) l) in
      let! l := leader_state in
      let! s := stream (asks id) in
      match get_qc (authorities s) (address self) (get l) with
      | None => throw Panic
      | Some None => ret tt
      | Some (Some qc) => on_qc qc
      end
  end.

Definition leader_on_commit (m : ConsensusMessage) (addr : Address) : L unit :=
  collect_vote commit_collector with_commit_collector m addr (λ commit_qc,
    let! l := leader_state in
    match decide_message l with
    | Some _ => ret tt
    | None =>
        let! st := stream (asks storage) in
        let message := new_message Decide (view st) None (Some commit_qc) in
        do! update_leader (with_decide_message (Some message)) in
        do! stream (decide_block commit_qc) in
        stream (broadcast_message message)
    end).

Definition leader_on_pre_commit (m : ConsensusMessage) (addr : Address) : L unit :=
  collect_vote pre_commit_collector with_pre_commit_collector m addr (λ pre_commit_qc,
    let! l := leader_state in
    match commit_message l with
    | Some _ => ret tt
    | None =>
        do! stream (on_storage (update_locked_qc pre_commit_qc)) in
        let! st := stream (asks storage) in
        let message := new_message Commit (view st) None (Some pre_commit_qc) in
        do! update_leader (with_commit_message (Some message)) in
        do! leader_on_commit message (address self) in
        stream (broadcast_message message)
    end).

Definition leader_on_prepare (m : ConsensusMessage) (addr : Address) : L unit :=
  collect_vote prepare_collector with_prepare_collector m addr (λ prepare_qc,
    let! l := leader_state in
    match pre_commit_message l with
    | Some _ => ret tt
    | None =>
        do! stream (on_storage (update_prepare_qc prepare_qc)) in
        let! st := stream (asks storage) in
        let message := new_message PreCommit (view st) None (Some prepare_qc) in
        do! update_leader (with_pre_commit_message (Some message)) in
        do! leader_on_pre_commit message (address self) in
        stream (broadcast_message message)
    end).

(** Sends the proposal and the message to a member. *)
Definition send_proposal (p : Proposal) (m : ConsensusMessage) (addr : Address) : R unit :=
  let! known := asks known_validators in
  do! match known !! addr with
      | Some peer_id =>
          response peer_id (MRequestProposalRes (Build_RequestProposalRes 0 (Some p)))
      | None => ret tt
      end in
  let! _ := consensus_message addr m in
  ret tt.

(** [LeaderState::on_proposal] *)
Definition leader_on_proposal (p : Proposal) : L unit :=
  let node := Build_Node (p_parent_hash p) (p_block_hash p) in
  let! l := leader_state in
  match work_new_view_signal l with
  | None => throw Panic
  | Some high_qc =>
      let! st := stream (asks storage) in
      let message := new_message Prepare (view st) (Some node) (Some high_qc) in
      do! update_leader (with_prepare_message (Some message)) in
      do! leader_on_prepare message (address self) in
      stream (for_others self (send_proposal p message))
  end.

Definition create_proposal (schedule_timestamp : Z) : L unit :=
  let! build_block_params := stream (on_support (prepare_block schedule_timestamp)) in
  let! w := stream (asks support) in
  let! commit_block_params := stream (try (build_block w build_block_params)) in
  let proposal := {|
    p_parent_hash := parent_hash (cb_header commit_block_params);
    p_block_hash := cb_block_hash commit_block_params;
    p_number := bb_number build_block_params;
    p_timestamp := bb_timestamp build_block_params;
    p_meta_txs := tx <$> bb_meta_txs build_block_params;
    p_payload_txs := tx <$> bb_payload_txs build_block_params;
    p_execution_number := bb_execution_number build_block_params;
  |} in
  do! stream (modify (with_commit_block_params (Some commit_block_params))) in
  do! stream (on_storage (put_proposal proposal)) in
  leader_on_proposal proposal.

Definition on_local_proposal (p : Proposal) : L unit :=
  let! s := stream (asks id) in
  do! (if decide (has_params p s) then ret tt
       else
         let! cbp := stream (try
           (let? meta_txs := convert_txs (p_meta_txs p) in
            let? payload_txs := convert_txs (p_payload_txs p) in
            build_block (support s) (Build_BuildBlockParams (p_number p) (p_timestamp p)
                                       meta_txs payload_txs (p_execution_number p)))) in
         stream (modify (with_commit_block_params (Some cbp)))) in
  leader_on_proposal p.

(** [thread_rng().gen_range(0, remote_addresses.len())] *)
Definition choose (l : list Address) : R Address := λ s,
  match draw 0 (Z.of_nat (length l)) (draws s) with
  | None => (Err Panic, s)
  | Some (rand, rest) =>
      match l !! Z.to_nat rand with
      | Some addr => (Ok addr, with_draws rest s)
      | None => (Err Panic, s)
      end
  end.

Definition reuse_proposal (high_qc : QC) : L unit :=
  let block_hash := n_block_hash (qc_node high_qc) in
  let! st := stream (asks storage) in
  match get_proposal block_hash st with
  | Some proposal => on_local_proposal proposal
  | None =>
      let! l := leader_state in
      let remote_addresses :=
        filter (λ x, x ≠ address self) (get_high_qc_addresses high_qc (new_view_collector l)) in
      let! target_address := stream (choose remote_addresses) in
      let! _ := stream (request_proposal target_address (Build_RequestProposalReq 0 block_hash)) in
      update_leader (with_pending_remote_proposal (Some block_hash))
  end.

Definition work : L unit :=
  let! l := leader_state in
  match work_new_view_signal l with
  | None => throw Panic
  | Some high_qc =>
      let! st := stream (asks storage) in
      let base := n_block_hash (qc_node (base_commit_qc st)) in
      if decide (n_block_hash (qc_node high_qc) = base) then
        match work_schedule_signal l with
        | None => throw Panic
        | Some schedule_info => create_proposal schedule_info
        end
      else if decide (n_parent_hash (qc_node high_qc) = base) then reuse_proposal high_qc
      else ret tt
  end.

(** A signal that is given replaces the kept one. *)
Definition signal {A} (given kept : option A) : option A :=
  match given with Some _ => given | None => kept end.

Definition try_work (schedule : option Z) (new_view : option QC) : L unit :=
  do! update_leader (λ l, with_work_schedule_signal (signal schedule (work_schedule_signal l)) l) in
  do! update_leader (λ l, with_work_new_view_signal (signal new_view (work_new_view_signal l)) l) in
  let! l := leader_state in
  match work_new_view_signal l, work_schedule_signal l, prepare_message l,
        pending_remote_proposal l with
  | Some _, Some _, None, None => work
  | _, _, _, _ => ret tt
  end.

Definition leader_on_new_view (m : ConsensusMessage) (addr : Address) : L unit :=
  match cm_justify m with
  | None => ret tt
  | Some justify =>
      let! s := stream (asks id) in
      match verify_qc justify None (justify_authorities justify s) with
      | Err _ => ret tt
      | Ok _ =>
          do! update_leader (λ l,
                with_new_view_collector (<[addr := m]> (new_view_collector l)) l) in
          let! l := leader_state in
          match get_high_qc (authorities s) (new_view_collector l) with
          | None => throw Panic
          | Some None => ret tt
          | Some (Some high_qc) =>
              match work_new_view_signal l with
              | None => try_work None (Some high_qc)
              | Some _ => ret tt
              end
          end
      end
  end.

Definition on_remote_proposal (addr : Address) (p : Proposal) : L unit :=
  let! l := leader_state in
  match pending_remote_proposal l with
  | None => ret tt
  | Some pending =>
      if decide (pending ≠ p_block_hash p) then ret tt
      else
        do! update_leader (with_pending_remote_proposal None) in
        on_local_proposal p
  end.

Definition leader_on_validator_message (m : ConsensusMessage) (addr : Address) : L unit :=
  let! st := stream (asks storage) in
  if decide (cm_view m ≠ view st) then ret tt
  else
    match cm_message_type m with
    | NewView => leader_on_new_view m addr
    | Prepare => leader_on_prepare m addr
    | PreCommit => leader_on_pre_commit m addr
    | Commit => leader_on_commit m addr
    | Decide => ret tt
    end.

Definition leader_on_consensus_message (m : ConsensusMessage) (peer_id : PeerId) : L unit :=
  let! s := stream (asks id) in
  match from_member peer_id s with
  | Some (Some addr) => leader_on_validator_message m addr
  | Some None => ret tt
  | None => stream (keep_pending m peer_id)
  end.

Definition leader_on_validator_registered (addr : Address) (peer_id : PeerId) : L unit :=
  let! messages := stream (take_pending peer_id) in
  for_each (λ m, leader_on_validator_message m addr) messages.

Definition process_pending_new_view : L unit :=
  let! s := stream (asks id) in
  do! stream (modify (with_pending_new_view_messages [])) in
  for_each (λ x, leader_on_new_view x.1 x.2) (pending_new_view_messages s).

Definition send_new_view_to_self : L unit :=
  let! st := stream (asks storage) in
  leader_on_new_view (new_message NewView (view st) None (Some (prepare_qc st))) (address self).

(** [LeaderState::start], up to the loop *)
Definition leader_start : R LeaderState := λ s,
  match (do! process_pending_new_view in send_new_view_to_self) (leader_new, s) with
  | (Ok _, (l, s)) => (Ok l, s)
  | (Err e, (_, s)) => (Err e, s)
  end.

(** A message of the internal queue. *)
Definition leader_on_internal (m : InternalMessage) : L unit :=
  match m with
  | ValidatorRegistered addr peer_id => leader_on_validator_registered addr peer_id
  | IProposal addr proposal => on_remote_proposal addr proposal
  | IConsensusMessage m peer_id => leader_on_consensus_message m peer_id
  end.

(** ** The replica *)

(** Signs a message and sends it to the leader of the view. *)
Definition send_to_leader (m : ConsensusMessage) : R unit :=
  let! current_leader := asks current_leader in
  match current_leader with
  | None => panic
  | Some leader_address => let! _ := consensus_message leader_address m in ret tt
  end.
Definition send_vote (m : ConsensusMessage) : R unit :=
  let! m := sign_message m in send_to_leader m.

(** The safe node predicate: the node extends the one of the justification,
    and the locked one unless the justification is of a later view. *)
Definition extends (node : Node) (qc base : QC) : bool :=
  if decide (n_block_hash (qc_node qc) = n_block_hash (qc_node base))
  then bool_decide (n_parent_hash node = n_block_hash (qc_node base))
  else bool_decide (n_block_hash node = n_block_hash (qc_node qc)).
Definition safe_node (node : Node) (justify : QC) (st : Storage) : bool :=
  let base := base_commit_qc st in
  let locked := locked_qc st in
  extends node justify base &&
  (extends node locked base || bool_decide (qc_view justify > qc_view locked)%Z).

Definition replica_on_prepare (m : ConsensusMessage) (addr : Address) : R unit :=
  match cm_justify m with
  | None => ret tt
  | Some justify =>
      let! s := asks id in
      match verify_qc justify None (justify_authorities justify s) with
      | Err _ => ret tt
      | Ok _ =>
          match cm_node m with
          | None => ret tt
          | Some node =>
              match get_proposal (n_block_hash node) (storage s) with
              | None => ret tt
              | Some proposal =>
                  if decide (n_parent_hash node ≠ p_parent_hash proposal) then ret tt
                  else if safe_node node justify (storage s) then
                    send_vote (new_message (cm_message_type m) (cm_view m) (cm_node m) None)
                  else ret tt
              end
          end
      end
  end.

(** [on_pre_commit] and [on_commit]: a certificate of the previous phase is
    stored and voted for. *)
Definition replica_on_qc (expected : MessageType) (update : QC → St unit) (m : ConsensusMessage) :
    R unit :=
  match cm_justify m with
  | None => ret tt
  | Some justify =>
      let! s := asks id in
      match verify_qc justify (Some expected) (authorities s) with
      | Err _ => ret tt
      | Ok _ =>
          do! on_storage (update justify) in
          send_vote (new_message (cm_message_type m) (cm_view m) (Some (qc_node justify)) None)
      end
  end.

Definition replica_on_pre_commit (m : ConsensusMessage) (addr : Address) : R unit :=
  replica_on_qc Prepare update_prepare_qc m.

Definition replica_on_commit (m : ConsensusMessage) (addr : Address) : R unit :=
  replica_on_qc PreCommit update_locked_qc m.

Definition replica_on_decide (m : ConsensusMessage) (addr : Address) : R unit :=
  match cm_justify m with
  | None => ret tt
  | Some justify =>
      let! s := asks id in
      match verify_qc justify (Some Commit) (authorities s) with
      | Err _ => ret tt
      | Ok _ => decide_block justify
      end
  end.

(** [on_new_view] of a replica and of an observer *)
Definition keep_new_view (m : ConsensusMessage) (addr : Address) : R unit :=
  modify (λ s, with_pending_new_view_messages (pending_new_view_messages s ++ [(m, addr)]) s).

Definition replica_on_validator_message (m : ConsensusMessage) (addr : Address) : R unit :=
  do! (if decide (cm_message_type m = NewView) then keep_new_view m addr else ret tt) in
  let! st := asks storage in
  if decide (cm_view m ≠ view st) then ret tt
  else
    match cm_message_type m with
    | NewView => ret tt
    | Prepare => replica_on_prepare m addr
    | PreCommit => replica_on_pre_commit m addr
    | Commit => replica_on_commit m addr
    | Decide => replica_on_decide m addr
    end.

Definition replica_on_consensus_message (m : ConsensusMessage) (peer_id : PeerId) : R unit :=
  let! s := asks id in
  match from_member peer_id s with
  | Some (Some addr) => replica_on_validator_message m addr
  | Some None => ret tt
  | None => keep_pending m peer_id
  end.

(** [fn send_new_view] *)
Definition send_new_view : R unit :=
  let! st := asks storage in
  send_to_leader (new_message NewView (view st) None (Some (prepare_qc st))).

Definition replica_on_validator_registered (addr : Address) (peer_id : PeerId) : R unit :=
  let! current_leader := asks current_leader in
  do! (if decide (current_leader = Some addr) then send_new_view else ret tt) in
  let! messages := take_pending peer_id in
  for_each (λ m, replica_on_validator_message m addr) messages.

Definition replica_on_internal (m : InternalMessage) : R unit :=
  match m with
  | ValidatorRegistered addr peer_id => replica_on_validator_registered addr peer_id
  | IConsensusMessage m peer_id => replica_on_consensus_message m peer_id
  | _ => on_internal_message m
  end.

(** ** The observer *)

Definition observer_on_validator_message (m : ConsensusMessage) (addr : Address) : R unit :=
  if decide (cm_message_type m = NewView) then keep_new_view m addr else ret tt.

Definition observer_on_consensus_message (m : ConsensusMessage) (peer_id : PeerId) : R unit :=
  let! s := asks id in
  match from_member peer_id s with
  | Some (Some addr) => observer_on_validator_message m addr
  | Some None => ret tt
  | None => keep_pending m peer_id
  end.

Definition observer_on_validator_registered (addr : Address) (peer_id : PeerId) : R unit :=
  let! messages := take_pending peer_id in
  for_each (λ m, observer_on_validator_message m addr) messages.

Definition observer_on_internal (m : InternalMessage) : R unit :=
  match m with
  | ValidatorRegistered addr peer_id => observer_on_validator_registered addr peer_id
  | IConsensusMessage m peer_id => observer_on_consensus_message m peer_id
  | _ => on_internal_message m
  end.
End Roles.
