(* ===== verification/HotstuffNode.v ===== *)
(** * HotstuffNode

    The task of a node as a state machine: [HotStuffStream::spawn], [start] and
    [run_view] of [core/node/consensus/hotstuff/src/stream.rs] and the loops of
    [stream/state.rs].  An event is one branch of a [select!]: a message of a
    queue, the timeout, a tick of the scheduler. *)
From S2P Require Import Prelude Codec Types HotstuffModule SystemModule ConsensusSupport Engine HotstuffProtocol HotstuffAuthorities HotstuffStorage HotstuffVerifier HotstuffStream HotstuffState.

Section Node.
Context {SC : Scale} {CS : ConsensusSupport} {HO : HashOrder}.
Variable self : Setup.

(** The loop the task is in. *)
Inductive Role :=
| RLeader (l : LeaderState)
| RReplica
| RObserver.

(** The task in a loop, which was entered in [current_view]. *)
Record Worker := {
  role : Role;
  current_view : Z;
  worker_stream : HotStuffStream;
}.

Definition role_state (r : Role) : State :=
  match r with
  | RLeader _ => Leader
  | RReplica => Replica
  | RObserver => Observer
  end.

(** [run_view] up to the loop of the role. *)
Definition run_view : R (Role * Z) :=
  let! s := asks id in
  match compute_leader s with
  | None => panic
  | Some current_leader =>
      do! (if decide (address self = current_leader) then update_state self Leader
           else update_state self Replica) in
      do! update_current_leader (Some current_leader) in
      let! s := asks id in
      let current_view := view (storage s) in
      match state s with
      | Leader => let! l := leader_start self in ret (RLeader l, current_view)
      | Replica => do! send_new_view in ret (RReplica, current_view)
      | Observer => ret (RObserver, current_view)
      end
  end.

(** The top of an inner loop: the task ends when it is shut down, runs the
    next view when the view has changed, and waits otherwise. *)
Fixpoint settle (fuel : nat) (r : Role) (current_view : Z) : R (option (Role * Z)) :=
  let! s := asks id in
  if shutdown s then ret None
  else if decide (view (storage s) = current_view) then
    do! match r with
        | RObserver => ret tt
        | _ => let! _ := get_next_timeout_instant self in ret tt
        end in
    ret (Some (r, current_view))
  else
    match fuel with
    | 0 => ret None
    | S fuel =>
        let! (r, current_view) := run_view in
        settle fuel r current_view
    end.

(** An event changes the view at most once. *)
Definition LOOPS : nat := 1.

(** A handler whose errors are logged. *)
Definition leader_handler (l : LeaderState) (m : L unit) : R Role := λ s,
  match m (l, s) with
  | (Ok _, (l, s)) | (Err (Fail _), (l, s)) => (Ok (RLeader l), s)
  | (Err Panic, (_, s)) => (Err Panic, s)
  end.
Definition stream_handler (r : Role) (m : R unit) : R Role := do! or_warn m in ret r.

Inductive Event :=
| EvIn (m : ConsensusInMessage)
| EvInClosed
| EvInternal
| EvTimeout
| EvSchedule (timestamp : Z).

(** The first message of the internal queue. *)
Definition take_internal : R (option InternalMessage) := λ s,
  match internal s with
  | m :: rest => (Ok (Some m), with_internal rest s)
  | [] => (Ok None, s)
  end.

Definition on_internal (r : Role) : R Role :=
  let! m := take_internal in
  match m with
  | None => ret r
  | Some m =>
      match r with
      | RLeader l => leader_handler l (leader_on_internal self m)
      | RReplica => stream_handler r (replica_on_internal self m)
      | RObserver => stream_handler r (observer_on_internal m)
      end
  end.

Definition elapsed (s : HotStuffStream) : bool :=
  match next_timeout_instant s with
  | Some inst => bool_decide (inst ≤ now s)%Z
  | None => false
  end.

(** One branch of the [select!] of the role; an event that is not enabled
    does nothing.  An error of [on_timeout] ends the task. *)
Definition handle (ev : Event) (r : Role) : R Role :=
  match ev, r with
  | EvIn m, _ => stream_handler r (on_in_message self m)
  | EvInClosed, _ => do! modify (with_shutdown true) in ret r
  | EvInternal, _ => on_internal r
  | EvTimeout, RObserver => ret r
  | EvTimeout, _ =>
      let! elapsed := asks elapsed in
      if elapsed : bool then do! on_timeout self in ret r else ret r
  | EvSchedule timestamp, RLeader l => leader_handler l (try_work self (Some timestamp) None)
  | EvSchedule _, _ => ret r
  end.

(** The task waits for an event, or has ended and left its storage. *)
Inductive Task :=
| Running (w : Worker)
| Ended (s : HotStuffStream)
| NotStarted.

Definition finish (m : result Failure (option (Role * Z)) * HotStuffStream) : Task :=
  match m with
  | (Ok (Some (r, v)), s) => Running (Build_Worker r v s)
  | (_, s) => Ended s
  end.

Definition step (ev : Event) (w : Worker) : Task :=
  finish ((let! r := handle ev (role w) in settle LOOPS r (current_view w)) (worker_stream w)).

(** [HotStuffStream::spawn], over the data on disk. *)
Definition stream_new (w : World) (storage : Storage) (authorities last : HotstuffModule.Authorities)
    (now : Instant) (draws : list Z) : HotStuffStream := {|
  support := w; storage := storage; peers := ∅; known_validators := ∅; next_request_id := 0%Z;
  next_timeout_instant := None; current_leader := None; state := Observer;
  authorities := authorities; last_authorities := last; internal := [];
  commit_block_params := None; pending_consensus_messages := ∅;
  pending_new_view_messages := []; timeout_message_collector := ∅; timeout_tc := None;
  shutdown := false; out := []; now := now; draws := draws |}.

Definition start : R (option (Role * Z)) :=
  do! update_next_timeout_instant self (default DEFAULT_INIT_EXTRA_TIMEOUT (init_extra_timeout self)) in
  let! (r, current_view) := run_view in
  settle LOOPS r current_view.

Definition spawn (w : World) (data : HotstuffData) (disk : list (option CommonError))
    (now : Instant) (draws : list Z) : Task :=
  match storage_new data disk w with
  | (Ok _, Some st) =>
      let confirmed_number := confirmed_number (get_current_state w) in
      let last_confirmed_number :=
        if decide (confirmed_number > 0)%Z then (confirmed_number - 1)%Z else 0%Z in
      match get_hotstuff_authorities w confirmed_number,
            get_hotstuff_authorities w last_confirmed_number with
      | Some (Ok authorities), Some (Ok last) =>
          finish (start (stream_new w st authorities last now draws))
      | _, _ => NotStarted
      end
  | _ => NotStarted
  end.
End Node.

(** ** Concrete nodes

    Concrete hotstuff nodes, on which the theorems about the engine are
    applied: the only authority of a chain, and an authority of a chain of
    four. *)
#[export] Existing Instance FrameScale.scale.
#[export] Existing Instance sample_support.
#[export] Existing Instance key_order.

(** The node with the secret key [k]. *)
Definition setup (k : string) : Setup :=
  Build_Setup (HotstuffModule.Build_Meta (Some 1000%Z) 100) (Some 0%Z) (b k) (b k) (b k).

Definition members_of (l : list string) : HotstuffModule.Authorities :=
  HotstuffModule.Build_Authorities ((λ x, (b x, 1%Z)) <$> l).
Definition world_of (l : list string) : World :=
  sample_genesis [("get_authorities", encode HotstuffModule.codec_authorities (members_of l))].

Definition world_one : World := world_of ["A"].
Definition world_four : World := world_of ["A"; "B"; "C"; "D"].

Definition started (k : string) (w : World) : Task := spawn (setup k) w empty_data [] 0 [].

Definition handle_all (k : string) (evs : list Event) (t : Task) : Task :=
  foldl (λ t ev, match t with Running n => step (setup k) ev n | _ => t end) t evs.

Definition task_stream (t : Task) : option HotStuffStream :=
  match t with
  | Running w => Some (worker_stream w)
  | Ended s => Some s
  | NotStarted => None
  end.

(** The waiting task; a task that has ended is not used. *)
Definition genesis_storage : Storage :=
  let qc := Build_QC Decide 0 (Build_Node [] []) [] [] in
  Build_Storage qc [] 0 qc qc ∅ ∅ empty_data [].
Definition get_worker (t : Task) : Worker :=
  match t with
  | Running w => w
  | _ => Build_Worker RObserver 0
           (stream_new world_one genesis_storage (members_of []) (members_of []) 0 [])
  end.

Definition is_running (t : Task) : bool := match t with Running _ => true | _ => false end.

Lemma running_worker t : is_running t = true → t = Running (get_worker t).
Proof. by destruct t. Qed.

(** A peer connects as the validator [addr]. *)
Definition connect (addr : string) : list Event :=
  [EvIn (NetworkProtocolOpen (b addr) 1 2);
   EvIn (NetworkMessage (b addr) (encode codec_hotstuff_message
     (MRegisterValidatorReq (Build_RegisterValidatorReq 0 (b addr) []))));
   EvInternal].

Definition receive (peer : string) (m : HotStuffMessage) : Event :=
  EvIn (NetworkMessage (b peer) (encode codec_hotstuff_message m)).

(** Block [1] with a timestamp, over the genesis block. *)
Definition sample_proposal (timestamp : Z) : Proposal := {|
  p_parent_hash := sample_hash 0 0; p_block_hash := sample_hash 1 timestamp; p_number := 1;
  p_timestamp := timestamp; p_meta_txs := []; p_payload_txs := []; p_execution_number := 0 |}.
Definition sample_node (timestamp : Z) : Node :=
  Build_Node (sample_hash 0 0) (sample_hash 1 timestamp).
Definition genesis_certificate : QC :=
  Build_QC Decide 0 (Build_Node [] (sample_hash 0 0)) (b "A") [].
Definition prepare_for (timestamp : Z) : ConsensusMessage :=
  Build_ConsensusMessage 0 Prepare 1 (Some (sample_node timestamp)) (Some genesis_certificate) None.

(** The leader sends a proposal, and asks for votes for it. *)
Definition propose (leader : string) (timestamp : Z) : list Event :=
  [receive leader (MRequestProposalRes (Build_RequestProposalRes 0 (Some (sample_proposal timestamp))));
   EvInternal; receive leader (MConsensusMessage (prepare_for timestamp)); EvInternal].
