(* ===== verification/HotstuffQuorum.v ===== *)
(** * HotstuffQuorum

    What a certificate of the hotstuff engine proves: the aggregation of the
    authorities, the weight a certificate needs, and the intersection of two
    certificates. *)
From S2P Require Import Prelude Codec Types HotstuffModule ConsensusSupport Engine HotstuffProtocol HotstuffAuthorities HotstuffStorage HotstuffVerifier HotstuffStream HotstuffState HotstuffNode.

(** ** The aggregation of the authorities *)

(** The weight that a list of members gives to an address. *)
Definition weight_in (members : Members) (addr : Address) : Z :=
  sumZ (λ x, if decide (x.1 = addr) then x.2 else 0%Z) members.

Lemma weight_in_cons a w members addr :
  weight_in ((a, w) :: members) addr =
  ((if decide (a = addr) then w else 0) + weight_in members addr)%Z.
Proof. done. Qed.

Lemma weight_in_notin members addr : addr ∉ members.*1 → weight_in members addr = 0%Z.
Proof.
  induction members as [|[a w] members IH]; [done|]. rewrite weight_in_cons.
  intros [Ha Hn]%not_elem_of_cons. rewrite decide_False by done. rewrite IH by done. lia.
Qed.

Lemma weight_in_elem members a w :
  NoDup members.*1 → (a, w) ∈ members → weight_in members a = w.
Proof.
  induction members as [|[a' w'] members IH]; [by intros _ ?%not_elem_of_nil|].
  rewrite weight_in_cons. intros [Hn Hnd]%NoDup_cons [[= -> ->]|Hin]%elem_of_cons.
  - rewrite decide_True, weight_in_notin by done. lia.
  - rewrite decide_False; [by apply IH|]. intros ->. apply Hn. apply list_elem_of_fmap.
    by exists (a, w).
Qed.

Lemma add_weight_keys ms a w :
  (add_weight ms a w).*1 = if decide (a ∈ ms.*1) then ms.*1 else ms.*1 ++ [a].
Proof.
  induction ms as [|[a' w'] ms IH]; cbn [add_weight].
  { by rewrite decide_False by apply not_elem_of_nil. }
  destruct (decide (a' = a)) as [Heq|Hne]; rewrite !fmap_cons; cbn [fst].
  - subst. rewrite decide_True; [done|]. by left.
  - rewrite IH. destruct (decide (a ∈ ms.*1)) as [Hin|Hin].
    + rewrite decide_True; [done|]. by right.
    + rewrite decide_False; [done|]. by intros [->|]%elem_of_cons.
Qed.

(** The weights of an aggregate, in [u32], over the members counted so far. *)
Definition aggregates (counted ms : Members) : Prop :=
  NoDup ms.*1 ∧
  (∀ a, a ∈ ms.*1 ↔ ∃ w, (a, w) ∈ counted ∧ (0 < w)%Z) ∧
  (∀ a w, (a, w) ∈ ms → w = u32 (weight_in counted a)).

Lemma add_weight_elem ms a w a' w' : NoDup ms.*1 → (a', w') ∈ add_weight ms a w →
  (a' ≠ a ∧ (a', w') ∈ ms) ∨
  (a' = a ∧ (((a ∉ ms.*1) ∧ w' = w) ∨ ∃ w0, (a, w0) ∈ ms ∧ w' = u32 (w0 + w))).
Proof.
  induction ms as [|[a0 w0] ms IH]; cbn [add_weight].
  - intros _ [[= -> ->]|[]%not_elem_of_nil]%elem_of_cons. right. split; [done|]. left.
    split; [apply not_elem_of_nil|done].
  - intros [Hn Hnd]%NoDup_cons. case_decide as Heq.
    + subst. intros [[= -> ->]|Hin]%elem_of_cons.
      * right. split; [done|]. right. exists w0. split; [by left|done].
      * left. split; [|by right]. intros ->. apply Hn, list_elem_of_fmap. by exists (a, w').
    + intros [[= -> ->]|Hin]%elem_of_cons; [left; split; [done|by left]|].
      destruct (IH Hnd Hin) as [[Hne Hin']|[-> [[Hn' ->]|(w1 & Hin' & ->)]]].
      * left. split; [done|by right].
      * right. split; [done|]. left. split; [|done].
        intros [Ha|Ha]%elem_of_cons; [by apply Heq|by apply Hn'].
      * right. split; [done|]. right. exists w1. split; [by right|done].
Qed.

Lemma aggregate_step counted ms a w :
  is_u32 w → (∀ a' w', (a', w') ∈ counted → (0 ≤ w')%Z) → aggregates counted ms →
  aggregates (counted ++ [(a, w)]) (if decide (w > 0)%Z then add_weight ms a w else ms).
Proof.
  intros Hw Hpos (Hnd & Hkeys & Hws).
  assert (∀ a', weight_in (counted ++ [(a, w)]) a' =
                (weight_in counted a' + if decide (a = a') then w else 0)%Z) as Hadd.
  { intros a'. unfold weight_in. rewrite sumZ_app. simpl. lia. }
  assert (∀ a', (∃ w', (a', w') ∈ counted ++ [(a, w)] ∧ (0 < w')%Z) ↔
                (∃ w', (a', w') ∈ counted ∧ (0 < w')%Z) ∨ (a' = a ∧ (0 < w)%Z)) as Hex.
  { intros a'. split.
    - intros (w' & [Hin|[= -> ->]%list_elem_of_singleton]%elem_of_app & Hp); eauto.
    - intros [(w' & Hin & Hp)|[-> Hp]]; [exists w'|exists w]; split; try done;
        apply elem_of_app; [by left|right; by apply list_elem_of_singleton]. }
  case_decide as Hgt.
  - split_and!.
    + rewrite add_weight_keys. case_decide; [done|]. apply NoDup_app. split_and!;
        [done| |apply NoDup_singleton]. by intros x Hx ->%list_elem_of_singleton.
    + intros a'. rewrite Hex, <-Hkeys, add_weight_keys.
      case_decide; [|rewrite elem_of_app, list_elem_of_singleton]; intuition (subst; auto; lia).
    + intros a' w' Hin%add_weight_elem; [|done]. rewrite Hadd.
      destruct Hin as [[Hne Hin]|[-> [[Hn ->]|(w0 & Hin & ->)]]].
      * rewrite decide_False by done. rewrite Z.add_0_r. by apply Hws.
      * rewrite decide_True by done. replace (weight_in counted a) with 0%Z.
        { by rewrite Z.add_0_l, u32_id. }
        symmetry. rewrite Hkeys in Hn. apply sumZ_zero.
        intros [a' w'] Hin. simpl. case_decide; [|done]. subst.
        pose proof (Hpos _ _ Hin). assert (¬ (0 < w')%Z); [|lia]. intros ?. apply Hn. eauto.
      * rewrite decide_True by done. rewrite (Hws _ _ Hin).
        unfold u32. by rewrite Zplus_mod_idemp_l.
  - assert (w = 0%Z) as -> by (unfold is_u32 in Hw; lia). split_and!; [done|..].
    + intros a'. rewrite Hex, Hkeys. intuition lia.
    + intros a' w' Hin. rewrite Hadd, (Hws _ _ Hin). f_equal. case_decide; lia.
Qed.

Lemma aggregate_members_aggregates members :
  Forall (λ x, is_u32 x.2) members → aggregates members (aggregate_members members).
Proof.
  unfold aggregate_members. induction members as [|[a w] members IH] using rev_ind.
  { intros _. split_and!; simpl; [constructor| |by intros ?? ?%not_elem_of_nil].
    intros a. split; [by intros ?%not_elem_of_nil|by intros (? & ?%not_elem_of_nil & _)]. }
  intros [Hall Hw]%Forall_app. apply (Forall_inv (P := λ x, is_u32 x.2)) in Hw. rewrite foldl_app.
  cbn [foldl fst snd]. apply aggregate_step; [done| |by apply IH].
  intros a' w' Hin. rewrite Forall_forall in Hall. specialize (Hall _ Hin).
  unfold is_u32 in Hall. simpl in Hall. lia.
Qed.

Lemma add_weight_total ms a w : u32 (sumZ snd (add_weight ms a w)) = u32 (sumZ snd ms + w).
Proof.
  induction ms as [|[a0 w0] ms IH]; cbn [add_weight].
  - cbn. f_equal. lia.
  - case_decide; cbn [sumZ foldr snd].
    + unfold u32. rewrite Zplus_mod_idemp_l. f_equal. lia.
    + change (foldr _ _ ?l) with (sumZ snd l). unfold u32 in *.
      rewrite <-Zplus_mod_idemp_r, IH, Zplus_mod_idemp_r. f_equal. lia.
Qed.

Lemma aggregate_members_total members :
  Forall (λ x, is_u32 x.2) members →
  u32 (sumZ snd (aggregate_members members)) = u32 (sumZ snd members).
Proof.
  unfold aggregate_members. induction members as [|[a w] members IH] using rev_ind; [done|].
  intros [Hall Hw]%Forall_app. apply (Forall_inv (P := λ x, is_u32 x.2)) in Hw.
  rewrite foldl_app, sumZ_app. specialize (IH Hall).
  change (sumZ snd [(a, w)]) with (w + 0)%Z. cbn [foldl fst snd].
  case_decide as Hgt.
  - rewrite add_weight_total, Z.add_0_r. unfold u32 in *.
    by rewrite <-Zplus_mod_idemp_l, IH, Zplus_mod_idemp_l.
  - rewrite IH. f_equal. unfold is_u32 in Hw. cbn [snd] in Hw. lia.
Qed.

(** The authorities of the engine are the addresses that are given some
    positive weight, each once, with the sum of its weights in [u32], and
    their total weight is that of the members. *)
Theorem aggregate_reference a :
  Forall (λ x, is_u32 x.2) (HotstuffModule.authority_members a) →
  let members := HotstuffModule.authority_members a in
  let new_members := HotstuffModule.authority_members (aggregate_authorities a) in
  NoDup new_members.*1 ∧
  (∀ addr, addr ∈ new_members.*1 ↔ ∃ w, (addr, w) ∈ members ∧ (0 < w)%Z) ∧
  (∀ addr w, (addr, w) ∈ new_members → w = u32 (weight_in members addr)) ∧
  total_members (aggregate_authorities a) = total_members a.
Proof.
  intros Hall. destruct (aggregate_members_aggregates _ Hall) as (Hnd & Hkeys & Hws).
  split_and!; [done..|]. unfold total_members. rewrite !fold_u32_mod.
  by apply aggregate_members_total.
Qed.

(** ** The weight of a set of addresses *)

(** Authorities as [get_hotstuff_authorities] returns them for a chain whose
    total weight fits in [u32]. *)
Record electable (a : HotstuffModule.Authorities) : Prop := {
  electable_distinct : NoDup (HotstuffModule.authority_members a).*1;
  electable_positive : ∀ addr w, (addr, w) ∈ HotstuffModule.authority_members a → (0 < w)%Z;
  electable_total : (0 < sumZ snd (HotstuffModule.authority_members a) < 2 ^ 32)%Z;
}.

Lemma electable_iff a : electable a ↔
  NoDup (HotstuffModule.authority_members a).*1 ∧
  Forall (λ x, 0 < x.2)%Z (HotstuffModule.authority_members a) ∧
  (0 < sumZ snd (HotstuffModule.authority_members a) < 2 ^ 32)%Z.
Proof.
  rewrite Forall_forall. split.
  - intros [H1 H2 H3]. split_and!; [done| |apply H3..]. intros [x w] Hx. exact (H2 x w Hx).
  - intros (H1 & H2 & H3). split; [done|intros x w Hx; exact (H2 _ Hx)|done].
Qed.
#[export] Instance electable_dec a : Decision (electable a).
Proof.
  refine (cast_if (decide (NoDup (HotstuffModule.authority_members a).*1 ∧
    Forall (λ x, 0 < x.2)%Z (HotstuffModule.authority_members a) ∧
    (0 < sumZ snd (HotstuffModule.authority_members a) < 2 ^ 32)%Z))); by rewrite electable_iff.
Defined.

(** The weight of an address, zero for those that are not authorities. *)
Definition weight_of (a : HotstuffModule.Authorities) (addr : Address) : Z :=
  default 0%Z (member_weight a !! addr).

(** [f], the weight that may be faulty. *)
Definition faulty (a : HotstuffModule.Authorities) : Z :=
  ((sumZ snd (HotstuffModule.authority_members a) - 1) / 3)%Z.

Section Weights.
Variable a : HotstuffModule.Authorities.
Hypothesis Ha : electable a.
Abbreviation members := (HotstuffModule.authority_members a).
Abbreviation n := (sumZ snd members).

Lemma total_members_exact : total_members a = n.
Proof. apply fold_u32_exact. unfold is_u32. pose proof (electable_total _ Ha). lia. Qed.

Lemma quorum_exact : quorum a = (n - faulty a)%Z.
Proof.
  pose proof (electable_total _ Ha) as Ht. unfold quorum, faulty. rewrite total_members_exact.
  rewrite (u32_id (n - 1)) by (unfold is_u32; lia).
  apply u32_id. unfold is_u32.
  pose proof (Z.div_le_upper_bound (n - 1) 3 (n - 1)).
  pose proof (Z.div_pos (n - 1) 3). lia.
Qed.

Lemma weight_of_elem addr w : (addr, w) ∈ members → weight_of a addr = w.
Proof.
  intros Hin. unfold weight_of, member_weight.
  by rewrite (collect_NoDup _ _ _ (electable_distinct _ Ha) Hin).
Qed.
Lemma weight_of_notin addr : addr ∉ members.*1 → weight_of a addr = 0%Z.
Proof.
  intros Hn. unfold weight_of, member_weight. destruct (collect members !! addr) eqn:E; [|done].
  destruct Hn. apply collect_is_Some. by exists z.
Qed.
Lemma member_weight_nonneg addr : (0 ≤ weight_of a addr)%Z.
Proof.
  destruct (decide (addr ∈ members.*1)) as [Hin|Hn]; [|by rewrite weight_of_notin].
  apply list_elem_of_fmap in Hin as ([x w] & -> & Hin).
  simpl. rewrite (weight_of_elem _ _ Hin). pose proof (electable_positive _ Ha _ _ Hin). lia.
Qed.
Lemma weight_of_positive addr : (0 < weight_of a addr)%Z ↔ addr ∈ members.*1.
Proof.
  split; [|intros ([x w] & -> & Hin)%list_elem_of_fmap].
  - intros Hp. destruct (decide (addr ∈ members.*1)); [done|].
    rewrite weight_of_notin in Hp by done. lia.
  - simpl. rewrite (weight_of_elem _ _ Hin). by apply (electable_positive _ Ha x).
Qed.

Lemma total_weight : sumZ (weight_of a) members.*1 = n.
Proof.
  assert (∀ l, (∀ x, x ∈ l → x ∈ members) → sumZ (weight_of a) l.*1 = sumZ snd l) as Hl.
  { induction l as [|[x w] l IH]; intros Hsub; [done|]. rewrite fmap_cons.
    cbn [sumZ foldr fst snd]. change (foldr _ _ ?k) with (sumZ (weight_of a) k) at 1.
    rewrite IH by (intros; apply Hsub; by right). rewrite (weight_of_elem x w); [done|].
    apply Hsub. by left. }
  by apply Hl.
Qed.

(** Distinct addresses count once for each authority among them. *)
Lemma weight_indicator l : NoDup l →
  sumZ (weight_of a) l = sumZ (λ x, if decide (x ∈ l) then weight_of a x else 0%Z) members.*1.
Proof.
  induction l as [|x l IH]; intros Hnd.
  { symmetry. apply sumZ_zero. intros y _. by rewrite decide_False by apply not_elem_of_nil. }
  apply NoDup_cons in Hnd as [Hn Hnd].
  change (sumZ (weight_of a) (x :: l)) with (weight_of a x + sumZ (weight_of a) l)%Z.
  rewrite IH by done. set (f := λ y, if decide (y ∈ l) then weight_of a y else 0%Z).
  set (g := λ y, if decide (y ∈ x :: l) then weight_of a y else 0%Z).
  assert (∀ y, y ≠ x → g y = f y) as Hfg.
  { intros y Hy. unfold f, g. repeat case_decide; set_solver. }
  assert (f x = 0%Z) as Hfx by (unfold f; by rewrite decide_False).
  assert (g x = weight_of a x) as Hgx by (unfold g; rewrite decide_True; [done|by left]).
  destruct (decide (x ∈ members.*1)) as [Hin|Hout].
  - rewrite (sumZ_update f g x) by (done || apply Ha). lia.
  - rewrite (weight_of_notin _ Hout), (sumZ_ext g f); [lia|].
    intros y Hy. apply Hfg. by intros ->.
Qed.

Lemma weight_bound l : NoDup l → (0 ≤ sumZ (weight_of a) l ≤ n)%Z.
Proof.
  intros Hnd. split; [apply sumZ_nonneg; intros; apply member_weight_nonneg|].
  rewrite weight_indicator, <-total_weight by done.
  apply sumZ_le. intros x _. pose proof (member_weight_nonneg x). case_decide; lia.
Qed.

(** Two sets of addresses that reach the quorum have more than the faulty
    weight in common. *)
Lemma quorums_intersect l1 l2 :
  NoDup l1 → NoDup l2 →
  (quorum a ≤ sumZ (weight_of a) l1)%Z → (quorum a ≤ sumZ (weight_of a) l2)%Z →
  (faulty a < sumZ (weight_of a) (filter (λ x, x ∈ l2) l1))%Z.
Proof.
  intros H1 H2 Hq1 Hq2. rewrite quorum_exact in *.
  assert (NoDup (filter (λ x, x ∈ l2) l1)) as H12 by by apply NoDup_filter.
  rewrite weight_indicator in Hq1, Hq2 |- * by done.
  assert (sumZ (λ x, (if decide (x ∈ l1) then weight_of a x else 0) +
                     (if decide (x ∈ l2) then weight_of a x else 0))%Z members.*1 ≤
          sumZ (λ x, weight_of a x +
                     (if decide (x ∈ filter (λ x, x ∈ l2) l1) then weight_of a x else 0))%Z
               members.*1)%Z as Hle.
  { apply sumZ_le. intros x _. pose proof (member_weight_nonneg x).
    assert ((x ∈ filter (λ x, x ∈ l2) l1) ↔ (x ∈ l2) ∧ (x ∈ l1)) as Hx.
    { split; [by intros [? ?]%list_elem_of_filter|]. intros [? ?]. by apply list_elem_of_filter. }
    repeat case_decide; try lia; tauto. }
  rewrite !sumZ_add, total_weight in Hle. unfold faulty in *.
  pose proof (electable_total _ Ha). pose proof (Z.mul_div_le (n - 1) 3). lia.
Qed.
End Weights.

(** ** Certificates *)
Section Certificates.
Context {SC : Scale} {CS : ConsensusSupport}.
Variable a : HotstuffModule.Authorities.
Hypothesis Ha : electable a.

(** Who signed, by the addresses of the public keys. *)
Definition signer (s : PublicKey * Signature) : Address := support_address s.1.
Definition signers (sigs : list (PublicKey * Signature)) : list Address := signer <$> sigs.
Definition signed (msg : bytes) (s : PublicKey * Signature) : Prop :=
  verify_signature msg s.1 s.2 = Ok tt.

Lemma signed_weight_ok msg sigs total total' :
  signed_weight (member_weight a) msg sigs total = Ok total' →
  Forall (signed msg) sigs ∧ u32 total' = u32 (total + sumZ (weight_of a) (signers sigs)).
Proof.
  revert total. induction sigs as [|[pk sg] sigs IH]; intros total; cbn [signed_weight].
  - intros [= <-]. split; [constructor|]. cbn. by rewrite Z.add_0_r.
  - destruct (verify_signature msg pk sg) as [[]|e] eqn:Hv; [|done]. cbn [map_err result_bind].
    intros [Hall Hw]%IH. split; [by constructor|]. rewrite Hw. unfold signers.
    rewrite fmap_cons, sumZ_cons. unfold weight_of at 2, signer at 2. cbn [fst].
    destruct (member_weight a !! _) as [w|]; cbn [default].
    + unfold u32. rewrite Zplus_mod_idemp_l. f_equal. unfold id. lia.
    + f_equal.
Qed.

Lemma signed_weight_run msg sigs total :
  Forall (signed msg) sigs →
  ∃ total', signed_weight (member_weight a) msg sigs total = Ok total' ∧
            (is_u32 total → is_u32 total').
Proof.
  revert total. induction sigs as [|[pk sg] sigs IH]; intros total Hall; cbn [signed_weight].
  { by exists total. }
  apply Forall_cons in Hall as [Hs Hall]. unfold signed in Hs. cbn [fst snd] in Hs. rewrite Hs.
  cbn [map_err result_bind].
  destruct (IH (match member_weight a !! support_address pk with
                | Some weight => u32 (total + weight) | None => total end) Hall) as (t & -> & Ht).
  exists t. split; [done|]. intros Hu. apply Ht. destruct (member_weight a !! _); [|done].
  apply u32_range.
Qed.

(** What [verify_qc] and [verify_tc] require of the signatures: each verifies,
    and their weights, added in [u32] and once for every occurrence, reach the
    quorum. *)
Lemma verify_weight_spec msg sigs :
  verify_weight a msg sigs = Ok tt ↔
  Forall (signed msg) sigs ∧ (quorum a ≤ u32 (sumZ (weight_of a) (signers sigs)))%Z.
Proof.
  unfold verify_weight. split.
  - destruct (signed_weight _ _ _ _) as [t|] eqn:Hs; [|done]. cbn [result_bind].
    case_decide as Hlt; [done|]. intros _. pose proof Hs as [Hall Hw]%signed_weight_ok.
    split; [done|]. destruct (signed_weight_run msg sigs 0 Hall) as (t' & Ht' & Hu).
    rewrite Hs in Ht'. injection Ht' as <-. rewrite Z.add_0_l in Hw. rewrite <-Hw, u32_id.
    + lia.
    + by apply Hu.
  - intros [Hall Hq]. destruct (signed_weight_run msg sigs 0 Hall) as (t & Ht & Hu). rewrite Ht.
    pose proof Ht as [_ Hw]%signed_weight_ok. cbn [result_bind]. rewrite decide_False; [done|].
    rewrite Z.add_0_l in Hw. rewrite <-(u32_id t), Hw by by apply Hu. lia.
Qed.

(** Certificates whose signers are distinct carry the weight of a set. *)
Lemma verify_weight_distinct msg sigs : NoDup (signers sigs) →
  verify_weight a msg sigs = Ok tt ↔
  Forall (signed msg) sigs ∧ (quorum a ≤ sumZ (weight_of a) (signers sigs))%Z.
Proof.
  intros Hnd. rewrite verify_weight_spec, u32_id; [done|].
  pose proof (weight_bound a Ha _ Hnd). pose proof (electable_total _ Ha). unfold is_u32. lia.
Qed.

Lemma verify_qc_weight qc expected : verify_qc qc expected a = Ok tt → qc_view qc ≠ 0%Z →
  (∀ t, expected = Some t → qc_message_type qc = t) ∧
  verify_weight a (vote_message (qc_message_type qc) (qc_view qc) (Some (qc_node qc))
                     (qc_leader_address qc)) (qc_sig qc) = Ok tt.
Proof.
  intros Hv Hz. unfold verify_qc in Hv. rewrite decide_False in Hv by done.
  destruct expected as [t|]; cbn [result_bind] in Hv.
  - case_decide as Ht; [done|]. cbn [result_bind] in Hv.
    split; [|done]. by intros ? [= <-].
  - by split.
Qed.

(** C30: two certificates that the same authorities accept, whose view is not
    zero and neither of which counts a signer twice, were both signed by
    authorities with more than the faulty weight, so that some correct
    authority signed both. *)
Theorem quorum_certificates_intersect qc1 qc2 e1 e2 :
  verify_qc qc1 e1 a = Ok tt → verify_qc qc2 e2 a = Ok tt →
  qc_view qc1 ≠ 0%Z → qc_view qc2 ≠ 0%Z →
  NoDup (signers (qc_sig qc1)) → NoDup (signers (qc_sig qc2)) →
  ∃ common, NoDup common ∧ (faulty a < sumZ (weight_of a) common)%Z ∧
    ∀ addr, addr ∈ common → ∃ s1 s2, s1 ∈ qc_sig qc1 ∧ s2 ∈ qc_sig qc2 ∧
      signer s1 = addr ∧ signer s2 = addr ∧
      signed (vote_message (qc_message_type qc1) (qc_view qc1) (Some (qc_node qc1))
                (qc_leader_address qc1)) s1 ∧
      signed (vote_message (qc_message_type qc2) (qc_view qc2) (Some (qc_node qc2))
                (qc_leader_address qc2)) s2.
Proof.
  intros H1 H2 Hz1 Hz2 Hd1 Hd2.
  apply verify_qc_weight in H1 as [_ H1], H2 as [_ H2]; [|done..].
  apply verify_weight_distinct in H1 as [Hs1 Hq1]; [|done].
  apply verify_weight_distinct in H2 as [Hs2 Hq2]; [|done].
  exists (filter (λ x, x ∈ signers (qc_sig qc2)) (signers (qc_sig qc1))).
  split; [by apply NoDup_filter|]. split; [by apply quorums_intersect|].
  intros addr [Hin2 Hin1]%list_elem_of_filter.
  apply list_elem_of_fmap in Hin1 as (s1 & -> & Hin1), Hin2 as (s2 & Heq & Hin2).
  rewrite Forall_forall in Hs1, Hs2. exists s1, s2. by split_and!; auto.
Qed.

(** The engine does not look for repeated signers, and accepts every
    certificate of view zero.  A single authority of any positive weight makes
    a certificate of any kind, for any view and node that it signs, by
    repeating its signature; and a certificate of view zero needs no
    signature at all. *)
Theorem forged_certificates message_type view node leader_address pk sg :
  support_address pk ∈ (HotstuffModule.authority_members a).*1 →
  (2 * sumZ snd (HotstuffModule.authority_members a) < 2 ^ 32)%Z →
  signed (vote_message message_type view (Some node) leader_address) (pk, sg) →
  (∃ k, verify_qc (Build_QC message_type view node leader_address (replicate k (pk, sg)))
          (Some message_type) a = Ok tt) ∧
  (∀ expected, verify_qc (Build_QC message_type 0 node leader_address []) expected a = Ok tt).
Proof.
  intros Hm Ht Hs. split; [|done].
  set (w := weight_of a (support_address pk)).
  assert (0 < w)%Z as Hw by by apply weight_of_positive.
  assert (w ≤ sumZ snd (HotstuffModule.authority_members a))%Z as Hwn.
  { pose proof (weight_bound a Ha [support_address pk] (NoDup_singleton _)) as Hb.
    cbn in Hb. fold w in Hb. lia. }
  assert (0 ≤ faulty a)%Z by (apply Z.div_pos; pose proof (electable_total _ Ha); lia).
  set (k := Z.to_nat (quorum a / w + 1)).
  exists k. unfold verify_qc. case_decide as Hz; [done|]. cbn [qc_message_type].
  rewrite decide_False by (intros H'; by apply H'). cbn [result_bind qc_view qc_node qc_sig
    qc_leader_address]. apply verify_weight_spec. split; [by apply Forall_replicate|].
  assert (sumZ (weight_of a) (signers (replicate k (pk, sg))) = Z.of_nat k * w)%Z as ->.
  { clear Hz. clearbody k. unfold signers. induction k as [|k IH]; [done|].
    cbn [replicate]. rewrite fmap_cons.
    rewrite sumZ_cons, IH. unfold w, signer. cbn [fst]. lia. }
  assert (0 ≤ quorum a)%Z by (rewrite quorum_exact by done; unfold faulty in *;
    pose proof (Z.mul_div_le (sumZ snd (HotstuffModule.authority_members a) - 1) 3); lia).
  assert (Z.of_nat k = quorum a / w + 1)%Z as ->.
  { unfold k. rewrite Z2Nat.id; [done|]. pose proof (Z.div_pos (quorum a) w). lia. }
  pose proof (Z.div_mod (quorum a) w). pose proof (Z.mod_pos_bound (quorum a) w Hw).
  assert (quorum a ≤ sumZ snd (HotstuffModule.authority_members a))%Z
    by (rewrite quorum_exact by done; lia).
  rewrite u32_id by (unfold is_u32; nia). nia.
Qed.
End Certificates.

(** ** Concrete authorities *)

(** An address twice, and one without weight. *)
Definition repeated : HotstuffModule.Authorities :=
  HotstuffModule.Build_Authorities [(b "A", 1%Z); (b "B", 2%Z); (b "C", 0%Z); (b "A", 3%Z)].
Definition four : HotstuffModule.Authorities := members_of ["A"; "B"; "C"; "D"].
Definition certificate_of (timestamp : Z) (sigs : list string) : QC :=
  Build_QC Prepare 1 (sample_node timestamp) (b "B") ((λ x, (b x, [])) <$> sigs).

Lemma aggregate_reference_witness :
  HotstuffModule.authority_members (aggregate_authorities repeated) = [(b "A", 4%Z); (b "B", 2%Z)] ∧
  total_members (aggregate_authorities repeated) = 6%Z.
Proof.
  split; [vm_compute; reflexivity|].
  destruct (aggregate_reference repeated) as (_ & _ & _ & Ht).
  - repeat constructor; intros H; discriminate H.
  - rewrite Ht. vm_compute. reflexivity.
Defined.

Lemma four_electable : electable four.
Proof. apply (bool_decide_unpack _). vm_compute. exact I. Qed.

Lemma quorum_certificates_intersect_witness :
  ∃ common, NoDup common ∧ (1 < sumZ (weight_of four) common)%Z ∧
    ∀ addr, addr ∈ common → addr ∈ signers (qc_sig (certificate_of 5 ["A"; "B"; "C"])) ∧
                            addr ∈ signers (qc_sig (certificate_of 6 ["B"; "C"; "D"])).
Proof.
  destruct (quorum_certificates_intersect four four_electable
    (certificate_of 5 ["A"; "B"; "C"]) (certificate_of 6 ["B"; "C"; "D"]) (Some Prepare) None)
    as (common & Hnd & Hw & H).
  - vm_compute. reflexivity.
  - vm_compute. reflexivity.
  - intros H. discriminate H.
  - intros H. discriminate H.
  - apply (bool_decide_unpack _). vm_compute. exact I.
  - apply (bool_decide_unpack _). vm_compute. exact I.
  - exists common. split; [exact Hnd|]. split; [exact Hw|]. intros addr Hin.
    destruct (H addr Hin) as (s1 & s2 & H1 & H2 & Hs1 & Hs2 & _).
    split; apply list_elem_of_fmap; [exists s1|exists s2]; split; [| exact H1| |exact H2]; symmetry.
    + exact Hs1.
    + exact Hs2.
Defined.

Lemma forged_certificates_witness :
  ∃ k, verify_qc (Build_QC Commit 9 (sample_node 5) (b "B") (replicate k (b "A", []))) (Some Commit) four = Ok tt.
Proof.
  apply (forged_certificates four four_electable Commit 9 (sample_node 5) (b "B") (b "A") []).
  - apply (bool_decide_unpack _). vm_compute. exact I.
  - vm_compute. reflexivity.
  - vm_compute. reflexivity.
Defined.

(** ** The collectors of certificates

    The collectors of votes: when a leader has collected votes for a node
    whose signers have the weight of a quorum, in whatever order the collector
    is iterated over, it makes a certificate, and everybody with the same
    authorities accepts it. *)
Section Collect.
Context {SC : Scale} {CS : ConsensusSupport} {HO : HashOrder}.

(** A vote of [addr] for a node: signed by it, to the leader of the view. *)
Record valid_vote (t : MessageType) (v : Z) (n : Node) (leader addr : Address)
    (m : ConsensusMessage) : Prop := {
  vote_type : cm_message_type m = t;
  vote_view : cm_view m = v;
  vote_node : cm_node m = Some n;
  vote_signed : ∃ s, cm_sig m = Some s ∧ signer s = addr ∧
                  signed (vote_message t v (Some n) leader) s;
}.

(** A certificate of a phase for a node: everything its signatures are
    checked against, and signers that are distinct and among [voters]. *)
Record certificate (a : HotstuffModule.Authorities) (t : MessageType) (v : Z) (n : Node)
    (leader : Address) (voters : Address → Prop) (qc : QC) : Prop := {
  certificate_type : qc_message_type qc = t;
  certificate_view : qc_view qc = v;
  certificate_node : qc_node qc = n;
  certificate_leader : qc_leader_address qc = leader;
  certificate_signers : NoDup (signers (qc_sig qc));
  certificate_voters : ∀ x, x ∈ signers (qc_sig qc) → voters x;
  certificate_verifies : ∀ expected, expected = None ∨ expected = Some t →
    verify_qc qc expected a = Ok tt;
}.

Section Votes.
Variables (a : HotstuffModule.Authorities) (t : MessageType) (v : Z) (n : Node)
  (leader : Address).
Hypothesis Ha : electable a.
Abbreviation votes_for := (λ x, valid_vote t v n leader x.1 x.2).
Abbreviation weight := (sumZ (weight_of a)).

Lemma collect_qc_spec messages total sigs :
  Forall votes_for messages → NoDup (signers sigs ++ messages.*1) →
  total = weight (signers sigs) → (total < quorum a)%Z →
  Forall (signed (vote_message t v (Some n) leader)) sigs →
  let r := collect_qc (member_weight a) (quorum a) leader messages total sigs in
  if decide (quorum a ≤ total + weight messages.*1)%Z then
    ∃ sigs', r = Some (Some (Build_QC t v n leader sigs')) ∧ NoDup (signers sigs') ∧
      (∀ x, x ∈ signers sigs' → x ∈ signers sigs ++ messages.*1) ∧
      Forall (signed (vote_message t v (Some n) leader)) sigs' ∧
      (quorum a ≤ weight (signers sigs'))%Z
  else r = Some None.
Proof.
  revert total sigs. induction messages as [|[addr m] messages IH];
    intros total sigs Hall Hnd Htotal Hlt Hsigs r.
  { subst r. rewrite decide_False; [done|]. cbn. lia. }
  apply Forall_cons in Hall as [[Ht Hv Hn (s & Hs & Hsigner & Hsigned)] Hall]. cbn [fst snd] in *.
  subst r. cbn [collect_qc]. rewrite fmap_cons, sumZ_cons in *. cbn [fst] in *.
  destruct (member_weight a !! addr) as [w|] eqn:Hw.
  - assert (weight_of a addr = w) as Hwa by (unfold weight_of; by rewrite Hw).
    rewrite Hs. cbn [mbind option_bind].
    assert (NoDup (signers (sigs ++ [s]) ++ messages.*1)) as Hnd'.
    { unfold signers. rewrite fmap_app, <-app_assoc. cbn. by rewrite Hsigner. }
    assert (weight (signers (sigs ++ [s])) = total + w)%Z as Htotal'.
    { assert (weight (signers [s]) = w) as Hone by (cbn; rewrite Hsigner, Hwa; lia).
      unfold signers in *. by rewrite fmap_app, sumZ_app, Hone, Htotal. }
    assert (u32 (total + w) = total + w)%Z as Hu.
    { apply u32_id. rewrite <-Htotal'. pose proof (electable_total _ Ha). unfold is_u32.
      pose proof (weight_bound a Ha (signers (sigs ++ [s]))) as Hb.
      apply NoDup_app in Hnd' as [Hnd' _]. specialize (Hb Hnd'). lia. }
    rewrite Hu, Hwa. assert (Forall (signed (vote_message t v (Some n) leader)) (sigs ++ [s]))
      as Hsigs' by (apply Forall_app; split; [done|by apply Forall_singleton]).
    destruct (decide (quorum a ≤ total + w)%Z) as [Hq|Hq].
    + rewrite decide_True, Hn, Ht, Hv.
      2: { assert (0 ≤ weight messages.*1)%Z; [|lia].
           apply sumZ_nonneg. intros. by apply member_weight_nonneg. }
      cbn [mbind option_bind]. exists (sigs ++ [s]). split_and!; [done| | |done|lia].
      * by apply NoDup_app in Hnd' as [? _].
      * intros x Hx. unfold signers in *. rewrite fmap_app in Hx.
        apply elem_of_app in Hx as [Hx|Hx]; apply elem_of_app; [by left|].
        apply list_elem_of_singleton in Hx as ->. right. rewrite Hsigner. by left.
    + specialize (IH (total + w)%Z (sigs ++ [s])). rewrite Z.add_assoc.
      pose proof (IH Hall Hnd' ltac:(by rewrite Htotal') ltac:(lia) Hsigs') as HI. cbv zeta in HI.
      case_decide; [|done]. destruct HI as (sigs' & -> & H1 & H2 & H3 & H4).
      exists sigs'. split_and!; try done. intros x Hx%H2. unfold signers in *.
      rewrite fmap_app, <-app_assoc in Hx. cbn in Hx. by rewrite Hsigner in Hx.
  - assert (weight_of a addr = 0)%Z as Hwa by (unfold weight_of; by rewrite Hw).
    cbn [mbind option_bind]. rewrite Hwa, Z.add_0_l.
    rewrite (decide_False (P := (quorum a ≤ total)%Z)) by lia.
    assert (NoDup (signers sigs ++ messages.*1)) as Hnd'.
    { rewrite NoDup_app in Hnd |- *. destruct Hnd as (? & Hd & [_ ?]%NoDup_cons).
      split_and!; try done. intros x Hx Hx'. apply (Hd x Hx). by right. }
    pose proof (IH total sigs Hall Hnd' Htotal Hlt Hsigs) as HI. cbv zeta in HI.
    case_decide; [|done]. destruct HI as (sigs' & -> & H1 & H2 & H3 & H4).
    exists sigs'. split_and!; try done. intros x [|]%H2%elem_of_app; apply elem_of_app;
      [by left|right; by right].
Qed.

Lemma quorum_positive : (0 < quorum a)%Z.
Proof.
  rewrite quorum_exact by done. unfold faulty. pose proof (electable_total _ Ha).
  pose proof (Z.mul_div_le (sumZ snd (HotstuffModule.authority_members a) - 1) 3). lia.
Qed.

(** A leader whose collected votes are valid votes for the same node makes a
    certificate exactly when the voters have the weight of a quorum, in
    whatever order the collector is iterated over, and never panics; the
    certificate has distinct signers among the voters, and every node with the
    same authorities accepts it. *)
Lemma get_qc_certificate (c : Collector) :
  (∀ addr m, c !! addr = Some m → valid_vote t v n leader addr m) →
  if decide (quorum a ≤ weight (map_to_list c).*1)%Z then
    ∃ qc, get_qc a leader c = Some (Some qc) ∧
          certificate a t v n leader (λ x, is_Some (c !! x)) qc
  else get_qc a leader c = Some None.
Proof.
  intros Hc. unfold get_qc.
  assert (Forall votes_for (hash_iter c)) as Hall.
  { apply Forall_forall. intros [addr m] Hin%elem_of_hash_iter. by apply Hc. }
  pose proof (collect_qc_spec (hash_iter c) 0 [] Hall (hash_iter_keys c) eq_refl
    quorum_positive (Forall_nil_2 _)) as Hs. cbv zeta in Hs.
  assert (weight (hash_iter c).*1 = weight (map_to_list c).*1) as Hw by by rewrite hash_iter_perm.
  rewrite Z.add_0_l, Hw in Hs.
  case_decide; [|done]. destruct Hs as (sigs & -> & Hnd & Hin & Hs & Hq).
  eexists. split; [done|]. split; try done.
  - intros x [[y m] [-> Hx]]%Hin%list_elem_of_fmap. apply elem_of_hash_iter in Hx. by eexists.
  - intros expected Hexp. unfold verify_qc. cbn [qc_view qc_message_type]. case_decide; [done|].
    replace (match expected with Some _ => _ | None => _ end) with (Ok tt : CommonResult unit).
    2: { destruct Hexp as [->| ->]; [done|]. by rewrite decide_False by (intros H'; by apply H'). }
    cbn [result_bind qc_node qc_leader_address qc_sig]. by apply verify_weight_distinct.
Qed.
End Votes.
End Collect.
