(* ===== verification/HotstuffFrames.v ===== *)
(** * HotstuffFrames

    What the handlers of the hotstuff task leave alone: the authorities, the
    leader and the view, which only blocks, timeouts and the next turn of the
    task's loop change. *)
From S2P Require Import Prelude Codec Types HotstuffModule ConsensusSupport Engine HotstuffProtocol HotstuffAuthorities HotstuffStorage HotstuffVerifier HotstuffStream HotstuffState HotstuffNode HotstuffQuorum.

(** Handlers are told apart by their names when their frames are looked up. *)
#[local] Hint Constants Opaque : typeclass_instances.

(** The view a storage is in, above the last confirmed block. *)
Definition view_of (st : Storage) : Z * QC := (view st, base_commit_qc st).

(** What a view of the protocol is about. *)
Record Scope := {
  sc_authorities : HotstuffModule.Authorities;
  sc_last : HotstuffModule.Authorities;
  sc_leader : option Address;
  sc_shutdown : bool;
  sc_view : Z * QC;
}.

Section Scope.
Context {SC : Scale} {CS : ConsensusSupport} {HO : HashOrder}.

Definition scope (s : HotStuffStream) : Scope :=
  Build_Scope (authorities s) (last_authorities s) (current_leader s) (shutdown s)
    (view_of (storage s)).

#[global] Instance frames_on_storage {A} (m : St A) :
  Frames view_of m → Frames scope (on_storage m).
Proof.
  intros Hm s. specialize (Hm (storage s)). unfold on_storage, scope.
  destruct (m (storage s)) as [r st]. simpl in *. by rewrite Hm.
Qed.
#[global] Instance frames_on_support {A} (m : M World CommonError A) : Frames scope (on_support m).
Proof. intros s. unfold on_support. by destruct (m (support s)) as [r w]. Qed.

#[global] Instance frames_commit op : Frames view_of (commit_consensus_data op).
Proof. intros s. unfold commit_consensus_data. by destruct (disk s) as [|[e|] d]. Qed.
#[global] Instance frames_update_prepare_qc x : Frames view_of (update_prepare_qc x).
Proof. unfold update_prepare_qc. solve_frames. Qed.
#[global] Instance frames_update_locked_qc x : Frames view_of (update_locked_qc x).
Proof. unfold update_locked_qc. solve_frames. Qed.
#[global] Instance frames_put_proposal p : Frames view_of (put_proposal p).
Proof. unfold put_proposal. solve_frames. Qed.

Variable self : Setup.

#[global] Instance frames_get_next : Frames scope (get_next_timeout_instant self).
Proof. unfold get_next_timeout_instant. solve_frames. Qed.
#[global] Instance frames_update_next x : Frames scope (update_next_timeout_instant self x).
Proof. unfold update_next_timeout_instant. solve_frames. Qed.
#[global] Instance frames_update_state x : Frames scope (update_state self x).
Proof. unfold update_state. solve_frames. Qed.
#[global] Instance frames_internal_send m : Frames scope (internal_send m).
Proof. unfold internal_send. solve_frames. Qed.
#[global] Instance frames_send_out p m : Frames scope (send_out_message p m).
Proof. unfold send_out_message. solve_frames. Qed.
#[global] Instance frames_response p m : Frames scope (response p m).
Proof. unfold response. solve_frames. Qed.
#[global] Instance frames_request_validator p m : Frames scope (request_validator p m).
Proof. unfold request_validator, request. solve_frames. Qed.
#[global] Instance frames_request_proposal p m : Frames scope (request_proposal p m).
Proof. unfold request_proposal. solve_frames. Qed.
#[global] Instance frames_consensus_message p m : Frames scope (consensus_message p m).
Proof. unfold consensus_message. solve_frames. Qed.
#[global] Instance frames_timeout_message p m : Frames scope (timeout_message p m).
Proof. unfold timeout_message. solve_frames. Qed.
#[global] Instance frames_for_others f :
  (∀ a, Frames scope (f a)) → Frames scope (for_others self f).
Proof. intros Hf. unfold for_others. solve_frames. Qed.
#[global] Instance frames_sign m : Frames scope (sign self m).
Proof. unfold sign. solve_frames. Qed.
#[global] Instance frames_on_proposal p : Frames scope (on_proposal p).
Proof. unfold on_proposal. solve_frames. Qed.
#[global] Instance frames_stream_on_decide p qc : Frames scope (stream_on_decide p qc).
Proof. unfold stream_on_decide. solve_frames. Qed.
#[global] Instance frames_decide_block qc : Frames scope (decide_block qc).
Proof. unfold decide_block, take_decided. solve_frames. Qed.
#[global] Instance frames_sign_message m : Frames scope (sign_message self m).
Proof. unfold sign_message. solve_frames. Qed.
#[global] Instance frames_keep_pending m p : Frames scope (keep_pending m p).
Proof. unfold keep_pending. solve_frames. Qed.
#[global] Instance frames_take_pending p : Frames scope (take_pending p).
Proof. unfold take_pending. solve_frames. Qed.
#[global] Instance frames_broadcast m : Frames scope (broadcast_message self m).
Proof. unfold broadcast_message. apply frames_for_others. solve_frames. Qed.
#[global] Instance frames_send_proposal p m a : Frames scope (send_proposal p m a).
Proof. unfold send_proposal. solve_frames. Qed.
#[global] Instance frames_choose l : Frames scope (choose l).
Proof. intros s. unfold choose. destruct (draw _ _ _) as [[r rest]|]; [|done]. by destruct (l !! _). Qed.
#[global] Instance frames_send_to_leader m : Frames scope (send_to_leader m).
Proof. unfold send_to_leader. solve_frames. Qed.
#[global] Instance frames_send_vote m : Frames scope (send_vote self m).
Proof. unfold send_vote. solve_frames. Qed.
#[global] Instance frames_send_new_view : Frames scope send_new_view.
Proof. unfold send_new_view. solve_frames. Qed.
#[global] Instance frames_replica_on_prepare m a : Frames scope (replica_on_prepare self m a).
Proof. unfold replica_on_prepare. solve_frames. Qed.
#[global] Instance frames_replica_message m a : Frames scope (replica_on_validator_message self m a).
Proof.
  unfold replica_on_validator_message, keep_new_view, replica_on_pre_commit, replica_on_commit,
    replica_on_decide, replica_on_qc. solve_frames.
Qed.
#[global] Instance frames_replica_on_internal m : Frames scope (replica_on_internal self m).
Proof.
  unfold replica_on_internal, replica_on_validator_registered, replica_on_consensus_message,
    on_internal_message. solve_frames.
Qed.
#[global] Instance frames_observer_on_internal m : Frames scope (observer_on_internal m).
Proof.
  unfold observer_on_internal, observer_on_validator_registered, observer_on_consensus_message,
    observer_on_validator_message, keep_new_view, on_internal_message. solve_frames.
Qed.

(** The calls of a leader. *)
Abbreviation lscope := (λ x : LeaderState * HotStuffStream, scope x.2).

#[global] Instance frames_stream {A} (m : R A) : Frames scope m → Frames lscope (stream m).
Proof. intros Hm [l s]. specialize (Hm s). unfold stream. by destruct (m s). Qed.
#[global] Instance frames_update_leader f : Frames lscope (update_leader f).
Proof. by intros [l s]. Qed.
#[global] Instance frames_leader_state : Frames lscope leader_state.
Proof. by intros x. Qed.

#[local] Ltac solve_leader :=
  repeat first [progress solve_frames | apply frames_stream | apply frames_attempt | apply frames_for_others].

#[global] Instance frames_verify_message m addr : Frames lscope (verify_message self m addr).
Proof. unfold verify_message. solve_leader. Qed.
#[global] Instance frames_collect_vote get set m addr on_qc :
  (∀ qc, Frames lscope (on_qc qc)) → Frames lscope (collect_vote self get set m addr on_qc).
Proof. intros Hq. unfold collect_vote. solve_leader. Qed.
#[global] Instance frames_leader_on_commit m addr : Frames lscope (leader_on_commit self m addr).
Proof. apply frames_collect_vote. solve_leader. Qed.
#[global] Instance frames_leader_on_pre_commit m addr :
  Frames lscope (leader_on_pre_commit self m addr).
Proof. apply frames_collect_vote. solve_leader. Qed.
#[global] Instance frames_leader_on_prepare m addr : Frames lscope (leader_on_prepare self m addr).
Proof. apply frames_collect_vote. solve_leader. Qed.
#[global] Instance frames_leader_on_proposal p : Frames lscope (leader_on_proposal self p).
Proof. unfold leader_on_proposal. solve_leader. Qed.
#[global] Instance frames_create_proposal t : Frames lscope (create_proposal self t).
Proof. unfold create_proposal. solve_leader. Qed.
#[global] Instance frames_on_local_proposal p : Frames lscope (on_local_proposal self p).
Proof. unfold on_local_proposal. solve_leader. Qed.
#[global] Instance frames_work : Frames lscope (work self).
Proof. unfold work, reuse_proposal. solve_leader. Qed.
#[global] Instance frames_try_work t qc : Frames lscope (try_work self t qc).
Proof. unfold try_work. solve_leader. Qed.
#[global] Instance frames_leader_on_new_view m addr : Frames lscope (leader_on_new_view self m addr).
Proof. unfold leader_on_new_view. solve_leader. Qed.
#[global] Instance frames_leader_on_validator m addr :
  Frames lscope (leader_on_validator_message self m addr).
Proof. unfold leader_on_validator_message. solve_leader. Qed.
#[global] Instance frames_leader_on_internal m : Frames lscope (leader_on_internal self m).
Proof.
  unfold leader_on_internal, leader_on_validator_registered, leader_on_consensus_message,
    on_remote_proposal. solve_leader.
Qed.
#[global] Instance frames_leader_start : Frames scope (leader_start self).
Proof.
  assert (Frames lscope (do! process_pending_new_view self in send_new_view_to_self self)) as Hf.
  { unfold process_pending_new_view, send_new_view_to_self. solve_leader. }
  intros s. specialize (Hf (leader_new, s)). unfold leader_start.
  by destruct ((do! process_pending_new_view self in _) (leader_new, s)) as [[|] [l s']].
Qed.
End Scope.

(** Handlers are told apart by their names where frames are looked up. *)
#[local] Hint Constants Transparent : typeclass_instances.
#[export] Hint Opaque commit_consensus_data update_prepare_qc update_locked_qc update_view
  put_proposal refresh on_storage on_support get_next_timeout_instant
  update_next_timeout_instant update_state internal_send send_out_message response request
  request_validator request_proposal consensus_message timeout_message for_others sign
  on_proposal stream_on_decide decide_block sign_message keep_pending take_pending
  broadcast_message send_proposal choose send_to_leader send_vote send_new_view
  replica_on_prepare replica_on_validator_message replica_on_internal observer_on_internal
  stream update_leader leader_state verify_message collect_vote leader_on_internal try_work
  leader_start
  : typeclass_instances.

(** ** The life of a leader

    The life of a leader in its view: the invariant of its collectors, by which
    every certificate that it sends is accepted by all nodes with the same
    authorities. *)
(** ** The invariant of a leader *)

(** The phases in which a leader collects votes. *)
Inductive Phase := PhPrepare | PhPreCommit | PhCommit.

Definition phase_type (ph : Phase) : MessageType :=
  match ph with PhPrepare => Prepare | PhPreCommit => PreCommit | PhCommit => Commit end.
Definition collector (ph : Phase) (l : LeaderState) : Collector :=
  match ph with
  | PhPrepare => prepare_collector l
  | PhPreCommit => pre_commit_collector l
  | PhCommit => commit_collector l
  end.
Definition set_collector (ph : Phase) : Collector → LeaderState → LeaderState :=
  match ph with
  | PhPrepare => with_prepare_collector
  | PhPreCommit => with_pre_commit_collector
  | PhCommit => with_commit_collector
  end.
(** The message that carries the certificate of a phase. *)
Definition next_message (ph : Phase) (l : LeaderState) : option ConsensusMessage :=
  match ph with
  | PhPrepare => pre_commit_message l
  | PhPreCommit => commit_message l
  | PhCommit => decide_message l
  end.

Definition set_next_message (ph : Phase) : option ConsensusMessage → LeaderState → LeaderState :=
  match ph with
  | PhPrepare => with_pre_commit_message
  | PhPreCommit => with_commit_message
  | PhCommit => with_decide_message
  end.

#[export] Instance phase_eq_dec : EqDecision Phase.
Proof. solve_decision. Defined.

Lemma collector_set ph ph' c l :
  collector ph (set_collector ph' c l) = if decide (ph = ph') then c else collector ph l.
Proof. by destruct ph, ph'. Qed.
Lemma next_message_set ph ph' c l : next_message ph (set_collector ph' c l) = next_message ph l.
Proof. by destruct ph, ph'. Qed.
Lemma prepare_message_set ph c l : prepare_message (set_collector ph c l) = prepare_message l.
Proof. by destruct ph. Qed.
Lemma pending_set ph c l :
  pending_remote_proposal (set_collector ph c l) = pending_remote_proposal l.
Proof. by destruct ph. Qed.

Section Leader.
Context {SC : Scale} {CS : ConsensusSupport} {HO : HashOrder}.
Variable self : Setup.

(** The node's keys fit together: what it signs verifies under its public
    key, which is the key of its address. *)
Record own_keys : Prop := {
  own_signature : ∀ msg pk sg, support_sign (secret_key self) msg = Ok (pk, sg) →
    verify_signature msg (public_key self) sg = Ok tt;
  own_address : support_address (public_key self) = address self;
}.

(** A message that carries a certificate of the phase. *)
Definition certified (a : HotstuffModule.Authorities) (v : Z) (ph : Phase)
    (m : ConsensusMessage) : Prop :=
  ∃ n qc, cm_justify m = Some qc ∧
    certificate a (phase_type ph) v n (address self) (λ _, True) qc.

(** Votes are collected once there is a proposal, and for its node alone. *)
Definition votes_ok (v : Z) (l : LeaderState) : Prop :=
  match prepare_message l with
  | None => ∀ ph, collector ph l = ∅
  | Some pm => ∃ n, cm_node pm = Some n ∧
      ∀ ph addr m, collector ph l !! addr = Some m →
        valid_vote (phase_type ph) v n (address self) addr m
  end.

(** The invariant, relative to the state [l0] of the leader before an event:
    the messages that have been added since carry certificates. *)
Record leader_inv (a : HotstuffModule.Authorities) (v : Z) (l0 : LeaderState) (sc : Scope)
    (x : LeaderState * HotStuffStream) : Prop := {
  li_scope : scope x.2 = sc;
  li_votes : votes_ok v x.1;
  li_pending : is_Some (pending_remote_proposal x.1) → prepare_message x.1 = None;
  li_certified : ∀ ph, next_message ph x.1 = next_message ph l0 ∨
    ∃ m, next_message ph x.1 = Some m ∧ certified a v ph m;
}.

Section Handlers.
Variables (a : HotstuffModule.Authorities) (v : Z) (l0 : LeaderState) (sc : Scope).
Hypothesis Ha : electable a.
Hypothesis Hkeys : own_keys.
Hypothesis Hsc : sc_authorities sc = a ∧ sc_leader sc = Some (address self) ∧ (sc_view sc).1 = v.
Abbreviation Inv := (leader_inv a v l0 sc).

Lemma scope_authorities s : scope s = sc → authorities s = a.
Proof. intros <-. apply Hsc. Qed.
Lemma scope_leader s : scope s = sc → current_leader s = Some (address self).
Proof. intros <-. apply Hsc. Qed.
Lemma scope_view s : scope s = sc → view (storage s) = v.
Proof. intros <-. apply Hsc. Qed.

#[local] Instance keeps_stream {A} (m : R A) : Frames scope m → Keeps Inv (stream m).
Proof.
  intros Hm [l s] [H1 H2 H3 H4]. unfold stream. specialize (Hm s).
  destruct (m s) as [r s']. simpl in *. split; simpl; [congruence|done..].
Qed.

(** The leader's own state changes where no vote, proposal or certificate
    does. *)
Lemma keeps_update f :
  (∀ l, prepare_message (f l) = prepare_message l ∧ (∀ ph, collector ph (f l) = collector ph l) ∧
        (∀ ph, next_message ph (f l) = next_message ph l) ∧
        (is_Some (pending_remote_proposal (f l)) → is_Some (pending_remote_proposal l))) →
  Keeps Inv (update_leader f).
Proof.
  intros Hf [l s] [H1 H2 H3 H4]. destruct (Hf l) as (Hp & Hc & Hn & Hr). cbn [fst snd] in *.
  split; cbn [fst snd update_leader modify]; [done|..].
  - unfold votes_ok in *. rewrite Hp. destruct (prepare_message l) as [pm|].
    + destruct H2 as (n & Hn' & H2). exists n. split; [done|]. intros ph. rewrite Hc. apply H2.
    + intros ph. by rewrite Hc.
  - rewrite Hp. intros Hx. by apply H3, Hr.
  - intros ph. rewrite Hn. apply H4.
Qed.

(** A branch that returns no vote and changes nothing. *)
#[local] Ltac bail := intros [= <- <- <-]; split; [done|]; split; [done|]; by intros ?.

(** What [verify_message] accepts is a valid vote. *)
Lemma verify_message_ok m addr l s r l' s' :
  Inv (l, s) → cm_view m = v → verify_message self m addr (l, s) = (r, (l', s')) →
  l' = l ∧ scope s' = sc ∧
  ∀ m', r = Ok (Ok m') → ∃ pm n, prepare_message l = Some pm ∧ cm_node pm = Some n ∧
    valid_vote (cm_message_type m) v n (address self) addr m'.
Proof.
  intros [Hs Hv _ _] Hm. unfold verify_message, leader_state. rewrite bind_asks. cbn [fst snd] in *.
  unfold votes_ok in Hv. destruct (prepare_message l) as [pm|] eqn:Hpm.
  2: { case_decide; [bail|]. destruct (cm_sig m) as [[pk sg]|]; [|bail]. case_decide; [bail|].
       destruct (verify_signature _ _ _); bail. }
  destruct Hv as (n & Hn & _). case_decide as Hself.
  - unfold stream, attempt. pose proof (scope_leader s Hs) as Hl.
    set (m1 := Build_ConsensusMessage _ _ _ _ _ _).
    pose proof (frames_sign_message self m1 s) as Hf. unfold sign_message in *.
    rewrite bind_asks, Hl in *. unfold sign, bind, try, lift in *.
    destruct (support_sign _ _) as [[pk sg]|e] eqn:Hsign; cbn [map_err ret fst snd] in *.
    + intros [= <- <- <-]. split; [done|]. split; [done|]. intros m' [= <-].
      exists pm, n. split; [done|]. split; [done|]. unfold m1 in *. simpl in *.
      apply (own_signature Hkeys) in Hsign. rewrite Hn, Hm in *. split; cbn; try done.
      exists (public_key self, sg). split; [done|].
      split; [unfold signer; cbn; by rewrite (own_address Hkeys)|]. done.
    + bail.
  - destruct (cm_sig m) as [[pk sg]|] eqn:Hsig; [|bail].
    case_decide as Haddr; [bail|].
    destruct (verify_signature _ _ _) as [[]|e] eqn:Hver; [|bail].
    case_decide as Hnode; [bail|].
    intros [= <- <- <-]. split; [done|]. split; [done|]. intros m' [= <-].
    exists pm, n. split; [done|]. split; [done|].
    split; try done; [by rewrite Hnode|]. exists (pk, sg). split; [done|]. split; [done|].
    unfold signed. cbn [fst snd]. by rewrite <-Hm, <-Hn, <-Hnode.
Qed.

Lemma collect_vote_eq get set m addr on_qc l s :
  collect_vote self get set m addr on_qc (l, s) =
  match verify_message self m addr (l, s) with
  | (Ok (Ok m'), (l', s')) =>
      let l2 := set (<[addr := m']> (get l')) l' in
      match get_qc (authorities s') (address self) (get l2) with
      | None => (Err Panic, (l2, s'))
      | Some None => (Ok tt, (l2, s'))
      | Some (Some qc) => on_qc qc (l2, s')
      end
  | (Ok (Err _), x) => (Ok tt, x)
  | (Err e, x) => (Err e, x)
  end.
Proof.
  unfold collect_vote. unfold bind at 1.
  destruct (verify_message self m addr (l, s)) as [[[m'|e]|e] [l' s']]; [|done..].
  unfold bind, update_leader, modify, leader_state, stream, asks, id. cbn [fst snd].
  by destruct (get_qc _ _ _) as [[qc|]|].
Qed.

(** Adding a vote keeps the invariant; a certificate that results verifies. *)
Lemma keeps_collect_vote ph m addr on_qc :
  cm_view m = v → cm_message_type m = phase_type ph →
  (∀ n qc, certificate a (phase_type ph) v n (address self) (λ _, True) qc → Keeps Inv (on_qc qc)) →
  Keeps Inv (collect_vote self (collector ph) (set_collector ph) m addr on_qc).
Proof.
  intros Hm Ht Hqc [l s] HI. rewrite collect_vote_eq.
  destruct (verify_message self m addr (l, s)) as [r [l' s']] eqn:Hr.
  apply verify_message_ok in Hr as (-> & Hs' & Hok); [|done..].
  assert (Inv (l, s')) as HI' by (destruct HI; split; done).
  destruct r as [[m'|e]|e]; [|done..]. cbn [fst snd].
  destruct (Hok m' eq_refl) as (pm & n & Hpm & Hn & Hvote). rewrite Ht in Hvote.
  set (c := <[addr := m']> (collector ph l)).
  assert (∀ x mx, c !! x = Some mx → valid_vote (phase_type ph) v n (address self) x mx) as Hc.
  { destruct HI' as [_ Hv _ _]. unfold votes_ok in Hv. cbn [fst] in Hv. rewrite Hpm in Hv.
    destruct Hv as (n' & Hn' & Hv). rewrite Hn in Hn'. injection Hn' as <-.
    intros x mx. unfold c. rewrite lookup_insert_Some.
    intros [[<- <-]|[_ Hx]]; [done|]. by apply (Hv ph). }
  assert (Inv (set_collector ph c l, s')) as HI2.
  { destruct HI' as [H1 H2 H3 H4]. split; cbn [fst snd] in *; [done|..].
    - unfold votes_ok in *. rewrite prepare_message_set, Hpm in *.
      destruct H2 as (n' & Hn' & H2). rewrite Hn in Hn'. injection Hn' as <-.
      exists n. split; [done|]. intros ph' x mx. rewrite collector_set. case_decide; [subst; apply Hc|].
      apply H2.
    - by rewrite pending_set, prepare_message_set.
    - intros ph'. rewrite next_message_set. apply H4. }
  cbv zeta. rewrite (scope_authorities s' Hs'), collector_set, decide_True by done.
  pose proof (get_qc_certificate a (phase_type ph) v n (address self) Ha c Hc) as Hget.
  case_decide; [|by rewrite Hget].
  destruct Hget as (qc & -> & [? ? ? ? ? ? ?]). apply (Hqc n); [|done]. by split.
Qed.

(** The message with the certificate of a phase is set. *)
Lemma keeps_next_message ph n qc m :
  certificate a (phase_type ph) v n (address self) (λ _, True) qc → cm_justify m = Some qc →
  Keeps Inv (update_leader (set_next_message ph (Some m))).
Proof.
  intros Hqc Hm [l s] [H1 H2 H3 H4]. cbn [fst snd] in *.
  split; cbn [fst snd update_leader modify]; [done|by destruct ph|by destruct ph|].
  intros ph'. destruct (decide (ph' = ph)) as [->|Hph].
  - right. exists m. split; [by destruct ph|]. by exists n, qc.
  - destruct (H4 ph') as [H|H]; [left|right]; by destruct ph, ph'.
Qed.

#[local] Instance keeps_leader_state : Keeps Inv leader_state.
Proof. by intros x. Qed.

(** The view that is read is that of the leader. *)
Lemma keeps_storage {A} (k : Storage → L A) :
  (∀ st, view st = v → Keeps Inv (k st)) → Keeps Inv (bind (stream (asks storage)) k).
Proof. intros Hk [l s] HI. apply Hk; [|done]. apply scope_view, HI. Qed.

(** The certificate of a phase is kept in the message of the next one, which
    the leader then handles itself and sends to the others. *)
Lemma keeps_on_commit m addr : cm_view m = v → cm_message_type m = Commit →
  Keeps Inv (leader_on_commit self m addr).
Proof.
  intros Hm Ht. apply (keeps_collect_vote PhCommit); [done..|]. intros n qc Hqc.
  apply keeps_bind; [apply _|]. intros l. destruct (decide_message l); [apply _|].
  apply keeps_storage. intros st Hst. cbv zeta.
  apply keeps_bind; [by apply (keeps_next_message PhCommit n qc)|]. intros _.
  apply keeps_bind; [apply _|]. intros _. apply _.
Qed.

Lemma keeps_on_pre_commit m addr : cm_view m = v → cm_message_type m = PreCommit →
  Keeps Inv (leader_on_pre_commit self m addr).
Proof.
  intros Hm Ht. apply (keeps_collect_vote PhPreCommit); [done..|]. intros n qc Hqc.
  apply keeps_bind; [apply _|]. intros l. destruct (commit_message l); [apply _|].
  apply keeps_bind; [apply _|]. intros _. apply keeps_storage. intros st Hst. cbv zeta.
  apply keeps_bind; [by apply (keeps_next_message PhPreCommit n qc)|]. intros _.
  apply keeps_bind; [by apply keeps_on_commit|]. intros _. apply _.
Qed.

Lemma keeps_on_prepare m addr : cm_view m = v → cm_message_type m = Prepare →
  Keeps Inv (leader_on_prepare self m addr).
Proof.
  intros Hm Ht. apply (keeps_collect_vote PhPrepare); [done..|]. intros n qc Hqc.
  apply keeps_bind; [apply _|]. intros l. destruct (pre_commit_message l); [apply _|].
  apply keeps_bind; [apply _|]. intros _. apply keeps_storage. intros st Hst. cbv zeta.
  apply keeps_bind; [by apply (keeps_next_message PhPrepare n qc)|]. intros _.
  apply keeps_bind; [by apply keeps_on_pre_commit|]. intros _. apply _.
Qed.

(** ** Proposing *)

(** The leader may propose: nothing is proposed or awaited. *)
Definition ready (x : LeaderState * HotStuffStream) : Prop :=
  Inv x ∧ prepare_message x.1 = None ∧ pending_remote_proposal x.1 = None.

(** A call by a leader that may propose. *)
Definition proposes {A} (m : L A) : Prop := ∀ x, ready x → Inv (m x).2.

#[local] Instance ready_stream {A} (m : R A) : Frames scope m → Keeps ready (stream m).
Proof.
  intros Hm [l s] (HI & Hp & Hr). pose proof (keeps_stream m Hm (l, s) HI) as HI'.
  unfold stream in *. by destruct (m s).
Qed.
#[local] Instance ready_leader_state : Keeps ready leader_state.
Proof. by intros x. Qed.

#[local] Ltac on_stream := first [apply _ | apply ready_stream; solve_frames | apply keeps_stream; solve_frames].

Lemma proposes_keeps {A} (m : L A) : Keeps Inv m → proposes m.
Proof. intros Hm x [HI _]. by apply Hm. Qed.
Lemma proposes_bind {A B} (m : L A) (k : A → L B) :
  Keeps ready m → (∀ a, proposes (k a)) → proposes (bind m k).
Proof.
  intros Hm Hk x Hx. specialize (Hm x Hx). unfold bind. destruct (m x) as [[y|e] x'].
  - by apply Hk.
  - apply Hm.
Qed.

#[local] Ltac propose :=
  match goal with
  | |- proposes (bind _ _) => apply proposes_bind; [on_stream|]; intros ?; cbv zeta
  end.

Lemma proposes_on_proposal p : proposes (leader_on_proposal self p).
Proof.
  intros [l s] (HI & Hp & Hr). unfold leader_on_proposal. cbn [fst snd] in *. cbv zeta.
  unfold leader_state. rewrite bind_asks. cbn [fst].
  destruct (work_new_view_signal l) as [high_qc|]; [|done].
  unfold stream at 1, asks at 1. unfold bind at 1.
  set (message := new_message _ _ _ _). unfold bind at 1, update_leader at 1, modify at 1.
  pose proof (scope_view s (li_scope _ _ _ _ _ HI)) as Hv.
  apply keeps_bind; [by apply keeps_on_prepare|intros _; apply _|].
  destruct HI as [H1 H2 H3 H4]. unfold votes_ok in *. cbn [fst snd] in *. rewrite Hp in H2.
  split; cbn [fst snd]; [done|..].
  - eexists. split; [done|]. intros ph x mx Hx. specialize (H2 ph).
    assert (collector ph (with_prepare_message (Some message) l) = ∅) as He by by destruct ph.
    rewrite He in Hx. by apply lookup_empty_Some in Hx.
  - intros [? Hx]. cbn in Hx. congruence.
  - intros ph. by destruct (H4 ph) as [H|H]; [left|right]; destruct ph.
Qed.

Lemma proposes_create t : proposes (create_proposal self t).
Proof.
  unfold create_proposal. repeat propose.
  apply proposes_on_proposal.
Qed.

Lemma proposes_on_local p : proposes (on_local_proposal self p).
Proof.
  unfold on_local_proposal. propose. apply proposes_bind; [|intros _].
  - case_decide; [apply _|]. apply keeps_bind; [on_stream|]. intros ?. on_stream.
  - apply proposes_on_proposal.
Qed.

Lemma proposes_pending h : proposes (update_leader (with_pending_remote_proposal (Some h))).
Proof.
  intros [l s] ([H1 H2 H3 H4] & Hp & Hr). split; cbn [fst snd update_leader modify] in *; try done.
Qed.

Lemma proposes_work : proposes (work self).
Proof.
  unfold work. apply proposes_bind; [apply _|]. intros l.
  destruct (work_new_view_signal l) as [qc|]; [|apply proposes_keeps, _].
  apply proposes_bind; [apply _|]. intros st. cbv zeta.
  case_decide; [|case_decide; [|apply proposes_keeps, _]].
  - destruct (work_schedule_signal l); [apply proposes_create|apply proposes_keeps, _].
  - unfold reuse_proposal. cbv zeta. apply proposes_bind; [apply _|]. intros st'.
    destruct (get_proposal _ _); [apply proposes_on_local|].
    repeat propose. apply proposes_pending.
Qed.

(** ** Handlers *)

#[local] Instance keeps_try_work t qc : Keeps Inv (try_work self t qc).
Proof.
  unfold try_work. do 2 (apply keeps_bind; [by apply keeps_update|]; intros _).
  apply (keeps_read _ fst). intros x HI.
  destruct (work_new_view_signal x.1); [|done]. destruct (work_schedule_signal x.1); [|done].
  destruct (prepare_message x.1) eqn:Hp; [done|].
  destruct (pending_remote_proposal x.1) eqn:Hr; [done|]. by apply proposes_work.
Qed.

#[local] Instance keeps_on_new_view m addr : Keeps Inv (leader_on_new_view self m addr).
Proof.
  unfold leader_on_new_view. destruct (cm_justify m); [|apply _].
  apply keeps_bind; [apply _|]. intros s. destruct (verify_qc _ _ _); [|apply _].
  apply keeps_bind; [by apply keeps_update|]. intros _. apply keeps_bind; [apply _|]. intros l.
  destruct (get_high_qc _ _) as [[qc|]|]; [|apply _..].
  destruct (work_new_view_signal l); apply _.
Qed.

#[local] Instance keeps_on_remote_proposal addr p : Keeps Inv (on_remote_proposal self addr p).
Proof.
  unfold on_remote_proposal. apply (keeps_read _ fst). intros [l s] HI. cbn [fst].
  destruct (pending_remote_proposal l) as [pending|] eqn:Hr; [|done]. case_decide; [done|].
  unfold bind, update_leader, modify. apply proposes_on_local.
  destruct HI as [H1 H2 H3 H4]. cbn [fst snd] in *. rewrite Hr in H3.
  specialize (H3 (mk_is_Some _ _ eq_refl)). split; [|done]. split; try done.
Qed.

#[local] Instance keeps_on_validator_message m addr :
  Keeps Inv (leader_on_validator_message self m addr).
Proof.
  unfold leader_on_validator_message. apply keeps_storage. intros st Hst. case_decide; [apply _|].
  assert (cm_view m = v) by congruence.
  destruct (cm_message_type m) eqn:Ht; [apply _|by apply keeps_on_prepare|
    by apply keeps_on_pre_commit|by apply keeps_on_commit|apply _].
Qed.

#[local] Instance keeps_on_internal m : Keeps Inv (leader_on_internal self m).
Proof.
  destruct m; cbn [leader_on_internal]; [| |apply _].
  - unfold leader_on_validator_registered. apply _.
  - unfold leader_on_consensus_message. apply keeps_bind; [apply _|]. intros s.
    destruct (from_member _ _) as [[?|]|]; apply _.
Qed.

Lemma keeps_start : Keeps Inv (do! process_pending_new_view self in send_new_view_to_self self).
Proof.
  apply keeps_bind; [|intros _; unfold send_new_view_to_self; apply _].
  unfold process_pending_new_view.
  apply keeps_bind; [on_stream|]. intros s. apply keeps_bind; [on_stream|]. intros _. apply _.
Qed.
End Handlers.
End Leader.
