(* ===== verification/HotstuffRuns.v ===== *)
(** * HotstuffRuns

    The life of a hotstuff task: the views its loop enters one after another,
    and what holds of the leader in every one of them. *)
From S2P Require Import Prelude Codec Types SystemModule HotstuffModule ConsensusSupport Engine HotstuffProtocol HotstuffAuthorities HotstuffStorage HotstuffVerifier HotstuffStream HotstuffState HotstuffNode HotstuffQuorum HotstuffFrames.

Section Runs.
Context {SC : Scale} {CS : ConsensusSupport} {HO : HashOrder}.
Variable self : Setup.

(** What entering a view leaves alone, the leader set aside. *)
Definition ground (s : HotStuffStream) : HotstuffModule.Authorities * Z * bool :=
  (authorities s, view (storage s), shutdown s).

Lemma frames_ground {A} (m : R A) : Frames scope m → Frames ground m.
Proof.
  intros Hm s.
  by apply (frames_weaken scope ground (λ c, (sc_authorities c, (sc_view c).1, sc_shutdown c))).
Qed.
#[local] Ltac keep := first [apply frames_ground, _ | apply _].

Lemma frames_run_view : Frames ground (run_view self).
Proof.
  unfold run_view. apply frames_bind; [apply _|]. intros s.
  destruct (compute_leader s); [|apply _].
  apply frames_bind; [case_decide; keep|]. intros _.
  apply frames_bind; [by apply frames_modify|]. intros _.
  apply frames_bind; [apply _|]. intros s1. cbv zeta.
  destruct (state s1); [| |apply _];
    (apply frames_bind; [keep|]; intros; apply _).
Qed.

Lemma frames_settle fuel r cv : Frames ground (settle self fuel r cv).
Proof.
  revert r cv. induction fuel as [|fuel IH]; intros r cv; cbn [settle];
    (apply frames_bind; [apply _|]; intros s; destruct (shutdown s); [apply _|]; case_decide;
     [destruct r; (apply frames_bind; [|intros; apply _]);
        first [apply _ | apply frames_bind; [keep|intros; apply _]]|]).
  - apply _.
  - apply frames_bind; [apply frames_run_view|]. intros [r' cv']. apply IH.
Qed.

Lemma settle_in_place fuel r cv s : view (storage s) = cv →
  settle self fuel r cv s = settle self 0 r cv s.
Proof.
  intros Hv. destruct fuel; cbn [settle]; [done|]. rewrite !bind_asks. unfold id.
  destruct (shutdown s); [done|]. by destruct (decide (view (storage s) = cv)).
Qed.

(** The loop is entered in the view of the storage. *)
Lemma run_view_view s r v s' : run_view self s = (Ok (r, v), s') → v = view (storage s).
Proof.
  unfold run_view. rewrite bind_asks. unfold id at 1. destruct (compute_leader s) as [cl|]; [|done].
  intros ([] & s1 & H1 & H)%bind_inv_ok.
  assert (view (storage s1) = view (storage s)) as <-.
  { revert H1. unfold update_state, modify. by repeat case_decide; intros [= <-]. }
  apply bind_inv_ok in H as ([] & s2 & [= <-] & H). rewrite bind_asks in H. unfold id in H.
  cbv zeta in H. destruct (state _); [..|by injection H as _ <- _];
    by apply bind_inv_ok in H as (u & s3 & _ & [= _ <- _]).
Qed.

Lemma waiting_frames r : Frames scope
  match r with RObserver => ret tt | _ => let! _ := get_next_timeout_instant self in ret tt end.
Proof. destruct r; apply _. Qed.

Lemma settle_waits fuel r cv s r' v' s' :
  settle self fuel r cv s = (Ok (Some (r', v')), s') → view (storage s') = v' ∧ shutdown s' = false.
Proof.
  revert r cv s. induction fuel as [|fuel IH]; intros r cv s; cbn [settle]; rewrite bind_asks;
    unfold id; destruct (shutdown s) eqn:Hs; [done| |done|]; case_decide as Hv.
  2: done.
  3: { intros ([r1 v1] & s1 & _ & H)%bind_inv_ok. by apply IH in H. }
  all: intros (u & s1 & Hg & [= <- <- <-])%bind_inv_ok.
  all: pose proof (waiting_frames r s) as Hf; rewrite Hg in Hf.
  all: pose proof (f_equal (fst ∘ sc_view) Hf) as Hfv; pose proof (f_equal sc_shutdown Hf) as Hfs.
  all: cbn in Hfv, Hfs; split; congruence.
Qed.

(** The loop over the views settles after one turn: entering a view does
    not change it, so that the fuel of the loop does not matter, and when the
    task waits for an event it is in the view its storage is in. *)
Theorem view_loop_settles fuel r cv s :
  LOOPS ≤ fuel →
  settle self fuel r cv s = settle self LOOPS r cv s ∧
  ∀ r' v' s', settle self LOOPS r cv s = (Ok (Some (r', v')), s') →
    view (storage s') = v' ∧ shutdown s' = false.
Proof.
  intros Hf. split; [|intros r' v' s'; apply settle_waits].
  destruct fuel as [|fuel]; [unfold LOOPS in Hf; lia|].
  unfold LOOPS. cbn [settle]. rewrite !bind_asks. unfold id.
  destruct (shutdown s); [done|]. case_decide as Hv; [done|]. unfold bind.
  destruct (run_view self s) as [[[r1 v1]|e] s1] eqn:Hr; [|done].
  apply settle_in_place. pose proof (frames_run_view s) as Hg. rewrite Hr in Hg.
  apply run_view_view in Hr as ->. exact (f_equal (snd ∘ fst) Hg).
Qed.

(** ** Entering a view *)

(** The task is in a view: a leader's collectors hold votes for its proposal,
    in that view, and what it sends since [l0] are certificates. *)
Definition in_view (r : Role) (v : Z) (l0 : LeaderState) (s : HotStuffStream) : Prop :=
  view (storage s) = v ∧
  match r with
  | RLeader l => current_leader s = Some (address self) ∧
                 leader_inv self (authorities s) v l0 (scope s) (l, s)
  | _ => True
  end.

Lemma in_view_scope r v l0 s s' : scope s' = scope s → in_view r v l0 s → in_view r v l0 s'.
Proof.
  unfold in_view, scope, view_of. intros [= Ha Hl Hc Hs Hv Hb]. rewrite Hv, Hc, Ha.
  intros [? Hr]. split; [done|]. destruct r as [l| |]; [|done..]. destruct Hr as [? [H1 H2 H3 H4]].
  split; [done|]. split; try done. unfold scope, view_of. cbn [fst snd]. congruence.
Qed.

Lemma leader_new_inv a v s : leader_inv self a v leader_new (scope s) (leader_new, s).
Proof.
  split; cbn [fst snd]; [done|by intros []|by intros [? [=]]|]. by left.
Qed.

Lemma leader_start_in_view s l s' :
  own_keys self → electable (authorities s) → current_leader s = Some (address self) →
  leader_start self s = (Ok l, s') → in_view (RLeader l) (view (storage s)) leader_new s'.
Proof.
  intros Hk Ha Hl Hs. pose proof (frames_leader_start self s) as Hf. rewrite Hs in Hf.
  cbn [snd] in Hf. unfold leader_start in Hs.
  pose proof (keeps_start self (authorities s) (view (storage s)) leader_new (scope s) Ha Hk
    ltac:(done) (leader_new, s) (leader_new_inv _ _ _)) as HI.
  destruct ((do! process_pending_new_view self in _) _) as [[?|?] [l1 s1]]; [|done].
  injection Hs as -> ->. cbn [snd] in HI.
  pose proof (f_equal sc_authorities Hf) as Hfa. pose proof (f_equal sc_leader Hf) as Hfl.
  pose proof (f_equal (fst ∘ sc_view) Hf) as Hfv. cbn in Hfa, Hfl, Hfv.
  split; [done|]. split; [congruence|]. rewrite Hf, Hfa. exact HI.
Qed.

Lemma run_view_in_view s r v s' :
  own_keys self → electable (authorities s) → run_view self s = (Ok (r, v), s') →
  in_view r v leader_new s'.
Proof.
  intros Hk Ha. unfold run_view. rewrite bind_asks. unfold id at 1.
  destruct (compute_leader s) as [cl|]; [|done].
  intros ([] & s1 & H1 & H)%bind_inv_ok.
  assert (ground s1 = ground s ∧ (state s1 = Leader → cl = address self)) as [Hg Hst].
  { revert H1. unfold update_state, modify. repeat case_decide; intros [= <-]; done. }
  apply bind_inv_ok in H as ([] & s2 & [= <-] & H). rewrite bind_asks in H. unfold id in H.
  cbn [with_current_leader state] in H. unfold ground in Hg. injection Hg as Hga Hgv Hgs.
  destruct (state s1) eqn:Hs1; cbv zeta in H; cbn [storage with_current_leader] in H.
  - apply bind_inv_ok in H as (l & s3 & Hl & [= <- <- <-]).
    apply leader_start_in_view in Hl; [done|done| |]; cbn.
    + congruence.
    + by rewrite Hst.
  - apply bind_inv_ok in H as (u & s3 & Hn & [= <- <- <-]). split; [|done].
    pose proof (frames_ground _ frames_send_new_view (with_current_leader (Some cl) s1)) as Hf.
    rewrite Hn in Hf. unfold ground in Hf. cbn in Hf. congruence.
  - injection H as <- <- <-. by split.
Qed.

(** When the loop settles the task is still in its view, or has entered one. *)
Lemma settle_in_view fuel r cv s r' v' s' :
  own_keys self → electable (authorities s) → settle self fuel r cv s = (Ok (Some (r', v')), s') →
  (r' = r ∧ v' = cv ∧ view (storage s) = cv ∧ scope s' = scope s) ∨ in_view r' v' leader_new s'.
Proof.
  intros Hk. revert r cv s. induction fuel as [|fuel IH]; intros r cv s Ha; cbn [settle];
    rewrite bind_asks; unfold id; destruct (shutdown s); [done| |done|].
  all: case_decide as Hv.
  2: done.
  3: { intros ([r1 v1] & s1 & Hr & H)%bind_inv_ok. pose proof (frames_run_view s) as Hf.
       rewrite Hr in Hf. unfold ground in Hf. injection Hf as Hfa Hfv Hfs.
       apply run_view_in_view in Hr; [|done..]. apply IH in H as [(-> & -> & _ & Hs)|H].
       - right. by apply (in_view_scope _ _ _ s1).
       - by right.
       - by rewrite Hfa. }
  all: intros (u & s1 & Hg & [= <- <- <-])%bind_inv_ok; left; split_and!; [done..|].
  all: pose proof (waiting_frames r s) as Hf; by rewrite Hg in Hf.
Qed.

(** ** Events *)

(** The leader of the role, and the messages of its view so far. *)
Definition leader_of (r : Role) : LeaderState :=
  match r with RLeader l => l | _ => leader_new end.
Definition worker_ok (n : Worker) : Prop :=
  in_view (role n) (current_view n) (leader_of (role n)) (worker_stream n).

Lemma in_view_later r v l0 s s' :
  in_view r v l0 s → current_leader s' = current_leader s → view (storage s') = v →
  in_view r v (leader_of r) s'.
Proof.
  intros [Hv Hr] Hl Hv'. split; [done|]. destruct r as [l| |]; [|done..].
  destruct Hr as [Hl' [H1 H2 H3 H4]]. split; [congruence|]. split; try done. by left.
Qed.

(** Events from outside do not touch the leader of the view. *)
#[local] Instance leader_same {A} (m : R A) : Frames scope m → Frames current_leader m.
Proof. intros Hm s. by apply (frames_weaken scope current_leader sc_leader). Qed.
#[local] Instance leader_storage {A} (m : St A) : Frames current_leader (on_storage m).
Proof. intros s. unfold on_storage. by destruct (m _). Qed.
#[local] Instance leader_sends m : Frames current_leader (internal_send m).
Proof. apply leader_same, _. Qed.
#[local] Ltac leader_kept := repeat first [progress solve_frames | apply leader_same, frames_for_others].

Lemma leader_advance v : Frames current_leader (advance_view v).
Proof. unfold advance_view. leader_kept. Qed.
#[local] Existing Instance leader_advance.
Lemma leader_on_timeout_message m addr : Frames current_leader (on_timeout_message self m addr).
Proof.
  unfold on_timeout_message, on_timeout_new_timeout, on_timeout_decide, timeout_justify, broadcast_tc.
  leader_kept.
Qed.
#[local] Existing Instance leader_on_timeout_message.
Lemma leader_on_timeout : Frames current_leader (on_timeout self).
Proof. unfold on_timeout. leader_kept. Qed.
Lemma leader_on_in_message m : Frames current_leader (on_in_message self m).
Proof.
  unfold on_in_message, on_network_protocol_open, on_network_protocol_close, on_network_message,
    on_block_committed, register_validator, request, on_req_register_validator,
    on_res_register_validator, on_req_request_proposal, on_res_request_proposal.
  leader_kept.
Qed.

Lemma stream_handler_leader r m s r' s' :
  Frames current_leader m → stream_handler r m s = (Ok r', s') →
  r' = r ∧ current_leader s' = current_leader s.
Proof.
  intros Hm (u & s1 & H & [= <- <-])%bind_inv_ok. split; [done|].
  pose proof (frames_or_warn current_leader m Hm s) as Hf. by rewrite H in Hf.
Qed.

(** A handler of the leader keeps to its view. *)
Lemma leader_handler_in_view v l m s r' s' :
  (∀ a sc, electable a → sc_authorities sc = a ∧ sc_leader sc = Some (address self) ∧ (sc_view sc).1 = v →
     Keeps (leader_inv self a v l sc) m) →
  (∀ x, scope (m x).2.2 = scope x.2) →
  electable (authorities s) → in_view (RLeader l) v l s →
  leader_handler l m s = (Ok r', s') → in_view r' v l s'.
Proof.
  intros Hk Hf Ha [Hv [Hl HI]]. specialize (Hf (l, s)). unfold leader_handler.
  assert (Keeps (leader_inv self (authorities s) v l (scope s)) m) as Hm by by apply Hk.
  specialize (Hm _ HI). destruct (m (l, s)) as [[u|[e|]] [l1 s1]]; [| |done];
    intros [= <- <-]; cbn [fst snd] in *;
    pose proof (f_equal sc_authorities Hf) as Hfa; pose proof (f_equal sc_leader Hf) as Hfl;
    pose proof (f_equal (fst ∘ sc_view) Hf) as Hfv; cbn in Hfa, Hfl, Hfv;
    (split; [congruence|]; split; [congruence|]; by rewrite Hf, Hfa).
Qed.

Lemma handle_in_view ev n r s :
  own_keys self → electable (authorities (worker_stream n)) → worker_ok n →
  handle self ev (role n) (worker_stream n) = (Ok r, s) → view (storage s) = current_view n →
  in_view r (current_view n) (leader_of (role n)) s.
Proof.
  intros Hk Ha Hok Hh Hv. unfold worker_ok in Hok. destruct n as [r0 v s0]. cbn [role current_view worker_stream] in *.
  assert (∀ m, Frames current_leader m → stream_handler r0 m s0 = (Ok r, s) →
    in_view r v (leader_of r0) s) as Hstream.
  { intros m Hm [-> Hl]%stream_handler_leader; [|done]. by apply (in_view_later r0 v (leader_of r0) s0). }
  assert (current_leader s = current_leader s0 → r = r0 → in_view r v (leader_of r0) s) as Hsame.
  { intros Hl ->. by apply (in_view_later r0 v (leader_of r0) s0). }
  destruct ev as [m| | | |t]; cbn [handle] in Hh.
  - by apply (Hstream _ (leader_on_in_message m)).
  - apply bind_inv_ok in Hh as (u & s1 & [= <- <-] & [= <- <-]). by apply Hsame.
  - unfold on_internal in Hh. apply bind_inv_ok in Hh as (o & s1 & Ht & Hh).
    assert (scope s1 = scope s0) as Hs.
    { unfold take_internal in Ht. destruct (internal s0); injection Ht as <- <-; done. }
    destruct o as [m|]; [|injection Hh as <- <-; by apply (in_view_scope _ _ _ s0)].
    apply (in_view_scope _ _ _ _ s1 Hs) in Hok.
    destruct r0 as [l| |].
    + by apply (leader_handler_in_view v l (leader_on_internal self m) s1);
        [intros; by apply keeps_on_internal|apply frames_leader_on_internal|
         rewrite (f_equal sc_authorities Hs : authorities s1 = _)| |].
    + apply stream_handler_leader in Hh as [-> Hl]; [by apply (in_view_later _ v leader_new s1)|].
      apply leader_same, _.
    + apply stream_handler_leader in Hh as [-> Hl]; [by apply (in_view_later _ v leader_new s1)|].
      apply leader_same, _.
  - assert (∀ b : bool, (if b then do! on_timeout self in ret r0 else ret r0) s0 = (Ok r, s) →
      in_view r v (leader_of r0) s) as Ht.
    { intros [] H; [|by injection H as <- <-; apply Hsame].
      apply bind_inv_ok in H as (u & s1 & H & [= <- <-]). apply Hsame; [|done].
      specialize (leader_on_timeout s0). by rewrite H. }
    destruct r0; [..|by injection Hh as <- <-; apply Hsame];
      (rewrite bind_asks in Hh; by apply Ht in Hh).
  - destruct r0 as [l| |]; [|by injection Hh as <- <-; apply Hsame..].
    by apply (leader_handler_in_view v l (try_work self (Some t) None) s0);
      [intros; by apply keeps_try_work|apply frames_try_work|..].
Qed.

(** ** Runs *)

(** The life of a task: it is started on what is on its disk, and handles
    events, while the chain, the clock, the random numbers and the faults of
    the disk to come change as they may. *)
Inductive Run : Worker → Prop :=
| run_spawn w data d now draws n :
    spawn self w data d now draws = Running n →
    electable (authorities (worker_stream n)) → Run n
| run_step n ev n' :
    Run n → step self ev n = Running n' →
    electable (authorities (worker_stream n')) → Run n'
| run_environment n w now draws d :
    Run n →
    let s := worker_stream n in
    let st := set_db (db (storage s)) d (storage s) in
    Run (Build_Worker (role n) (current_view n)
           (with_support w (with_now now (with_draws draws (with_storage st s))))).

Lemma step_in_view ev n n' :
  own_keys self → electable (authorities (worker_stream n)) → worker_ok n →
  step self ev n = Running n' → electable (authorities (worker_stream n')) →
  let now_in l0 := in_view (role n') (current_view n') l0 (worker_stream n') in
  (current_view n' = current_view n ∧ now_in (leader_of (role n))) ∨ now_in leader_new.
Proof.
  intros Hk Ha Hok Hs Ha' now_in. subst now_in. unfold step, finish in Hs.
  destruct (bind _ _ _) as [[[[r v]|]|] s] eqn:Hb; [|done..].
  injection Hs as <-. cbn [role current_view worker_stream] in *.
  apply bind_inv_ok in Hb as (r1 & s1 & Hh & Hb).
  pose proof (frames_settle LOOPS r1 (current_view n) s1) as Hf. rewrite Hb in Hf.
  pose proof (f_equal (fst ∘ fst) Hf) as Hfa. cbn in Hfa.
  apply settle_in_view in Hb as [(-> & -> & Hv & Hsc)|Hin]; [|by right|done|by rewrite <-Hfa].
  left. split; [done|]. apply (in_view_scope _ _ _ s1); [done|]. by apply (handle_in_view ev).
Qed.

(** What is sent in a view does not matter for what comes. *)
Lemma in_view_ok n l0 :
  in_view (role n) (current_view n) l0 (worker_stream n) → worker_ok n.
Proof. intros H. apply (in_view_later _ _ l0 (worker_stream n)); [done..|]. apply H. Qed.

Lemma spawn_in_view w data d now draws n :
  own_keys self → spawn self w data d now draws = Running n →
  electable (authorities (worker_stream n)) →
  in_view (role n) (current_view n) leader_new (worker_stream n).
Proof.
  intros Hk. unfold spawn. destruct (storage_new data d w) as [[[]|] [st|]]; [|done..]. cbv zeta.
  destruct (get_hotstuff_authorities w _) as [[a|]|]; [|done..].
  destruct (get_hotstuff_authorities w _) as [[l|]|]; [|done..].
  unfold finish. destruct (start _ _) as [[[[r v]|]|] s] eqn:Hs; [|done..].
  intros [= <-]. cbn [role current_view worker_stream]. intros Ha. unfold start in Hs.
  apply bind_inv_ok in Hs as (u & s1 & H1 & Hs). apply bind_inv_ok in Hs as ([r1 v1] & s2 & H2 & Hs).
  pose proof (frames_settle LOOPS r1 v1 s2) as Hf. rewrite Hs in Hf.
  pose proof (f_equal (fst ∘ fst) Hf) as Hf2. cbn in Hf2.
  pose proof (frames_run_view s1) as Hf'. rewrite H2 in Hf'.
  pose proof (f_equal (fst ∘ fst) Hf') as Hf1. cbn in Hf1.
  apply run_view_in_view in H2; [|done|by rewrite <-Hf1, <-Hf2].
  apply settle_in_view in Hs as [(-> & -> & _ & Hsc)|Hs]; [|done..|by rewrite <-Hf2].
  by apply (in_view_scope _ _ _ s2).
Qed.

Lemma run_ok n : own_keys self → Run n → worker_ok n ∧ electable (authorities (worker_stream n)).
Proof.
  intros Hk. induction 1 as [w data d now draws n Hs Ha|n ev n' _ [IH Ha] Hs Ha'|n w now draws d _ [IH Ha] s st].
  - split; [|done]. by eapply in_view_ok, spawn_in_view.
  - split; [|done].
    destruct (step_in_view ev n n' Hk Ha IH Hs Ha') as [[_ Hin]|Hin]; by apply in_view_ok in Hin.
  - split; [|done]. by apply (in_view_later _ _ _ (worker_stream n) _ IH), IH.
Qed.

(** C11: whatever happens in the life of a node, a message of a leader with a
    certificate (of the prepare, pre-commit or commit phase) carries
    signatures of distinct signers, in the leader's view and for its node,
    and every node with the authorities the leader has when it makes the
    message accepts the certificate, whether it checks its type or not. *)
Theorem leader_certificates_verify n ev n' l' ph m :
  own_keys self → Run n → step self ev n = Running n' →
  electable (authorities (worker_stream n')) →
  role n' = RLeader l' → next_message ph l' = Some m →
  (∃ l, role n = RLeader l ∧ current_view n' = current_view n ∧ next_message ph l = Some m) ∨
  (∃ node qc, cm_justify m = Some qc ∧
     certificate (authorities (worker_stream n')) (phase_type ph) (current_view n') node
       (address self) (λ _, True) qc).
Proof.
  intros Hk Hrun Hs Ha' Hr Hm. apply run_ok in Hrun as [Hok Ha]; [|done].
  pose proof (step_in_view ev n n' Hk Ha Hok Hs Ha') as Hin. cbv zeta in Hin. rewrite Hr in Hin.
  destruct Hin as [[Hv [_ [_ [_ _ _ H]]]]|[_ [_ [_ _ _ H]]]]; destruct (H ph) as [Hl|(m' & Hm' & Hc)];
    cbn [fst] in *.
  - left. destruct (role n) as [l| |]; [|by destruct ph; rewrite Hl in Hm..].
    exists l. split_and!; [done..|]. exact (eq_trans (eq_sym Hl) Hm).
  - right. rewrite Hm in Hm'. injection Hm' as <-. done.
  - rewrite Hl in Hm. by destruct ph.
  - right. rewrite Hm in Hm'. injection Hm' as <-. done.
Qed.
End Runs.

(** A sole authority proposes a block and collects its own votes in one
    step; the certificate of its commit phase is sent with its decision. *)
Definition alone : Worker := get_worker (started "A" world_one).
Definition scheduled : Worker := get_worker (step (setup "A") (EvSchedule 5) alone).
Definition decided : option ConsensusMessage := decide_message (leader_of (role scheduled)).

Lemma sample_keys k : own_keys (setup k).
Proof. by split; [intros msg pk sg [= <- <-]|]. Qed.

Lemma run_alone : Run (setup "A") alone.
Proof.
  refine (run_spawn (setup "A") world_one empty_data [] 0 [] alone _ _).
  { apply running_worker. by vm_compute. }
  apply (bool_decide_unpack _). by vm_compute.
Qed.

Lemma leads (r : Role) : match r with RLeader _ => true | _ => false end = true →
  r = RLeader (leader_of r).
Proof. by destruct r. Qed.

Lemma leader_certificates_verify_witness :
  decide_message (leader_of (role alone)) = None ∧
  ∃ m node qc, decided = Some m ∧ cm_justify m = Some qc ∧ qc_sig qc = [(b "A", [])] ∧
    certificate (authorities (worker_stream scheduled)) Commit 1 node (b "A") (λ _, True) qc.
Proof.
  assert (decide_message (leader_of (role alone)) = None) as Hnone by (vm_compute; reflexivity).
  split; [exact Hnone|].
  destruct decided as [m|] eqn:Hm; [|by vm_compute in Hm].
  assert (option_map qc_sig (decided ≫= cm_justify) = Some [(b "A", [])]) as Hsig
    by (vm_compute; reflexivity).
  rewrite Hm in Hsig. cbn [mbind option_bind] in Hsig.
  destruct (leader_certificates_verify (setup "A") alone (EvSchedule 5) scheduled
    (leader_of (role scheduled)) PhCommit m) as [(l & Hl & _ & H)|(node & qc & Hqc & Hc)].
  - apply sample_keys.
  - apply run_alone.
  - apply running_worker. vm_compute. reflexivity.
  - apply (bool_decide_unpack _). vm_compute. exact I.
  - apply leads. vm_compute. reflexivity.
  - exact Hm.
  - rewrite Hl in Hnone. cbn in Hnone, H. congruence.
  - exists m, node, qc. rewrite Hqc in Hsig. injection Hsig as Hsig. by split_and!.
Defined.

(** The next view of the sole authority, which it leads again. *)
Definition moved : HotStuffStream :=
  with_storage (set_view 2 (storage (worker_stream alone))) (worker_stream alone).
Definition settled_view (r : result Failure (option (Role * Z))) : option Z :=
  match r with Ok (Some (RLeader _, v)) => Some v | _ => None end.

Lemma view_loop_settles_witness :
  settle (setup "A") 5 (role alone) 1 moved = settle (setup "A") LOOPS (role alone) 1 moved ∧
  settled_view (settle (setup "A") LOOPS (role alone) 1 moved).1 = Some 2%Z.
Proof.
  split; [|vm_compute; reflexivity].
  apply (view_loop_settles (setup "A") 5 (role alone) 1 moved). unfold LOOPS. lia.
Defined.
