(* ===== verification/HotstuffSafety.v ===== *)
(** * HotstuffSafety

    What a replica checks before it votes, what the storage holds after a
    block and after a refresh, and who leads a view. *)
From S2P Require Import Prelude Codec Types HotstuffModule SystemModule ConsensusSupport Engine HotstuffProtocol HotstuffAuthorities HotstuffStorage HotstuffVerifier HotstuffStream HotstuffState HotstuffNode HotstuffQuorum HotstuffFrames.

(** ** Votes *)

Section Votes.
Context {SC : Scale} {CS : ConsensusSupport} {HO : HashOrder}.
Variable self : Setup.

(** The vote of this node for a node of the tree, as it is sent. *)
Definition vote_sent (t : MessageType) (v : Z) (n : Node) (leader : Address) (s s' : HotStuffStream) :
    Prop :=
  ∃ peer pk sg, known_validators s !! leader = Some peer ∧
    support_sign (secret_key self) (vote_message t v (Some n) leader) = Ok (pk, sg) ∧
    out s' = out s ++ [(peer, encode codec_hotstuff_message (MConsensusMessage
      (Build_ConsensusMessage (next_request_id s) t v (Some n) None (Some (public_key self, sg)))))].

Definition signed_vote (t : MessageType) (v : Z) (n : Node) (sg : Signature) : ConsensusMessage :=
  Build_ConsensusMessage 0 t v (Some n) None (Some (public_key self, sg)).

Lemma sign_message_eq t v n s leader :
  current_leader s = Some leader →
  sign_message self (new_message t v (Some n) None) s =
  (match support_sign (secret_key self) (vote_message t v (Some n) leader) with
   | Ok (_, sg) => Ok (signed_vote t v n sg)
   | Err e => Err (Fail e)
   end, s).
Proof.
  intros Hl. unfold sign_message. rewrite bind_asks, Hl. cbn [new_message cm_message_type cm_view cm_node].
  unfold bind, sign, try, lift. by destruct (support_sign _ _) as [[pk sg]|].
Qed.

Lemma send_vote_spec t v n s :
  let s' := (send_vote self (new_message t v (Some n) None) s).2 in
  storage s' = storage s ∧
  (out s' ≠ out s → ∃ leader, current_leader s = Some leader ∧ vote_sent t v n leader s s').
Proof.
  destruct (current_leader s) as [leader|] eqn:Hl.
  2: { unfold send_vote, sign_message. rewrite bind_assoc, bind_asks, Hl. by split; [|intros []]. }
  unfold send_vote. unfold bind. rewrite (sign_message_eq _ _ _ _ leader) by done.
  destruct (support_sign _ _) as [[pk sg]|] eqn:Hs; [|by split; [|intros []]].
  unfold send_to_leader. rewrite bind_asks, Hl. unfold consensus_message, request_validator,
    bind, asks.
  destruct (known_validators s !! leader) as [peer|] eqn:Hp; [|by split; [|intros []]].
  split; [done|].
  intros _. exists leader. split; [done|]. by exists peer, pk, sg.
Qed.

(** What is checked before a vote of each phase, and what is stored; [vetted]
    is what is known of the proposals that are kept. *)
Definition checked (vetted : Proposal → Prop) (m : ConsensusMessage) (justify : QC) (n : Node)
    (s s' : HotStuffStream) : Prop :=
  match cm_message_type m with
  | Prepare =>
      cm_node m = Some n ∧ verify_qc justify None (justify_authorities justify s) = Ok tt ∧
      (∃ p, get_proposal (n_block_hash n) (storage s) = Some p ∧
            p_block_hash p = n_block_hash n ∧ p_parent_hash p = n_parent_hash n ∧ vetted p) ∧
      safe_node n justify (storage s) = true ∧ storage s' = storage s
  | PreCommit =>
      qc_node justify = n ∧ verify_qc justify (Some Prepare) (authorities s) = Ok tt ∧
      prepare_qc (storage s') = justify ∧ DB_KEY_PREPARE_QC (db (storage s')) = Some justify
  | Commit =>
      qc_node justify = n ∧ verify_qc justify (Some PreCommit) (authorities s) = Ok tt ∧
      locked_qc (storage s') = justify ∧ DB_KEY_LOCKED_QC (db (storage s')) = Some justify
  | NewView | Decide => False
  end.

(** A vote that answers a certificate follows its update on disk. *)
Lemma replica_on_qc_spec expected update m s :
  let s' := (replica_on_qc self expected update m s).2 in
  out s' ≠ out s → ∃ justify leader st,
    cm_justify m = Some justify ∧ verify_qc justify (Some expected) (authorities s) = Ok tt ∧
    update justify (storage s) = (Ok tt, st) ∧ storage s' = st ∧ current_leader s = Some leader ∧
    vote_sent (cm_message_type m) (cm_view m) (qc_node justify) leader s s'.
Proof.
  unfold replica_on_qc. destruct (cm_justify m) as [justify|]; [|by intros []]. rewrite bind_asks.
  unfold id. destruct (verify_qc _ _ _) as [[]|] eqn:Hv; [|by intros []].
  unfold bind, on_storage. destruct (update justify (storage s)) as [[[]|] st] eqn:Hu; [|by intros []].
  pose proof (send_vote_spec (cm_message_type m) (cm_view m) (qc_node justify) (with_storage st s)) as H.
  cbv zeta in H. destruct H as [Hst H]. intros Ho. destruct (H Ho) as (leader & Hl & Hs).
  by exists justify, leader, st.
Qed.

(** What is known of the kept proposals. *)
Definition all_vetted (vetted : Proposal → Prop) (st : Storage) : Prop :=
  ∀ h p, get_proposal h st = Some p → p_block_hash p = h ∧ vetted p.

Lemma replica_on_prepare_spec vetted m addr s :
  let s' := (replica_on_prepare self m addr s).2 in
  all_vetted vetted (storage s) →
  cm_message_type m = Prepare → out s' ≠ out s → ∃ justify leader n,
    cm_justify m = Some justify ∧ checked vetted m justify n s s' ∧ current_leader s = Some leader ∧
    vote_sent Prepare (cm_view m) n leader s s'.
Proof.
  intros s' Hall Ht. subst s'. unfold replica_on_prepare, checked. rewrite Ht.
  destruct (cm_justify m) as [justify|]; [|by intros []]. rewrite bind_asks. unfold id.
  destruct (verify_qc _ _ _) as [[]|] eqn:Hv; [|by intros []].
  destruct (cm_node m) as [n|] eqn:Hn; [|by intros []].
  destruct (get_proposal _ _) as [p|] eqn:Hp; [|by intros []].
  case_decide as Hpar; [by intros []|]. destruct (safe_node _ _ _) eqn:Hsafe; [|by intros []].
  pose proof (send_vote_spec Prepare (cm_view m) n s) as H. cbv zeta in H. destruct H as [Hst H].
  intros Ho. destruct (H Ho) as (leader & Hl & Hs). exists justify, leader, n.
  destruct (Hall _ _ Hp) as [Hh Hvet].
  split_and!; try done. by exists p.
Qed.

Lemma update_prepare_ok qc st st' : update_prepare_qc qc st = (Ok tt, st') →
  prepare_qc st' = qc ∧ DB_KEY_PREPARE_QC (db st') = Some qc.
Proof.
  unfold update_prepare_qc, bind, commit_consensus_data, modify.
  by destruct (disk st) as [|[e|] d]; intros [= <-].
Qed.
Lemma update_locked_ok qc st st' : update_locked_qc qc st = (Ok tt, st') →
  locked_qc st' = qc ∧ DB_KEY_LOCKED_QC (db st') = Some qc.
Proof.
  unfold update_locked_qc, bind, commit_consensus_data, modify.
  by destruct (disk st) as [|[e|] d]; intros [= <-].
Qed.

(** A decision is not answered. *)
Lemma out_replica_on_decide m addr : Frames out (replica_on_decide m addr).
Proof.
  unfold replica_on_decide, decide_block, take_decided, stream_on_decide.
  assert (∀ A (m : M World CommonError A), Frames out (on_support m)) as Hs.
  { intros A h s. unfold on_support. by destruct (h _). }
  solve_frames.
Qed.

Lemma replica_message_eq m addr s : cm_message_type m ≠ NewView →
  replica_on_validator_message self m addr s =
  if decide (cm_view m ≠ view (storage s)) then (Ok tt, s)
  else match cm_message_type m with
       | NewView => ret tt
       | Prepare => replica_on_prepare self m addr
       | PreCommit => replica_on_pre_commit self m addr
       | Commit => replica_on_commit self m addr
       | Decide => replica_on_decide m addr
       end s.
Proof.
  intros Ht. unfold replica_on_validator_message. rewrite decide_False by done.
  rewrite bind_ret, bind_asks. by case_decide.
Qed.

Lemma replica_new_view_out m addr s : cm_message_type m = NewView →
  out (replica_on_validator_message self m addr s).2 = out s.
Proof.
  intros Ht. unfold replica_on_validator_message, keep_new_view. rewrite Ht, decide_True by done.
  unfold bind, modify, asks. by case_decide.
Qed.

(** The votes of a replica, over what is known of the proposals it keeps. *)
Lemma votes_checked vetted m addr s :
  let s' := (replica_on_validator_message self m addr s).2 in
  all_vetted vetted (storage s) →
  out s' ≠ out s →
  cm_view m = view (storage s) ∧ ∃ justify leader n,
    cm_justify m = Some justify ∧ checked vetted m justify n s s' ∧ current_leader s = Some leader ∧
    vote_sent (cm_message_type m) (cm_view m) n leader s s'.
Proof.
  cbv zeta. intros Hall. destruct (decide (cm_message_type m = NewView)) as [Ht|Ht].
  { intros []. by apply replica_new_view_out. }
  rewrite replica_message_eq by done. case_decide as Hv; [by intros []|].
  intros Ho. split; [done|]. destruct (cm_message_type m) eqn:Hm; cbn [fst snd] in *.
  - done.
  - by apply replica_on_prepare_spec.
  - apply replica_on_qc_spec in Ho as (j & l & st & Hj & Hq & Hu & Hst & Hl & Hs).
    exists j, l, (qc_node j). rewrite Hm in Hs. split_and!; try done. unfold checked,
      replica_on_pre_commit, replica_on_commit. rewrite Hm, Hst. split_and!; [done..|by eapply update_prepare_ok|by eapply update_prepare_ok].
  - apply replica_on_qc_spec in Ho as (j & l & st & Hj & Hq & Hu & Hst & Hl & Hs).
    exists j, l, (qc_node j). rewrite Hm in Hs. split_and!; try done. unfold checked,
      replica_on_pre_commit, replica_on_commit. rewrite Hm, Hst. split_and!; [done..|by eapply update_locked_ok|by eapply update_locked_ok].
  - exfalso. apply Ho. apply out_replica_on_decide.
Qed.
End Votes.

(** ** Kept proposals

    Where the proposals on the disk of a node come from, over its life. *)
Section Kept.
Context {SC : Scale} {CS : ConsensusSupport} {HO : HashOrder}.
Variable self : Setup.

(** The worlds of a node: those that it is given, and what its own calls make
    of them. *)
Inductive had (ws : list World) : World → Prop :=
| had_given w : w ∈ ws → had ws w
| had_prepare ts w : had ws w → had ws (prepare_block ts w).2
| had_commit cbp w : had ws w → had ws (commit_block cbp w).2
| had_remove hs w : had ws w → had ws (txpool_remove_transactions hs w).2.

(** The node has verified the proposal, or it has built it. *)
Definition verified (ws : list World) (p : Proposal) : Prop :=
  ∃ w cbp, had ws w ∧ (verify_proposal w p).1 = Ok (p, cbp).
Definition built (ws : list World) (p : Proposal) : Prop :=
  ∃ w ts bbp w' cbp, had ws w ∧ prepare_block ts w = (Ok bbp, w') ∧ build_block w' bbp = Ok cbp ∧
    p = {| p_parent_hash := parent_hash (cb_header cbp); p_block_hash := cb_block_hash cbp;
           p_number := bb_number bbp; p_timestamp := bb_timestamp bbp;
           p_meta_txs := tx <$> bb_meta_txs bbp; p_payload_txs := tx <$> bb_payload_txs bbp;
           p_execution_number := bb_execution_number bbp |}.
Definition vetted (ws : list World) (p : Proposal) : Prop := verified ws p ∨ built ws p.

Lemma had_more ws ws' w : ws ⊆ ws' → had ws w → had ws' w.
Proof. intros Hs. induction 1; [apply had_given; set_solver|by constructor..]. Qed.
Lemma vetted_more ws ws' p : ws ⊆ ws' → vetted ws p → vetted ws' p.
Proof.
  intros Hs [(w & cbp & Hw & H)|(w & ts & bbp & w' & cbp & Hw & H)].
  - left. exists w, cbp. split; [by eapply had_more|done].
  - right. exists w, ts, bbp, w', cbp. split; [by eapply had_more|done].
Qed.

(** The life of a node: it is started on an empty disk, and again on the one
    that it has left, whether a start has failed, its task has ended or not;
    it handles events, while the chain, the clock, the random numbers and the
    faults of the disk to come change as they may. *)
Definition disk_after (d : HotstuffData) (t : Task) : HotstuffData :=
  match t with
  | Running n => db (storage (worker_stream n))
  | Ended s => db (storage s)
  | NotStarted => d
  end.
Inductive Life : list World → HotstuffData → Task → Prop :=
| life_new : Life [] empty_data NotStarted
| life_start ws d t w disk now draws :
    Life ws d t →
    let t' := spawn self w d disk now draws in
    Life (w :: ws) (disk_after (default d (db <$> (storage_new d disk w).2)) t') t'
| life_event ws d n ev :
    Life ws d (Running n) →
    let t' := step self ev n in Life ws (disk_after d t') t'
| life_environment ws d n w now draws disk :
    Life ws d (Running n) →
    let s := worker_stream n in
    let st := set_db (db (storage s)) disk (storage s) in
    Life (w :: ws) d (Running (Build_Worker (role n) (current_view n)
      (with_support w (with_now now (with_draws draws (with_storage st s)))))).

(** *** What the calls keep

    The proposals on the disk stay vetted, and the world is one of those of
    the node. *)
Section Calls.
Variable ws : list World.
Abbreviation on_disk := (all_vetted (vetted ws)).
Definition sound (s : HotStuffStream) : Prop := had ws (support s) ∧ on_disk (storage s).
Abbreviation lsound := (λ x : LeaderState * HotStuffStream, sound x.2).

Lemma keeps_unchanged {S E A} (P : S → Prop) (m : M S E A) : (∀ s, (m s).2 = s) → Keeps P m.
Proof. intros Hm s. by rewrite Hm. Qed.
#[local] Instance keeps_panic {S A} (P : S → Prop) : Keeps P (panic (A := A)).
Proof. by apply keeps_unchanged. Qed.
#[local] Instance keeps_try {S A} (P : S → Prop) (r : CommonResult A) : Keeps P (try r).
Proof. by apply keeps_unchanged. Qed.
#[local] Instance keeps_try_panic {S A} (P : S → Prop) (r : option (CommonResult A)) : Keeps P (try_panic r).
Proof. apply keeps_unchanged. by destruct r. Qed.
#[local] Instance keeps_attempt {S A} (P : S → Prop) (m : M S Failure A) : Keeps P m → Keeps P (attempt m).
Proof. intros Hm s Hs. specialize (Hm s Hs). unfold attempt. by destruct (m s) as [[a|[]] s']. Qed.

#[local] Ltac solve_keeps :=
  intros;
  repeat first
    [ progress cbv beta zeta
    | match goal with
      | |- Keeps _ (bind _ _) => apply keeps_bind; [|intros]
      | |- Keeps _ (for_each _ _) => apply keeps_for_each; intros
      | |- Keeps _ (match ?x with _ => _ end) => destruct x
      end
    | apply _
    | apply keeps_modify; let s := fresh in let H := fresh in
      intros s H; repeat case_decide; repeat case_match; exact H ].

(** The storage. *)
Lemma disk_commit op : (∀ d h p, DB_KEY_PROPOSAL (op d) !! h = Some p →
  DB_KEY_PROPOSAL d !! h = Some p ∨ p_block_hash p = h ∧ vetted ws p) →
  Keeps on_disk (commit_consensus_data op).
Proof.
  intros Hop st H. unfold commit_consensus_data.
  destruct (disk st) as [|[e|] rest]; intros h p; unfold get_proposal; cbn; [|apply H|];
    intros Hp; (destruct (Hop _ _ _ Hp) as [Hd|Hv]; [by apply H|done]).
Qed.
#[local] Hint Extern 1 (Keeps on_disk (commit_consensus_data _)) =>
  apply disk_commit; intros; by left : typeclass_instances.
#[local] Instance disk_delete k : Keeps on_disk (commit_consensus_data (alter_proposal (delete k))).
Proof. apply disk_commit. intros d h p. cbn. rewrite lookup_delete_Some. intros [_ H]. by left. Qed.
Lemma disk_put_proposal p : vetted ws p → Keeps on_disk (put_proposal p).
Proof.
  intros Hp. unfold put_proposal. solve_keeps. apply disk_commit. intros d h q. cbn.
  rewrite lookup_insert_Some. intros [[<- <-]|[_ H]]; [by right|by left].
Qed.
#[local] Instance disk_refresh w : Keeps on_disk (refresh w).
Proof.
  unfold refresh, refresh_view, refresh_prepare_qc, refresh_locked_qc, refresh_nodes, refresh_proposals. solve_keeps.
Qed.
#[local] Instance disk_update_view v : Keeps on_disk (update_view v).
Proof. unfold update_view. solve_keeps. Qed.
#[local] Instance disk_update_prepare q : Keeps on_disk (update_prepare_qc q).
Proof. unfold update_prepare_qc. solve_keeps. Qed.
#[local] Instance disk_update_locked q : Keeps on_disk (update_locked_qc q).
Proof. unfold update_locked_qc. solve_keeps. Qed.

(** The stream. *)
#[local] Hint Extern 2 (Keeps sound (modify _)) =>
  apply keeps_modify; intros ? [??]; repeat case_decide; repeat case_match; done : typeclass_instances.
#[local] Instance sound_on_storage {A} (m : St A) : Keeps on_disk m → Keeps sound (on_storage m).
Proof. intros Hm s [Hw Hs]. specialize (Hm _ Hs). unfold on_storage. by destruct (m (storage s)). Qed.
Lemma sound_on_support {A} (m : M World CommonError A) : (∀ w, had ws w → had ws (m w).2) → Keeps sound (on_support m).
Proof. intros Hm s [Hw Hs]. specialize (Hm _ Hw). unfold on_support. by destruct (m (support s)). Qed.
#[local] Instance sound_prepare ts : Keeps sound (on_support (prepare_block ts)).
Proof. apply sound_on_support. by constructor. Qed.
#[local] Instance sound_commit cbp : Keeps sound (on_support (commit_block cbp)).
Proof. apply sound_on_support. by constructor. Qed.
#[local] Instance sound_remove hs : Keeps sound (on_support (txpool_remove_transactions hs)).
Proof. apply sound_on_support. by constructor. Qed.

#[local] Instance sound_send p m : Keeps sound (send_out_message p m).
Proof. unfold send_out_message. solve_keeps. Qed.
#[local] Instance sound_request_validator a m : Keeps sound (request_validator a m).
Proof. unfold request_validator, request. solve_keeps. Qed.
#[local] Instance sound_consensus_message a m : Keeps sound (consensus_message a m).
Proof. unfold consensus_message. solve_keeps. Qed.
#[local] Instance sound_timeout_message a m : Keeps sound (timeout_message a m).
Proof. unfold timeout_message. solve_keeps. Qed.
#[local] Instance sound_sign m : Keeps sound (sign self m).
Proof. unfold sign. solve_keeps. Qed.
#[local] Instance sound_for_others f : (∀ a, Keeps sound (f a)) → Keeps sound (for_others self f).
Proof. intros Hf. unfold for_others. solve_keeps. Qed.
#[local] Instance sound_internal_send m : Keeps sound (internal_send m).
Proof. unfold internal_send. solve_keeps. Qed.
#[local] Instance sound_next_timeout : Keeps sound (get_next_timeout_instant self).
Proof. unfold get_next_timeout_instant. solve_keeps. Qed.
#[local] Instance sound_sign_message m : Keeps sound (sign_message self m).
Proof. unfold sign_message. solve_keeps. Qed.
#[local] Instance sound_decide_block qc : Keeps sound (decide_block qc).
Proof. unfold decide_block, take_decided, stream_on_decide. solve_keeps. Qed.
#[local] Instance sound_send_to_leader m : Keeps sound (send_to_leader m).
Proof. unfold send_to_leader. solve_keeps. Qed.
#[local] Instance sound_send_new_view : Keeps sound send_new_view.
Proof. unfold send_new_view. solve_keeps. Qed.
#[local] Instance sound_take_pending p : Keeps sound (take_pending p).
Proof. unfold take_pending. solve_keeps. Qed.
#[local] Instance sound_broadcast m : Keeps sound (broadcast_message self m).
Proof. unfold broadcast_message. solve_keeps. Qed.

(** A proposal is kept once it has been verified. *)
Lemma verify_proposal_same w p q cbp : (verify_proposal w p).1 = Ok (q, cbp) → q = p.
Proof.
  unfold verify_proposal, result_bind. intros H. repeat case_match; cbn [fst] in H; congruence.
Qed.
Lemma verify_result_ok w p q cbp :
  on_proposal_verify_result (verify_proposal w p).1 = Ok (VerifyOk q cbp) →
  q = p ∧ (verify_proposal w p).1 = Ok (p, cbp).
Proof.
  destruct (verify_proposal w p).1 as [[q' cbp']|e] eqn:Hv.
  - intros [= <- <-]. by rewrite (verify_proposal_same _ _ _ _ Hv).
  - unfold on_proposal_verify_result, or_else_catch, on_proposal_verify_err. cbn [result_bind].
    repeat case_match; intros; congruence.
Qed.
Lemma sound_keep p cbp : vetted ws p →
  Keeps sound (do! modify (with_commit_block_params (Some cbp)) in on_storage (put_proposal p)).
Proof. intros Hp. pose proof (disk_put_proposal p Hp). solve_keeps. Qed.
#[local] Instance sound_on_proposal p : Keeps sound (on_proposal p).
Proof.
  unfold on_proposal. apply keeps_read. intros s Hs.
  pose proof (λ q cbp, verify_result_ok (support s) p q cbp) as Hq.
  destruct (verify_proposal (support s) p) as [r rest] eqn:Hv. cbn [fst] in Hq.
  destruct (on_proposal_verify_result r) as [[q cbp| |]|e]; [|exact Hs..].
  destruct (Hq _ _ eq_refl) as [-> ->]. apply (sound_keep p cbp); [|done].
  left. exists (support s), cbp. rewrite Hv. split; [apply Hs|done].
Qed.

(** The leader. *)
Lemma stream_inv {A} (m : R A) l s a l' s' : stream m (l, s) = (Ok a, (l', s')) → l' = l ∧ m s = (Ok a, s').
Proof. unfold stream. destruct (m s) as [r s1]. by intros [= -> -> ->]. Qed.
#[local] Instance keeps_stream {A} (m : R A) : Keeps sound m → Keeps lsound (stream m).
Proof. intros Hm [l s] Hs. specialize (Hm s Hs). unfold stream. by destruct (m s). Qed.
#[local] Instance keeps_update_leader f : Keeps lsound (update_leader f).
Proof. by intros [l s]. Qed.
#[local] Instance keeps_leader_state : Keeps lsound leader_state.
Proof. by intros x. Qed.
#[local] Instance sound_verify_message m addr : Keeps lsound (verify_message self m addr).
Proof. unfold verify_message. solve_keeps. Qed.
#[local] Instance sound_collect get set m addr on_qc :
  (∀ qc, Keeps lsound (on_qc qc)) → Keeps lsound (collect_vote self get set m addr on_qc).
Proof. intros Hq. unfold collect_vote. solve_keeps. Qed.
#[local] Instance sound_on_commit m addr : Keeps lsound (leader_on_commit self m addr).
Proof. apply sound_collect. solve_keeps. Qed.
#[local] Instance sound_on_pre_commit m addr : Keeps lsound (leader_on_pre_commit self m addr).
Proof. apply sound_collect. solve_keeps. Qed.
#[local] Instance sound_on_prepare m addr : Keeps lsound (leader_on_prepare self m addr).
Proof. apply sound_collect. solve_keeps. Qed.
#[local] Instance sound_send_proposal p m a : Keeps sound (send_proposal p m a).
Proof. unfold send_proposal, response. solve_keeps. Qed.
#[local] Instance sound_leader_on_proposal p : Keeps lsound (leader_on_proposal self p).
Proof. unfold leader_on_proposal. solve_keeps. Qed.
#[local] Instance sound_create_proposal t : Keeps lsound (create_proposal self t).
Proof.
  intros x Hs. unfold create_proposal. apply keeps_state; [done|apply _|]. intros bbp x1 Hp Hs1.
  destruct x as [l s], x1 as [l1 s1]. apply stream_inv in Hp as [-> Hp].
  unfold on_support in Hp. destruct (prepare_block t (support s)) as [[bbp'|e] w1] eqn:Hprep; [|done].
  injection Hp as -> <-. unfold bind at 1. cbn [stream asks fst snd support with_support].
  apply keeps_state; [done|apply _|]. intros cbp x2 Hb Hs2. destruct x2 as [l2 s2].
  apply stream_inv in Hb as [-> Hb]. unfold try, lift in Hb.
  destruct (build_block w1 bbp) as [cbp'|e] eqn:Hbuild; [|done]. injection Hb as -> <-. cbv zeta.
  match goal with |- context [put_proposal ?p] => assert (Keeps on_disk (put_proposal p)) end.
  { apply disk_put_proposal. right. exists (support s), t, bbp, w1, cbp. split; [apply Hs|done]. }
  exact (@keeps _ _ lsound _ _ _ _ Hs2).
Qed.
#[local] Instance sound_on_local_proposal p : Keeps lsound (on_local_proposal self p).
Proof. unfold on_local_proposal. solve_keeps. Qed.
#[local] Instance sound_choose l : Keeps sound (choose l).
Proof. intros s Hs. unfold choose. by destruct (draw _ _ _) as [[r rest]|]; [destruct (l !! _)|]. Qed.
#[local] Instance sound_work : Keeps lsound (work self).
Proof. unfold work, reuse_proposal, request_proposal. solve_keeps. Qed.
#[local] Instance sound_try_work t qc : Keeps lsound (try_work self t qc).
Proof. unfold try_work. solve_keeps. Qed.
#[local] Instance sound_on_new_view m addr : Keeps lsound (leader_on_new_view self m addr).
Proof. unfold leader_on_new_view. solve_keeps. Qed.
#[local] Instance sound_on_validator m addr : Keeps lsound (leader_on_validator_message self m addr).
Proof. unfold leader_on_validator_message. solve_keeps. Qed.
#[local] Instance sound_keep_pending m p : Keeps sound (keep_pending m p).
Proof. unfold keep_pending. solve_keeps. Qed.
#[local] Instance sound_leader_on_internal m : Keeps lsound (leader_on_internal self m).
Proof.
  unfold leader_on_internal, leader_on_validator_registered, leader_on_consensus_message, on_remote_proposal.
  solve_keeps.
Qed.
#[local] Instance sound_leader_start : Keeps sound (leader_start self).
Proof.
  assert (Keeps lsound (do! process_pending_new_view self in send_new_view_to_self self)) as Hk.
  { unfold process_pending_new_view, send_new_view_to_self. solve_keeps. }
  intros s Hs. specialize (Hk (leader_new, s) Hs). unfold leader_start. by destruct (bind _ _ _) as [[|] [l s']].
Qed.

(** The other roles, and the events. *)
#[local] Instance sound_send_vote m : Keeps sound (send_vote self m).
Proof. unfold send_vote. solve_keeps. Qed.
#[local] Instance sound_replica_message m addr : Keeps sound (replica_on_validator_message self m addr).
Proof.
  unfold replica_on_validator_message, keep_new_view, replica_on_prepare, replica_on_pre_commit,
    replica_on_commit, replica_on_decide, replica_on_qc. solve_keeps.
Qed.
#[local] Instance sound_replica_on_internal m : Keeps sound (replica_on_internal self m).
Proof.
  unfold replica_on_internal, replica_on_validator_registered, replica_on_consensus_message, on_internal_message.
  solve_keeps.
Qed.
#[local] Instance sound_observer_on_internal m : Keeps sound (observer_on_internal m).
Proof.
  unfold observer_on_internal, observer_on_validator_registered, observer_on_consensus_message,
    observer_on_validator_message, keep_new_view, on_internal_message. solve_keeps.
Qed.
#[local] Instance sound_advance v : Keeps sound (advance_view v).
Proof. unfold advance_view. solve_keeps. Qed.
#[local] Instance sound_on_timeout_message m addr : Keeps sound (on_timeout_message self m addr).
Proof.
  unfold on_timeout_message, on_timeout_new_timeout, on_timeout_decide, timeout_justify, broadcast_tc.
  solve_keeps.
Qed.
#[local] Instance sound_on_timeout : Keeps sound (on_timeout self).
Proof. unfold on_timeout, update_next_timeout_instant. solve_keeps. Qed.
#[local] Instance sound_on_in_message m : Keeps sound (on_in_message self m).
Proof.
  unfold on_in_message, on_network_protocol_open, on_network_protocol_close, on_network_message,
    on_block_committed, register_validator, request, response, on_req_register_validator,
    on_res_register_validator, on_req_request_proposal, on_res_request_proposal.
  solve_keeps.
Qed.
#[local] Instance sound_update_leader a : Keeps sound (update_current_leader a).
Proof. unfold update_current_leader. solve_keeps. Qed.
#[local] Instance sound_update_state x : Keeps sound (update_state self x).
Proof. unfold update_state. solve_keeps. Qed.
#[local] Instance sound_run_view : Keeps sound (run_view self).
Proof. unfold run_view. solve_keeps. Qed.
#[local] Instance sound_settle fuel r v : Keeps sound (settle self fuel r v).
Proof. revert r v. induction fuel as [|fuel IH]; intros r v; cbn [settle]; solve_keeps. Qed.
#[local] Instance sound_leader_handler l m : Keeps lsound m → Keeps sound (leader_handler l m).
Proof. intros Hm s Hs. specialize (Hm (l, s) Hs). unfold leader_handler. by destruct (m (l, s)) as [[|[]] [? ?]]. Qed.
#[local] Instance sound_handle ev r : Keeps sound (handle self ev r).
Proof.
  unfold handle, stream_handler, or_warn, on_internal.
  assert (Keeps sound take_internal) by (intros s; unfold take_internal; by destruct (internal s)).
  solve_keeps.
Qed.
Lemma sound_start : Keeps sound (start self).
Proof. unfold start, update_next_timeout_instant. solve_keeps. Qed.
Lemma sound_step ev n : sound (worker_stream n) →
  sound ((let! r := handle self ev (role n) in settle self LOOPS r (current_view n)) (worker_stream n)).2.
Proof. intros Hs. by apply (keeps_bind sound _ _ _ _). Qed.
Lemma disk_storage_new d disk w st : (storage_new d disk w).2 = Some st →
  (∀ h p, DB_KEY_PROPOSAL d !! h = Some p → p_block_hash p = h ∧ vetted ws p) → on_disk st.
Proof.
  unfold storage_new. destruct (get_genesis_qc w) as [[qc|e]|]; [|done..].
  set (st0 := Build_Storage _ _ _ _ _ _ _ _ _). intros Hst Hd. pose proof (disk_refresh w st0 Hd) as H.
  destruct (refresh w st0) as [r s]. by injection Hst as <-.
Qed.
End Calls.

(** *** Lives *)
Lemma sound_more ws ws' s : ws ⊆ ws' → sound ws s → sound ws' s.
Proof.
  intros Hs [Hw Hp]. split; [by eapply had_more|]. intros h p H. destruct (Hp h p H). split; [done|].
  by eapply vetted_more.
Qed.
Definition sound_disk (ws : list World) (d : HotstuffData) : Prop :=
  ∀ h p, DB_KEY_PROPOSAL d !! h = Some p → p_block_hash p = h ∧ vetted ws p.
Definition sound_task (ws : list World) (d : HotstuffData) (t : Task) : Prop :=
  sound_disk ws d ∧ match t with Running n => sound ws (worker_stream n) | _ => True end.

Lemma finish_sound ws d m : sound_disk ws d → sound ws m.2 → sound_task ws (disk_after d (finish m)) (finish m).
Proof. intros Hd Hs. destruct m as [[[[r v]|]|e] s]; cbn; (split; [apply Hs|done]). Qed.
Lemma life_sound ws d t : Life ws d t → sound_task ws d t.
Proof.
  induction 1 as [|ws d t w disk now draws _ [Hd _] t'|ws d n ev _ [Hd Hs] t'|ws d n w now draws disk _ [Hd Hs] s st].
  - split; [|done]. intros h p H. done.
  - assert (sound_disk (w :: ws) d) as Hd' by (intros h p H; destruct (Hd h p H); split; [done|]; eapply vetted_more; [|done]; set_solver).
    pose proof (disk_storage_new (w :: ws) d disk w) as Hnew.
    subst t'. unfold spawn. destruct (storage_new d disk w) as [r [st|]]; cbn [snd fst fmap option_fmap option_map default] in *.
    2: { destruct r; cbn; done. }
    specialize (Hnew st eq_refl Hd'). destruct r as [[]|e]; [|cbn; by split]. cbv zeta.
    destruct (get_hotstuff_authorities w _) as [[a|]|]; [|by split..].
    destruct (get_hotstuff_authorities w _) as [[l|]|]; [|by split..].
    apply finish_sound; [done|]. apply sound_start. split; [apply had_given; set_solver|done].
  - apply finish_sound; [done|]. by apply sound_step.
  - split.
    + intros h p H. destruct (Hd h p H). split; [done|]. eapply vetted_more; [|done]. set_solver.
    + apply (sound_more ws (w :: ws)) in Hs as [_ Hs]; [|set_solver]. split; [apply had_given; set_solver|done].
Qed.

(** C12: over the life of a node, restarts and failed writes included, a
    replica sends nothing but its votes in answer to a consensus message, and
    it votes only in its own view, to the leader of the view, with its own key:
    for a proposal on its disk that it has itself verified before it kept it
    ([verify_proposal] accepted it on the chain of the node at that time), or
    built as a leader, whose hash and parent are those of the node that it
    votes for, and that the safe node predicate allows under a justification
    that verifies; or for a certificate of the previous phase that verifies,
    and only once the certificate is on its disk. *)
Theorem votes_are_justified ws d n m addr s :
  Life ws d (Running n) →
  (∀ h, get_proposal h (storage s) = get_proposal h (storage (worker_stream n))) →
  let s' := (replica_on_validator_message self m addr s).2 in
  out s' ≠ out s →
  cm_view m = view (storage s) ∧ ∃ justify leader n,
    cm_justify m = Some justify ∧ checked (vetted ws) m justify n s s' ∧ current_leader s = Some leader ∧
    vote_sent self (cm_message_type m) (cm_view m) n leader s s'.
Proof.
  intros [_ [_ Hs]]%life_sound Hsame. apply votes_checked. intros h p. rewrite Hsame. apply Hs.
Qed.
End Kept.

(** An authority of four holds the proposal of the leader of its view, and is
    asked to vote for it. *)
Definition replica_worker : Worker :=
  get_worker (handle_all "A" (connect "B" ++ take 2 (propose "B" 5)) (started "A" world_four)).
Definition replica : HotStuffStream := worker_stream replica_worker.
#[local] Abbreviation voted :=
  (replica_on_validator_message (setup "A") (prepare_for 5) (b "B") replica).2.

Lemma life_handle_all k evs ws d t : Life (setup k) ws d t → ∃ d', Life (setup k) ws d' (handle_all k evs t).
Proof.
  revert d t. induction evs as [|ev evs IH]; intros d t Ht; [by exists d|]. cbn [handle_all foldl].
  destruct t as [n|s|]; [|by apply (IH d)..]. by eapply IH, life_event.
Qed.
Lemma replica_life : ∃ d, Life (setup "A") [world_four] d (Running replica_worker).
Proof.
  unfold replica_worker. rewrite <-(running_worker (handle_all _ _ _)) by by vm_compute.
  eapply life_handle_all. exact (life_start (setup "A") [] _ _ world_four [] 0 [] (life_new (setup "A"))).
Qed.

Lemma votes_are_justified_witness :
  length (out voted) = S (length (out replica)) ∧
  view (storage replica) = 1%Z ∧ ∃ leader n,
    checked (vetted [world_four]) (prepare_for 5) genesis_certificate n replica voted ∧
    vote_sent (setup "A") Prepare 1 n leader replica voted.
Proof.
  assert (length (out voted) = S (length (out replica))) as Hl by (vm_compute; reflexivity).
  split; [exact Hl|]. destruct replica_life as [d Hlife].
  destruct (votes_are_justified (setup "A") [world_four] d replica_worker (prepare_for 5) (b "B") replica)
    as (Hv & j & l & n & Hj & Hc & _ & Hs).
  - exact Hlife.
  - intros h. reflexivity.
  - intros Ho. rewrite Ho in Hl. exact (Nat.neq_succ_diag_r _ Hl).
  - pose proof (f_equal (default genesis_certificate) Hj : genesis_certificate = j) as <-.
    split; [exact (eq_sym Hv)|]. exists l, n. split; [exact Hc|exact Hs].
Defined.

(** ** Leaders *)

#[local] Existing Instance HotstuffModule.authorities_eq_dec.

Section Leaders.
Context {SC : Scale} {CS : ConsensusSupport} {HO : HashOrder}.

(** The task [k] views after the last confirmed block. *)
Definition views_later (k : Z) (s : HotStuffStream) : HotStuffStream :=
  with_storage (set_view (qc_view (base_commit_qc (storage s)) + k) (storage s)) s.

Lemma position_member addr members : addr ∈ members.*1 →
  ∃ i w, position addr members = Some i ∧ members !! i = Some (addr, w).
Proof.
  induction members as [|[a w] members IH]; [by intros ?%not_elem_of_nil|].
  rewrite fmap_cons, elem_of_cons. cbn [fst position]. case_decide as Ha.
  - subst. intros _. by exists 0, w.
  - intros [?|H]; [congruence|]. destruct (IH H) as (i & w' & Hp & Hi).
    exists (S i), w'. by rewrite Hp.
Qed.

Variable s : HotStuffStream.
Abbreviation members := (HotstuffModule.authority_members (authorities s)).
Abbreviation len := (Z.of_nat (length members)).
Abbreviation base := (base_commit_qc (storage s)).

(** The authorities take turns, from the one after the leader of the last
    block, or from the first one when they have just changed. *)
Lemma compute_leader_turns :
  members ≠ [] →
  (last_authorities s = authorities s → is_member (qc_leader_address base) (authorities s)) →
  ∃ i0, (0 ≤ i0 < len)%Z ∧ ∀ k, (0 ≤ qc_view base)%Z → (0 ≤ k)%Z →
    (qc_view base + k + len < 2 ^ 64)%Z →
    compute_leader (views_later k s) = fst <$> members !! Z.to_nat ((i0 + k) mod len).
Proof.
  intros Hne Hm. assert (0 < len)%Z as Hlen by (destruct members; [done|cbn; lia]).
  assert (∃ i0, (0 ≤ i0 < len)%Z ∧
    ((len < 2 ^ 64)%Z → (if decide (last_authorities s = authorities s)
          then Z.of_nat <$> position (qc_leader_address base) members
          else Some (u64 (len - 1))) = Some i0)) as (i0 & Hi0 & Hi).
  { case_decide as Hl.
    - destruct (position_member _ _ (Hm Hl)) as (i & w & Hp & Hi). exists (Z.of_nat i).
      rewrite Hp. apply lookup_lt_Some in Hi. split; [lia|done].
    - exists (len - 1)%Z. split; [lia|]. intros Hb. by rewrite u64_id by (unfold is_u64; lia). }
  exists i0. split; [done|]. intros k Hv Hk Hb. unfold compute_leader. cbv zeta.
  cbn [views_later with_storage last_authorities authorities storage set_view base_commit_qc view].
  rewrite Hi by lia. cbn [mbind option_bind]. rewrite decide_False by lia.
  replace (qc_view base + k - qc_view base)%Z with k by lia.
  by rewrite !u64_id by (rewrite ?u64_id; unfold is_u64; lia).
Qed.

(** C39: the leadership rotates: among any as many consecutive views after a
    block as there are authorities, every authority leads one, so that a
    correct one comes up whoever else is faulty. *)
Theorem every_authority_leads k0 addr :
  is_member addr (authorities s) →
  (last_authorities s = authorities s → is_member (qc_leader_address base) (authorities s)) →
  (0 ≤ qc_view base)%Z → (0 ≤ k0)%Z → (qc_view base + k0 + 2 * len < 2 ^ 64)%Z →
  ∃ k, (k0 ≤ k < k0 + len)%Z ∧ compute_leader (views_later k s) = Some addr.
Proof.
  intros Ha Hm Hv Hk Hb. destruct (position_member _ _ Ha) as (i & w & _ & Hi).
  pose proof (lookup_lt_Some _ _ _ Hi) as Hlt.
  destruct compute_leader_turns as (i0 & Hi0 & H); [by destruct members|done|].
  assert (0 < len)%Z as Hlen by lia.
  set (d := ((Z.of_nat i - (i0 + k0)) mod len)%Z).
  assert (0 ≤ d < len)%Z as Hd by by apply Z.mod_pos_bound.
  exists (k0 + d)%Z. split; [lia|]. rewrite H by lia.
  assert ((i0 + (k0 + d)) mod len = Z.of_nat i)%Z as ->.
  { unfold d. rewrite Z.add_assoc, Zplus_mod_idemp_r.
    replace (i0 + k0 + (Z.of_nat i - (i0 + k0)))%Z with (Z.of_nat i) by lia.
    apply Z.mod_small. lia. }
  by rewrite Nat2Z.id, Hi.
Qed.
End Leaders.

Lemma every_authority_leads_witness :
  is_member (b "D") (authorities replica) ∧ is_member (b "A") (authorities replica) ∧
  ∃ k, (1 ≤ k < 5)%Z ∧ compute_leader (views_later k replica) = Some (b "D").
Proof.
  assert (is_member (b "D") (authorities replica)) as HD.
  { apply (bool_decide_unpack _). vm_compute. exact I. }
  assert (is_member (b "A") (authorities replica)) as HA.
  { apply (bool_decide_unpack _). vm_compute. exact I. }
  assert (qc_leader_address (base_commit_qc (storage replica)) = b "A") as Hl by (vm_compute; reflexivity).
  assert (length (HotstuffModule.authority_members (authorities replica)) = 4) as H4 by (vm_compute; reflexivity).
  assert (qc_view (base_commit_qc (storage replica)) = 0%Z) as Hv by (vm_compute; reflexivity).
  split; [exact HD|]. split; [exact HA|].
  destruct (every_authority_leads replica 1 (b "D")) as (k & Hk & H).
  - exact HD.
  - intros _. rewrite Hl. exact HA.
  - rewrite Hv. lia.
  - lia.
  - rewrite Hv, H4. lia.
  - rewrite H4 in Hk. exists k. split; [exact Hk|exact H].
Defined.

(** ** The refresh of the storage

    What the storage of the engine holds after it is refreshed, which a node
    does when it starts and for every block. *)
Section Refresh.
Context {SC : Scale} {CS : ConsensusSupport} {HO : HashOrder}.

Lemma try_ok {S A} (r : CommonResult A) (s s' : S) a : try r s = (Ok a, s') → r = Ok a ∧ s' = s.
Proof. unfold try, lift. by destruct r; intros [= <- <-]. Qed.
Lemma try_panic_ok {S A} (r : option (CommonResult A)) (s s' : S) a :
  try_panic r s = (Ok a, s') → r = Some (Ok a) ∧ s' = s.
Proof. destruct r as [[x|e]|]; [by intros [= <- <-]|done..]. Qed.

Lemma commit_ok op st u st' : commit_consensus_data op st = (Ok u, st') → db st' = op (db st).
Proof. unfold commit_consensus_data. by destruct (disk st) as [|[e|] d]; intros [= _ <-]. Qed.

(** The later one of a certificate on disk and that of the last block. *)
Definition newer (old base : QC) : QC :=
  if decide (qc_view old ≤ qc_view base)%Z then base else old.
Lemma newer_view old base : (qc_view base ≤ qc_view (newer old base))%Z.
Proof. unfold newer. case_decide; lia. Qed.

(** A transaction leaves the other values of the disk alone. *)
Lemma frames_disk {X} (V : HotstuffData → X) op :
  (∀ d, V (op d) = V d) → Frames (λ st, V (db st)) (commit_consensus_data op).
Proof. intros HV st. unfold commit_consensus_data. by destruct (disk st) as [|[e|] d]; cbn. Qed.
#[local] Ltac disk_kept :=
  repeat first [progress solve_frames | apply frames_disk; by intros | case_decide].

(** Each part of the disk is read and fixed by one call. *)
Lemma refresh_view_ok base st v st' : refresh_view base st = (Ok v, st') →
  v = Z.max (default 0%Z (DB_KEY_VIEW (db st))) (u64 (qc_view base + 1)) ∧
  default 0%Z (DB_KEY_VIEW (db st')) = v.
Proof.
  unfold refresh_view. rewrite bind_asks. cbv zeta. case_decide.
  - intros (u & s1 & Hc%commit_ok & [= <- <-])%bind_inv_ok. rewrite Hc. cbn. split; [lia|done].
  - intros [= <- <-]. split; [lia|done].
Qed.
Lemma refresh_prepare_ok genesis base st q st' : refresh_prepare_qc genesis base st = (Ok q, st') →
  q = newer (default genesis (DB_KEY_PREPARE_QC (db st))) base ∧
  default genesis (DB_KEY_PREPARE_QC (db st')) = q.
Proof.
  unfold refresh_prepare_qc, newer. rewrite bind_asks. cbv zeta. case_decide.
  - intros (u & s1 & Hc%commit_ok & [= <- <-])%bind_inv_ok. by rewrite Hc.
  - by intros [= <- <-].
Qed.
Lemma refresh_locked_ok genesis base st q st' : refresh_locked_qc genesis base st = (Ok q, st') →
  q = newer (default genesis (DB_KEY_LOCKED_QC (db st))) base ∧
  default genesis (DB_KEY_LOCKED_QC (db st')) = q.
Proof.
  unfold refresh_locked_qc, newer. rewrite bind_asks. cbv zeta. case_decide.
  - intros (u & s1 & Hc%commit_ok & [= <- <-])%bind_inv_ok. by rewrite Hc.
  - by intros [= <- <-].
Qed.
Lemma refresh_nodes_ok base st m st' : refresh_nodes base st = (Ok m, st') →
  m = filter (to_keep base) (collect (default [] (DB_KEY_NODES (db st)))).
Proof.
  unfold refresh_nodes. rewrite bind_asks. cbv zeta. case_decide.
  - by intros (u & s1 & _ & [= <- _])%bind_inv_ok.
  - by intros [= <- _].
Qed.

(** The proposals of the keys are removed from the disk, and no others. *)
Lemma delete_proposals_ok keys st u st' :
  for_each (λ k, commit_consensus_data (alter_proposal (delete k))) keys st = (Ok u, st') →
  ∀ h, DB_KEY_PROPOSAL (db st') !! h = if decide (h ∈ keys) then None else DB_KEY_PROPOSAL (db st) !! h.
Proof.
  revert st. induction keys as [|k keys IH]; intros st.
  - intros [= _ <-] h. by rewrite decide_False by apply not_elem_of_nil.
  - intros (v & s1 & Hc%commit_ok & H)%bind_inv_ok h. rewrite (IH _ H h), Hc. cbn.
    destruct (decide (h ∈ keys)) as [Hin|Hin].
    + by rewrite decide_True by by right.
    + destruct (decide (h = k)) as [->|Hk].
      * by rewrite decide_True, lookup_delete_eq by by left.
      * rewrite decide_False, lookup_delete_ne; [done|done|].
        by intros [->|?]%elem_of_cons.
Qed.

Lemma elem_of_to_remove (base : Hash) (m : gmap Hash Node) (h : Hash) :
  h ∈ to_remove_key base m ↔ ∃ n, m !! h = Some n ∧ n_parent_hash n ≠ base.
Proof.
  unfold to_remove_key. rewrite list_elem_of_fmap. split.
  - intros ([k n] & -> & [Hk Hin]%list_elem_of_filter). apply elem_of_hash_iter in Hin.
    by exists n.
  - intros (n & Hn & Hp). exists (h, n). split; [done|]. apply list_elem_of_filter.
    split; [done|]. by apply elem_of_hash_iter.
Qed.

Lemma refresh_proposals_ok base nodes st m st' : refresh_proposals base nodes st = (Ok m, st') →
  let kept := collect (default [] (DB_KEY_PROPOSALS (db st))) in
  m = filter (to_keep base) kept ∧
  (∀ h, DB_KEY_PROPOSAL (db st') !! h =
        if decide (h ∈ to_remove_key base kept) then None else DB_KEY_PROPOSAL (db st) !! h).
Proof.
  unfold refresh_proposals. rewrite bind_asks. cbv zeta.
  intros (u & s1 & Hd & H)%bind_inv_ok. pose proof (delete_proposals_ok _ _ _ _ Hd) as Hp.
  case_decide.
  - apply bind_inv_ok in H as (v & s2 & Hc%commit_ok & [= <- <-]). rewrite Hc. by split.
  - injection H as <- <-. by split.
Qed.

Section Parts.
Context {X : Type} (V : HotstuffData → X).
Abbreviation VD := (λ st, V (db st)).

Lemma frames_refresh_view base : (∀ x d, V (put_view x d) = V d) → Frames VD (refresh_view base).
Proof. intros HV. unfold refresh_view. disk_kept. Qed.
Lemma frames_refresh_prepare g base :
  (∀ x d, V (put_prepare_qc x d) = V d) → Frames VD (refresh_prepare_qc g base).
Proof. intros HV. unfold refresh_prepare_qc. disk_kept. Qed.
Lemma frames_refresh_locked g base :
  (∀ x d, V (put_locked_qc x d) = V d) → Frames VD (refresh_locked_qc g base).
Proof. intros HV. unfold refresh_locked_qc. disk_kept. Qed.
Lemma frames_refresh_nodes base : (∀ x d, V (put_nodes x d) = V d) → Frames VD (refresh_nodes base).
Proof. intros HV. unfold refresh_nodes. disk_kept. Qed.
Lemma frames_refresh_proposals base nodes : (∀ x d, V (put_nodes x d) = V d) →
  (∀ f d, V (alter_proposal f d) = V d) → Frames VD (refresh_proposals base nodes).
Proof. intros HV HV'. unfold refresh_proposals. disk_kept. Qed.
End Parts.

Lemma after_view base st v st' : refresh_view base st = (Ok v, st') →
  DB_KEY_PREPARE_QC (db st') = DB_KEY_PREPARE_QC (db st) ∧
  DB_KEY_LOCKED_QC (db st') = DB_KEY_LOCKED_QC (db st) ∧
  DB_KEY_PROPOSALS (db st') = DB_KEY_PROPOSALS (db st) ∧
  DB_KEY_PROPOSAL (db st') = DB_KEY_PROPOSAL (db st).
Proof.
  intros H. assert (st' = (refresh_view base st).2) as -> by by rewrite H.
  split_and!; by apply frames_refresh_view.
Qed.
Lemma after_prepare g base st q st' : refresh_prepare_qc g base st = (Ok q, st') →
  DB_KEY_VIEW (db st') = DB_KEY_VIEW (db st) ∧
  DB_KEY_LOCKED_QC (db st') = DB_KEY_LOCKED_QC (db st) ∧
  DB_KEY_PROPOSALS (db st') = DB_KEY_PROPOSALS (db st) ∧
  DB_KEY_PROPOSAL (db st') = DB_KEY_PROPOSAL (db st).
Proof.
  intros H. assert (st' = (refresh_prepare_qc g base st).2) as -> by by rewrite H.
  split_and!; by apply frames_refresh_prepare.
Qed.
Lemma after_locked g base st q st' : refresh_locked_qc g base st = (Ok q, st') →
  DB_KEY_VIEW (db st') = DB_KEY_VIEW (db st) ∧
  DB_KEY_PREPARE_QC (db st') = DB_KEY_PREPARE_QC (db st) ∧
  DB_KEY_PROPOSALS (db st') = DB_KEY_PROPOSALS (db st) ∧
  DB_KEY_PROPOSAL (db st') = DB_KEY_PROPOSAL (db st).
Proof.
  intros H. assert (st' = (refresh_locked_qc g base st).2) as -> by by rewrite H.
  split_and!; by apply frames_refresh_locked.
Qed.
(** The parts that the blocks do not fix. *)
Definition fixed_parts (d : HotstuffData) : option Z * option QC * option QC * option (list (Hash * Node)) :=
  (DB_KEY_VIEW d, DB_KEY_PREPARE_QC d, DB_KEY_LOCKED_QC d, DB_KEY_PROPOSALS d).
Lemma after_nodes base st m st' : refresh_nodes base st = (Ok m, st') →
  fixed_parts (db st') = fixed_parts (db st) ∧ DB_KEY_PROPOSAL (db st') = DB_KEY_PROPOSAL (db st).
Proof.
  intros H. assert (st' = (refresh_nodes base st).2) as -> by by rewrite H.
  split; [by apply (frames_refresh_nodes fixed_parts)|by apply frames_refresh_nodes].
Qed.
Lemma after_proposals base nodes st m st' : refresh_proposals base nodes st = (Ok m, st') →
  fixed_parts (db st') = fixed_parts (db st).
Proof.
  intros H. assert (st' = (refresh_proposals base nodes st).2) as -> by by rewrite H.
  by apply (frames_refresh_proposals fixed_parts).
Qed.

(** What the storage holds agrees with what is on its disk. *)
Record on_disk (genesis : QC) (st : Storage) : Prop := {
  disk_view : default 0%Z (DB_KEY_VIEW (db st)) = view st;
  disk_prepare : default genesis (DB_KEY_PREPARE_QC (db st)) = prepare_qc st;
  disk_locked : default genesis (DB_KEY_LOCKED_QC (db st)) = locked_qc st;
}.

(** A refresh moves the storage above the last confirmed block: the view
    is the larger one of that on disk and the one after the block's
    certificate, the prepare and locked certificates are the later ones, all
    of them as they are on disk afterwards; of the proposals only those on top
    of the block are left, the others are also deleted from the disk, where
    however the list of the proposals stays as it was. *)
Theorem hotstuff_refresh_establishes w st st' : refresh w st = (Ok tt, st') →
  let old := db st in
  let kept := collect (default [] (DB_KEY_PROPOSALS old)) in
  let base := base_commit_qc st' in
  let hash := confirmed_block_hash (get_current_state w) in
  ∃ genesis, get_genesis_qc w = Some (Ok genesis) ∧
    (storage_get_proof w = Ok None ∧ base = genesis ∨
     ∃ proof, storage_get_proof w = Ok (Some proof) ∧ base = hp_commit_qc proof) ∧
    base_block_hash st' = hash ∧
    view st' = Z.max (default 0%Z (DB_KEY_VIEW old)) (u64 (qc_view base + 1)) ∧
    prepare_qc st' = newer (default genesis (DB_KEY_PREPARE_QC old)) base ∧
    locked_qc st' = newer (default genesis (DB_KEY_LOCKED_QC old)) base ∧
    on_disk genesis st' ∧
    proposals st' = filter (to_keep hash) kept ∧
    (∀ h, DB_KEY_PROPOSAL (db st') !! h =
          if decide (h ∈ to_remove_key hash kept) then None else DB_KEY_PROPOSAL old !! h) ∧
    DB_KEY_PROPOSALS (db st') = DB_KEY_PROPOSALS old.
Proof.
  intros H. cbv zeta. unfold refresh in H. apply bind_inv_ok in H as (proof & s0 & Hp & H).
  apply try_ok in Hp as [Hproof ->].
  apply bind_inv_ok in H as (genesis & s0 & Hg & H). apply try_panic_ok in Hg as [Hg ->].
  cbv zeta in H. exists genesis. split; [done|].
  set (base := match proof with Some p => hp_commit_qc p | None => genesis end) in *.
  apply bind_inv_ok in H as (v & s1 & H1 & H). apply bind_inv_ok in H as (p & s2 & H2 & H).
  apply bind_inv_ok in H as (l & s3 & H3 & H). apply bind_inv_ok in H as (nd & s4 & H4 & H).
  apply bind_inv_ok in H as (pr & s5 & H5 & [= <-]). cbn.
  split; [destruct proof as [proof|]; [right; by exists proof|by left]|]. split; [done|].
  pose proof (after_view _ _ _ _ H1) as (A1 & A2 & A3 & A4).
  pose proof (after_prepare _ _ _ _ _ H2) as (B1 & B2 & B3 & B4).
  pose proof (after_locked _ _ _ _ _ H3) as (C1 & C2 & C3 & C4).
  pose proof (after_nodes _ _ _ _ H4) as ([= D1 D2 D3 D4] & D5).
  pose proof (after_proposals _ _ _ _ _ H5) as [= E1 E2 E3 E4].
  apply refresh_view_ok in H1 as [-> V1]. apply refresh_prepare_ok in H2 as [-> V2].
  apply refresh_locked_ok in H3 as [-> V3]. apply refresh_proposals_ok in H5 as [-> V5].
  rewrite A1 in *. rewrite B2, A2 in *.
  assert (DB_KEY_PROPOSALS (db s4) = DB_KEY_PROPOSALS (db st)) as Hps by congruence.
  assert (DB_KEY_PROPOSAL (db s4) = DB_KEY_PROPOSAL (db st)) as Hp by congruence.
  rewrite Hps, Hp in V5. rewrite Hps. split_and!; try done; [split; cbn|]; congruence.
Qed.
End Refresh.

(** A node that starts again on a disk with a later view and a proposal that
    is not on top of the genesis block. *)
Definition stale : Storage :=
  let h := sample_hash 1 9 in
  set_db (Build_HotstuffData (Some 7%Z) None None None (Some [(h, Build_Node [] h)])
            {[ h := sample_proposal 9 ]}) [] genesis_storage.
#[local] Abbreviation refreshed := (refresh world_one stale).

Lemma hotstuff_refresh_establishes_witness :
  DB_KEY_PROPOSAL (db stale) !! sample_hash 1 9 = Some (sample_proposal 9) ∧
  DB_KEY_PROPOSAL (db refreshed.2) !! sample_hash 1 9 = None ∧
  ∃ base, view refreshed.2 = Z.max 7 (u64 (qc_view base + 1)).
Proof.
  split; [vm_compute; reflexivity|].
  assert (refreshed.1 = Ok tt) as Hok by (vm_compute; reflexivity).
  destruct refreshed as [r st'] eqn:Hr. cbn [fst snd] in *. subst r.
  destruct (hotstuff_refresh_establishes world_one stale st' Hr)
    as (g & _ & _ & _ & Hv & _ & _ & _ & _ & Hp & _).
  split; [|by eexists].
  rewrite Hp. apply decide_True. apply (bool_decide_unpack _). vm_compute. exact I.
Defined.
