(* ===== verification/HotstuffFindings.v ===== *)
(** * HotstuffFindings

    What the hotstuff engine does with messages that a correct authority would
    not send, or that come late. *)
From S2P Require Import Prelude Codec Types SystemModule HotstuffModule ConsensusSupport Engine HotstuffProtocol HotstuffAuthorities HotstuffStorage HotstuffVerifier HotstuffStream HotstuffState HotstuffNode HotstuffSafety HotstuffRuns.

(** ** Late messages *)

Section Late.
Context {SC : Scale} {CS : ConsensusSupport} {HO : HashOrder}.
Variable self : Setup.

(** A certified end of a view, however old, moves a node to the view after
    it: [on_timeout_decide] compares the view of the message, which is not
    signed, and not that of the certificate, so that a node goes back to views
    it has left. *)
Theorem old_certificate_moves_view_back m addr tc s :
  tm_message_type m = TimeoutDecide → tm_justify m = Some tc →
  (view (storage s) ≤ tm_view m)%Z → verify_tc tc (authorities s) = Ok tt →
  (0 ≤ tc_view tc < 2 ^ 64 - 1)%Z → disk (storage s) = [] →
  let s' := (on_timeout_message self m addr s).2 in
  view (storage s') = (tc_view tc + 1)%Z ∧ DB_KEY_VIEW (db (storage s')) = Some (tc_view tc + 1)%Z.
Proof.
  intros Ht Hj Hv Htc Hr Hd. unfold on_timeout_message. cbv zeta. rewrite bind_asks.
  case_decide; [lia|]. rewrite Ht. unfold on_timeout_decide. rewrite Hj, bind_asks, Htc.
  unfold advance_view, bind, on_storage, update_view, commit_consensus_data. unfold bind. rewrite Hd.
  rewrite u64_id by (unfold is_u64; lia). done.
Qed.

(** A vote that reaches a leader before its proposal ends its task: it
    happens to a leader that is started again in a view for which it has
    already collected votes. *)
Theorem early_vote_ends_task n l m peer addr pk sg rest :
  let s := worker_stream n in
  role n = RLeader l → prepare_message l = None →
  internal s = IConsensusMessage m peer :: rest → get_peer_address peer s = Some addr →
  is_member addr (authorities s) → addr ≠ address self → cm_view m = view (storage s) →
  cm_message_type m ∈ [Prepare; PreCommit; Commit] → cm_sig m = Some (pk, sg) →
  support_address pk = addr →
  verify_signature (vote_message (cm_message_type m) (cm_view m) (cm_node m) (address self)) pk sg = Ok tt →
  step self EvInternal n = Ended (with_internal rest s).
Proof.
  intros s Hr Hp Hi Ha Hm Hself Hv Ht Hs Hpk Hsig.
  assert (verify_message self m addr (l, with_internal rest s) = (Err Panic, (l, with_internal rest s))) as Hver.
  { unfold verify_message, leader_state. rewrite bind_asks. rewrite decide_False by done.
    rewrite Hs, decide_False by (intros H; by apply H). cbn [fst]. by rewrite Hsig, Hp. }
  assert (leader_on_validator_message self m addr (l, with_internal rest s) =
          (Err Panic, (l, with_internal rest s))) as Hval.
  { unfold leader_on_validator_message. unfold bind at 1, stream at 1, asks at 1. cbn [fst snd].
    rewrite decide_False by (intros H; by apply H).
    assert (∀ get set on_qc, collect_vote self get set m addr on_qc (l, with_internal rest s) =
      (Err Panic, (l, with_internal rest s))) as Hc.
    { intros. unfold collect_vote. by apply bind_err. }
    repeat (apply elem_of_cons in Ht as [-> |Ht]; [apply Hc|]). by apply not_elem_of_nil in Ht. }
  assert (get_peer_address peer (with_internal rest s) = Some addr) as Ha' by done.
  unfold step, handle, on_internal. rewrite Hr, bind_assoc. fold s.
  unfold bind at 1. unfold take_internal. rewrite Hi. unfold bind at 1, leader_handler, leader_on_internal,
    leader_on_consensus_message. unfold bind at 1, stream at 1, asks at 1, id at 1, from_member.
  rewrite Ha', decide_True, Hval by done. done.
Qed.
End Late.

(** ** Certificates *)

Section Certificates.
Context {SC : Scale} {CS : ConsensusSupport} {HO : HashOrder}.
Variable self : Setup.

(** A replica answers a certificate of the pre-commit phase with a commit
    vote, whatever it has voted for before. *)
Lemma commit_vote_answers m addr qc leader peer s :
  (∀ msg, ∃ x, support_sign (secret_key self) msg = Ok x) →
  disk (storage s) = [] → current_leader s = Some leader → known_validators s !! leader = Some peer →
  cm_message_type m = Commit → cm_view m = view (storage s) → cm_justify m = Some qc →
  verify_qc qc (Some PreCommit) (authorities s) = Ok tt →
  let s' := (replica_on_validator_message self m addr s).2 in
  vote_sent self Commit (cm_view m) (qc_node qc) leader s s' ∧
  disk (storage s') = [] ∧ current_leader s' = Some leader ∧
  known_validators s' !! leader = Some peer ∧ view (storage s') = view (storage s) ∧
  authorities s' = authorities s ∧ locked_qc (storage s') = qc.
Proof.
  intros Hsign Hd Hl Hp Ht Hv Hj Hq. cbv zeta. rewrite replica_message_eq by by rewrite Ht.
  rewrite decide_False by (intros H; by apply H). rewrite Ht. unfold replica_on_commit, replica_on_qc.
  rewrite Hj, bind_asks. unfold id. rewrite Hq.
  unfold on_storage, update_locked_qc, commit_consensus_data, send_vote, bind. rewrite Hd, Ht.
  cbn [modify].
  rewrite (sign_message_eq self _ _ _ _ leader) by done.
  destruct (Hsign (vote_message Commit (cm_view m) (Some (qc_node qc)) leader)) as [[pk sg] Hs].
  rewrite Hs. unfold send_to_leader, consensus_message, request_validator, bind, asks.
  cbn [with_storage current_leader known_validators]. rewrite Hl. cbn. rewrite Hp. cbn.
  split_and!; try done. by exists peer, pk, sg.
Qed.

(** A replica keeps no record of its votes: in one view it sends commit
    votes for any two nodes for which it is sent certificates, by whichever
    members, so that a leader that proposes two blocks gets both committed. *)
Theorem replica_votes_twice m1 m2 addr1 addr2 qc1 qc2 leader peer s :
  (∀ msg, ∃ x, support_sign (secret_key self) msg = Ok x) →
  disk (storage s) = [] → current_leader s = Some leader → known_validators s !! leader = Some peer →
  cm_message_type m1 = Commit → cm_message_type m2 = Commit →
  cm_view m1 = view (storage s) → cm_view m2 = view (storage s) →
  cm_justify m1 = Some qc1 → cm_justify m2 = Some qc2 →
  verify_qc qc1 (Some PreCommit) (authorities s) = Ok tt →
  verify_qc qc2 (Some PreCommit) (authorities s) = Ok tt →
  let s1 := (replica_on_validator_message self m1 addr1 s).2 in
  let s2 := (replica_on_validator_message self m2 addr2 s1).2 in
  vote_sent self Commit (view (storage s)) (qc_node qc1) leader s s1 ∧
  vote_sent self Commit (view (storage s)) (qc_node qc2) leader s1 s2 ∧
  locked_qc (storage s2) = qc2.
Proof.
  intros Hsign Hd Hl Hp Ht1 Ht2 Hv1 Hv2 Hj1 Hj2 Hq1 Hq2. cbv zeta.
  destruct (commit_vote_answers m1 addr1 qc1 leader peer s) as (H1 & Hd1 & Hl1 & Hp1 & Hw & Ha & _);
    [done..|].
  destruct (commit_vote_answers m2 addr2 qc2 leader peer (replica_on_validator_message self m1 addr1 s).2)
    as (H2 & _ & _ & _ & _ & _ & Hlock); [done..|congruence|done|by rewrite Ha|].
  rewrite <-Hv1 at 1. rewrite <-Hv2. by split_and!.
Qed.

(** A certificate of view zero is that of the genesis block and needs no
    signature, but nothing ties it to that block: sent by any member, it makes
    a replica commit the proposal it holds, and the block's proof is then
    accepted by every node. *)
Theorem unsigned_certificate_commits m addr qc p cbp s :
  cm_message_type m = Decide → cm_view m = view (storage s) → cm_justify m = Some qc →
  qc_view qc = 0%Z →
  get_proposal (n_block_hash (qc_node qc)) (storage s) = Some p →
  commit_block_params s = Some cbp → cb_block_hash cbp = p_block_hash p →
  replica_on_validator_message self m addr s =
    stream_on_decide cbp qc (with_commit_block_params None s) ∧
  ∀ w header authorities,
    wf codec_qc qc →
    get_hotstuff_authorities w (u64 (hdr_number header - 1)) = Some (Ok authorities) →
    verify_proof w header (proof_try_into (Build_HotstuffProof qc)) = Some (Ok tt).
Proof.
  intros Ht Hv Hj Hz Hp Hc Hh. assert (∀ e a, verify_qc qc e a = Ok tt) as Hq.
  { intros. unfold verify_qc. by rewrite decide_True. }
  split.
  - rewrite replica_message_eq by by rewrite Ht.
    rewrite decide_False by (intros H; by apply H). rewrite Ht. unfold replica_on_decide.
    rewrite Hj, bind_asks. unfold id. rewrite Hq. unfold decide_block, take_decided.
    rewrite bind_assoc, bind_asks, Hp, bind_assoc, bind_asks, Hc. unfold bind, modify.
    by rewrite decide_True.
  - intros w header a Hd Ha. unfold verify_proof. rewrite decide_False by by intros [].
    cbn [proof_try_into pf_data]. rewrite decode_encode by done. by rewrite Ha, Hq.
Qed.
End Certificates.

(** ** Concrete runs *)

(** An authority of four that has left two views. *)
Definition later : HotStuffStream := with_storage (set_view 3 (storage replica)) replica.
Definition first_timeout : TC := Build_TC 0 [(b "B", []); (b "C", []); (b "D", [])].
Definition late_decide : TimeoutMessage :=
  Build_TimeoutMessage 0 TimeoutDecide 3 (Some first_timeout) None.

Lemma old_certificate_moves_view_back_witness :
  view (storage later) = 3%Z ∧
  view (storage (on_timeout_message (setup "A") late_decide (b "B") later).2) = 1%Z.
Proof.
  split; [vm_compute; reflexivity|].
  apply (old_certificate_moves_view_back (setup "A") late_decide (b "B") first_timeout later).
  - reflexivity.
  - reflexivity.
  - vm_compute. intros H. discriminate H.
  - vm_compute. reflexivity.
  - cbn [tc_view first_timeout]. lia.
  - vm_compute. reflexivity.
Defined.

(** The leader of the first view, to which a vote comes back. *)
Definition early_vote : ConsensusMessage :=
  Build_ConsensusMessage 0 Prepare 1 (Some (sample_node 5)) None (Some (b "A", [])).
Definition restarted_leader : Worker :=
  get_worker (handle_all "B" (connect "A" ++ [receive "A" (MConsensusMessage early_vote)])
                (started "B" world_four)).

Lemma early_vote_ends_task_witness :
  ∃ s, step (setup "B") EvInternal restarted_leader = Ended s.
Proof.
  eexists. apply (early_vote_ends_task (setup "B") restarted_leader (leader_of (role restarted_leader))
    early_vote (b "A") (b "A") (b "A") [] []).
  - apply leads. vm_compute. reflexivity.
  - vm_compute. reflexivity.
  - vm_compute. reflexivity.
  - vm_compute. reflexivity.
  - apply (bool_decide_unpack _). vm_compute. exact I.
  - intros H. discriminate H.
  - vm_compute. reflexivity.
  - apply elem_of_cons. left. reflexivity.
  - reflexivity.
  - reflexivity.
  - vm_compute. reflexivity.
Defined.

(** The leader [B] proposes two blocks; the other authorities answer for each
    of them, so that it has certificates for both. *)
Definition certificate_for (t : MessageType) (timestamp : Z) : QC :=
  Build_QC t 1 (sample_node timestamp) (b "B") [(b "A", []); (b "C", []); (b "D", [])].
Definition commit_for (timestamp : Z) : ConsensusMessage :=
  Build_ConsensusMessage 0 Commit 1 None (Some (certificate_for PreCommit timestamp)) None.

Lemma replica_votes_twice_witness :
  sample_node 5 ≠ sample_node 6 ∧
  ∃ s1 s2, vote_sent (setup "A") Commit 1 (sample_node 5) (b "B") replica s1 ∧
           vote_sent (setup "A") Commit 1 (sample_node 6) (b "B") s1 s2.
Proof.
  split; [intros H; vm_compute in H; discriminate H|].
  destruct (replica_votes_twice (setup "A") (commit_for 5) (commit_for 6) (b "B") (b "C")
    (certificate_for PreCommit 5) (certificate_for PreCommit 6) (b "B") (b "B") replica)
    as (H1 & H2 & _).
  - intros msg. eexists. reflexivity.
  - vm_compute. reflexivity.
  - vm_compute. reflexivity.
  - vm_compute. reflexivity.
  - reflexivity.
  - reflexivity.
  - vm_compute. reflexivity.
  - vm_compute. reflexivity.
  - reflexivity.
  - reflexivity.
  - vm_compute. reflexivity.
  - vm_compute. reflexivity.
  - assert (view (storage replica) = 1%Z) as Hv by (vm_compute; reflexivity). rewrite Hv in H1, H2.
    eexists _, _. split; [exact H1|exact H2].
Defined.

(** A member that is not the leader sends a decision without signatures. *)
Definition forged_decision : ConsensusMessage :=
  Build_ConsensusMessage 0 Decide 1 None (Some (Build_QC Commit 0 (sample_node 5) [] [])) None.
Definition committed_number (s : HotStuffStream) : Z := confirmed_number (sw_state (support s)).

Definition unsigned_qc : QC := Build_QC Commit 0 (sample_node 5) [] [].

Lemma unsigned_certificate_commits_witness :
  committed_number replica = 0%Z ∧
  committed_number (replica_on_validator_message (setup "A") forged_decision (b "C") replica).2 = 1%Z ∧
  ∃ cbp, replica_on_validator_message (setup "A") forged_decision (b "C") replica =
         stream_on_decide cbp unsigned_qc (with_commit_block_params None replica).
Proof.
  split; [vm_compute; reflexivity|]. split; [vm_compute; reflexivity|].
  destruct (commit_block_params replica) as [cbp|] eqn:Hc; [|vm_compute in Hc; discriminate Hc].
  exists cbp. apply (unsigned_certificate_commits (setup "A") forged_decision (b "C") unsigned_qc
    (sample_proposal 5) cbp replica).
  - reflexivity.
  - vm_compute. reflexivity.
  - reflexivity.
  - reflexivity.
  - vm_compute. reflexivity.
  - exact Hc.
  - assert (cb_block_hash <$> commit_block_params replica = Some (p_block_hash (sample_proposal 5)))
      as Hh by (vm_compute; reflexivity).
    rewrite Hc in Hh. injection Hh as Hh. exact Hh.
Defined.
