(* ===== verification/CoordProtocol.v ===== *)
(** * CoordProtocol

    [core/node/coordinator/src/protocol.rs]: the messages between the
    coordinators of two nodes, with the codecs that their derives give, and the
    builder of handshakes ([lib.rs]). *)
From S2P Require Import Prelude Codec EnumCodec Types.

(** [struct RequestId(u64)] *)
Abbreviation RequestId := Z.
(** [type Fields = u32] *)
Abbreviation Fields := Z.
Definition FIELDS_HEADER : Fields := 1.
Definition FIELDS_BODY : Fields := 2.
Definition FIELDS_PROOF : Fields := 4.

Inductive BlockId :=
| BNumber (number : BlockNumber)
| BHash (hash : Hash).

Inductive Direction :=
| Asc
| Desc.

Record Handshake := {
  hs_genesis_hash : Hash;
  hs_confirmed_number : BlockNumber;
  hs_confirmed_hash : Hash;
  hs_nonce : Z;
}.
Record BlockAnnounce := {
  ba_block_hash : Hash;
  ba_header : Header;
}.
Record BlockRequest := {
  bq_request_id : RequestId;
  bq_fields : Fields;
  bq_block_id : BlockId;
  bq_count : Z;
  bq_direction : Direction;
}.
Record BodyData := {
  bdy_meta_txs : list Transaction;
  bdy_payload_txs : list Transaction;
}.
Record BlockData := {
  bd_number : BlockNumber;
  bd_block_hash : Hash;
  bd_header : option Header;
  bd_body : option BodyData;
  bd_proof : option Proof;
}.
Record BlockResponse := {
  bs_request_id : RequestId;
  bs_blocks : list BlockData;
}.
Record TxPropagate := { tp_txs : list Transaction }.
Record ConsensusMessage := { cm_message : bytes }.

Inductive ProtocolMessage :=
| PHandshake (m : Handshake)
| PBlockAnnounce (m : BlockAnnounce)
| PBlockRequest (m : BlockRequest)
| PBlockResponse (m : BlockResponse)
| PTxPropagate (m : TxPropagate)
| PConsensusMessage (m : ConsensusMessage).

Section Codecs.
Context {SC : Scale}.

Definition codec_handshake : Codec Handshake :=
  iso_codec (sc_pair sc_bytes (sc_pair sc_u64 (sc_pair sc_bytes sc_u64)))
    (λ '(x0, (x1, (x2, x3))), Build_Handshake x0 x1 x2 x3)
    (λ r, (hs_genesis_hash r, (hs_confirmed_number r, (hs_confirmed_hash r, hs_nonce r))))
    (λ r, match r with Build_Handshake _ _ _ _ => eq_refl end) (λ '(x0, (x1, (x2, x3))), eq_refl).

Definition codec_block_announce : Codec BlockAnnounce :=
  iso_codec (sc_pair sc_bytes codec_header)
    (λ '(x0, x1), Build_BlockAnnounce x0 x1)
    (λ r, (ba_block_hash r, ba_header r))
    (λ r, match r with Build_BlockAnnounce _ _ => eq_refl end) (λ '(x0, x1), eq_refl).

Definition codec_block_id : Codec BlockId :=
  iso_codec (sc_sum sc_u64 sc_bytes)
    (λ x, match x with inl n => BNumber n | inr h => BHash h end)
    (λ d, match d with BNumber n => inl n | BHash h => inr h end)
    (λ d, match d with BNumber _ => eq_refl | BHash _ => eq_refl end)
    (λ x, match x with inl _ => eq_refl | inr _ => eq_refl end).

Definition codec_direction : Codec Direction :=
  iso_codec (sc_sum sc_unit sc_unit)
    (λ x, match x with inl _ => Asc | inr _ => Desc end)
    (λ d, match d with Asc => inl tt | Desc => inr tt end)
    (λ d, match d with Asc => eq_refl | Desc => eq_refl end)
    (λ x, match x with inl tt => eq_refl | inr tt => eq_refl end).

Definition codec_block_request : Codec BlockRequest :=
  iso_codec (sc_pair sc_u64 (sc_pair sc_u32 (sc_pair codec_block_id (sc_pair sc_u32 codec_direction))))
    (λ '(x0, (x1, (x2, (x3, x4)))), Build_BlockRequest x0 x1 x2 x3 x4)
    (λ r, (bq_request_id r, (bq_fields r, (bq_block_id r, (bq_count r, bq_direction r)))))
    (λ r, match r with Build_BlockRequest _ _ _ _ _ => eq_refl end)
    (λ '(x0, (x1, (x2, (x3, x4)))), eq_refl).

Definition codec_body_data : Codec BodyData :=
  iso_codec (sc_pair (sc_list codec_transaction) (sc_list codec_transaction))
    (λ '(x0, x1), Build_BodyData x0 x1)
    (λ r, (bdy_meta_txs r, bdy_payload_txs r))
    (λ r, match r with Build_BodyData _ _ => eq_refl end) (λ '(x0, x1), eq_refl).

Definition codec_block_data : Codec BlockData :=
  iso_codec (sc_pair sc_u64 (sc_pair sc_bytes (sc_pair (sc_option codec_header)
               (sc_pair (sc_option codec_body_data) (sc_option codec_block_proof)))))
    (λ '(x0, (x1, (x2, (x3, x4)))), Build_BlockData x0 x1 x2 x3 x4)
    (λ r, (bd_number r, (bd_block_hash r, (bd_header r, (bd_body r, bd_proof r)))))
    (λ r, match r with Build_BlockData _ _ _ _ _ => eq_refl end)
    (λ '(x0, (x1, (x2, (x3, x4)))), eq_refl).

Definition codec_block_response : Codec BlockResponse :=
  iso_codec (sc_pair sc_u64 (sc_list codec_block_data))
    (λ '(x0, x1), Build_BlockResponse x0 x1)
    (λ r, (bs_request_id r, bs_blocks r))
    (λ r, match r with Build_BlockResponse _ _ => eq_refl end) (λ '(x0, x1), eq_refl).

Definition codec_tx_propagate : Codec TxPropagate :=
  iso_codec (sc_list codec_transaction) Build_TxPropagate tp_txs
    (λ r, match r with Build_TxPropagate _ => eq_refl end) (λ x, eq_refl).

Definition codec_consensus_message : Codec ConsensusMessage :=
  iso_codec sc_bytes Build_ConsensusMessage cm_message
    (λ r, match r with Build_ConsensusMessage _ => eq_refl end) (λ x, eq_refl).

Definition variant_handshake : Variant ProtocolMessage :=
  Build_Variant _ "Handshake" _ codec_handshake PHandshake
    (λ m, match m with PHandshake x => Some x | _ => None end) ltac:(solve_variant).
Definition variant_block_announce : Variant ProtocolMessage :=
  Build_Variant _ "BlockAnnounce" _ codec_block_announce PBlockAnnounce
    (λ m, match m with PBlockAnnounce x => Some x | _ => None end) ltac:(solve_variant).
Definition variant_block_request : Variant ProtocolMessage :=
  Build_Variant _ "BlockRequest" _ codec_block_request PBlockRequest
    (λ m, match m with PBlockRequest x => Some x | _ => None end) ltac:(solve_variant).
Definition variant_block_response : Variant ProtocolMessage :=
  Build_Variant _ "BlockResponse" _ codec_block_response PBlockResponse
    (λ m, match m with PBlockResponse x => Some x | _ => None end) ltac:(solve_variant).
Definition variant_tx_propagate : Variant ProtocolMessage :=
  Build_Variant _ "TxPropagate" _ codec_tx_propagate PTxPropagate
    (λ m, match m with PTxPropagate x => Some x | _ => None end) ltac:(solve_variant).
Definition variant_consensus_message : Variant ProtocolMessage :=
  Build_Variant _ "ConsensusMessage" _ codec_consensus_message PConsensusMessage
    (λ m, match m with PConsensusMessage x => Some x | _ => None end) ltac:(solve_variant).

Definition protocol_variants : list (Variant ProtocolMessage) :=
  [variant_handshake; variant_block_announce; variant_block_request; variant_block_response;
   variant_tx_propagate; variant_consensus_message].

#[export] Instance protocol_enum : EnumVariants protocol_variants.
Proof. solve_enum. Qed.

(** [enum ProtocolMessage] with its attribute [enum_codec] *)
Definition codec_protocol_message : Codec ProtocolMessage := enum_codec protocol_variants.

(** [DefaultHandshakeBuilder::build] *)
Definition handshake_build (genesis_hash : Hash) (confirmed : BlockNumber * Hash) (nonce : Z) : bytes :=
  encode codec_protocol_message
    (PHandshake (Build_Handshake genesis_hash confirmed.1 confirmed.2 nonce)).
End Codecs.
