(* ===== verification/CoordSupport.v ===== *)
(** * CoordSupport

    What the coordinator uses: [trait CoordinatorSupport] of
    [core/node/coordinator/src/support.rs], which joins the chain, the pool of
    transactions and the consensus engine; the messages it sends; and the
    readers of [StreamSupport] ([stream.rs]). *)
From S2P Require Import Prelude Codec Types Context ExecutorContext SystemModule Executor TxPool ConsensusSupport Engine PoaEngine Db Statedb ChainData Chain ChainSupport PeerManager RaftVerifier HotstuffVerifier CoordProtocol.

(** The part that the trait shares with the support of the engines is taken
    from there. *)
Class CoordinatorSupport : Type := {
  coord_consensus :: ConsensusSupport;
  support_block_hash : World → BlockNumber → CommonResult (option Hash);
  support_body : World → Hash → CommonResult (option Body);
  support_transaction : World → Hash → CommonResult (option Transaction);
  txpool_get_transactions : World → CommonResult (list FullTransaction);
  txpool_get_transaction : World → Hash → CommonResult (option FullTransaction);
  txpool_insert_transaction : Transaction → M World CommonError unit;
  (** [None] is a panic. *)
  consensus_verify_proof : World → Header → Proof → option (CommonResult unit);
}.

(** [lru::LruCache<Hash, ()>]: the keys, the most recently put first, up to
    the capacity.  [lru_put] also says whether the key was there. *)
Class LruLib : Type := {
  LruCache : Type;
  lru_new : nat → LruCache;
  lru_put : Hash → LruCache → bool * LruCache;
  lru_keys : LruCache → list Hash;
  lru_cap : LruCache → nat;
  lru_new_keys : ∀ n, lru_keys (lru_new n) = [];
  lru_new_cap : ∀ n, lru_cap (lru_new n) = n;
  lru_put_found : ∀ k c, (lru_put k c).1 = bool_decide (k ∈ lru_keys c);
  lru_put_keys : ∀ k c, lru_keys (lru_put k c).2 = take (lru_cap c) (k :: filter (λ x, x ≠ k) (lru_keys c));
  lru_put_cap : ∀ k c, lru_cap (lru_put k c).2 = lru_cap c;
}.

(** [core/node/coordinator/src/peer_report.rs] *)
Definition PEER_REPORT_INVALID_TX : PeerManager.PeerReport := PeerManager.Build_PeerReport (-10) "Invalid tx".
Definition PEER_REPORT_HANDSHAKE_FAILED : PeerManager.PeerReport := PeerManager.new_fatal "Handshake failed".
Definition PEER_REPORT_INVALID_BLOCK : PeerManager.PeerReport := PeerManager.Build_PeerReport (-20) "Invalid block".
Definition PEER_REPORT_BLOCK_REQUEST_TIMEOUT : PeerManager.PeerReport :=
  PeerManager.Build_PeerReport (-4) "Block request timeout".

(** [enum NetworkInMessage] of [core/node/network/src/lib.rs] *)
Inductive NetworkInMessage :=
| SendMessage (peer_id : PeerId) (message : bytes)
| DropPeer (peer_id : PeerId) (delay : option Z)
| GetNetworkState.

Definition verify_error (e : SyncVerifyError) : CommonError := ECoordinator (CoordinatorVerifyError e).
Definition data_error (msg : string) : CommonError := ECoordinator (CoordinatorData msg).

(** [iter.map(f).collect::<CommonResult<Vec<_>>>()?] *)
Fixpoint try_map {A B} (f : A → CommonResult B) (l : list A) : CommonResult (list B) :=
  match l with
  | [] => Ok []
  | x :: l => let? y := f x in let? rest := try_map f l in Ok (y :: rest)
  end.

(** ** The readers of [StreamSupport] *)
Section Readers.
Context {SU : CoordinatorSupport}.

Definition get_block_hash_by_number (w : World) (number : BlockNumber) : CommonResult Hash :=
  let? block_hash := support_block_hash w number in
  ok_or (data_error "Missing block hash") block_hash.
Definition get_header_by_block_hash (w : World) (block_hash : Hash) : CommonResult Header :=
  let? header := ConsensusSupport.get_header w block_hash in
  ok_or (data_error ("Missing header: block_hash: " +:+ ConsensusSupport.debug_hash block_hash)) header.
Definition get_proof_by_block_hash (w : World) (block_hash : Hash) : CommonResult Proof :=
  let? proof := ConsensusSupport.get_proof w block_hash in
  ok_or (data_error ("Missing proof: block_hash: " +:+ ConsensusSupport.debug_hash block_hash)) proof.
Definition get_body_by_block_hash (w : World) (block_hash : Hash) : CommonResult Body :=
  let? body := support_body w block_hash in
  ok_or (data_error ("Missing body: block_hash: " +:+ ConsensusSupport.debug_hash block_hash)) body.
Definition get_transaction_by_hash (w : World) (tx_hash : Hash) : CommonResult Transaction :=
  let? tx := support_transaction w tx_hash in
  ok_or (data_error ("Missing transaction: tx_hash: " +:+ ConsensusSupport.debug_hash tx_hash)) tx.
End Readers.

(** ** The default support

    [DefaultCoordinatorSupport] of [core/node/coordinator/src/support.rs]: the
    chain, the pool and the engine behind the coordinator, with the choice of
    the engine ([core/node/consensus/src/lib.rs]). *)

(** [enum Dispatcher] of [core/node/consensus/src/lib.rs], without the tasks of
    the engines. *)
Inductive Dispatcher :=
| EnginePoa
| EngineRaft
| EngineHotStuff.

(** Which configurations a node has, [struct ConsensusConfig]. *)
Record ConsensusConfig := {
  has_poa : bool;
  has_raft : bool;
  has_hotstuff : bool;
}.

Section Default.
Context {SC : Scale} {CR : Crypto} {TL : TrieLib} {SH : Show}.
Variable modules : list (string * ModuleOps ExecContext).
(** [config.pool_capacity] *)
Variable pool_capacity : nat.

#[local] Existing Instance default_txpool_support.

(** [Dispatcher::new]: the engine that the chain names; [None] is the panic of
    an unknown one. *)
Definition dispatcher_new {CS : ConsensusSupport} (w : World) (config : ConsensusConfig) :
    option (CommonResult Dispatcher) :=
  let consensus := SystemModule.meta_consensus (system_meta (ConsensusSupport.get_current_state w)) in
  if decide (consensus = SystemModule.CONSENSUS_POA) then
    Some (if has_poa config then Ok EnginePoa else Err (consensus_error (ConsensusData "Missing poa config")))
  else if decide (consensus = SystemModule.CONSENSUS_RAFT) then
    Some (if has_raft config then Ok EngineRaft else Err (consensus_error (ConsensusData "Missing raft config")))
  else if decide (consensus = SystemModule.CONSENSUS_HOTSTUFF) then
    Some (if has_hotstuff config then Ok EngineHotStuff
          else Err (consensus_error (ConsensusData "Missing hotstuff config")))
  else None.

(** [Dispatcher::verify_proof] *)
Definition dispatch_verify_proof {CS : ConsensusSupport} (engine : Dispatcher) (w : World) (header : Header)
    (proof : Proof) : option (CommonResult unit) :=
  match engine with
  | EnginePoa => PoaEngine.verify_proof w header proof
  | EngineRaft => RaftVerifier.verify_proof w header proof
  | EngineHotStuff => HotstuffVerifier.verify_proof w header proof
  end.

(** [DefaultCoordinatorSupport] *)
Definition default_body (w : DefaultConsensusSupport) (block_hash : Hash) : CommonResult (option Body) :=
  ChainData.get_body block_hash (chain_db w).
Definition default_txpool_get (w : DefaultConsensusSupport) (tx_hash : Hash) :
    CommonResult (option FullTransaction) := Ok (TxPool.map (txpool w) !! tx_hash).
Definition default_txpool_insert (tx : Transaction) : M DefaultConsensusSupport CommonError unit := λ w,
  on_txpool (TxPool.insert pool_capacity (default_validate_transaction modules w) tx) w.

Definition default_coordinator (engine : Dispatcher) : CoordinatorSupport :=
  @Build_CoordinatorSupport (default_support modules)
    default_block_hash default_body default_transaction default_get_transactions default_txpool_get
    default_txpool_insert (@dispatch_verify_proof (default_support modules) engine).
End Default.
