(* ===== verification/CoordVerifier.v ===== *)
(** * CoordVerifier

    [core/node/coordinator/src/verifier.rs]: what a block that is downloaded
    from a peer must satisfy before it is committed. *)
From S2P Require Import Prelude Codec Types SystemModule ConsensusSupport Engine BlockVerifier CoordProtocol CoordSupport.

Section Verifier.
Context {SU : CoordinatorSupport}.

(** The checks that the engines' verifiers share, with the errors of this one. *)
Definition shared_error (e : VerifyError) : CommonError :=
  verify_error
    match e with
    | Duplicated => SvDuplicated
    | NotBest => SvNotBest
    | InvalidExecutionGap => SvInvalidExecutionGap
    | ShouldWait => SvShouldWait
    | InvalidHeader msg => SvInvalidHeader msg
    | VDuplicatedTx msg => SvDuplicatedTx msg
    | VInvalidTx e => SvInvalidTx e
    end.

(** The header, the body and the proof of complete data. *)
Definition verify_data (bd : BlockData) : CommonResult (Header * BodyData * Proof) :=
  let? header := ok_or (verify_error SvBad) (bd_header bd) in
  let? body := ok_or (verify_error SvBad) (bd_body bd) in
  let? proof := ok_or (verify_error SvBad) (bd_proof bd) in
  Ok (header, body, proof).

Definition verify_not_repeat (w : World) (block_hash : Hash) : CommonResult unit :=
  BlockVerifier.verify_not_repeat shared_error w block_hash.

Definition verify_best (w : World) (header : Header) : CommonResult (BlockNumber * Hash * Header) :=
  let? confirmed :=
    let current_state := get_current_state w in
    let confirmed_number := confirmed_number current_state in
    let block_hash := confirmed_block_hash current_state in
    let? header := get_header w block_hash in
    let? header := ok_or (data_error ("Missing header: block_hash: " +:+ debug_hash block_hash)) header in
    Ok (confirmed_number, block_hash, header) in
  if decide (hdr_number header = u64 (confirmed.1.1 + 1) ∧ parent_hash header = confirmed.1.2)
  then Ok confirmed
  else Err (verify_error SvNotBest).

Definition verify_execution (w : World) (header confirmed_header : Header) : CommonResult unit :=
  let current_state := get_current_state w in
  let gap := payload_execution_gap header in
  if decide (gap < 1)%Z then Err (verify_error SvInvalidExecutionGap)
  else if decide (gap > SystemModule.meta_max_execution_gap (system_meta current_state))%Z
  then Err (verify_error SvInvalidExecutionGap)
  else
    let execution_number := u64 (hdr_number header - u64 gap) in
    let confirmed_execution_number :=
      u64 (hdr_number confirmed_header - u64 (payload_execution_gap confirmed_header)) in
    if decide (execution_number < confirmed_execution_number)%Z
    then Err (verify_error SvInvalidExecutionGap)
    else if decide (execution_number > executed_number current_state)%Z
    then Err (verify_error SvShouldWait)
    else Ok tt.

Definition verify_proof (w : World) (header : Header) (proof : Proof) : option (CommonResult unit) :=
  or_else_catch as_consensus
    (λ e, match e with
          | ConsensusVerifyProofError e => Some (Err (verify_error (SvInvalidProof e)))
          | _ => None
          end) <$> consensus_verify_proof w header proof.

Definition verify_body (w : World) (body : BodyData) :
    CommonResult (list FullTransaction * list FullTransaction) :=
  BlockVerifier.verify_body shared_error w (bdy_meta_txs body) (bdy_payload_txs body).

Definition verify_header (w : World) (header : Header) (proof : Proof)
    (meta_txs payload_txs : list FullTransaction) : CommonResult ChainCommitBlockParams :=
  let execution_number := u64 (hdr_number header - u64 (payload_execution_gap header)) in
  let? commit_block_params :=
    build_block w (Build_BuildBlockParams (hdr_number header) (hdr_timestamp header) meta_txs payload_txs
                     execution_number) in
  if decide (cb_header commit_block_params ≠ header) then
    Err (verify_error (SvInvalidHeader "Invalid header"))
  else Ok (with_proof proof commit_block_params).

(** [verify_block] also returns what is left of the data, which is taken
    before the proof is verified.  [None] is a panic: of [expect], or of the
    engine. *)
Definition verify_block (w : World) (block_data : option BlockData) :
    option (CommonResult ChainCommitBlockParams) * option BlockData :=
  match block_data with
  | None => (None, None)
  | Some bd =>
      match
        (let? (header, body, proof) := verify_data bd in
         let? _ := verify_not_repeat w (bd_block_hash bd) in
         let? (_confirmed_number, _confirmed_hash, confirmed_header) := verify_best w header in
         let? _ := verify_execution w header confirmed_header in
         Ok (header, body, proof))
      with
      | Err e => (Some (Err e), Some bd)
      | Ok (header, body, proof) =>
          (match verify_proof w header proof with
           | None => None
           | Some r => Some
               (let? _ := r in
                let? (meta_txs, payload_txs) := verify_body w body in
                verify_header w header proof meta_txs payload_txs)
           end, None)
      end
  end.

(** ** What an accepted block satisfies *)

Lemma verify_best_next w header x : verify_best w header = Ok x →
  x.1.1 = confirmed_number (get_current_state w) ∧
  get_header w (confirmed_block_hash (get_current_state w)) = Ok (Some x.2) ∧
  hdr_number header = u64 (confirmed_number (get_current_state w) + 1) ∧
  parent_hash header = confirmed_block_hash (get_current_state w).
Proof.
  unfold verify_best. destruct (get_header w _) as [[hd|]|] eqn:E; cbn; try done.
  case_decide as H; [|done]. intros [= <-]. by destruct H.
Qed.

Lemma verify_execution_range w header confirmed_header : verify_execution w header confirmed_header = Ok tt →
  let state := get_current_state w in
  (1 ≤ payload_execution_gap header ≤ SystemModule.meta_max_execution_gap (system_meta state))%Z ∧
  (u64 (hdr_number confirmed_header - u64 (payload_execution_gap confirmed_header))
     ≤ u64 (hdr_number header - u64 (payload_execution_gap header)) ≤ executed_number state)%Z.
Proof. unfold verify_execution. repeat (case_decide; [done|]). intros _. cbn. lia. Qed.

Lemma verify_header_built w header pf meta payload q : verify_header w header pf meta payload = Ok q →
  cb_header q = header ∧ cb_proof q = pf ∧ ∃ q', q = with_proof pf q' ∧
    build_block w (Build_BuildBlockParams (hdr_number header) (hdr_timestamp header) meta payload
      (u64 (hdr_number header - u64 (payload_execution_gap header)))) = Ok q'.
Proof.
  unfold verify_header. destruct (build_block _ _) as [q'|] eqn:E; cbn; [|done].
  case_decide as H; [done|]. intros [= <-]. split_and!; [|done|by exists q'].
  cbn. destruct (decide (cb_header q' = header)); [done|]. by destruct H.
Qed.

Lemma verify_block_run w bd q rest : verify_block w (Some bd) = (Some (Ok q), rest) →
  rest = None ∧ ∃ header body proof confirmed_header meta payload,
    bd_header bd = Some header ∧ bd_body bd = Some body ∧ bd_proof bd = Some proof ∧
    get_header w (bd_block_hash bd) = Ok None ∧
    (∃ n h, verify_best w header = Ok (n, h, confirmed_header)) ∧
    verify_execution w header confirmed_header = Ok tt ∧
    verify_proof w header proof = Some (Ok tt) ∧
    valid_txs w (bdy_meta_txs body) meta ∧ valid_txs w (bdy_payload_txs body) payload ∧
    verify_header w header proof meta payload = Ok q.
Proof.
  unfold verify_block, verify_data. destruct bd as [n h [header|] [body|] [pf|]]; cbn; try done.
  destruct (verify_not_repeat w h) as [[]|] eqn:Er; cbn; [|done].
  destruct (verify_best w header) as [[[cn ch] chd]|] eqn:Eb; cbn; [|done].
  destruct (verify_execution w header chd) as [[]|] eqn:Ee; cbn; [|done].
  destruct (verify_proof w header pf) as [[[]|]|] eqn:Ep; cbn; [|done..].
  unfold verify_body, BlockVerifier.verify_body.
  destruct (get_verified_txs _ _ (bdy_meta_txs body) _) as [meta|] eqn:Em; cbn; [|done].
  destruct (get_verified_txs _ _ (bdy_payload_txs body) _) as [payload|] eqn:El; cbn; [|done].
  destruct (verify_header w header pf meta payload) as [q'|] eqn:Eh; [|done]. intros [= <- <-].
  apply get_verified_txs_ok in Em as [Em _]. apply get_verified_txs_ok in El as [El _].
  apply verify_not_repeat_ok in Er. split; [done|].
  exists header, body, pf, chd, meta, payload. split_and!; try done. by exists cn, ch.
Qed.
End Verifier.
