(* ===== verification/CoordSync.v ===== *)
(** * CoordSync

    [core/node/coordinator/src/sync.rs]: the peers of the coordinator, the
    window of blocks that it downloads from them, the requests that it serves,
    and the propagation of transactions. *)
From S2P Require Import Prelude Codec BTreeMap Types ConsensusSupport Engine PeerManager CoordProtocol CoordSupport CoordVerifier.

Module Sync.
Definition PEER_KNOWN_BLOCKS_SIZE : nat := 1024.
Definition PENDING_BLOCKS_SIZE : Z := 2560.
Definition PEER_REQUEST_BLOCK_SIZE : Z := 128.
Definition PEER_KNOWN_TXS_SIZE : nat := Z.to_nat 10240.
Definition TX_PROPAGATE_MAX_BLOCK_BEHIND : Z := 8.

Inductive PeerState :=
| Vacant
| PeerDownloading (request_id : RequestId) (number : BlockNumber) (count : Z).

#[export] Instance PeerState_eq_dec : EqDecision PeerState.
Proof. solve_decision. Defined.

(** [struct PendingBlockInfo] has this state as its only field. *)
Inductive PendingBlockState :=
| Seen
| Downloading (from : PeerId) (request_id : RequestId)
| Downloaded (from : PeerId) (block_data : option BlockData).

Inductive MessageTarget :=
| TargetAll
| TargetOne (peer_id : PeerId).

Inductive VerifyAction :=
| ActionOk
| ActionWait
| ActionDiscard
| ActionReset.

(** The groups of consecutive entries of the window that are to be requested,
    with their first number and their size. *)
Definition group_step (max_group_size : Z) (acc : list (BlockNumber * Z) * option (BlockNumber * Z))
    (entry : BlockNumber * PendingBlockState) : list (BlockNumber * Z) * option (BlockNumber * Z) :=
  let '(groups, item) := acc in
  let '(groups, item) :=
    match entry.2, item with
    | Seen, None => (groups, Some (entry.1, 1%Z))
    | Seen, Some v => (groups, Some (v.1, u32 (v.2 + 1)))
    | _, Some v => (groups ++ [v], None)
    | _, None => (groups, None)
    end in
  match item with
  | Some v => if decide (v.2 >= max_group_size)%Z then (groups ++ [v], None) else (groups, item)
  | None => (groups, item)
  end.
Definition make_seen_groups (pending_blocks : BTreeMap PendingBlockState) (max_group_size : Z) :
    list (BlockNumber * Z) :=
  let '(groups, item) := foldl (group_step max_group_size) ([], None) pending_blocks in
  match item with
  | Some item => groups ++ [item]
  | None => groups
  end.

Definition should_tx_propagate (receiver_number sender_number : BlockNumber) : bool :=
  bool_decide (u64 (receiver_number + TX_PROPAGATE_MAX_BLOCK_BEHIND) >= sender_number)%Z.

(** [a..=b] and [a..b] *)
Definition range_incl (a b : Z) : list Z := seqZ a (b - a + 1).

(** [iter().max()] *)
Definition max_number (l : list Z) : option Z :=
  match l with
  | [] => None
  | x :: l => Some (foldl Z.max x l)
  end.

(** [iter.min_by(|a, b| a.1.cmp(b.1))]: the first of the least. *)
Fixpoint min_by {A} (f : A → Z) (l : list A) : option A :=
  match l with
  | [] => None
  | x :: l =>
      match min_by f l with
      | Some y => if decide (f y < f x)%Z then Some y else Some x
      | None => Some x
      end
  end.

Section Sync.
Context {SC : Scale} {SU : CoordinatorSupport} {LL : LruLib} {HO : HashOrder}.

Record PeerInfo := {
  known_blocks : LruCache;
  known_txs : LruCache;
  peer_confirmed_number : BlockNumber;
  peer_confirmed_hash : Hash;
  nonce : Z;
  state : PeerState;
}.

(** [struct StreamSupport] of [stream.rs]: the builder of handshakes, what has
    been sent on the channels, and the chain, the pool and the engine. *)
Record StreamSupport := {
  hb_genesis_hash : Hash;
  hb_confirmed : BlockNumber * Hash;
  peer_manager_tx : list PeerManager.InMessage;
  network_tx : list NetworkInMessage;
  consensus_tx : list ConsensusInMessage;
  ori_support : World;
}.

(** The verifier has no state of its own. *)
Record ChainSync := {
  peers : gmap PeerId PeerInfo;
  pending_blocks : BTreeMap PendingBlockState;
  support : StreamSupport;
  next_request_id : RequestId;
  block_request_timer : list (PeerId * RequestId);
}.

Definition C (A : Type) : Type := M ChainSync Failure A.

(** [ChainSync::new] *)
Definition new (support : StreamSupport) : ChainSync :=
  {| peers := ∅; pending_blocks := []; support := support; next_request_id := 0; block_request_timer := [] |}.

Definition with_peers (x : gmap PeerId PeerInfo) (s : ChainSync) : ChainSync :=
  Build_ChainSync x (pending_blocks s) (support s) (next_request_id s) (block_request_timer s).
Definition with_pending (x : BTreeMap PendingBlockState) (s : ChainSync) : ChainSync :=
  Build_ChainSync (peers s) x (support s) (next_request_id s) (block_request_timer s).
Definition with_support (x : StreamSupport) (s : ChainSync) : ChainSync :=
  Build_ChainSync (peers s) (pending_blocks s) x (next_request_id s) (block_request_timer s).
Definition with_next_id (x : RequestId) (s : ChainSync) : ChainSync :=
  Build_ChainSync (peers s) (pending_blocks s) (support s) x (block_request_timer s).
Definition with_timer (x : list (PeerId * RequestId)) (s : ChainSync) : ChainSync :=
  Build_ChainSync (peers s) (pending_blocks s) (support s) (next_request_id s) x.

Definition world (s : ChainSync) : World := ori_support (support s).
Definition with_world (w : World) (s : ChainSync) : ChainSync :=
  with_support (Build_StreamSupport (hb_genesis_hash (support s)) (hb_confirmed (support s))
    (peer_manager_tx (support s)) (network_tx (support s)) (consensus_tx (support s)) w) s.
Definition on_world {A} (m : M World CommonError A) : C A := λ s,
  let '(r, w) := m (world s) in (map_err Fail r, with_world w s).

(** The messages of [StreamSupport]. *)
Definition peer_manager_send_message (m : PeerManager.InMessage) : C unit := modify (λ s,
  let x := support s in
  with_support (Build_StreamSupport (hb_genesis_hash x) (hb_confirmed x) (peer_manager_tx x ++ [m])
    (network_tx x) (consensus_tx x) (ori_support x)) s).
Definition network_send_message (m : NetworkInMessage) : C unit := modify (λ s,
  let x := support s in
  with_support (Build_StreamSupport (hb_genesis_hash x) (hb_confirmed x) (peer_manager_tx x)
    (network_tx x ++ [m]) (consensus_tx x) (ori_support x)) s).
Definition consensus_send_message (m : ConsensusInMessage) : C unit := modify (λ s,
  let x := support s in
  with_support (Build_StreamSupport (hb_genesis_hash x) (hb_confirmed x) (peer_manager_tx x)
    (network_tx x) (consensus_tx x ++ [m]) (ori_support x)) s).
(** [*self.support.get_handshake_builder().confirmed.write() = ..] *)
Definition set_confirmed (c : BlockNumber * Hash) : C unit := modify (λ s,
  let x := support s in
  with_support (Build_StreamSupport (hb_genesis_hash x) c (peer_manager_tx x)
    (network_tx x) (consensus_tx x) (ori_support x)) s).

Definition send (peer_id : PeerId) (m : ProtocolMessage) : C unit :=
  network_send_message (SendMessage peer_id (encode codec_protocol_message m)).
Definition report (peer_id : PeerId) (r : PeerManager.PeerReport) : C unit :=
  peer_manager_send_message (PeerManager.ReportPeer peer_id r).

(** The state of the chain. *)
Definition local_number (s : ChainSync) : BlockNumber := confirmed_number (get_current_state (world s)).

Definition set_peer (peer_id : PeerId) (p : PeerInfo) : C unit :=
  modify (λ s, with_peers (<[peer_id := p]> (peers s)) s).
Definition peer_with_state (x : PeerState) (p : PeerInfo) : PeerInfo :=
  Build_PeerInfo (known_blocks p) (known_txs p) (peer_confirmed_number p) (peer_confirmed_hash p) (nonce p) x.
Definition peer_with_known_txs (x : LruCache) (p : PeerInfo) : PeerInfo :=
  Build_PeerInfo (known_blocks p) x (peer_confirmed_number p) (peer_confirmed_hash p) (nonce p) (state p).
Definition peer_with_known_blocks (x : LruCache) (p : PeerInfo) : PeerInfo :=
  Build_PeerInfo x (known_txs p) (peer_confirmed_number p) (peer_confirmed_hash p) (nonce p) (state p).

(** [for pending_block_info in self.pending_blocks.values_mut()] *)
Definition map_pending (f : BlockNumber → PendingBlockState → PendingBlockState)
    (m : BTreeMap PendingBlockState) : BTreeMap PendingBlockState := (λ kv, (kv.1, f kv.1 kv.2)) <$> m.
Definition remove_pending (number : BlockNumber) : C unit :=
  modify (λ s, with_pending (bt_remove (λ k, bool_decide (k = number)) (pending_blocks s)) s).

(** *** The latency *)
Definition max_pending_number (s : ChainSync) : BlockNumber :=
  match last (pending_blocks s) with
  | Some (k, _) => k
  | None => local_number s
  end.
Definition latency (s : ChainSync) : BlockNumber := u64 (max_pending_number s - local_number s).
Definition update_latency (old_latency : BlockNumber) : C unit :=
  let! new_latency := asks latency in
  if decide (new_latency ≠ old_latency) then consensus_send_message (SyncLatencyUpdated new_latency)
  else ret tt.

(** *** Blocks to download *)
Definition maintain_new : C unit :=
  let! ps := asks peers in
  match max_number (peer_confirmed_number <$> (hash_iter ps).*2) with
  | None => ret tt
  | Some max_peer_number =>
      let! max_pending_number := asks max_pending_number in
      let! len := asks (λ s, Z.of_nat (length (pending_blocks s))) in
      let max_to_append :=
        Z.min max_peer_number (u64 (u64 (max_pending_number + PENDING_BLOCKS_SIZE) - len)) in
      let min_to_append := u64 (max_pending_number + 1) in
      let! old_latency := asks latency in
      do! (if decide (max_to_append >= min_to_append)%Z then
             modify (λ s, with_pending
               (foldl (λ m number, bt_insert number Seen m) (pending_blocks s)
                  (range_incl min_to_append max_to_append)) s)
           else
             modify (λ s, with_pending
               (bt_remove (λ k, bool_decide (u64 (max_to_append + 1) ≤ k ≤ max_pending_number)%Z)
                  (pending_blocks s)) s)) in
      update_latency old_latency
  end.

Definition take_request_id : C RequestId := λ s,
  (Ok (next_request_id s), with_next_id (next_id (next_request_id s)) s).

(** The peer with the least number that is vacant and has the blocks. *)
Definition find_peer (number size : Z) (ps : gmap PeerId PeerInfo) : option (PeerId * PeerInfo) :=
  min_by (λ p, peer_confirmed_number p.2)
    (filter (λ p, state p.2 = Vacant ∧ (peer_confirmed_number p.2 >= u64 (u64 (number + size) - 1))%Z)
       (hash_iter ps)).

Definition request_group (group : BlockNumber * Z) : C unit :=
  let '(number, size) := group in
  let! ps := asks peers in
  match find_peer number size ps with
  | None => ret tt
  | Some (peer_id, peer_info) =>
      let! request_id := take_request_id in
      do! send peer_id (PBlockRequest
            {| bq_request_id := request_id;
               bq_fields := Z.lor (Z.lor FIELDS_HEADER FIELDS_BODY) FIELDS_PROOF;
               bq_block_id := BNumber number; bq_count := size; bq_direction := Asc |}) in
      do! set_peer peer_id (peer_with_state (PeerDownloading request_id number size) peer_info) in
      do! modify (λ s, with_pending
            (map_pending (λ n st, if decide (number ≤ n < u64 (number + size))%Z
                                  then Downloading peer_id request_id else st) (pending_blocks s)) s) in
      modify (λ s, with_timer (block_request_timer s ++ [(peer_id, request_id)]) s)
  end.

Definition maintain_seen : C unit :=
  let! pending := asks pending_blocks in
  for_each request_group (make_seen_groups pending PEER_REQUEST_BLOCK_SIZE).

Definition sync : C unit := do! maintain_new in maintain_seen.

(** *** Blocks that have been downloaded *)
Definition on_verify_ok (commit_block_params : ChainCommitBlockParams) : M World CommonError VerifyAction :=
  let tx_hash_set : gset Hash := list_to_set (body_meta_txs (cb_body commit_block_params) ++
                                              body_payload_txs (cb_body commit_block_params)) in
  let! (action, remove_from_txpool) := λ w,
    let '(r, w) := commit_block commit_block_params w in
    (or_else_catch as_chain
       (λ e, match e with
             | ChainCommitBlockError CbDuplicated => Some (Ok (ActionDiscard, true))
             | ChainCommitBlockError CbNotBest => Some (Ok (ActionReset, false))
             | _ => None
             end) (let? _ := r in Ok (ActionOk, true)), w) in
  do! (if remove_from_txpool : bool then txpool_remove_transactions tx_hash_set else ret tt) in
  ret action.

Definition on_verify_err (e : SyncVerifyError) : VerifyAction :=
  match e with
  | SvShouldWait => ActionWait
  | SvDuplicated => ActionDiscard
  | _ => ActionReset
  end.

Definition on_verify_result (result : CommonResult ChainCommitBlockParams) :
    M World CommonError VerifyAction := λ w,
  let '(r, w) := bind (lift result) on_verify_ok w in
  (or_else_catch as_coordinator
     (λ e, match e with
           | CoordinatorVerifyError e => Some (Ok (on_verify_err e))
           | _ => None
           end) r, w).

(** The turn of the loop for the first block of the window: whether the loop
    goes on. *)
Definition downloaded_turn : C bool :=
  let! pending := asks pending_blocks in
  match pending with
  | (first_downloaded_number, Downloaded from block_data) :: _ =>
      do! remove_pending first_downloaded_number in
      let! w := asks world in
      let (result, block_data) := verify_block w block_data in
      let! action := match result with
                     | Some result => on_world (on_verify_result result)
                     | None => panic
                     end in
      match action with
      | ActionOk => ret true
      | ActionWait =>
          do! modify (λ s, with_pending
                (bt_insert first_downloaded_number (Downloaded from block_data) (pending_blocks s)) s) in
          ret false
      | ActionDiscard => ret false
      | ActionReset =>
          do! modify (λ s, with_pending
                (map_pending (λ _ st, match st with
                                      | Downloaded from' _ => if decide (from' = from) then Seen else st
                                      | _ => st
                                      end) (pending_blocks s)) s) in
          do! report from PEER_REPORT_INVALID_BLOCK in
          ret false
      end
  | _ => ret false
  end.

Fixpoint downloaded_loop (fuel : nat) : C unit :=
  match fuel with
  | O => ret tt
  | S fuel =>
      let! continue := downloaded_turn in
      if continue : bool then downloaded_loop fuel else ret tt
  end.

(** Every turn that goes on removes an entry. *)
Definition maintain_downloaded : C unit :=
  let! old_latency := asks latency in
  let! pending := asks pending_blocks in
  do! downloaded_loop (S (length pending)) in
  do! update_latency old_latency in
  sync.

Definition on_execution_committed (_number : BlockNumber) (_hash : Hash) : C unit := maintain_downloaded.

(** *** The announcement of a block *)
Definition is_target (target : MessageTarget) (peer_id : PeerId) : bool :=
  match target with
  | TargetAll => true
  | TargetOne target_peer_id => bool_decide (peer_id = target_peer_id)
  end.

(** [self.peers.iter_mut().filter(..)] *)
Definition target_peers (target : MessageTarget) (s : ChainSync) : list (PeerId * PeerInfo) :=
  filter (λ p, is_target target p.1) (hash_iter (peers s)).

Definition announce_to (block_hash : Hash) (message : ProtocolMessage) (peer : PeerId * PeerInfo) : C unit :=
  let (found, known_blocks) := lru_put block_hash (known_blocks peer.2) in
  do! set_peer peer.1 (peer_with_known_blocks known_blocks peer.2) in
  if found : bool then ret tt else send peer.1 message.
Definition announce_block (block_hash : Hash) (header : Header) (target : MessageTarget) : C unit :=
  let message := PBlockAnnounce {| ba_block_hash := block_hash; ba_header := header |} in
  let! ps := asks (target_peers target) in
  for_each (announce_to block_hash message) ps.

Definition on_block_committed (number : BlockNumber) (block_hash : Hash) : C unit :=
  do! set_confirmed (number, block_hash) in
  let! old_latency := asks latency in
  do! remove_pending number in
  do! update_latency old_latency in
  let! w := asks world in
  let! header := try (get_header_by_block_hash w block_hash) in
  do! announce_block block_hash header TargetAll in
  consensus_send_message (BlockCommitted number block_hash).

(** *** Requests and responses *)
Definition on_block_announce (peer_id : PeerId) (block_announce : BlockAnnounce) : C unit :=
  let! ps := asks peers in
  do! (match ps !! peer_id with
       | Some peer =>
           set_peer peer_id
             {| known_blocks := (lru_put (ba_block_hash block_announce) (known_blocks peer)).2;
                known_txs := known_txs peer;
                peer_confirmed_number := hdr_number (ba_header block_announce);
                peer_confirmed_hash := ba_block_hash block_announce;
                nonce := nonce peer; state := state peer |}
       | None => ret tt
       end) in
  sync.

(** The data of a block for the fields that are asked for. *)
Definition has_field (fields field : Fields) : bool := bool_decide (Z.land fields field = field).
Definition read_block (w : World) (fields : Fields) (block_hash : Hash) : CommonResult BlockData :=
  let? header := get_header_by_block_hash w block_hash in
  let? body :=
    if has_field fields FIELDS_BODY then
      let? body := get_body_by_block_hash w block_hash in
      let? meta_txs := try_map (get_transaction_by_hash w) (body_meta_txs body) in
      let? payload_txs := try_map (get_transaction_by_hash w) (body_payload_txs body) in
      Ok (Some (Build_BodyData meta_txs payload_txs))
    else Ok None in
  let? proof :=
    if has_field fields FIELDS_PROOF then
      let? proof := get_proof_by_block_hash w block_hash in Ok (Some proof)
    else Ok None in
  Ok {| bd_number := hdr_number header; bd_block_hash := block_hash;
        bd_header := if has_field fields FIELDS_HEADER then Some header else None;
        bd_body := body; bd_proof := proof |}.
Definition block_id_hash (w : World) (block_id : BlockId) : CommonResult Hash :=
  match block_id with
  | BNumber number => get_block_hash_by_number w number
  | BHash hash => Ok hash
  end.

(** The number of the block after one in the direction of the request. *)
Definition next_number (confirmed_number : BlockNumber) (direction : Direction) (number : BlockNumber) :
    option BlockNumber :=
  match direction with
  | Asc => if decide (number >= confirmed_number)%Z then None else Some (u64 (number + 1))
  | Desc => if decide (number = 0%Z) then None else Some (u64 (number - 1))
  end.

(** The loop over the blocks; [blocks] are those already read. *)
Fixpoint request_loop (fuel : nat) (w : World) (confirmed_number : BlockNumber) (q : BlockRequest)
    (block_id : BlockId) (blocks : list BlockData) : CommonResult (list BlockData) :=
  match fuel with
  | O => Ok blocks
  | S fuel =>
      let? block_hash := block_id_hash w block_id in
      let? block_data := read_block w (bq_fields q) block_hash in
      let blocks := blocks ++ [block_data] in
      if decide (u32 (Z.of_nat (length blocks)) >= bq_count q)%Z then Ok blocks
      else
        match next_number confirmed_number (bq_direction q) (bd_number block_data) with
        | None => Ok blocks
        | Some number => request_loop fuel w confirmed_number q (BNumber number) blocks
        end
  end.

(** The loop ends when as many blocks as are asked for have been read. *)
Definition requested_blocks (w : World) (q : BlockRequest) : CommonResult (list BlockData) :=
  request_loop (Z.to_nat (Z.max 1 (bq_count q))) w (confirmed_number (get_current_state w)) q (bq_block_id q) [].

Definition on_block_request (peer_id : PeerId) (block_request : BlockRequest) : C unit :=
  let! w := asks world in
  let! blocks := try (requested_blocks w block_request) in
  send peer_id (PBlockResponse {| bs_request_id := bq_request_id block_request; bs_blocks := blocks |}).

Definition on_block_request_timer_trigger (peer_id : PeerId) (request_id : RequestId) : C unit :=
  let! ps := asks peers in
  match ps !! peer_id with
  | Some peer_info =>
      match state peer_info with
      | PeerDownloading rid number count =>
          if decide (rid = request_id) then
            do! set_peer peer_id (peer_with_state Vacant peer_info) in
            do! modify (λ s, with_pending
                  (map_pending (λ _ st, match st with
                                        | Downloading _ rid => if decide (rid = request_id) then Seen else st
                                        | _ => st
                                        end) (pending_blocks s)) s) in
            do! report peer_id PEER_REPORT_BLOCK_REQUEST_TIMEOUT in
            sync
          else ret tt
      | Vacant => ret tt
      end
  | None => ret tt
  end.

(** A block of a response: it is kept when its number is being downloaded,
    from whichever peer. *)
Definition receive_block (from : PeerId) (m : BTreeMap PendingBlockState) (bd : BlockData) :
    BTreeMap PendingBlockState :=
  match bt_get (bd_number bd) m with
  | Some (Downloading _ _) => bt_insert (bd_number bd) (Downloaded from (Some bd)) m
  | _ => m
  end.

Definition on_block_response (peer_id : PeerId) (block_response : BlockResponse) : C unit :=
  let! ps := asks peers in
  do! (match ps !! peer_id with
       | Some peer_info =>
           match state peer_info with
           | PeerDownloading request_id number count =>
               if decide (request_id = bs_request_id block_response) then
                 do! modify (λ s, with_pending
                       (foldl (receive_block peer_id) (pending_blocks s) (bs_blocks block_response)) s) in
                 set_peer peer_id (peer_with_state Vacant peer_info)
               else ret tt
           | Vacant => ret tt
           end
       | None => ret tt
       end) in
  maintain_downloaded.

(** *** The propagation of transactions *)

(** The transactions that the peer is not known to have, in order. *)
Fixpoint to_propagate (known : LruCache) (txs : list FullTransaction) : list Transaction * LruCache :=
  match txs with
  | [] => ([], known)
  | t :: txs =>
      let (found, known) := lru_put (tx_hash t) known in
      let (rest, known) := to_propagate known txs in
      (if found : bool then rest else tx t :: rest, known)
  end.

Definition propagate_to (txs : list FullTransaction) (peer : PeerId * PeerInfo) : C unit :=
  let (to_propagate_txs, known_txs) := to_propagate (known_txs peer.2) txs in
  do! set_peer peer.1 (peer_with_known_txs known_txs peer.2) in
  match to_propagate_txs with
  | [] => ret tt
  | _ => send peer.1 (PTxPropagate (Build_TxPropagate to_propagate_txs))
  end.
Definition propagate_txs (txs : list FullTransaction) (target : MessageTarget) : C unit :=
  let! ps := asks (target_peers target) in
  for_each (propagate_to txs) ps.

Definition on_tx_inserted (tx_hash : Hash) : C unit :=
  let! w := asks world in
  let! tx := try (txpool_get_transaction w tx_hash) in
  match tx with
  | Some tx => propagate_txs [tx] TargetAll
  | None => ret tt
  end.

Definition on_insert_result (result : CommonResult unit) (peer_id : PeerId) : C unit :=
  match result with
  | Ok _ => ret tt
  | Err e =>
      match as_txpool e with
      | Some (TxPoolInsertError e) =>
          match e with
          | InvalidTx _ => report peer_id PEER_REPORT_INVALID_TX
          | _ => ret tt
          end
      | _ => throw (Fail e)
      end
  end.

(** A transaction that a peer sends. *)
Definition receive_tx (peer_id : PeerId) (tx : Transaction) : C unit :=
  let! ps := asks peers in
  match ps !! peer_id with
  | None => ret tt
  | Some peer_info =>
      let! tx_hash := try (hash_transaction tx) in
      let (found, known_txs) := lru_put tx_hash (known_txs peer_info) in
      do! set_peer peer_id (peer_with_known_txs known_txs peer_info) in
      if found : bool then ret tt
      else
        let! result := attempt (on_world (txpool_insert_transaction tx)) in
        on_insert_result result peer_id
  end.
Definition on_tx_propagate (peer_id : PeerId) (tx_propagate : TxPropagate) : C unit :=
  let! current_number := asks local_number in
  let! ps := asks peers in
  let peer_max_number := default 0%Z (max_number (peer_confirmed_number <$> (hash_iter ps).*2)) in
  if should_tx_propagate current_number peer_max_number then
    for_each (receive_tx peer_id) (tp_txs tx_propagate)
  else ret tt.

Definition initial_propagate_txs (peer_id : PeerId) : C unit :=
  let! ps := asks peers in
  match ps !! peer_id with
  | None => ret tt
  | Some peer =>
      let! current_number := asks local_number in
      if should_tx_propagate (peer_confirmed_number peer) current_number then
        let! w := asks world in
        let! txs := try (txpool_get_transactions w) in
        propagate_txs txs (TargetOne peer_id)
      else ret tt
  end.

(** *** Peers *)
Definition on_protocol_open (peer_id : PeerId) (nonce : Z) (handshake : Handshake) : C unit :=
  do! set_peer peer_id
    {| known_blocks := lru_new PEER_KNOWN_BLOCKS_SIZE; known_txs := lru_new PEER_KNOWN_TXS_SIZE;
       peer_confirmed_number := hs_confirmed_number handshake;
       peer_confirmed_hash := hs_confirmed_hash handshake; nonce := nonce; state := Vacant |} in
  do! sync in
  initial_propagate_txs peer_id.

Definition on_protocol_close (peer_id : PeerId) : C unit :=
  do! modify (λ s, with_peers (delete peer_id (peers s)) s) in
  do! modify (λ s, with_pending
        (map_pending (λ _ st, match st with
                              | Downloading from _ => if decide (from = peer_id) then Seen else st
                              | _ => st
                              end) (pending_blocks s)) s) in
  sync.
End Sync.
End Sync.
