(* ===== verification/CoordStream.v ===== *)
(** * CoordStream

    [core/node/coordinator/src/stream.rs] and [lib.rs]: the task of the
    coordinator, which routes the messages of the chain, the pool, the network
    and the consensus engine to [Sync] and to each other. *)
From S2P Require Import Prelude Codec Types TxPool ConsensusSupport Engine PeerManager NetworkProtocol CoordProtocol CoordSupport CoordVerifier CoordSync ChainData.
Import Sync.

(** [enum NetworkOutMessage] of [core/node/network/src/lib.rs] *)
Inductive NetworkOutMessage :=
| NProtocolOpen (peer_id : PeerId) (connected_point : NetworkProtocol.ConnectedPoint) (nonce : Z) (handshake : bytes)
| NProtocolClose (peer_id : PeerId) (connected_point : NetworkProtocol.ConnectedPoint)
| NMessage (peer_id : PeerId) (message : bytes).

(** [enum ConsensusOutMessage] of [core/node/consensus/base] *)
Inductive ConsensusOutMessage :=
| OutNetworkMessage (peer_id : PeerId) (message : bytes).

(** [enum CoordinatorInMessage] *)
Inductive CoordinatorInMessage :=
| InNetwork (message : NetworkInMessage).

Module CoordStream.
Section Stream.
Context {SC : Scale} {SU : CoordinatorSupport} {LL : LruLib} {HO : HashOrder}.

(** [Coordinator::new] and [CoordinatorStream::spawn]: the handshakes start
    from the state of the chain. *)
Definition spawn (w : World) : ChainSync :=
  let current_state := get_current_state w in
  Sync.new
    {| hb_genesis_hash := genesis_hash current_state;
       hb_confirmed := (confirmed_number current_state, confirmed_block_hash current_state);
       peer_manager_tx := []; network_tx := []; consensus_tx := []; ori_support := w |}.

(** [HandshakeBuilder::build], which the network calls with a nonce. *)
Definition build_handshake (s : ChainSync) (nonce : Z) : bytes :=
  handshake_build (hb_genesis_hash (support s)) (hb_confirmed (support s)) nonce.

(** *** Messages of the chain and of the pool *)
Definition on_chain_message (message : ChainOutMessage) : C unit :=
  match message with
  | ChainData.BlockCommitted number hash => on_block_committed number hash
  | ChainData.ExecutionCommitted number hash => on_execution_committed number hash
  end.
Definition on_txpool_message (message : TxPoolOutMessage) : C unit :=
  match message with
  | TxInserted tx_hash => on_tx_inserted tx_hash
  end.

(** *** Messages of the consensus engine *)
Definition on_consensus_network_protocol_open (peer_id : PeerId) (local_nonce remote_nonce : Z) : C unit :=
  consensus_send_message (NetworkProtocolOpen peer_id local_nonce remote_nonce).
Definition on_consensus_network_protocol_close (peer_id : PeerId) : C unit :=
  consensus_send_message (NetworkProtocolClose peer_id).
Definition on_consensus_network_message (peer_id : PeerId) (consensus_message : ConsensusMessage) : C unit :=
  consensus_send_message (NetworkMessage peer_id (cm_message consensus_message)).
Definition on_consensus_out_message (out_message : ConsensusOutMessage) : C unit :=
  match out_message with
  | OutNetworkMessage peer_id message => send peer_id (PConsensusMessage (Build_ConsensusMessage message))
  end.

(** *** Messages of the network *)

(** The handshake of a peer on the same chain. *)
Definition accept_handshake (genesis_hash : Hash) (handshake : bytes) : option Handshake :=
  match decode codec_protocol_message handshake with
  | Some (PHandshake handshake) =>
      if decide (hs_genesis_hash handshake = genesis_hash) then Some handshake else None
  | _ => None
  end.

Definition on_protocol_open (peer_id : PeerId) (nonce : Z) (handshake : bytes) : C unit :=
  let! local_genesis_hash := asks (λ s, hb_genesis_hash (support s)) in
  match accept_handshake local_genesis_hash handshake with
  | None => report peer_id PEER_REPORT_HANDSHAKE_FAILED
  | Some handshake =>
      do! Sync.on_protocol_open peer_id nonce handshake in
      on_consensus_network_protocol_open peer_id nonce (hs_nonce handshake)
  end.

Definition on_protocol_close (peer_id : PeerId) : C unit :=
  do! Sync.on_protocol_close peer_id in
  on_consensus_network_protocol_close peer_id.

Definition on_message (peer_id : PeerId) (message : bytes) : C unit :=
  match decode codec_protocol_message message with
  | None => ret tt
  | Some (PBlockAnnounce block_announce) => on_block_announce peer_id block_announce
  | Some (PBlockRequest block_request) => on_block_request peer_id block_request
  | Some (PBlockResponse block_response) => on_block_response peer_id block_response
  | Some (PTxPropagate tx_propagate) => on_tx_propagate peer_id tx_propagate
  | Some (PConsensusMessage consensus_message) => on_consensus_network_message peer_id consensus_message
  | Some (PHandshake _) => ret tt
  end.

Definition on_network_message (message : NetworkOutMessage) : C unit :=
  match message with
  | NProtocolOpen peer_id _ nonce handshake => on_protocol_open peer_id nonce handshake
  | NProtocolClose peer_id _ => on_protocol_close peer_id
  | NMessage peer_id message => on_message peer_id message
  end.

Definition on_in_message (message : CoordinatorInMessage) : C unit :=
  match message with
  | InNetwork message => network_send_message message
  end.

(** The branches of the [select!] of [start], until the sender of [in_rx] is
    dropped, and what the rest of the node does to the chain and the pool in
    between. *)
Inductive Event :=
| EvChain (message : ChainOutMessage)
| EvNetwork (message : NetworkOutMessage)
| EvIn (message : CoordinatorInMessage)
| EvTxPool (message : TxPoolOutMessage)
| EvConsensus (message : ConsensusOutMessage)
| EvTimer (peer_id : PeerId) (request_id : RequestId)
| EvWorld (w : World).

(** A timer that elapses leaves the set. *)
Fixpoint remove_timer (t : PeerId * RequestId) (l : list (PeerId * RequestId)) :
    list (PeerId * RequestId) :=
  match l with
  | [] => []
  | t' :: l => if decide (t' = t) then l else t' :: remove_timer t l
  end.

Definition handle (ev : Event) : C unit :=
  match ev with
  | EvChain message => or_warn (on_chain_message message)
  | EvNetwork message => or_warn (on_network_message message)
  | EvIn message => or_warn (on_in_message message)
  | EvTxPool message => or_warn (on_txpool_message message)
  | EvConsensus message => or_warn (on_consensus_out_message message)
  | EvTimer peer_id request_id =>
      let! timers := asks block_request_timer in
      if decide ((peer_id, request_id) ∈ timers) then
        do! modify (λ s, with_timer (remove_timer (peer_id, request_id) (block_request_timer s)) s) in
        or_warn (on_block_request_timer_trigger peer_id request_id)
      else ret tt
  | EvWorld w => modify (with_world w)
  end.

Definition run (evs : list Event) : C unit := for_each handle evs.
End Stream.
End CoordStream.
