(* ===== verification/CoordWindow.v ===== *)
(** * CoordWindow

    The window of blocks that the coordinator downloads: over the life of the
    task it is a run of consecutive numbers of bounded length, the data of
    every downloaded block is there when it is taken, and every request in
    flight has its timer. *)
From S2P Require Import Prelude Codec BTreeMap Types TxPool ConsensusSupport BlockVerifier Engine PeerManager NetworkProtocol CoordProtocol CoordSupport CoordVerifier CoordSync CoordStream ChainData.
Import Sync.

(** ** Runs of consecutive numbers *)
Section Numbered.
Context {V : Type}.

Fixpoint numbered (a : Z) (m : BTreeMap V) : Prop :=
  match m with
  | [] => True
  | kv :: m => kv.1 = a ∧ numbered (a + 1) m
  end.

Lemma numbered_app a m m' : numbered a (m ++ m') ↔ numbered a m ∧ numbered (a + Z.of_nat (length m)) m'.
Proof.
  revert a. induction m as [|kv m IH]; intros a; cbn [app numbered length].
  - rewrite Z.add_0_r. tauto.
  - rewrite IH. replace (a + 1 + Z.of_nat (length m))%Z with (a + Z.of_nat (Datatypes.S (length m)))%Z by lia. tauto.
Qed.

Lemma numbered_elem a m k v : numbered a m → (k, v) ∈ m → (a ≤ k < a + Z.of_nat (length m))%Z.
Proof.
  revert a. induction m as [|[k1 v1] m IH]; intros a; cbn [numbered length]; [by intros _ ?%not_elem_of_nil|].
  intros [<- Hm] [[= -> ->]|Hin]%elem_of_cons; cbn [fst]; [lia|]. specialize (IH _ Hm Hin). cbn [fst] in *. lia.
Qed.

Lemma numbered_last a m k v : numbered a m → last m = Some (k, v) → k = (a + Z.of_nat (length m) - 1)%Z.
Proof.
  intros Hm (m' & ->)%last_Some. apply numbered_app in Hm as [_ [H _]]. cbn [fst] in H. rewrite length_app. cbn [length]. lia.
Qed.

Lemma numbered_seq a n (v : V) : numbered a ((λ k, (k, v)) <$> seqZ a n).
Proof.
  destruct (decide (n < 0)%Z) as [|Hn]; [by rewrite seqZ_nil by lia|].
  assert (0 ≤ n)%Z as H0 by lia. clear Hn. revert a. pattern n. apply natlike_ind; [done| |done].
  clear n H0. intros n Hn IH a. rewrite seqZ_cons by lia. cbn. split; [done|].
  rewrite <-Z.add_1_r, Z.pred_succ by lia. apply IH.
Qed.

(** New numbers come after the last. *)
Lemma numbered_extend a m n v : numbered a m →
  foldl (λ m k, bt_insert k v m) m (seqZ (a + Z.of_nat (length m)) n) =
    m ++ ((λ k, (k, v)) <$> seqZ (a + Z.of_nat (length m)) n).
Proof.
  intros Hm. destruct (decide (n < 0)%Z) as [|Hn]; [by rewrite seqZ_nil, app_nil_r by lia|].
  assert (0 ≤ n)%Z as H0 by lia. clear Hn. revert m Hm. pattern n. apply natlike_ind; [|clear n H0|done].
  { intros m _. cbn. by rewrite app_nil_r. }
  intros n Hn IH m Hm. rewrite seqZ_cons by lia. cbn [foldl fmap list_fmap].
  rewrite bt_insert_last by (intros k' v' Hin; apply (numbered_elem _ _ _ _ Hm) in Hin; lia).
  replace (Z.pred (Z.succ n)) with n by lia.
  replace (Z.succ (a + Z.of_nat (length m)))%Z with (a + Z.of_nat (length (m ++ [(a + Z.of_nat (length m), v)%Z])))%Z
    by (rewrite length_app; cbn; lia).
  rewrite IH; [by rewrite <-app_assoc|]. apply numbered_app. by split.
Qed.

(** Removing all numbers from some number on leaves the numbers before it. *)
Lemma numbered_cut a m lo hi : numbered a m → (∀ k v, (k, v) ∈ m → (k ≤ hi)%Z) →
  bt_remove (λ k, bool_decide (lo ≤ k ≤ hi)%Z) m = take (Z.to_nat (lo - a)) m.
Proof.
  revert a. induction m as [|[k v] m IH]; intros a; cbn [numbered].
  { by rewrite take_nil. }
  intros [Hk Hm] Hhi. cbn in Hk. subst k. unfold bt_remove. rewrite filter_cons.
  change (filter _ m) with (bt_remove (λ k, bool_decide (lo ≤ k ≤ hi)%Z) m).
  rewrite (IH (a + 1)%Z Hm) by (intros k' v' Hin; apply (Hhi k' v'); by right).
  pose proof (Hhi a v ltac:(by left)) as Ha. destruct (decide (a < lo)%Z).
  - rewrite decide_True by (rewrite bool_decide_eq_false_2; cbn; [tauto|lia]).
    replace (Z.to_nat (lo - a)) with (S (Z.to_nat (lo - (a + 1)))) by lia. done.
  - rewrite decide_False by (rewrite bool_decide_eq_true_2; cbn; [tauto|lia]).
    replace (Z.to_nat (lo - a)) with 0 by lia. by replace (Z.to_nat (lo - (a + 1))) with 0 by lia.
Qed.

Lemma numbered_take a n m : numbered a m → numbered a (take n m).
Proof.
  revert a n. induction m as [|kv m IH]; intros a [|n]; cbn; try done.
  intros [-> Hm]. split; [done|]. by apply IH.
Qed.

(** Removing a number that is not above the first. *)
Lemma numbered_remove a m n : numbered a m → (∀ k v, (k, v) ∈ m → (n ≤ k)%Z) →
  bt_remove (λ k, bool_decide (k = n)) m = m ∨
  (∃ v m', m = (n, v) :: m' ∧ bt_remove (λ k, bool_decide (k = n)) m = m').
Proof.
  destruct m as [|[k v] m]; [by left|]. cbn [numbered]. intros [Hk Hm] Hn. cbn in Hk. subst k.
  assert (∀ b, (b < a + 1)%Z → bt_remove (λ k, bool_decide (k = b)) m = m) as Hrest.
  { intros b Hb. apply bt_remove_id. intros k v' Hin. apply (numbered_elem _ _ _ _ Hm) in Hin.
    apply bool_decide_eq_false_2. lia. }
  unfold bt_remove. rewrite filter_cons. change (filter _ m) with (bt_remove (λ k, bool_decide (k = n)) m).
  pose proof (Hn a v ltac:(by left)). rewrite Hrest by lia. destruct (decide (a = n)) as [->|Hne].
  - right. exists v, m. split; [done|]. rewrite decide_False; [done|]. rewrite bool_decide_eq_true_2; [cbn; tauto|done].
  - left. rewrite decide_True; [done|]. rewrite bool_decide_eq_false_2; [cbn; tauto|done].
Qed.

(** Giving a number that is there another value. *)
Lemma numbered_update a m k v v0 : numbered a m → bt_get k m = Some v0 →
  ∃ m1 m2, m = m1 ++ (k, v0) :: m2 ∧ bt_insert k v m = m1 ++ (k, v) :: m2.
Proof.
  revert a. induction m as [|[k' v'] m IH]; intros a; cbn [numbered bt_get bt_insert]; [done|].
  intros [Hk Hm]. cbn in Hk. case_decide as Heq.
  - intros [= ->]. rewrite decide_False by lia. rewrite Heq. by exists [], m.
  - intros Hg. destruct (IH _ Hm Hg) as (m1 & m2 & -> & E).
    assert (k' < k)%Z. { apply numbered_app in Hm as [_ [Hm _]]. cbn in Hm. lia. }
    rewrite decide_False by lia. rewrite E. by exists ((k', v') :: m1), m2.
Qed.

(** Putting the first back. *)
Lemma numbered_put_back a m v : numbered (a + 1) m → bt_insert a v m = (a, v) :: m.
Proof.
  destruct m as [|[k v'] m]; [done|]. cbn. intros [-> _]. by rewrite decide_True by lia.
Qed.
End Numbered.

Lemma map_pending_numbered f a m : numbered a m → numbered a (map_pending f m).
Proof.
  revert a. induction m as [|kv m IH]; intros a; cbn; [done|]. intros [-> Hm]. split; [done|]. by apply IH.
Qed.
Lemma map_pending_length f m : length (map_pending f m) = length m.
Proof. apply length_fmap. Qed.
Lemma map_pending_elem f m k st : (k, st) ∈ map_pending f m → ∃ st', (k, st') ∈ m ∧ st = f k st'.
Proof. intros ([k' st'] & [= -> ->] & Hin)%list_elem_of_fmap. by exists st'. Qed.

Lemma max_number_elem l v : max_number l = Some v → v ∈ l.
Proof.
  destruct l as [|x l]; [done|]. intros [= <-]. revert x. induction l as [|y l IH]; intros x; cbn [foldl]; [by left|].
  destruct (Z.max_spec x y) as [[_ ->]|[_ ->]]; specialize (IH y) as Hy; specialize (IH x) as Hx; set_solver.
Qed.

(** ** Calls that keep a property and do not panic *)
Section Safe.
Context {S : Type} (P : S → Prop).

Definition good {A} (x : result Failure A * S) : Prop := P x.2 ∧ x.1 ≠ Err Panic.
Definition Safe {A} (m : M S Failure A) : Prop := ∀ s, P s → good (m s).

Lemma safe_ret {A} (a : A) : Safe (ret a).
Proof. intros s Hs. by split. Qed.
Lemma safe_try {A} (r : CommonResult A) : Safe (try r).
Proof. intros s Hs. split; [done|]. by destruct r. Qed.
Lemma safe_asks {A} (f : S → A) : Safe (asks f).
Proof. intros s Hs. by split. Qed.
Lemma safe_modify f : (∀ s, P s → P (f s)) → Safe (modify f).
Proof. intros Hf s Hs. split; [by apply Hf|done]. Qed.
Lemma good_bind {A B} (m : M S Failure A) (k : A → M S Failure B) s :
  good (m s) → (∀ a s', m s = (Ok a, s') → P s' → good (k a s')) → good (bind m k s).
Proof.
  intros [Hm1 Hm2] Hk. unfold bind. destruct (m s) as [[a|e] s'] eqn:E; [by apply Hk|].
  split; [done|]. cbn in *. congruence.
Qed.
Lemma safe_bind {A B} (m : M S Failure A) (k : A → M S Failure B) :
  Safe m → (∀ a, Safe (k a)) → Safe (bind m k).
Proof. intros Hm Hk s Hs. apply good_bind; [by apply Hm|]. intros a s' _ Hs'. by apply Hk. Qed.
Lemma safe_read {A B} (f : S → A) (k : A → M S Failure B) :
  (∀ s, P s → good (k (f s) s)) → Safe (bind (asks f) k).
Proof. intros Hk s Hs. by apply Hk. Qed.
Lemma safe_for_each {A} (f : A → M S Failure unit) l : (∀ x, Safe (f x)) → Safe (for_each f l).
Proof.
  intros Hf. induction l as [|x l IH]; [apply safe_ret|]. apply safe_bind; [apply Hf|]. by intros _.
Qed.
Lemma safe_attempt {A} (m : M S Failure A) : Safe m → Safe (attempt m).
Proof. intros Hm s Hs. destruct (Hm s Hs) as [H1 H2]. unfold attempt. by destruct (m s) as [[a|[e|]] s']. Qed.
Lemma safe_or_warn (m : M S Failure unit) : Safe m → Safe (or_warn m).
Proof. intros Hm. apply safe_bind; [by apply safe_attempt|]. intros a. apply safe_ret. Qed.

(** Without a panic the handlers of the task end well. *)
Lemma or_warn_ok (m : M S Failure unit) s : good (m s) → ∃ s', or_warn m s = (Ok tt, s') ∧ P s'.
Proof.
  intros [H1 H2]. unfold or_warn, attempt, bind. destruct (m s) as [[a|[e|]] s']; [by exists s'..|done].
Qed.
End Safe.

Section Window.
Context {SC : Scale} {SU : CoordinatorSupport} {LL : LruLib} {HO : HashOrder}.

Definition entry_ok (ps : gmap PeerId PeerInfo) (st : PendingBlockState) : Prop :=
  match st with
  | Seen => True
  | Downloading from _ => is_Some (ps !! from)
  | Downloaded _ block_data => is_Some block_data
  end.

(** The number of a block that has a successor. *)
Definition claim_ok (n : BlockNumber) : Prop := (n < 2 ^ 64 - 1)%Z.

Record window (s : ChainSync) : Prop := {
  wn_run : ∃ a, (0 ≤ a)%Z ∧ numbered a (pending_blocks s);
  wn_below : ∀ k st, (k, st) ∈ pending_blocks s → claim_ok k;
  wn_length : (Z.of_nat (length (pending_blocks s)) ≤ PENDING_BLOCKS_SIZE)%Z;
  wn_entries : ∀ k st, (k, st) ∈ pending_blocks s → entry_ok (peers s) st;
  wn_claims : ∀ p i, peers s !! p = Some i → claim_ok (peer_confirmed_number i);
  wn_timers : ∀ p i rid n c, peers s !! p = Some i → state i = PeerDownloading rid n c →
    (p, rid) ∈ block_request_timer s;
}.

(** What the support holds does not matter. *)
Lemma window_support x s : window s → window (with_support x s).
Proof. intros []. by split. Qed.
Lemma window_next_id x s : window s → window (with_next_id x s).
Proof. intros []. by split. Qed.

Lemma safe_send_consensus m : Safe window (consensus_send_message m).
Proof. apply safe_modify. intros s. apply window_support. Qed.
Lemma safe_send_network m : Safe window (network_send_message m).
Proof. apply safe_modify. intros s. apply window_support. Qed.
Lemma safe_report p r : Safe window (report p r).
Proof. apply safe_modify. intros s. apply window_support. Qed.
Lemma safe_on_world {A} (m : M World CommonError A) : Safe window (on_world m).
Proof.
  intros s Hs. unfold on_world. destruct (m (world s)) as [[a|e] w]; (split; [by apply window_support|done]).
Qed.
Lemma safe_update_latency n : Safe window (update_latency n).
Proof.
  apply safe_bind; [apply safe_asks|]. intros l. case_decide; [apply safe_send_consensus|apply safe_ret].
Qed.

(** Another window with entries that are as good. *)
Lemma window_pending m s : window s → (∃ a, (0 ≤ a)%Z ∧ numbered a m) →
  (Z.of_nat (length m) ≤ PENDING_BLOCKS_SIZE)%Z →
  (∀ k st, (k, st) ∈ m → claim_ok k ∧ entry_ok (peers s) st) → window (with_pending m s).
Proof. intros [] Ha Hl Hm. split; cbn; try done; intros k st Hin; by apply Hm in Hin as []. Qed.

Lemma window_map_pending f s : window s →
  (∀ k st, (k, st) ∈ pending_blocks s → entry_ok (peers s) st → entry_ok (peers s) (f k st)) →
  window (with_pending (map_pending f (pending_blocks s)) s).
Proof.
  intros [(a & Ha & Hn) Hb Hl He Hc Ht] Hf. apply window_pending; [by split; try done; exists a| | |].
  - exists a. split; [done|]. by apply map_pending_numbered.
  - by rewrite map_pending_length.
  - intros k st (st' & Hin & ->)%map_pending_elem. split; [by eapply Hb|]. eapply Hf; [done|]. by eapply He.
Qed.

(** The window never reaches further than its size allows. *)
Lemma append_bound k len : (0 ≤ k < 2 ^ 64)%Z → (0 ≤ len ≤ PENDING_BLOCKS_SIZE)%Z →
  let m := u64 (u64 (k + PENDING_BLOCKS_SIZE) - len) in
  m = (k + PENDING_BLOCKS_SIZE - len)%Z ∨ (m < k)%Z.
Proof.
  unfold PENDING_BLOCKS_SIZE. intros Hk Hl. cbv zeta. unfold u64. rewrite Zminus_mod_idemp_l.
  destruct (decide (k + 2560 - len < 2 ^ 64)%Z).
  - left. apply Z.mod_small. lia.
  - right. rewrite <-(Z_mod_plus_full _ (-1)). rewrite Z.mod_small; lia.
Qed.

Lemma append_bound_empty l : let m := u64 (u64 (l + PENDING_BLOCKS_SIZE) - 0) in
  m = (u64 (l + 1) + PENDING_BLOCKS_SIZE - 1)%Z ∨ (m < u64 (l + 1))%Z.
Proof.
  unfold PENDING_BLOCKS_SIZE. cbv zeta. unfold u64. rewrite Zminus_mod_idemp_l.
  replace (l + 2560 - 0)%Z with (l + 1 + 2559)%Z by lia. rewrite <-Zplus_mod_idemp_l.
  pose proof (Z.mod_pos_bound (l + 1) (2 ^ 64)) as Hb. set (x := ((l + 1) mod 2 ^ 64)%Z) in *.
  destruct (decide (x + 2559 < 2 ^ 64)%Z).
  - left. rewrite Z.mod_small; lia.
  - right. rewrite <-(Z_mod_plus_full _ (-1)). rewrite Z.mod_small; lia.
Qed.

(** Where new numbers are appended, and how many. *)
Lemma append_start s max_peer : window s → claim_ok max_peer →
  let max_to_append := Z.min max_peer (u64 (u64 (max_pending_number s + PENDING_BLOCKS_SIZE)
                                            - Z.of_nat (length (pending_blocks s)))) in
  let min_to_append := u64 (max_pending_number s + 1) in
  (max_to_append >= min_to_append)%Z →
  ∃ a, (0 ≤ a)%Z ∧ numbered a (pending_blocks s) ∧
    min_to_append = (a + Z.of_nat (length (pending_blocks s)))%Z ∧
    (Z.of_nat (length (pending_blocks s)) + (max_to_append - min_to_append + 1) ≤ PENDING_BLOCKS_SIZE)%Z.
Proof.
  intros [(a & Ha & Hn) Hb Hl _ _ _] Hm. cbv zeta. unfold max_pending_number.
  destruct (last (pending_blocks s)) as [[k st]|] eqn:E.
  - pose proof (numbered_last _ _ _ _ Hn E) as Hk. apply last_Some_elem_of in E.
    pose proof (numbered_elem _ _ _ _ Hn E) as Hk0. apply Hb in E. unfold claim_ok in *.
    rewrite (u64_id (k + 1)) by (unfold is_u64; lia).
    pose proof (append_bound k (Z.of_nat (length (pending_blocks s))) ltac:(lia) ltac:(lia)) as Hm'.
    intros Hge. exists a. split_and!; [done|done|lia|]. cbv zeta in Hm'. lia.
  - apply last_None in E. rewrite E in *. cbn [length]. change (Z.of_nat 0) with 0%Z.
    pose proof (append_bound_empty (local_number s)) as Hm'. cbv zeta in Hm'. intros Hge.
    pose proof (u64_range (local_number s + 1)) as [H0 _].
    exists (u64 (local_number s + 1)). split_and!; [done|done|lia|]. lia.
Qed.

Lemma window_append s max_peer : window s → claim_ok max_peer →
  let max_to_append := Z.min max_peer (u64 (u64 (max_pending_number s + PENDING_BLOCKS_SIZE)
                                            - Z.of_nat (length (pending_blocks s)))) in
  let min_to_append := u64 (max_pending_number s + 1) in
  (max_to_append >= min_to_append)%Z →
  window (with_pending (foldl (λ m number, bt_insert number Seen m) (pending_blocks s)
                          (range_incl min_to_append max_to_append)) s).
Proof.
  intros Hs Hm. cbv zeta. intros Hge.
  destruct (append_start s max_peer Hs Hm Hge) as (a & Ha & Hn & E & Hlen). rewrite E in *.
  unfold range_incl. rewrite numbered_extend by done. apply window_pending; [done| | |].
  - exists a. split; [done|]. apply numbered_app. split; [done|]. apply numbered_seq.
  - rewrite length_app, length_fmap, length_seqZ. lia.
  - intros k st [Hin|(k' & [= -> ->] & Hk%elem_of_seqZ)%list_elem_of_fmap]%elem_of_app.
    + destruct Hs as [_ Hb _ He _ _]. split; [by eapply Hb|by eapply He].
    + split; [|done]. unfold claim_ok in *. lia.
Qed.

Lemma window_cut s lo : window s →
  window (with_pending (bt_remove (λ k, bool_decide (lo ≤ k ≤ max_pending_number s)%Z) (pending_blocks s)) s).
Proof.
  intros Hs. pose proof Hs as [(a & Ha & Hn) Hb Hl He _ _].
  assert (∀ k st, (k, st) ∈ pending_blocks s → (k ≤ max_pending_number s)%Z) as Hmax.
  { intros k st Hin. unfold max_pending_number. destruct (last (pending_blocks s)) as [[k' st']|] eqn:E.
    - apply (numbered_last _ _ _ _ Hn) in E. apply (numbered_elem _ _ _ _ Hn) in Hin. lia.
    - apply last_None in E. rewrite E in Hin. by apply not_elem_of_nil in Hin. }
  rewrite (numbered_cut a) by done.
  apply window_pending; [done| | |].
  - exists a. split; [done|]. by apply numbered_take.
  - rewrite length_take. lia.
  - intros k st Hin%elem_of_take. destruct Hin as (i & Hin%list_elem_of_lookup_2 & _). split; [by eapply Hb|by eapply He].
Qed.

Lemma peer_values ps v : max_number (peer_confirmed_number <$> (hash_iter ps).*2) = Some v →
  ∃ (p : PeerId) (i : PeerInfo), ps !! p = Some i ∧ v = peer_confirmed_number i.
Proof.
  intros (i & -> & ([p i'] & -> & Hin%elem_of_hash_iter)%list_elem_of_fmap)%max_number_elem%list_elem_of_fmap.
  by exists p, i'.
Qed.

Lemma safe_maintain_new : Safe window maintain_new.
Proof.
  apply safe_read. intros s Hs. destruct (max_number _) as [v|] eqn:E; [|by split].
  apply peer_values in E as (p & i & Hp & ->).
  assert (claim_ok (peer_confirmed_number i)) as Hc by (by eapply wn_claims).
  unfold bind at 1, asks at 1. unfold bind at 1, asks at 1. unfold bind at 1, asks at 1.
  apply good_bind; [|intros [] s' _ Hs'; by apply safe_update_latency].
  case_decide as Hge; (split; [|done]); cbn [modify snd]; [by apply window_append|by apply window_cut].
Qed.

(** *** Peers *)
Lemma entry_ok_insert ps p i st : entry_ok ps st → entry_ok (<[p := i]> ps) st.
Proof.
  destruct st as [|from rid|from d]; cbn; try done. intros [i' Hi]. destruct (decide (from = p)) as [->|].
  - rewrite lookup_insert_eq. by eexists.
  - rewrite lookup_insert_ne by done. by eexists.
Qed.

(** What is known of a peer in a state. *)
Definition peer_ok (timers : list (PeerId * RequestId)) (peer : PeerId * PeerInfo) : Prop :=
  claim_ok (peer_confirmed_number peer.2) ∧
  ∀ rid n c, state peer.2 = PeerDownloading rid n c → (peer.1, rid) ∈ timers.

Lemma window_peer_ok s p i : window s → peers s !! p = Some i → peer_ok (block_request_timer s) (p, i).
Proof. intros [] Hp. split; cbn; eauto. Qed.

Lemma window_set_peer p i s : window s → peer_ok (block_request_timer s) (p, i) →
  window (with_peers (<[p := i]> (peers s)) s).
Proof.
  intros [Hn Hb Hl He Hc Ht] [H1 H2]. split; cbn; try done.
  - intros k st Hin. apply entry_ok_insert. by eapply He.
  - intros q j. destruct (decide (p = q)) as [<-|].
    + rewrite lookup_insert_eq. by intros [= <-].
    + rewrite lookup_insert_ne by done. apply Hc.
  - intros q j rid n c. destruct (decide (p = q)) as [<-|].
    + rewrite lookup_insert_eq. intros [= <-]. apply H2.
    + rewrite lookup_insert_ne by done. apply Ht.
Qed.

Lemma window_timer t s : window s → window (with_timer (block_request_timer s ++ [t]) s).
Proof. intros []. split; cbn; try done. intros p i rid n c Hp Hi. apply elem_of_app. left. eauto. Qed.

Lemma min_by_elem {A} (f : A → Z) l x : min_by f l = Some x → x ∈ l.
Proof.
  revert x. induction l as [|y l IH]; intros x; cbn; [done|].
  destruct (min_by f l) as [z|]; [|intros [= ->]; by left].
  case_decide; intros [= ->]; [right; by apply IH|by left].
Qed.

Lemma find_peer_elem number size ps p i : find_peer number size ps = Some (p, i) → ps !! p = Some i ∧ state i = Vacant.
Proof.
  intros [[Hv _] Hin%elem_of_hash_iter]%min_by_elem%list_elem_of_filter. by split.
Qed.

Lemma safe_request_group g : Safe window (request_group g).
Proof.
  destruct g as [number size]. apply safe_read. intros s Hs.
  destruct (find_peer number size (peers s)) as [[p i]|] eqn:E; [|by split].
  apply find_peer_elem in E as [Hp _]. split; [|done].
  set (rid := next_request_id s). set (info := peer_with_state (PeerDownloading rid number size) i).
  assert (claim_ok (peer_confirmed_number i)) as Hc by (by eapply wn_claims).
  apply (window_timer (p, rid)) in Hs.
  apply (window_set_peer p info) in Hs.
  2: { split; [done|]. intros rid' n c [= <- <- <-]. cbn. apply elem_of_app. right. by left. }
  apply (window_map_pending (λ n st, if decide (number ≤ n < u64 (number + size))%Z then Downloading p rid else st)) in Hs.
  2: { intros k st _ Hst. case_decide; [|done]. cbn. by rewrite lookup_insert_eq. }
  exact (window_support _ _ (window_next_id (next_id rid) _ Hs)).
Qed.

Lemma safe_sync : Safe window sync.
Proof.
  apply safe_bind; [apply safe_maintain_new|]. intros _. apply safe_bind; [apply safe_asks|]. intros m.
  apply safe_for_each. apply safe_request_group.
Qed.

(** *** The first block of the window *)

(** The errors that the chain, the pool and the engine return are not those of
    the coordinator's verifier. *)
Definition foreign {A} (r : CommonResult A) : Prop :=
  match r with Ok _ => True | Err e => as_coordinator e = None end.

(** What commits and removals make of a world, as while an event is handled. *)
Inductive later (w : World) : World → Prop :=
| later_now : later w w
| later_commit p w' : later w w' → later w (commit_block p w').2
| later_remove hs w' : later w w' → later w (txpool_remove_transactions hs w').2.
Lemma later_trans w1 w2 w3 : later w1 w2 → later w2 w3 → later w1 w3.
Proof. intros H1. induction 1; [done|by constructor..]. Qed.

Record own_errors (w0 : World) : Prop := {
  oe_proof : ∀ w header pf r, later w0 w → consensus_verify_proof w header pf = Some r → foreign r;
  oe_hash : ∀ tx, foreign (hash_transaction tx);
  oe_validate : ∀ w h tx required, later w0 w → foreign (support_validate_transaction w h tx required);
  oe_build : ∀ w p, later w0 w → foreign (build_block w p);
  oe_commit : ∀ p w, later w0 w → foreign (commit_block p w).1;
  oe_remove : ∀ hs w, later w0 w → foreign (txpool_remove_transactions hs w).1;
}.
Lemma own_errors_later w w' : later w w' → own_errors w → own_errors w'.
Proof. intros Hw []. split; intros; eauto using later_trans. Qed.

(** The engine panics on the proof of the next block of a world. *)
Definition engine_panics (w0 : World) : Prop := ∃ w header pf, later w0 w ∧
  hdr_number header = u64 (confirmed_number (get_current_state w) + 1) ∧
  consensus_verify_proof w header pf = None.

(** A call that keeps the window and panics where the engine does alone. *)
Definition excused (w0 : World) {A} (x : result Failure A * ChainSync) : Prop :=
  window x.2 ∧ (x.1 = Err Panic → engine_panics w0).
Lemma good_excused w0 {A} (x : result Failure A * ChainSync) : good window x → excused w0 x.
Proof. by intros [H1 H2]. Qed.
Lemma excused_bind w0 {A B} (m : C A) (k : A → C B) s :
  excused w0 (m s) → (∀ a s', m s = (Ok a, s') → window s' → excused w0 (k a s')) → excused w0 (bind m k s).
Proof.
  intros [Hm1 Hm2] Hk. unfold bind. destruct (m s) as [[a|e] s'] eqn:E; [by apply Hk|].
  split; [done|]. cbn in *. intros [= ->]. by apply Hm2.
Qed.
Lemma excused_later w0 w1 {A} (x : result Failure A * ChainSync) : later w0 w1 → excused w1 x → excused w0 x.
Proof.
  intros Hw [H1 H2]. split; [done|]. intros (w & header & pf & Hl & H)%H2. exists w, header, pf.
  split; [by eapply later_trans|done].
Qed.

(** A result that does not make the block wait. *)
Definition decided {A} (r : CommonResult A) : Prop := r ≠ Err (verify_error SvShouldWait).

Lemma foreign_decided {A} (r : CommonResult A) : foreign r → decided r.
Proof. destruct r; [done|]. cbn. intros H [= ->]. done. Qed.
Lemma decided_bind {A B} (r : CommonResult A) (k : A → CommonResult B) :
  decided r → (∀ a, decided (k a)) → decided (let? x := r in k x).
Proof. intros Hr Hk. destruct r as [a|e]; [apply Hk|]. intros [= ->]. by apply Hr. Qed.

Lemma verified_txs_decided w txs set : own_errors w → decided (get_verified_txs shared_error w txs set).
Proof.
  intros O. revert set. induction txs as [|t txs IH]; intros set; [done|]. cbn [get_verified_txs].
  apply decided_bind; [by eapply foreign_decided, oe_hash|]. intros h. apply decided_bind.
  - unfold verify_transaction. case_decide; [done|]. apply decided_bind; [|done].
    pose proof (oe_validate w O w h t true (later_now w)) as Hv. destruct (support_validate_transaction w h t true) as [a|e]; [done|].
    cbn in Hv |- *. by destruct e as [| |[]| | | | | | | |].
  - intros set'. apply decided_bind; [apply IH|done].
Qed.

(** The data of a block that must wait is not lost. *)
Lemma verify_block_total w bd : own_errors w →
  match verify_block w (Some bd) with
  | (Some r, rest) => decided r ∨ rest = Some bd
  | (None, _) => engine_panics w
  end.
Proof.
  intros O. unfold verify_block.
  destruct (result_bind (verify_data bd) _) as [[[header body] pf]|e] eqn:Hchecks; [|by right].
  unfold verify_proof. destruct (consensus_verify_proof w header pf) as [r|] eqn:E; cbn [fmap option_fmap option_map].
  2: { exists w, header, pf. split; [constructor|]. split; [|done]. revert Hchecks. unfold verify_data.
       destruct (bd_header bd) as [h|]; [|done]. destruct (bd_body bd) as [bdy|]; [|done].
       destruct (bd_proof bd) as [pr|]; [|done]. cbn [ok_or result_bind].
       destruct (verify_not_repeat w _); [|done]. cbn [result_bind]. unfold verify_best.
       destruct (ConsensusSupport.get_header w _) as [[ch|]|]; [|done..]. cbn [ok_or result_bind].
       case_decide as Hb; [|done]. cbn [result_bind]. destruct (verify_execution w h ch); [|done].
       intros [= <- <- <-]. apply Hb. }
  pose proof (oe_proof w O w header pf r (later_now w) E) as Hr. left. apply decided_bind.
  - destruct r as [a|e]; [done|]. apply foreign_decided in Hr. unfold decided in *. cbn.
    destruct (as_consensus e) as [[]|]; cbn; try done; intros [= ->]; by apply Hr.
  - intros _. unfold verify_body, BlockVerifier.verify_body. apply decided_bind.
    { apply decided_bind; [by apply verified_txs_decided|]. intros meta.
      apply decided_bind; [by apply verified_txs_decided|done]. }
    intros [meta payload]. apply decided_bind; [by eapply foreign_decided, oe_build, later_now|]. intros q. by case_decide.
Qed.

Lemma on_verify_ok_foreign q w : own_errors w → foreign (on_verify_ok q w).1 ∧ (on_verify_ok q w).1 ≠ Ok ActionWait.
Proof.
  intros O. unfold on_verify_ok, bind. pose proof (oe_commit w O q w (later_now w)) as Hc.
  pose proof (later_commit w q w (later_now w)) as Hl.
  destruct (commit_block q w) as [[a|e] w1]; cbn [fst snd result_bind] in *.
  - cbn [or_else_catch]. pose proof (oe_remove w O (list_to_set (body_meta_txs (cb_body q) ++ body_payload_txs (cb_body q))) w1 Hl) as Hr.
    destruct (txpool_remove_transactions _ w1) as [[[]|e] w2]; by cbn in *.
  - cbn [or_else_catch]. destruct (as_chain e) as [[]|] eqn:Ee; try done.
    match goal with x : CommitBlockErrorKind |- _ => destruct x end; [|done].
    pose proof (oe_remove w O (list_to_set (body_meta_txs (cb_body q) ++ body_payload_txs (cb_body q))) w1 Hl) as Hr.
    destruct (txpool_remove_transactions _ w1) as [[[]|e'] w2]; by cbn in *.
Qed.

Lemma on_verify_result_later r w : later w (on_verify_result r w).2.
Proof.
  unfold on_verify_result, bind, lift. destruct r as [q|e]; [|constructor]. unfold on_verify_ok, bind, ret.
  pose proof (later_commit w q w (later_now w)) as Hl. destruct (commit_block q w) as [rc w1]. cbn [snd] in Hl.
  destruct (or_else_catch _ _ _) as [[action [|]]|e]; cbn [snd]; [|done..].
  pose proof (later_remove w (list_to_set (body_meta_txs (cb_body q) ++ body_payload_txs (cb_body q))) w1 Hl) as Hr.
  destruct (txpool_remove_transactions _ w1) as [[[]|e] w2]; exact Hr.
Qed.

Lemma waits_only_for r w w' : own_errors w → on_verify_result r w = (Ok ActionWait, w') →
  r = Err (verify_error SvShouldWait).
Proof.
  intros O. unfold on_verify_result, bind, lift. destruct r as [q|e].
  - destruct (on_verify_ok_foreign q w O) as [Hf Hw]. destruct (on_verify_ok q w) as [[a|e] w1]; cbn in *.
    + intros [= -> <-]. done.
    + rewrite Hf. done.
  - cbn. destruct (as_coordinator e) as [[|v]|] eqn:Ee; try done. destruct e; try done. injection Ee as ->.
    by destruct v.
Qed.

Lemma window_remove n s : window s → (∀ k st, (k, st) ∈ pending_blocks s → (n ≤ k)%Z) →
  window (with_pending (bt_remove (λ k, bool_decide (k = n)) (pending_blocks s)) s).
Proof.
  intros Hs Hn. pose proof Hs as [(a & Ha & Hm) Hb Hl He _ _].
  destruct (numbered_remove a _ n Hm Hn) as [->|(v & m' & E & ->)]; [by destruct s|]. rewrite E in *.
  apply window_pending; [done| | |].
  - exists (a + 1)%Z. destruct Hm as [_ Hm]. split; [lia|done].
  - cbn [length] in Hl. lia.
  - intros k st Hin. split; [eapply Hb|eapply He]; right; exact Hin.
Qed.

Lemma window_tail s n st rest : window s → pending_blocks s = (n, st) :: rest →
  bt_remove (λ k, bool_decide (k = n)) (pending_blocks s) = rest.
Proof.
  intros [(a & Ha & Hm) _ _ _ _ _] E. rewrite E in *. pose proof Hm as [Hn Hm']. cbn in Hn. subst a.
  assert (∀ k st', (k, st') ∈ (n, st) :: rest → (n ≤ k)%Z) as Hle
    by (intros k st' Hin; apply (numbered_elem _ _ _ _ Hm) in Hin; lia).
  destruct (numbered_remove n _ n Hm Hle) as [Hr|(v & m' & [= <- <-] & Hr)]; [|exact Hr].
  - exfalso. revert Hr. unfold bt_remove. rewrite filter_cons, decide_False.
    + intros Hr. pose proof (length_filter (λ kv : Z * PendingBlockState, ¬ bool_decide (kv.1 = n)) rest) as Hl.
      apply (f_equal length) in Hr. cbn in *. lia.
    + rewrite bool_decide_eq_true_2; cbn; tauto.
Qed.

Lemma window_put_back s n from bd rest x : window s → pending_blocks s = (n, Downloaded from (Some bd)) :: rest →
  let s1 := with_support x (with_pending rest s) in
  window (with_pending (bt_insert n (Downloaded from (Some bd)) (pending_blocks s1)) s1).
Proof.
  intros Hs E. cbv zeta. pose proof Hs as [(a & Ha & Hm) _ _ _ _ _]. rewrite E in Hm. destruct Hm as [Hn Hm].
  cbn in Hn. subst a. cbn [pending_blocks with_support with_pending]. rewrite numbered_put_back by done.
  rewrite <-E. by destruct s, Hs; split.
Qed.

Lemma bind_on_world {A B} (m : M World CommonError A) (k : A → C B) s :
  bind (on_world m) k s =
  match m (world s) with
  | (Ok a, w) => k a (with_world w s)
  | (Err e, w) => (Err (Fail e), with_world w s)
  end.
Proof. unfold bind, on_world. by destruct (m (world s)) as [[a|e] w]. Qed.

Lemma downloaded_turn_excused s : window s → own_errors (world s) →
  excused (world s) (downloaded_turn s) ∧ later (world s) (world (downloaded_turn s).2).
Proof.
  intros Hs O. unfold downloaded_turn. rewrite bind_asks.
  destruct (pending_blocks s) as [|[n [|from rid|from d]] rest] eqn:E; [by split; [|constructor]..|].
  pose proof (wn_entries s Hs n (Downloaded from d)) as Hd. rewrite E in Hd.
  destruct (Hd ltac:(by left)) as [bd ->]. clear Hd.
  assert (window (with_pending rest s)) as Hr.
  { rewrite <-(window_tail s n _ rest Hs E). apply window_remove; [done|]. intros k st Hin.
    destruct Hs as [(a & Ha & Hm) _ _ _ _ _]. rewrite E in Hm, Hin. pose proof Hm as [Hn _]. cbn in Hn. subst a.
    apply (numbered_elem _ _ _ _ Hm) in Hin. lia. }
  unfold remove_pending. rewrite !bind_modify, (window_tail s n _ rest Hs E), !bind_asks.
  change (world (with_pending rest s)) with (world s).
  pose proof (verify_block_total (world s) bd O) as Hv.
  destruct (verify_block (world s) (Some bd)) as [[r|] d']; [|by split; [split|constructor]].
  rewrite !bind_on_world. change (world (with_pending rest s)) with (world s).
  pose proof (on_verify_result_later r (world s)) as Hl.
  destruct (on_verify_result r (world s)) as [[a|e] w'] eqn:Ev; cbn [snd] in *.
  2: { split; [split; [by apply window_support|done]|done]. }
  assert (window (with_world w' (with_pending rest s))) as Hw by by apply window_support.
  destruct a; [by split..| |by split|].
  - apply waits_only_for in Ev; [|done]. destruct Hv as [Hv| ->]; [done|].
    split; [split; [by apply window_put_back|done]|done].
  - split; [|exact Hl]. apply good_excused. apply good_bind; [|intros [] s2 _ Hs2].
    + split; [|done]. apply window_map_pending; [done|]. intros k st _ Hst. destruct st; try done. by case_decide.
    + apply good_bind; [by apply safe_report|]. intros [] s3 _ Hs3. by split.
Qed.

Lemma downloaded_loop_excused n s : window s → own_errors (world s) → excused (world s) (downloaded_loop n s).
Proof.
  revert s. induction n as [|n IH]; intros s Hs O; [by split|]. cbn [downloaded_loop].
  destruct (downloaded_turn_excused s Hs O) as [Ht Hl]. apply excused_bind; [done|]. intros go s' Hrun Hs'.
  rewrite Hrun in Hl. cbn [snd] in Hl. destruct go; [|by split].
  eapply excused_later; [exact Hl|]. apply IH; [done|]. by eapply own_errors_later.
Qed.

Lemma maintain_downloaded_excused s : window s → own_errors (world s) → excused (world s) (maintain_downloaded s).
Proof.
  intros Hs O. unfold maintain_downloaded. rewrite !bind_asks. apply excused_bind; [by apply downloaded_loop_excused|].
  intros [] s1 _ Hs1. apply good_excused. revert s1 Hs1. apply safe_bind; [apply safe_update_latency|]. intros _. apply safe_sync.
Qed.

(** *** The handlers *)
Lemma safe_peers (f : PeerId * PeerInfo → C unit) l s :
  (∀ peer s, window s → peer_ok (block_request_timer s) peer →
     good window (f peer s) ∧ block_request_timer (f peer s).2 = block_request_timer s) →
  window s → Forall (peer_ok (block_request_timer s)) l → good window (for_each f l s).
Proof.
  intros Hf. revert s. induction l as [|x l IH]; intros s Hs; [by split|]. intros [Hx Hl]%Forall_cons.
  cbn [for_each]. destruct (Hf x s Hs Hx) as [Hg Ht]. apply good_bind; [done|]. intros [] s' Hr Hs'.
  apply IH; [done|]. rewrite Hr in Ht. cbn in Ht. by rewrite Ht.
Qed.

Lemma target_peers_ok target s : window s → Forall (peer_ok (block_request_timer s)) (target_peers target s).
Proof.
  intros Hs. apply Forall_forall. intros [p i] [_ Hin%elem_of_hash_iter]%list_elem_of_filter.
  by apply window_peer_ok.
Qed.

(** Telling a peer something about which only the caches change. *)
Lemma safe_tell p i (m : C unit) s : window s → peer_ok (block_request_timer s) (p, i) →
  (m = ret tt ∨ ∃ x, m = network_send_message x) →
  good window (bind (set_peer p i) (λ _, m) s) ∧
  block_request_timer (bind (set_peer p i) (λ _, m) s).2 = block_request_timer s.
Proof.
  intros Hs Hp Hm. pose proof (window_set_peer p i s Hs Hp) as Hw.
  destruct Hm as [->|[x ->]]; (split; [split; [|done]|done]); [exact Hw|exact (window_support _ _ Hw)].
Qed.

Lemma safe_announce h header target : Safe window (announce_block h header target).
Proof.
  apply safe_read. intros s Hs. apply safe_peers; [|done|by apply target_peers_ok].
  clear s Hs. intros [p i] s Hs Hp. unfold announce_to. cbn [fst snd].
  destruct (lru_put h (known_blocks i)) as [found kb].
  apply safe_tell; [done|exact Hp|]. destruct found; [by left|right; by eexists].
Qed.

Lemma safe_propagate txs target : Safe window (propagate_txs txs target).
Proof.
  apply safe_read. intros s Hs. apply safe_peers; [|done|by apply target_peers_ok].
  clear s Hs. intros [p i] s Hs Hp. unfold propagate_to. cbn [fst snd].
  destruct (to_propagate (known_txs i) txs) as [l kt].
  apply safe_tell; [done|exact Hp|]. destruct l; [by left|right; by eexists].
Qed.

Lemma safe_receive_tx p t : Safe window (receive_tx p t).
Proof.
  apply safe_read. intros s Hs. destruct (peers s !! p) as [i|] eqn:Hp; [|by split].
  apply good_bind; [by apply safe_try|]. intros h s1 Hr Hs1.
  assert (s1 = s) as -> by (revert Hr; unfold try, lift; by intros [= _ <-]).
  destruct (lru_put h (known_txs i)) as [found kt].
  apply good_bind.
  { split; [|done]. apply window_set_peer; [done|]. by apply (window_peer_ok s p i). }
  intros [] s2 _ Hs2. destruct found; [by split|].
  apply good_bind; [by apply safe_attempt; [apply safe_on_world|]|]. intros r s3 _ Hs3. unfold on_insert_result.
  destruct r as [|e]; [by split|]. destruct (as_txpool e) as [[[]|]|]; try by split. by apply safe_report.
Qed.

Lemma safe_on_tx_propagate p t : Safe window (on_tx_propagate p t).
Proof.
  apply safe_bind; [apply safe_asks|]. intros n. apply safe_bind; [apply safe_asks|]. intros ps. cbv beta zeta.
  destruct (should_tx_propagate _ _); [|apply safe_ret]. apply safe_for_each. apply safe_receive_tx.
Qed.

Lemma safe_initial_propagate p : Safe window (initial_propagate_txs p).
Proof.
  apply safe_read. intros s Hs. destruct (peers s !! p) as [i|]; [|by split]. revert s Hs.
  apply safe_bind; [apply safe_asks|]. intros n. destruct (should_tx_propagate _ _); [|apply safe_ret].
  apply safe_bind; [apply safe_asks|]. intros w. apply safe_bind; [apply safe_try|]. intros txs. apply safe_propagate.
Qed.

Lemma safe_on_tx_inserted h : Safe window (on_tx_inserted h).
Proof.
  apply safe_bind; [apply safe_asks|]. intros w. apply safe_bind; [apply safe_try|].
  intros [t|]; [apply safe_propagate|apply safe_ret].
Qed.

Lemma good_committed n h s : window s → (∀ k st, (k, st) ∈ pending_blocks s → (n ≤ k)%Z) →
  good window (on_block_committed n h s).
Proof.
  intros Hs Hn. unfold on_block_committed. set (s1 := (set_confirmed (n, h) s).2).
  assert (window s1) as Hs1 by exact (window_support _ _ Hs).
  apply good_bind; [by split|]. intros [] s1' [= <-] _. fold s1. unfold bind at 1, asks at 1.
  apply good_bind; [split; [by apply window_remove|done]|]. intros [] s2 _ Hs2.
  apply good_bind; [by apply safe_update_latency|]. intros [] s3 _ Hs3. revert s3 Hs3.
  apply safe_bind; [apply safe_asks|]. intros w. apply safe_bind; [apply safe_try|]. intros header.
  apply safe_bind; [apply safe_announce|]. intros _. apply safe_send_consensus.
Qed.

Lemma good_announced p a s : window s → claim_ok (hdr_number (ba_header a)) →
  good window (on_block_announce p a s).
Proof.
  intros Hs Ha. unfold on_block_announce. unfold bind at 1, asks at 1.
  apply good_bind; [|intros [] s' _ Hs'; by apply safe_sync].
  destruct (peers s !! p) as [i|] eqn:Hp; [|by split]. split; [|done].
  apply window_set_peer; [done|]. split; [done|]. cbn. eauto using wn_timers.
Qed.

Lemma safe_on_block_request p q : Safe window (on_block_request p q).
Proof.
  apply safe_bind; [apply safe_asks|]. intros w. apply safe_bind; [apply safe_try|]. intros l. apply safe_send_network.
Qed.

(** A block of a response takes the place of the entry that was downloading it. *)
Lemma receive_block_ok ps from a bd m : numbered a m → (∀ k st, (k, st) ∈ m → claim_ok k ∧ entry_ok ps st) →
  let m' := receive_block from m bd in
  numbered a m' ∧ length m' = length m ∧ ∀ k st, (k, st) ∈ m' → claim_ok k ∧ entry_ok ps st.
Proof.
  intros Hm He. cbv zeta. unfold receive_block.
  destruct (bt_get (bd_number bd) m) as [[|f r|f d]|] eqn:E; try done.
  destruct (numbered_update a m _ (Downloaded from (Some bd)) _ Hm E) as (m1 & m2 & -> & ->).
  rewrite !length_app. split_and!; [|done|].
  - apply numbered_app. by apply numbered_app in Hm.
  - intros k st [Hin|[[= -> ->]|Hin]%elem_of_cons]%elem_of_app.
    + apply He. apply elem_of_app. by left.
    + split; [|by eexists]. apply (He _ (Downloading f r)). apply elem_of_app. right. by left.
    + apply He. apply elem_of_app. right. by right.
Qed.

Lemma window_receive p l s : window s →
  window (with_pending (foldl (receive_block p) (pending_blocks s) l) s).
Proof.
  intros Hs. pose proof Hs as [(a & Ha & Hm) Hb Hl He _ _].
  assert (∀ m, numbered a m → (∀ k st, (k, st) ∈ m → claim_ok k ∧ entry_ok (peers s) st) →
    let m' := foldl (receive_block p) m l in
    numbered a m' ∧ length m' = length m ∧ ∀ k st, (k, st) ∈ m' → claim_ok k ∧ entry_ok (peers s) st) as H.
  { induction l as [|bd l IH]; intros m Hm' He'; [done|]. cbn [foldl].
    destruct (receive_block_ok (peers s) p a bd m Hm' He') as (H1 & H2 & H3).
    destruct (IH _ H1 H3) as (H4 & H5 & H6). split_and!; [done|by rewrite H5|done]. }
  destruct (H _ Hm) as (H1 & H2 & H3); [intros k st Hin; split; [by eapply Hb|by eapply He]|].
  apply window_pending; [done|by exists a|by rewrite H2|done].
Qed.

Lemma good_response p r s : window s → own_errors (world s) → excused (world s) (on_block_response p r s).
Proof.
  intros Hs O. unfold on_block_response. unfold bind at 1, asks at 1.
  apply excused_bind; [|intros [] s' Hrun Hs'; assert (world s' = world s) as Hw; [|rewrite <-Hw in *; by apply maintain_downloaded_excused]].
  2: { revert Hrun. destruct (peers s !! p) as [i|]; [|by intros [= <-]].
       destruct (state i); [by intros [= <-]|]. case_decide; by intros [= <-]. }
  apply good_excused.
  destruct (peers s !! p) as [i|] eqn:Hp; [|by split]. destruct (state i) as [|rid n c] eqn:Hi; [by split|].
  case_decide; [|by split]. split; [|done]. apply (window_receive p (bs_blocks r)) in Hs.
  apply (window_set_peer p (peer_with_state Vacant i)) in Hs; [exact Hs|]. split; [|done].
  by apply (wn_claims _ Hs p i).
Qed.

Lemma elem_of_remove_timer t t' l : t' ∈ l → t' ≠ t → t' ∈ CoordStream.remove_timer t l.
Proof.
  induction l as [|x l IH]; [done|]. cbn. intros [->|Hin]%elem_of_cons Hne; case_decide as Heq; subst; try done.
  - by left.
  - right. by apply IH.
Qed.

(** The trigger of a timer that has just left the set. *)
Lemma good_trigger p rid s : window s →
  good window (on_block_request_timer_trigger p rid
    (with_timer (CoordStream.remove_timer (p, rid) (block_request_timer s)) s)).
Proof.
  intros Hs. pose proof Hs as [Hn Hb Hl He Hc Ht]. set (s1 := with_timer _ s).
  unfold on_block_request_timer_trigger. unfold bind at 1, asks at 1. cbn [peers with_timer s1].
  assert ((∃ i n c, peers s !! p = Some i ∧ state i = PeerDownloading rid n c) ∨
          (∀ i n c, peers s !! p = Some i → state i ≠ PeerDownloading rid n c)) as [(i & n & c & Hp & Hi)|Hno].
  { destruct (peers s !! p) as [i|]; [|by right]. destruct (state i) as [|rid' n c] eqn:Hi; [right; intros ??? [= <-]; by rewrite Hi|].
    destruct (decide (rid' = rid)) as [->|]; [left; by exists i, n, c|right; intros ??? [= <-]; rewrite Hi; congruence]. }
  - rewrite Hp, Hi, decide_True by done.
    assert (window (with_peers (<[p := peer_with_state Vacant i]> (peers s1)) s1)) as Hw.
    { split; cbn; try done.
      - intros k st Hin. apply entry_ok_insert. by eapply He.
      - intros q j. destruct (decide (p = q)) as [<-|]; [rewrite lookup_insert_eq|rewrite lookup_insert_ne by done; by eauto].
        intros [= <-]. cbn. by eapply Hc.
      - intros q j rid' n' c'. destruct (decide (p = q)) as [<-|].
        + rewrite lookup_insert_eq. by intros [= <-].
        + rewrite lookup_insert_ne by done. intros Hq Hj. apply elem_of_remove_timer; [eauto|congruence]. }
    apply good_bind; [by split|]. intros [] s2 [= <-] Hs2.
    apply good_bind.
    { split; [|done]. apply window_map_pending; [done|]. intros k st _ Hst. destruct st; try done. by case_decide. }
    intros [] s3 _ Hs3. apply good_bind; [by apply safe_report|]. intros [] s4 _ Hs4. by apply safe_sync.
  - assert (window s1) as Hw.
    { split; cbn; try done. intros q j rid' n' c' Hq Hj. apply elem_of_remove_timer; [eauto|].
      intros [= -> ->]. by eapply Hno. }
    destruct (peers s !! p) as [i|] eqn:Hp; [|by split]. destruct (state i) as [|rid' n c] eqn:Hi; [by split|].
    case_decide as Heq; [|by split]. subst rid'. by destruct (Hno i n c).
Qed.

Lemma good_open p nonce h s : window s → claim_ok (hs_confirmed_number h) →
  good window (on_protocol_open p nonce h s).
Proof.
  intros Hs Hh. unfold on_protocol_open. apply good_bind; [split; [|done]; by apply window_set_peer|].
  intros [] s1 _ Hs1. revert s1 Hs1. apply safe_bind; [apply safe_sync|]. intros _. apply safe_initial_propagate.
Qed.

Lemma good_close p s : window s → good window (on_protocol_close p s).
Proof.
  intros [Hn Hb Hl He Hc Ht]. unfold on_protocol_close.
  assert (window (with_peers (delete p (peers s))
    (with_pending (map_pending (λ _ st, match st with
        | Downloading from _ => if decide (from = p) then Seen else st
        | _ => st
        end) (pending_blocks s)) s))) as Hw.
  { split; cbn.
    - destruct Hn as (a & Ha & Hm). exists a. split; [done|]. by apply map_pending_numbered.
    - intros k st (st' & Hin & ->)%map_pending_elem. by eapply Hb.
    - by rewrite map_pending_length.
    - intros k st (st' & Hin & ->)%map_pending_elem. apply He in Hin. destruct st' as [|from rid|from d]; try done.
      case_decide; [done|]. cbn in *. by rewrite lookup_delete_ne by done.
    - intros q i [_ Hq]%lookup_delete_Some. by eapply Hc.
    - intros q i rid n c [_ Hq]%lookup_delete_Some. by eapply Ht. }
  unfold bind at 1, modify at 1, bind at 1, modify at 1. exact (safe_sync _ Hw).
Qed.

(** ** Every event *)

(** The numbers that peers claim have successors; the chain announces its blocks
    in order (when it announces one, no earlier block is still to be
    downloaded); and the chain, the pool and the engine return errors of their
    own while the event is handled. *)
Record admissible (s : ChainSync) (ev : CoordStream.Event) : Prop := {
  adm_errors : own_errors (world s);
  adm_event :
    match ev with
    | CoordStream.EvChain (ChainData.BlockCommitted n _) => ∀ k st, (k, st) ∈ pending_blocks s → (n ≤ k)%Z
    | CoordStream.EvNetwork (NProtocolOpen _ _ _ handshake) =>
        ∀ h, decode codec_protocol_message handshake = Some (PHandshake h) → claim_ok (hs_confirmed_number h)
    | CoordStream.EvNetwork (NMessage _ message) =>
        ∀ a, decode codec_protocol_message message = Some (PBlockAnnounce a) → claim_ok (hdr_number (ba_header a))
    | _ => True
    end;
}.

Lemma good_network m s : window s → admissible s (CoordStream.EvNetwork m) →
  excused (world s) (CoordStream.on_network_message m s).
Proof.
  intros Hs [O Ha]. revert Ha.
  destruct m as [p point nonce handshake|p point|p message]; cbn [CoordStream.on_network_message].
  - intros Ha. apply good_excused.
    unfold CoordStream.on_protocol_open. unfold bind at 1, asks at 1, CoordStream.accept_handshake.
    destruct (decode _ handshake) as [[h| | | | |]|]; try by apply safe_report.
    case_decide; [|by apply safe_report]. apply good_bind; [by apply good_open; [|apply Ha]|].
    intros [] s' _ Hs'. by apply safe_send_consensus.
  - intros _. apply good_excused. apply good_bind; [by apply good_close|]. intros [] s' _ Hs'. by apply safe_send_consensus.
  - intros Ha. unfold CoordStream.on_message. destruct (decode _ message) as [[| | | | |]|]; try by split.
    + by apply good_excused, good_announced; [|apply Ha].
    + by apply good_excused, safe_on_block_request.
    + by apply good_response.
    + by apply good_excused, safe_on_tx_propagate.
    + by apply good_excused, safe_send_consensus.
Qed.

(** The errors of a handler are logged; its panics end the task. *)
Lemma or_warn_excused w0 (m : C unit) s : excused w0 (m s) →
  ∃ r s', or_warn m s = (r, s') ∧ window s' ∧ (r = Ok tt ∨ r = Err Panic ∧ engine_panics w0).
Proof.
  intros [H1 H2]. unfold or_warn, attempt, bind. destruct (m s) as [[a|[e|]] s']; eexists _, s'; split; try done;
    (split; [done|]); [by left..|right]. split; [done|]. by apply H2.
Qed.

Lemma handle_good ev s : window s → admissible s ev →
  ∃ r s', CoordStream.handle ev s = (r, s') ∧ window s' ∧ (r = Ok tt ∨ r = Err Panic ∧ engine_panics (world s)).
Proof.
  intros Hs Ha. destruct ev as [m|m|[m]|[h]|[p m]|p rid|w]; cbn [CoordStream.handle].
  - apply or_warn_excused. destruct m as [n h|n h].
    + by apply good_excused, good_committed, Ha.
    + by apply maintain_downloaded_excused, Ha.
  - apply or_warn_excused. by apply good_network.
  - apply or_warn_excused, good_excused. by apply safe_send_network.
  - apply or_warn_excused, good_excused. by apply safe_on_tx_inserted.
  - apply or_warn_excused, good_excused. by apply safe_send_network.
  - unfold bind at 1, asks at 1. case_decide; [|by eexists _, s; split; [|split; [|left]]].
    unfold bind at 1, modify at 1. apply or_warn_excused, good_excused. by apply good_trigger.
  - eexists _, _. split; [done|]. split; [by apply window_support|by left].
Qed.

(** The states of the task: events are handled one after the other. *)
Inductive reachable : ChainSync → Prop :=
| reach_spawn w : reachable (CoordStream.spawn w)
| reach_event s ev s' : reachable s → admissible s ev →
    CoordStream.handle ev s = (Ok tt, s') → reachable s'.

(** C18: over the life of the coordinator, whatever messages, transactions and
    timers come, in any order: the blocks that it is downloading are a run
    of consecutive numbers, at most [PENDING_BLOCKS_SIZE]; a block is only
    being downloaded from a peer that is there; the data of a downloaded block
    is there until it is verified; every request in flight has its timer; and
    an event makes the task panic in one case only, that the engine itself
    panics on the proof of the next block of the chain (it reads the
    authorities at the last block, and there are none).  The conditions on the
    events: the numbers that a peer claims in its handshake and announcements
    are below [2 ^ 64 - 1]; the chain announces a committed block when no
    earlier one is in the window; and the errors of the chain, the pool and the engine, on
    the world of the event and on those that its commits make, are not those
    of the coordinator's verifier. *)
Theorem window_holds s : reachable s →
  window s ∧ ∀ ev, admissible s ev → ∃ r s', CoordStream.handle ev s = (r, s') ∧
    (r = Ok tt ∧ reachable s' ∨ r = Err Panic ∧ window s' ∧ engine_panics (world s)).
Proof.
  intros Hs. assert (window s) as Hw.
  { induction Hs as [w|s ev s' Hs IH Ha Hrun].
    - split; cbn; try done; try (by intros ?? ?%not_elem_of_nil); try (by intros ??; rewrite lookup_empty).
      by exists 0%Z.
    - destruct (handle_good ev s IH Ha) as (r & s'' & H & Hw & _). rewrite Hrun in H. by injection H as _ ->. }
  split; [done|]. intros ev Ha. destruct (handle_good ev s Hw Ha) as (r & s' & H & Hw' & Hr). exists r, s'. split; [done|].
  destruct Hr as [->|[-> Hp]]; [left|by right]. split; [done|]. by eapply reach_event.
Qed.
End Window.
