(* ===== verification/CoordSamples.v ===== *)
(** * CoordSamples

    A coordinator over the concrete chain of [ConsensusSupport], where the
    theorems about it are applied: caches as lists, blocks without
    transactions, and an engine that accepts every proof but [refused]. *)
From S2P Require Import Prelude Codec BTreeMap Types ConsensusSupport Engine PeerManager NetworkProtocol CoordProtocol CoordSupport CoordVerifier CoordSync CoordStream CoordWindow.
Import Sync.

#[local] Existing Instance FrameScale.scale.
#[local] Existing Instance key_order.

(** ** Caches *)
Definition cache : Type := list Hash * nat.
Definition cache_put (k : Hash) (c : cache) : bool * cache :=
  (bool_decide (k ∈ c.1), (take c.2 (k :: filter (λ x, x ≠ k) c.1), c.2)).
#[export] Instance cache_lib : LruLib := {|
  LruCache := cache;
  lru_new n := ([], n);
  lru_put := cache_put;
  lru_keys := fst;
  lru_cap := snd;
  lru_new_keys n := eq_refl;
  lru_new_cap n := eq_refl;
  lru_put_found k c := eq_refl;
  lru_put_keys k c := eq_refl;
  lru_put_cap k c := eq_refl;
|}.

(** ** The support *)
Definition refused : Proof := Build_Proof "refused" [].
Definition find_number (n : BlockNumber) (w : SampleWorld) : option Hash :=
  fst <$> head (filter (λ kv, hdr_number kv.2 = n) (sw_headers w)).

Definition insert_sample (tx : Transaction) : M SampleWorld CommonError unit := λ w,
  if decide (params (call tx) = b "bad")
  then (Err (ETxPool (TxPoolInsertError (InvalidTx (VtInvalidTxWitness "bad")))), w)
  else (Ok tt, Build_SampleWorld (sw_state w) (sw_headers w) (sw_proofs w) (sw_answers w)
                 (sw_pool w ++ [Build_FullTransaction tx (params (call tx))])).

#[export] Instance coord_sample : CoordinatorSupport := {|
  coord_consensus := sample_support;
  support_block_hash (w : @World sample_support) n := Ok (find_number n w);
  support_body (w : @World sample_support) h := Ok ((λ _, Build_Body [] []) <$> find_key h (sw_headers w));
  support_transaction (w : @World sample_support) h := Ok None;
  txpool_get_transactions (w : @World sample_support) := Ok (sw_pool w);
  txpool_get_transaction (w : @World sample_support) h := Ok (head (filter (λ t, tx_hash t = h) (sw_pool w)));
  txpool_insert_transaction := insert_sample;
  consensus_verify_proof w header pf :=
    Some (if decide (pf = refused) then Err (consensus_error (ConsensusVerifyProofError "refused")) else Ok tt);
|}.

Lemma sample_own_errors w : own_errors w.
Proof.
  split; try done.
  - intros w' header pf r _ [= <-]. by case_decide.
  - intros p w' _. cbn. unfold sample_commit. by case_decide.
Qed.

(** ** A peer that is [n] blocks ahead *)
Definition peer_handshake (n : Z) : bytes := handshake_build (sample_hash 0 0) (n, sample_hash n 0) 7.
Definition bob : PeerId := b "bob".
Definition carol : PeerId := b "carol".
Definition opened (p : PeerId) (n : Z) : CoordStream.Event :=
  CoordStream.EvNetwork (NProtocolOpen p NetworkProtocol.Dialer 3 (peer_handshake n)).
Lemma handshake_200 : decode codec_protocol_message (peer_handshake 200) =
  Some (PHandshake (Build_Handshake (sample_hash 0 0) 200 (sample_hash 200 0) 7)).
Proof. vm_compute. reflexivity. Qed.
Definition node : ChainSync := CoordStream.spawn (sample_genesis []).

(** The state after events. *)
Definition after (s : ChainSync) (evs : list CoordStream.Event) : ChainSync := (CoordStream.run evs s).2.

Lemma after_one s ev : (CoordStream.handle ev s).1 = Ok tt → CoordStream.handle ev s = (Ok tt, after s [ev]).
Proof. unfold after, CoordStream.run. cbn [for_each]. unfold bind. by destruct (CoordStream.handle ev s) as [r s']; intros [= ->]. Qed.

Example asks_for_blocks : network_tx (support (after node [opened bob 200])) =
  [SendMessage bob (encode codec_protocol_message
     (PBlockRequest {| bq_request_id := 0; bq_fields := 7; bq_block_id := BNumber 1; bq_count := 128; bq_direction := Asc |}))].
Proof. vm_compute. reflexivity. Qed.

Lemma window_holds_witness : reachable (after node [opened bob 200]) ∧
  length (pending_blocks (after node [opened bob 200])) = 200 ∧ window (after node [opened bob 200]).
Proof.
  assert (reachable (after node [opened bob 200])) as Hr.
  { eapply (reach_event node (opened bob 200)); [apply reach_spawn| |apply after_one; vm_compute; reflexivity].
    split; [apply sample_own_errors|]. intros h. rewrite handshake_200. intros [= <-]. reflexivity. }
  split_and!; [exact Hr|vm_compute; reflexivity|].
  exact (proj1 (window_holds _ Hr)).
Defined.

(** ** A chain of three blocks *)
Definition grow (w : SampleWorld) : SampleWorld :=
  let n := (confirmed_number (sw_state w) + 1)%Z in
  (sample_commit (sample_build w (Build_BuildBlockParams n (100 * n) [] [] (confirmed_number (sw_state w)))) w).2.
Definition chain_3 : SampleWorld := grow (grow (grow (sample_genesis []))).

(** The data of its block [n], as an honest peer sends it. *)
Definition honest (n : BlockNumber) : list BlockData :=
  match get_block_hash_by_number chain_3 n with
  | Ok h => match read_block chain_3 7 h with Ok bd => [bd] | Err _ => [] end
  | Err _ => []
  end.
Definition answers (p : PeerId) (request_id : RequestId) (blocks : list BlockData) : CoordStream.Event :=
  CoordStream.EvNetwork (NMessage p (encode codec_protocol_message
    (PBlockResponse {| bs_request_id := request_id; bs_blocks := blocks |}))).

(** A node that is three blocks behind catches up. *)
Example catches_up :
  let s := after node [opened bob 3; answers bob 0 (honest 1 ++ honest 2 ++ honest 3)] in
  local_number s = 3%Z ∧ pending_blocks s = [] ∧
  confirmed_block_hash (get_current_state (world s)) = confirmed_block_hash (sw_state chain_3).
Proof. vm_compute. repeat split. Qed.

(** ** What the coordinator does not guard against

    What the coordinator does not guard against, on the concrete chain of
    [CoordSamples]. *)
Import Sync.

#[local] Existing Instance FrameScale.scale.
#[local] Existing Instance key_order.

Definition closed (p : PeerId) : CoordStream.Event :=
  CoordStream.EvNetwork (NProtocolClose p NetworkProtocol.Dialer).

(** The data of a block with another proof, hash or execution gap. *)
Definition change (f : BlockData → BlockData) (l : list BlockData) : list BlockData := f <$> l.
Definition refuse (bd : BlockData) : BlockData :=
  Build_BlockData (bd_number bd) (bd_block_hash bd) (bd_header bd) (bd_body bd) (Some refused).
Definition claim_hash (h : Hash) (bd : BlockData) : BlockData :=
  Build_BlockData (bd_number bd) h (bd_header bd) (bd_body bd) (bd_proof bd).
Definition with_gap (gap : Z) (bd : BlockData) : BlockData :=
  Build_BlockData (bd_number bd) (bd_block_hash bd)
    ((λ h, sample_header (hdr_number h) (hdr_timestamp h) gap (parent_hash h)) <$> bd_header bd)
    (bd_body bd) (bd_proof bd).

Definition reports (s : ChainSync) : list (PeerId * string) :=
  omap (λ m, match m with
             | PeerManager.ReportPeer p r => Some (p, PeerManager.desc r)
             | _ => None
             end) (peer_manager_tx (support s)).

(** A block that is refused leaves the window for good: the window goes on
    with the next number, no peer is asked for the refused one again, and an
    honest peer that sends the next block is reported for it. *)
Lemma refused_block_is_skipped :
  let s1 := after node [opened bob 3; answers bob 0 (change refuse (honest 1) ++ honest 2 ++ honest 3)] in
  (pending_blocks s1).*1 = [2; 3]%Z ∧ local_number s1 = 0%Z ∧
  let s2 := after s1 [closed bob; opened carol 3; answers carol 2 (honest 2 ++ honest 3)] in
  reports s2 = [(bob, "Invalid block"); (carol, "Invalid block")] ∧ (pending_blocks s2).*1 = [3]%Z.
Proof. vm_compute. repeat split. Qed.

(** The hash that makes a block a duplicate is the one that the peer claims:
    with the hash of a known block its data is dropped, the peer is not
    reported, and its number leaves the window as well. *)
Lemma claimed_hash_is_trusted :
  let s := after node [opened bob 3; answers bob 0 (change (claim_hash (sample_hash 0 0)) (honest 1))] in
  reports s = [] ∧ (pending_blocks s).*1 = [2; 3]%Z ∧ local_number s = 0%Z.
Proof. vm_compute. repeat split. Qed.

(** A response may leave blocks out: they stay in the state of being
    downloaded from a peer that is idle, and neither the timer of the request
    nor another peer makes them requested again. *)
Lemma short_response_stalls :
  let s := after node [opened bob 3; answers bob 0 []; CoordStream.EvTimer bob 0; opened carol 3] in
  (pending_blocks s) = [(1, Downloading bob 0); (2, Downloading bob 0); (3, Downloading bob 0)]%Z ∧
  length (network_tx (support s)) = 1 ∧ reports s = [] ∧ block_request_timer s = [] ∧
  (state <$> peers s !! bob) = Some Vacant ∧ (state <$> peers s !! carol) = Some Vacant.
Proof. vm_compute. repeat split. Qed.

(** The number of the execution that a header claims wraps around: with a gap
    above its number a block waits for an execution that cannot come, at the
    head of the window, also when its peer has left. *)
Lemma impossible_execution_waits :
  let s := after node [opened bob 3; answers bob 0 (change (with_gap 2) (honest 1) ++ honest 2 ++ honest 3);
                       closed bob; opened carol 3] in
  head (pending_blocks s) = Some (1%Z, Downloaded bob (head (change (with_gap 2) (honest 1)))) ∧
  reports s = [] ∧ local_number s = 0%Z ∧ length (network_tx (support s)) = 1.
Proof. vm_compute. repeat split. Qed.

(** When the chain is ahead of its messages the latency wraps around, and the
    engine is told of it. *)
Lemma latency_underflows :
  let s := after node [opened bob 1; CoordStream.EvWorld chain_3; opened carol 2] in
  consensus_tx (support s) = [SyncLatencyUpdated 1; NetworkProtocolOpen bob 3 7;
                              SyncLatencyUpdated (2 ^ 64 - 1); NetworkProtocolOpen carol 3 7].
Proof. vm_compute. reflexivity. Qed.

(** A request for no block is answered with one. *)
Lemma no_block_is_one :
  match requested_blocks chain_3 {| bq_request_id := 0; bq_fields := 7; bq_block_id := BNumber 1;
                                    bq_count := 0; bq_direction := Asc |} with
  | Ok blocks => bd_number <$> blocks = [1%Z]
  | Err _ => False
  end.
Proof. vm_compute. reflexivity. Qed.
