(* ===== verification/CoordServe.v ===== *)
(** * CoordServe

    What the coordinator asks its peers for and what it answers: the groups of
    blocks of a request, the blocks of a response, and the loop over the
    blocks that have come. *)
From S2P Require Import Prelude Codec BTreeMap Types ConsensusSupport Engine PeerManager CoordProtocol CoordSupport CoordVerifier CoordSync CoordWindow CoordSamples.
Import Sync.

(** ** The groups of the window *)

(** The numbers of a group, and those of the window that are to be requested. *)
Definition group_numbers (g : BlockNumber * Z) : list BlockNumber := seqZ g.1 g.2.
Fixpoint seen_numbers (m : BTreeMap PendingBlockState) : list BlockNumber :=
  match m with
  | [] => []
  | (k, Seen) :: m => k :: seen_numbers m
  | _ :: m => seen_numbers m
  end.

Section Groups.
Variable size : Z.
Hypothesis size_range : (1 ≤ size < 2 ^ 32)%Z.

Definition sized (g : BlockNumber * Z) : Prop := (1 ≤ g.2 ≤ size)%Z.
(** A group that ends before [a] and is as large as it can be. *)
Definition ended (m : BTreeMap PendingBlockState) (a : Z) (g : BlockNumber * Z) : Prop :=
  (g.2 < size)%Z → (a ≤ g.1 + g.2)%Z ∧ (g.1 + g.2, Seen)%Z ∉ m.

(** The open group reaches to [a]. *)
Definition open_item (a : Z) (item : option (BlockNumber * Z)) : Prop :=
  match item with
  | Some v => (v.1 + v.2 = a ∧ 1 ≤ v.2 < size)%Z
  | None => True
  end.
Definition item_list (item : option (BlockNumber * Z)) : list (BlockNumber * Z) :=
  match item with Some v => [v] | None => [] end.

(** One entry: the groups it closes and the item it leaves. *)
Lemma group_step_spec a st groups item : open_item a item → ∃ closed item',
  group_step size (groups, item) (a, st) = (groups ++ closed, item') ∧ open_item (a + 1) item' ∧
  Forall sized closed ∧
  flat_map group_numbers (closed ++ item_list item') =
    flat_map group_numbers (item_list item) ++ seen_numbers [(a, st)] ∧
  (∀ g, g ∈ closed → (g.2 < size)%Z → g.1 + g.2 = a ∧ st ≠ Seen)%Z.
Proof.
  intros Hi. destruct st as [|f r|f d].
  - set (v := match item with Some v => (v.1, v.2 + 1)%Z | None => (a, 1)%Z end).
    assert (1 ≤ v.2 ≤ size ∧ v.1 + v.2 = a + 1)%Z as [Hv Hva] by (destruct item as [[x k]|]; cbn in *; lia).
    assert (group_numbers v = flat_map group_numbers (item_list item) ++ [a]) as Hg.
    { destruct item as [[x k]|]; cbn in *; [|done]. rewrite app_nil_r. unfold group_numbers. cbn.
      rewrite seqZ_app by lia. f_equal. replace (x + k)%Z with a by lia. done. }
    assert (group_step size (groups, item) (a, Seen) =
      if decide (v.2 >= size)%Z then (groups ++ [v], None) else (groups, Some v)) as ->.
    { unfold group_step, v. cbn [fst snd]. destruct item as [[x k]|]; cbn in *; [|done]. rewrite u32_id; [done|unfold is_u32; lia]. }
    case_decide.
    + exists [v], None. cbn. rewrite app_nil_r. split_and!; try done; [by constructor|]. intros g [->|[]%not_elem_of_nil]%elem_of_cons Hlt. lia.
    + exists [], (Some v). rewrite !app_nil_r. cbn. rewrite app_nil_r. split_and!; try done; [lia..|by intros ? ?%not_elem_of_nil].
  - destruct item as [v|]; cbn in *; [exists [v], None|exists [], None]; cbn; rewrite ?app_nil_r; split_and!; try done;
      [constructor; [red; lia|done]| |]; [intros g [->|[]%not_elem_of_nil]%elem_of_cons _; split; [lia|done]|by intros ? ?%not_elem_of_nil].
  - destruct item as [v|]; cbn in *; [exists [v], None|exists [], None]; cbn; rewrite ?app_nil_r; split_and!; try done;
      [constructor; [red; lia|done]| |]; [intros g [->|[]%not_elem_of_nil]%elem_of_cons _; split; [lia|done]|by intros ? ?%not_elem_of_nil].
Qed.

Lemma group_fold a m groups item : numbered a m → open_item a item → ∃ closed item',
  foldl (group_step size) (groups, item) m = (groups ++ closed, item') ∧
  open_item (a + Z.of_nat (length m)) item' ∧ Forall sized closed ∧ Forall (ended m a) closed ∧
  flat_map group_numbers (closed ++ item_list item') = flat_map group_numbers (item_list item) ++ seen_numbers m.
Proof.
  revert a groups item. induction m as [|[k st] m IH]; intros a groups item.
  { intros _ Hi. exists [], item. cbn. rewrite Z.add_0_r, !app_nil_r. by split_and!. }
  intros [Hk Hm] Hi. cbn in Hk. subst k. cbn [foldl].
  destruct (group_step_spec a st groups item Hi) as (c1 & i1 & -> & Hi1 & Hs1 & Hf1 & He1).
  destruct (IH (a + 1)%Z (groups ++ c1) i1 Hm Hi1) as (c2 & i2 & -> & Hi2 & Hs2 & He2 & Hf2).
  exists (c1 ++ c2), i2. rewrite <-app_assoc. split_and!; [done| |by apply Forall_app| |].
  - cbn [length]. by replace (a + Z.of_nat (S (length m)))%Z with (a + 1 + Z.of_nat (length m))%Z by lia.
  - apply Forall_app. split; apply Forall_forall.
    + intros g Hg Hlt. destruct (He1 g Hg Hlt) as [-> Hst]. split; [lia|].
      intros [[= <-]|Hin]%elem_of_cons; [done|]. apply (numbered_elem _ _ _ _ Hm) in Hin. lia.
    + intros g Hg Hlt. rewrite Forall_forall in He2. destruct (He2 g Hg Hlt) as [Hge Hn]. split; [lia|].
      intros [[= Heq _]|Hin]%elem_of_cons; [lia|done].
  - rewrite <-app_assoc, flat_map_app, Hf2. rewrite flat_map_app in Hf1. rewrite app_assoc, Hf1, <-app_assoc.
    by destruct st.
Qed.

(** C33: the groups that are requested from peers cover exactly the numbers
    of the window that nobody is downloading, each once and in order; every
    group has at least one and at most [size] blocks, and a group that is
    smaller is followed by a block that is not to be requested. *)
Theorem seen_groups_cover a m : numbered a m →
  let groups := make_seen_groups m size in
  flat_map group_numbers groups = seen_numbers m ∧
  Forall (λ g, sized g ∧ ((g.2 < size)%Z → (g.1 + g.2, Seen)%Z ∉ m)) groups.
Proof.
  intros Hm. unfold make_seen_groups.
  destruct (group_fold a m [] None Hm I) as (closed & item & E & Hi & Hs & He & Hf). rewrite E.
  cbn [app item_list flat_map] in *.
  assert (Forall (λ g, sized g ∧ ((g.2 < size)%Z → (g.1 + g.2, Seen)%Z ∉ m)) closed) as Hc.
  { rewrite Forall_forall in Hs, He. apply Forall_forall. intros g Hg. split; [by apply Hs|]. intros Hlt.
    by apply (He g Hg). }
  destruct item as [v|]; cbn in *; [|by rewrite app_nil_r in Hf].
  split; [done|]. apply Forall_app. split; [done|]. apply Forall_singleton. destruct Hi as [Hv Hr].
  split; [red; lia|]. intros _ Hin. apply (numbered_elem _ _ _ _ Hm) in Hin. lia.
Qed.
End Groups.

(** The window of the test of the source. *)
Lemma seen_groups_cover_witness :
  let m := [(1, Seen); (2, Seen); (3, Downloading bob 0); (4, Seen); (5, Seen); (6, Seen)]%Z in
  make_seen_groups m 2 = [(1, 2); (4, 2); (6, 1)]%Z ∧
  flat_map group_numbers (make_seen_groups m 2) = [1; 2; 4; 5; 6]%Z.
Proof.
  cbv zeta. split; [reflexivity|].
  destruct (seen_groups_cover 2 ltac:(lia) 1
    [(1, Seen); (2, Seen); (3, Downloading bob 0); (4, Seen); (5, Seen); (6, Seen)]%Z ltac:(repeat split)) as [H _].
  etransitivity; [exact H|reflexivity].
Defined.

(** ** The blocks of a response *)
Section Serve.
Context {SC : Scale} {SU : CoordinatorSupport} {LL : LruLib} {HO : HashOrder}.

(** The data of the block with a number. *)
Definition data_at (w : World) (fields : Fields) (number : BlockNumber) : CommonResult BlockData :=
  let? block_hash := get_block_hash_by_number w number in read_block w fields block_hash.

(** Every block up to the last confirmed one can be read. *)
Definition readable (w : World) (fields : Fields) : Prop :=
  ∀ n, (0 ≤ n ≤ confirmed_number (get_current_state w))%Z →
    ∃ bd, data_at w fields n = Ok bd ∧ bd_number bd = n.

(** How many blocks there are from a number on, and the ith of them. *)
Definition room (c : BlockNumber) (direction : Direction) (n : BlockNumber) : Z :=
  match direction with Asc => c - n + 1 | Desc => n + 1 end.
Definition ith (direction : Direction) (n i : Z) : BlockNumber :=
  match direction with Asc => n + i | Desc => n - i end.

Lemma next_number_ith c direction n : (0 ≤ n ≤ c)%Z → (c < 2 ^ 64)%Z →
  (next_number c direction n = None ∧ room c direction n = 1%Z) ∨
  (next_number c direction n = Some (ith direction n 1) ∧ (0 ≤ ith direction n 1 ≤ c)%Z ∧
   room c direction n = (room c direction (ith direction n 1) + 1)%Z).
Proof.
  intros Hn Hc. destruct direction; cbn [next_number room ith].
  - case_decide; [left; split; [done|lia]|right]. rewrite u64_id by (unfold is_u64; lia). split; [done|lia].
  - case_decide; [left; split; [done|lia]|right]. rewrite u64_id by (unfold is_u64; lia). split; [done|lia].
Qed.

Lemma ith_succ direction n l :
  ith direction n <$> seqZ 0 (l + 1) = n :: (ith direction (ith direction n 1) <$> seqZ 0 l) ∨ (l < 0)%Z.
Proof.
  destruct (decide (l < 0)%Z); [by right|left]. rewrite (seqZ_cons 0 (l + 1)) by lia. rewrite fmap_cons. f_equal.
  - destruct direction; cbn; lia.
  - replace (Z.pred (l + 1)) with l by lia. change (Z.succ 0) with (1 + 0)%Z. rewrite <-(fmap_add_seqZ 1 0 l).
    rewrite <-list_fmap_compose. apply list_fmap_ext. intros i x _. destruct direction; cbn; lia.
Qed.

Lemma request_loop_blocks fuel w q n blocks : let c := confirmed_number (get_current_state w) in
  let l := Z.of_nat (length blocks) in
  readable w (bq_fields q) → (0 ≤ n ≤ c)%Z → (c < 2 ^ 64)%Z → is_u32 (bq_count q) →
  (l + 1 ≤ Z.max 1 (bq_count q) ≤ l + Z.of_nat fuel)%Z →
  ∃ more, request_loop fuel w c q (BNumber n) blocks = Ok (blocks ++ more) ∧
    bd_number <$> more =
      ith (bq_direction q) n <$> seqZ 0 (Z.min (Z.max 1 (bq_count q) - l) (room c (bq_direction q) n)) ∧
    Forall (λ bd, data_at w (bq_fields q) (bd_number bd) = Ok bd) more.
Proof.
  cbv zeta. set (c := confirmed_number _). intros Hr Hn Hc Hcount. unfold is_u32 in Hcount.
  revert n blocks Hn. induction fuel as [|fuel IH]; intros n blocks Hn Hl; [lia|]. cbn [request_loop].
  destruct (Hr n Hn) as (bd & Hbd & Hnum). pose proof Hbd as Hread. unfold data_at in Hread.
  change (block_id_hash w (BNumber n)) with (get_block_hash_by_number w n).
  destruct (get_block_hash_by_number w n) as [h|]; cbn [result_bind] in *; [|done]. rewrite Hread. cbn [result_bind].
  assert (Z.of_nat (length (blocks ++ [bd])) = Z.of_nat (length blocks) + 1)%Z as Hlen by (rewrite length_app; cbn [length]; lia).
  rewrite Hlen, u32_id by (unfold is_u32; lia).
  assert (∀ k, k = 1%Z → ∃ more, @Ok CommonError _ (blocks ++ [bd]) = Ok (blocks ++ more) ∧
    bd_number <$> more = ith (bq_direction q) n <$> seqZ 0 k ∧
    Forall (λ bd, data_at w (bq_fields q) (bd_number bd) = Ok bd) more) as Hone.
  { intros k ->. exists [bd]. split_and!; [done| |by apply Forall_singleton; rewrite Hnum].
    rewrite (seqZ_cons 0 1), (seqZ_nil _ (Z.pred 1)) by lia. cbn [fmap list_fmap]. rewrite Hnum. f_equal.
    destruct (bq_direction q); cbn [ith]; lia. }
  assert (1 ≤ room c (bq_direction q) n)%Z as Hroom by (destruct (bq_direction q); cbn; lia).
  case_decide as Hge; [apply Hone; lia|]. rewrite Hnum.
  destruct (next_number_ith c (bq_direction q) n Hn Hc) as [[-> E]|(-> & Hn' & E)]; [apply Hone; lia|].
  destruct (IH (ith (bq_direction q) n 1) (blocks ++ [bd]) Hn' ltac:(lia)) as (more & -> & Hm & Hall).
  exists (bd :: more). rewrite <-app_assoc. split_and!; [done| |by constructor; [rewrite Hnum|]].
  rewrite fmap_cons, Hm, Hnum, Hlen.
  set (k := Z.min _ (room c _ (ith _ _ _))).
  destruct (ith_succ (bq_direction q) n k) as [Hs|Hs];
    [|exfalso; revert Hs; subst k; destruct (bq_direction q); cbn in *; lia].
  rewrite <-Hs. f_equal. f_equal. subst k. lia.
Qed.

(** A request for blocks by number is answered, after at most as many
    turns of its loop as blocks are asked for, with the data of consecutive
    blocks of the chain, up or down from that number: as many as are asked for
    (one, when none is), as far as there are any up to the last confirmed
    block, or down to the first. *)
Theorem request_served w q n : let c := confirmed_number (get_current_state w) in
  readable w (bq_fields q) → bq_block_id q = BNumber n → (0 ≤ n ≤ c)%Z → (c < 2 ^ 64)%Z → is_u32 (bq_count q) →
  ∃ blocks, requested_blocks w q = Ok blocks ∧
    bd_number <$> blocks =
      ith (bq_direction q) n <$> seqZ 0 (Z.min (Z.max 1 (bq_count q)) (room c (bq_direction q) n)) ∧
    Forall (λ bd, data_at w (bq_fields q) (bd_number bd) = Ok bd) blocks ∧
    (∀ fuel, (Z.max 1 (bq_count q) ≤ Z.of_nat fuel)%Z → request_loop fuel w c q (bq_block_id q) [] = Ok blocks).
Proof.
  cbv zeta. intros Hr Hid Hn Hc Hcount. unfold requested_blocks. rewrite Hid.
  assert (∀ fuel, (Z.max 1 (bq_count q) ≤ Z.of_nat fuel)%Z → ∃ more, 
    request_loop fuel w (confirmed_number (get_current_state w)) q (BNumber n) [] = Ok more ∧
    bd_number <$> more =
      ith (bq_direction q) n <$> seqZ 0 (Z.min (Z.max 1 (bq_count q))
                                           (room (confirmed_number (get_current_state w)) (bq_direction q) n)) ∧
    Forall (λ bd, data_at w (bq_fields q) (bd_number bd) = Ok bd) more) as H.
  { intros fuel Hf. destruct (request_loop_blocks fuel w q n [] Hr Hn Hc Hcount) as (more & E & Hm & Ha); [cbn; lia|].
    cbn in Hm. rewrite Z.sub_0_r in Hm. by exists more. }
  destruct (H (Z.to_nat (Z.max 1 (bq_count q))) ltac:(lia)) as (more & E & Hm & Ha).
  exists more. split_and!; try done. intros fuel Hf. destruct (H fuel Hf) as (more' & -> & Hm' & Ha'). f_equal.
  rewrite <-Hm in Hm'. clear -Hm' Ha Ha'. revert more' Hm' Ha'. induction more as [|x l IH]; intros [|y l']; try done.
  intros [= E Hl] [Hy Hl']%Forall_cons. apply Forall_cons in Ha as [Hx Ha]. f_equal; [congruence|by apply IH].
Qed.

(** *** The loop over the downloaded blocks *)

Lemma turn_shrinks s s' : downloaded_turn s = (Ok true, s') →
  length (pending_blocks s') < length (pending_blocks s).
Proof.
  unfold downloaded_turn. unfold bind at 1, asks at 1.
  destruct (pending_blocks s) as [|[n [|f r|from d]] rest] eqn:E; try done.
  unfold bind at 1, remove_pending, modify at 1. unfold bind at 1, asks at 1.
  set (s1 := with_pending _ s). assert (length (pending_blocks s1) < length (pending_blocks s)) as Hlt.
  { subst s1. cbn [pending_blocks with_pending]. rewrite E. unfold bt_remove. rewrite filter_cons, decide_False.
    - pose proof (length_filter (λ kv : Z * PendingBlockState, ¬ bool_decide (kv.1 = n)) rest). cbn [length]. lia.
    - rewrite bool_decide_eq_true_2; cbn; tauto. }
  rewrite E in Hlt. destruct (verify_block (world s1) d) as [[r|] d']; [|done].
  unfold bind at 1, on_world. destruct (on_verify_result r (world s1)) as [[a|e] w']; [|done]. cbn [map_err].
  destruct a; try done. intros [= <-]. exact Hlt.
Qed.

(** The loop has left when its fuel is the length of the window and one more. *)
Lemma downloaded_loop_ends s n : length (pending_blocks s) < n →
  downloaded_loop n s = downloaded_loop (S (length (pending_blocks s))) s.
Proof.
  remember (length (pending_blocks s)) as l eqn:El. revert s n El. induction l as [l IH] using lt_wf_ind.
  intros s [|n] El Hn; [lia|]. cbn [downloaded_loop]. unfold bind.
  destruct (downloaded_turn s) as [[[]|e] s'] eqn:E; try done. apply turn_shrinks in E. rewrite <-El in E.
  destruct l as [|l]; [lia|]. rewrite (IH (length (pending_blocks s')) E s' n), (IH (length (pending_blocks s')) E s' (S l)); lia || done.
Qed.
End Serve.

(** ** A request to the chain of three blocks *)
Section Sample.
#[local] Existing Instance FrameScale.scale.

Lemma chain_3_readable : readable chain_3 3.
Proof.
  intros n [H0 H3]. assert (n ≤ 3)%Z as H by (vm_compute in H3 |- *; exact H3).
  assert (n = 0 ∨ n = 1 ∨ n = 2 ∨ n = 3)%Z as [->|[->|[->| ->]]] by lia.
  all: (eexists; split; [vm_compute; reflexivity|reflexivity]).
Qed.

Lemma request_served_witness :
  let q := {| bq_request_id := 0; bq_fields := 3; bq_block_id := BNumber 1; bq_count := 128; bq_direction := Asc |}%Z in
  ∃ blocks, requested_blocks chain_3 q = Ok blocks ∧ bd_number <$> blocks = [1; 2; 3]%Z.
Proof.
  intros q. destruct (@request_served coord_sample chain_3 q 1%Z chain_3_readable eq_refl ltac:(split; [lia|by vm_compute])
    ltac:(by vm_compute) ltac:(by vm_compute)) as (blocks & H & Hn & _).
  exists blocks. split; [exact H|]. etransitivity; [exact Hn|]. vm_compute. reflexivity.
Defined.
End Sample.
