(* ===== verification/CoordChain.v ===== *)
(** * CoordChain

    The coordinator on the chain and the pool of a node: what a block that is
    downloaded does to them, and that the chain stays a chain whatever peers
    send; and a node that follows a leader block by block. *)
From S2P Require Import Prelude Codec BTreeMap Types Context ExecutorContext Dispatch SystemModule Executor ExecutorProofs TxPool ConsensusSupport BlockVerifier Engine PoaEngine Db Statedb ChainData Chain ChainProofs ChainBuild ChainCommit Genesis ChainSupport ChainLeader ChainSamples PoaLeader PeerManager CoordProtocol CoordSupport CoordVerifier CoordSync CoordStream CoordWindow CoordSamples CoordServe.
Import Sync.

Section Chain.
Context {SC : Scale} {CR : Crypto} {TL : TrieLib} {SH : Show} {LL : LruLib} {HO : HashOrder}.
Variable D : list (string * ModuleOps ExecContext).
Variable pool_capacity : nat.
Variable engine : Dispatcher.
Hypothesis confined : confined_modules D.
#[local] Instance coordinator : CoordinatorSupport := default_coordinator D pool_capacity engine.

Lemma block_data_wf bd : wf codec_block_data bd →
  (∀ header, bd_header bd = Some header → wf codec_header header) ∧
  (∀ body, bd_body bd = Some body →
     Forall (wf codec_transaction) (bdy_meta_txs body ++ bdy_payload_txs body)).
Proof.
  destruct bd as [n h hd bdy pf]. unfold codec_block_data. cbn [wf iso_codec]. rewrite !sc_pair_wf, !sc_option_wf.
  cbn [fst snd bd_header bd_body bd_number bd_block_hash bd_proof]. intros (_ & _ & Hh & Hb & _). split.
  - by intros header ->.
  - intros [meta payload] ->. unfold codec_body_data in Hb. cbn [wf iso_codec] in Hb.
    rewrite sc_pair_wf, !sc_list_wf in Hb. cbn in *. apply Forall_app. tauto.
Qed.

(** The block is accepted by the world: what is built of the data of a peer. *)
Record accepted (w : DefaultConsensusSupport) (bd : BlockData) (q : Chain.ChainCommitBlockParams) : Prop := {
  acc_header : bd_header bd = Some (cb_header q);
  acc_number : hdr_number (cb_header q) = u64 (confirmed_number (default_current_state w) + 1);
  acc_parent : parent_hash (cb_header q) = confirmed_block_hash (default_current_state w);
  acc_proof : ∃ pf, bd_proof bd = Some pf ∧ cb_proof q = pf ∧
    verify_proof w (cb_header q) pf = Some (Ok tt);
  acc_txs : ∃ body meta payload, bd_body bd = Some body ∧
    valid_txs w (bdy_meta_txs body) meta ∧ valid_txs w (bdy_payload_txs body) payload ∧
    ∃ q', q = with_proof (CS := default_support D) (cb_proof q) q' ∧
    Chain.build_block D (Build_BuildBlockParams (hdr_number (cb_header q)) (hdr_timestamp (cb_header q))
      meta payload (u64 (hdr_number (cb_header q) - u64 (payload_execution_gap (cb_header q))))) (chain_db w) = Ok q';
}.

Lemma verify_block_accepted w bd q rest :
  verify_block w (Some bd) = (Some (Ok q), rest) → accepted w bd q.
Proof.
  intros (-> & header & body & pf & chd & meta & payload & Hh & Hb & Hp & _ & (n & h & Hbest) & _ & Hpf & Hm & Hpl & Hv)%verify_block_run.
  apply verify_header_built in Hv as (Eh & Ep & q' & Eq & Hbuild).
  apply verify_best_next in Hbest as (_ & _ & Hn & Hpar). subst header pf.
  split; try done; [by eexists|]. exists body, meta, payload. split_and!; try done. exists q'. by split.
Qed.

Lemma accepted_params w bd q : wf codec_block_data bd → accepted w bd q → block_params_ok q.
Proof.
  intros Hwf [Hh _ _ _ (body & meta & payload & Hb & (Em & _) & (Ep & _) & q' & Eq & Hbuild)].
  apply block_data_wf in Hwf as [H1 H2]. apply H1 in Hh. apply H2 in Hb. apply codec_header_wf in Hh.
  rewrite Eq. apply (with_proof_ok D). eapply (build_block_spec D confined); [|exact Hbuild]. destruct Hh as (Hn & Ht & _).
  split; [done..|]. cbn [bb_meta_txs bb_payload_txs]. rewrite <-Em, <-Ep, <-fmap_app, Forall_fmap in Hb. exact Hb.
Qed.

(** The chain of [n] blocks that [e] executions of it have, in a world. *)
Definition world_chain (w : DefaultConsensusSupport) (n e : BlockNumber) : Prop := chain_ok (chain_db w) n e.

(** Committing through the chain. *)
Lemma commit_cases q w n e rc w' : world_chain w n e → block_params_ok q → is_u64 (n + 1) →
  @ConsensusSupport.commit_block (default_support D) q w = (rc, w') →
  txpool w' = txpool w ∧
  ((rc ≠ Ok tt ∧ entries (chain_db w') = entries (chain_db w) ∧ task_rx (chain w') = task_rx (chain w)) ∨
   (extended (backend (chain w)) (backend (chain w')) q n e rc ∧
    task_rx (chain w') = task_rx (chain w) ++ (if is_ok rc then [execute_task q] else []))).
Proof.
  intros Hc Hq Hn Hrun. destruct (linked_blocks _ _ (ok_linked _ _ _ Hc) n) as (h & hd & bdy & Hat).
  { pose proof (linked_range _ _ (ok_linked _ _ _ Hc)). lia. }
  revert Hrun. cbn. unfold on_chain, chain_commit_block, bind at 1, on_backend.
  destruct (Chain.commit_block D q (backend (chain w))) as [r s'] eqn:E.
  pose proof (commit_block_cases D q _ n e h r s' Hc Hq Hn (at_hash _ _ _ _ _ Hat) E) as H.
  intros Hrun. assert (rc = r ∧ txpool w' = txpool w ∧ backend (chain w') = s' ∧
    task_rx (chain w') = task_rx (chain w) ++ (if is_ok rc then [execute_task q] else [])) as (-> & Hp & Hs & Ht).
  { unfold insert_task, modify in Hrun. destruct r as [[]|y]; cbn in Hrun; injection Hrun as <- <-; cbn;
      rewrite ?app_nil_r; done. }
  split; [done|]. unfold chain_db. rewrite Hs. destruct (get_header _ _) as [[known|]|x].
  - destruct H as [-> ->]. left. cbn in Ht. rewrite app_nil_r in Ht. done.
  - case_decide; [|destruct H as [-> ->]; left; cbn in Ht; rewrite app_nil_r in Ht; done].
    destruct (next_fault _) as [f|]; [|by right]. destruct H as (-> & He & _). left. cbn in Ht.
    rewrite app_nil_r in Ht. done.
  - destruct H as [-> ->]. left. cbn in Ht. rewrite app_nil_r in Ht. done.
Qed.

(** What verifying and committing the data of a block does to the world, and
    the action that follows. *)
Definition outcome (w w' : DefaultConsensusSupport) (bd : BlockData) (n e : BlockNumber)
    (a : CommonResult VerifyAction) : Prop :=
  (a ≠ Ok ActionOk ∧ entries (chain_db w') = entries (chain_db w) ∧ task_rx (chain w') = task_rx (chain w)) ∨
  ∃ q rc, accepted w bd q ∧ extended (backend (chain w)) (backend (chain w')) q n e rc ∧
    (rc = Ok tt ↔ a = Ok ActionOk) ∧
    (rc = Ok tt → task_rx (chain w') = task_rx (chain w) ++ [execute_task q] ∧
       queue (txpool w') = filter (λ t, tx_hash t ∉ tx_hash <$> (cb_meta_txs q ++ cb_payload_txs q)) (queue (txpool w))).

Lemma body_hashes q : block_params_ok q →
  body_meta_txs (cb_body q) ++ body_payload_txs (cb_body q) = tx_hash <$> (cb_meta_txs q ++ cb_payload_txs q).
Proof. intros Hq. by rewrite (params_meta q Hq), (params_payload q Hq), fmap_app. Qed.

Lemma commit_outcome w bd q n e a w' : world_chain w n e → is_u64 (n + 1) →
  accepted w bd q → block_params_ok q → on_verify_ok q w = (a, w') → outcome w w' bd n e a.
Proof.
  intros Hc Hn Hacc Hq. unfold on_verify_ok. unfold bind at 1.
  destruct (@ConsensusSupport.commit_block (@coord_consensus coordinator) q w) as [rc w1] eqn:E.
  destruct (commit_cases q w n e rc w1 Hc Hq Hn E) as [Hp Hcases].
  destruct rc as [[]|x]; cbn [result_bind or_else_catch].
  - unfold bind. cbn. intros [= <- <-]. destruct Hcases as [(Hne & _)|[Hext Htask]]; [done|]. right.
    exists q, (Ok tt). split_and!; [done|done|done|]. intros _. split; [exact Htask|].
    rewrite Hp. cbn [TxPool.queue remove_map remove_queue with_map with_queue]. apply list_filter_iff. intros t.
    rewrite <-body_hashes, elem_of_list_to_set by done. done.
  - assert (∀ act, act ≠ ActionOk → ∀ w2, chain w2 = chain w1 → outcome w w2 bd n e (Ok act)) as Hfail.
    { intros act Hact w2 Hw2. unfold outcome, chain_db. rewrite Hw2. destruct Hcases as [(_ & He & Ht)|[Hext _]].
      - left. by split_and!; [congruence|..].
      - right. exists q, (Err x). split_and!; [done|done| |done]. split; [done|congruence]. }
    assert (outcome w w1 bd n e (Err x)) as Herr.
    { destruct Hcases as [(_ & He & Ht)|[Hext _]]; [left; done|].
      right. exists q, (Err x). by split_and!; [..|split|]. }
    destruct (as_chain x) as [[]|]; cbn; try (intros [= <- <-]; exact Herr).
    destruct e0; unfold bind; cbn; intros [= <- <-]; by apply Hfail.
Qed.

Lemma verify_outcome w bd r rest n e a w' : wf codec_block_data bd → world_chain w n e → is_u64 (n + 1) →
  verify_block w (Some bd) = (Some r, rest) → on_verify_result r w = (a, w') → outcome w w' bd n e a.
Proof.
  intros Hwf Hc Hn Hv. unfold on_verify_result, bind, lift. destruct r as [q|x].
  - apply verify_block_accepted in Hv as Hacc. pose proof (accepted_params w bd q Hwf Hacc) as Hq.
    destruct (on_verify_ok q w) as [a1 w1] eqn:E. pose proof (commit_outcome w bd q n e a1 w1 Hc Hn Hacc Hq E) as Hout.
    intros [= <- <-]. destruct a1 as [act|y]; [exact Hout|]. cbn [or_else_catch].
    assert (∀ act, act ≠ ActionOk → outcome w w1 bd n e (Ok act)) as Hfail.
    { intros act Hact. destruct Hout as [(_ & He)|(q' & rc & H1 & H2 & H3 & H4)]; [left; split; [congruence|done]|].
      right. exists q', rc. split_and!; [done|done| |done]. split; [intros H; apply H3 in H; done|congruence]. }
    destruct (as_coordinator y) as [[|v]|]; cbn; try exact Hout. apply Hfail. by destruct v.
  - intros [= <- <-]. left. split; [|done]. cbn [or_else_catch]. destruct (as_coordinator x) as [[|v]|]; cbn; try done.
    by destruct v.
Qed.

(** A turn of the loop. *)
Lemma turn_outcome s k from bd rest n e r s' : pending_blocks s = (k, Downloaded from (Some bd)) :: rest →
  wf codec_block_data bd → world_chain (world s) n e → is_u64 (n + 1) → downloaded_turn s = (r, s') →
  r = Err Panic ∧ world s' = world s ∨
  ∃ a, outcome (world s) (world s') bd n e a ∧
    r = match a with Ok ActionOk => Ok true | Ok _ => Ok false | Err x => Err (Fail x) end ∧
    (a = Ok ActionOk → pending_blocks s' = bt_remove (λ j, bool_decide (j = k)) (pending_blocks s)).
Proof.
  intros E Hwf Hc Hn. unfold downloaded_turn. unfold bind at 1, asks at 1. rewrite E.
  unfold bind at 1, remove_pending, modify at 1. unfold bind at 1, asks at 1. cbv beta.
  change (world (with_pending _ s)) with (world s).
  destruct (verify_block (world s) (Some bd)) as [[v|] d'] eqn:Ev; [|intros [= <- <-]; by left].
  unfold bind at 1, on_world. change (world (with_pending _ s)) with (world s).
  destruct (on_verify_result v (world s)) as [a w'] eqn:Ea.
  pose proof (verify_outcome _ _ _ _ _ _ _ _ Hwf Hc Hn Ev Ea) as Hout.
  intros Hrun. right. exists a. destruct a as [[]|x]; cbn in Hrun; injection Hrun as <- <-; by rewrite ?E.
Qed.

(** C15: a block that a peer sends, when its turn comes, is committed whole
    or leaves the chain as it is, whatever its data, the answers of the engine
    and the disk.  If it is committed it is the next block over the last
    confirmed one, with the header that was sent, made of the transactions
    that were sent, each of them valid and none twice in its list, with the
    proof that was sent and that the engine accepts; its execution is queued
    and its transactions leave the pool. *)
Theorem downloaded_block_extends s k from bd rest n e r s' :
  pending_blocks s = (k, Downloaded from (Some bd)) :: rest → wf codec_block_data bd →
  chain_ok (chain_db (world s)) n e → is_u64 (n + 1) → downloaded_turn s = (r, s') →
  let w := world s in let w' := world s' in
  match r with
  | Ok true => ∃ q,
      accepted w bd q ∧ extended (backend (chain w)) (backend (chain w')) q n e (Ok tt) ∧
      task_rx (chain w') = task_rx (chain w) ++ [execute_task q] ∧
      queue (txpool w') = filter (λ t, tx_hash t ∉ tx_hash <$> (cb_meta_txs q ++ cb_payload_txs q)) (queue (txpool w)) ∧
      pending_blocks s' = bt_remove (λ j, bool_decide (j = k)) (pending_blocks s)
  | _ => entries (chain_db w') = entries (chain_db w) ∨
      ∃ q x, accepted w bd q ∧ extended (backend (chain w)) (backend (chain w')) q n e (Err x)
  end.
Proof.
  intros E Hwf Hc Hn Hrun. cbv zeta.
  destruct (turn_outcome s k from bd rest n e r s' E Hwf Hc Hn Hrun) as [[-> ->]|(a & Hout & -> & Hp)]; [by left|].
  destruct Hout as [(Ha & He & _)|(q & rc & Hacc & Hext & Hiff & Hrc)].
  - destruct a as [[]|]; [done|by left..].
  - assert (a = Ok ActionOk ∨ ∃ x, rc = Err x) as [->|[x ->]].
    { destruct rc as [[]|x]; [left; by apply Hiff|right; by exists x]. }
    + pose proof (proj2 Hiff eq_refl) as ->. destruct (Hrc eq_refl) as [Ht Hq]. exists q. split_and!; try done. by apply Hp.
    + assert (a ≠ Ok ActionOk) as Hne by (intros H; by apply Hiff in H).
      destruct a as [[]|]; [done|by right; exists q, x..].
Qed.
End Chain.

(** * Following a leader

    A block that a leader has committed is accepted by a node that is in the
    leader's former state, whose chain then is the leader's: building a block
    is repeatable, and what the coordinator checks of a downloaded block holds
    for the blocks that the engines make. *)

Section Follow.
Context {SC : Scale} {CR : Crypto} {TL : TrieLib} {SH : Show} {LL : LruLib} {HO : HashOrder}.
Variable D : list (string * ModuleOps ExecContext).
Variable pool_capacity : nat.
Variable engine : Dispatcher.
Hypothesis confined : confined_modules D.
#[local] Instance following_coordinator : CoordinatorSupport := default_coordinator D pool_capacity engine.

(** ** Nodes that agree: the database, the state read from it, and the clock *)
Definition agree (s s' : Backend) : Prop :=
  db s = db s' ∧ current_state s = current_state s' ∧ clock s = clock s' ∧
  executor_genesis_hash s = executor_genesis_hash s'.

Lemma agree_current v w : agree (backend (chain v)) (backend (chain w)) →
  default_current_state v = default_current_state w.
Proof. intros (_ & H & _). unfold default_current_state, Chain.get_current_state. by rewrite H. Qed.

Lemma agree_validate v w h t required : agree (backend (chain v)) (backend (chain w)) →
  default_validate_transaction D v h t required = default_validate_transaction D w h t required.
Proof.
  intros (H1 & H2 & H3 & H4). unfold default_validate_transaction, Chain.validate_transaction. by rewrite H1, H2, H4.
Qed.

(** Writing and announcing the same. *)
Lemma agree_write t s s' r s1 : agree s s' → db_write t s = (r, s1) →
  ∃ s1', db_write t s' = (r, s1') ∧ agree s1 s1'.
Proof.
  intros (H1 & H2 & H3 & H4). unfold db_write. rewrite <-H1. destruct (write t (db s)) as [x d].
  intros [= <- <-]. by eexists.
Qed.
Lemma agree_announce m s s' r s1 : agree s s' → announce D m s = (r, s1) →
  ∃ s1', announce D m s' = (r, s1') ∧ agree s1 s1'.
Proof.
  intros (H1 & H2 & H3 & H4). unfold announce, update_current_state, message_send, bind, asks, lift, modify, id.
  rewrite <-H1, <-H3. destruct (read_current_state D (db s) (clock s)) as [cs|x]; intros [= <- <-]; by eexists.
Qed.

(** Committing the same block. *)
Lemma agree_commit p s s' r s1 : agree s s' → Chain.commit_block D p s = (r, s1) →
  ∃ s1', Chain.commit_block D p s' = (r, s1') ∧ agree s1 s1'.
Proof.
  intros Ha. pose proof Ha as (Hd & _). unfold Chain.commit_block, bind at 1, asks at 1.
  unfold bind at 4, asks at 1. rewrite <-Hd.
  destruct (get_header (cb_block_hash p) (db s)) as [[hd|]|x]; [intros [= <- <-]; by eexists| |intros [= <- <-]; by eexists].
  rewrite !bind_lift_ok. destruct (get_confirmed (db s)) as [cf|x]; [|intros [= <- <-]; by eexists].
  rewrite !bind_lift_ok. case_decide; [intros [= <- <-]; by eexists|]. unfold bind at 1.
  destruct (db_write _ s) as [r1 s2] eqn:Ew. destruct (agree_write _ _ _ _ _ Ha Ew) as (s2' & Ew' & Ha2).
  unfold bind at 1. rewrite Ew'. destruct r1 as [u|x]; [|intros [= <- <-]; by eexists].
  exact (agree_announce _ _ _ _ _ Ha2).
Qed.

(** ** The checks of a block that was prepared *)
Lemma verified_txs_complete {CS : ConsensusSupport} err w full set :
  Forall (λ f, hash_transaction (tx f) = Ok (tx_hash f) ∧
               support_validate_transaction w (tx_hash f) (tx f) true = Ok tt) full →
  NoDup (tx_hash <$> full) → (∀ f, f ∈ full → tx_hash f ∉ set) →
  get_verified_txs err w (tx <$> full) set = Ok full.
Proof.
  intros Hall. revert set. induction Hall as [|f full [Hh Hv] Hall IH]; intros set; [done|].
  rewrite !fmap_cons, NoDup_cons. intros [Hn Hnd] Hset. cbn [get_verified_txs]. rewrite Hh. cbn [result_bind].
  unfold verify_transaction. rewrite decide_False by (apply Hset; by left). rewrite Hv. cbn [or_else_catch result_bind].
  rewrite IH; [by destruct f|done|]. intros g Hg [Heq%elem_of_singleton|Hin]%elem_of_union.
  - apply Hn. rewrite <-Heq. by apply list_elem_of_fmap_2.
  - revert Hin. apply Hset. by right.
Qed.

(** The data of a block as it is sent. *)
Definition block_data (q : Chain.ChainCommitBlockParams) : BlockData := {|
  bd_number := hdr_number (cb_header q);
  bd_block_hash := cb_block_hash q;
  bd_header := Some (cb_header q);
  bd_body := Some (Build_BodyData (tx <$> cb_meta_txs q) (tx <$> cb_payload_txs q));
  bd_proof := Some (cb_proof q);
|}.

(** The pool holds each transaction once, under its hash. *)
Definition pool_hashed (w : DefaultConsensusSupport) : Prop :=
  NoDup (tx_hash <$> queue (txpool w)) ∧
  Forall (λ t, Executor.hash_transaction (tx t) = Ok (tx_hash t)) (queue (txpool w)).

Lemma sublist_hashes l l' : l `sublist_of` l' → NoDup (tx_hash <$> l') → NoDup (tx_hash <$> l).
Proof. intros Hs Hnd. eapply sublist_NoDup; [exact Hnd|]. by apply (fmap_sublist tx_hash). Qed.

(** The checks of the transactions pass on a node that agrees. *)
Lemma sorted_verified v w kind l : pool_hashed w → agree (backend (chain v)) (backend (chain w)) →
  l `sublist_of` queue (txpool w) → Forall (sorted_as D w kind) l →
  get_verified_txs shared_error v (tx <$> l) ∅ = Ok l.
Proof.
  intros [Hnd Hh] Ha Hs Hl. apply verified_txs_complete; [|by eapply sublist_hashes|by intros f _ ?%not_elem_of_empty].
  apply (forall_sublist _ _ _ Hs) in Hh. rewrite Forall_forall in Hh, Hl. apply Forall_forall. intros f Hf.
  split; [by apply Hh|]. destruct (Hl f Hf) as [Hv _]. rewrite <-(agree_validate v w) in Hv by done. exact Hv.
Qed.

(** The gap of the header leads back to the execution. *)
Lemma gap_back n e : (0 ≤ e ≤ n)%Z → (n + 1 - e < 2 ^ 7)%Z → is_u64 (n + 1) →
  let gap := i8 (u64 (n + 1 - e)) in
  gap = (n + 1 - e)%Z ∧ u64 (n + 1 - u64 gap) = e.
Proof.
  unfold is_u64. intros He Hg Hn. cbv zeta. rewrite (u64_id (n + 1 - e)) by (unfold is_u64; lia).
  rewrite i8_id by (unfold is_i8; lia). split; [done|].
  rewrite (u64_id (n + 1 - e)) by (unfold is_u64; lia). rewrite u64_id by (unfold is_u64; lia). lia.
Qed.

(** A block that a leader has prepared, built and committed in the world [w],
    with the proof [pf], when the last block [hd] is executed. *)
Record led (ts : Z) (w w2 : DefaultConsensusSupport) (n e : BlockNumber) (hd : Header)
    (q : Chain.ChainCommitBlockParams) : Prop := {
  led_world : world_ok w n e;
  led_pool : pool_hashed w;
  led_last : default_confirmed_number w = Ok (Some n) ∧
    get_header (confirmed_block_hash (default_current_state w)) (chain_db w) = Ok (Some hd) ∧
    (u64 (n - u64 (payload_execution_gap hd)) ≤ e)%Z ∧ hdr_number hd = n;
  led_new : get_header (cb_block_hash q) (chain_db w) = Ok None;
  led_turn : ∃ p w1 q0 pf, default_prepare_block D ts w = (Ok p, w1) ∧
    Chain.build_block D p (chain_db w1) = Ok q0 ∧ q = with_proof (CS := default_support D) pf q0 ∧
    @ConsensusSupport.commit_block (default_support D) q w1 = (Ok tt, w2);
}.

(** What is known of the block of a turn. *)
Lemma led_block ts w w2 n e hd q : led ts w w2 n e hd q → is_u64 (n + 1) → is_u64 ts → (n + 1 - e < 2 ^ 7)%Z →
  ∃ q0, q = with_proof (CS := default_support D) (cb_proof q) q0 ∧
    Chain.build_block D (Build_BuildBlockParams (n + 1) ts (cb_meta_txs q) (cb_payload_txs q) e) (chain_db w) = Ok q0 ∧
    hdr_number (cb_header q) = (n + 1)%Z ∧ hdr_timestamp (cb_header q) = ts ∧
    parent_hash (cb_header q) = confirmed_block_hash (default_current_state w) ∧
    payload_execution_gap (cb_header q) = (n + 1 - e)%Z ∧
    (1 ≤ n + 1 - e ≤ SystemModule.meta_max_execution_gap (system_meta (default_current_state w)))%Z ∧
    (0 ≤ e)%Z ∧ u64 (n + 1 - u64 (n + 1 - e)) = e ∧
    (cb_meta_txs q `sublist_of` queue (txpool w) ∧ Forall (sorted_as D w true) (cb_meta_txs q)) ∧
    (cb_payload_txs q `sublist_of` queue (txpool w) ∧ Forall (sorted_as D w false) (cb_payload_txs q)).
Proof.
  intros [Hw Hpool Hlast Hnew (p & w1 & q0 & pf & Hprep & Hbuild & -> & Hcm)] Hn Hts Hgap.
  apply prepare_block_prepared in Hprep as Hp.
  destruct (prepared_params_ok D _ _ _ _ _ _ Hw Hn Hts Hp) as (Hnum & Hex & Hpok).
  assert (chain_db w1 = chain_db w) as Hdb by (unfold chain_db; by rewrite (pr_chain _ _ _ _ _ Hp)).
  rewrite Hdb in Hbuild. pose proof (pr_meta _ _ _ _ _ Hp) as [Hms Hmf]. pose proof (pr_payload _ _ _ _ _ Hp) as [Hps Hpf].
  destruct (built_txs D confined p (chain_db w) q0) as [Em Ep]; [|done|].
  { eapply Forall_impl; [exact Hmf|]. intros t [_ Ht]. exact Ht. }
  pose proof (build_block_spec D confined p (chain_db w) q0 Hpok Hbuild) as (_ & Hqn & Hpar).
  pose proof Hbuild as (ph & phd & x & c & c' & _ & _ & _ & _ & _ & _ & _ & _ & _ & _ & _ & _ & Hhd)%build_block_run.
  destruct (ok_executed _ _ _ (wo_chain _ _ _ Hw)) as [_ He _]. pose proof (ok_order _ _ _ (wo_chain _ _ _ Hw)) as Ho.
  destruct (gap_back n e ltac:(lia) Hgap Hn) as [Eg Eb].
  assert (payload_execution_gap (cb_header q0) = (n + 1 - e)%Z) as Hg.
  { rewrite Hhd. cbn [payload_execution_gap]. by rewrite Hnum, Hex, Eg. }
  pose proof (pr_gap _ _ _ _ _ Hp) as Hmax. rewrite Hnum, Hex, Eg in Hmax. rewrite Eg in Eb.
  exists q0. set (q := with_proof (CS := default_support D) pf q0 : Chain.ChainCommitBlockParams).
  change (@cb_header Db.DBTransaction q) with (@cb_header Db.DBTransaction q0).
  rewrite (Em : @cb_meta_txs Db.DBTransaction q = _), (Ep : @cb_payload_txs Db.DBTransaction q = _).
  assert (p = Build_BuildBlockParams (n + 1) ts (bb_meta_txs p) (bb_payload_txs p) e) as <-.
  { pose proof (pr_timestamp _ _ _ _ _ Hp) as Ht. destruct p. cbn in *. by subst. }
  split_and!; try done; [by rewrite Hqn| | |lia].
  - rewrite Hhd. cbn [hdr_timestamp]. by apply (pr_timestamp _ _ _ _ _ Hp).
  - rewrite Hnum, Z.add_simpl_r, u64_id in Hpar by (unfold is_u64 in *; lia).
    destruct (wo_current _ _ _ Hw) as (cs & Hcs & _ & _ & Hh & _). unfold default_current_state, Chain.get_current_state.
    rewrite Hcs. cbn [engine_state confirmed_block_hash]. unfold chain_db in Hpar. congruence.
Qed.

Lemma led_params ts w w2 n e hd q : led ts w w2 n e hd q → is_u64 (n + 1) → is_u64 ts → (n + 1 - e < 2 ^ 7)%Z →
  block_params_ok q.
Proof.
  intros Hled Hn Hts Hgap. destruct (led_block ts w w2 n e hd q Hled Hn Hts Hgap) as
    (q0 & Eq & Hbuild & _ & _ & _ & _ & _ & _ & _ & [Hms _] & [Hps _]).
  rewrite Eq. apply (with_proof_ok D). eapply (build_block_spec D confined); [|exact Hbuild].
  pose proof (wo_pool _ _ _ (led_world _ _ _ _ _ _ _ Hled)) as Hw. split; [done..|].
  apply Forall_app. split; by eapply forall_sublist.
Qed.

(** The data of such a block can be sent. *)
Lemma block_data_sent q : block_params_ok q → wf codec_block_data (block_data q).
Proof.
  intros [Hh Ht _ _ _]. unfold codec_block_data, block_data. cbn [wf iso_codec bd_number bd_block_hash bd_header bd_body bd_proof].
  repeat (rewrite sc_pair_wf; cbn [fst snd]). rewrite !sc_option_wf, sc_u64_wf.
  pose proof Hh as (Hn & _)%codec_header_wf. split_and!; [done|apply sc_bytes_wf|done| |apply codec_block_proof_wf].
  unfold codec_body_data. cbn [wf iso_codec bdy_meta_txs bdy_payload_txs]. rewrite sc_pair_wf, !sc_list_wf. cbn [fst snd].
  apply Forall_app in Ht. by rewrite !Forall_fmap.
Qed.

Section Turn.
Variables (ts n e : Z) (w w2 v : DefaultConsensusSupport) (hd : Header) (q : Chain.ChainCommitBlockParams).
Hypothesis Hled : led ts w w2 n e hd q.
Hypothesis Hn : is_u64 (n + 1).
Hypothesis Hts : is_u64 ts.
Hypothesis Hgap : (n + 1 - e < 2 ^ 7)%Z.
Hypothesis Hv : agree (backend (chain v)) (backend (chain w)).
Hypothesis Hproof : verify_proof v (cb_header q) (cb_proof q) = Some (Ok tt).

Lemma follow_db : chain_db v = chain_db w.
Proof. exact (proj1 Hv). Qed.

Lemma led_current : confirmed_number (default_current_state w) = n ∧
  ConsensusSupport.executed_number (default_current_state w) = e.
Proof. apply (current_engine (backend (chain w))); [done|]. apply (wo_current _ _ _ (led_world _ _ _ _ _ _ _ Hled)). Qed.

Lemma follow_not_repeat : verify_not_repeat v (cb_block_hash q) = Ok tt.
Proof.
  unfold verify_not_repeat, BlockVerifier.verify_not_repeat.
  cbn [ConsensusSupport.get_header coord_consensus following_coordinator default_coordinator default_support]. rewrite follow_db.
  by rewrite (led_new _ _ _ _ _ _ _ Hled).
Qed.

Lemma follow_best : verify_best v (cb_header q) = Ok (n, confirmed_block_hash (default_current_state w), hd).
Proof.
  destruct (led_block ts w w2 n e hd q Hled Hn Hts Hgap) as (q0 & _ & _ & Hnum & _ & Hpar & _).
  destruct (led_last _ _ _ _ _ _ _ Hled) as (_ & Hh & _). destruct led_current as [Ec _].
  unfold verify_best. cbn [ConsensusSupport.get_current_state ConsensusSupport.get_header coord_consensus following_coordinator
    default_coordinator default_support].
  rewrite (agree_current v w Hv), follow_db, Hh. cbn [result_bind ok_or fst snd]. rewrite Ec, u64_id by done.
  rewrite decide_True by done. done.
Qed.

Lemma follow_execution : verify_execution v (cb_header q) hd = Ok tt.
Proof.
  destruct (led_block ts w w2 n e hd q Hled Hn Hts Hgap) as (q0 & _ & _ & Hnum & _ & _ & Hg & Hmax & _ & Hback & _).
  destruct (led_last _ _ _ _ _ _ _ Hled) as (_ & _ & He & Hhn). destruct led_current as [_ Ee].
  unfold verify_execution. cbn [ConsensusSupport.get_current_state coord_consensus following_coordinator default_coordinator default_support].
  rewrite (agree_current v w Hv), Hg, Hnum, Ee, Hback, Hhn. by rewrite !decide_False by lia.
Qed.

Lemma follow_body : verify_body v (Build_BodyData (tx <$> cb_meta_txs q) (tx <$> cb_payload_txs q)) =
  Ok (cb_meta_txs q, cb_payload_txs q).
Proof.
  destruct (led_block ts w w2 n e hd q Hled Hn Hts Hgap) as (q0 & _ & _ & _ & _ & _ & _ & _ & _ & _ & [Hm1 Hm2] & [Hp1 Hp2]).
  pose proof (led_pool _ _ _ _ _ _ _ Hled) as Hpool. unfold verify_body, BlockVerifier.verify_body.
  cbn [bdy_meta_txs bdy_payload_txs]. rewrite (sorted_verified v w true) by done. cbn [result_bind].
  by rewrite (sorted_verified v w false) by done.
Qed.

Lemma follow_header : verify_header v (cb_header q) (cb_proof q) (cb_meta_txs q) (cb_payload_txs q) = Ok q.
Proof.
  destruct (led_block ts w w2 n e hd q Hled Hn Hts Hgap) as (q0 & Eq & Hbuild & Hnum & Hqt & _ & Hg & _ & _ & Hback & _).
  unfold verify_header. rewrite Hnum, Hg, Hback, Hqt. rewrite <-follow_db in Hbuild.
  cbn [ConsensusSupport.build_block coord_consensus following_coordinator default_coordinator default_support]. rewrite Hbuild.
  cbn [result_bind]. rewrite decide_False; [by rewrite Eq|]. intros H. apply H. by rewrite Eq.
Qed.

Lemma follow_verified : verify_block v (Some (block_data q)) = (Some (Ok q), None).
Proof.
  unfold verify_block, verify_data, block_data. cbn [bd_header bd_body bd_proof bd_block_hash ok_or result_bind].
  rewrite follow_not_repeat. cbn [result_bind]. rewrite follow_best. cbn [result_bind].
  rewrite follow_execution. cbn [result_bind]. rewrite Hproof. cbn [result_bind].
  rewrite follow_body. cbn [result_bind]. by rewrite follow_header.
Qed.

Lemma follow_committed : ∃ v', on_verify_result (Ok q) v = (Ok ActionOk, v') ∧
  agree (backend (chain v')) (backend (chain w2)).
Proof.
  destruct (led_turn _ _ _ _ _ _ _ Hled) as (p & w1 & q0 & pf & Hprep & _ & _ & Hcm).
  apply prepare_block_prepared in Hprep as Hp. revert Hcm. cbn. unfold on_chain, chain_commit_block, bind at 1, on_backend.
  rewrite (pr_chain _ _ _ _ _ Hp). destruct (Chain.commit_block D q (backend (chain w))) as [r s1] eqn:Ec.
  assert (agree (backend (chain w)) (backend (chain v))) as Hv' by (destruct Hv as (? & ? & ? & ?); by split_and!).
  destruct (agree_commit _ _ _ _ _ Hv' Ec) as (s1' & Ec' & Ha).
  intros Hcm. assert (r = Ok tt ∧ backend (chain w2) = s1) as [-> <-].
  { destruct r as [[]|x]; cbn in Hcm; injection Hcm; [by intros <-|done]. }
  eexists (Build_DefaultConsensusSupport (Build_Chain s1' _) _). split.
  - unfold on_verify_result, bind at 1, lift at 1, on_verify_ok. unfold bind at 1. cbn.
    unfold on_chain, chain_commit_block, bind, on_backend. rewrite Ec'. reflexivity.
  - destruct Ha as (? & ? & ? & ?). by split_and!.
Qed.
End Turn.

(** ** Serving the block *)
Lemma commit_entries p s s' : Chain.commit_block D p s = (Ok tt, s') →
  entries (db s') = apply_ops (ops (commit_block_ops transaction_new p)) (entries (db s)).
Proof.
  unfold Chain.commit_block, bind at 1, asks. destruct (get_header _ (db s)) as [[hd|]|x]; try done.
  rewrite bind_lift_ok. destruct (get_confirmed (db s)) as [cf|x]; [|done]. rewrite bind_lift_ok. case_decide; [done|].
  destruct (db_write_spec (commit_block_ops transaction_new p) s) as (s1 & Hw & He & _).
  unfold bind. rewrite Hw. destruct (next_fault (db s)) as [f|]; [done|].
  change (Chain.on_block_committed D _ _) with (announce D (ChainData.BlockCommitted (hdr_number (cb_header p)) (cb_block_hash p))).
  intros (Hd & _)%announce_spec. by rewrite Hd.
Qed.

Lemma led_hashes ts w w2 n e hd q : led ts w w2 n e hd q → NoDup (tx_hash <$> (cb_meta_txs q ++ cb_payload_txs q)).
Proof.
  intros [Hw [Hnd _] Hlast Hnew (p & w1 & q0 & pf & Hprep & Hbuild & -> & Hcm)].
  apply prepare_block_prepared in Hprep as Hp. pose proof (pr_meta _ _ _ _ _ Hp) as [_ Hmf].
  destruct (built_txs D confined p (chain_db w1) q0) as [Em Ep]; [|done|].
  { eapply Forall_impl; [exact Hmf|]. intros t [_ Ht]. exact Ht. }
  destruct (pr_all _ _ _ _ _ Hp) as (i & Hperm & _). rewrite <-Hperm, fmap_app in Hnd.
  apply NoDup_app in Hnd as (_ & _ & Hnd). rewrite <-Em, <-Ep in Hnd. exact Hnd.
Qed.

Lemma try_map_txs (w : DefaultConsensusSupport) l :
  (∀ t, t ∈ l → ChainData.get_transaction (tx_hash t) (chain_db w) = Ok (Some (tx t))) →
  try_map (get_transaction_by_hash w) (tx_hash <$> l) = Ok (tx <$> l).
Proof.
  induction l as [|t l IH]; intros Hl; [done|]. rewrite !fmap_cons. cbn [try_map].
  unfold get_transaction_by_hash at 1. cbn [support_transaction following_coordinator default_coordinator].
  unfold default_transaction. rewrite (Hl t) by (by left). cbn [result_bind ok_or]. rewrite IH; [done|].
  intros t' Ht'. apply Hl. by right.
Qed.

Lemma stored_tx d d' q t : block_params_ok q → NoDup (tx_hash <$> (cb_meta_txs q ++ cb_payload_txs q)) →
  entries d' = apply_ops (ops (commit_block_ops transaction_new q)) (entries d) →
  t ∈ cb_meta_txs q ++ cb_payload_txs q → ChainData.get_transaction (tx_hash t) d' = Ok (Some (tx t)).
Proof.
  intros Hq Hnd Hd Ht. by apply (new_transaction d d' q Hq Hd), keyed_nodup.
Qed.

(** The fields of a request for whole blocks. *)
Definition all_fields : Fields := Z.lor (Z.lor FIELDS_HEADER FIELDS_BODY) FIELDS_PROOF.

Lemma led_served ts w w2 n e hd q : led ts w w2 n e hd q → is_u64 (n + 1) → is_u64 ts → (n + 1 - e < 2 ^ 7)%Z →
  next_fault (chain_db w) = None → read_block w2 all_fields (cb_block_hash q) = Ok (block_data q).
Proof.
  intros Hled Hn Hts Hgap Hf. pose proof (led_hashes _ _ _ _ _ _ _ Hled) as Hnd.
  destruct (led_block ts w w2 n e hd q Hled Hn Hts Hgap) as
    (q0 & Eq & Hbuild & Hnum & _ & Hpar & _ & _ & _ & _ & [Hms _] & [Hps _]).
  pose proof (wo_chain _ _ _ (led_world _ _ _ _ _ _ _ Hled)) as Hok.
  pose proof (led_params ts w w2 n e hd q Hled Hn Hts Hgap) as Hq.
  destruct (led_turn _ _ _ _ _ _ _ Hled) as (p & w1 & _ & pf & Hprep & _ & _ & Hcm).
  apply prepare_block_prepared in Hprep as Hp. revert Hcm. cbn. unfold on_chain, chain_commit_block, bind at 1, on_backend.
  rewrite (pr_chain _ _ _ _ _ Hp). destruct (Chain.commit_block D q (backend (chain w))) as [r s1] eqn:Ec.
  intros Hcm. assert (r = Ok tt ∧ backend (chain w2) = s1) as [-> Hs1].
  { destruct r as [[]|x]; cbn in Hcm; injection Hcm; [by intros <-|done]. }
  pose proof (commit_entries _ _ _ Ec) as He.
  assert (get_block_hash n (chain_db w) = Ok (Some (parent_hash (cb_header q)))) as Hpn.
  { destruct (wo_current _ _ _ (led_world _ _ _ _ _ _ _ Hled)) as (cs & Hcs & _ & _ & Hh & _).
    rewrite Hpar. unfold default_current_state, Chain.get_current_state. rewrite Hcs. exact Hh. }
  pose proof (commit_block_next D q _ n e _ _ Hok Hq Hn (led_new _ _ _ _ _ _ _ Hled) Hnum Hpn Ec) as Hx.
  unfold chain_db in Hf. rewrite Hf in Hx. pose proof (ext_block _ _ _ _ _ _ Hx) as [_ Hhd Hbd _ _].
  pose proof (ext_proof _ _ _ _ _ _ Hx) as Hpf.
  assert (∀ t, t ∈ cb_meta_txs q ++ cb_payload_txs q → ChainData.get_transaction (tx_hash t) (chain_db w2) = Ok (Some (tx t))) as Htx.
  { intros t Ht. unfold chain_db. rewrite Hs1. by eapply stored_tx. }
  unfold read_block, get_header_by_block_hash, get_body_by_block_hash, get_proof_by_block_hash.
  cbn [ConsensusSupport.get_header ConsensusSupport.get_proof support_body coord_consensus following_coordinator default_coordinator default_support].
  unfold default_body, chain_db. rewrite Hs1, Hhd. cbn [result_bind ok_or]. change (has_field all_fields FIELDS_BODY) with true.
  cbv iota. rewrite Hbd. cbn [result_bind ok_or]. rewrite (params_meta q Hq), (params_payload q Hq).
  rewrite !try_map_txs by (intros t Ht; apply Htx; apply elem_of_app; tauto).
  cbn [result_bind]. change (has_field all_fields FIELDS_PROOF) with true. cbv iota. rewrite Hpf. reflexivity.
Qed.

(** The turn of the block in the window of a node that agrees. *)
Lemma follow_turn ts w w2 n e hd q s k from rest :
  led ts w w2 n e hd q → is_u64 (n + 1) → is_u64 ts → (n + 1 - e < 2 ^ 7)%Z →
  agree (backend (chain (world s))) (backend (chain w)) →
  verify_proof (world s) (cb_header q) (cb_proof q) = Some (Ok tt) →
  pending_blocks s = (k, Downloaded from (Some (block_data q))) :: rest →
  ∃ s', downloaded_turn s = (Ok true, s') ∧ agree (backend (chain (world s'))) (backend (chain w2)).
Proof.
  intros Hled Hn Hts Hgap Ha Hpf E.
  destruct (follow_committed ts n e w w2 (world s) hd q Hled Ha) as (v' & Hc & Ha').
  unfold downloaded_turn. unfold bind at 1, asks at 1. rewrite E.
  unfold bind at 1, remove_pending, modify at 1. unfold bind at 1, asks at 1. cbv beta.
  change (world (with_pending _ s)) with (world s).
  rewrite (follow_verified ts n e w w2 (world s) hd q Hled Hn Hts Hgap Ha Hpf).
  unfold bind at 1, on_world. change (world (with_pending _ s)) with (world s). rewrite Hc.
  eexists. split; [reflexivity|exact Ha'].
Qed.

(** C13: the composition of two nodes.  A leader prepares a block of its pool,
    builds it and commits it.  It then serves the block as it was made, and
    every node that was in the leader's state before (the same database,
    current state and clock; its pool and queue are its own) and that receives
    the data first in its window accepts it, provided its engine accepts the
    proof and the gap to the last execution fits in the header's byte: its
    database and current state are the leader's again. *)
Theorem synced_block_accepted ts w w2 n e hd q :
  led ts w w2 n e hd q → is_u64 (n + 1) → is_u64 ts → (n + 1 - e < 2 ^ 7)%Z → next_fault (chain_db w) = None →
  read_block w2 all_fields (cb_block_hash q) = Ok (block_data q) ∧
  ∀ s k from rest,
    agree (backend (chain (world s))) (backend (chain w)) →
    verify_proof (world s) (cb_header q) (cb_proof q) = Some (Ok tt) →
    pending_blocks s = (k, Downloaded from (Some (block_data q))) :: rest →
    ∃ s', downloaded_turn s = (Ok true, s') ∧ agree (backend (chain (world s'))) (backend (chain w2)).
Proof.
  intros Hled Hn Hts Hgap Hf. split; [by eapply led_served|]. intros s k from rest. by apply (follow_turn ts w w2 n e hd).
Qed.
End Follow.

(** ** Concrete nodes

    Two nodes of the concrete chain of [ChainSamples]: the authority makes a
    block of its pool, and a node in the same state is sent it. *)
Import ChainSamples TrieSample Sync.

Module FollowSamples.
#[local] Existing Instance Samples.sample_serialize.
#[local] Existing Instance key_order.
#[local] Abbreviation support := (default_support modules).
#[local] Instance node : CoordinatorSupport := default_coordinator modules 100 EnginePoa.
#[local] Abbreviation now_ms := 1587051962999%Z.

(** The pool holds a payment and a handover of the authority. *)
Definition hashed (t : FullTransaction) : FullTransaction :=
  match Executor.hash_transaction (tx t) with
  | Ok h => Build_FullTransaction (tx t) h
  | Err _ => t
  end.
Definition pool : list FullTransaction := [hashed payment; hashed handover].
Definition leader_world (s : Backend) : DefaultConsensusSupport := {|
  chain := Build_Chain s [];
  txpool := TxPool.with_queue pool TxPool.txpool_new;
|}.
Definition follower_world (s : Backend) : DefaultConsensusSupport := {|
  chain := Build_Chain s [];
  txpool := TxPool.txpool_new;
|}.

Lemma pool_is_hashed s : pool_hashed (leader_world s).
Proof.
  split; cbn [txpool leader_world TxPool.queue TxPool.with_queue pool].
  - apply (bool_decide_unpack _). vm_compute. exact I.
  - repeat constructor; vm_compute; reflexivity.
Qed.
Lemma hashed_wf : Forall (λ t, wf codec_transaction (tx t)) pool.
Proof. repeat (constructor; [apply transaction_wf; by vm_compute|]). constructor. Qed.

(** What is computed of the turn. *)
Definition turn_computed (s1 : Backend) : Prop :=
  next_fault (db s1) = None ∧
  default_confirmed_number (leader_world s1) = Ok (Some 0%Z) ∧
  finds (get_header (confirmed_block_hash (default_current_state (leader_world s1))) (db s1))
    (λ hd, (u64 (0 - u64 (payload_execution_gap hd)) ≤ 0)%Z ∧ hdr_number hd = 0%Z) ∧
  match default_prepare_block modules now_ms (leader_world s1) with
  | (Ok p, w1) => length (bb_meta_txs p) = 1 ∧ length (bb_payload_txs p) = 1 ∧
      returns (Chain.build_block modules p (chain_db w1)) (λ q0,
        returns (@PoaEngine.proof_new _ support (cb_block_hash q0) alice) (λ pf,
          let q := with_proof (CS := support) (PoaEngine.proof_try_into pf) q0 : Chain.ChainCommitBlockParams in
          get_header (cb_block_hash q) (db s1) = Ok None ∧
          verify_proof (follower_world s1) (cb_header q) (cb_proof q) = Some (Ok tt) ∧
          succeeds (@ConsensusSupport.commit_block support q w1) (λ _, True)))
  | _ => False
  end.

Lemma turn_computes : succeeds (init_genesis modules (Some spec_text) new_node) turn_computed.
Proof. vm_compute. repeat split; discriminate. Qed.

(** A node whose window holds the data of the block. *)
Definition receiver (s1 : Backend) (q : Chain.ChainCommitBlockParams) : ChainSync :=
  with_pending [(1%Z, Downloaded CoordSamples.bob (Some (block_data q)))] (CoordStream.spawn (follower_world s1)).

(** The turn of the authority. *)
Lemma turn_led : ∃ s1 q w2 hd,
  led modules now_ms (leader_world s1) w2 0 0 hd q ∧ next_fault (db s1) = None ∧ length (cb_meta_txs q) = 1 ∧
  verify_proof (follower_world s1) (cb_header q) (cb_proof q) = Some (Ok tt) ∧ chain_ok (db s1) 0 0.
Proof.
  destruct run_exists as (s1 & q0 & s2 & s3 & R).
  destruct (succeeds_run _ _ turn_computes) as (s1' & E1 & Hf & Hc & Hh & Ht).
  rewrite (run_genesis _ _ _ _ R) in E1. injection E1 as <-.
  destruct (finds_run _ _ Hh) as (hd & Hhd & Hgap & Hnum).
  destruct (default_prepare_block modules now_ms (leader_world s1)) as [[p|] w1] eqn:Hp; [|done].
  destruct Ht as (Hm & Hpl & Ht). destruct (returns_run _ _ Ht) as (q1 & Hq & Ht').
  destruct (returns_run _ _ Ht') as (pf & Hpf & Hnew & Hproof & Hcm).
  set (q := with_proof (CS := support) (PoaEngine.proof_try_into pf) q1 : Chain.ChainCommitBlockParams) in *.
  destruct (succeeds_run _ _ Hcm) as (w2 & Hw2 & _).
  exists s1, q, w2, hd. split; [|split; [exact Hf|split; [|split; [exact Hproof|exact (run_chain R)]]]].
  - split; [split; [exact (run_chain R)|exact (run_current R)|exact hashed_wf]|exact (pool_is_hashed s1)| |exact Hnew|].
    + split; [exact Hc|]. split; [exact Hhd|]. split; [exact Hgap|exact Hnum].
    + exists p, w1, q1, (PoaEngine.proof_try_into pf). split; [exact Hp|]. split; [exact Hq|]. split; [reflexivity|exact Hw2].
  - destruct (built_txs modules modules_confined p (chain_db w1) q1) as [E _]; [|exact Hq|exact (eq_trans (f_equal length E) Hm)].
    pose proof (pr_meta _ _ _ _ _ (prepare_block_prepared _ _ _ _ _ Hp)) as [_ Hall].
    eapply Forall_impl; [exact Hall|]. intros t [_ Hk]. exact Hk.
Qed.

Lemma synced_block_accepted_witness : ∃ s1 q w2 s',
  length (cb_meta_txs q) = 1 ∧ read_block w2 all_fields (cb_block_hash q) = Ok (block_data q) ∧
  downloaded_turn (receiver s1 q) = (Ok true, s') ∧
  db (backend (chain (world s'))) = db (backend (chain w2)).
Proof.
  destruct turn_led as (s1 & q & w2 & hd & Hled & Hf & Hlen & Hproof & _).
  destruct (synced_block_accepted modules 100 EnginePoa modules_confined now_ms (leader_world s1) w2 0 0 hd q Hled
    ltac:(done) ltac:(done) ltac:(lia) Hf) as [Hserve Hturn].
  destruct (Hturn (receiver s1 q) 1%Z CoordSamples.bob [] (conj eq_refl (conj eq_refl (conj eq_refl eq_refl)))
    Hproof eq_refl) as (s' & Hs' & Ha & _).
  exists s1, q, w2, s'. split; [exact Hlen|split; [exact Hserve|split; [exact Hs'|exact Ha]]].
Defined.

(** Its turn in the window of the receiver. *)
Lemma receiver_turn : ∃ s1 q s', length (cb_meta_txs q) = 1 ∧ block_params_ok q ∧ chain_ok (db s1) 0 0 ∧
  downloaded_turn (receiver s1 q) = (Ok true, s').
Proof.
  destruct turn_led as (s1 & q & w2 & hd & Hled & Hf & Hlen & Hproof & Hok).
  pose proof (led_params modules modules_confined now_ms _ w2 0 0 hd q Hled ltac:(done) ltac:(done) ltac:(lia)) as Hq.
  destruct (follow_turn modules 100 EnginePoa modules_confined now_ms _ w2 0 0 hd q (receiver s1 q) 1 CoordSamples.bob [] Hled
    ltac:(done) ltac:(done) ltac:(lia) (conj eq_refl (conj eq_refl (conj eq_refl eq_refl))) Hproof eq_refl) as (s' & Hs' & _).
  exists s1, q, s'. split; [exact Hlen|]. split; [exact Hq|]. split; [exact Hok|exact Hs'].
Qed.

Lemma downloaded_block_extends_witness : ∃ s1 q s' q',
  length (cb_meta_txs q) = 1 ∧ downloaded_turn (receiver s1 q) = (Ok true, s') ∧
  extended (backend (chain (follower_world s1))) (backend (chain (world s'))) q' 0 0 (Ok tt) ∧ pending_blocks s' = [].
Proof.
  destruct receiver_turn as (s1 & q & s' & Hlen & Hq & Hok & Hrun).
  destruct (downloaded_block_extends modules 100 EnginePoa modules_confined (receiver s1 q) 1 CoordSamples.bob
    (block_data q) [] 0 0 (Ok true) s' eq_refl (block_data_sent q Hq) Hok ltac:(done) Hrun)
    as (q' & _ & Hext & _ & _ & Hp).
  exists s1, q, s', q'. split; [exact Hlen|]. split; [exact Hrun|]. split; [exact Hext|exact Hp].
Defined.
End FollowSamples.
