(* ===== verification/Api.v ===== *)
(** * Api

    The interface of a node for its users ([core/node/api]): the texts of
    numbers and bytes ([Text]), the data that is shown and the conversions of
    [src/rpc/method.rs] ([Rpc]), its methods over [ApiSupport]
    ([src/support.rs]), and the default support over the chain and the pool.
    The server of JSON-RPC and the derived JSON of the data are libraries. *)
From Stdlib Require Import Ascii Strings.Byte.
From S2P Require Import Prelude Codec Types Context ExecutorContext Dispatch Executor TxPool ConsensusSupport Db Statedb ChainData Chain ChainProofs ChainCommit Genesis ChainSupport ChainSamples CoordSupport.

(** ** Texts of numbers and bytes: what the conversions use of the standard
    library *)
Module Text.
(** [s.starts_with("0x")] and [s.trim_start_matches("0x")], which removes all
    leading repetitions. *)
Definition starts_with_0x (s : string) : bool := String.prefix "0x" s.
Fixpoint trim_0x (s : string) : string :=
  match s with
  | String c (String d rest) => if (c =? "0")%char && (d =? "x")%char then trim_0x rest else s
  | _ => s
  end.

(** [char::to_digit] *)
Definition to_digit (radix : Z) (c : ascii) : option Z :=
  let n := Z.of_N (N_of_ascii c) in
  let digit := if decide (48 ≤ n ≤ 57)%Z then Some (n - 48)%Z
               else if decide (97 ≤ n ≤ 122)%Z then Some (n - 87)%Z
               else if decide (65 ≤ n ≤ 90)%Z then Some (n - 55)%Z
               else None in
  match digit with
  | Some digit => if decide (digit < radix)%Z then Some digit else None
  | None => None
  end.

(** [checked_mul] and [checked_add] on the integers below [bound] *)
Definition checked (bound z : Z) : option Z := if decide (z < bound)%Z then Some z else None.

(** The loop of [from_str_radix]. *)
Fixpoint digits_value (bound radix result : Z) (s : string) : option Z :=
  match s with
  | EmptyString => Some result
  | String c rest =>
      x ← to_digit radix c;
      result ← checked bound (result * radix);
      result ← checked bound (result + x);
      digits_value bound radix result rest
  end.

(** [from_str_radix] of the unsigned integers below [bound]: a leading plus
    sign is allowed; [None] is any [ParseIntError].  [parse] is its case of
    radix ten. *)
Definition from_str_radix (bound radix : Z) (s : string) : option Z :=
  match s with
  | EmptyString => None
  | String c rest =>
      let digits := if (c =? "+")%char then rest else s in
      match digits with
      | EmptyString => None
      | _ => digits_value bound radix 0 digits
      end
  end.
Definition parse (bound : Z) (s : string) : option Z := from_str_radix bound 10 s.

(** A digit as the crate [hex] writes it. *)
Definition hex_digit (d : Z) : ascii :=
  ascii_of_N (Z.to_N (if decide (d < 10)%Z then 48 + d else 87 + d)).
End Text.
Import Text.

(** The crate [hex], with what its documentation says of [encode]: two lower
    case digits for each byte; [decode] is its inverse. *)
Class HexLib : Type := {
  hex_encode : bytes → string;
  hex_decode : string → option bytes;
  hex_encode_nil : hex_encode [] = "";
  hex_encode_cons : ∀ c bs, hex_encode (c :: bs) =
    String (hex_digit (byte_value c / 16)) (String (hex_digit (byte_value c mod 16)) (hex_encode bs));
  hex_decode_encode : ∀ bs, hex_decode (hex_encode bs) = Some bs;
}.

(** ** Hashes and addresses as texts ([core/primitives/src/impls.rs]): shown and
    serialised in hex, and read back by [from_hex] and by the visitors *)
Section Texts.
Context {HX : HexLib}.

Definition hash_fmt (h : Hash) : string := hex_encode h.
Definition address_fmt (a : Address) : string := hex_encode a.
Definition hash_from_hex (hex : string) : CommonResult Hash := ok_or ECodec (hex_decode hex).
Definition address_from_hex (hex : string) : CommonResult Address := ok_or ECodec (hex_decode hex).
(** [None] is the error of an invalid value. *)
Definition hash_serialize (h : Hash) : string := hex_encode h.
Definition hash_visit_str (v : string) : option Hash := hex_decode v.
Definition address_serialize (a : Address) : string := hex_encode a.
Definition address_visit_str (v : string) : option Address := hex_decode v.

Lemma texts_back x : hash_from_hex (hash_fmt x) = Ok x ∧ address_from_hex (address_fmt x) = Ok x ∧
  hash_visit_str (hash_serialize x) = Some x ∧ address_visit_str (address_serialize x) = Some x.
Proof.
  unfold hash_from_hex, address_from_hex, hash_visit_str, address_visit_str, hash_fmt, address_fmt,
    hash_serialize, address_serialize. by rewrite hex_decode_encode.
Qed.
End Texts.

(** The crate [serde_json], as far as events are shown. *)
Class JsonLib : Type := {
  Value : Type;
  Null : Value;
  json_from_slice : bytes → option Value;
}.

(** What the network says of itself, with the texts of its types. *)
Class NetworkTexts : Type := {
  PeerId : Type;
  Multiaddr : Type;
  ConnectedPoint : Type;
  Duration : Type;
  peer_id_text : PeerId → string;
  multiaddr_text : Multiaddr → string;
  connected_point_debug : ConnectedPoint → string;
  duration_debug : Duration → string;
}.

(** ** The state of the network, as [core/node/network/src/stream.rs] reports it;
    a [HashSet] is given by its elements. *)
Module NetworkReport.
Section Report.
Context {NT : NetworkTexts}.

Record OpenedPeer := {
  op_peer_id : PeerId;
  op_connected_point : ConnectedPoint;
  op_known_addresses : list Multiaddr;
  op_agent_version : option string;
  op_latest_ping : option Duration;
}.
Record UnopenedPeer := {
  up_peer_id : PeerId;
  up_known_addresses : list Multiaddr;
}.
Record NetworkState := {
  ns_peer_id : PeerId;
  ns_listened_addresses : list Multiaddr;
  ns_external_addresses : list Multiaddr;
  ns_opened_peers : list OpenedPeer;
  ns_unopened_peers : list UnopenedPeer;
}.
End Report.
End NetworkReport.

(** ** The data that is shown ([src/rpc/method.rs]) *)
Module Rpc.
(** [struct Hash], [Address] and [Hex] hold a text each. *)
Inductive HashText := Hash (s : string).
Inductive AddressText := Address (s : string).
Inductive HexText := Hex (s : string).

(** The untagged [enum BlockNumber] and [enum NumberOrHex]; a [Number] is a [u64]. *)
Inductive BlockNumber :=
| BlockNumberNumber (number : Types.BlockNumber)
| BlockNumberString (str : string).
Inductive NumberOrHex :=
| Number (number : Z)
| NumberString (str : string).

Inductive BlockNumberEnum :=
| EnumNumber (number : Types.BlockNumber)
| Confirmed
| ConfirmedExecuted.

Record Header := {
  h_hash : option HashText;
  h_number : HexText;
  h_timestamp : HexText;
  h_parent_hash : HashText;
  h_meta_txs_root : HashText;
  h_meta_state_root : HashText;
  h_meta_receipts_root : HashText;
  h_payload_txs_root : HashText;
  h_payload_execution_gap : HexText;
  h_payload_execution_state_root : HashText;
  h_payload_execution_receipts_root : HashText;
}.
Record Body := {
  b_meta_txs : list HashText;
  b_payload_txs : list HashText;
}.
Record Block := {
  bl_hash : option HashText;
  bl_header : Header;
  bl_body : Body;
}.
Record Proof := {
  p_hash : option HashText;
  p_name : string;
  p_data : HexText;
}.
Record Witness := {
  wi_public_key : HexText;
  wi_signature : HexText;
  wi_nonce : HexText;
  wi_until : HexText;
}.
Record Call := {
  ca_module : string;
  ca_method : string;
  ca_params : HexText;
}.
Record Transaction := {
  t_hash : option HashText;
  t_witness : option Witness;
  t_call : Call;
}.
Record Receipt {JL : JsonLib} := {
  r_hash : option HashText;
  r_block_number : HexText;
  r_events : list Value;
  r_result : result string HexText;
}.

Record ExecuteTransactionRequest := {
  et_block_hash : HashText;
  et_sender : option AddressText;
  et_call : Call;
}.
Record BuildTransactionRequest := {
  bt_witness : option (HexText * NumberOrHex * NumberOrHex);
  bt_call : Call;
}.

Record OpenedPeer := {
  o_peer_id : string;
  o_connected_point : string;
  o_known_addresses : gset string;
  o_agent_version : option string;
  o_latest_ping : option string;
}.
Record UnopenedPeer := {
  u_peer_id : string;
  u_known_addresses : gset string;
}.
Record NetworkState := {
  n_peer_id : string;
  n_listened_addresses : gset string;
  n_external_addresses : gset string;
  n_opened_peers : list OpenedPeer;
  n_unopened_peers : list UnopenedPeer;
}.

(** *** The network's state *)
Section Network.
Context {NT : NetworkTexts}.

Definition addresses (l : list Multiaddr) : gset string := list_to_set (multiaddr_text <$> l).
Definition opened_peer_from (v : NetworkReport.OpenedPeer) : OpenedPeer := {|
  o_peer_id := peer_id_text (NetworkReport.op_peer_id v);
  o_connected_point := connected_point_debug (NetworkReport.op_connected_point v);
  o_known_addresses := addresses (NetworkReport.op_known_addresses v);
  o_agent_version := NetworkReport.op_agent_version v;
  o_latest_ping := duration_debug <$> NetworkReport.op_latest_ping v;
|}.
Definition unopened_peer_from (v : NetworkReport.UnopenedPeer) : UnopenedPeer := {|
  u_peer_id := peer_id_text (NetworkReport.up_peer_id v);
  u_known_addresses := addresses (NetworkReport.up_known_addresses v);
|}.
Definition network_state_from (v : NetworkReport.NetworkState) : NetworkState := {|
  n_peer_id := peer_id_text (NetworkReport.ns_peer_id v);
  n_listened_addresses := addresses (NetworkReport.ns_listened_addresses v);
  n_external_addresses := addresses (NetworkReport.ns_external_addresses v);
  n_opened_peers := opened_peer_from <$> NetworkReport.ns_opened_peers v;
  n_unopened_peers := unopened_peer_from <$> NetworkReport.ns_unopened_peers v;
|}.
End Network.

(** *** To texts: the impls of [From] *)
Section Into.
Context {HX : HexLib}.

Definition hex_from_bytes (vec : bytes) : HexText := Hex ("0x" +:+ hex_encode vec).
Definition hex_from_u32 (number : Z) : HexText := Hex ("0x" +:+ hex_encode (to_be_bytes 4 number)).
Definition hex_from_u64 (number : Z) : HexText := Hex ("0x" +:+ hex_encode (to_be_bytes 8 number)).
(** Two's complement. *)
Definition hex_from_i8 (number : Z) : HexText := Hex ("0x" +:+ hex_encode (to_be_bytes 1 (number mod 2 ^ 8))).
Definition hash_from (hash : Types.Hash) : HashText := Hash ("0x" +:+ hex_encode hash).

Definition header_from (header : Types.Header) : Header := {|
  h_hash := None;
  h_number := hex_from_u64 (hdr_number header);
  h_timestamp := hex_from_u64 (hdr_timestamp header);
  h_parent_hash := hash_from (parent_hash header);
  h_meta_txs_root := hash_from (meta_txs_root header);
  h_meta_state_root := hash_from (meta_state_root header);
  h_meta_receipts_root := hash_from (meta_receipts_root header);
  h_payload_txs_root := hash_from (payload_txs_root header);
  h_payload_execution_gap := hex_from_i8 (payload_execution_gap header);
  h_payload_execution_state_root := hash_from (hdr_payload_execution_state_root header);
  h_payload_execution_receipts_root := hash_from (hdr_payload_execution_receipts_root header);
|}.
Definition body_from (body : Types.Body) : Body := {|
  b_meta_txs := hash_from <$> body_meta_txs body;
  b_payload_txs := hash_from <$> body_payload_txs body;
|}.
Definition block_from (block : Types.Block) : Block := {|
  bl_hash := None;
  bl_header := header_from (bk_header block);
  bl_body := body_from (bk_body block);
|}.
Definition witness_from (w : Types.Witness) : Witness := {|
  wi_public_key := hex_from_bytes (w_public_key w);
  wi_signature := hex_from_bytes (w_signature w);
  wi_nonce := hex_from_u32 (w_nonce w);
  wi_until := hex_from_u64 (w_until w);
|}.
Definition call_from (c : Types.Call) : Call := {|
  ca_module := module c;
  ca_method := method c;
  ca_params := hex_from_bytes (params c);
|}.
Definition transaction_from (t : Types.Transaction) : Transaction := {|
  t_hash := None;
  t_witness := witness_from <$> witness t;
  t_call := call_from (call t);
|}.
Definition receipt_from {JL : JsonLib} (r : Types.Receipt) : Receipt := {|
  r_hash := None;
  r_block_number := hex_from_u64 (rc_block_number r);
  r_events := (λ x, default Null (json_from_slice x)) <$> rc_events r;
  r_result := match rc_result r with Ok x => Ok (hex_from_bytes x) | Err e => Err e end;
|}.
Definition proof_from (proof : Types.Proof) : Proof := {|
  p_hash := None;
  p_name := pf_name proof;
  p_data := hex_from_bytes (pf_data proof);
|}.

(** [x.hash = Some(hash.into())] in each of the methods. *)
Definition with_header_hash (hash : Types.Hash) (x : Header) : Header :=
  let 'Build_Header _ n t p r1 r2 r3 r4 g s r := x in
  Build_Header (Some (hash_from hash)) n t p r1 r2 r3 r4 g s r.
Definition with_block_hash (hash : Types.Hash) (x : Block) : Block :=
  Build_Block (Some (hash_from hash)) (bl_header x) (bl_body x).
Definition with_proof_hash (hash : Types.Hash) (x : Proof) : Proof :=
  Build_Proof (Some (hash_from hash)) (p_name x) (p_data x).
Definition with_transaction_hash (hash : Types.Hash) (x : Transaction) : Transaction :=
  Build_Transaction (Some (hash_from hash)) (t_witness x) (t_call x).
Definition with_receipt_hash {JL : JsonLib} (hash : Types.Hash) (x : Receipt) : Receipt :=
  Build_Receipt JL (Some (hash_from hash)) (r_block_number x) (r_events x) (r_result x).

(** *** From texts: the impls of [TryInto] *)
Definition invalid_params (msg : string) : CommonError := EApi (InvalidParams msg).

(** The bytes of a hash, an address and a hex text. *)
Definition try_bytes (s : string) : CommonResult bytes :=
  let hex := trim_0x s in
  ok_or (invalid_params ("Invalid hex: " +:+ hex)) (hex_decode hex).
Definition hash_try_into (h : HashText) : CommonResult Types.Hash := let 'Hash s := h in try_bytes s.
Definition address_try_into (a : AddressText) : CommonResult Types.Address := let 'Address s := a in try_bytes s.
Definition hex_try_into (h : HexText) : CommonResult bytes := let 'Hex s := h in try_bytes s.

(** A number of type [u64] or [u32] as the conversions read it: a hex text with
    its prefix, or decimal. *)
Definition try_number (bound : Z) (number : string) : CommonResult Z :=
  if starts_with_0x number then
    let hex := trim_0x number in
    ok_or (invalid_params ("Invalid hex: " +:+ number)) (from_str_radix bound 16 hex)
  else ok_or (invalid_params ("Invalid number: " +:+ number)) (parse bound number).
Definition hex_try_u64 (h : HexText) : CommonResult Z := let 'Hex s := h in try_number (2 ^ 64) s.
Definition hex_try_u32 (h : HexText) : CommonResult Z := let 'Hex s := h in try_number (2 ^ 32) s.

Definition number_try_u64 (n : NumberOrHex) : CommonResult Z :=
  match n with
  | Number number => Ok number
  | NumberString str => try_number (2 ^ 64) str
  end.
Definition number_try_u32 (n : NumberOrHex) : CommonResult Z :=
  let? number := number_try_u64 n in
  if decide (is_u32 number) then Ok number
  else Err (invalid_params ("Invalid number: " +:+ number_text number)).

Definition call_try_into (c : Call) : CommonResult Types.Call :=
  let? params := hex_try_into (ca_params c) in
  Ok (Types.Build_Call (ca_module c) (ca_method c) params).

Definition block_number_try_from (value : BlockNumber) : CommonResult BlockNumberEnum :=
  match value with
  | BlockNumberNumber number => Ok (EnumNumber number)
  | BlockNumberString str =>
      if decide (str = "confirmed") then Ok Confirmed
      else if decide (str = "confirmed_executed") then Ok ConfirmedExecuted
      else let? number := try_number (2 ^ 64) str in Ok (EnumNumber number)
  end.
End Into.

(** *** Errors: [struct CustomError] and [impl ErrorLike for CustomError] *)
Record CustomError := { custom_error : CommonError }.
Abbreviation CustomResult := (result CustomError).
Definition custom_code (e : CustomError) : Z := -32000.
Definition custom_message (e : CustomError) : string := "Server error".
Definition custom_data {SH : Show} (e : CustomError) : option string := Some (error_text (custom_error e)).
(** [impl From<CommonError> for CustomError], which [?] applies. *)
Definition custom {A} (r : CommonResult A) : CustomResult A := map_err Build_CustomError r.
End Rpc.

(** ** The methods *)

(** What a task answers to a question that is sent to it: the channel may
    refuse the question, or be dropped before the answer; both come with the
    text of the error. *)
Inductive Asked (A : Type) : Type :=
| Answered (a : A)
| Refused (msg : string)
| Canceled (msg : string).
Arguments Answered {A} a. Arguments Refused {A} msg. Arguments Canceled {A} msg.

(** [trait ApiSupport] of [src/support.rs] over the state of a node. *)
Class ApiSupport {NT : NetworkTexts} {JL : JsonLib} : Type := {
  Node : Type;
  api_hash_transaction : Transaction → CommonResult Hash;
  api_confirmed_number : Node → CommonResult (option BlockNumber);
  api_confirmed_executed_number : Node → CommonResult (option BlockNumber);
  api_block_hash : Node → BlockNumber → CommonResult (option Hash);
  api_block : Node → Hash → CommonResult (option Block);
  api_header : Node → Hash → CommonResult (option Header);
  api_proof : Node → Hash → CommonResult (option Proof);
  api_transaction : Node → Hash → CommonResult (option Transaction);
  api_raw_transaction : Node → Hash → CommonResult (option bytes);
  api_receipt : Node → Hash → CommonResult (option Receipt);
  api_insert_transaction : Transaction → M Node CommonError unit;
  api_execute_call : Node → Hash → option Address → Call → CommonResult OpaqueCallResult;
  api_build_transaction : Node → option (SecretKey * Nonce * BlockNumber) → Call → CommonResult Transaction;
  api_txpool_transaction : Node → Hash → CommonResult (option Transaction);
  (** The tasks behind [coordinator_tx] and [consensus_tx]. *)
  api_network_state : Node → CommonResult (Asked NetworkReport.NetworkState);
  api_consensus_state : Node → CommonResult (Asked Value);
}.

Module Methods.
Import Rpc.
Section Methods.
Context {SC : Scale} {HX : HexLib} {NT : NetworkTexts} {JL : JsonLib} {AS : ApiSupport}.

(** The number that a user asks for, in the three methods by number. *)
Definition number_of (w : Node) (number_enum : BlockNumberEnum) : CommonResult (option Types.BlockNumber) :=
  match number_enum with
  | Confirmed => api_confirmed_number w
  | ConfirmedExecuted => api_confirmed_executed_number w
  | EnumNumber number => Ok (Some number)
  end.

(** The three methods by number differ in what they look up by the hash and
    in the field they set. *)
Definition by_number {A V} (get : Node → Types.Hash → CommonResult (option A)) (from : A → V)
    (with_hash : Types.Hash → V → V) (w : Node) (block_number : BlockNumber) : CustomResult (option V) :=
  custom (
    let? number_enum := block_number_try_from block_number in
    let? number := number_of w number_enum in
    match number with
    | None => Ok None
    | Some number =>
        let? block_hash := api_block_hash w number in
        match block_hash with
        | None => Ok None
        | Some block_hash =>
            let? x := get w block_hash in
            Ok (with_hash block_hash <$> (from <$> x))
        end
    end).
(** And the methods by hash. *)
Definition by_hash {A V} (get : Node → Types.Hash → CommonResult (option A)) (from : A → V)
    (with_hash : Types.Hash → V → V) (w : Node) (hash : HashText) : CustomResult (option V) :=
  custom (
    let? hash := hash_try_into hash in
    let? x := get w hash in
    Ok (with_hash hash <$> (from <$> x))).

Definition chain_get_header_by_number := by_number api_header header_from with_header_hash.
Definition chain_get_header_by_hash := by_hash api_header header_from with_header_hash.
Definition chain_get_block_by_number := by_number api_block block_from with_block_hash.
Definition chain_get_block_by_hash := by_hash api_block block_from with_block_hash.
Definition chain_get_proof_by_number := by_number api_proof proof_from with_proof_hash.
Definition chain_get_proof_by_hash := by_hash api_proof proof_from with_proof_hash.
Definition chain_get_transaction_by_hash := by_hash api_transaction transaction_from with_transaction_hash.
Definition chain_get_receipt_by_hash := by_hash api_receipt receipt_from with_receipt_hash.
Definition txpool_get_transaction := by_hash api_txpool_transaction transaction_from with_transaction_hash.

Definition chain_get_raw_transaction_by_hash (w : Node) (hash : HashText) : CustomResult (option HexText) :=
  custom (
    let? hash := hash_try_into hash in
    let? raw_tx := api_raw_transaction w hash in
    Ok (hex_from_bytes <$> raw_tx)).

Definition in_custom {A} (m : M Node CommonError A) : M Node CustomError A :=
  λ w, let '(r, w) := m w in (custom r, w).

Definition chain_send_raw_transaction (raw_transaction : HexText) : M Node CustomError HashText :=
  in_custom (
    let! raw_transaction := lift (hex_try_into raw_transaction) in
    let! transaction := lift (map_err (λ _, invalid_params "Invalid raw transaction")
                                (codec_decode codec_transaction raw_transaction)) in
    let! tx_hash := lift (api_hash_transaction transaction) in
    do! api_insert_transaction transaction in
    ret (hash_from tx_hash)).

Definition chain_execute_call (w : Node) (request : ExecuteTransactionRequest) : CustomResult HexText :=
  custom (
    let? block_hash := hash_try_into (et_block_hash request) in
    let? sender := match et_sender request with
                   | Some sender => let? sender := address_try_into sender in Ok (Some sender)
                   | None => Ok None
                   end in
    let? call := call_try_into (et_call request) in
    let? result := api_execute_call w block_hash sender call in
    let? result := map_err (λ e, EApi (CallError e)) result in
    Ok (hex_from_bytes result)).

Definition chain_build_transaction (w : Node) (request : BuildTransactionRequest) : CustomResult HexText :=
  custom (
    let? witness := match bt_witness request with
                    | Some (secret_key, nonce, until) =>
                        let? secret_key := hex_try_into secret_key in
                        let? nonce := number_try_u32 nonce in
                        let? until := number_try_u64 until in
                        Ok (Some (secret_key, nonce, until))
                    | None => Ok None
                    end in
    let? call := call_try_into (bt_call request) in
    let? result := api_build_transaction w witness call in
    Ok (hex_from_bytes (encode codec_transaction result))).

(** The question is sent to the task, and its answer awaited. *)
Definition answer {A} (asked : Asked A) : CommonResult A :=
  match asked with
  | Answered a => Ok a
  | Refused msg => Err (EApi (CallError msg))
  | Canceled msg => Err (EApi (CallError msg))
  end.
Definition network_get_state (w : Node) : CustomResult NetworkState :=
  custom (
    let? asked := api_network_state w in
    let? network_state := answer asked in
    Ok (network_state_from network_state)).
Definition consensus_get_state (w : Node) : CustomResult Value :=
  custom (let? asked := api_consensus_state w in answer asked).
End Methods.
End Methods.

(** ** [DefaultApiSupport] of [src/support.rs] *)
Section Default.
Context {SC : Scale} {CR : Crypto} {TL : TrieLib} {SH : Show} {NT : NetworkTexts} {JL : JsonLib}.
Variable modules : list (string * ModuleOps ExecContext).
(** [config.pool_capacity] *)
Variable pool_capacity : nat.
(** What the tasks of the coordinator and of the engine answer. *)
Variable network_task : DefaultConsensusSupport → Asked NetworkReport.NetworkState.
Variable consensus_task : DefaultConsensusSupport → Asked Value.

Definition default_build_transaction (w : DefaultConsensusSupport)
    (witness : option (SecretKey * Nonce * BlockNumber)) (call : Call) : CommonResult Transaction :=
  Executor.build_tx modules (executor_genesis_hash (backend (chain w))) witness call.
Definition default_txpool_transaction (w : DefaultConsensusSupport) (tx_hash : Hash) :
    CommonResult (option Transaction) :=
  Ok (tx <$> TxPool.map (txpool w) !! tx_hash).

#[export] Instance default_api : ApiSupport := {
  Node := DefaultConsensusSupport;
  api_hash_transaction := Executor.hash_transaction;
  api_confirmed_number w := get_confirmed_number (chain_db w);
  api_confirmed_executed_number w := get_confirmed_executed_number (chain_db w);
  api_block_hash w number := get_block_hash number (chain_db w);
  api_block w block_hash := get_block block_hash (chain_db w);
  api_header w block_hash := ChainData.get_header block_hash (chain_db w);
  api_proof w block_hash := ChainData.get_proof block_hash (chain_db w);
  api_transaction w tx_hash := get_transaction tx_hash (chain_db w);
  api_raw_transaction w tx_hash := get_raw_transaction tx_hash (chain_db w);
  api_receipt w tx_hash := get_receipt tx_hash (chain_db w);
  api_insert_transaction := default_txpool_insert modules pool_capacity;
  api_execute_call w block_hash sender call := Chain.execute_call modules block_hash sender call (chain_db w);
  api_build_transaction := default_build_transaction;
  api_txpool_transaction := default_txpool_transaction;
  api_network_state w := Ok (network_task w);
  api_consensus_state w := Ok (consensus_task w);
}.
End Default.

(** ** Numbers and bytes are read back *)
Section Texts.
Context {HX : HexLib}.

(** The digits are read, and are none of the characters that are looked for
    at the front of a text. *)
Lemma hex_digit_cases d : (0 ≤ d < 16)%Z →
  to_digit 16 (hex_digit d) = Some d ∧ (hex_digit d =? "x")%char = false ∧ (hex_digit d =? "+")%char = false.
Proof.
  intros Hd. assert (d ∈ seqZ 0 16) as Hin by (apply elem_of_seqZ; lia).
  change (seqZ 0 16) with ([0; 1; 2; 3; 4; 5; 6; 7; 8; 9; 10; 11; 12; 13; 14; 15]%Z) in Hin.
  repeat (apply elem_of_cons in Hin as [->|Hin]; [by vm_compute|]). by apply not_elem_of_nil in Hin.
Qed.

Lemma digit_step bound acc d s : (0 ≤ acc)%Z → (0 ≤ d < 16)%Z → (acc * 16 + d < bound)%Z →
  digits_value bound 16 acc (String (hex_digit d) s) = digits_value bound 16 (acc * 16 + d) s.
Proof.
  intros Ha Hd Hb. cbn [digits_value]. destruct (hex_digit_cases d Hd) as (-> & _ & _). cbn.
  unfold checked. rewrite decide_True by lia. cbn. by rewrite decide_True by lia.
Qed.

Lemma digits_value_hex bound bs acc : (0 ≤ acc)%Z → (be_value acc bs < bound)%Z →
  digits_value bound 16 acc (hex_encode bs) = Some (be_value acc bs).
Proof.
  revert acc. induction bs as [|c bs IH]; intros acc Ha Hb; [by rewrite hex_encode_nil|].
  pose proof (byte_value_range c) as Hc. cbn [be_value foldl] in Hb |- *.
  pose proof (be_value_mono bs (acc * 2 ^ 8 + byte_value c) ltac:(lia)) as Hm. unfold be_value in Hm, IH.
  rewrite hex_encode_cons.
  pose proof (Z.div_mod (byte_value c) 16 ltac:(lia)). pose proof (Z.mod_pos_bound (byte_value c) 16 ltac:(lia)).
  rewrite !digit_step by lia. 
  replace ((acc * 16 + byte_value c / 16) * 16 + byte_value c mod 16)%Z with (acc * 2 ^ 8 + byte_value c)%Z by lia.
  by apply IH; [lia|].
Qed.

(** A text that starts with the prefix and the digits of bytes. *)
Lemma trim_0x_hex bs : trim_0x ("0x" +:+ hex_encode bs) = hex_encode bs.
Proof.
  change (trim_0x ("0x" +:+ hex_encode bs)) with (trim_0x (hex_encode bs)).
  destruct bs as [|c bs]; [by rewrite hex_encode_nil|]. rewrite hex_encode_cons. cbn [trim_0x].
  pose proof (byte_value_range c).
  destruct (hex_digit_cases (byte_value c mod 16)) as (_ & -> & _); [apply Z.mod_pos_bound; lia|].
  by rewrite andb_false_r.
Qed.
Lemma from_str_radix_hex bound bs : bs ≠ [] → (be_value 0 bs < bound)%Z →
  from_str_radix bound 16 (hex_encode bs) = Some (be_value 0 bs).
Proof.
  intros Hne Hb. rewrite <-(digits_value_hex bound bs 0) by (done || lia).
  destruct bs as [|c bs]; [done|]. rewrite hex_encode_cons. cbn [from_str_radix].
  pose proof (byte_value_range c). pose proof (Z.div_le_upper_bound (byte_value c) 16 16 ltac:(lia)).
  destruct (hex_digit_cases (byte_value c / 16)) as (_ & _ & ->); [|done].
  split; [by apply Z.div_pos; lia|]. apply Z.div_lt_upper_bound; lia.
Qed.

Lemma try_bytes_hex bs : Rpc.try_bytes ("0x" +:+ hex_encode bs) = Ok bs.
Proof. unfold Rpc.try_bytes. by rewrite trim_0x_hex, hex_decode_encode. Qed.
Lemma hash_text_back h : Rpc.hash_try_into (Rpc.hash_from h) = Ok h.
Proof. apply try_bytes_hex. Qed.
Lemma hex_text_back bs : Rpc.hex_try_into (Rpc.hex_from_bytes bs) = Ok bs.
Proof. apply try_bytes_hex. Qed.

(** The bytes of a number in hex are read at any width that holds them. *)
Lemma try_number_width bound n z : n ≠ 0 → (2 ^ (8 * Z.of_nat n) ≤ bound)%Z →
  Rpc.try_number bound ("0x" +:+ hex_encode (to_be_bytes n z)) = Ok (z mod 2 ^ (8 * Z.of_nat n))%Z.
Proof.
  intros Hn Hb. pose proof (Z.mod_pos_bound z (2 ^ (8 * Z.of_nat n)) ltac:(apply Z.pow_pos_nonneg; lia)).
  unfold Rpc.try_number.
  replace (starts_with_0x ("0x" +:+ hex_encode (to_be_bytes n z))) with true
    by (cbn; by destruct (hex_encode _)).
  rewrite trim_0x_hex, from_str_radix_hex, be_value_to; [by rewrite Z.mul_0_l, Z.add_0_l|..].
  - destruct n; [done|]. cbn. by intros [_ [=]]%app_nil.
  - rewrite be_value_to. lia.
Qed.
Lemma try_number_text n z : n ≠ 0 →
  Rpc.try_number (2 ^ (8 * Z.of_nat n)) ("0x" +:+ hex_encode (to_be_bytes n z)) =
    Ok (z mod 2 ^ (8 * Z.of_nat n))%Z.
Proof. intros Hn. by apply try_number_width. Qed.
Lemma u64_text_back z : is_u64 z → Rpc.hex_try_u64 (Rpc.hex_from_u64 z) = Ok z.
Proof.
  intros Hz. etransitivity; [by apply (try_number_text 8)|]. unfold is_u64 in Hz. by rewrite Z.mod_small by lia.
Qed.

(** What is read is a value of its type. *)
Lemma to_digit_range radix c d : to_digit radix c = Some d → (0 ≤ d < radix)%Z.
Proof. unfold to_digit. repeat case_decide; intros [= <-]; lia. Qed.
Lemma digits_value_range bound radix acc s z : (0 ≤ acc < bound)%Z → (0 ≤ radix)%Z →
  digits_value bound radix acc s = Some z → (0 ≤ z < bound)%Z.
Proof.
  intros Ha Hr. revert acc Ha. induction s as [|c s IH]; intros acc Ha; cbn; [by intros [= <-]|].
  destruct (to_digit radix c) as [x|] eqn:Ex; [|done]. apply to_digit_range in Ex. cbn.
  unfold checked. case_decide; [|done]. cbn. case_decide; [|done]. cbn. apply IH. nia.
Qed.
Lemma try_number_range bound s z : (0 < bound)%Z → Rpc.try_number bound s = Ok z → (0 ≤ z < bound)%Z.
Proof.
  intros Hb. unfold Rpc.try_number, parse.
  assert (∀ radix t, (0 ≤ radix)%Z → from_str_radix bound radix t = Some z → (0 ≤ z < bound)%Z) as Hf.
  { intros radix [|c t] Hr; [done|]. cbn [from_str_radix].
    destruct (if (c =? "+")%char then t else String c t); [done|]. apply digits_value_range; [lia|done]. }
  destruct (starts_with_0x s).
  - destruct (from_str_radix bound 16 (trim_0x s)) eqn:E; cbn; intros [= <-]. by apply (Hf 16%Z _ ltac:(lia) E).
  - destruct (from_str_radix bound 10 s) eqn:E; cbn; intros [= <-]. by apply (Hf 10%Z _ ltac:(lia) E).
Qed.
End Texts.

(** ** The chain and the pool behind the methods *)
Section Node.
Context {SC : Scale} {CR : Crypto} {TL : TrieLib} {SH : Show} {HX : HexLib} {NT : NetworkTexts} {JL : JsonLib}.
Variable modules : list (string * ModuleOps ExecContext).
Variable pool_capacity : nat.
Variable network_task : DefaultConsensusSupport → Asked NetworkReport.NetworkState.
Variable consensus_task : DefaultConsensusSupport → Asked Value.
#[local] Existing Instance default_txpool_support.
#[local] Instance node : ApiSupport := default_api modules pool_capacity network_task consensus_task.
Import Rpc Methods.

(** What is found by its hash, in the text that a method gives for it. *)
Lemma by_hash_text {A V} (get : Node → Types.Hash → CommonResult (option A)) (from : A → V) with_hash w h :
  by_hash get from with_hash w (hash_from h) =
  custom (let? x := get w h in Ok (with_hash h <$> (from <$> x))).
Proof. unfold by_hash. by rewrite hash_text_back. Qed.

(** *** Transactions *)

(** The numbers of a request are of their type. *)
Definition request_ok (r : BuildTransactionRequest) : Prop :=
  match bt_witness r with Some (_, _, Number until) => is_u64 until | _ => True end.

Lemma number_try_u32_range n z : number_try_u32 n = Ok z → is_u32 z.
Proof.
  unfold number_try_u32. destruct (number_try_u64 n) as [x|]; cbn [result_bind]; [|done].
  case_decide; [|done]. by intros [= <-].
Qed.
Lemma number_try_u64_range n z : match n with Number x => is_u64 x | _ => True end →
  number_try_u64 n = Ok z → is_u64 z.
Proof. destruct n as [x|s]; cbn; [by intros ? [= <-]|]. intros _. apply try_number_range. lia. Qed.

Lemma ok_inj {E A} (x y : A) : Ok x =@{result E A} Ok y → x = y.
Proof. congruence. Qed.

(** The transaction that is answered. *)
Lemma built_transaction w request raw : request_ok request → chain_build_transaction w request = Ok raw →
  ∃ t, raw = hex_from_bytes (encode codec_transaction t) ∧ wf codec_transaction t ∧
    call_try_into (bt_call request) = Ok (call t) ∧ (witness t = None ↔ bt_witness request = None).
Proof.
  unfold request_ok, chain_build_transaction. intros Hr.
  destruct request as [[[[sk n] u]|] c]; cbn [bt_witness bt_call] in *.
  - destruct (hex_try_into sk) as [k|]; cbn [result_bind custom map_err]; [|done].
    destruct (number_try_u32 n) as [nn|] eqn:En; cbn [result_bind custom map_err]; [|done].
    destruct (number_try_u64 u) as [uu|] eqn:Eu; cbn [result_bind custom map_err]; [|done].
    destruct (call_try_into c) as [cc|]; cbn [result_bind custom map_err]; [|done].
    apply number_try_u32_range in En. apply number_try_u64_range in Eu; [|by destruct u].
    cbn [api_build_transaction node default_api]. unfold default_build_transaction, Executor.build_tx.
    destruct (dispatch_check_call _ _ _); cbn [result_bind custom map_err]; [|done].
    destruct (key_pair_from_secret_key k) as [kp|]; cbn [result_bind custom map_err]; [|done]. intros <-%ok_inj.
    eexists. split; [reflexivity|]. split; [apply transaction_wf; by split|]. split; [done|]. by split.
  - destruct (call_try_into c) as [cc|]; cbn [result_bind custom map_err]; [|done].
    cbn [api_build_transaction node default_api]. unfold default_build_transaction, Executor.build_tx.
    destruct (dispatch_check_call _ _ _); cbn [result_bind custom map_err]; [|done]. intros <-%ok_inj.
    eexists. split; [reflexivity|]. split; [by apply transaction_wf|]. by split.
Qed.

(** The node after a transaction has been accepted. *)
Definition pooled (x : FullTransaction) (w : DefaultConsensusSupport) : DefaultConsensusSupport :=
  Build_DefaultConsensusSupport (chain w) (inserted x (txpool w)).

Lemma send_eq w t : wf codec_transaction t → buffer_open (txpool w) = true → message_open (txpool w) = true →
  chain_send_raw_transaction (hex_from_bytes (encode codec_transaction t)) w =
  match insert_rejection pool_capacity (default_validate_transaction modules w) t (txpool w), Executor.hash_transaction t with
  | None, Ok h => (Ok (hash_from h), pooled (Build_FullTransaction t h) w)
  | Some e, _ | None, Err e => (Err (Build_CustomError e), w)
  end.
Proof.
  intros Ht Hb Hm. unfold chain_send_raw_transaction, in_custom. rewrite hex_text_back, bind_lift_ok.
  unfold codec_decode. rewrite decode_encode by done. cbn [ok_or map_err]. rewrite bind_lift_ok.
  cbn [api_hash_transaction api_insert_transaction node default_api].
  destruct (Executor.hash_transaction t) as [h|e] eqn:Eh; [|done].
  rewrite bind_lift_ok. unfold bind, default_txpool_insert, on_txpool.
  rewrite insert_eq by done. destruct (insert_rejection _ _ _ _) as [e|]; [by destruct w|].
  cbn [support_hash_transaction default_txpool_support]. by rewrite Eh.
Qed.

Lemma pool_lookup w h : txpool_get_transaction w (hash_from h) =
  Ok ((λ x, with_transaction_hash h (transaction_from (tx x))) <$> TxPool.map (txpool w) !! h).
Proof.
  unfold txpool_get_transaction. rewrite by_hash_text. cbn. by destruct (TxPool.map (txpool w) !! h).
Qed.

(** C22: a transaction goes from the method that builds it through the one that
    sends it to the one that finds it.  Whatever request the node has built a
    transaction for, the answer is read back as a transaction with the call of
    the request.  It is refused with the pool's reason, and the node is as it
    was; or its hash is answered, under which nothing was found before, and now
    the transaction is, in the texts of its fields; the chain is as it was, and
    to send it again is an error. *)
Theorem built_transaction_is_sent w request raw :
  request_ok request → buffer_open (txpool w) = true → message_open (txpool w) = true →
  chain_build_transaction w request = Ok raw →
  ∃ t h, Executor.hash_transaction t = Ok h ∧ call_try_into (bt_call request) = Ok (call t) ∧
    (witness t = None ↔ bt_witness request = None) ∧
    match insert_rejection pool_capacity (default_validate_transaction modules w) t (txpool w) with
    | Some e => chain_send_raw_transaction raw w = (Err (Build_CustomError e), w)
    | None => ∃ w', chain_send_raw_transaction raw w = (Ok (hash_from h), w') ∧ chain w' = chain w ∧
        txpool_get_transaction w (hash_from h) = Ok None ∧
        txpool_get_transaction w' (hash_from h) = Ok (Some (with_transaction_hash h (transaction_from t))) ∧
        ∃ e, chain_send_raw_transaction raw w' = (Err e, w')
    end.
Proof.
  intros Hr Hb Hm (t & -> & Ht & Hc & Hw)%built_transaction; [|done].
  destruct (Executor.hash_transaction t) as [h|] eqn:Eh; [|done]. exists t, h. split; [done|].
  split; [done|]. split; [done|]. pose proof (send_eq w t Ht Hb Hm) as Hs. rewrite Eh in Hs.
  destruct (insert_rejection _ _ _ _) as [e|] eqn:Er; [done|]. eexists. split; [exact Hs|]. split; [done|].
  assert (TxPool.map (txpool w) !! h = None) as Hnew.
  { revert Er. unfold insert_rejection. case_decide; [done|]. cbn [support_hash_transaction default_txpool_support].
    rewrite Eh. case_decide as Hd; [done|]. intros _. by apply eq_None_not_Some. }
  rewrite !pool_lookup, Hnew. split; [done|]. cbn [pooled txpool].
  assert (TxPool.map (inserted (Build_FullTransaction t h) (txpool w)) !! h = Some (Build_FullTransaction t h)) as Hin
    by (unfold inserted; cbn [with_message_tx with_buffer_tx with_map TxPool.map tx_hash]; apply lookup_insert_eq).
  rewrite Hin. split; [done|]. rewrite send_eq, Eh by done. unfold insert_rejection at 1.
  case_decide; [by eexists|]. cbn [support_hash_transaction default_txpool_support pooled txpool].
  rewrite Eh, Hin, decide_True by done. by eexists.
Qed.

(** *** Blocks *)

Lemma by_number_at {A V} (get : Node → Types.Hash → CommonResult (option A)) (from : A → V) with_hash
    (w : Node) number k h :
  (let? number_enum := block_number_try_from number in number_of w number_enum) = Ok (Some k) →
  api_block_hash w k = Ok (Some h) →
  by_number get from with_hash w number = by_hash get from with_hash w (hash_from h).
Proof.
  intros Hk Hh. rewrite by_hash_text. unfold by_number.
  destruct (block_number_try_from number) as [e|]; [|done]. cbn [result_bind] in *. rewrite Hk. cbn [result_bind].
  by rewrite Hh.
Qed.

(** A number is given as itself or in hex. *)
Definition names (number : BlockNumber) (k : Types.BlockNumber) : Prop :=
  number = BlockNumberNumber k ∨ let 'Hex s := hex_from_u64 k in number = BlockNumberString s.

Lemma names_number number k : is_u64 k → names number k → block_number_try_from number = Ok (EnumNumber k).
Proof.
  intros Hk [->|Hn]; [done|]. pose proof (u64_text_back k Hk) as Hb.
  destruct (hex_from_u64 k) as [s] eqn:E. subst number. cbn in Hb |- *.
  unfold hex_from_u64 in E. injection E as <-.
  rewrite !decide_False by (intros H; apply (f_equal (String.get 0)) in H; done). by rewrite Hb.
Qed.

(** The block that is asked for: a number, the last confirmed block, or the one
    that had been executed when that was made. *)
Definition asks_for (w : DefaultConsensusSupport) (number : BlockNumber) (k : Types.BlockNumber) : Prop :=
  names number k ∨
  number = BlockNumberString "confirmed" ∧ get_confirmed_number (chain_db w) = Ok (Some k) ∨
  number = BlockNumberString "confirmed_executed" ∧ get_confirmed_executed_number (chain_db w) = Ok (Some k).

Lemma asks_for_number w number k : is_u64 k → asks_for w number k →
  (let? number_enum := block_number_try_from number in number_of w number_enum) = Ok (Some k).
Proof. by intros Hk [->%names_number|[[-> Hn]|[-> Hn]]]. Qed.

(** What a text of the interface says of the value behind it: every field is
    read back, the numbers at their width. *)
Record shows_header (v : Header) (hd : Types.Header) : Prop := {
  shows_number : hex_try_u64 (h_number v) = Ok (u64 (hdr_number hd));
  shows_timestamp : hex_try_u64 (h_timestamp v) = Ok (u64 (hdr_timestamp hd));
  shows_parent_hash : hash_try_into (h_parent_hash v) = Ok (parent_hash hd);
  shows_meta_txs_root : hash_try_into (h_meta_txs_root v) = Ok (meta_txs_root hd);
  shows_meta_state_root : hash_try_into (h_meta_state_root v) = Ok (meta_state_root hd);
  shows_meta_receipts_root : hash_try_into (h_meta_receipts_root v) = Ok (meta_receipts_root hd);
  shows_payload_txs_root : hash_try_into (h_payload_txs_root v) = Ok (payload_txs_root hd);
  shows_gap : hex_try_u64 (h_payload_execution_gap v) = Ok (payload_execution_gap hd mod 2 ^ 8)%Z;
  shows_payload_state_root :
    hash_try_into (h_payload_execution_state_root v) = Ok (hdr_payload_execution_state_root hd);
  shows_payload_receipts_root :
    hash_try_into (h_payload_execution_receipts_root v) = Ok (hdr_payload_execution_receipts_root hd);
}.
Record shows_body (v : Body) (bd : Types.Body) : Prop := {
  shows_meta_txs : hash_try_into <$> b_meta_txs v = Ok <$> body_meta_txs bd;
  shows_payload_txs : hash_try_into <$> b_payload_txs v = Ok <$> body_payload_txs bd;
}.
Definition shows_witness (v : Witness) (x : Types.Witness) : Prop :=
  hex_try_into (wi_public_key v) = Ok (w_public_key x) ∧ hex_try_into (wi_signature v) = Ok (w_signature x) ∧
  hex_try_u32 (wi_nonce v) = Ok (u32 (w_nonce x)) ∧ hex_try_u64 (wi_until v) = Ok (u64 (w_until x)).
Definition shows_transaction (v : Transaction) (x : Types.Transaction) : Prop :=
  call_try_into (t_call v) = Ok (call x) ∧
  match t_witness v, witness x with
  | Some a, Some b => shows_witness a b
  | None, None => True
  | _, _ => False
  end.
(** The fields of a header but its hash. *)
Definition header_texts (v : Header) :=
  (h_number v, h_timestamp v, h_parent_hash v, h_meta_txs_root v, h_meta_state_root v, h_meta_receipts_root v,
   h_payload_txs_root v, h_payload_execution_gap v, h_payload_execution_state_root v,
   h_payload_execution_receipts_root v).

Lemma header_from_shows hd : shows_header (header_from hd) hd.
Proof.
  constructor; cbn [header_from h_number h_timestamp h_parent_hash h_meta_txs_root h_meta_state_root
    h_meta_receipts_root h_payload_txs_root h_payload_execution_gap h_payload_execution_state_root
    h_payload_execution_receipts_root]; try apply hash_text_back; try apply (try_number_text 8); try done.
  etransitivity; [by apply (try_number_width (2 ^ 64) 1)|]. by rewrite (Z.mod_mod _ (2 ^ 8)).
Qed.
Lemma body_from_shows bd : shows_body (body_from bd) bd.
Proof.
  constructor; cbn [body_from b_meta_txs b_payload_txs]; rewrite <-list_fmap_compose;
    apply list_fmap_ext; intros; apply hash_text_back.
Qed.
Lemma transaction_from_shows x : shows_transaction (transaction_from x) x.
Proof.
  destruct x as [[[pk sg n u]|] [m f ps]]; split;
    try (cbn; unfold call_try_into; cbn [call_from ca_params ca_module ca_method params module method];
         by rewrite hex_text_back); [|done].
  split; [apply hex_text_back|]. split; [apply hex_text_back|].
  split; [by apply (try_number_text 4)|by apply (try_number_text 8)].
Qed.

(** C23: the chain can be read from the outside, and nothing of it is lost or
    changed.  Take any number up to the last confirmed one and ask for it by the
    number itself, in either form, or by its tag: the answer shows the block that
    the chain holds there, with its hash.  Every field of its header is read
    back from the answer (the numbers at the width of their type), and the lists
    of its transactions are, in order.  The same answer is given under that
    hash; the methods for headers show the same header, with the hash.  Under
    each hash that the body lists, the transaction of the chain is answered, with
    that hash and every field.  The hash of the parent leads to the block before
    it, and so on to the first. *)
Theorem chain_is_walked w n e k number : chain_ok (chain_db w) n e → (0 ≤ k ≤ n)%Z → asks_for w number k →
  ∃ h hd bd v ht, block_at (chain_db w) k h hd bd ∧
    chain_get_block_by_number w number = Ok (Some v) ∧ bl_hash v = Some ht ∧ hash_try_into ht = Ok h ∧
    shows_header (bl_header v) hd ∧ hex_try_u64 (h_number (bl_header v)) = Ok k ∧ shows_body (bl_body v) bd ∧
    chain_get_block_by_hash w ht = Ok (Some v) ∧
    (∃ hv, chain_get_header_by_number w number = Ok (Some hv) ∧ chain_get_header_by_hash w ht = Ok (Some hv) ∧
       h_hash hv = Some ht ∧ header_texts hv = header_texts (bl_header v)) ∧
    (∀ t, t ∈ b_meta_txs (bl_body v) ++ b_payload_txs (bl_body v) →
       ∃ th tx x, hash_try_into t = Ok th ∧ get_transaction th (chain_db w) = Ok (Some tx) ∧
         chain_get_transaction_by_hash w t = Ok (Some x) ∧ t_hash x = Some t ∧ shows_transaction x tx) ∧
    ((0 < k)%Z → chain_get_block_by_hash w (h_parent_hash (bl_header v)) =
       chain_get_block_by_number w (BlockNumberNumber (k - 1))).
Proof.
  intros [Hl _ _] Hk Hask. pose proof (linked_range _ _ Hl) as Hn.
  assert (is_u64 k) as Hu by (unfold is_u64; lia). apply asks_for_number in Hask; [|done].
  destruct (linked_blocks _ _ Hl k Hk) as (h & hd & bd & Hat).
  exists h, hd, bd, (with_block_hash h (block_from (Types.Build_Block hd bd))), (hash_from h).
  split; [done|]. destruct Hat as [Hh Hhd Hbd Hnum Htx].
  assert (∀ A V (get : Node → Types.Hash → CommonResult (option A)) (from : A → V) with_hash,
    by_number get from with_hash w number = by_hash get from with_hash w (hash_from h)) as Hby
    by (intros; by eapply by_number_at).
  assert (get_block h (chain_db w) = Ok (Some (Types.Build_Block hd bd))) as Hblock
    by (unfold get_block; rewrite Hhd; cbn [result_bind]; by rewrite Hbd).
  unfold chain_get_block_by_number, chain_get_header_by_number, chain_get_block_by_hash, chain_get_header_by_hash.
  rewrite !Hby, !by_hash_text. cbn [api_block api_header node default_api]. rewrite Hblock, Hhd.
  cbn [result_bind fmap option_fmap option_map custom map_err with_block_hash block_from bl_hash bl_header bl_body
       bk_header bk_body].
  split; [done|]. split; [done|]. split; [apply hash_text_back|]. split; [apply header_from_shows|].
  split; [cbn [header_from h_number]; rewrite Hnum; by apply u64_text_back|].
  split; [apply body_from_shows|]. split; [done|]. split; [by eexists|]. split.
  - intros t. cbn [body_from b_meta_txs b_payload_txs]. rewrite <-fmap_app. intros (y & -> & Hy)%list_elem_of_fmap.
    destruct (Htx y Hy) as [x Hx]. exists y, x. unfold chain_get_transaction_by_hash. rewrite by_hash_text.
    cbn [api_transaction node default_api]. rewrite Hx. eexists. split; [apply hash_text_back|].
    split; [done|]. split; [done|]. split; [done|]. apply transaction_from_shows.
  - intros Hpos. symmetry. apply by_number_at with (k := (k - 1)%Z); [done|].
    apply (linked_parents _ _ Hl k h hd); [lia|done..].
Qed.
End Node.

(** ** A concrete node: the chain of [ChainSamples] *)
Module ApiSamples.
Import Rpc Methods ChainSamples TrieSample.
#[local] Existing Instance Samples.sample_serialize.

Fixpoint sample_decode (s : string) : option bytes :=
  match s with
  | EmptyString => Some []
  | String c (String d rest) =>
      x ← to_digit 16 c; y ← to_digit 16 d; bs ← sample_decode rest; Some (byte_of (x * 16 + y) :: bs)
  | _ => None
  end.
Definition sample_encode (bs : bytes) : string :=
  foldr (λ c s, String (hex_digit (byte_value c / 16)) (String (hex_digit (byte_value c mod 16)) s)) "" bs.

Lemma sample_decode_encode bs : sample_decode (sample_encode bs) = Some bs.
Proof.
  induction bs as [|c bs IH]; [done|]. cbn [sample_encode foldr sample_decode].
  pose proof (byte_value_range c). pose proof (Z.div_mod (byte_value c) 16 ltac:(lia)).
  pose proof (Z.mod_pos_bound (byte_value c) 16 ltac:(lia)).
  destruct (hex_digit_cases (byte_value c / 16)) as (-> & _); [lia|].
  destruct (hex_digit_cases (byte_value c mod 16)) as (-> & _); [lia|].
  cbn [mbind option_bind]. unfold sample_encode in IH. rewrite IH. cbn. f_equal. f_equal.
  replace (byte_value c / 16 * 16 + byte_value c mod 16)%Z with (byte_value c) by lia.
  apply byte_of_value.
Qed.

#[local] Instance sample_hex : HexLib := {|
  hex_encode := sample_encode; hex_decode := sample_decode; hex_encode_nil := eq_refl;
  hex_encode_cons _ _ := eq_refl; hex_decode_encode := sample_decode_encode;
|}.
#[local] Instance sample_texts : NetworkTexts := {|
  peer_id_text (_ : unit) := "peer"; multiaddr_text (_ : unit) := "address";
  connected_point_debug (_ : unit) := "point"; duration_debug (_ : unit) := "time";
|}.
#[local] Instance sample_json : JsonLib := {| Null := []; json_from_slice bs := Some bs |}.
#[local] Instance sample_node : ApiSupport :=
  default_api modules 100 (λ _, Refused "closed") (λ _, Canceled "dropped").

(** Numbers and bytes as the methods write and read them. *)
Lemma number_texts : hex_from_u64 10 = Hex "0x000000000000000a" ∧ hex_from_i8 (-1) = Hex "0xff" ∧
  number_try_u64 (NumberString "0x+0A") = Ok 10%Z ∧ number_try_u64 (NumberString "10") = Ok 10%Z ∧
  is_ok (number_try_u64 (NumberString "0x10000000000000000")) = false ∧
  is_ok (number_try_u64 (NumberString "0x")) = false ∧
  is_ok (number_try_u32 (NumberString "4294967296")) = false ∧
  hex_try_into (Hex "0x0x0a") = Ok [Byte.x0a].
Proof. by vm_compute. Qed.

Definition idle (s : Backend) : DefaultConsensusSupport :=
  Build_DefaultConsensusSupport (Build_Chain s []) TxPool.txpool_new.
(** Alice pays Bob, with her key, the nonce and the block in texts. *)
Definition sample_request : BuildTransactionRequest := {|
  bt_witness := Some (hex_from_bytes alice, NumberString "0x5", Number 10);
  bt_call := call_from (transfer_to bob 30);
|}.

Lemma sent_computes : succeeds (init_genesis modules (Some spec_text) new_node) (λ s1,
  match chain_build_transaction (idle s1) sample_request with
  | Ok raw => is_ok (chain_send_raw_transaction raw (idle s1)).1 = true
  | Err _ => False
  end).
Proof. vm_compute. reflexivity. Qed.

Lemma built_transaction_is_sent_witness : ∃ s1 raw t h w',
  chain_build_transaction (idle s1) sample_request = Ok raw ∧
  chain_send_raw_transaction raw (idle s1) = (Ok (hash_from h), w') ∧
  txpool_get_transaction w' (hash_from h) = Ok (Some (with_transaction_hash h (transaction_from t))) ∧
  ∃ e, chain_send_raw_transaction raw w' = (Err e, w').
Proof.
  destruct (succeeds_run _ _ sent_computes) as (s1 & _ & H).
  destruct (chain_build_transaction _ _) as [raw|] eqn:Hb; [|done].
  destruct (built_transaction_is_sent modules 100 (λ _, Refused "closed") (λ _, Canceled "dropped") (idle s1)
    sample_request raw ltac:(by vm_compute) eq_refl eq_refl Hb) as (t & h & _ & _ & _ & Ht).
  destruct (insert_rejection _ _ t (txpool (idle s1))) as [e|].
  - discriminate (eq_trans (eq_sym H) (f_equal (λ x, is_ok x.1) Ht)).
  - destruct Ht as (w' & Hs & _ & _ & Hf & He). exists s1, raw, t, h, w'.
    split; [exact Hb|]. split; [exact Hs|]. split; [exact Hf|exact He].
Defined.

Lemma chain_is_walked_witness : ∃ w v h v0,
  chain_get_block_by_number w (BlockNumberString "confirmed") = Ok (Some v) ∧
  chain_get_block_by_hash w h = Ok (Some v) ∧ hex_try_u64 (h_number (bl_header v)) = Ok 1%Z ∧
  chain_get_block_by_hash w (h_parent_hash (bl_header v)) = Ok (Some v0) ∧
  hex_try_u64 (h_number (bl_header v0)) = Ok 0%Z.
Proof.
  destruct run_exists as (s1 & q & s2 & s3 & R).
  pose proof (ext_chain _ _ _ _ _ _ (run_extended R)) as Hok.
  assert (asks_for (idle s2) (BlockNumberString "confirmed") 1) as Hask
    by (right; left; split; [done|exact (linked_confirmed _ _ (ok_linked _ _ _ Hok))]).
  destruct (chain_is_walked modules 100 (λ _, Refused "closed") (λ _, Canceled "dropped") (idle s2) 1 0 1 _ Hok
    ltac:(lia) Hask) as (h & hd & bd & v & ht & _ & Hv & _ & _ & _ & Hn & _ & Hh & _ & _ & Hp).
  destruct (chain_is_walked modules 100 (λ _, Refused "closed") (λ _, Canceled "dropped") (idle s2) 1 0 0
    (BlockNumberNumber 0) Hok ltac:(lia) ltac:(left; left; done))
    as (h0 & hd0 & bd0 & v0 & ht0 & _ & Hv0 & _ & _ & _ & Hn0 & _).
  exists (idle s2), v, ht, v0. split; [exact Hv|]. split; [exact Hh|]. split; [exact Hn|].
  split; [exact (eq_trans (Hp eq_refl) Hv0)|exact Hn0].
Defined.
End ApiSamples.
